(* ===== verification/_CoqProject ===== *)
-Q . S2P
Prelude.v
Bytes.v
Text.v
FlowFrame.v
Scheduler.v
SelectiveFec.v
ArrayQueue.v
PacketPool.v
Digests.v
StunCodec.v
TurnMessage.v
TurnCore.v
TurnCoreFacts.v
Replay.v
ChannelData.v
TurnReceive.v
TurnStream.v
Protocol.v
Repair.v
Idle.v
TurnEndpoint.v
PacketQueue.v
Dispatcher.v
ReturnPath.v
Ciphers.v
Obfs.v
Credentials.v
WorkerErrors.v
WorkerGates.v
Groups.v
Worker.v
Shutdown.v
Writer.v
Session.v
Bridge.v
Rebind.v
SessionRun.v
Dns.v
Logger.v
Engine.v
UdpBatch.v
TurnDriver.v
TurnApi.v
Web.v
Profiles.v
WebClient.v
CaptchaPage.v
CaptchaClient.v
CaptchaSlider.v
CaptchaFlow.v
VkResponses.v
VkCalls.v
VkAuth.v
Downlink.v
BatchWriters.v
Uplink.v
Lifecycle.v
Waits.v
WriterLoop.v
Resequence.v
Supervise.v
Registries.v
Sockets.v
Creator.v
LogSink.v
Names.v
Start.v
