(* ===== verification/Prelude.v ===== *)
(** * Verification of the CSQTT transport engine

    The engine ([examples/modulecsqtt/native/csqtt-engine], called the crate
    below) tunnels a device's IP packets through TURN relays. The packets of the
    interface are spread over many workers; a worker owns one TURN allocation,
    reached over UDP, TCP or TLS, and one session with the server behind the
    relay. This library models the crate's own logic as executable definitions
    and proves what makes it correct. Cryptography, sockets, tasks and queues of
    third-party crates are interfaces or arguments.

    ** How the parts interact

    A packet read from the interface, the local port or the bridge of the host
    (Uplink) sits in a buffer of the pool (PacketPool). The dispatcher frames it when it belongs to a TCP flow (ReturnPath over
    FlowFrame), classifies it (Scheduler), takes a ticket from the round-robin
    cursor of its class (Dispatcher) and places it in a queue of a healthy
    worker (PacketQueue); short datagrams and QUIC handshakes also go to a
    second worker, and a worker sends some packets twice (SelectiveFec). The
    worker wraps the packet in ChannelData (ChannelData) and sends it to its
    relay. The allocation behind it is kept by a sans-IO TURN client (TurnCore
    over TurnMessage and StunCodec) that a driver feeds with datagrams and
    timers (TurnDriver over TurnReceive; TurnApi is what a session sees of it);
    over UDP datagrams are read and written in batches (UdpBatch), over TCP and
    TLS they are cut out of a stream (TurnStream). What the server returns passes the replay window (Replay), and
    is either a control message (Protocol), which may restart workers (Repair),
    or a packet, which goes through the return queues and the reassembler
    (ReturnPath) back to the interface (Downlink) or, in batches, to the host or
    the local port (BatchWriters). A silent tunnel parks its workers (Idle). The
    relays come from TURN URIs (TurnEndpoint).

    Between the queues and the allocation stands a session: its writer wraps
    the packets of the queues (Writer over Obfs), its reader authenticates and
    sorts what arrives (Session over Obfs and Replay), and its beginning and end
    are in SessionRun, which hands the packets it leaves behind back to the
    dispatcher; what it enters into the shared tables while it lives is in
    Registries. A worker runs one session after the other (Worker), is started
    again when it panics (Supervise), and takes its leases from a
    credential that it shares with seventeen others (Groups, Credentials), at a
    pace that the gates set (WorkerGates), and reads from the error of a session
    how to go on (WorkerErrors). The farewell to the server goes over the
    streams of the sessions (Shutdown). The network and the sleep of the device
    restart or probe the allocations (Rebind). The host application injects
    packets instead of an interface (Bridge), and starts, configures and
    commands the engine (Engine); its calls reach the engines of the process
    through slots that all of them share (Lifecycle); names are resolved (Dns), sockets are opened around the tunnel (Sockets) and lines logged
    (Logger over LogSink) beside all this. The credentials come from the web service of the
    calls (VkAuth over VkResponses, VkCalls for an account, and the captcha of
    CaptchaFlow over CaptchaPage, CaptchaClient and CaptchaSlider), asked as one
    of the browsers of Profiles.

    ** The files and the code they model

    - Prelude, Bytes: the outcome [res] of code that may panic, [result] for
      fallible code, machine integers and their arithmetic, slices, big-endian
      integers, and the lemmas and tactics that the components share.
    - ArrayQueue, Digests: interfaces. ArrayQueue states what
      [crossbeam_queue::ArrayQueue] promises through the list of its elements;
      Digests names CRC-32, HMAC-SHA1 and MD5 and the widths of their results.
      Every component that uses them is proved against the class; [ListQueue]
      and the toy digests of the witnesses are instances.
    - FlowFrame ([shared/flow_frame.rs]): header codec, TCP flow ids, the
      sequencer, and the reassembler [push_at] with its gap timer and limits.
    - Scheduler ([shared/striped_scheduler.rs]), SelectiveFec
      ([shared/selective_fec.rs]): packet classes; duplication tests and budget.
    - PacketPool ([packet.rs]): buffers and their ranges; the pool's atomic
      steps as the step relation [pool_step].
    - StunCodec ([stun_codec.rs]): decoder and accessors, related to the grammar
      [well_formed] of RFC 8489.
    - TurnMessage, TurnCore ([turn_core.rs]): the message builder; [Inner], the
      state behind the client's mutex, and one definition per method and
      handler. A method holds the mutex for its whole body, so a call is one
      atomic step and a history is a list of calls ([run_calls]). Clock readings
      and random transactions are the [Env] argument. TurnCoreFacts holds the
      theorems beyond the invariant.
    - ChannelData, TurnReceive ([turn.rs]): the ChannelData codec and the STUN
      test; [DriverShared], [pump_native], [process_packet], the receiver.
    - TurnStream ([turn_stream.rs]): [read_frame] over an arbitrary sequence of
      reads, and the writer's choice between control and data.
    - Replay ([session.rs], [ReplayWindow]): the bitmap and the extension of
      16-bit RTP sequence numbers.
    - Protocol ([protocol.rs]), Repair ([repair.rs]): control messages; repair
      commands run alone and as interleaved atomic accesses ([slot_step]).
    - Idle ([idle.rs], and [build_registration_payload] of [session.rs]): the
      process-wide atomics as one record; [enter] and [exit] also access by
      access.
    - TurnEndpoint ([turn_endpoint.rs]): TURN URIs and their transports.
    - PacketQueue, Dispatcher, ReturnPath ([dispatcher.rs]): one epoch-stamped
      queue, run alone and as the interleaved accesses of senders and a
      resuming receiver ([queue_step]); the worker table, cursors and placement
      over a store of shared queues and health flags; framing, spares, the
      return queues, reordering and batches.
    - Downlink, BatchWriters, Uplink ([dispatcher.rs], with the callbacks of
      [packet_bridge.rs]): the loops that move packets between the queues and the
      interface, the port and the host. Each loop is a state, the place where it
      waits, and a turn function from what it is woken by; the kernel's answers
      are arguments or scripts, what others do to the queues between two awaits
      is an effect on the [World]. The task of the interface races its reader and
      its writer and takes replacements ([tun_task_turn]).
    - Text: strings as lists of code points, with the searches, trims and splits
      of the standard library that the components use.
    - Ciphers, Obfs ([obfs.rs], [authenticate_inbound] of [session.rs]): the
      interface of the ciphers and of HMAC-SHA256, and the wrapping of a packet
      as RTP, byte for byte; [wrap_packet] and [unwrap_packet] follow the two
      modes, and [tunnel] is a history of both ends.
    - Credentials, Groups, WorkerErrors, WorkerGates, Worker ([worker.rs], with
      the texts of [turn.rs], [turn_core.rs] and [session.rs]): the credential
      cache under its mutex; hashes, groups and cohorts; the error chain and the
      tests on it; the log gate, the configuration flight and the start pacer;
      and the decision of [worker_loop] after a session, as a function of what
      the session ended with.
    - Shutdown, Writer, Session, SessionRun ([session.rs]): the coordinator of
      the farewell; the writer's lanes and batches; the choice of the address,
      the handshake and the dispatch of inbound packets; [run_session] and the
      loop of [run_allocated_session] from what their awaits meet.
    - Bridge ([packet_bridge.rs], [read_bridge] of [dispatcher.rs]), Rebind
      ([rebind.rs], [wake.rs], and [StreamRepair::changed] of [repair.rs]), Dns
      ([dns.rs]), Logger ([logging.rs]), Engine ([lib.rs], [turn_seed.rs],
      [stats.rs], [events.rs]): each as sequential operations, and the first,
      second and fourth also as the interleaved accesses of the threads that
      share them ([wake_step], [log_step]).
    - Lifecycle ([ffi.rs] and the frame of [run] in [lib.rs]): the configuration
      that the host passes, and the engines of a process over its slots, with
      every call of the host and every access of an engine as one event
      ([process_step]), a panic of [run] included.
    - WriterLoop ([writer_loop] of [session.rs]): the task of the writer turn by
      turn, with the commands of the engine.
    - Resequence: a specification over FlowFrame and ReturnPath. As long as no
      packet of a flow overtakes another by too much the reassembler gives the
      packets of the flow in their order, which makes framing and return path
      together transparent to the flow ([flow_transparent]).
    - Supervise ([worker_loop] and [supervise_worker] of [worker.rs]): the parts
      of Worker composed place by place, with restarts after panics.
    - Registries ([run_allocated_session] of [session.rs]): the entries of a
      session in the coordinator, the table and the counters, and the drops of
      its guards, as interleaved accesses of all sessions.
    - Sockets ([protect.rs], with the socket code of [dns.rs], [turn.rs],
      [turn_stream.rs], [turn_endpoint.rs] and [dispatcher.rs]): what is done to a socket as a
      list of effects, with the results.
    - Creator ([lib.rs]): the readiness of credentials, the creator of the
      calls, the account from the host, the links to check, the parent.
    - LogSink ([logging.rs]): the sinks and the wait for their writer.
    - Start ([tun.rs], and [start], [spawn_critical] and [shutdown] of
      [dispatcher.rs]): how an interface is taken from the host, what each way of
      starting leaves running, and the end of the tasks.
    - Names ([namegen.rs]): the tables, the feminine surnames, the draw.
    - Waits ([PauseGate] of [worker.rs], and the waits of [idle.rs] and
      [session.rs]): a waiter on tokio's [Notify] and the threads that change
      what it watches; the class [Disciplined] says what the threads owe the
      waiter, and each wait is an instance.
    - UdpBatch ([udp_batch.rs]): batches by one system call with their fallback,
      over a script of kernel answers; sending to a destination is proved to be
      the connected send ([send_to_paired]).
    - TurnDriver, TurnApi ([turn.rs]): the loops [driver_loop_udp] and
      [driver_loop_stream] turn by turn, with what the owner does between the
      turns and the time at which the sleep that a turn armed is over; a schedule
      without an end, on a host that is late by at most a given time, is [runs].
      The operations of an allocation from connecting to its end.
    - Web ([query_escape] of [auth.rs], [encode_form] of [captcha.rs]), Profiles
      ([profiles.rs]): percent encoding and forms with their readers; the draw of
      a browser profile.
    - WebClient: a client as a tree of calls to the outside ([prog]), which
      [run] answers by an oracle, and [run_log] with the answers written down.
      [wp] and [always] speak of all answers at once, [wp] with a budget of
      requests, [traced] of each request and what came before it, and [alike] of
      two programs that differ in a secret. [retry] is the one of [vk_js_calls.rs].
    - CaptchaPage, CaptchaClient, CaptchaFlow ([captcha.rs]), CaptchaSlider
      ([captcha_slider.rs]): the page and its proof of work, the requests, the
      chain of attempts, and the ranking of the guesses of a slider.
    - VkResponses, VkAuth ([auth.rs]), VkCalls ([vk_js_calls.rs]): the answers of
      VK; the two paths to the credentials of a call, the lockout and the check of
      links; sessions, calls and credentials of an account.

    ** What the theorems show

    - Invariants: [core_safe], [driver_loops_safe], [tun_task_safe],
      [udp_sends_batches], [pool_budget], [registries_exact] and [lease_budget] hold after every
      history of calls or turns, and the first five say that none panics; [repair_once], [stale_never_delivered],
      [pool_budget] and [registries_exact] hold under every interleaving of atomic steps, by induction
      on the steps.
    - Refinement and equivalence: [accept_refines] (the bitmap is the set of
      accepted counters), [flow_transparent] (the two ends of a flow are the identity), [decode_iff] and [parse_response_exact] (the decoders
      accept their grammars), [inbound_iff], and [token_confined], which compares
      two runs.
    - Functional behaviour: [push_at_in_order], [stream_reassembled],
      [writer_turn_exact], [hand_over_complete], [handshake_complete],
      [inject_keeps_latency], [batch_sent_or_refused], [tun_writes_whole].
    - Round trip: [wrap_unwrap].
    - Safety: [relay_authenticated], [accepted_once], [nonces_distinct],
      [lease_returned_once], [inbound_sorted], [credentials_confined],
      [tun_reads_forward], [orderly_host], [protected_before_use].
    - Liveness and termination: [tunnel_delivers], [worker_never_lost],
      [cleanup_ends], [captcha_ends],
      [waits_never_oversleep].
    - Bounds and errors: [disconnect_in_order], [lookup_exact].
    - Lemmas of the same weight stand in their components: [push_at_wf],
      [frame_survives], [build_request_decodes], [place_delivers],
      [make_batch_ok], [stream_command_iff], [idle_consistent], [groups_share],
      [run_size_bounded], [batch_sent_once], [given_up_for_good],
      [connected_is_allocated], [credentials_exact], [dead_calls_end],
      [links_checked], [weighted_exactly], [batch_received], [answers_pumped],
      [guesses_ranked], [pow_first_nonce], [window_init_exact], [burst_ends],
      [bridge_delivers], [bridge_drained], [config_checked], [probe_exact],
      [worker_persists], [udp_reads_forward], [form_roundtrip], [calls_confined],
      [flow_resequenced], [ready_attainable], [bootstrap_sound], [sink_prefix],
      [wait_truthful], [drawn_name], [returns_from_start], [received_from],
      [files_handed_on], [shutdown_joins].
    - Behaviour that the code does not intend is stated next to what holds:
      [network_watched], [reader_woken], [gaps_taken], [lines_accounted],
      [full_buffer_keeps_stale_packet], [enter_exit_race],
      [rebind_depends_on_route], [requests_bounded], [register_first_wakes],
      [closing_forgets_pump], [config_checked], and the examples
      [oversized_costs_batch], [first_step_not_read], [dead_calls_not_seen],
      [empty_packet_fails], [counts_differ], [half_sent_uncounted],
      [early_stop_lost], [late_end_takes_slots], [ready_without_dns],
      [stale_request_spoils], [lease_lost_in_panic], [zero_told_late],
      [older_hides_path], [refused_socket_used], [bad_proxy_dropped],
      [creator_stays], [silent_peer_blocks], [restored_shared_again],
      [crash_keeps_bridge] and [flooded_never_leaves].

    ** Conventions, bounds and fuel

    A w-bit integer is a [Z]; [is_u w] bounds it, and wrapping, checked and
    saturating operations are written out. A byte is a [Z] below 256. A Rust
    panic is the value [Panic] of [res], so that "never panics" is a theorem;
    errors are constructors in place of their texts. An [Instant] is a [Z] of
    nanoseconds, or of milliseconds where the code converts it. Atomic accesses are sequentially consistent; a
    handler that holds a mutex is one step.

    Loops are structural where they walk a list. The others take fuel from the
    data they consume: the elements of a queue plus one ([recv_turns],
    [pop_all]), the packets of the three return queues plus two
    ([next_ordered_return_packet]), the length of a datagram plus one
    ([validate], the attribute walk), a turn per transaction
    ([expire_transactions]), the controls and events of a core ([pump_native]),
    the pending packets of a flow ([drain_loop]), the length of a DNS message
    plus one ([skip_name]), the lines left to write ([drain]), the queued packets
    of a bridge ([bridge_turns]). A burst has its limit, or a kernel that sends it
    back, as its end ([run_burst], [burst_ends]). The drain of a closing driver has
    no end of its own: a turn whose socket has given only datagrams is still in it
    ([Drains]). Where a loop could run out,
    running out is [Panic] or a value that the theorems exclude.

    ** What is not modelled

    Tasks, timers, file descriptors and the JNI and C entry points,
    which only move data in and out of the modelled operations: what they meet
    is an argument of the operation, and their interleaving a step relation
    where the code shares state.
    The web clients leave out what their HTTP library does (cookies, redirects,
    header order, TLS) and the random path of the slider's cursor ([build_cursor]). Of [lib.rs] the order of the steps of [run]
    is modelled, not the spawning and joining of its tasks; of the start of
    [dispatcher.rs] what it decides and returns, the tasks by their names.
    The manifest of the development lists every part left out with its reason.
    [client_perf] only times the closures that it is given, and is transparent
    here. *)

From stdpp Require Export base numbers list option decidable gmap.
From Stdlib Require Export ZArith Lia.
#[global] Open Scope Z_scope.

(** ** Partial operations

    [res A] is the outcome of a piece of Rust code that may panic (an index
    out of range, a slice whose ends are out of order, a failed [copy_from_slice]). *)

Inductive res (A : Type) : Type :=
| Ret (a : A)
| Panic.
Arguments Ret {A} a.
Arguments Panic {A}.

#[export] Instance res_ret : MRet res := fun A a => Ret a.
#[export] Instance res_bind : MBind res :=
  fun A B f m => match m with Ret a => f a | Panic => Panic end.

#[export] Instance res_fmap : FMap res :=
  fun A B f m => match m with Ret a => Ret (f a) | Panic => Panic end.

Definition returns {A} (m : res A) : Prop := exists a, m = Ret a.

Lemma returns_ret {A} (a : A) : returns (Ret a).
Proof. by exists a. Qed.

Lemma returns_bind {A B} (m : res A) (f : A -> res B) :
  returns m -> (forall a, m = Ret a -> returns (f a)) -> returns (m ≫= f).
Proof. intros [a ->] H. by apply H. Qed.

Lemma bind_ret_inv {A B} (m : res A) (f : A -> res B) b :
  m ≫= f = Ret b -> exists a, m = Ret a /\ f a = Ret b.
Proof. destruct m as [a|]; [intros H; by exists a | done]. Qed.

(** Rust's [Result<A, E>]. *)
Inductive result (A E : Type) : Type :=
| Ok (a : A)
| Err (e : E).
Arguments Ok {A E} a.
Arguments Err {A E} e.

Definition is_ok {A E} (r : result A E) : bool :=
  match r with Ok _ => true | Err _ => false end.

(** Early returns: the [?] of a function that returns an [Option], and the
    [let Some(x) = e else return v] of one that does not. *)
Declare Scope rust_scope.
Delimit Scope rust_scope with rust.
Notation "'let?' x := e 'in' k" :=
  (match e with Some x => k | None => mret None end)
  (at level 10, x name, e at level 200, k at level 200) : rust_scope.
Notation "'letelse' x := e 'else' d 'in' k" :=
  (match e with Some x => k | None => d end)
  (at level 10, x name, e at level 200, d at level 200, k at level 200) : rust_scope.
#[global] Open Scope rust_scope.

(** ** Machine integers

    An unsigned w-bit integer is a [Z] in [0, 2^w); wrapping operations reduce
    modulo [2^w], saturating ones clamp. *)

Definition u8_max : Z := 2 ^ 8 - 1.
Definition u16_max : Z := 2 ^ 16 - 1.
Definition u32_max : Z := 2 ^ 32 - 1.
Definition u64_max : Z := 2 ^ 64 - 1.
Definition usize_max : Z := u64_max.

Definition is_u (w z : Z) : Prop := 0 <= z < 2 ^ w.
Definition wrap (w z : Z) : Z := z mod 2 ^ w.

Definition wrapping_add (w a b : Z) : Z := wrap w (a + b).
Definition wrapping_sub (w a b : Z) : Z := wrap w (a - b).
Definition wrapping_mul (w a b : Z) : Z := wrap w (a * b).
Definition saturating_add (w a b : Z) : Z := Z.min (a + b) (2 ^ w - 1).
Definition saturating_sub (a b : Z) : Z := Z.max (a - b) 0.
Definition saturating_mul (w a b : Z) : Z := Z.min (a * b) (2 ^ w - 1).
Definition checked_add (w a b : Z) : option Z :=
  if a + b <? 2 ^ w then Some (a + b) else None.
Definition checked_mul (w a b : Z) : option Z :=
  if a * b <? 2 ^ w then Some (a * b) else None.

Lemma wrap_is_u w z : 0 <= w -> is_u w (wrap w z).
Proof. intros Hw. apply Z.mod_pos_bound. by apply Z.pow_pos_nonneg. Qed.

Lemma wrap_small w z : is_u w z -> wrap w z = z.
Proof. apply Z.mod_small. Qed.

Lemma wrapping_succ_neq w z : 0 < w -> is_u w z -> wrapping_add w z 1 <> z.
Proof.
  unfold wrapping_add, wrap, is_u. intros Hw Hz He.
  assert (2 <= 2 ^ w) by (change 2 with (2 ^ 1) at 1; apply Z.pow_le_mono_r; lia).
  destruct (Z.eq_dec (z + 1) (2 ^ w)) as [Hm|Hm]; [rewrite Hm, Z.mod_same in He; lia|rewrite Z.mod_small in He; lia].
Qed.

Lemma saturating_sub_exact a b : b <= a -> saturating_sub a b = a - b.
Proof. unfold saturating_sub. lia. Qed.

Lemma checked_add_Some w a b c : checked_add w a b = Some c -> c = a + b /\ a + b < 2 ^ w.
Proof. unfold checked_add. destruct (Z.ltb_spec (a + b) (2 ^ w)); by intros [= <-]. Qed.

Lemma checked_mul_Some w a b c : checked_mul w a b = Some c -> c = a * b /\ a * b < 2 ^ w.
Proof. unfold checked_mul. destruct (Z.ltb_spec (a * b) (2 ^ w)); by intros [= <-]. Qed.

(** An [i64] counter: [fetch_add] wraps around in two's complement. *)
Definition wrap_i64 (z : Z) : Z := wrap 64 (z + 2 ^ 63) - 2 ^ 63.
Definition fetch_add_i64 (total n : Z) : Z := wrap_i64 (total + n).

Lemma wrap_i64_small z : - 2 ^ 63 <= z < 2 ^ 63 -> wrap_i64 z = z.
Proof. intros Hz. unfold wrap_i64. rewrite wrap_small; [lia|]. unfold is_u. change (2 ^ 64) with (2 ^ 63 + 2 ^ 63). lia. Qed.

Lemma fetch_add_i64_wrap a b : fetch_add_i64 (wrap_i64 a) b = wrap_i64 (a + b).
Proof.
  unfold fetch_add_i64, wrap_i64, wrap. f_equal.
  replace ((a + 2 ^ 63) mod 2 ^ 64 - 2 ^ 63 + b + 2 ^ 63) with ((a + 2 ^ 63) mod 2 ^ 64 + b) by lia.
  rewrite Z.add_mod_idemp_l by lia. f_equal. lia.
Qed.

(** ** Lists *)

Definition zlen {A} (l : list A) : Z := Z.of_nat (length l).

Lemma zlen_nonneg {A} (l : list A) : 0 <= zlen l.
Proof. unfold zlen. lia. Qed.
Lemma zlen_nil {A} : zlen (@nil A) = 0.
Proof. done. Qed.
Lemma zlen_zero {A} (l : list A) : zlen l = 0 <-> l = [].
Proof. unfold zlen. destruct l; cbn; [done|]. split; [lia|done]. Qed.
Lemma zlen_cons {A} (x : A) l : zlen (x :: l) = 1 + zlen l.
Proof. unfold zlen. simpl. lia. Qed.
Lemma zlen_app {A} (l k : list A) : zlen (l ++ k) = zlen l + zlen k.
Proof. unfold zlen. rewrite length_app. lia. Qed.
Lemma zlen_snoc {A} (l : list A) x : zlen (l ++ [x]) = zlen l + 1.
Proof. by rewrite zlen_app. Qed.
Lemma zlen_replicate {A} n (x : A) : zlen (replicate n x) = Z.of_nat n.
Proof. unfold zlen. by rewrite length_replicate. Qed.

Lemma zlen_drop_list {A} n (l : list A) : zlen (drop n l) = Z.max 0 (zlen l - Z.of_nat n).
Proof. unfold zlen. rewrite length_drop. lia. Qed.

(** [Vec::remove]: the list without its [i]-th element. *)
Definition remove_at {A} (i : nat) (l : list A) : list A := take i l ++ drop (S i) l.

(** [Vec::swap_remove]: the last element takes the place of the removed one. *)
Definition swap_remove {A} (i : nat) (l : list A) : list A :=
  match last l with
  | None => l
  | Some x =>
      if decide (S i = length l) then take i l
      else <[i := x]> (take (length l - 1) l)
  end.

Lemma remove_at_perm {A} i (l : list A) x : l !! i = Some x -> l ≡ₚ x :: remove_at i l.
Proof.
  intros H. unfold remove_at.
  rewrite <- (take_drop_middle l i x H) at 1. by rewrite Permutation_middle.
Qed.

Lemma remove_at_length {A} i (l : list A) x :
  l !! i = Some x -> length l = S (length (remove_at i l)).
Proof. intros H. by apply (Permutation_length (remove_at_perm _ _ _ H)). Qed.

Lemma swap_remove_perm {A} i (l : list A) x : l !! i = Some x -> l ≡ₚ x :: swap_remove i l.
Proof.
  intros H. unfold swap_remove.
  destruct (last l) as [y|] eqn:Hl.
  2:{ apply last_None in Hl. by subst. }
  apply last_Some in Hl as [k ->].
  pose proof (lookup_lt_Some _ _ _ H) as Hi. rewrite length_app in Hi. simpl in Hi.
  rewrite length_app, Nat.add_1_r. simpl.
  rewrite Nat.sub_0_r, take_app_length.
  case_decide as Hd.
  - assert (i = length k) as -> by lia.
    rewrite take_app_length.
    rewrite lookup_app_r, Nat.sub_diag in H by lia. simpl in H. injection H as ->.
    by rewrite Permutation_app_comm.
  - rewrite lookup_app_l in H by lia.
    rewrite <- (take_drop_middle k i x H) at 1.
    rewrite insert_take_drop by lia.
    rewrite <- !app_assoc. simpl.
    rewrite <- Permutation_middle. constructor.
    by rewrite (Permutation_app_comm (drop (S i) k)).
Qed.

Lemma swap_remove_length {A} i (l : list A) x :
  l !! i = Some x -> length l = S (length (swap_remove i l)).
Proof. intros H. by apply (Permutation_length (swap_remove_perm _ _ _ H)). Qed.

Lemma zlen_perm {A} (l k : list A) : l ≡ₚ k -> zlen l = zlen k.
Proof. intros H. unfold zlen. by rewrite H. Qed.

(** [Iterator::position]. *)
Definition position {A} (f : A -> bool) (l : list A) : option nat :=
  fst <$> list_find (fun x => f x = true) l.

Lemma position_Some {A} (f : A -> bool) l i :
  position f l = Some i ->
  exists x, l !! i = Some x /\ f x = true /\ (forall j y, l !! j = Some y -> (j < i)%nat -> f y = false).
Proof.
  unfold position. intros H. apply fmap_Some in H as ([j x] & H & ->).
  apply list_find_Some in H as (Hl & Hf & Hmin).
  exists x. split_and!; [done..|]. intros k y Hk Hlt.
  specialize (Hmin k y Hk Hlt). by destruct (f y).
Qed.

Lemma position_None {A} (f : A -> bool) l :
  position f l = None -> forall x, x ∈ l -> f x = false.
Proof.
  unfold position. intros H%fmap_None x Hx.
  apply list_find_None in H. rewrite Forall_forall in H.
  specialize (H x Hx). by destruct (f x).
Qed.

(** Bounded push, as [if len == cap { pop_front() } push_back(x)]. *)
Definition push_evict {A} (cap : Z) (l : list A) (x : A) : list A :=
  (if zlen l =? cap then drop 1 l else l) ++ [x].

Lemma push_evict_bound {A} cap (l : list A) x :
  0 < cap -> zlen l <= cap -> zlen (push_evict cap l x) <= cap.
Proof.
  intros Hc Hl. unfold push_evict. rewrite zlen_app, zlen_cons, zlen_nil.
  destruct (Z.eqb_spec (zlen l) cap); [|lia].
  unfold zlen in *. rewrite length_drop. lia.
Qed.

(** ** Automation *)

Create HintDb engine.
#[export] Hint Resolve returns_ret zlen_nonneg wrap_is_u : engine.

(** Turn boolean tests of the source into propositions. *)
Ltac bool_to_prop :=
  repeat match goal with
  | H : (_ && _) = true |- _ => apply andb_true_iff in H as [? ?]
  | H : (_ || _) = false |- _ => apply orb_false_iff in H as [? ?]
  | H : negb _ = true |- _ => apply negb_true_iff in H
  | H : negb _ = false |- _ => apply negb_false_iff in H
  | H : (_ <? _) = true |- _ => apply Z.ltb_lt in H
  | H : (_ <? _) = false |- _ => apply Z.ltb_ge in H
  | H : (_ <=? _) = true |- _ => apply Z.leb_le in H
  | H : (_ <=? _) = false |- _ => apply Z.leb_gt in H
  | H : (_ =? _) = true |- _ => apply Z.eqb_eq in H
  | H : (_ =? _) = false |- _ => apply Z.eqb_neq in H
  end.

(** Split the conjunctions that are written as such, unfolding nothing. *)
Ltac conjs := repeat match goal with |- _ /\ _ => split end.

(** Case analysis on the outermost test of the goal. *)
Ltac branch :=
  match goal with
  | |- context [if ?b then _ else _] => let E := fresh "E" in destruct b eqn:E
  | |- context [match ?o with Some _ => _ | None => _ end] =>
      let E := fresh "E" in destruct o eqn:E
  end.

(** Case analysis on the first test [x <? y] or [x <=? y] of the goal. *)
Ltac destruct_ltb :=
  match goal with
  | |- context [if ?x <? ?y then _ else _] => destruct (Z.ltb_spec x y)
  | |- context [if ?x <=? ?y then _ else _] => destruct (Z.leb_spec x y)
  end.

Ltac branches := repeat (branch; simplify_eq/=); bool_to_prop.

(** [Iterator::min_by_key]: the first element whose key is minimal. *)
Fixpoint min_by_key {A} (key : A -> Z) (l : list A) : option A :=
  match l with
  | [] => None
  | x :: t =>
      match min_by_key key t with
      | None => Some x
      | Some y => if key x <=? key y then Some x else Some y
      end
  end.

Lemma min_by_key_None {A} (key : A -> Z) l : min_by_key key l = None -> l = [].
Proof. destruct l; simpl; [done|]. repeat case_match; done. Qed.

Lemma min_by_key_Some {A} (key : A -> Z) l x :
  min_by_key key l = Some x -> x ∈ l /\ forall y, y ∈ l -> key x <= key y.
Proof.
  revert x. induction l as [|a l IH]; simpl; [done|]. intros x H.
  destruct (min_by_key key l) as [b|] eqn:E.
  - destruct (IH b eq_refl) as [Hb Hmin].
    destruct (Z.leb_spec (key a) (key b)) as [Hle|Hlt]; injection H as <-; split;
      try (by constructor); intros y Hy; apply elem_of_cons in Hy as [->|Hy];
      try lia; specialize (Hmin y Hy); lia.
  - injection H as <-. apply min_by_key_None in E as ->. split; [by constructor|].
    intros y Hy. apply list_elem_of_singleton in Hy. subst. lia.
Qed.

(** Reduce the binds whose first computation is known. *)
Ltac rbind := cbn [mbind res_bind mret res_ret].

(** Invert a chain of tests and binds that ended in a value. *)
Ltac inv_ret H :=
  repeat (match type of H with
  | (if ?b then _ else _) = _ => let E := fresh "E" in destruct b eqn:E
  | _ ≫= _ = Ret _ => apply bind_ret_inv in H as (? & ? & H)
  end; try discriminate H); try (injection H as; subst); bool_to_prop.
