(* ===== verification/Bytes.v ===== *)
(** * Bytes: slices, big-endian integers and byte-string tests

    A byte is a [Z] in [0, 256); a slice [&[u8]] is a [list Z]. The functions of
    this file model what Rust's core library does with slices: indexing and
    slicing panic out of range, [get] returns an option. *)

From S2P Require Import Prelude.

Abbreviation bytes := (list Z).

Definition is_byte (b : Z) : Prop := 0 <= b < 256.
Definition is_bytes (p : bytes) : Prop := Forall is_byte p.

(** ** Indexing and slicing *)

(** [p[i]] *)
Definition index (p : bytes) (i : Z) : res Z :=
  if i <? 0 then Panic
  else match p !! Z.to_nat i with Some b => Ret b | None => Panic end.

(** [p.get(a..b)] *)
Definition get_range (p : bytes) (a b : Z) : option bytes :=
  if (0 <=? a) && (a <=? b) && (b <=? zlen p)
  then Some (take (Z.to_nat (b - a)) (drop (Z.to_nat a) p))
  else None.

(** [&p[a..b]] *)
Definition slice (p : bytes) (a b : Z) : res bytes :=
  match get_range p a b with Some s => Ret s | None => Panic end.

(** [&p[a..]] *)
Definition slice_from (p : bytes) (a : Z) : res bytes := slice p a (zlen p).

(** [p[a..a + v.len()].copy_from_slice(v)] *)
Definition blit (p : bytes) (a : Z) (v : bytes) : res bytes :=
  if (0 <=? a) && (a + zlen v <=? zlen p)
  then Ret (take (Z.to_nat a) p ++ v ++ drop (Z.to_nat (a + zlen v)) p)
  else Panic.

(** [p.starts_with(prefix)] and [p.strip_prefix(prefix)] *)
Fixpoint strip_prefix (prefix p : bytes) : option bytes :=
  match prefix, p with
  | [], _ => Some p
  | a :: prefix', b :: p' => if a =? b then strip_prefix prefix' p' else None
  | _ :: _, [] => None
  end.
Definition starts_with (p prefix : bytes) : bool :=
  match strip_prefix prefix p with Some _ => true | None => false end.

Fixpoint bytes_eqb (p q : bytes) : bool :=
  match p, q with
  | [], [] => true
  | a :: p', b :: q' => (a =? b) && bytes_eqb p' q'
  | _, _ => false
  end.

(** ** Big-endian integers *)

(** [n.to_be_bytes()] for an integer of [n] bytes. *)
Fixpoint to_be (n : nat) (z : Z) : bytes :=
  match n with
  | O => []
  | S m => (z / 256 ^ Z.of_nat m) mod 256 :: to_be m z
  end.

(** [uN::from_be_bytes(l)] *)
Fixpoint of_be (l : bytes) : Z :=
  match l with
  | [] => 0
  | b :: t => b * 256 ^ zlen t + of_be t
  end.

Lemma bytes_eqb_eq p q : bytes_eqb p q = true <-> p = q.
Proof.
  revert q. induction p as [|a p IH]; intros [|b q]; simpl; try done.
  rewrite andb_true_iff, IH, Z.eqb_eq. naive_solver.
Qed.

Lemma bytes_eqb_neq p q : bytes_eqb p q = false <-> p <> q.
Proof. rewrite <- bytes_eqb_eq. by destruct (bytes_eqb p q). Qed.

Lemma strip_prefix_Some prefix p r : strip_prefix prefix p = Some r <-> p = prefix ++ r.
Proof.
  revert p. induction prefix as [|a prefix IH]; intros [|b p]; simpl; try naive_solver.
  destruct (Z.eqb_spec a b) as [->|Hn]; [rewrite IH|]; naive_solver.
Qed.

Lemma strip_prefix_app prefix r : strip_prefix prefix (prefix ++ r) = Some r.
Proof. by apply strip_prefix_Some. Qed.

Lemma starts_with_spec p prefix : starts_with p prefix = true <-> exists r, p = prefix ++ r.
Proof.
  unfold starts_with. destruct (strip_prefix prefix p) as [r|] eqn:E.
  - apply strip_prefix_Some in E. naive_solver.
  - split; [done|]. intros [r Hr%strip_prefix_Some]. congruence.
Qed.

(** Rust allocates no object of more than [isize::MAX] bytes. *)
Definition isize_max : Z := 2 ^ 63 - 1.
Definition valid_slice (p : bytes) : Prop := zlen p <= isize_max.

(** ** Lemmas on slices *)

Lemma is_bytes_app p q : is_bytes (p ++ q) <-> is_bytes p /\ is_bytes q.
Proof. apply Forall_app. Qed.

(** On concrete bytes the test is evaluated. *)
Lemma is_bytes_check p : forallb (fun b => (0 <=? b) && (b <? 256)) p = true -> is_bytes p.
Proof.
  induction p as [|b p IH]; simpl; intros H; [constructor|]. bool_to_prop.
  apply Forall_cons. unfold is_byte. split; [lia|by apply IH].
Qed.

Lemma is_bytes_lookup p i b : is_bytes p -> p !! i = Some b -> is_byte b.
Proof. intros H. by apply Forall_lookup_1. Qed.

Lemma index_returns p i : 0 <= i < zlen p -> exists b, index p i = Ret b /\ p !! Z.to_nat i = Some b.
Proof.
  intros Hi. unfold index, zlen in *. destruct (Z.ltb_spec i 0); [lia|].
  destruct (lookup_lt_is_Some_2 p (Z.to_nat i)) as [b Hb]; [lia|].
  rewrite Hb. by exists b.
Qed.

Lemma returns_index p i : 0 <= i < zlen p -> returns (index p i).
Proof. intros (b & H & _)%index_returns. by exists b. Qed.

Lemma index_byte p i b : is_bytes p -> index p i = Ret b -> is_byte b.
Proof.
  unfold index. destruct (i <? 0); [done|]. destruct (p !! Z.to_nat i) eqn:E; [|done].
  intros H [= <-]. by eapply is_bytes_lookup.
Qed.

Lemma index_app_l p q i : 0 <= i < zlen p -> index (p ++ q) i = index p i.
Proof.
  intros Hi. unfold index, zlen in *. destruct (Z.ltb_spec i 0); [done|].
  rewrite lookup_app_l by lia. done.
Qed.

Lemma index_app_r p q i : zlen p <= i -> index (p ++ q) i = index q (i - zlen p).
Proof.
  intros Hi. pose proof (zlen_nonneg p). unfold index, zlen in *.
  destruct (Z.ltb_spec i 0); [lia|]. destruct (Z.ltb_spec (i - Z.of_nat (length p)) 0); [lia|].
  rewrite lookup_app_r by lia. f_equal. by rewrite Z2Nat.inj_sub, Nat2Z.id by lia.
Qed.

Lemma index_lookup p i : 0 <= i -> index p i = match p !! Z.to_nat i with Some b => Ret b | None => Panic end.
Proof. intros Hi. unfold index. destruct (Z.ltb_spec i 0); [lia|done]. Qed.

Lemma get_range_Some p a b :
  0 <= a -> a <= b -> b <= zlen p ->
  get_range p a b = Some (take (Z.to_nat (b - a)) (drop (Z.to_nat a) p)).
Proof.
  intros ???. unfold get_range.
  destruct (Z.leb_spec 0 a), (Z.leb_spec a b), (Z.leb_spec b (zlen p)); try lia. done.
Qed.

Lemma get_range_inv p a b s :
  get_range p a b = Some s ->
  0 <= a /\ a <= b /\ b <= zlen p /\ s = take (Z.to_nat (b - a)) (drop (Z.to_nat a) p).
Proof.
  unfold get_range.
  destruct (Z.leb_spec 0 a), (Z.leb_spec a b), (Z.leb_spec b (zlen p)); simpl; try done.
  intros [= <-]. done.
Qed.

Lemma get_range_length p a b s : get_range p a b = Some s -> zlen s = b - a.
Proof.
  intros (? & ? & Hb & ->)%get_range_inv. unfold zlen in *.
  rewrite length_take, length_drop. lia.
Qed.

Lemma get_range_bytes p a b s : is_bytes p -> get_range p a b = Some s -> is_bytes s.
Proof. intros Hp (_ & _ & _ & ->)%get_range_inv. by apply Forall_take, Forall_drop. Qed.

Lemma slice_returns p a b :
  0 <= a -> a <= b -> b <= zlen p ->
  slice p a b = Ret (take (Z.to_nat (b - a)) (drop (Z.to_nat a) p)).
Proof. intros ???. unfold slice. by rewrite get_range_Some. Qed.

Lemma returns_slice p a b : 0 <= a -> a <= b -> b <= zlen p -> returns (slice p a b).
Proof. intros. rewrite slice_returns by done. by eexists. Qed.

Lemma slice_inv p a b s : slice p a b = Ret s -> get_range p a b = Some s.
Proof. unfold slice. destruct (get_range p a b); by intros [= ->]. Qed.

Lemma slice_length p a b s : slice p a b = Ret s -> zlen s = b - a.
Proof. intros H%slice_inv. by eapply get_range_length. Qed.

Lemma slice_bytes p a b s : is_bytes p -> slice p a b = Ret s -> is_bytes s.
Proof. intros Hp H%slice_inv. by eapply get_range_bytes. Qed.

(** A slice that lies in the middle part of an append. *)
Lemma slice_app_mid l m r a b :
  a = zlen l -> b = zlen l + zlen m -> slice (l ++ m ++ r) a b = Ret m.
Proof.
  intros -> ->. rewrite slice_returns; rewrite ?zlen_app; pose proof (zlen_nonneg r);
    pose proof (zlen_nonneg l); pose proof (zlen_nonneg m); [|lia..].
  f_equal. unfold zlen.
  rewrite Nat2Z.id, drop_app_length.
  replace (Z.to_nat _) with (length m) by lia. by rewrite take_app_length.
Qed.

(** The same, for a list known to be such an append. *)
Lemma slice_at p l m r a b :
  p = l ++ m ++ r -> a = zlen l -> b = zlen l + zlen m -> slice p a b = Ret m.
Proof. intros ->. apply slice_app_mid. Qed.

Lemma slice_app_head m r b : b = zlen m -> slice (m ++ r) 0 b = Ret m.
Proof. intros ->. by apply (slice_app_mid []). Qed.

Lemma slice_from_app l r a : a = zlen l -> slice_from (l ++ r) a = Ret r.
Proof.
  intros ->. unfold slice_from. rewrite <- (app_nil_r r) at 1.
  apply slice_app_mid; [done|]. by rewrite zlen_app.
Qed.

Lemma slice_from_returns p a : 0 <= a <= zlen p -> slice_from p a = Ret (drop (Z.to_nat a) p).
Proof.
  intros Ha. unfold slice_from. rewrite slice_returns by lia. f_equal.
  apply take_ge. rewrite length_drop. unfold zlen in *. lia.
Qed.

(** A slice that lies within the left part of an append. *)
Lemma slice_app_l p q a b : b <= zlen p -> slice (p ++ q) a b = slice p a b.
Proof.
  intros Hb. unfold slice, get_range. rewrite zlen_app. pose proof (zlen_nonneg q).
  destruct (Z.leb_spec 0 a); [|done]. destruct (Z.leb_spec a b); [|done].
  destruct (Z.leb_spec b (zlen p)), (Z.leb_spec b (zlen p + zlen q)); try lia. simpl.
  f_equal. unfold zlen in *. rewrite drop_app_le, take_app_le; [done| |lia].
  rewrite length_drop. lia.
Qed.

Lemma blit_length p a v q : blit p a v = Ret q -> zlen q = zlen p.
Proof.
  unfold blit. destruct (Z.leb_spec 0 a), (Z.leb_spec (a + zlen v) (zlen p)); simpl; try done.
  intros [= <-]. rewrite !zlen_app. unfold zlen in *. rewrite length_take, length_drop. lia.
Qed.

Lemma blit_app l m r a v : a = zlen l -> zlen v = zlen m -> blit (l ++ m ++ r) a v = Ret (l ++ v ++ r).
Proof.
  intros -> Hv. unfold blit. pose proof (zlen_nonneg l). pose proof (zlen_nonneg r).
  rewrite !zlen_app.
  destruct (Z.leb_spec 0 (zlen l)), (Z.leb_spec (zlen l + zlen v) (zlen l + (zlen m + zlen r)));
    try lia. simpl. unfold zlen in *.
  rewrite Nat2Z.id, take_app_length.
  replace (Z.to_nat _) with (length (l ++ m)) by (rewrite length_app; lia).
  by rewrite (app_assoc l m r), drop_app_length.
Qed.

(** Writing right after a prefix that is already in place. *)
Lemma blit_at p l m r a v :
  p = l ++ m ++ r -> a = zlen l -> zlen v = zlen m -> blit p a v = Ret (l ++ v ++ r).
Proof. intros ->. apply blit_app. Qed.

(** Reads and writes inside a part of a buffer are those of the part. *)
Lemma slice_inside pre w post a b :
  0 <= a -> b <= zlen w -> slice (pre ++ w ++ post) (zlen pre + a) (zlen pre + b) = slice w a b.
Proof.
  intros Ha Hb. unfold slice, get_range. rewrite !zlen_app.
  pose proof (zlen_nonneg pre). pose proof (zlen_nonneg post).
  destruct (Z.leb_spec 0 (zlen pre + a)), (Z.leb_spec 0 a); try lia.
  destruct (Z.leb_spec (zlen pre + a) (zlen pre + b)), (Z.leb_spec a b); try lia; [|done].
  destruct (Z.leb_spec (zlen pre + b) (zlen pre + (zlen w + zlen post))), (Z.leb_spec b (zlen w)); try lia.
  simpl. f_equal. replace (zlen pre + b - (zlen pre + a)) with (b - a) by lia.
  rewrite drop_app_ge by (unfold zlen in *; lia). rewrite drop_app_le by (unfold zlen in *; lia).
  rewrite take_app_le by (rewrite length_drop; unfold zlen in *; lia). f_equal. f_equal. unfold zlen in *. lia.
Qed.

Lemma index_inside pre w post a : 0 <= a < zlen w -> index (pre ++ w ++ post) (zlen pre + a) = index w a.
Proof.
  intros Ha. rewrite index_app_r by lia. rewrite index_app_l by lia. f_equal. lia.
Qed.

Lemma blit_tail pre x a v :
  a = zlen pre -> zlen v <= zlen x -> blit (pre ++ x) a v = Ret (pre ++ v ++ drop (length v) x).
Proof.
  intros -> Hv. rewrite <- (take_drop (length v) x) at 1.
  apply blit_app; [done|]. unfold zlen in *. rewrite length_take. lia.
Qed.

Lemma zlen_drop (p : bytes) n : zlen (drop n p) = Z.max 0 (zlen p - Z.of_nat n).
Proof. apply zlen_drop_list. Qed.

(** A buffer of at least [n] bytes splits into [n] bytes and the rest. *)
Lemma split_at_z (p : bytes) n :
  0 <= n <= zlen p -> exists l r, p = l ++ r /\ zlen l = n.
Proof.
  intros Hn. exists (take (Z.to_nat n) p), (drop (Z.to_nat n) p).
  split; [by rewrite take_drop|]. unfold zlen in *. rewrite length_take. lia.
Qed.

(** ** Lemmas on big-endian integers *)

Lemma zlen_to_be n z : zlen (to_be n z) = Z.of_nat n.
Proof. induction n as [|n IH]; [done|]. simpl. rewrite zlen_cons, IH. lia. Qed.

Lemma length_to_be n z : length (to_be n z) = n.
Proof. pose proof (zlen_to_be n z). unfold zlen in *. lia. Qed.

Lemma to_be_bytes n z : is_bytes (to_be n z).
Proof.
  induction n as [|n IH]; [constructor|]. simpl. constructor; [|done].
  apply Z.mod_pos_bound. lia.
Qed.

Lemma of_be_bound l : is_bytes l -> 0 <= of_be l < 256 ^ zlen l.
Proof.
  induction l as [|b l IH]; intros Hl; [done|]. inversion Hl as [|?? Hb Hl']; subst.
  specialize (IH Hl'). simpl. rewrite zlen_cons.
  rewrite Z.pow_add_r by (pose proof (zlen_nonneg l); lia).
  unfold is_byte in Hb. nia.
Qed.

(** Decoding what was encoded gives the value back, modulo the width. *)
Lemma of_be_to_be n z : of_be (to_be n z) = z mod 256 ^ Z.of_nat n.
Proof.
  induction n as [|n IH]; [simpl; by rewrite Z.mod_1_r|].
  simpl of_be. rewrite zlen_to_be, IH, Nat2Z.inj_succ, Z.pow_succ_r by lia.
  rewrite (Z.mul_comm 256), Z.rem_mul_r by lia. lia.
Qed.

Lemma of_be_to_be_small n z : 0 <= z < 256 ^ Z.of_nat n -> of_be (to_be n z) = z.
Proof. intros Hz. rewrite of_be_to_be. by apply Z.mod_small. Qed.

Lemma to_be_mod n z k : (n <= k)%nat -> to_be n (z mod 256 ^ Z.of_nat k) = to_be n z.
Proof.
  induction n as [|n IH]; intros Hk; [done|]. simpl. rewrite IH by lia. f_equal.
  replace (Z.of_nat k) with (Z.of_nat n + (1 + Z.of_nat (k - S n))) by lia.
  rewrite Z.pow_add_r, Z.rem_mul_r by lia.
  rewrite (Z.add_comm (z mod _)), Z.mul_comm, Z.div_add_l by lia.
  rewrite (Z.div_small (z mod _)) by (apply Z.mod_pos_bound; lia).
  rewrite Z.add_0_r, Z.pow_add_r, Z.rem_mul_r by lia.
  change (256 ^ 1) with 256. by rewrite Z.mul_comm, Z.add_mod, Z.mod_mul, Z.add_0_r, !Z.mod_mod by lia.
Qed.

(** Encoding what was decoded gives the bytes back. *)
Lemma to_be_of_be l : is_bytes l -> to_be (length l) (of_be l) = l.
Proof.
  induction l as [|b l IH]; intros Hl; [done|]. inversion Hl as [|?? Hb Hl']; subst.
  pose proof (of_be_bound _ Hl') as Hbd. unfold is_byte in Hb. simpl. unfold zlen in *.
  rewrite Z.div_add_l, (Z.div_small (of_be l)), Z.add_0_r, (Z.mod_small b) by lia.
  f_equal. etransitivity; [|exact (IH Hl')].
  rewrite <- (to_be_mod _ (b * _ + _) (length l)) by lia.
  by rewrite Z.add_comm, Z.mod_add, Z.mod_small by lia.
Qed.

Lemma to_be_of_be_n n l : is_bytes l -> zlen l = Z.of_nat n -> to_be n (of_be l) = l.
Proof. intros Hb Hn. replace n with (length l) by (unfold zlen in Hn; lia). by apply to_be_of_be. Qed.

Lemma of_be_2 a b : of_be [a; b] = a * 256 + b.
Proof. unfold of_be, zlen. simpl length. lia. Qed.

#[export] Hint Resolve returns_index returns_slice to_be_bytes : engine.

(** [no_panic]: walk through a computation, proving every index and slice in
    range from the tests passed on the way. *)
Ltac no_panic_step :=
  match goal with
  | |- returns (Ret _) => apply returns_ret
  | |- returns (mret _) => apply returns_ret
  | |- returns (index _ _ ≫= _) =>
      apply returns_bind; [apply returns_index | intros ? ?]
  | |- returns (slice ?p ?a ?b ≫= _) =>
      apply returns_bind;
      [apply returns_slice
      | let x := fresh "s" in let H := fresh "Hs" in intros x H; apply slice_length in H]
  | |- returns (slice_from ?p ?a ≫= _) =>
      apply returns_bind;
      [apply returns_slice
      | let x := fresh "s" in let H := fresh "Hs" in intros x H; apply slice_length in H]
  | |- returns (if ?b then _ else _) => let E := fresh "E" in destruct b eqn:E
  | |- returns (match ?o with Some _ => _ | None => _ end) =>
      let E := fresh "E" in destruct o eqn:E
  | |- returns (let '(_, _) := ?p in _) => let E := fresh "E" in destruct p eqn:E
  end.
(** Slices obtained with [get]: their length is the width of the range, also
    when its end was computed with a saturating addition. *)
Lemma index_range p a b s i : get_range p a b = Some s -> 0 <= i < b - a -> returns (index s i).
Proof. intros H Hi. apply returns_index. by rewrite (get_range_length _ _ _ _ H). Qed.

Lemma saturating_range p a n s :
  valid_slice p -> 0 <= n -> get_range p a (saturating_add 64 a n) = Some s ->
  saturating_add 64 a n = a + n.
Proof.
  intros Hv Hn (H0 & H1 & H2 & _)%get_range_inv.
  unfold saturating_add, valid_slice, isize_max in *. lia.
Qed.

Lemma index_sat_range p a n s i :
  valid_slice p -> get_range p a (saturating_add 64 a n) = Some s -> 0 <= i < n -> returns (index s i).
Proof.
  intros Hv H Hi. eapply index_range; [exact H|].
  rewrite (saturating_range p a n s) by (done || lia). lia.
Qed.

Ltac no_panic := repeat (no_panic_step; bool_to_prop); try lia.

Lemma zlen_head (p : bytes) b : head p = Some b -> 1 <= zlen p.
Proof. destruct p; [done|]. intros _. rewrite zlen_cons. pose proof (zlen_nonneg p). lia. Qed.

Lemma land_low_bound a m : 0 <= m -> 0 <= Z.land a m <= m.
Proof.
  intros Hm. split; [apply Z.land_nonneg; by right|].
  destruct (Z.eq_dec m 0) as [->|Hn]; [by rewrite Z.land_0_r|].
  pose proof (Z.sub_nocarry_ldiff m (Z.land a m)) as Hs.
  assert (Z.ldiff (Z.land a m) m = 0) as Hd.
  { apply Z.bits_inj'. intros n Hn'. rewrite Z.ldiff_spec, Z.land_spec, Z.bits_0.
    by destruct (Z.testbit a n), (Z.testbit m n). }
  specialize (Hs Hd). assert (0 <= Z.ldiff m (Z.land a m)) by (apply Z.ldiff_nonneg; lia). lia.
Qed.

Lemma shiftr_byte b k : is_byte b -> 0 <= k -> 0 <= Z.shiftr b k <= b.
Proof.
  intros Hb Hk. unfold is_byte in Hb. rewrite Z.shiftr_div_pow2 by done.
  assert (0 < 2 ^ k) by (by apply Z.pow_pos_nonneg).
  split; [apply Z.div_pos; lia|]. apply Z.div_le_upper_bound; nia.
Qed.

#[global] Arguments to_be : simpl never.
#[global] Arguments of_be : simpl never.
