(* ===== verification/Text.v ===== *)
(** * Text: what Rust's [str] does

    A [str] is the list of its characters as code points; a literal is written
    with [ascii]. The functions are those of the standard library that the
    components use on texts. *)

From Stdlib Require Import Strings.String Strings.Ascii.
From S2P Require Import Prelude Bytes.

Definition ascii (s : string) : bytes := map (fun c => Z.of_N (N_of_ascii c)) (list_ascii_of_string s).

Definition text : Type := list Z.

(** [char::is_whitespace]: the characters of Unicode's White_Space. *)
Definition is_whitespace (c : Z) : bool :=
  ((0x9 <=? c) && (c <=? 0xd)) || (c =? 0x20) || (c =? 0x85) || (c =? 0xa0) || (c =? 0x1680)
  || ((0x2000 <=? c) && (c <=? 0x200a)) || (c =? 0x2028) || (c =? 0x2029) || (c =? 0x202f) || (c =? 0x205f)
  || (c =? 0x3000).

Fixpoint trim_start (s : text) : text :=
  match s with
  | c :: t => if is_whitespace c then trim_start t else s
  | [] => []
  end.
Definition trim (s : text) : text := rev (trim_start (rev (trim_start s))).

Definition to_ascii_lowercase (s : text) : text :=
  map (fun c => if (0x41 <=? c) && (c <=? 0x5a) then c + 32 else c) s.

(** [split_once(c)] and [rsplit_once(c)] *)
Fixpoint split_once (c : Z) (s : text) : option (text * text) :=
  match s with
  | [] => None
  | x :: t =>
      if x =? c then Some ([], t)
      else match split_once c t with Some (a, b) => Some (x :: a, b) | None => None end
  end.
Definition rsplit_once (c : Z) (s : text) : option (text * text) :=
  match split_once c (rev s) with Some (b, a) => Some (rev a, rev b) | None => None end.

(** [split(c)]: the parts between the separators. *)
Fixpoint split (c : Z) (s : text) : list text :=
  match s with
  | [] => [[]]
  | x :: t =>
      match split c t with
      | part :: parts => if x =? c then [] :: part :: parts else (x :: part) :: parts
      | [] => [[x]]
      end
  end.

(** [split_once("]:")], [strip_suffix(']')] and [matches(':').count()] *)
Fixpoint split_bracket (s : text) : option (text * text) :=
  match s with
  | [] => None
  | x :: t =>
      match strip_prefix (ascii "]:") s with
      | Some rest => Some ([], rest)
      | None => match split_bracket t with Some (a, b) => Some (x :: a, b) | None => None end
      end
  end.
Definition strip_suffix (c : Z) (s : text) : option text :=
  match rev s with x :: t => if x =? c then Some (rev t) else None | [] => None end.
Definition count_of (c : Z) (s : text) : Z := zlen (filter (fun x => x = c) s).

(** [str::parse::<u16>]: an optional plus sign and decimal digits. *)
Fixpoint parse_digits (acc : Z) (s : text) : option Z :=
  match s with
  | [] => Some acc
  | c :: t =>
      if (0x30 <=? c) && (c <=? 0x39) then
        let acc := acc * 10 + (c - 0x30) in
        if u16_max <? acc then None else parse_digits acc t
      else None
  end.
Definition parse_u16 (s : text) : option Z :=
  let digits := match s with c :: t => if c =? 0x2b then t else s | [] => s end in
  match digits with [] => None | _ => parse_digits 0 digits end.

(** [u64::to_string]; twenty digits are enough for 64 bits. *)
Fixpoint digits (fuel : nat) (n : Z) : bytes :=
  match fuel with
  | O => []
  | S fuel => if n <? 10 then [48 + n] else digits fuel (n / 10) ++ [48 + n mod 10]
  end.
Definition to_string (n : Z) : bytes := digits 20 n.

(** [i32::to_string] *)
Definition i32_to_string (n : Z) : bytes := if n <? 0 then ascii "-" ++ to_string (- n) else to_string n.

(** [find(needle)]: the position of the first occurrence. *)
Fixpoint find_text (needle s : text) : option nat :=
  if starts_with s needle then Some O
  else match s with
       | [] => None
       | _ :: t => match find_text needle t with Some i => Some (S i) | None => None end
       end.
Definition contains (s needle : text) : bool :=
  match find_text needle s with Some _ => true | None => false end.

(** [value.ends_with(..)] *)
Definition ends_with (value suffix : bytes) : bool := starts_with (rev value) (rev suffix).

(** [match_indices(needle)]: what follows each occurrence, none of which overlap;
    [skip] characters are those of the last one. *)
Fixpoint after_matches (needle : text) (skip : nat) (s : text) : list text :=
  match s with
  | [] => []
  | _ :: t =>
      match skip with
      | S skip => after_matches needle skip t
      | O => match strip_prefix needle s with
             | Some rest => rest :: after_matches needle (length needle - 1) t
             | None => after_matches needle O t
             end
      end
  end.

Fixpoint trim_start_matches_one (c : Z) (s : text) : text :=
  match s with [] => [] | x :: t => if x =? c then trim_start_matches_one c t else s end.
Fixpoint last_segment (c : Z) (current s : text) : text :=
  match s with [] => current | x :: t => if x =? c then last_segment c t t else last_segment c current t end.

(** [trim_end_matches(c)] and [rsplit(c).next()]: what follows the last [c]. *)
Definition trim_end_matches (c : Z) (s : text) : text := rev (trim_start_matches_one c (rev s)).
Definition last_part (c : Z) (s : text) : text := last_segment c s s.

(** [trim_matches([..])] and [split([..])] with a set of characters. *)
Fixpoint trim_start_matches (set s : text) : text :=
  match s with
  | c :: t => if existsb (Z.eqb c) set then trim_start_matches set t else s
  | [] => []
  end.
Definition trim_matches (set s : text) : text := rev (trim_start_matches set (rev (trim_start_matches set s))).

Fixpoint split_any (set s : text) : list text :=
  match s with
  | [] => [[]]
  | x :: t =>
      match split_any set t with
      | part :: parts => if existsb (Z.eqb x) set then [] :: part :: parts else (x :: part) :: parts
      | [] => [[x]]
      end
  end.

Definition is_digit (c : Z) : bool := (0x30 <=? c) && (c <=? 0x39).

Lemma parse_digits_u16 acc s p : 0 <= acc -> parse_digits acc s = Some p -> acc <= u16_max -> is_u 16 p.
Proof.
  revert acc. induction s as [|c s IH]; intros acc Ha Hp Hb; cbn [parse_digits] in Hp.
  - injection Hp as <-. unfold is_u, u16_max in *. lia.
  - destruct (_ && _) eqn:E; [|done]. cbv zeta in Hp. destruct (Z.ltb_spec u16_max (acc * 10 + (c - 0x30))); [done|].
    bool_to_prop. eapply IH; [|exact Hp|done]. lia.
Qed.

Lemma parse_u16_range s p : parse_u16 s = Some p -> is_u 16 p.
Proof.
  unfold parse_u16. destruct (match s with c :: t => if c =? 0x2b then t else s | [] => s end); [done|].
  intros Hp. by eapply parse_digits_u16.
Qed.

(** What is cut at a character does not hold it. *)
Lemma find_text_here needle s i :
  find_text needle s = Some i -> exists l r, s = l ++ needle ++ r /\ length l = i.
Proof.
  revert i. induction s as [|c s IH]; intros i Hf; cbn [find_text] in Hf.
  - destruct (starts_with [] needle) eqn:E; [|done]. injection Hf as <-. apply starts_with_spec in E as [r E].
    by exists [], r.
  - destruct (starts_with (c :: s) needle) eqn:E.
    + injection Hf as <-. apply starts_with_spec in E as [r E]. by exists [], r.
    + destruct (find_text needle s) as [j|] eqn:Ej; [|done]. injection Hf as <-.
      destruct (IH j eq_refl) as (l & r & -> & <-). by exists (c :: l), r.
Qed.

Lemma ends_with_spec value suffix : ends_with value suffix = true <-> exists front, value = front ++ suffix.
Proof.
  unfold ends_with. rewrite starts_with_spec. split.
  - intros [r Hr]. exists (rev r). apply (f_equal (@rev _)) in Hr. by rewrite rev_involutive, rev_app_distr, rev_involutive in Hr.
  - intros [front ->]. exists (rev front). by rewrite rev_app_distr.
Qed.

(** The last part ends the text, and holds no [c]. *)
Lemma last_segment_spec c current s front : current = front ++ s -> c ∉ front ->
  c ∉ last_segment c current s /\ exists l, current = l ++ last_segment c current s /\ (l = [] \/ exists l', l = l' ++ [c]).
Proof.
  revert current front. induction s as [|x s IH]; intros current front E Hc; cbn [last_segment].
  - rewrite app_nil_r in E. subst. split; [done|]. exists []. auto.
  - destruct (Z.eqb_spec x c) as [->|Hx].
    + destruct (IH s [] eq_refl (not_elem_of_nil c)) as [Hn (l & Hl & Hor)]. split; [done|]. exists (front ++ c :: l). split.
      { rewrite E. rewrite <- app_assoc. cbn. by rewrite <- Hl. }
      right. destruct Hor as [->|[l' ->]]; [by exists front|]. exists (front ++ c :: l'). by rewrite <- app_assoc.
    + apply (IH current (front ++ [x])); [by rewrite <- app_assoc|]. rewrite elem_of_app, list_elem_of_singleton. naive_solver.
Qed.

Lemma last_part_spec c s : c ∉ last_part c s /\ exists l, s = l ++ last_part c s /\ (l = [] \/ exists l', l = l' ++ [c]).
Proof. apply (last_segment_spec c s s []); [done|apply not_elem_of_nil]. Qed.

Lemma trim_end_matches_last c s l : trim_end_matches c s <> l ++ [c].
Proof.
  unfold trim_end_matches. generalize (rev s). clear s. intros s E. apply (f_equal (@rev _)) in E.
  rewrite rev_involutive, rev_app_distr in E. cbn in E. induction s as [|x s IH]; cbn [trim_start_matches_one] in E; [done|].
  destruct (Z.eqb_spec x c); [auto|]. by injection E.
Qed.
