(* ===== verification/FlowFrame.v ===== *)
(** * FlowFrame: per-flow framing, sequencing and reassembly

    Models [shared/flow_frame.rs]: the 24-byte frame header, the TCP flow id,
    the sender's sequencer and the receiver's reassembler. *)

From S2P Require Import Prelude Bytes.

Definition FRAME_LEN : Z := 24.
Definition FRAME_MAGIC : bytes := [67; 81; 70; 49].   (* b"CQF1" *)
Definition MAX_TRACKED_FLOWS : Z := 4096.
Definition MAX_PENDING_PER_FLOW : Z := 96.
Definition MAX_PENDING_TOTAL : Z := 4096.
Definition GAP_RELEASE_AFTER_MS : Z := 12.

Record FrameHeader : Type := mkFrameHeader {
  sender_id : Z;
  flow_id : Z;
  sequence : Z;
}.

#[export] Instance FrameHeader_eq_dec : EqDecision FrameHeader.
Proof. solve_decision. Defined.

(** ** The frame header on the wire *)

(** [FrameHeader::encode]: the result and the buffer it leaves. *)
Definition encode (self : FrameHeader) (output : bytes) : res (bool * bytes) :=
  if zlen output <? FRAME_LEN then Ret (false, output)
  else
    output ← blit output 0 FRAME_MAGIC;
    output ← blit output 4 (to_be 8 (sender_id self));
    output ← blit output 12 (to_be 8 (flow_id self));
    output ← blit output 20 (to_be 4 (sequence self));
    Ret (true, output).

Definition decode (packet : bytes) : res (option (FrameHeader * bytes)) :=
  if zlen packet <? FRAME_LEN then Ret None
  else
    magic ← slice packet 0 4;
    if negb (bytes_eqb magic FRAME_MAGIC) then Ret None
    else
      sender ← slice packet 4 12;
      flow ← slice packet 12 20;
      seq ← slice packet 20 24;
      rest ← slice_from packet FRAME_LEN;
      Ret (Some (mkFrameHeader (of_be sender) (of_be flow) (of_be seq), rest)).

Definition payload (packet : bytes) : res bytes :=
  decoded ← decode packet;
  Ret (match decoded with Some (_, rest) => rest | None => packet end).

(** ** Flow identity *)

Definition hash_bytes (hash : Z) (l : bytes) : Z :=
  fold_left (fun h byte => wrapping_mul 64 (Z.lxor h byte) 0x100000001b3) l hash.

Definition mix64 (value : Z) : Z :=
  let value := Z.lxor value (Z.shiftr value 30) in
  let value := wrapping_mul 64 value 0xbf58476d1ce4e5b9 in
  let value := Z.lxor value (Z.shiftr value 27) in
  let value := wrapping_mul 64 value 0x94d049bb133111eb in
  Z.lxor value (Z.shiftr value 31).

(** The four values the [match] on the IP version of [tcp_flow_id] computes. *)
Definition ip_fields (packet : bytes) (first : Z) : res (option (Z * Z * bytes * bytes)) :=
  if Z.shiftr first 4 =? 4 then
    if zlen packet <? 20 then Ret None
    else
      b0 ← index packet 0;
      let header_len := Z.land b0 0x0f * 4 in
      if (header_len <? 20) || (zlen packet <? header_len + 20) then Ret None
      else
        protocol ← index packet 9;
        source ← slice packet 12 16;
        destination ← slice packet 16 20;
        Ret (Some (header_len, protocol, source, destination))
  else if Z.shiftr first 4 =? 6 then
    if zlen packet <? 60 then Ret None
    else
      protocol ← index packet 6;
      source ← slice packet 8 24;
      destination ← slice packet 24 40;
      Ret (Some (40, protocol, source, destination))
  else Ret None.

Definition tcp_flow_id (packet : bytes) : res (option Z) :=
  let? first := head packet in
  fields ← ip_fields packet first;
  match fields with
  | None => Ret None
  | Some (header_len, protocol, source, destination) =>
      if negb (protocol =? 6) then Ret None
      else
        tcp ← slice_from packet header_len;
        b12 ← index tcp 12;
        let data_offset := Z.shiftr b12 4 * 4 in
        if (data_offset <? 20) || (zlen tcp <? data_offset) then Ret None
        else
          flags ← index tcp 13;
          if (zlen tcp =? data_offset) && (Z.land flags 0x03 =? 0) then Ret None
          else
            ports ← slice tcp 0 4;
            let hash := 0xcbf29ce484222325 in
            let hash := hash_bytes hash [protocol] in
            let hash := hash_bytes hash source in
            let hash := hash_bytes hash destination in
            let hash := hash_bytes hash ports in
            Ret (Some (mix64 hash))
  end.

(** ** Sender: [FlowSequencer] *)

Record FlowSequencer : Type := mkFlowSequencer {
  fs_sender_id : Z;
  sequences : gmap Z Z;
}.

Definition with_sender_id (id : Z) : FlowSequencer := mkFlowSequencer (Z.max id 1) ∅.

(** [FlowSequencer::next], with the flow id that [tcp_flow_id] found. *)
Definition next_for (self : FlowSequencer) (flow : Z) : FrameHeader * FlowSequencer :=
  let self :=
    if (Z.of_nat (size (sequences self)) =? MAX_TRACKED_FLOWS)
       && negb (bool_decide (is_Some (sequences self !! flow)))
    then mkFlowSequencer
           (Z.max (mix64 (wrapping_add 64 (fs_sender_id self) 0x9e3779b97f4a7c15)) 1) ∅
    else self in
  let sequence := default 0 (sequences self !! flow) in
  (mkFrameHeader (fs_sender_id self) flow sequence,
   mkFlowSequencer (fs_sender_id self)
     (<[flow := wrapping_add 32 sequence 1]> (sequences self))).

Definition next (self : FlowSequencer) (packet : bytes) : res (option FrameHeader * FlowSequencer) :=
  flow ← tcp_flow_id packet;
  match flow with
  | None => Ret (None, self)
  | Some f => let '(header, self) := next_for self f in Ret (Some header, self)
  end.

(** ** Receiver: [FlowReassembler] *)

Record ReassemblyKey : Type := mkReassemblyKey {
  key_sender_id : Z;
  key_flow_id : Z;
}.

#[export] Instance ReassemblyKey_eq_dec : EqDecision ReassemblyKey.
Proof. solve_decision. Defined.

#[export] Instance ReassemblyKey_countable : Countable ReassemblyKey.
Proof.
  refine (inj_countable' (fun k => (key_sender_id k, key_flow_id k))
            (fun '(s, f) => mkReassemblyKey s f) _).
  by intros [].
Defined.

Record Pending (T : Type) : Type := mkPending {
  p_sequence : Z;
  p_value : T;
}.
Arguments mkPending {T}.
Arguments p_sequence {T}.
Arguments p_value {T}.

Record FlowState (T : Type) : Type := mkFlowState {
  expected : Z;
  gap_started_ms : option Z;
  pending : list (Pending T);
}.
Arguments mkFlowState {T}.
Arguments expected {T}.
Arguments gap_started_ms {T}.
Arguments pending {T}.

Record FlowReassembler (T : Type) : Type := mkFlowReassembler {
  flows : gmap ReassemblyKey (FlowState T);
  pending_total : Z;
}.
Arguments mkFlowReassembler {T}.
Arguments flows {T}.
Arguments pending_total {T}.

Definition is_forward (sequence expected : Z) : bool :=
  negb (sequence =? expected) && (wrapping_sub 32 sequence expected <? 2 ^ 31).

Section Reassembly.
Context {T : Type}.
Implicit Types (state : FlowState T) (output : list T).

Definition empty_state : FlowState T := mkFlowState 0 None [].

Definition new_reassembler : FlowReassembler T := mkFlowReassembler ∅ 0.

(** The loop of [drain_contiguous]; every turn takes one packet out of
    [pending], so as many turns as there are pending packets are enough
    ([drain_contiguous_done]). *)
Fixpoint drain_loop (fuel : nat) state output : FlowState T * list T :=
  match fuel with
  | O => (state, output)
  | S fuel =>
      letelse index := position (fun p => p_sequence p =? expected state) (pending state)
      else (state, output) in
      letelse p := pending state !! index else (state, output) in
      drain_loop fuel
        (mkFlowState (wrapping_add 32 (expected state) 1) (gap_started_ms state)
           (swap_remove index (pending state)))
        (output ++ [p_value p])
  end.

Definition drain_contiguous state output : FlowState T * list T :=
  drain_loop (length (pending state)) state output.

(** The index and distance pairs of the iterator chain of [release_lowest]. *)
Definition candidates state : list (nat * Z) :=
  omap (fun '(index, p) =>
          if is_forward (p_sequence p) (expected state)
          then Some (index, wrapping_sub 32 (p_sequence p) (expected state)) else None)
       (imap pair (pending state)).

Definition release_lowest state (now_ms : Z) output : FlowState T * list T :=
  letelse found := min_by_key snd (candidates state)
  else (mkFlowState (expected state) None (pending state), output) in
  letelse p := pending state !! (fst found) else (state, output) in
  let state := mkFlowState (wrapping_add 32 (p_sequence p) 1) None
                 (swap_remove (fst found) (pending state)) in
  let output := output ++ [p_value p] in
  let '(state, output) := drain_contiguous state output in
  if zlen (pending state) =? 0 then (state, output)
  else (mkFlowState (expected state) (Some now_ms) (pending state), output).

Definition gap_expired state (now_ms : Z) : bool :=
  match gap_started_ms state with
  | Some started => GAP_RELEASE_AFTER_MS <=? saturating_sub now_ms started
  | None => false
  end.

Definition release_expired state (now_ms : Z) output : FlowState T * list T :=
  if gap_expired state now_ms then release_lowest state now_ms output else (state, output).

(** [self.pending_total.saturating_sub(before.saturating_sub(after))] *)
Definition account (total before after : Z) : Z :=
  saturating_sub total (saturating_sub before after).

(** The end of [push_at], from [state.pending.push] on: the packet is stored, and
    a full buffer or an expired gap releases the nearest pending packet. *)
Definition push_pending state (total : Z) (header_sequence : Z) (value : T) (now_ms : Z) output
  : FlowState T * Z * list T :=
  let state := mkFlowState (expected state) (gap_started_ms state)
                 (pending state ++ [mkPending header_sequence value]) in
  let total := total + 1 in
  let '(state, total, output) :=
    if MAX_PENDING_TOTAL <? total then
      let before := zlen (pending state) in
      let '(state, output) := release_lowest state now_ms output in
      (state, account total before (zlen (pending state)), output)
    else (state, total, output) in
  let state :=
    match gap_started_ms state with
    | None => mkFlowState (expected state) (Some now_ms) (pending state)
    | Some _ => state
    end in
  let before := zlen (pending state) in
  let '(state, output) := release_expired state now_ms output in
  (state, account total before (zlen (pending state)), output).

(** The part of [push_at] that works on the flow's own state, from the first
    [release_expired] to the end; [total] is [self.pending_total]. *)
Definition push_state state (total : Z) (header_sequence : Z) (value : T) (now_ms : Z) output
  : FlowState T * Z * list T :=
  let before := zlen (pending state) in
  let '(state, output) := release_expired state now_ms output in
  let total := account total before (zlen (pending state)) in
  if header_sequence =? expected state then
    let output := output ++ [value] in
    let state := mkFlowState (wrapping_add 32 (expected state) 1) None (pending state) in
    let before := zlen (pending state) in
    let '(state, output) := drain_contiguous state output in
    (state, account total before (zlen (pending state)), output)
  else if negb (is_forward header_sequence (expected state))
          || existsb (fun p => p_sequence p =? header_sequence) (pending state)
  then (state, total, output)
  else
    let '(state, total, output) :=
      if zlen (pending state) =? MAX_PENDING_PER_FLOW then
        let before := zlen (pending state) in
        let '(state, output) := release_lowest state now_ms output in
        (state, account total before (zlen (pending state)), output)
      else (state, total, output) in
    if (total =? MAX_PENDING_TOTAL) && (zlen (pending state) =? 0) then
      (mkFlowState (wrapping_add 32 header_sequence 1) None (pending state), total,
       output ++ [value])
    else
      let '(state, total, output) :=
        if total =? MAX_PENDING_TOTAL then
          let before := zlen (pending state) in
          let '(state, output) := release_lowest state now_ms output in
          (state, account total before (zlen (pending state)), output)
        else (state, total, output) in
      push_pending state total header_sequence value now_ms output.

Definition push_at (self : FlowReassembler T) (header : FrameHeader) (value : T) (now_ms : Z)
    output : FlowReassembler T * list T :=
  let key := mkReassemblyKey (sender_id header) (flow_id header) in
  let self :=
    if (Z.of_nat (size (flows self)) =? MAX_TRACKED_FLOWS)
       && negb (bool_decide (is_Some (flows self !! key)))
    then mkFlowReassembler ∅ 0 else self in
  let state := default empty_state (flows self !! key) in
  let '(state, total, output) :=
    push_state state (pending_total self) (sequence header) value now_ms output in
  (mkFlowReassembler (<[key := state]> (flows self)) total, output).

End Reassembly.

(** ** The header codec *)

Definition header_ok (h : FrameHeader) : Prop :=
  is_u 64 (sender_id h) /\ is_u 64 (flow_id h) /\ is_u 32 (sequence h).

Definition header_bytes (h : FrameHeader) : bytes :=
  FRAME_MAGIC ++ to_be 8 (sender_id h) ++ to_be 8 (flow_id h) ++ to_be 4 (sequence h).

Lemma zlen_header_bytes h : zlen (header_bytes h) = FRAME_LEN.
Proof. unfold header_bytes. by rewrite !zlen_app, !zlen_to_be. Qed.

(** Lengths of the parts of a header. *)
Ltac frame_len :=
  rewrite ?zlen_app, ?zlen_to_be, ?zlen_drop, ?length_app, ?length_to_be;
  change (length FRAME_MAGIC) with 4%nat; change (zlen FRAME_MAGIC) with 4;
  try done; lia.

Lemma encode_spec h output :
  FRAME_LEN <= zlen output ->
  encode h output = Ret (true, header_bytes h ++ drop (Z.to_nat FRAME_LEN) output).
Proof.
  intros Hlen. unfold encode. destruct (Z.ltb_spec (zlen output) FRAME_LEN); [lia|].
  unfold FRAME_LEN in *.
  rewrite (blit_tail [] output) by frame_len.
  rbind. rewrite app_nil_l, (blit_tail FRAME_MAGIC) by frame_len.
  rbind. rewrite length_to_be, drop_drop, app_assoc.
  rewrite (blit_tail (FRAME_MAGIC ++ _)) by frame_len.
  rbind. rewrite length_to_be, drop_drop, app_assoc.
  rewrite (blit_tail ((FRAME_MAGIC ++ _) ++ _)) by frame_len.
  rbind. rewrite length_to_be, drop_drop. unfold header_bytes.
  by rewrite <- !app_assoc.
Qed.

Lemma decode_parts m a b c r :
  zlen m = 4 -> zlen a = 8 -> zlen b = 8 -> zlen c = 4 ->
  decode (m ++ a ++ b ++ c ++ r) =
  Ret (if bytes_eqb m FRAME_MAGIC
       then Some (mkFrameHeader (of_be a) (of_be b) (of_be c), r) else None).
Proof.
  intros Hm Ha Hb Hc. unfold decode.
  destruct (Z.ltb_spec (zlen (m ++ a ++ b ++ c ++ r)) FRAME_LEN) as [Hl|_].
  { rewrite !zlen_app in Hl. pose proof (zlen_nonneg r). unfold FRAME_LEN in *. lia. }
  unfold FRAME_LEN. rewrite slice_app_head by lia. rbind.
  destruct (bytes_eqb m FRAME_MAGIC); [|done]. simpl (negb _). cbv iota.
  rewrite (slice_app_mid m _ _ 4 12) by lia. rbind.
  rewrite (app_assoc m a), (slice_app_mid (m ++ a) _ _ 12 20) by (rewrite zlen_app; lia). rbind.
  rewrite (app_assoc (m ++ a) b), (slice_app_mid ((m ++ a) ++ b) _ _ 20 24)
    by (rewrite !zlen_app; lia). rbind.
  rewrite (app_assoc ((m ++ a) ++ b) c), (slice_from_app (((m ++ a) ++ b) ++ c))
    by (rewrite !zlen_app; lia). done.
Qed.

Lemma decode_header_bytes h rest :
  header_ok h -> decode (header_bytes h ++ rest) = Ret (Some (h, rest)).
Proof.
  intros (Hs & Hf & Hq). unfold header_bytes. rewrite <- !app_assoc.
  rewrite decode_parts by frame_len.
  replace (bytes_eqb _ _) with true by done.
  rewrite !of_be_to_be_small by done. by destruct h.
Qed.

Definition sample_header : FrameHeader := mkFrameHeader 17 23 9.

(** The wire format is canonical: a packet that [decode] accepts is exactly
    the encoding of the decoded header followed by the returned payload, and
    the header's fields are in range. *)
Lemma frame_decode_canonical packet h rest :
  is_bytes packet -> decode packet = Ret (Some (h, rest)) ->
  packet = header_bytes h ++ rest /\ header_ok h.
Proof.
  intros Hp Hd. destruct (Z.ltb_spec (zlen packet) FRAME_LEN) as [Hl|Hl].
  { unfold decode in Hd. rewrite (proj2 (Z.ltb_lt _ _) Hl) in Hd. done. }
  unfold FRAME_LEN in Hl.
  destruct (split_at_z packet 4) as (m & p1 & -> & Hm); [lia|]. rewrite zlen_app in Hl.
  destruct (split_at_z p1 8) as (a & p2 & -> & Ha); [lia|]. rewrite zlen_app in Hl.
  destruct (split_at_z p2 8) as (b & p3 & -> & Hb); [lia|]. rewrite zlen_app in Hl.
  destruct (split_at_z p3 4) as (c & r & -> & Hc); [lia|].
  rewrite decode_parts in Hd by done.
  destruct (bytes_eqb m FRAME_MAGIC) eqn:Hmagic; [|done].
  injection Hd as <- <-. apply bytes_eqb_eq in Hmagic as ->.
  apply Forall_app in Hp as [_ [Hba [Hbb [Hbc _]%Forall_app]%Forall_app]%Forall_app].
  split.
  - unfold header_bytes. cbn [sender_id flow_id sequence].
    rewrite !to_be_of_be_n by done. by rewrite <- !app_assoc.
  - pose proof (of_be_bound a Hba) as H1. pose proof (of_be_bound b Hbb) as H2.
    pose proof (of_be_bound c Hbc) as H3. rewrite Ha in H1. rewrite Hb in H2. rewrite Hc in H3.
    done.
Qed.

Lemma frame_decode_canonical_witness :
  header_bytes sample_header ++ [1; 2] = header_bytes sample_header ++ [1; 2] /\
  header_ok sample_header.
Proof.
  apply (frame_decode_canonical (header_bytes sample_header ++ [1; 2]) sample_header [1; 2]).
  - unfold is_bytes, is_byte. repeat constructor; vm_compute; congruence.
  - vm_compute. reflexivity.
Defined.

Lemma ip_fields_total packet first : returns (ip_fields packet first).
Proof. unfold ip_fields. no_panic. Qed.

Lemma ip_fields_bounds packet first header_len protocol source destination :
  ip_fields packet first = Ret (Some (header_len, protocol, source, destination)) ->
  20 <= header_len /\ header_len + 20 <= zlen packet.
Proof. unfold ip_fields. intros H. inv_ret H; lia. Qed.

(** [tcp_flow_id] is total: no input makes it index or slice out of range. *)
Lemma tcp_flow_id_total packet : returns (tcp_flow_id packet).
Proof.
  unfold tcp_flow_id. destruct (head packet) as [first|]; [|no_panic].
  apply returns_bind; [apply ip_fields_total|].
  intros [[[[header_len protocol] source] destination]|] Hf; [|no_panic].
  apply ip_fields_bounds in Hf as [??]. no_panic.
Qed.

(** ** The mixer is a permutation of the 64-bit words *)

Lemma xorshift_inj k x y :
  0 < k -> 0 <= x -> 0 <= y -> Z.lxor x (Z.shiftr x k) = Z.lxor y (Z.shiftr y k) -> x = y.
Proof.
  intros Hk Hx Hy H. apply Z.lxor_eq. set (d := Z.lxor x y).
  assert (0 <= d) as Hd by (apply Z.lxor_nonneg; lia).
  assert (d = Z.shiftr d k) as Hs.
  { apply Z.lxor_eq. subst d. rewrite Z.shiftr_lxor.
    rewrite !Z.lxor_assoc, (Z.lxor_comm y), !Z.lxor_assoc, <- Z.lxor_assoc.
    rewrite (Z.lxor_comm _ y), H, Z.lxor_nilpotent. done. }
  rewrite Z.shiftr_div_pow2 in Hs by lia.
  destruct (Z.eq_dec d 0) as [|Hn]; [done|].
  assert (d / 2 ^ k < d); [|lia]. apply Z.div_lt; [lia|]. by apply Z.pow_gt_1.
Qed.

Lemma xorshift_u64 k x : 0 <= k -> is_u 64 x -> is_u 64 (Z.lxor x (Z.shiftr x k)).
Proof.
  intros Hk [H0 H1]. unfold is_u.
  assert (0 <= Z.shiftr x k) by (by apply Z.shiftr_nonneg).
  assert (Z.shiftr x k < 2 ^ 64).
  { rewrite Z.shiftr_div_pow2 by done. apply Z.div_lt_upper_bound; [by apply Z.pow_pos_nonneg|].
    assert (1 <= 2 ^ k) by (apply (Z.pow_le_mono_r 2 0); lia). nia. }
  split; [apply Z.lxor_nonneg; lia|].
  destruct (Z.eq_dec (Z.lxor x (Z.shiftr x k)) 0) as [->|Hn]; [done|].
  apply Z.log2_lt_pow2; [pose proof (proj2 (Z.lxor_nonneg x (Z.shiftr x k))); lia|].
  eapply Z.le_lt_trans; [by apply Z.log2_lxor|].
  apply Z.max_lub_lt.
  - destruct (Z.eq_dec x 0) as [->|]; [done|]. apply Z.log2_lt_pow2; lia.
  - destruct (Z.eq_dec (Z.shiftr x k) 0) as [->|]; [done|]. apply Z.log2_lt_pow2; lia.
Qed.

Lemma wrapping_mul_inj c inv x y :
  wrapping_mul 64 c inv = 1 -> is_u 64 x -> is_u 64 y ->
  wrapping_mul 64 x c = wrapping_mul 64 y c -> x = y.
Proof.
  intros Hc Hx Hy H. rewrite <- (wrap_small 64 x Hx), <- (wrap_small 64 y Hy).
  unfold wrapping_mul, wrap in *.
  assert (forall z, z mod 2 ^ 64 = ((z * c) mod 2 ^ 64 * inv) mod 2 ^ 64) as Hinv.
  { intros z. rewrite Z.mul_mod_idemp_l, <- Z.mul_assoc by done.
    by rewrite <- Z.mul_mod_idemp_r, Hc, Z.mul_1_r by done. }
  by rewrite Hinv, H, <- Hinv.
Qed.

Lemma mix64_u64 x : is_u 64 x -> is_u 64 (mix64 x).
Proof.
  intros Hx. unfold mix64. cbv zeta. apply xorshift_u64; [done|]. by apply wrap_is_u.
Qed.

(** [mix64] loses nothing: it is injective on the 64-bit words (and stays in
    them), so two flows collide only when their FNV hashes already did, and a
    sender that rolls its id over gets a fresh one. *)
Lemma mix64_injective x y :
  is_u 64 x -> is_u 64 y -> is_u 64 (mix64 x) /\ (mix64 x = mix64 y -> x = y).
Proof.
  intros Hx Hy. unfold mix64.
  assert (forall z c, is_u 64 (wrapping_mul 64 z c)) as Hw by (intros; apply wrap_is_u; lia).
  split; [apply xorshift_u64; [lia|apply Hw]|].
  intros H. apply xorshift_inj in H; [|lia|apply Hw..].
  apply (wrapping_mul_inj _ 0x319642b2d24d8ec3) in H;
    [|vm_compute; reflexivity|apply xorshift_u64; [lia|apply Hw]..].
  apply xorshift_inj in H; [|lia|apply Hw..].
  apply (wrapping_mul_inj _ 0x96de1b173f119089) in H;
    [|vm_compute; reflexivity|apply xorshift_u64; [lia|done]..].
  apply xorshift_inj in H; [done|lia|apply Hx|apply Hy].
Qed.

(** ** Reassembly: distances and the order of release *)

Definition dist (s e : Z) : Z := wrapping_sub 32 s e.

Lemma dist_range s e : 0 <= dist s e < 2 ^ 32.
Proof. apply Z.mod_pos_bound. lia. Qed.

Lemma dist_zero s e : is_u 32 s -> is_u 32 e -> dist s e = 0 <-> s = e.
Proof.
  unfold dist, wrapping_sub, wrap, is_u. intros Hs He. split; [|intros ->; by rewrite Z.sub_diag].
  intros H. apply Z.div_exact in H; [|lia].
  assert (-1 < (s - e) / 2 ^ 32 < 1); [|lia].
  split; [|apply Z.div_lt_upper_bound; lia].
  enough (0 <= (s - e) / 2 ^ 32 \/ (s - e) / 2 ^ 32 < 0 /\ False) by lia. nia.
Qed.

Lemma is_forward_dist s e :
  is_u 32 s -> is_u 32 e -> is_forward s e = true <-> 0 < dist s e < 2 ^ 31.
Proof.
  intros Hs He. pose proof (dist_zero s e Hs He) as Hz. pose proof (dist_range s e).
  unfold is_forward. fold (dist s e). rewrite andb_true_iff, negb_true_iff, Z.eqb_neq, Z.ltb_lt.
  split; intros [??]; (split; [|done]); [|intros <-; lia].
  destruct (Z.eq_dec (dist s e) 0); [tauto|lia].
Qed.

Lemma succ_u32 e : is_u 32 (wrapping_add 32 e 1).
Proof. apply wrap_is_u. lia. Qed.
#[local] Hint Resolve succ_u32 : engine.

(** Distances shrink when [expected] moves past a sequence [q] they lie beyond. *)
Lemma dist_shift s q e :
  dist q e < dist s e -> dist s (wrapping_add 32 q 1) = dist s e - dist q e - 1.
Proof.
  intros H. pose proof (dist_range s e). pose proof (dist_range q e).
  unfold dist, wrapping_sub, wrapping_add, wrap in *.
  rewrite Zminus_mod_idemp_r. symmetry.
  pose proof (Z.div_mod (s - e) (2 ^ 32) ltac:(lia)).
  pose proof (Z.div_mod (q - e) (2 ^ 32) ltac:(lia)).
  apply Z.mod_unique_pos with (q := (s - e) / 2 ^ 32 - (q - e) / 2 ^ 32); lia.
Qed.

(** [in_order e seqs e']: [seqs] leaves in order a flow that expects [e], which
    then expects [e']: each sequence is the expected one or ahead of it by less
    than half the sequence space, and is the last one before the new expectation. *)
Inductive in_order : Z -> list Z -> Z -> Prop :=
| in_order_nil e : in_order e [] e
| in_order_cons e s seqs e' :
    dist s e < 2 ^ 31 -> in_order (wrapping_add 32 s 1) seqs e' -> in_order e (s :: seqs) e'.

Lemma in_order_app e l e1 k e2 : in_order e l e1 -> in_order e1 k e2 -> in_order e (l ++ k) e2.
Proof. induction 1; intros; simpl; [done|]. constructor; auto. Qed.

Section ReassemblyFacts.
Context {T : Type}.
Implicit Types (state : FlowState T) (output : list T) (p : Pending T).

(** Well-formed flow state: 32-bit sequences, no sequence pending twice. *)
Definition flow_wf state : Prop :=
  is_u 32 (expected state) /\ Forall (fun p => is_u 32 (p_sequence p)) (pending state)
  /\ NoDup (p_sequence <$> pending state).

(** [releases state state' rp]: the packets [rp] left the pending list, in order. *)
Definition releases state state' (rp : list (Pending T)) : Prop :=
  pending state ≡ₚ rp ++ pending state'
  /\ in_order (expected state) (p_sequence <$> rp) (expected state').

Lemma releases_refl state : releases state state [].
Proof. split; [done|constructor]. Qed.

Lemma releases_trans s1 s2 s3 l k : releases s1 s2 l -> releases s2 s3 k -> releases s1 s3 (l ++ k).
Proof.
  intros [P1 O1] [P2 O2]. split.
  - by rewrite P1, P2, app_assoc.
  - rewrite fmap_app. by eapply in_order_app.
Qed.

Lemma releases_zlen s1 s2 l : releases s1 s2 l -> zlen (pending s1) = zlen l + zlen (pending s2).
Proof. intros [P _]. by rewrite (zlen_perm _ _ P), zlen_app. Qed.

Lemma flow_wf_take state rp l e g :
  flow_wf state -> is_u 32 e -> pending state ≡ₚ rp ++ l -> flow_wf (mkFlowState e g l).
Proof.
  intros (_ & Hall & Hnd) He P. rewrite P in Hall, Hnd.
  apply Forall_app in Hall as [_ Hall]. rewrite fmap_app in Hnd.
  apply NoDup_app in Hnd as (_ & _ & Hnd). done.
Qed.

Lemma dist_same e : dist e e = 0.
Proof. unfold dist, wrapping_sub. by rewrite Z.sub_diag. Qed.

Lemma in_order_one e s : dist s e < 2 ^ 31 -> in_order e [s] (wrapping_add 32 s 1).
Proof. intros. constructor; [done|constructor]. Qed.

(** The exit condition of the loop of [drain_contiguous]. *)
Definition drained state : Prop :=
  forall p, p ∈ pending state -> p_sequence p <> expected state.

Lemma drain_loop_spec fuel state output :
  flow_wf state ->
  exists state' rp, drain_loop fuel state output = (state', output ++ (p_value <$> rp))
    /\ releases state state' rp /\ flow_wf state' /\ gap_started_ms state' = gap_started_ms state
    /\ ((length (pending state) <= fuel)%nat -> drained state').
Proof.
  revert state output. induction fuel as [|fuel IH]; intros state output Hwf; simpl.
  { exists state, []. rewrite app_nil_r. split_and!; eauto using releases_refl.
    intros Hl p Hp. destruct (pending state); [by apply not_elem_of_nil in Hp|simpl in Hl; lia]. }
  destruct (position _ (pending state)) as [i|] eqn:Hpos.
  2:{ exists state, []. rewrite app_nil_r. split_and!; eauto using releases_refl.
      intros _ p Hp. apply (position_None _ _ Hpos) in Hp. by apply Z.eqb_neq in Hp. }
  destruct (position_Some _ _ _ Hpos) as (p & Hi & Hp & _). rewrite Hi. apply Z.eqb_eq in Hp.
  pose proof (swap_remove_perm i _ _ Hi) as Hperm.
  pose proof (swap_remove_length i _ _ Hi) as Hlen.
  set (state1 := mkFlowState _ _ _).
  assert (flow_wf state1) as Hwf1 by (apply (flow_wf_take state [p]); eauto with engine).
  destruct (IH state1 (output ++ [p_value p]) Hwf1) as (state' & rp & -> & Hrel & Hwf' & Hgap & Hdone).
  exists state', (p :: rp). split_and!; try done.
  - by rewrite <- app_assoc.
  - apply (releases_trans state state1 state' [p] rp); [|done]. split; [done|].
    unfold state1. simpl. rewrite Hp. apply in_order_one. by rewrite dist_same.
  - intros Hl. apply Hdone. simpl. lia.
Qed.

(** [drain_contiguous] runs to the loop's exit condition. *)
Lemma drain_contiguous_spec state output :
  flow_wf state ->
  exists state' rp, drain_contiguous state output = (state', output ++ (p_value <$> rp))
    /\ releases state state' rp /\ flow_wf state' /\ gap_started_ms state' = gap_started_ms state
    /\ drained state'.
Proof.
  intros Hwf. destruct (drain_loop_spec (length (pending state)) state output Hwf)
    as (state' & rp & H & Hrel & Hwf' & Hgap & Hd). exists state', rp. split_and!; auto.
Qed.

Definition has_forward state : Prop :=
  exists p, p ∈ pending state /\ is_forward (p_sequence p) (expected state) = true.

Lemma candidates_spec state i d :
  (i, d) ∈ candidates state <->
  exists p, pending state !! i = Some p /\ is_forward (p_sequence p) (expected state) = true
    /\ d = dist (p_sequence p) (expected state).
Proof.
  unfold candidates. rewrite list_elem_of_omap. split.
  - intros ([j q] & Hin & Hif). apply elem_of_lookup_imap in Hin as (k & p & [= -> ->] & Hk).
    destruct (is_forward _ _) eqn:E; [|done]. injection Hif as <- <-. by exists p.
  - intros (p & Hi & Hf & ->). exists (i, p). rewrite Hf. split; [|done].
    apply elem_of_lookup_imap. by exists i, p.
Qed.

Lemma has_forward_candidates state : has_forward state -> candidates state <> [].
Proof.
  intros (p & Hp & Hf) Hnil. apply list_elem_of_lookup in Hp as [i Hi].
  assert ((i, dist (p_sequence p) (expected state)) ∈ candidates state) as Hin
    by (apply candidates_spec; by exists p).
  rewrite Hnil in Hin. by apply not_elem_of_nil in Hin.
Qed.

(** [release_lowest]: the nearest pending packet ahead of the gap leaves first,
    followed by its successors; nothing leaves when no packet is ahead. *)
Lemma release_lowest_spec state now output :
  flow_wf state ->
  exists state' rp, release_lowest state now output = (state', output ++ (p_value <$> rp))
    /\ releases state state' rp /\ flow_wf state'
    /\ (has_forward state -> 1 <= zlen rp)
    /\ (rp = [] -> state' = mkFlowState (expected state) None (pending state))
    /\ (drained state -> drained state').
Proof.
  intros Hwf. unfold release_lowest.
  destruct (min_by_key snd (candidates state)) as [[i d]|] eqn:Hmin.
  2:{ eexists _, []. rewrite app_nil_r. split_and!; [done|split; [done|constructor]|exact Hwf| |done|done].
      intros Hf%has_forward_candidates. by apply min_by_key_None in Hmin. }
  apply min_by_key_Some in Hmin as [Hin _]. simpl fst.
  apply candidates_spec in Hin as (p & Hi & Hf & _). rewrite Hi.
  pose proof (swap_remove_perm i _ _ Hi) as Hperm. pose proof Hwf as (He & Hall & _).
  set (state1 := mkFlowState _ _ _).
  assert (is_u 32 (p_sequence p)) as Hu.
  { rewrite Forall_lookup in Hall. by apply (Hall i). }
  assert (flow_wf state1) as Hwf1 by (apply (flow_wf_take state [p]); eauto with engine).
  destruct (drain_contiguous_spec state1 (output ++ [p_value p]) Hwf1)
    as (state' & rp & -> & Hrel & Hwf' & _ & Hdr).
  assert (releases state state1 [p]) as Hrel1.
  { split; [done|]. apply in_order_one. apply is_forward_dist in Hf; [lia|done..]. }
  pose proof (releases_trans state state1 state' [p] rp Hrel1 Hrel) as Hboth.
  rewrite <- app_assoc.
  destruct (zlen (pending state') =? 0); eexists _, (p :: rp); (split; [done|]);
    (split_and!; [exact Hboth|exact Hwf'| |done|intros _; exact Hdr]); intros _; rewrite zlen_cons;
    pose proof (zlen_nonneg rp); lia.
Qed.

Lemma release_expired_spec state now output :
  flow_wf state ->
  exists state' rp, release_expired state now output = (state', output ++ (p_value <$> rp))
    /\ releases state state' rp /\ flow_wf state'
    /\ (gap_expired state now = true -> has_forward state -> 1 <= zlen rp)
    /\ (drained state -> drained state').
Proof.
  intros Hwf. unfold release_expired. destruct (gap_expired state now).
  - destruct (release_lowest_spec state now output Hwf) as (state' & rp & ? & ? & ? & ? & _ & ?).
    exists state', rp. split_and!; auto.
  - exists state, []. rewrite app_nil_r. split_and!; eauto using releases_refl. discriminate.
Qed.

(** The accounting of [pending_total] after a release is exact. *)
Lemma account_releases s1 s2 rp total :
  releases s1 s2 rp -> zlen (pending s1) <= total ->
  account total (zlen (pending s1)) (zlen (pending s2)) = total - zlen rp.
Proof.
  intros Hrel Ht. pose proof (releases_zlen _ _ _ Hrel). pose proof (zlen_nonneg rp).
  pose proof (zlen_nonneg (pending s2)). unfold account, saturating_sub. lia.
Qed.

(** A flow takes the packet that it expects, and any packet ahead of it that is
    not pending yet; what is left is stale or a duplicate, and is dropped. *)
Definition accepts state (s : Z) : bool :=
  (s =? expected state)
  || (is_forward s (expected state) && negb (existsb (fun p => p_sequence p =? s) (pending state))).

(** What a push does to a flow: [rp] is what it releases, [kept] whether the
    pushed packet was taken at all. *)
Definition push_ok (kept : bool) state (total : Z) (new : Pending T) output
    (r : FlowState T * Z * list T) : Prop :=
  let '(state', total', output') := r in
  exists rp,
    output' = output ++ (p_value <$> rp)
    /\ (if kept then new :: pending state else pending state) ≡ₚ rp ++ pending state'
    /\ in_order (expected state) (p_sequence <$> rp) (expected state')
    /\ flow_wf state'
    /\ total' - zlen (pending state') = total - zlen (pending state)
    /\ total' <= MAX_PENDING_TOTAL.

(** Composition: first a release, then a push. *)
Lemma push_ok_after kept state state1 rp total new output r :
  releases state state1 rp ->
  push_ok kept state1 (total - zlen rp) new (output ++ (p_value <$> rp)) r ->
  push_ok kept state total new output r.
Proof.
  intros Hrel. destruct r as [[state' total'] output'].
  intros (rp2 & -> & Hperm & Hord & Hwf & Htot & Hmax).
  exists (rp ++ rp2). pose proof (releases_zlen _ _ _ Hrel). destruct Hrel as [P O].
  split_and!; try done; try lia.
  - by rewrite fmap_app, app_assoc.
  - rewrite <- app_assoc, <- Hperm. destruct kept; rewrite P; [|done].
    by rewrite Permutation_middle.
  - rewrite fmap_app. by eapply in_order_app.
Qed.

(** Appending a packet that is not a duplicate. *)
Lemma flow_wf_append state g s v :
  flow_wf state -> is_u 32 s ->
  existsb (fun p => p_sequence p =? s) (pending state) = false ->
  flow_wf (mkFlowState (expected state) g (pending state ++ [mkPending s v])).
Proof.
  intros (He & Hall & Hnd) Hs Hdup. split_and!; simpl; [done| |].
  - apply Forall_app. split; [done|]. by constructor.
  - rewrite fmap_app. apply NoDup_app. split_and!; [done| |apply NoDup_singleton].
    intros q Hq Hin. apply list_elem_of_singleton in Hin as ->.
    apply list_elem_of_fmap in Hq as (p & Hqs & Hp).
    assert (existsb (fun p => p_sequence p =? s) (pending state) = true); [|congruence].
    apply existsb_exists. exists p. split; [by apply list_elem_of_In|]. by apply Z.eqb_eq.
Qed.

Lemma existsb_perm (f : Pending T -> bool) l k rp :
  l ≡ₚ rp ++ k -> existsb f l = false -> existsb f k = false.
Proof.
  intros P H. destruct (existsb f k) eqn:E; [|done].
  apply existsb_exists in E as (p & Hp & Hf). rewrite <- H. symmetry. apply existsb_exists.
  exists p. split; [|done]. apply list_elem_of_In. rewrite P.
  apply elem_of_app. right. by apply list_elem_of_In.
Qed.

(** The expected packet leaves at once, followed by its pending successors. *)
Lemma push_expected_ok state total s v g output :
  flow_wf state -> zlen (pending state) <= total <= MAX_PENDING_TOTAL -> s = expected state ->
  push_ok true state total (mkPending s v) output
    (let '(state2, output2) :=
       drain_contiguous (mkFlowState (wrapping_add 32 (expected state) 1) g (pending state))
         (output ++ [v]) in
     (state2, account total (zlen (pending state)) (zlen (pending state2)), output2)).
Proof.
  intros Hwf Ht ->. set (state1 := mkFlowState _ _ _).
  assert (flow_wf state1) as Hwf1 by (apply (flow_wf_take state []); eauto with engine).
  destruct (drain_contiguous_spec state1 (output ++ [v]) Hwf1)
    as (state2 & rp & -> & Hrel & Hwf2 & _).
  change (pending state) with (pending state1) at 1. rewrite (account_releases _ _ _ _ Hrel) by (simpl; lia).
  pose proof (releases_zlen _ _ _ Hrel) as Hz. destruct Hrel as [P O].
  change (pending state1) with (pending state) in *. pose proof (zlen_nonneg rp).
  exists (mkPending (expected state) v :: rp). split_and!; try done; try lia.
  - by rewrite <- app_assoc.
  - simpl. by rewrite P.
  - simpl. constructor; [|done]. by rewrite dist_same.
Qed.

Lemma push_ok_intro state state1 state2 rp total total2 new output :
  pending state1 ≡ₚ new :: pending state -> expected state1 = expected state ->
  releases state1 state2 rp -> flow_wf state2 ->
  total2 = total + 1 - zlen rp -> total2 <= MAX_PENDING_TOTAL ->
  push_ok true state total new output (state2, total2, output ++ (p_value <$> rp)).
Proof.
  intros P1 He Hrel Hwf -> Hmax. pose proof (releases_zlen _ _ _ Hrel) as Hz.
  apply zlen_perm in P1 as Hz1. rewrite zlen_cons in Hz1.
  destruct Hrel as [P O]. rewrite He in O. exists rp. split_and!; try done; try lia.
  by rewrite <- P1, P.
Qed.

(** The gap timer starts at the first out-of-order packet. *)
Definition start_gap state (now : Z) : FlowState T :=
  match gap_started_ms state with
  | None => mkFlowState (expected state) (Some now) (pending state)
  | Some _ => state
  end.

Lemma start_gap_same state now :
  pending (start_gap state now) = pending state /\ expected (start_gap state now) = expected state.
Proof. unfold start_gap. by destruct (gap_started_ms state). Qed.

Lemma start_gap_wf state now : flow_wf state -> flow_wf (start_gap state now).
Proof. intros H. unfold start_gap. by destruct (gap_started_ms state). Qed.

(** The last steps of [push_pending]: start the gap timer, release if expired. *)
Lemma push_finish_ok state state1 state2 rp total new now output :
  pending state1 ≡ₚ new :: pending state -> expected state1 = expected state ->
  releases state1 state2 rp -> flow_wf state2 ->
  zlen (pending state) <= total ->
  total + 1 - zlen rp <= MAX_PENDING_TOTAL ->
  push_ok true state total new output
    (let '(state3, output3) := release_expired (start_gap state2 now) now (output ++ (p_value <$> rp)) in
     (state3, account (total + 1 - zlen rp) (zlen (pending (start_gap state2 now)))
                (zlen (pending state3)), output3)).
Proof.
  intros P1 He Hrel Hwf Ht Hmax. destruct (start_gap_same state2 now) as [Hp Hx].
  destruct (release_expired_spec (start_gap state2 now) now (output ++ (p_value <$> rp)))
    as (state3 & rp3 & -> & Hrel3 & Hwf3 & _); [by apply start_gap_wf|].
  apply zlen_perm in P1 as Hz1. rewrite zlen_cons in Hz1.
  pose proof (releases_zlen _ _ _ Hrel) as Hz. pose proof (zlen_nonneg rp3).
  rewrite (account_releases _ _ _ _ Hrel3) by (rewrite Hp; lia).
  rewrite <- app_assoc, <- fmap_app.
  apply (push_ok_intro state state1); [done..| |done|rewrite zlen_app; lia|lia].
  apply (releases_trans state1 (start_gap state2 now)); [|done].
  destruct Hrel as [P O]. split; [by rewrite Hp|by rewrite Hx].
Qed.

Lemma push_pending_ok state total s v now output :
  flow_wf state -> is_u 32 s ->
  existsb (fun p => p_sequence p =? s) (pending state) = false ->
  zlen (pending state) <= total <= MAX_PENDING_TOTAL ->
  (total = MAX_PENDING_TOTAL -> is_forward s (expected state) = true) ->
  push_ok true state total (mkPending s v) output (push_pending state total s v now output).
Proof.
  intros Hwf Hs Hdup Ht Hfwd. unfold push_pending.
  set (state1 := mkFlowState (expected state) (gap_started_ms state) _).
  assert (flow_wf state1) as Hwf1 by (by apply flow_wf_append).
  assert (pending state1 ≡ₚ mkPending s v :: pending state) as P1 by (symmetry; apply Permutation_cons_append).
  destruct (Z.ltb_spec MAX_PENDING_TOTAL (total + 1)) as [Hfull|Hroom].
  - destruct (release_lowest_spec state1 now output Hwf1) as (state2 & rp & -> & Hrel & Hwf2 & Hne & _ & _).
    assert (has_forward state1) as Hhas.
    { exists (mkPending s v). split; [|apply Hfwd; lia]. rewrite P1. by constructor. }
    specialize (Hne Hhas). apply zlen_perm in P1 as Hz1. rewrite zlen_cons in Hz1.
    rewrite (account_releases _ _ _ _ Hrel) by lia.
    apply (push_finish_ok state state1); done || lia.
  - pose proof (push_finish_ok state state1 state1 [] total (mkPending s v) now output
      P1 eq_refl (releases_refl state1) Hwf1 ltac:(lia)) as H.
    rewrite zlen_nil, Z.sub_0_r, app_nil_r in H. apply H. lia.
Qed.

(** A conditional release of the nearest packet, with its accounting. *)
Lemma make_room_spec (b : bool) state total now output :
  flow_wf state -> zlen (pending state) <= total ->
  exists state1 rp,
    (if b then
       let '(state1, output1) := release_lowest state now output in
       (state1, account total (zlen (pending state)) (zlen (pending state1)), output1)
     else (state, total, output)) = (state1, total - zlen rp, output ++ (p_value <$> rp))
    /\ releases state state1 rp /\ flow_wf state1
    /\ (rp = [] -> expected state1 = expected state /\ pending state1 = pending state)
    /\ (b = true -> has_forward state -> 1 <= zlen rp).
Proof.
  intros Hwf Ht. destruct b.
  - destruct (release_lowest_spec state now output Hwf) as (state1 & rp & -> & Hrel & Hwf1 & Hne & Hnil & _).
    exists state1, rp. rewrite (account_releases _ _ _ _ Hrel) by lia.
    split_and!; [done|done|done|by intros ->%Hnil|by auto].
  - exists state, []. rewrite app_nil_r, zlen_nil, Z.sub_0_r. split_and!; [done|apply releases_refl|done|done|done].
Qed.

(** What [push_state] does, on every branch: an expired gap is released first,
    and what becomes of the packet is decided by the flow that is left. *)
Lemma push_released_ok state total s v now output :
  flow_wf state -> is_u 32 s -> zlen (pending state) <= total <= MAX_PENDING_TOTAL ->
  exists released rp,
    release_expired state now output = (released, output ++ (p_value <$> rp))
    /\ releases state released rp
    /\ (gap_expired state now = true -> has_forward state -> 1 <= zlen rp)
    /\ push_ok (accepts released s) released (total - zlen rp) (mkPending s v)
         (output ++ (p_value <$> rp)) (push_state state total s v now output).
Proof.
  intros Hwf Hs Ht. unfold push_state.
  destruct (release_expired_spec state now output Hwf) as (st & rp & -> & Hrel & Hwf1 & Hgap & _).
  exists st, rp. split_and!; [done..|].
  pose proof (releases_zlen _ _ _ Hrel) as Hz. pose proof (zlen_nonneg rp).
  rewrite (account_releases _ _ _ _ Hrel) by lia.
  remember (output ++ (p_value <$> rp)) as output1.
  remember (total - zlen rp) as total1. assert (zlen (pending st) <= total1 <= MAX_PENDING_TOTAL) as Ht1 by lia.
  clear Heqoutput1 Heqtotal1 Ht Hz Hwf Hrel Hgap. clear state. rename st into state. pose proof Hwf1 as (He & _ & _).
  unfold accepts.
  destruct (Z.eqb_spec s (expected state)) as [->|Hne]; [exact (push_expected_ok state total1 _ v None output1 Hwf1 Ht1 eq_refl)|].
  destruct (is_forward s (expected state)) eqn:Hfwd; simpl negb; cbn [orb].
  2:{ exists []. rewrite app_nil_r. split_and!; try done; [constructor|lia]. }
  destruct (existsb _ (pending state)) eqn:Hdup.
  { exists []. rewrite app_nil_r. split_and!; try done; [constructor|lia]. }
  destruct (make_room_spec (zlen (pending state) =? MAX_PENDING_PER_FLOW) state total1 now output1)
    as (sa & ra & -> & Hra & Hwfa & Hnila & _); [done|lia|].
  pose proof (releases_zlen _ _ _ Hra) as Hza. pose proof (zlen_nonneg ra).
  apply (push_ok_after _ state sa ra); [done|].
  pose proof (proj1 Hra) as Pa.
  pose proof (existsb_perm _ _ _ _ Pa Hdup) as Hdupa.
  assert (total1 - zlen ra = MAX_PENDING_TOTAL -> expected sa = expected state) as Hexp.
  { intros Hfull. apply Hnila. destruct ra; [done|]. rewrite zlen_cons in *. pose proof (zlen_nonneg ra). lia. }
  destruct ((total1 - zlen ra =? MAX_PENDING_TOTAL) && (zlen (pending sa) =? 0)) eqn:Hdirect.
  { bool_to_prop. exists [mkPending s v]. split_and!; try done; try lia.
    - simpl. apply in_order_one. rewrite Hexp by done. apply is_forward_dist in Hfwd; [lia|done..].
    - apply (flow_wf_take sa []); eauto with engine. }
  remember (output1 ++ (p_value <$> ra)) as output2. remember (total1 - zlen ra) as total2.
  destruct (make_room_spec (total2 =? MAX_PENDING_TOTAL) sa total2 now output2)
    as (sb & rb & -> & Hrb & Hwfb & Hnilb & _); [done|lia|].
  pose proof (releases_zlen _ _ _ Hrb) as Hzb. pose proof (zlen_nonneg rb).
  apply (push_ok_after _ sa sb rb); [done|].
  apply push_pending_ok; [done..| |lia|].
  - exact (existsb_perm _ _ _ _ (proj1 Hrb) Hdupa).
  - intros Hfull. assert (rb = []) as ->.
    { destruct rb; [done|]. rewrite zlen_cons in *. pose proof (zlen_nonneg rb). lia. }
    rewrite zlen_nil in Hfull. rewrite (proj1 (Hnilb eq_refl)), Hexp by lia. done.
Qed.

Lemma push_state_ok state total s v now output :
  flow_wf state -> is_u 32 s -> zlen (pending state) <= total <= MAX_PENDING_TOTAL ->
  push_ok (accepts (fst (release_expired state now output)) s) state total (mkPending s v) output
    (push_state state total s v now output)
  /\ (gap_expired state now = true -> has_forward state ->
      zlen output < zlen (snd (push_state state total s v now output))).
Proof.
  intros Hwf Hs Ht.
  destruct (push_released_ok state total s v now output Hwf Hs Ht) as (st & rp & -> & Hrel & Hgap & Hok).
  split; [by apply (push_ok_after _ state st rp)|]. intros Hg Hf. specialize (Hgap Hg Hf).
  destruct (push_state state total s v now output) as [[st' total'] out']. destruct Hok as (rp2 & -> & _).
  cbn [snd]. unfold zlen in *. rewrite !length_app, !length_fmap. lia.
Qed.

(** A flow that waits for its expected packet still does after a push, as long
    as there is room for the packet. *)
Lemma push_state_drained state total s v now output :
  flow_wf state -> is_u 32 s -> zlen (pending state) <= total ->
  zlen (pending state) < MAX_PENDING_PER_FLOW -> total < MAX_PENDING_TOTAL -> drained state ->
  drained (fst (fst (push_state state total s v now output))).
Proof.
  intros Hwf Hs Ht Hroom Hmax Hdr. unfold push_state.
  destruct (release_expired_spec state now output Hwf) as (st & rp & -> & Hrel & Hwf1 & _ & Hdr1).
  pose proof (releases_zlen _ _ _ Hrel) as Hz. pose proof (zlen_nonneg rp). specialize (Hdr1 Hdr).
  rewrite (account_releases _ _ _ _ Hrel) by lia.
  destruct (Z.eqb_spec s (expected st)) as [->|Hne].
  { set (state1 := mkFlowState _ _ _).
    assert (flow_wf state1) as Hwf2 by (apply (flow_wf_take st []); [done| |done]; destruct Hwf1; eauto with engine).
    destruct (drain_contiguous_spec state1 ((output ++ (p_value <$> rp)) ++ [v]) Hwf2)
      as (state2 & rp2 & -> & _ & _ & _ & Hd). done. }
  destruct (negb _ || existsb _ _) eqn:Hrefused; [done|].
  apply orb_false_iff in Hrefused as [_ Hdup].
  destruct (Z.eqb_spec (zlen (pending st)) MAX_PENDING_PER_FLOW); [lia|].
  destruct (Z.eqb_spec (total - zlen rp) MAX_PENDING_TOTAL); [lia|]. cbn [andb].
  unfold push_pending. destruct (Z.ltb_spec MAX_PENDING_TOTAL (total - zlen rp + 1)); [lia|].
  set (state2 := mkFlowState (expected st) (gap_started_ms st) _).
  assert (flow_wf state2) as Hwf2 by (by apply flow_wf_append).
  assert (drained state2) as Hd2.
  { intros p Hp. apply elem_of_app in Hp as [Hp|Hp%list_elem_of_singleton]; [by apply Hdr1|by subst]. }
  change (match gap_started_ms state2 with None => _ | Some _ => _ end) with (start_gap state2 now).
  destruct (start_gap_same state2 now) as [Hp Hx].
  destruct (release_expired_spec (start_gap state2 now) now (output ++ (p_value <$> rp)))
    as (state3 & rp3 & -> & _ & _ & _ & Hd3); [by apply start_gap_wf|].
  apply Hd3. unfold drained in *. by rewrite Hp, Hx.
Qed.

(** ** The reassembler *)

Implicit Types (r : FlowReassembler T).

Definition pending_sum (m : gmap ReassemblyKey (FlowState T)) : Z :=
  map_fold (fun _ state acc => zlen (pending state) + acc) 0 m.

Lemma pending_sum_insert m k state :
  pending_sum (<[k := state]> m) =
  pending_sum m - zlen (pending (default empty_state (m !! k))) + zlen (pending state).
Proof.
  assert (forall m state, m !! k = None ->
    pending_sum (<[k := state]> m) = zlen (pending state) + pending_sum m) as Hnew.
  { intros m' st Hk. unfold pending_sum. rewrite map_fold_insert_L; [done| |done].
    intros. lia. }
  destruct (m !! k) as [old|] eqn:Hk; simpl.
  - assert (pending_sum m = zlen (pending old) + pending_sum (delete k m)) as ->.
    { rewrite <- Hnew by apply lookup_delete_eq. by rewrite insert_delete_id. }
    rewrite <- insert_delete_eq, Hnew by apply lookup_delete_eq. lia.
  - rewrite Hnew by done. change (zlen []) with 0. lia.
Qed.

Lemma pending_sum_lookup m k : zlen (pending (default empty_state (m !! k))) <= pending_sum m.
Proof.
  assert (forall m, 0 <= pending_sum m) as Hpos.
  { intros m'. induction m' as [|i x m' Hi IH] using map_ind; [done|].
    rewrite pending_sum_insert, Hi. simpl. pose proof (zlen_nonneg (pending x)).
    change (zlen []) with 0. lia. }
  destruct (m !! k) as [state|] eqn:Hk; simpl; [|by rewrite zlen_nil].
  rewrite <- (insert_delete_id m k state Hk), pending_sum_insert.
  rewrite lookup_delete_eq. simpl. specialize (Hpos (delete k m)). change (zlen []) with 0. lia.
Qed.

(** Well-formed reassembler: every flow is, the flow table and the reorder
    buffer are within their limits, and the counter is exact. *)
Definition reassembler_wf r : Prop :=
  map_Forall (fun _ state => flow_wf state) (flows r)
  /\ Z.of_nat (size (flows r)) <= MAX_TRACKED_FLOWS
  /\ pending_total r = pending_sum (flows r)
  /\ pending_total r <= MAX_PENDING_TOTAL.

Lemma empty_state_wf : flow_wf empty_state.
Proof. split_and!; [by unfold is_u; simpl; lia|constructor|constructor]. Qed.

Lemma new_reassembler_wf : reassembler_wf new_reassembler.
Proof. split_and!; simpl; [apply map_Forall_empty|done..]. Qed.

(** The table reset at the top of [push_at]. *)
Definition make_flow_room r (key : ReassemblyKey) : FlowReassembler T :=
  if (Z.of_nat (size (flows r)) =? MAX_TRACKED_FLOWS) && negb (bool_decide (is_Some (flows r !! key)))
  then mkFlowReassembler ∅ 0 else r.

Lemma make_flow_room_wf r key :
  reassembler_wf r ->
  reassembler_wf (make_flow_room r key) /\
  (flows (make_flow_room r key) !! key = None -> Z.of_nat (size (flows (make_flow_room r key))) < MAX_TRACKED_FLOWS).
Proof.
  intros Hwf. unfold make_flow_room. destruct (_ && _) eqn:E.
  - split; [apply new_reassembler_wf|]. simpl. by rewrite map_size_empty.
  - split; [done|]. intros Hk. destruct Hwf as (_ & Hsize & _).
    apply andb_false_iff in E as [E|E]; [apply Z.eqb_neq in E; lia|].
    rewrite Hk in E. by rewrite bool_decide_eq_false_2 in E by (by intros [? ?]).
Qed.

Lemma push_at_unfold r h v now output :
  push_at r h v now output =
  let key := mkReassemblyKey (sender_id h) (flow_id h) in
  let self := make_flow_room r key in
  let '(state, total, output) :=
    push_state (default empty_state (flows self !! key)) (pending_total self) (sequence h) v now output in
  (mkFlowReassembler (<[key := state]> (flows self)) total, output).
Proof. reflexivity. Qed.

Lemma flow_lookup_wf r key : reassembler_wf r -> flow_wf (default empty_state (flows r !! key)).
Proof.
  intros (Hall & _). destruct (flows r !! key) as [state|] eqn:Hk; simpl; [|apply empty_state_wf].
  exact (Hall key state Hk).
Qed.

Lemma make_flow_room_tracked r key state : flows r !! key = Some state -> make_flow_room r key = r.
Proof.
  intros Hk. unfold make_flow_room. rewrite Hk, bool_decide_eq_true_2 by done. by rewrite andb_false_r.
Qed.

(** What one push does to the reassembler, branch by branch of [push_state]. *)
Lemma push_at_spec r h v now output r' output' :
  reassembler_wf r -> is_u 32 (sequence h) -> push_at r h v now output = (r', output') ->
  let key := mkReassemblyKey (sender_id h) (flow_id h) in
  let room := make_flow_room r key in
  exists state' total',
    r' = mkFlowReassembler (<[key := state']> (flows room)) total'
    /\ push_ok (accepts (fst (release_expired (default empty_state (flows room !! key)) now output)) (sequence h))
         (default empty_state (flows room !! key)) (pending_total room)
         (mkPending (sequence h) v) output (state', total', output')
    /\ push_state (default empty_state (flows room !! key)) (pending_total room) (sequence h) v now output
       = (state', total', output').
Proof.
  intros Hwf Hs. rewrite push_at_unfold. set (key := mkReassemblyKey _ _). cbv zeta.
  destruct (make_flow_room_wf r key Hwf) as [Hroom _]. set (room := make_flow_room r key) in *.
  pose proof (flow_lookup_wf room key Hroom) as Hst. destruct Hroom as (_ & _ & Htot & Hmax).
  pose proof (pending_sum_lookup (flows room) key) as Hle. rewrite <- Htot in Hle.
  pose proof (push_state_ok _ (pending_total room) (sequence h) v now output Hst Hs (conj Hle Hmax)) as [Hok _].
  destruct (push_state _ _ _ _ _ _) as [[state' total'] out']. intros [= <- <-].
  exists state', total'. done.
Qed.

Definition run_pushes r (events : list (FrameHeader * T * Z)) output : FlowReassembler T * list T :=
  fold_left (fun '(r, output) '(h, v, now) => push_at r h v now output) events (r, output).

End ReassemblyFacts.

Arguments reassembler_wf {T}.
Arguments flow_wf {T}.

Lemma push_keeps_wf {T} (r : FlowReassembler T) h v now output :
  reassembler_wf r -> is_u 32 (sequence h) ->
  reassembler_wf (fst (push_at r h v now output)).
Proof.
  intros Hwf Hs. destruct (push_at r h v now output) as [r' output'] eqn:E.
  apply push_at_spec in E as (state' & total' & -> & Hok & _); [|done..]. cbn [fst].
  set (key := mkReassemblyKey _ _) in *.
  destruct (make_flow_room_wf r key Hwf) as [(Hall & Hsize & Htot & Hmax) Hfree].
  set (room := make_flow_room r key) in *.
  destruct Hok as (rp & _ & _ & _ & Hst & Hacc & Hmax').
  split_and!; simpl.
  - by apply map_Forall_insert_2.
  - rewrite map_size_insert. destruct (flows room !! key); [done|]. specialize (Hfree eq_refl). lia.
  - rewrite pending_sum_insert. lia.
  - done.
Qed.

Lemma run_pushes_keeps_wf {T} (r : FlowReassembler T) events output :
  reassembler_wf r -> Forall (fun e => is_u 32 (sequence (fst (fst e)))) events ->
  reassembler_wf (fst (run_pushes r events output)).
Proof.
  intros Hwf Hs. revert r output Hwf. unfold run_pushes.
  induction Hs as [|[[h v] now] events Hh _ IH]; intros r output Hwf; [done|]. cbn [fold_left].
  destruct (push_at r h v now output) as [r' output'] eqn:E. apply IH.
  change r' with (fst (r', output')). rewrite <- E. by apply push_keeps_wf.
Qed.

(** Whatever sequence of frames arrives, at whatever times, the reassembler
    stays well formed: at most [MAX_TRACKED_FLOWS] flows, no sequence pending
    twice in a flow, the counter [pending_total] always equal to the number of
    packets really held (the saturating subtractions never saturate), and that
    number never above [MAX_PENDING_TOTAL]. *)
Lemma push_at_wf {T} (events : list (FrameHeader * T * Z)) :
  Forall (fun e => is_u 32 (sequence (fst (fst e)))) events ->
  reassembler_wf (fst (run_pushes new_reassembler events [])).
Proof. apply run_pushes_keeps_wf, new_reassembler_wf. Qed.

Lemma push_at_wf_witness :
  reassembler_wf (fst (run_pushes (@new_reassembler Z)
    [(mkFrameHeader 17 23 5, 100, 0); (mkFrameHeader 17 23 5, 101, 3)] [])).
Proof.
  apply push_at_wf. repeat apply List.Forall_cons; try apply List.Forall_nil; unfold is_u; simpl; lia.
Defined.

(** C8: a tracked flow leaves in order, without loss of account and without
    touching the other flows. What a push appends to the output is a list [rp]
    of packets whose sequences go forward from the flow's expected sequence to
    the new one. Nothing else leaves: the packets that were pending, with the
    new one when the flow accepts it (it is the expected packet, or one ahead of
    it that is not pending yet, once a gap that expired is released), are exactly
    [rp] and those still pending, and the other flows stay as they were. And what
    can leave does: a gap that expired with a packet behind it releases at least
    one, and as long as there is room the flow that waits for its expected packet
    does so after the push too. *)
Theorem push_at_in_order {T} (r : FlowReassembler T) h v now output state r' output' :
  reassembler_wf r -> is_u 32 (sequence h) ->
  flows r !! mkReassemblyKey (sender_id h) (flow_id h) = Some state ->
  push_at r h v now output = (r', output') ->
  exists state' rp,
    flows r' = <[mkReassemblyKey (sender_id h) (flow_id h) := state']> (flows r)
    /\ output' = output ++ (p_value <$> rp)
    /\ in_order (expected state) (p_sequence <$> rp) (expected state')
    /\ (if accepts (fst (release_expired state now output)) (sequence h)
        then mkPending (sequence h) v :: pending state else pending state)
       ≡ₚ rp ++ pending state'
    /\ (gap_expired state now = true -> has_forward state -> rp <> [])
    /\ (drained state -> zlen (pending state) < MAX_PENDING_PER_FLOW ->
        pending_total r < MAX_PENDING_TOTAL -> drained state').
Proof.
  intros Hwf Hs Hk E. pose proof (flow_lookup_wf r (mkReassemblyKey (sender_id h) (flow_id h)) Hwf) as Hst.
  pose proof (pending_sum_lookup (flows r) (mkReassemblyKey (sender_id h) (flow_id h))) as Hle.
  pose proof Hwf as (_ & _ & Htot & Hmax). rewrite <- Htot in Hle. rewrite Hk in Hst, Hle. simpl in Hst, Hle.
  apply push_at_spec in E as (state' & total' & -> & Hok & Hpush); [|done..].
  rewrite (make_flow_room_tracked r _ state Hk) in *. rewrite Hk in *. simpl in Hok, Hpush.
  destruct Hok as (rp & -> & Hperm & Hord & _). exists state', rp. split_and!; [done..| |].
  - intros Hgap Hfwd ->.
    destruct (push_state_ok state (pending_total r) (sequence h) v now output) as [_ Hmore]; [done..|lia|].
    specialize (Hmore Hgap Hfwd). rewrite Hpush, app_nil_r in Hmore. simpl in Hmore. lia.
  - intros Hdr Hroom Hfree. change state' with (fst (fst (state', total', output ++ (p_value <$> rp)))).
    rewrite <- Hpush. apply push_state_drained; done || lia.
Qed.

Definition one_gap : FlowReassembler Z :=
  fst (run_pushes new_reassembler
         [(mkFrameHeader 17 23 0, 100, 0); (mkFrameHeader 17 23 2, 102, 0)] []).

Lemma one_gap_wf : reassembler_wf one_gap.
Proof.
  apply run_pushes_keeps_wf; [apply new_reassembler_wf|].
  repeat constructor; unfold is_u; simpl; lia.
Qed.

Lemma push_at_in_order_witness :
  exists state' rp,
    flows (fst (push_at one_gap (mkFrameHeader 17 23 1) 101 5 [100]))
      = <[mkReassemblyKey 17 23 := state']> (flows one_gap)
    /\ snd (push_at one_gap (mkFrameHeader 17 23 1) 101 5 [100]) = [100] ++ (p_value <$> rp)
    /\ in_order 1 (p_sequence <$> rp) (expected state')
    /\ [mkPending 1 101; mkPending 2 102] ≡ₚ rp ++ pending state'
    /\ drained state'.
Proof.
  destruct (push_at_in_order one_gap (mkFrameHeader 17 23 1) 101 5 [100]
              (mkFlowState 1 (Some 0) [mkPending 2 102])
              (fst (push_at one_gap (mkFrameHeader 17 23 1) 101 5 [100]))
              (snd (push_at one_gap (mkFrameHeader 17 23 1) 101 5 [100])))
    as (state' & rp & Hf & Ho & Hord & Hp & _ & Hd).
  - apply one_gap_wf.
  - unfold is_u. simpl. lia.
  - vm_compute. reflexivity.
  - apply surjective_pairing.
  - exists state', rp. split_and!; [exact Hf|exact Ho|exact Hord|exact Hp|]. apply Hd.
    + intros p Hp2%list_elem_of_singleton. subst p. discriminate.
    + reflexivity.
    + vm_compute. reflexivity.
Defined.

(** ** A packet that fills the gap of a full buffer is lost

    When a flow already holds [MAX_PENDING_PER_FLOW] packets, [push_at] makes
    room by releasing the nearest pending packet before it stores the new one.
    If the new packet is nearer than all of them, [expected] has moved past it:
    it is stored behind the expected sequence, where neither [drain_contiguous]
    nor [release_lowest] ever finds it. *)

Definition flow_events (seqs : list Z) : list (FrameHeader * Z * Z) :=
  (fun s => (mkFrameHeader 17 23 s, s, 0)) <$> seqs.

Definition full_then_nearest : list Z := seqZ 2 96 ++ [1].

(** After the sequences 2..97 (the flow's whole buffer) and then 1, the output
    is 2..97 without 1, the flow expects 98, and packet 1 is still held in
    [pending], behind the expected sequence. *)
Lemma full_buffer_keeps_stale_packet :
  let '(r, output) := run_pushes new_reassembler (flow_events full_then_nearest) [] in
  output = seqZ 2 96
  /\ (expected <$> flows r !! mkReassemblyKey 17 23) = Some 98
  /\ (pending <$> flows r !! mkReassemblyKey 17 23) = Some [mkPending 1 1]
  /\ is_forward 1 98 = false.
Proof. vm_compute. split_and!; reflexivity. Qed.

(** Rounds of this pattern: the [k]-th fills what is left of the buffer beyond a
    gap of two and then sends the packet just before it. *)
Fixpoint stale_rounds (k : nat) (base : Z) (free : Z) : list Z :=
  match k with
  | O => []
  | S k => seqZ (base + 2) free ++ [base + 1] ++ stale_rounds k (base + 2 + free) (free - 1)
  end.

(** [MAX_PENDING_PER_FLOW] does not bound what one flow holds: once its
    buffer is full of such stale packets, the test for equality with the limit
    releases nothing and later packets are stored beyond it. *)
Lemma per_flow_limit_exceeded :
  let events := stale_rounds 96 0 96 ++ [10000; 10001] in
  let '(r, _) := run_pushes new_reassembler (flow_events events) [] in
  (zlen <$> (pending <$> flows r !! mkReassemblyKey 17 23)) = Some (MAX_PENDING_PER_FLOW + 2).
Proof. vm_compute. reflexivity. Qed.
