(* ===== verification/Scheduler.v ===== *)
(** * Scheduler: packet classes

    Models [shared/striped_scheduler.rs]: the class of a packet (latency-bound,
    medium, bulk), which decides the queue it travels in, the length of its
    stripe and the size of its datagram batch. *)

From S2P Require Import Prelude Bytes FlowFrame.

Definition SMALL_PACKET_MAX : Z := 164.
Definition MEDIUM_PACKET_MAX : Z := 999.
Definition SMALL_STREAM_STRIPE_PACKET_CHUNK : Z := 4.
Definition MEDIUM_STREAM_STRIPE_PACKET_CHUNK : Z := 16.
Definition BULK_STREAM_STRIPE_PACKET_CHUNK : Z := 32.
Definition SMALL_DATAGRAM_BATCH : Z := 16.
Definition MEDIUM_DATAGRAM_BATCH : Z := 64.
Definition BULK_DATAGRAM_BATCH : Z := 128.

Inductive PacketClass : Type := Small | Medium | Bulk.

#[export] Instance PacketClass_eq_dec : EqDecision PacketClass.
Proof. solve_decision. Defined.

Definition class_index (c : PacketClass) : nat :=
  match c with Small => 0 | Medium => 1 | Bulk => 2 end.

Definition stream_chunk (c : PacketClass) : Z :=
  match c with
  | Small => SMALL_STREAM_STRIPE_PACKET_CHUNK
  | Medium => MEDIUM_STREAM_STRIPE_PACKET_CHUNK
  | Bulk => BULK_STREAM_STRIPE_PACKET_CHUNK
  end.

Definition datagram_batch (c : PacketClass) : Z :=
  match c with
  | Small => SMALL_DATAGRAM_BATCH
  | Medium => MEDIUM_DATAGRAM_BATCH
  | Bulk => BULK_DATAGRAM_BATCH
  end.

Record DispatchTicket : Type := mkDispatchTicket {
  start_slot : Z;
  ticket_class : PacketClass;
}.

Definition size_class (length : Z) : PacketClass :=
  if length <=? SMALL_PACKET_MAX then Small
  else if length <=? MEDIUM_PACKET_MAX then Medium
  else Bulk.

Definition is_dns (packet : bytes) (transport offset : Z) : res bool :=
  if negb ((transport =? 6) || (transport =? 17)) then Ret false
  else
    letelse ports := get_range packet offset (saturating_add 64 offset 4) else Ret false in
    p0 ← index ports 0; p1 ← index ports 1;
    p2 ← index ports 2; p3 ← index ports 3;
    let source := of_be [p0; p1] in
    let destination := of_be [p2; p3] in
    Ret ((source =? 53) || (destination =? 53)).

Definition is_tcp_control (packet : bytes) (offset : Z) : res bool :=
  letelse header := get_range packet offset (saturating_add 64 offset 14) else Ret false in
  flags ← index header 13;
  if negb (Z.land flags (Z.lor 0x02 (Z.lor 0x01 0x04)) =? 0) then Ret true
  else if Z.land flags 0x10 =? 0 then Ret false
  else
    h12 ← index header 12;
    let header_len := saturating_mul 64 (Z.shiftr h12 4) 4 in
    Ret ((20 <=? header_len) && (zlen packet <=? saturating_add 64 offset header_len)).

(** One turn of the extension-header loop of [ipv6_transport]: the next protocol
    and offset, or the end of the chain. *)
Inductive ext_step : Type :=
| ExtReject
| ExtFound
| ExtNext (protocol offset : Z).

Definition ipv6_extension (packet : bytes) (protocol offset : Z) : res ext_step :=
  if (protocol =? 0) || (protocol =? 43) || (protocol =? 60) then
    letelse stop := checked_add 64 offset 2 else Ret ExtReject in
    letelse header := get_range packet offset stop else Ret ExtReject in
    h0 ← index header 0; h1 ← index header 1;
    letelse size := checked_mul 64 (h1 + 1) 8 else Ret ExtReject in
    letelse offset := checked_add 64 offset size else Ret ExtReject in
    Ret (ExtNext h0 offset)
  else if protocol =? 44 then
    letelse stop := checked_add 64 offset 8 else Ret ExtReject in
    letelse header := get_range packet offset stop else Ret ExtReject in
    h2 ← index header 2; h3 ← index header 3;
    if negb (Z.land (of_be [h2; h3]) 0xfff8 =? 0) then Ret ExtReject
    else
      h0 ← index header 0;
      letelse offset := checked_add 64 offset 8 else Ret ExtReject in
      Ret (ExtNext h0 offset)
  else if protocol =? 51 then
    letelse stop := checked_add 64 offset 2 else Ret ExtReject in
    letelse header := get_range packet offset stop else Ret ExtReject in
    h0 ← index header 0; h1 ← index header 1;
    letelse size := checked_mul 64 (h1 + 2) 4 else Ret ExtReject in
    letelse offset := checked_add 64 offset size else Ret ExtReject in
    Ret (ExtNext h0 offset)
  else Ret ExtFound.

(** [for _ in 0..turns], from the current protocol and offset. *)
Fixpoint ipv6_walk (turns : nat) (packet : bytes) (protocol offset : Z) : res (option (Z * Z)) :=
  match turns with
  | O => Ret (Some (protocol, offset))
  | S turns =>
      step ← ipv6_extension packet protocol offset;
      match step with
      | ExtReject => Ret None
      | ExtFound => Ret (Some (protocol, offset))
      | ExtNext protocol offset =>
          if zlen packet <? offset then Ret None
          else ipv6_walk turns packet protocol offset
      end
  end.

Definition ipv6_transport (packet : bytes) : res (option (Z * Z)) :=
  protocol ← index packet 6;
  ipv6_walk 8 packet protocol 40.

Definition internet_transport (packet : bytes) : res (option (Z * Z)) :=
  match head packet with
  | None => Ret None
  | Some first =>
      if Z.shiftr first 4 =? 4 then
        letelse header_len := checked_mul 64 (Z.land first 0x0f) 4 else Ret None in
        if (20 <=? header_len) && (header_len <=? zlen packet) then
          protocol ← index packet 9;
          Ret (Some (protocol, header_len))
        else Ret None
      else if (Z.shiftr first 4 =? 6) && (40 <=? zlen packet) then ipv6_transport packet
      else Ret None
  end.

Definition packet_class (packet : bytes) : res PacketClass :=
  packet ← payload packet;
  transport ← internet_transport packet;
  match transport with
  | None => Ret (size_class (zlen packet))
  | Some (transport, offset) =>
      dns ← (if (transport =? 1) || (transport =? 58) then Ret true
             else is_dns packet transport offset);
      if (dns : bool) then Ret Small
      else
        control ← (if transport =? 6 then is_tcp_control packet offset else Ret false);
        if (control : bool) then Ret Small
        else if transport =? 17 then
          Ret (match size_class (zlen packet) with Bulk => Medium | class => class end)
        else Ret (size_class (zlen packet))
  end.

Definition keep_under_pressure (packet : bytes) : res bool :=
  packet ← payload packet;
  class ← packet_class packet;
  if bool_decide (class = Small) then Ret true
  else
    transport ← internet_transport packet;
    Ret (match transport with Some (protocol, _) => protocol =? 17 | None => false end).

(** ** No packet makes the classifier panic *)

Lemma frame_decode_total packet : returns (decode packet).
Proof. unfold decode, FRAME_LEN. no_panic. Qed.

Lemma payload_total packet : returns (payload packet).
Proof. unfold payload. apply returns_bind; [apply frame_decode_total|intros; no_panic]. Qed.

(** The payload of a frame is part of it. *)
Lemma payload_valid packet p : valid_slice packet -> payload packet = Ret p -> valid_slice p.
Proof.
  unfold payload, decode. intros Hv H. apply bind_ret_inv in H as (d & Hd & [= <-]).
  inv_ret Hd; try done.
  match goal with H : slice_from packet FRAME_LEN = Ret _ |- _ => apply slice_length in H end.
  unfold valid_slice, FRAME_LEN in *. lia.
Qed.

(** Walk through a computation whose slices come from [get]. *)
Ltac get_panic :=
  repeat match goal with
  | H : checked_add _ _ _ = Some _ |- _ => apply checked_add_Some in H as [-> ?]
  | |- returns (index _ _ ≫= _) =>
      apply returns_bind;
      [first [eapply index_sat_range; [eassumption|eassumption|lia]
             |eapply index_range; [eassumption|lia]] | intros ? _]
  | _ => no_panic_step
  end.

Lemma is_dns_total packet transport offset : valid_slice packet -> returns (is_dns packet transport offset).
Proof. intros Hv. unfold is_dns. get_panic. Qed.

Lemma is_tcp_control_total packet offset : valid_slice packet -> returns (is_tcp_control packet offset).
Proof. intros Hv. unfold is_tcp_control. get_panic. Qed.

Lemma ipv6_extension_total packet protocol offset : returns (ipv6_extension packet protocol offset).
Proof. unfold ipv6_extension. get_panic. Qed.

Lemma ipv6_walk_total turns packet protocol offset : returns (ipv6_walk turns packet protocol offset).
Proof.
  revert protocol offset. induction turns as [|turns IH]; intros protocol offset; simpl; [no_panic|].
  apply returns_bind; [apply ipv6_extension_total|]. intros [| |protocol' offset'] _; [no_panic..|].
  destruct (zlen packet <? offset'); [no_panic|apply IH].
Qed.

Lemma internet_transport_total packet : returns (internet_transport packet).
Proof.
  unfold internet_transport, ipv6_transport. destruct (head packet) as [first|]; [|no_panic].
  get_panic; bool_to_prop; try lia; apply ipv6_walk_total.
Qed.

Lemma packet_class_total packet : valid_slice packet -> returns (packet_class packet).
Proof.
  intros Hv. unfold packet_class. apply returns_bind; [apply payload_total|]. intros p Hp.
  pose proof (payload_valid _ _ Hv Hp) as Hvp.
  apply returns_bind; [apply internet_transport_total|]. intros [[transport offset]|] _; [|no_panic].
  apply returns_bind; [destruct (_ || _); [no_panic|by apply is_dns_total]|]. intros [] _; [no_panic|].
  apply returns_bind; [destruct (_ =? _); [by apply is_tcp_control_total|no_panic]|].
  intros [] _; no_panic.
Qed.

Lemma keep_under_pressure_total packet : valid_slice packet -> returns (keep_under_pressure packet).
Proof.
  intros Hv. unfold keep_under_pressure.
  apply returns_bind; [apply payload_total|]. intros p Hp.
  apply returns_bind; [apply packet_class_total; by eapply payload_valid|]. intros class _.
  destruct (bool_decide _); [no_panic|].
  apply returns_bind; [apply internet_transport_total|]. intros; no_panic.
Qed.

(** Classification is total: neither [packet_class] nor [keep_under_pressure]
    panics on any packet a slice can hold. *)
Lemma classify_total packet :
  valid_slice packet -> returns (packet_class packet) /\ returns (keep_under_pressure packet).
Proof. intros Hv. split; [by apply packet_class_total|by apply keep_under_pressure_total]. Qed.

Definition sample_ipv4_udp (len : nat) : bytes :=
  [0x45; 0; 0; 0; 0; 0; 0; 0; 0; 17] ++ replicate (len - 10) 0.

Lemma classify_total_witness :
  returns (packet_class (sample_ipv4_udp 1000)) /\ returns (keep_under_pressure (sample_ipv4_udp 1000)).
Proof. apply (classify_total (sample_ipv4_udp 1000)). vm_compute. discriminate. Defined.

(** ** What the classes promise *)

Lemma size_class_spec n :
  match size_class n with
  | Small => n <= SMALL_PACKET_MAX
  | Medium => SMALL_PACKET_MAX < n <= MEDIUM_PACKET_MAX
  | Bulk => MEDIUM_PACKET_MAX < n
  end.
Proof.
  unfold size_class. destruct (Z.leb_spec n SMALL_PACKET_MAX); [done|].
  destruct (Z.leb_spec n MEDIUM_PACKET_MAX); lia.
Qed.

(** The bulk queue holds only unprotected traffic: a packet classified as
    [Bulk] is longer than [MEDIUM_PACKET_MAX] and is neither UDP, nor ICMP, nor
    DNS, nor TCP control, so [keep_under_pressure] answers false for it; and
    every packet that is not kept under pressure has class [Medium] or [Bulk]. *)
Lemma bulk_is_unprotected packet class keep :
  payload packet = Ret packet ->
  packet_class packet = Ret class -> keep_under_pressure packet = Ret keep ->
  (class = Bulk -> keep = false /\ MEDIUM_PACKET_MAX < zlen packet) /\
  (keep = false -> class <> Small).
Proof.
  intros Hpay Hclass Hkeep. unfold keep_under_pressure in Hkeep. rewrite Hpay in Hkeep.
  cbn [mbind res_bind] in Hkeep. rewrite Hclass in Hkeep. cbn [mbind res_bind] in Hkeep.
  unfold packet_class in Hclass. rewrite Hpay in Hclass. cbn [mbind res_bind] in Hclass.
  split.
  - intros ->. rewrite bool_decide_eq_false_2 in Hkeep by done.
    apply bind_ret_inv in Hkeep as (tr & Htr & [= <-]). rewrite Htr in Hclass.
    cbn [mbind res_bind] in Hclass. pose proof (size_class_spec (zlen packet)) as Hsize.
    destruct tr as [[protocol offset]|].
    2:{ injection Hclass as Hclass. rewrite Hclass in Hsize. done. }
    apply bind_ret_inv in Hclass as ([] & _ & Hclass); [done|].
    apply bind_ret_inv in Hclass as ([] & _ & Hclass); [done|].
    destruct (protocol =? 17); injection Hclass as Hclass.
    + by destruct (size_class (zlen packet)).
    + rewrite Hclass in Hsize. done.
  - intros -> ->. by rewrite bool_decide_eq_true_2 in Hkeep.
Qed.

Definition sample_ipv4_tcp (len : nat) : bytes :=
  [0x45; 0; 0; 0; 0; 0; 0; 0; 0; 6] ++ replicate 23 0 ++ [0x18] ++ replicate (len - 34) 0.

Lemma bulk_is_unprotected_witness :
  (Bulk = Bulk -> false = false /\ MEDIUM_PACKET_MAX < zlen (sample_ipv4_tcp 1200)) /\
  (false = false -> Bulk <> Small).
Proof. apply (bulk_is_unprotected (sample_ipv4_tcp 1200) Bulk false); vm_compute; reflexivity. Defined.
