(* ===== verification/SelectiveFec.v ===== *)
(** * SelectiveFec: which packets are sent twice, and how many

    Models [shared/selective_fec.rs]: the test for short control traffic, the
    test for QUIC Initial datagrams and the token bucket [Budget]. *)

From S2P Require Import Prelude Bytes FlowFrame Scheduler.

Definition MAX_SMALL_UDP_PAYLOAD : Z := 256.
Definition DUPLICATES_PER_SECOND : Z := 80.
Definition DUPLICATE_BURST : Z := 16.
(** A [Duration] is a number of nanoseconds. *)
Definition REFILL_INTERVAL : Z := 1000 / DUPLICATES_PER_SECOND * 1000000.
Definition QUIC_INITIAL_UDP_MIN : Z := 1200.
Definition QUIC_INITIAL_UDP_MAX : Z := 1280.

(** ** The token bucket *)

Record Budget : Type := mkBudget {
  tokens : Z;
  updated : Z;
}.

Definition new_budget (now : Z) : Budget := mkBudget DUPLICATE_BURST now.

(** [Budget::allow] at the instant [now]. *)
Definition allow (self : Budget) (now : Z) : bool * Budget :=
  let elapsed := saturating_sub now (updated self) in
  let refill := elapsed / REFILL_INTERVAL in
  let self :=
    if negb (refill =? 0) then
      let refill := Z.min refill u32_max in
      mkBudget (Z.min (saturating_add 32 (tokens self) refill) DUPLICATE_BURST)
               (updated self + REFILL_INTERVAL * refill)
    else self in
  if tokens self =? 0 then (false, self)
  else (true, mkBudget (tokens self - 1) (updated self)).

(** ** Packet tests *)

Record Transport : Type := mkTransport {
  protocol : Z;
  transport_bytes : bytes;
}.

Definition GETCONF_PREFIX : bytes := [71; 69; 84; 67; 79; 78; 70; 58].         (* b"GETCONF:" *)
Definition TUNCONF_PREFIX : bytes := [84; 85; 78; 67; 79; 78; 70; 58].         (* b"TUNCONF:" *)
Definition READY : bytes := [82; 69; 65; 68; 89].                              (* b"READY" *)
Definition READY_OK : bytes := [82; 69; 65; 68; 89; 95; 79; 75].               (* b"READY_OK" *)
Definition DENIED_PREFIX : bytes := [68; 69; 78; 73; 69; 68; 58].              (* b"DENIED:" *)
Definition DISCONNECT_PREFIX : bytes := [68; 73; 83; 67; 79; 78; 78; 69; 67; 84; 58]. (* b"DISCONNECT:" *)

Definition is_control (packet : bytes) : bool :=
  starts_with packet GETCONF_PREFIX || starts_with packet TUNCONF_PREFIX
  || bytes_eqb packet READY || bytes_eqb packet READY_OK
  || starts_with packet DENIED_PREFIX || starts_with packet DISCONNECT_PREFIX.

Definition be16_at (p : bytes) (i j : Z) : res Z :=
  a ← index p i; b ← index p j; Ret (of_be [a; b]).

Definition classify_transport (t : Transport) : res bool :=
  let b := transport_bytes t in
  if (protocol t =? 6) && (14 <=? zlen b) then
    source ← be16_at b 0 1;
    destination ← be16_at b 2 3;
    b13 ← index b 13;
    Ret ((source =? 53) || (destination =? 53) || negb (Z.land b13 0x02 =? 0))
  else if (protocol t =? 17) && (8 <=? zlen b) then
    source ← be16_at b 0 1;
    destination ← be16_at b 2 3;
    Ret ((source =? 53) || (destination =? 53)
         || (saturating_sub (zlen b) 8 <=? MAX_SMALL_UDP_PAYLOAD))
  else Ret false.

Definition quic_initial_transport (t : Transport) : res bool :=
  let b := transport_bytes t in
  if negb (protocol t =? 17) || (zlen b <? 8) then Ret false
  else
    destination ← be16_at b 2 3;
    if negb (destination =? 443) then Ret false
    else
      let payload := saturating_sub (zlen b) 8 in
      Ret ((QUIC_INITIAL_UDP_MIN <=? payload) && (payload <=? QUIC_INITIAL_UDP_MAX)).

Definition ipv4_transport (packet : bytes) : res (option Transport) :=
  if zlen packet <? 20 then Ret None
  else
    b0 ← index packet 0;
    if negb (Z.shiftr b0 4 =? 4) then Ret None
    else
      letelse header_len := checked_mul 64 (Z.land b0 0x0f) 4 else Ret None in
      if (header_len <? 20) || (zlen packet <? header_len) then Ret None
      else
        fragment ← be16_at packet 6 7;
        if negb (Z.land fragment 0x1fff =? 0) then Ret None
        else
          proto ← index packet 9;
          rest ← slice_from packet header_len;
          Ret (Some (mkTransport proto rest)).

(** The extension-header loop is the one of [striped_scheduler::ipv6_transport]
    line for line; only what follows it differs. *)
Definition ipv6_transport (packet : bytes) : res (option Transport) :=
  if zlen packet <? 40 then Ret None
  else
    b0 ← index packet 0;
    if negb (Z.shiftr b0 4 =? 6) then Ret None
    else
      proto ← index packet 6;
      walked ← ipv6_walk 8 packet proto 40;
      match walked with
      | None => Ret None
      | Some (proto, offset) =>
          letelse rest := get_range packet offset (zlen packet) else Ret None in
          Ret (Some (mkTransport proto rest))
      end.

(** [match packet.first() >> 4 { 4 => .., 6 => .., _ => false }] with a test on
    the transport payload. *)
Definition transport_test (test : Transport -> res bool) (packet : bytes) : res bool :=
  match head packet with
  | None => Ret false
  | Some first =>
      transport ← (if Z.shiftr first 4 =? 4 then ipv4_transport packet
                   else if Z.shiftr first 4 =? 6 then ipv6_transport packet
                   else Ret None);
      match transport with Some t => test t | None => Ret false end
  end.

Definition should_duplicate (packet : bytes) : res bool :=
  packet ← payload packet;
  if is_control packet then Ret true else transport_test classify_transport packet.

Definition is_quic_initial_sized (packet : bytes) : res bool :=
  packet ← payload packet;
  transport_test quic_initial_transport packet.

(** ** Totality *)

Lemma be16_at_total p i j : 0 <= i < zlen p -> 0 <= j < zlen p -> returns (be16_at p i j).
Proof. intros. unfold be16_at. no_panic. Qed.

Lemma classify_transport_total t : returns (classify_transport t).
Proof.
  unfold classify_transport. cbv zeta. destruct ((protocol t =? 6) && _) eqn:E; bool_to_prop.
  - repeat (apply returns_bind; [(apply be16_at_total; lia) || (apply returns_index; lia)|intros]).
    no_panic.
  - clear E. destruct (_ && _) eqn:E2; bool_to_prop; [|no_panic].
    apply returns_bind; [apply be16_at_total; lia|intros].
    apply returns_bind; [apply be16_at_total; lia|intros]. no_panic.
Qed.

Lemma quic_initial_transport_total t : returns (quic_initial_transport t).
Proof.
  unfold quic_initial_transport. cbv zeta. destruct (_ || _) eqn:E; bool_to_prop; [no_panic|].
  apply returns_bind; [apply be16_at_total; lia|intros]. no_panic.
Qed.

Lemma ipv4_transport_total packet : returns (ipv4_transport packet).
Proof.
  unfold ipv4_transport. destruct (Z.ltb_spec (zlen packet) 20); [no_panic|].
  apply returns_bind; [apply returns_index; lia|]. intros b0 _.
  destruct (negb _); [no_panic|]. destruct (checked_mul _ _ _) as [header_len|]; [|no_panic].
  destruct (_ || _) eqn:E; bool_to_prop; [no_panic|].
  apply returns_bind; [apply be16_at_total; lia|intros]. no_panic.
Qed.

Lemma ipv6_transport_total packet : returns (ipv6_transport packet).
Proof.
  unfold ipv6_transport. destruct (Z.ltb_spec (zlen packet) 40); [no_panic|].
  apply returns_bind; [apply returns_index; lia|]. intros b0 _.
  destruct (negb _); [no_panic|]. apply returns_bind; [apply returns_index; lia|]. intros proto _.
  apply returns_bind; [apply ipv6_walk_total|]. intros [[? ?]|] _; no_panic.
Qed.

Lemma transport_test_total test packet :
  (forall t, returns (test t)) -> returns (transport_test test packet).
Proof.
  intros Ht. unfold transport_test. destruct (head packet); [|no_panic].
  apply returns_bind.
  - destruct (_ =? 4); [apply ipv4_transport_total|].
    destruct (_ =? 6); [apply ipv6_transport_total|no_panic].
  - intros [t|] _; [apply Ht|no_panic].
Qed.

(** The duplication tests are total: no packet makes them panic. *)
Lemma fec_tests_total packet :
  returns (should_duplicate packet) /\ returns (is_quic_initial_sized packet).
Proof.
  split; (apply returns_bind; [apply payload_total|]); intros p _.
  - destruct (is_control p); [no_panic|]. apply transport_test_total, classify_transport_total.
  - apply transport_test_total, quic_initial_transport_total.
Qed.

(** ** The budget bounds the duplicates *)

Definition budget_ok (b : Budget) : Prop := 0 <= tokens b <= DUPLICATE_BURST.

(** [allow] at each instant of the list; the number of calls that were granted. *)
Fixpoint granted (b : Budget) (times : list Z) : Z :=
  match times with
  | [] => 0
  | now :: times =>
      let '(ok, b) := allow b now in (if ok then 1 else 0) + granted b times
  end.

Lemma allow_ok b now : budget_ok b -> budget_ok (snd (allow b now)).
Proof.
  unfold budget_ok, allow, saturating_add, saturating_sub, u32_max. intros Hb.
  assert (0 <= Z.max (now - updated b) 0 / REFILL_INTERVAL) by (apply Z.div_pos; [lia|done]).
  repeat case_match; simpl in *; bool_to_prop; unfold DUPLICATE_BURST in *; lia.
Qed.

(** The tokens and the whole refill intervals still to come pay for every grant. *)
Lemma allow_pays b now last :
  budget_ok b -> updated b <= last -> now <= last ->
  let '(ok, b') := allow b now in
  budget_ok b' /\ updated b' <= last /\
  (if ok : bool then 1 else 0) + tokens b' + (last - updated b') / REFILL_INTERVAL
    <= tokens b + (last - updated b) / REFILL_INTERVAL.
Proof.
  intros Hb Hu Hn. pose proof (allow_ok b now Hb) as Hb'. unfold allow in *.
  unfold budget_ok, saturating_add, saturating_sub, u32_max in *.
  assert (REFILL_INTERVAL = 12000000) as HR by reflexivity. rewrite HR in *.
  set (elapsed := Z.max (now - updated b) 0) in *.
  assert (0 <= elapsed <= last - updated b) as Hel by lia.
  assert (0 <= elapsed / 12000000) as Hq by (apply Z.div_pos; lia).
  pose proof (Z.mul_div_le elapsed 12000000 ltac:(lia)) as Hle.
  destruct (Z.eqb_spec (elapsed / 12000000) 0) as [E|E]; simpl negb in *; cbv iota in *.
  - destruct (Z.eqb_spec (tokens b) 0); simpl in *; lia.
  - set (n := Z.min (elapsed / 12000000) (2 ^ 32 - 1)) in *.
    assert ((last - (updated b + 12000000 * n)) / 12000000 = (last - updated b) / 12000000 - n) as Hdiv.
    { replace (last - (updated b + 12000000 * n)) with ((last - updated b) + (- n) * 12000000) by lia.
      rewrite Z.div_add by lia. lia. }
    simpl tokens in *. simpl updated in *.
    destruct (Z.eqb_spec (Z.min (Z.min (tokens b + n) (2 ^ 32 - 1)) DUPLICATE_BURST) 0); simpl in *;
      rewrite ?Hdiv; unfold DUPLICATE_BURST in *; lia.
Qed.

Lemma granted_bound b times last :
  budget_ok b -> updated b <= last -> Forall (fun now => now <= last) times ->
  granted b times <= tokens b + (last - updated b) / REFILL_INTERVAL.
Proof.
  revert b. induction times as [|now times IH]; intros b Hb Hu Ht; simpl.
  - unfold budget_ok in Hb. assert (0 <= (last - updated b) / REFILL_INTERVAL); [|lia].
    apply Z.div_pos; [lia|done].
  - apply Forall_cons in Ht as [Hn Ht]. pose proof (allow_pays b now last Hb Hu Hn) as H.
    destruct (allow b now) as [ok b']. destruct H as (Hb' & Hu' & Hpay).
    specialize (IH b' Hb' Hu' Ht). lia.
Qed.

(** The budget bounds the duplicates: over any sequence of calls in the
    [span] nanoseconds after its creation, however they are spaced, it grants at
    most a burst of [DUPLICATE_BURST] plus one duplicate per refill interval. *)
Lemma budget_bounds_duplicates start span times :
  0 <= span -> Forall (fun now => now <= start + span) times ->
  granted (new_budget start) times <= DUPLICATE_BURST + span / REFILL_INTERVAL.
Proof.
  intros Hs Ht. pose proof (granted_bound (new_budget start) times (start + span)) as H.
  simpl in H. replace (start + span - start) with span in H by lia.
  apply H; [unfold budget_ok; simpl; unfold DUPLICATE_BURST; lia|lia|done].
Qed.

Lemma budget_bounds_duplicates_witness :
  granted (new_budget 1000) (replicate 20 1000 ++ [24001000]) <= DUPLICATE_BURST + 24000000 / REFILL_INTERVAL.
Proof.
  apply (budget_bounds_duplicates 1000 24000000); [lia|].
  repeat constructor; lia.
Defined.
