(* ===== verification/ArrayQueue.v ===== *)
(** * ArrayQueue: the interface of the bounded lock-free queue

    [crossbeam_queue::ArrayQueue] is not part of the repository. The components
    that use it are stated over this class: its operations, and what its
    documentation promises of them, through the abstraction [items] of a queue
    to the list of its elements, oldest first. *)

From S2P Require Import Prelude.

Class ArrayQueue (Q : Type -> Type) : Type := {
  aq_new {A} : Z -> Q A;
  aq_capacity {A} : Q A -> Z;
  items {A} : Q A -> list A;
  (** [push]: the new queue, or [None] when the queue is full. *)
  aq_push {A} : Q A -> A -> option (Q A);
  aq_pop {A} : Q A -> option (A * Q A);
  (** [force_push]: the evicted element, if any, and the new queue. *)
  aq_force_push {A} : Q A -> A -> option A * Q A;

  aq_new_items {A} c : items (@aq_new A c) = [];
  aq_new_capacity {A} c : aq_capacity (@aq_new A c) = c;
  aq_push_full {A} (q : Q A) x : zlen (items q) = aq_capacity q -> aq_push q x = None;
  aq_push_room {A} (q : Q A) x :
    zlen (items q) < aq_capacity q ->
    exists q', aq_push q x = Some q' /\ items q' = items q ++ [x] /\ aq_capacity q' = aq_capacity q;
  aq_pop_empty {A} (q : Q A) : items q = [] -> aq_pop q = None;
  aq_pop_cons {A} (q : Q A) x l :
    items q = x :: l ->
    exists q', aq_pop q = Some (x, q') /\ items q' = l /\ aq_capacity q' = aq_capacity q;
  aq_force_room {A} (q : Q A) x :
    zlen (items q) < aq_capacity q ->
    exists q', aq_force_push q x = (None, q') /\ items q' = items q ++ [x]
      /\ aq_capacity q' = aq_capacity q;
  aq_force_full {A} (q : Q A) x y l :
    zlen (items q) = aq_capacity q -> items q = y :: l ->
    exists q', aq_force_push q x = (Some y, q') /\ items q' = l ++ [x]
      /\ aq_capacity q' = aq_capacity q;
}.

(** [ArrayQueue::len] *)
Definition aq_len {Q A} `{ArrayQueue Q} (q : Q A) : Z := zlen (items q).

(** A queue within its capacity. *)
Definition aq_ok {Q A} `{ArrayQueue Q} (q : Q A) : Prop :=
  0 < aq_capacity q /\ zlen (items q) <= aq_capacity q.

Section Facts.
Context {Q : Type -> Type} `{ArrayQueue Q}.

Lemma aq_ok_intro {A} (q q' : Q A) :
  aq_ok q -> aq_capacity q' = aq_capacity q -> zlen (items q') <= aq_capacity q -> aq_ok q'.
Proof. intros [Hc _] Hcap Hl. split; lia. Qed.

Lemma aq_push_cases {A} (q : Q A) x :
  aq_ok q ->
  (zlen (items q) = aq_capacity q /\ aq_push q x = None) \/
  (exists q', aq_push q x = Some q' /\ items q' = items q ++ [x]
     /\ aq_capacity q' = aq_capacity q /\ aq_ok q').
Proof.
  intros Hok. pose proof Hok as [Hc Hl].
  destruct (Z.eq_dec (zlen (items q)) (aq_capacity q)) as [He|He].
  - left. split; [done|by apply aq_push_full].
  - right. destruct (aq_push_room q x) as (q' & Hp & Hi & Hcap); [lia|]. exists q'.
    do 3 (split; [done|]). apply (aq_ok_intro q); [done..|].
    rewrite Hi, zlen_app, zlen_cons, zlen_nil. lia.
Qed.

Lemma aq_pop_cases {A} (q : Q A) :
  aq_ok q ->
  (items q = [] /\ aq_pop q = None) \/
  (exists x q', aq_pop q = Some (x, q') /\ items q = x :: items q'
     /\ aq_capacity q' = aq_capacity q /\ aq_ok q').
Proof.
  intros Hok. pose proof Hok as [Hc Hl]. destruct (items q) as [|x l] eqn:E.
  - left. split; [done|by apply aq_pop_empty].
  - right. destruct (aq_pop_cons q x l E) as (q' & Hp & Hi & Hcap). exists x, q'.
    split; [done|]. split; [by rewrite Hi|]. split; [done|]. apply (aq_ok_intro q); [done..|].
    rewrite zlen_cons in Hl. rewrite Hi. lia.
Qed.

(** A forced push keeps the newest [capacity] elements. *)
Lemma aq_force_cases {A} (q : Q A) x :
  aq_ok q ->
  exists out q', aq_force_push q x = (out, q') /\ aq_ok q' /\ aq_capacity q' = aq_capacity q
    /\ items q' = (if zlen (items q) =? aq_capacity q then drop 1 (items q) else items q) ++ [x]
    /\ out = (if zlen (items q) =? aq_capacity q then head (items q) else None).
Proof.
  intros Hok. pose proof Hok as [Hc Hl].
  destruct (Z.eqb_spec (zlen (items q)) (aq_capacity q)) as [He|He].
  - destruct (items q) as [|y l] eqn:E; [rewrite zlen_nil in He; lia|].
    destruct (aq_force_full q x y l) as (q' & Hp & Hi & Hcap); [by rewrite E|done|].
    exists (Some y), q'. split; [done|]. split; [|done].
    apply (aq_ok_intro q); [done..|].
    rewrite Hi, zlen_app, zlen_cons, zlen_nil. rewrite zlen_cons in He. lia.
  - destruct (aq_force_room q x) as (q' & Hp & Hi & Hcap); [lia|].
    exists None, q'. split; [done|]. split; [|done]. apply (aq_ok_intro q); [done..|].
    rewrite Hi, zlen_app, zlen_cons, zlen_nil. lia.
Qed.
End Facts.

(** ** A list implementation, used to instantiate the class *)

Record ListQueue (A : Type) : Type := mkListQueue {
  lq_capacity : Z;
  lq_items : list A;
}.
Arguments mkListQueue {A}.
Arguments lq_capacity {A}.
Arguments lq_items {A}.

#[export] Instance list_queue : ArrayQueue ListQueue.
Proof.
  refine {|
    aq_new := fun A c => mkListQueue c [];
    aq_capacity := fun A q => lq_capacity q;
    items := fun A q => lq_items q;
    aq_push := fun A q x =>
      if zlen (lq_items q) <? lq_capacity q
      then Some (mkListQueue (lq_capacity q) (lq_items q ++ [x])) else None;
    aq_pop := fun A q =>
      match lq_items q with [] => None | x :: l => Some (x, mkListQueue (lq_capacity q) l) end;
    aq_force_push := fun A q x =>
      if zlen (lq_items q) <? lq_capacity q
      then (None, mkListQueue (lq_capacity q) (lq_items q ++ [x]))
      else (head (lq_items q), mkListQueue (lq_capacity q) (drop 1 (lq_items q) ++ [x]))
  |}.
  - done.
  - done.
  - intros A q x He. by rewrite (proj2 (Z.ltb_ge _ _)) by lia.
  - intros A q x Hl. rewrite (proj2 (Z.ltb_lt _ _)) by done. eauto.
  - intros A q He. by rewrite He.
  - intros A q x l He. rewrite He. eauto.
  - intros A q x Hl. rewrite (proj2 (Z.ltb_lt _ _)) by done. eauto.
  - intros A q x y l He Hi. rewrite (proj2 (Z.ltb_ge _ _)) by lia. rewrite Hi. eauto.
Defined.
