(* ===== verification/PacketPool.v ===== *)
(** * PacketPool: packet buffers and the pool that bounds them

    Models [packet.rs]: the buffer with headroom and its range operations, and
    the pool, whose atomic steps are modelled one by one so that the theorem
    on its budget covers every interleaving of threads. *)

From S2P Require Import Prelude Bytes ArrayQueue.

Definition PACKET_HEADROOM : Z := 64.
Definition PACKET_CAPACITY : Z := 2304.
Definition PACKET_POOL_PER_WORKER : Z := 256.
Definition PACKET_POOL_SHARED : Z := 512.
Definition PACKET_POOL_RETAINED_MAX : Z := 2048.

Definition packet_pool_size (workers : Z) : Z :=
  saturating_add 64 (saturating_mul 64 workers PACKET_POOL_PER_WORKER) PACKET_POOL_SHARED.

(** ** The packet buffer *)

Record PacketBuf : Type := mkPacketBuf {
  storage : bytes;
  range_start : Z;
  range_end : Z;
}.

Inductive PacketError : Type :=
| ReadLengthExceedsCapacity
| PrependExceedsHeadroom
| TailLengthOverflow
| TailExceedsCapacity
| TrimExceedsLength
| TruncateExceedsLength
| RangeInvalid.

(** [Range::len] *)
Definition len (p : PacketBuf) : Z := Z.max (range_end p - range_start p) 0.
Definition is_empty (p : PacketBuf) : bool := range_end p <=? range_start p.
Definition as_slice (p : PacketBuf) : res bytes := slice (storage p) (range_start p) (range_end p).

Definition with_range (p : PacketBuf) (s e : Z) : PacketBuf := mkPacketBuf (storage p) s e.

(** Writing through [read_area]: [area[..v.len()].copy_from_slice(v)]. *)
Definition write_read_area (p : PacketBuf) (v : bytes) : res PacketBuf :=
  s ← blit (storage p) PACKET_HEADROOM v;
  Ret (mkPacketBuf s (range_start p) (range_end p)).

Definition set_read_len (p : PacketBuf) (n : Z) : result PacketBuf PacketError :=
  if PACKET_CAPACITY - PACKET_HEADROOM <? n then Err ReadLengthExceedsCapacity
  else Ok (with_range p PACKET_HEADROOM (PACKET_HEADROOM + n)).

(** [prepend]; the returned slice is the first [n] bytes of the new range. *)
Definition prepend (p : PacketBuf) (n : Z) : result PacketBuf PacketError :=
  if range_start p <? n then Err PrependExceedsHeadroom
  else Ok (with_range p (range_start p - n) (range_end p)).

(** [extend_tail]; the returned slice is the last [n] bytes of the new range. *)
Definition extend_tail (p : PacketBuf) (n : Z) : result PacketBuf PacketError :=
  match checked_add 64 (range_end p) n with
  | None => Err TailLengthOverflow
  | Some e =>
      if PACKET_CAPACITY <? e then Err TailExceedsCapacity
      else Ok (with_range p (range_start p) e)
  end.

Definition trim_front (p : PacketBuf) (n : Z) : result PacketBuf PacketError :=
  if len p <? n then Err TrimExceedsLength
  else Ok (with_range p (range_start p + n) (range_end p)).

Definition truncate (p : PacketBuf) (n : Z) : result PacketBuf PacketError :=
  if len p <? n then Err TruncateExceedsLength
  else Ok (with_range p (range_start p) (range_start p + n)).

Definition set_range (p : PacketBuf) (s e : Z) : result PacketBuf PacketError :=
  if (e <? s) || (PACKET_CAPACITY <? e) then Err RangeInvalid
  else Ok (with_range p s e).

(** Writing into the current range, at offset [off] of [as_mut_slice]. *)
Definition write_at (p : PacketBuf) (off : Z) (v : bytes) : res PacketBuf :=
  s ← blit (storage p) (range_start p + off) v;
  Ret (mkPacketBuf s (range_start p) (range_end p)).

(** ** The pool *)

Section Pool.
Context {Q : Type -> Type} `{ArrayQueue Q}.

Record PacketPool : Type := mkPacketPool {
  queue : Q bytes;
  allocated : Z;
  allocation_limit : Z;
}.

Definition new_pool (buffers : Z) : PacketPool :=
  let capacity := Z.max buffers 1 in
  let retained_limit := Z.min capacity PACKET_POOL_RETAINED_MAX in
  mkPacketPool (aq_new retained_limit) 0 capacity.

(** The atomic steps of [try_acquire_inner]: the pop, and the [fetch_update]. *)
Definition acquire_pop (pool : PacketPool) : option (bytes * PacketPool) :=
  match aq_pop (queue pool) with
  | Some (storage, q) => Some (storage, mkPacketPool q (allocated pool) (allocation_limit pool))
  | None => None
  end.

Definition acquire_alloc (pool : PacketPool) : option PacketPool :=
  if allocated pool <? allocation_limit pool
  then Some (mkPacketPool (queue pool) (allocated pool + 1) (allocation_limit pool))
  else None.

(** [try_acquire_inner] run alone; [fresh] is the uninitialised storage that
    [BytesMut::with_capacity] and [set_len] give. *)
Definition try_acquire (pool : PacketPool) (fresh : bytes) : option PacketBuf * PacketPool :=
  match acquire_pop pool with
  | Some (storage, pool) => (Some (mkPacketBuf storage PACKET_HEADROOM PACKET_HEADROOM), pool)
  | None =>
      match acquire_alloc pool with
      | Some pool => (Some (mkPacketBuf fresh PACKET_HEADROOM PACKET_HEADROOM), pool)
      | None => (None, pool)
      end
  end.

(** The atomic steps of [release_inner]: the push, if the storage has the right
    length ([None] when it must be given up), and the [fetch_sub]. *)
Definition release_push (pool : PacketPool) (storage : bytes) : option PacketPool :=
  if negb (zlen storage =? PACKET_CAPACITY) then None
  else match aq_push (queue pool) storage with
       | Some q => Some (mkPacketPool q (allocated pool) (allocation_limit pool))
       | None => None
       end.

Definition release_sub (pool : PacketPool) : PacketPool :=
  mkPacketPool (queue pool) (allocated pool - 1) (allocation_limit pool).

(** [release_inner] run alone: what dropping a [PacketBuf] does. *)
Definition release (pool : PacketPool) (storage : bytes) : PacketPool :=
  match release_push pool storage with
  | Some pool => pool
  | None => release_sub pool
  end.

(** [PacketBuf::try_duplicate]; a copy that cannot be kept is dropped. *)
Definition try_duplicate (pool : PacketPool) (self : PacketBuf) (fresh : bytes)
  : res (option PacketBuf * PacketPool) :=
  src ← as_slice self;
  let '(copy, pool) := try_acquire pool fresh in
  match copy with
  | None => Ret (None, pool)
  | Some copy =>
      area ← slice (storage copy) PACKET_HEADROOM PACKET_CAPACITY;
      if zlen area <? zlen src
      then Ret (None, release pool (storage copy))
      else
        copy ← write_read_area copy src;
        match set_read_len copy (zlen src) with
        | Ok copy => Ret (Some copy, pool)
        | Err _ => Ret (None, release pool (storage copy))
        end
  end.

(** ** Threads sharing a pool

    [held] are the storages of the live buffers, [falling] the number of
    storages given up whose [fetch_sub] has not run yet. The holder of a buffer
    may change its storage as it likes, its length included ([storage_mut]). *)
Record PoolSystem : Type := mkPoolSystem {
  pool : PacketPool;
  held : list bytes;
  falling : Z;
}.

Inductive pool_step : PoolSystem -> PoolSystem -> Prop :=
| step_pop s storage p :
    acquire_pop (pool s) = Some (storage, p) ->
    pool_step s (mkPoolSystem p (storage :: held s) (falling s))
| step_alloc s p fresh :
    acquire_alloc (pool s) = Some p -> zlen fresh = PACKET_CAPACITY ->
    pool_step s (mkPoolSystem p (fresh :: held s) (falling s))
| step_write s l1 storage storage' l2 :
    held s = l1 ++ storage :: l2 ->
    pool_step s (mkPoolSystem (pool s) (l1 ++ storage' :: l2) (falling s))
| step_push s l1 storage l2 p :
    held s = l1 ++ storage :: l2 -> release_push (pool s) storage = Some p ->
    pool_step s (mkPoolSystem p (l1 ++ l2) (falling s))
| step_give_up s l1 storage l2 :
    held s = l1 ++ storage :: l2 -> release_push (pool s) storage = None ->
    pool_step s (mkPoolSystem (pool s) (l1 ++ l2) (falling s + 1))
| step_sub s :
    0 < falling s ->
    pool_step s (mkPoolSystem (release_sub (pool s)) (held s) (falling s - 1)).

Definition pool_start (buffers : Z) : PoolSystem := mkPoolSystem (new_pool buffers) [] 0.

(** The invariant of the shared pool. *)
Definition pool_wf (buffers : Z) (s : PoolSystem) : Prop :=
  allocation_limit (pool s) = Z.max buffers 1
  /\ aq_ok (queue (pool s)) /\ aq_capacity (queue (pool s)) = Z.min (Z.max buffers 1) PACKET_POOL_RETAINED_MAX
  /\ 0 <= falling s
  /\ allocated (pool s) = zlen (held s) + zlen (items (queue (pool s))) + falling s
  /\ allocated (pool s) <= allocation_limit (pool s)
  /\ Forall (fun st => zlen st = PACKET_CAPACITY) (items (queue (pool s))).

Lemma pool_start_wf buffers : pool_wf buffers (pool_start buffers).
Proof.
  unfold pool_wf, pool_start, new_pool, aq_ok. simpl. rewrite aq_new_items, aq_new_capacity.
  split_and!; try done; try lia; rewrite ?zlen_nil; try constructor; unfold PACKET_POOL_RETAINED_MAX; lia.
Qed.

Lemma held_split (l1 : list bytes) storage l2 :
  zlen (l1 ++ storage :: l2) = zlen (l1 ++ l2) + 1.
Proof. rewrite !zlen_app, zlen_cons. lia. Qed.

Lemma release_push_inv p st p' :
  aq_ok (queue p) -> release_push p st = Some p' ->
  zlen st = PACKET_CAPACITY /\ items (queue p') = items (queue p) ++ [st]
  /\ aq_ok (queue p') /\ aq_capacity (queue p') = aq_capacity (queue p)
  /\ allocated p' = allocated p /\ allocation_limit p' = allocation_limit p.
Proof.
  intros Hok Hpush. unfold release_push in Hpush.
  destruct (Z.eqb_spec (zlen st) PACKET_CAPACITY) as [Hst|]; [|done]. simpl in Hpush.
  destruct (aq_push_cases _ st Hok) as [[_ Hn]|(q & Hp & Hi & Hc & Hok')]; [by rewrite Hn in Hpush|].
  rewrite Hp in Hpush. by injection Hpush as <-.
Qed.

Lemma acquire_pop_inv p st p' :
  aq_ok (queue p) -> acquire_pop p = Some (st, p') ->
  items (queue p) = st :: items (queue p') /\ aq_ok (queue p')
  /\ aq_capacity (queue p') = aq_capacity (queue p)
  /\ allocated p' = allocated p /\ allocation_limit p' = allocation_limit p.
Proof.
  intros Hok Hpop. unfold acquire_pop in Hpop.
  destruct (aq_pop_cases _ Hok) as [[_ Hn]|(x & q & Hp & Hi & Hc & Hok')]; [by rewrite Hn in Hpop|].
  rewrite Hp in Hpop. by injection Hpop as <- <-.
Qed.

Lemma acquire_alloc_inv p p' :
  acquire_alloc p = Some p' ->
  allocated p < allocation_limit p /\ queue p' = queue p /\ allocated p' = allocated p + 1
  /\ allocation_limit p' = allocation_limit p.
Proof.
  unfold acquire_alloc. destruct (Z.ltb_spec (allocated p) (allocation_limit p)); [|done].
  by intros [= <-].
Qed.

Lemma pool_step_wf buffers s s' : pool_wf buffers s -> pool_step s s' -> pool_wf buffers s'.
Proof.
  intros (Hlim & Hok & Hcap & Hf & Hacc & Hle & Hall) Hstep. unfold pool_wf.
  destruct Hstep as [s st p Hpop|s p fresh Halloc Hlen|s l1 st st' l2 Hheld
                    |s l1 st l2 p Hheld Hpush|s l1 st l2 Hheld _|s Hpos]; simpl.
  - apply acquire_pop_inv in Hpop as (Hi & Hok' & Hc & Ha & Hl); [|done].
    rewrite Hi in Hacc, Hall. apply Forall_cons in Hall as [_ Hall].
    rewrite Hc, Ha, Hl, zlen_cons in *. conjs; done || lia.
  - apply acquire_alloc_inv in Halloc as (Hlt & Hq & Ha & Hl).
    rewrite Hq, Ha, Hl, zlen_cons. conjs; done || lia.
  - rewrite Hheld in Hacc. rewrite held_split in *. conjs; done || lia.
  - apply release_push_inv in Hpush as (Hst & Hi & Hok' & Hc & Ha & Hl); [|done].
    rewrite Hheld, held_split, !zlen_app in Hacc. rewrite Hi, Hc, Ha, Hl, !zlen_app.
    change (zlen [st]) with 1. conjs; try done; try lia. apply Forall_app. by repeat constructor.
  - rewrite Hheld, held_split in Hacc. conjs; done || lia.
  - conjs; done || lia.
Qed.

Lemma pool_reach_wf buffers s : rtc pool_step (pool_start buffers) s -> pool_wf buffers s.
Proof.
  intros Hr. assert (pool_wf buffers (pool_start buffers)) as Hw by apply pool_start_wf.
  revert Hw. induction Hr; eauto using pool_step_wf.
Qed.

(** C38: however threads interleave the atomic steps of acquiring, writing and
    dropping buffers, the live buffers and the retained ones never exceed the
    pool's budget, every storage counted by [allocated] is live, retained or
    about to be subtracted, the queue retains at most 2048 storages, and a
    storage taken from the queue has the full capacity. *)
Theorem pool_budget buffers s :
  rtc pool_step (pool_start buffers) s ->
  zlen (held s) + zlen (items (queue (pool s))) <= Z.max buffers 1
  /\ allocated (pool s) = zlen (held s) + zlen (items (queue (pool s))) + falling s
  /\ zlen (items (queue (pool s))) <= PACKET_POOL_RETAINED_MAX
  /\ (forall st p, acquire_pop (pool s) = Some (st, p) -> zlen st = PACKET_CAPACITY).
Proof.
  intros (Hlim & Hok & Hcap & Hf & Hacc & Hle & Hall)%pool_reach_wf.
  split_and!; [lia|done|destruct Hok; lia|].
  intros st p (Hi & _)%acquire_pop_inv; [|done]. rewrite Hi in Hall. by inversion Hall.
Qed.
End Pool.

Definition blank : bytes := replicate 2304 0.

Lemma pool_budget_witness :
  exists s : @PoolSystem ListQueue,
    rtc pool_step (pool_start 1) s /\ zlen (held s) + zlen (items (queue (pool s))) <= 1.
Proof.
  eexists. split; [|refine (proj1 (pool_budget 1 _ _))].
  all: eapply rtc_l; [eapply (step_alloc (pool_start 1) _ blank); [reflexivity|vm_compute; reflexivity]|].
  all: eapply rtc_l; [eapply (step_push _ [] blank [] _); [reflexivity|vm_compute; reflexivity]|].
  all: apply rtc_refl.
Defined.

(** ** The range of a buffer *)

(** Every public way to make or change a buffer keeps this. *)
Definition buf_ok (p : PacketBuf) : Prop :=
  zlen (storage p) = PACKET_CAPACITY /\ 0 <= range_start p <= range_end p /\ range_end p <= PACKET_CAPACITY.

Inductive BufOp : Type :=
| OpRead (n : Z) | OpPrepend (n : Z) | OpExtend (n : Z) | OpTrim (n : Z) | OpTruncate (n : Z)
| OpSetRange (s e : Z).

Definition run_op (o : BufOp) (p : PacketBuf) : result PacketBuf PacketError :=
  match o with
  | OpRead n => set_read_len p n
  | OpPrepend n => prepend p n
  | OpExtend n => extend_tail p n
  | OpTrim n => trim_front p n
  | OpTruncate n => truncate p n
  | OpSetRange s e => set_range p s e
  end.

Definition op_args_ok (o : BufOp) : Prop :=
  match o with
  | OpRead n | OpPrepend n | OpExtend n | OpTrim n | OpTruncate n => is_u 64 n
  | OpSetRange s e => is_u 64 s /\ is_u 64 e
  end.

Lemma len_ok p : buf_ok p -> len p = range_end p - range_start p.
Proof. unfold buf_ok, len. lia. Qed.

(** What each operation leaves as the packet, on a range [s, e). *)
Definition op_range (o : BufOp) (s e : Z) : Z * Z :=
  match o with
  | OpRead n => (PACKET_HEADROOM, PACKET_HEADROOM + n)
  | OpPrepend n => (s - n, e)
  | OpExtend n => (s, e + n)
  | OpTrim n => (s + n, e)
  | OpTruncate n => (s, s + n)
  | OpSetRange s' e' => (s', e')
  end.

(** On a well-formed buffer a range operation either succeeds, giving the
    range it names on the same storage, still within the capacity, so that
    [as_slice] does not panic; or it reports an error, exactly when that range
    is not inside the buffer (for [trim_front] and [truncate]: not inside the
    packet). No sum overflows for any 64-bit argument. *)
Lemma range_ops_exact o p :
  buf_ok p -> op_args_ok o ->
  let '(s, e) := op_range o (range_start p) (range_end p) in
  (run_op o p = Ok (with_range p s e) /\ buf_ok (with_range p s e) /\ returns (as_slice (with_range p s e)))
  \/ ((exists err, run_op o p = Err err)
      /\ ~ (0 <= s <= e /\ e <= PACKET_CAPACITY
            /\ match o with OpTrim _ | OpTruncate _ => range_start p <= s /\ e <= range_end p | _ => True end)).
Proof.
  intros Hp Ho. pose proof (len_ok p Hp) as Hlen. destruct Hp as (Hst & Hs & He).
  destruct o; simpl in *;
    unfold is_u, set_read_len, prepend, extend_tail, trim_front, truncate, set_range, checked_add,
      buf_ok, as_slice, with_range, PACKET_HEADROOM, PACKET_CAPACITY in *; simpl;
    branches; rewrite ?orb_true_iff, ?Z.ltb_lt in *.
  all: try (left; split; [done|]; split; [lia|]; apply returns_slice; lia).
  all: right; split; [by eexists|lia].
Qed.

Lemma range_ops_exact_witness :
  run_op (OpPrepend 24) (mkPacketBuf blank 64 100) = Ok (mkPacketBuf blank 40 100)
  /\ exists err, run_op (OpPrepend 65) (mkPacketBuf blank 64 100) = Err err.
Proof.
  assert (buf_ok (mkPacketBuf blank 64 100)) as Hok.
  { unfold buf_ok, PACKET_CAPACITY. simpl. split; [reflexivity|lia]. }
  split.
  - destruct (range_ops_exact (OpPrepend 24) (mkPacketBuf blank 64 100)) as [(H & _)|([e H] & _)];
      [exact Hok|unfold op_args_ok, is_u; lia|exact H|]. discriminate H.
  - destruct (range_ops_exact (OpPrepend 65) (mkPacketBuf blank 64 100)) as [(H & _)|(H & _)];
      [exact Hok|unfold op_args_ok, is_u; lia| |exact H]. discriminate H.
Defined.

(** Prepending a header and writing it, then trimming it off, gives the packet
    back with its bytes: what the wrap and unwrap paths do to a buffer. *)
Lemma prepend_write_slice p h body q :
  buf_ok p -> as_slice p = Ret body -> prepend p (zlen h) = Ok q ->
  exists q', write_at q 0 h = Ret q' /\ buf_ok q' /\ as_slice q' = Ret (h ++ body)
    /\ exists q'', trim_front q' (zlen h) = Ok q'' /\ as_slice q'' = Ret body.
Proof.
  intros (Hst & Hs & He) Hbody Hpre. unfold prepend in Hpre.
  destruct (Z.ltb_spec (range_start p) (zlen h)) as [|Hh]; [done|]. injection Hpre as <-.
  destruct p as [st s e]. unfold as_slice, write_at, with_range in *. simpl in *.
  pose proof (slice_length _ _ _ _ Hbody) as Hlb. pose proof (zlen_nonneg h).
  destruct (split_at_z st s) as (l & r & -> & Hl); [lia|].
  destruct (split_at_z l (s - zlen h)) as (l0 & gap & -> & Hl0); [lia|].
  rewrite !zlen_app in *. destruct (split_at_z r (e - s)) as (b & r' & -> & Hb); [lia|].
  rewrite zlen_app in *. rewrite <- (app_assoc l0 gap) in *.
  assert (b = body) as ->.
  { rewrite (app_assoc l0 gap) in Hbody. rewrite slice_app_mid in Hbody by (rewrite ?zlen_app; lia).
    by injection Hbody. }
  rewrite (blit_app l0 gap (body ++ r')) by lia. rbind.
  eexists; split; [reflexivity|]. split.
  { unfold buf_ok. simpl. rewrite !zlen_app. lia. }
  split. { simpl. rewrite (app_assoc h body r'). apply slice_app_mid; rewrite ?zlen_app; lia. }
  unfold trim_front, len. simpl.
  destruct (Z.ltb_spec (Z.max (e - (s - zlen h)) 0) (zlen h)) as [|_]; [lia|].
  eexists; split; [reflexivity|]. simpl. rewrite (app_assoc l0 h).
  apply slice_app_mid; rewrite ?zlen_app; lia.
Qed.

Section Duplicate.
Context {Q : Type -> Type} `{ArrayQueue Q}.

(** A pool none of whose storages is live, for a caller that runs alone. *)
Definition pool_lone_ok (p : PacketPool) : Prop :=
  aq_ok (queue p) /\ Forall (fun st => zlen st = PACKET_CAPACITY) (items (queue p)).

Lemma try_acquire_ok p fresh :
  pool_lone_ok p -> zlen fresh = PACKET_CAPACITY ->
  let '(b, p') := try_acquire p fresh in
  pool_lone_ok p' /\ allocation_limit p' = allocation_limit p /\
  match b with
  | None => p' = p /\ items (queue p) = [] /\ allocation_limit p <= allocated p
  | Some b => buf_ok b /\ len b = 0
      /\ allocated p' - zlen (items (queue p')) = allocated p - zlen (items (queue p)) + 1
  end.
Proof.
  intros [Hok Hall] Hf. unfold try_acquire.
  assert (forall st, zlen st = PACKET_CAPACITY ->
    buf_ok (mkPacketBuf st PACKET_HEADROOM PACKET_HEADROOM)) as Hbuf.
  { intros st Hst. unfold buf_ok, PACKET_HEADROOM, PACKET_CAPACITY in *. simpl. lia. }
  destruct (acquire_pop p) as [[st p']|] eqn:E.
  - apply acquire_pop_inv in E as (Hi & Hok' & Hc & Ha & Hl); [|done].
    unfold pool_lone_ok. rewrite Hi in *. apply Forall_cons in Hall as [Hst Hall].
    rewrite Ha, zlen_cons. conjs; eauto; lia.
  - destruct (acquire_alloc p) as [p'|] eqn:E'.
    + apply acquire_alloc_inv in E' as (Hlt & Hq & Ha & Hl). unfold pool_lone_ok.
      rewrite Hq, Ha. conjs; eauto; lia.
    + conjs; try done.
      * unfold acquire_pop in E. destruct (aq_pop_cases _ Hok) as [[Hn _]|(x & q & Hp & _)]; [done|].
        by rewrite Hp in E.
      * unfold acquire_alloc in E'. destruct (Z.ltb_spec (allocated p) (allocation_limit p)); [done|lia].
Qed.

Lemma release_balance p st :
  pool_lone_ok p ->
  pool_lone_ok (release p st)
  /\ allocated (release p st) - zlen (items (queue (release p st)))
     = allocated p - zlen (items (queue p)) - 1.
Proof.
  intros [Hok Hall]. unfold release. destruct (release_push p st) as [p'|] eqn:E.
  - apply release_push_inv in E as (Hst & Hi & Hok' & _ & Ha & _); [|done].
    unfold pool_lone_ok. rewrite Hi, Ha, zlen_app. change (zlen [st]) with 1.
    conjs; [done| |lia]. apply Forall_app. by repeat constructor.
  - unfold pool_lone_ok, release_sub. simpl. conjs; try done. lia.
Qed.

(** The read area of a buffer that has kept its storage. *)
Lemma read_area_length b :
  buf_ok b -> exists area, slice (storage b) PACKET_HEADROOM PACKET_CAPACITY = Ret area /\ zlen area = 2240.
Proof.
  intros (Hst & _). destruct (returns_slice (storage b) PACKET_HEADROOM PACKET_CAPACITY) as [area Ha];
    [by unfold PACKET_HEADROOM|unfold PACKET_HEADROOM, PACKET_CAPACITY; lia|unfold PACKET_CAPACITY in *; lia|].
  exists area. split; [done|]. by rewrite (slice_length _ _ _ _ Ha).
Qed.

(** Writing bytes that fit into the read area and setting the length makes
    them the packet. *)
Lemma fill_read_area b data :
  buf_ok b -> zlen data <= 2240 ->
  exists b1 b2, write_read_area b data = Ret b1 /\ set_read_len b1 (zlen data) = Ok b2
    /\ as_slice b2 = Ret data /\ buf_ok b2.
Proof.
  intros (Hst & _) Hd. unfold write_read_area. destruct b as [st s e]. simpl in *. unfold PACKET_CAPACITY in Hst.
  destruct (split_at_z st 64) as (l & r & -> & Hl); [lia|]. rewrite zlen_app in Hst.
  rewrite blit_tail by (unfold PACKET_HEADROOM; lia). rbind. unfold set_read_len.
  destruct (Z.ltb_spec (PACKET_CAPACITY - PACKET_HEADROOM) (zlen data)) as [Hbig|_].
  { unfold PACKET_CAPACITY, PACKET_HEADROOM in Hbig. lia. }
  eexists _, _. split; [reflexivity|]. split; [reflexivity|]. split.
  - unfold as_slice. simpl. unfold PACKET_HEADROOM. apply slice_app_mid; lia.
  - unfold buf_ok, PACKET_HEADROOM, PACKET_CAPACITY. simpl. rewrite !zlen_app, zlen_drop.
    unfold zlen in *. lia.
Qed.

(** [try_duplicate] does not panic on a well-formed buffer; when it gives a
    copy, the copy holds the same bytes in a buffer of its own, one more
    storage is out of the pool and the pool stays well formed; when it gives
    none, the pool's balance is unchanged. *)
Lemma try_duplicate_copies p self fresh :
  pool_lone_ok p -> buf_ok self -> zlen fresh = PACKET_CAPACITY ->
  exists copy p', try_duplicate p self fresh = Ret (copy, p') /\ pool_lone_ok p' /\
    match copy with
    | Some b => as_slice b = as_slice self /\ buf_ok b
        /\ allocated p' - zlen (items (queue p')) = allocated p - zlen (items (queue p)) + 1
    | None => allocated p' - zlen (items (queue p')) = allocated p - zlen (items (queue p))
    end.
Proof.
  intros Hp (Hst & Hs & He) Hf. unfold try_duplicate.
  destruct (returns_slice (storage self) (range_start self) (range_end self)) as [src Hsrc]; [lia..|].
  unfold as_slice at 1. rewrite Hsrc. rbind. pose proof (slice_length _ _ _ _ Hsrc) as Hls.
  pose proof (try_acquire_ok p fresh Hp Hf) as Hacq.
  destruct (try_acquire p fresh) as [[b|] p']; destruct Hacq as (Hok & _ & Hrest).
  2:{ destruct Hrest as (-> & _). by exists None, p. }
  destruct Hrest as (Hb & _ & Hbal). destruct (read_area_length b Hb) as (area & -> & Harea). rbind.
  rewrite Harea, Hls. destruct (Z.ltb_spec 2240 (range_end self - range_start self)) as [Hbig|Hfit].
  { destruct (release_balance p' (storage b) Hok) as [Hok' Hbal'].
    eexists None, _. conjs; [reflexivity|done|lia]. }
  destruct (fill_read_area b src Hb) as (b1 & b2 & -> & Hset & Hsl & Hb2); [lia|]. rbind.
  rewrite Hls in Hset. rewrite Hset.
  eexists (Some _), p'. split; [reflexivity|]. split; [done|]. split; [|split; [done|lia]].
  rewrite Hsl. symmetry. exact Hsrc.
Qed.
End Duplicate.

Lemma try_duplicate_copies_witness :
  exists copy p', try_duplicate (new_pool (Q := ListQueue) 4) (mkPacketBuf blank 40 1000) blank = Ret (copy, p').
Proof.
  destruct (try_duplicate_copies (new_pool (Q := ListQueue) 4) (mkPacketBuf blank 40 1000) blank)
    as (copy & p' & H & _).
  - split; [split; [reflexivity|vm_compute; discriminate]|constructor].
  - split; [reflexivity|]. unfold PACKET_CAPACITY. simpl. lia.
  - reflexivity.
  - by exists copy, p'.
Defined.
