(* ===== verification/Digests.v ===== *)
(** * Digests: the interface of the digest crates

    CRC-32 ([crc32fast]), HMAC-SHA1 ([hmac], [sha1]) and MD5 ([md5]) are not part
    of the repository. The components that use them are stated over this class:
    the three functions and the widths of their results. *)

From S2P Require Import Prelude Bytes.

Class Digests : Type := {
  crc32 : bytes -> Z;
  hmac_sha1 : bytes -> bytes -> bytes;
  md5 : bytes -> bytes;
  crc32_width b : is_u 32 (crc32 b);
  hmac_sha1_length k b : zlen (hmac_sha1 k b) = 20;
  hmac_sha1_bytes k b : is_bytes (hmac_sha1 k b);
  md5_length b : zlen (md5 b) = 16;
  md5_bytes b : is_bytes (md5 b);
}.

(** Functions of the right widths, used to instantiate the class. *)
Definition checksum (w : Z) (b : bytes) : Z := wrap w (foldr (fun x s => 31 * s + x) 7 b).

#[export] Instance checksum_digests : Digests.
Proof.
  refine {|
    crc32 := checksum 32;
    hmac_sha1 := fun k b => to_be 20 (checksum 160 (k ++ b));
    md5 := fun b => to_be 16 (checksum 128 b)
  |}.
  - intros b. by apply wrap_is_u.
  - intros k b. apply zlen_to_be.
  - intros k b. apply to_be_bytes.
  - intros b. apply zlen_to_be.
  - intros b. apply to_be_bytes.
Defined.
