(* ===== verification/StunCodec.v ===== *)
(** * StunCodec: decoding STUN messages

    Models [stun_codec.rs]: [Message::decode] with its attribute walk, the
    accessors and the attribute iterator, and relates them to the grammar of
    RFC 8489: a header of twenty bytes and a sequence of padded attributes. *)

From S2P Require Import Prelude Bytes Digests.

Definition HEADER_SIZE : Z := 20.
Definition MAGIC_COOKIE : Z := 0x2112a442.
Definition ATTR_FINGERPRINT : Z := 0x8028.
Definition FINGERPRINT_XOR : Z := 0x5354554e.

Inductive Class : Type := Request | Indication | Success | Error.

#[export] Instance class_eq_dec : EqDecision Class.
Proof. solve_decision. Defined.

(** [value_range] is [value_start .. value_end]. *)
Record Attribute : Type := mkAttribute {
  kind : Z;
  value : bytes;
  header_start : Z;
  value_start : Z;
  value_end : Z;
}.

Record Message : Type := mkMessage {
  raw : bytes;
  m_kind : Z;
  m_transaction : bytes;
  m_end : Z;
}.

Inductive StunError : Type :=
| HeaderTruncated | LeadingBits | TypeZero | CookieMismatch | LengthNotAligned
| LengthOverflow | DatagramLength | AttributeHeaderTruncated | AttributeLengthOverflow
| AttributeOffsetOverflow | AttributeTruncated.

(** [(length + 3) & !3] *)
Definition padded (n : Z) : Z := Z.land (n + 3) (Z.lnot 3).

(** The [while] loop of [decode]; the fuel bounds its iterations. *)
Fixpoint validate (fuel : nat) (raw : bytes) (position end_ : Z) : res (result unit StunError) :=
  match fuel with
  | O => Panic
  | S fuel' =>
      if position <? end_ then
        if end_ - position <? 4 then Ret (Err AttributeHeaderTruncated) else
        b2 ← index raw (position + 2);
        b3 ← index raw (position + 3);
        let length := of_be [b2; b3] in
        let value_start := position + 4 in
        match checked_add 64 length 3 with
        | None => Ret (Err AttributeLengthOverflow)
        | Some _ =>
            match checked_add 64 value_start (padded length) with
            | None => Ret (Err AttributeOffsetOverflow)
            | Some next =>
                if (end_ <? next) || (end_ <? value_start + length)
                then Ret (Err AttributeTruncated)
                else validate fuel' raw next end_
            end
        end
      else Ret (Ok tt)
  end.

Definition decode (raw : bytes) : res (result Message StunError) :=
  if zlen raw <? HEADER_SIZE then Ret (Err HeaderTruncated) else
  b0 ← index raw 0;
  b1 ← index raw 1;
  let kind := of_be [b0; b1] in
  if negb (Z.land kind 0xc000 =? 0) then Ret (Err LeadingBits) else
  if kind =? 0 then Ret (Err TypeZero) else
  cookie ← slice raw 4 8;
  if negb (bytes_eqb cookie (to_be 4 MAGIC_COOKIE)) then Ret (Err CookieMismatch) else
  b2 ← index raw 2;
  b3 ← index raw 3;
  let declared := of_be [b2; b3] in
  if negb (declared mod 4 =? 0) then Ret (Err LengthNotAligned) else
  match checked_add 64 HEADER_SIZE declared with
  | None => Ret (Err LengthOverflow)
  | Some end_ =>
      if negb (zlen raw =? end_) then Ret (Err DatagramLength) else
      v ← validate (S (length raw)) raw HEADER_SIZE end_;
      match v with
      | Err e => Ret (Err e)
      | Ok _ =>
          transaction ← slice raw 8 20;
          Ret (Ok (mkMessage raw kind transaction end_))
      end
  end.

Definition class (m : Message) : Class :=
  match Z.lor (Z.land (Z.shiftr (m_kind m) 4) 1) (Z.land (Z.shiftr (m_kind m) 7) 2) with
  | 0 => Request
  | 1 => Indication
  | 2 => Success
  | 3 => Error
  | _ => Error
  end.

Definition method (m : Message) : Z :=
  Z.lor (Z.lor (Z.land (m_kind m) 0x000f) (Z.land (Z.shiftr (m_kind m) 1) 0x0070))
        (Z.land (Z.shiftr (m_kind m) 2) 0x0f80).

Definition transaction (m : Message) : bytes := m_transaction m.

(** ** The attribute iterator *)

Record Attributes : Type := mkAttributes {
  it_raw : bytes;
  it_position : Z;
  it_end : Z;
}.

Definition attributes (m : Message) : Attributes := mkAttributes (raw m) HEADER_SIZE (m_end m).

(** [Iterator::next] *)
Definition next (it : Attributes) : res (option (Attribute * Attributes)) :=
  if it_end it <=? it_position it then Ret None else
  let header_start := it_position it in
  k0 ← index (it_raw it) header_start;
  k1 ← index (it_raw it) (header_start + 1);
  l0 ← index (it_raw it) (header_start + 2);
  l1 ← index (it_raw it) (header_start + 3);
  let kind := of_be [k0; k1] in
  let length := of_be [l0; l1] in
  let value_start := header_start + 4 in
  let value_end := value_start + length in
  value ← slice (it_raw it) value_start value_end;
  Ret (Some (mkAttribute (if kind =? 0x8020 then 0x0020 else kind) value header_start value_start value_end,
             mkAttributes (it_raw it) (value_start + padded length) (it_end it))).

(** [Iterator::find] on a predicate of the kind *)
Fixpoint find_kind (fuel : nat) (it : Attributes) (target : Z) : res (option Attribute) :=
  match fuel with
  | O => Panic
  | S fuel' =>
      n ← next it;
      match n with
      | None => Ret None
      | Some (a, it') => if kind a =? target then Ret (Some a) else find_kind fuel' it' target
      end
  end.

Definition attribute (m : Message) (target : Z) : res (option Attribute) :=
  find_kind (S (length (raw m))) (attributes m) target.

Definition fingerprint_valid `{Digests} (m : Message) : res (option bool) :=
  a ← attribute m ATTR_FINGERPRINT;
  match a with
  | None => Ret None
  | Some a =>
      if negb (zlen (value a) =? 4) || negb (header_start a + 8 =? m_end m) then Ret (Some false) else
      signed ← slice (raw m) 0 (header_start a);
      let expected := Z.lxor (crc32 signed) FINGERPRINT_XOR in
      Ret (Some (of_be (value a) =? expected))
  end.

(** ** The grammar *)

(** [tlv body attrs]: [body] is the attributes [attrs] (type as on the wire and
    value), each padded to four bytes with arbitrary bytes. *)
Inductive tlv : bytes -> list (Z * bytes) -> Prop :=
| tlv_nil : tlv [] []
| tlv_cons k v pad rest attrs :
    is_u 16 k -> is_u 16 (zlen v) -> zlen v + zlen pad = padded (zlen v) -> tlv rest attrs ->
    tlv (to_be 2 k ++ to_be 2 (zlen v) ++ v ++ pad ++ rest) ((k, v) :: attrs).

(** What the iterator yields for [attrs] when they start at [pos]. *)
Fixpoint locate (pos : Z) (attrs : list (Z * bytes)) : list Attribute :=
  match attrs with
  | [] => []
  | (k, v) :: rest =>
      mkAttribute (if k =? 0x8020 then 0x0020 else k) v pos (pos + 4) (pos + 4 + zlen v)
      :: locate (pos + 4 + padded (zlen v)) rest
  end.

(** The message with type [k], transaction [t] and attribute bytes [body]. *)
Definition message_bytes (k : Z) (t body : bytes) : bytes :=
  to_be 2 k ++ to_be 2 (zlen body) ++ to_be 4 MAGIC_COOKIE ++ t ++ body.

Lemma padded_spec n : padded n = n + 3 - (n + 3) mod 4.
Proof.
  unfold padded. rewrite <- Z.sub_land_same_l. change 3 with (Z.ones 2) at 3.
  rewrite Z.land_ones by lia. done.
Qed.

Lemma padded_bounds n : n <= padded n <= n + 3.
Proof. rewrite padded_spec. pose proof (Z.mod_pos_bound (n + 3) 4). lia. Qed.

Lemma padded_mod n : padded n mod 4 = 0.
Proof.
  rewrite padded_spec, Zminus_mod, Zmod_mod, Z.sub_diag. done.
Qed.

Lemma byte_pair a b : is_byte a -> is_byte b -> 0 <= of_be [a; b] < 65536 /\ to_be 2 (of_be [a; b]) = [a; b].
Proof.
  intros Ha Hb. assert (is_bytes [a; b]) as Hab by (apply Forall_cons; split; [done|by apply Forall_singleton]). split.
  - apply (of_be_bound _ Hab).
  - by apply to_be_of_be_n.
Qed.

Lemma zlen_tlv body attrs : tlv body attrs -> zlen body mod 4 = 0.
Proof.
  induction 1 as [|k v pad rest attrs Hk Hv Hp _ IH]; [done|].
  rewrite !zlen_app, !zlen_to_be.
  replace (_ + _) with (padded (zlen v) + zlen rest + 1 * 4) by lia.
  by rewrite Z.mod_add, Z.add_mod, padded_mod, IH by lia.
Qed.

Lemma tlv_inv4 a b c d t attrs :
  is_bytes [a; b; c; d] -> tlv (a :: b :: c :: d :: t) attrs ->
  exists v pad rest attrs', t = v ++ pad ++ rest /\ zlen v = of_be [c; d]
    /\ zlen v + zlen pad = padded (zlen v) /\ attrs = (of_be [a; b], v) :: attrs' /\ tlv rest attrs'.
Proof.
  intros Hb H. remember (a :: b :: c :: d :: t) as body eqn:E.
  destruct H as [|k v pad rest attrs' Hk Hv Hp Hr]; [done|].
  change (a :: b :: c :: d :: t) with ([a; b] ++ [c; d] ++ t) in E.
  apply app_inj_1 in E as [E1 E]; [|by rewrite length_to_be].
  apply app_inj_1 in E as [E2 E]; [|by rewrite length_to_be].
  exists v, pad, rest, attrs'. rewrite <- E, <- E1, <- E2, !of_be_to_be_small by done. done.
Qed.

Lemma tlv_intro4 a b c d v pad rest attrs :
  is_bytes [a; b; c; d] -> zlen v = of_be [c; d] -> zlen v + zlen pad = padded (zlen v) ->
  tlv rest attrs -> tlv (a :: b :: c :: d :: v ++ pad ++ rest) ((of_be [a; b], v) :: attrs).
Proof.
  intros Hb Hv Hp Hr. inversion Hb as [|?? Ha Hb1]; subst. inversion Hb1 as [|?? Hb' Hb2]; subst.
  inversion Hb2 as [|?? Hc Hb3]; subst. inversion Hb3 as [|?? Hd _]; subst.
  destruct (byte_pair a b Ha Hb') as [Hk Ek]. destruct (byte_pair c d Hc Hd) as [Hl El].
  change (a :: b :: c :: d :: v ++ pad ++ rest) with ([a; b] ++ [c; d] ++ v ++ pad ++ rest).
  rewrite <- Ek at 1. rewrite <- El, <- Hv. apply tlv_cons; try done. unfold is_u. rewrite Hv. lia.
Qed.

(** The four bytes of an attribute header, read behind a prefix. *)
Lemma index_pre pre a b c d t i j x :
  [a; b; c; d] !! i = Some x -> j = zlen pre + Z.of_nat i ->
  index (pre ++ a :: b :: c :: d :: t) j = Ret x.
Proof.
  intros Hx ->. rewrite index_app_r by lia. replace (_ - _) with (Z.of_nat i) by lia.
  rewrite index_lookup, Nat2Z.id by lia.
  change (a :: b :: c :: d :: t) with ([a; b; c; d] ++ t).
  rewrite lookup_app_l by (by eapply lookup_lt_Some). by rewrite Hx.
Qed.

Lemma is_bytes_4 (rest : bytes) : 4 <= zlen rest -> is_bytes rest ->
  exists a b c d t, rest = a :: b :: c :: d :: t /\ is_bytes [a; b; c; d] /\ is_bytes t.
Proof.
  intros Hl Hb. destruct rest as [|a [|b [|c [|d t]]]]; try by unfold zlen in Hl; simpl in Hl; lia.
  exists a, b, c, d, t. split; [done|]. by apply (is_bytes_app [a; b; c; d] t).
Qed.

(** The loop of [decode] accepts exactly the attribute sequences. *)
Lemma validate_spec fuel pre rest :
  is_bytes rest -> zlen pre + zlen rest <= 65555 -> (length rest < fuel)%nat ->
  (validate fuel (pre ++ rest) (zlen pre) (zlen pre + zlen rest) = Ret (Ok tt) /\ exists attrs, tlv rest attrs)
  \/ (exists e, validate fuel (pre ++ rest) (zlen pre) (zlen pre + zlen rest) = Ret (Err e))
     /\ ~ exists attrs, tlv rest attrs.
Proof.
  revert pre rest. induction fuel as [|fuel IH]; intros pre rest Hb Hsz Hf; [lia|].
  pose proof (zlen_nonneg rest). pose proof (zlen_nonneg pre). cbn [validate].
  destruct (Z.ltb_spec (zlen pre) (zlen pre + zlen rest)) as [Hne|He].
  2:{ left. split; [done|]. destruct rest; [|rewrite zlen_cons in *; pose proof (zlen_nonneg rest); lia].
      eexists. constructor. }
  destruct (Z.ltb_spec (zlen pre + zlen rest - zlen pre) 4) as [Hs|Hl].
  { right. split; [by eexists|]. intros [attrs Ht].
    destruct Ht; [by unfold zlen in Hne; simpl in Hne; lia|].
    rewrite !zlen_app, !zlen_to_be in Hs. pose proof (zlen_nonneg v).
    pose proof (zlen_nonneg pad). pose proof (zlen_nonneg rest). lia. }
  destruct (is_bytes_4 rest) as (a & b & c & d & t & -> & Hh & Ht); [lia|done|].
  rewrite (index_pre pre a b c d t 2 (zlen pre + 2) c), (index_pre pre a b c d t 3 (zlen pre + 3) d) by done. rbind.
  destruct (byte_pair c d) as [Hlen _]; [exact (is_bytes_lookup _ 2%nat c Hh eq_refl)
    |exact (is_bytes_lookup _ 3%nat d Hh eq_refl)|].
  set (n := of_be [c; d]) in *. pose proof (padded_bounds n) as Hpad.
  rewrite !zlen_cons in *. unfold checked_add.
  destruct (Z.ltb_spec (n + 3) (2 ^ 64)); [|lia].
  destruct (Z.ltb_spec (zlen pre + 4 + padded n) (2 ^ 64)); [|lia].
  destruct (Z.ltb_spec (zlen pre + (1 + (1 + (1 + (1 + zlen t))))) (zlen pre + 4 + padded n)) as [Hbig|Hfit].
  { right. split; [by eexists|]. intros [attrs (v & pad & r & ? & -> & Hv & Hp & _)%tlv_inv4]; [|done].
    fold n in Hv. rewrite !zlen_app, Hv in *. pose proof (zlen_nonneg r). lia. }
  destruct (Z.ltb_spec (zlen pre + (1 + (1 + (1 + (1 + zlen t))))) (zlen pre + 4 + n)) as [|_]; [lia|].
  simpl orb. destruct (split_at_z t n) as (v & t' & -> & Hv); [lia|]. rewrite zlen_app in *.
  destruct (split_at_z t' (padded n - n)) as (pad & r & -> & Hp); [lia|]. rewrite zlen_app in *.
  apply is_bytes_app in Ht as [_ [_ Hr]%is_bytes_app].
  destruct (IH (pre ++ a :: b :: c :: d :: v ++ pad) r) as [[IHv [attrs IHt]]|[[e IHv] IHt]];
    [done|rewrite !zlen_app, !zlen_cons, zlen_app; lia
    |unfold zlen in *; simpl in Hf; rewrite !length_app in Hf; lia| |].
  all: rewrite !zlen_app, !zlen_cons, zlen_app, <- app_assoc in IHv; simpl in IHv;
    rewrite <- app_assoc in IHv;
    replace (zlen pre + 4 + padded n) with (zlen pre + (1 + (1 + (1 + (1 + (zlen v + zlen pad)))))) by lia;
    replace (zlen pre + (1 + (1 + (1 + (1 + (zlen v + (zlen pad + zlen r)))))))
      with (zlen pre + (1 + (1 + (1 + (1 + (zlen v + zlen pad))))) + zlen r) by lia; rewrite IHv.
  - left. split; [done|]. eexists. apply tlv_intro4; try done; rewrite ?Hv; lia.
  - right. split; [by eexists|]. intros [attrs (v' & pad' & r' & at' & Heq & Hv' & Hp' & _ & Hr')%tlv_inv4]; [|done].
    apply IHt. exists at'. fold n in Hv'. rewrite Hv' in Hp'.
    apply app_inj_1 in Heq as [-> Heq]; [|unfold zlen in *; lia].
    apply app_inj_1 in Heq as [-> ->]; [done|unfold zlen in *; lia].
Qed.

(** ** [decode] *)

(** [raw] is a well-formed message of type [k] with transaction [t] and
    attributes [attrs]. *)
Definition well_formed (raw : bytes) (k : Z) (t : bytes) (attrs : list (Z * bytes)) : Prop :=
  exists body, raw = message_bytes k t body /\ 0 < k < 0x4000 /\ zlen t = 12
    /\ zlen body < 65536 /\ tlv body attrs.

Lemma leading_bits k : is_u 16 k -> Z.land k 0xc000 = 0 <-> k < 0x4000.
Proof.
  intros Hk. unfold is_u in Hk.
  assert (Z.land k 0xc000 = k / 2 ^ 14 * 2 ^ 14) as ->.
  { rewrite <- (Z.mod_small k (2 ^ 16)) at 1 by done. rewrite <- Z.land_ones by lia.
    rewrite <- Z.land_assoc. change (Z.land (Z.ones 16) 0xc000) with (Z.land (Z.ones 16) (Z.lnot (Z.ones 14))).
    rewrite Z.land_assoc, <- Z.ldiff_land, Z.land_ones, Z.mod_small by (done || lia).
    rewrite Z.ldiff_ones_r, Z.shiftl_mul_pow2, Z.shiftr_div_pow2 by lia. done. }
  change (2 ^ 14) with 0x4000. pose proof (Z.div_mod k 0x4000) as Hd.
  pose proof (Z.mod_pos_bound k 0x4000). lia.
Qed.

Lemma cookie_length : zlen (to_be 4 MAGIC_COOKIE) = 4.
Proof. done. Qed.

Lemma zlen_message k t body : zlen t = 12 -> zlen (message_bytes k t body) = 20 + zlen body.
Proof.
  intros Ht. unfold message_bytes. rewrite !zlen_app, !zlen_to_be, Ht. lia.
Qed.

(** Any twenty bytes or more have the shape of a header. *)
Lemma header_split (raw : bytes) :
  20 <= zlen raw -> is_bytes raw ->
  exists k l cookie t body, raw = to_be 2 k ++ to_be 2 l ++ cookie ++ t ++ body
    /\ is_u 16 k /\ is_u 16 l /\ zlen cookie = 4 /\ zlen t = 12 /\ is_bytes body.
Proof.
  intros Hl Hb. destruct (is_bytes_4 raw) as (a & b & c & d & t & -> & Hh & Ht); [lia|done|].
  rewrite !zlen_cons in Hl. destruct (split_at_z t 4) as (cookie & t1 & -> & Hc); [lia|].
  rewrite zlen_app in Hl. destruct (split_at_z t1 12) as (tr & body & -> & Htr); [lia|].
  destruct (byte_pair a b) as [Hk Ek];
    [exact (is_bytes_lookup _ 0%nat a Hh eq_refl)|exact (is_bytes_lookup _ 1%nat b Hh eq_refl)|].
  destruct (byte_pair c d) as [Hn En];
    [exact (is_bytes_lookup _ 2%nat c Hh eq_refl)|exact (is_bytes_lookup _ 3%nat d Hh eq_refl)|].
  exists (of_be [a; b]), (of_be [c; d]), cookie, tr, body. rewrite Ek, En. unfold is_u.
  apply is_bytes_app in Ht as [_ [_ Hbody]%is_bytes_app]. conjs; try done; lia.
Qed.

Lemma to_be_2 k : is_u 16 k -> exists a b, to_be 2 k = [a; b] /\ of_be [a; b] = k.
Proof.
  intros Hk. exists ((k / 256 ^ 1) mod 256), ((k / 256 ^ 0) mod 256).
  split; [done|]. exact (of_be_to_be_small 2 k Hk).
Qed.

(** The four bytes of two 16-bit fields. *)
Lemma index_pair16 pre k l rest i :
  is_u 16 k -> is_u 16 l -> i = zlen pre ->
  exists a b c d,
    index (pre ++ to_be 2 k ++ to_be 2 l ++ rest) i = Ret a
    /\ index (pre ++ to_be 2 k ++ to_be 2 l ++ rest) (i + 1) = Ret b
    /\ index (pre ++ to_be 2 k ++ to_be 2 l ++ rest) (i + 2) = Ret c
    /\ index (pre ++ to_be 2 k ++ to_be 2 l ++ rest) (i + 3) = Ret d
    /\ of_be [a; b] = k /\ of_be [c; d] = l.
Proof.
  intros Hk Hl ->. destruct (to_be_2 k Hk) as (a & b & -> & Hab).
  destruct (to_be_2 l Hl) as (c & d & -> & Hcd). exists a, b, c, d. simpl app.
  conjs; try done;
    [eapply (index_pre _ _ _ _ _ _ 0)|eapply (index_pre _ _ _ _ _ _ 1)
    |eapply (index_pre _ _ _ _ _ _ 2)|eapply (index_pre _ _ _ _ _ _ 3)]; done || lia.
Qed.

(** A body on which the loop decides the grammar. *)
Definition body_decided (body : bytes) : Prop :=
  forall fuel pre, zlen pre + zlen body <= 65555 -> (length body < fuel)%nat ->
  (validate fuel (pre ++ body) (zlen pre) (zlen pre + zlen body) = Ret (Ok tt) /\ exists attrs, tlv body attrs)
  \/ (exists e, validate fuel (pre ++ body) (zlen pre) (zlen pre + zlen body) = Ret (Err e))
     /\ ~ exists attrs, tlv body attrs.

Lemma bytes_decided body : is_bytes body -> body_decided body.
Proof. intros Hb fuel pre Hsz Hf. by apply validate_spec. Qed.

Lemma tlv_decided body attrs : tlv body attrs -> body_decided body.
Proof.
  intros Htlv fuel pre Hsz Hf. left. split; [|by eexists].
  revert fuel pre Hsz Hf. induction Htlv as [|k v pad rest attrs Hk Hv Hp _ IH]; intros fuel pre Hsz Hf.
  { destruct fuel; [simpl in Hf; lia|]. cbn [validate].
    destruct (Z.ltb_spec (zlen pre) (zlen pre + zlen (@nil Z))); [rewrite zlen_nil in *; lia|done]. }
  destruct fuel as [|fuel]; [lia|]. cbn [validate].
  destruct (index_pair16 pre k (zlen v) (v ++ pad ++ rest) (zlen pre) Hk Hv eq_refl)
    as (a & b & c & d & _ & _ & Hc & Hd & _ & Hcd). rewrite Hc, Hd. rbind. rewrite Hcd.
  rewrite !zlen_app, !zlen_to_be in *. rewrite !length_app, !length_to_be in Hf.
  pose proof (zlen_nonneg v). pose proof (zlen_nonneg pad). pose proof (zlen_nonneg rest).
  pose proof (zlen_nonneg pre). unfold is_u in Hv. unfold checked_add.
  repeat match goal with |- context [?x <? ?y] => destruct (Z.ltb_spec x y); [try lia|try lia] end.
  simpl orb. cbv iota.
  specialize (IH fuel (pre ++ to_be 2 k ++ to_be 2 (zlen v) ++ v ++ pad)).
  rewrite !zlen_app, !zlen_to_be, <- !app_assoc in IH.
  replace (zlen pre + 4 + padded (zlen v))
    with (zlen pre + (Z.of_nat 2 + (Z.of_nat 2 + (zlen v + zlen pad)))) by lia.
  rewrite <- IH by lia. f_equal. lia.
Qed.

(** What [decode] computes on a datagram whose header has been split. *)
Lemma decode_split k l cookie t body :
  is_u 16 k -> is_u 16 l -> zlen cookie = 4 -> zlen t = 12 -> body_decided body ->
  let raw := to_be 2 k ++ to_be 2 l ++ cookie ++ t ++ body in
  let wf := 0 < k < 0x4000 /\ cookie = to_be 4 MAGIC_COOKIE /\ l = zlen body /\ exists attrs, tlv body attrs in
  (decode raw = Ret (Ok (mkMessage raw k t (20 + zlen body))) /\ wf)
  \/ ((exists e, decode raw = Ret (Err e)) /\ ~ wf).
Proof.
  intros Hk Hl Hc Ht Hb raw wf.
  assert (zlen raw = 20 + zlen body) as Hraw.
  { unfold raw. rewrite !zlen_app, !zlen_to_be. lia. }
  destruct (index_pair16 [] k l (cookie ++ t ++ body) 0 Hk Hl eq_refl)
    as (a & b & c & d & Ha & Hb' & Hc' & Hd & Hab & Hcd).
  assert (slice raw 4 8 = Ret cookie) as Hs1.
  { unfold raw. rewrite app_assoc. apply slice_app_mid; rewrite ?zlen_app, ?zlen_to_be, ?Hc; lia. }
  assert (slice raw 8 20 = Ret t) as Hs2.
  { unfold raw. rewrite !app_assoc, <- (app_assoc _ t).
    apply slice_app_mid; rewrite ?zlen_app, ?zlen_to_be, ?Hc, ?Ht; lia. }
  rewrite app_nil_l in Ha, Hb', Hc', Hd. fold raw in Ha, Hb', Hc', Hd. rewrite Z.add_0_l in Hb', Hc', Hd.
  pose proof (zlen_nonneg body). unfold decode. rewrite Hraw, Ha, Hb', Hs1, Hc', Hd. rbind. rewrite Hab, Hcd.
  unfold HEADER_SIZE, checked_add.
  assert (forall e (P : Prop), (wf -> P) -> ~ P ->
    (Ret (@Err Message StunError e) = Ret (Ok (mkMessage raw k t (20 + zlen body))) /\ wf) \/
    (exists e', Ret (Err e) = Ret (@Err Message StunError e')) /\ ~ wf) as Hbad.
  { intros e P HP HnP. right. split; [by eexists|auto]. }
  unfold is_u in Hk, Hl.
  destruct (Z.ltb_spec (20 + zlen body) 20); [lia|].
  destruct (Z.eqb_spec (Z.land k 0xc000) 0) as [Hbits|Hbits]; cbn [negb];
    rewrite leading_bits in Hbits by done; [|apply (Hbad _ (k < 0x4000)); [unfold wf; lia|done]].
  destruct (Z.eqb_spec k 0) as [Hz|Hz]; [apply (Hbad _ (k <> 0)); [unfold wf; lia|lia]|].
  destruct (bytes_eqb cookie (to_be 4 MAGIC_COOKIE)) eqn:E; cbn [negb];
    [apply bytes_eqb_eq in E|apply bytes_eqb_neq in E; apply (Hbad _ (cookie = to_be 4 MAGIC_COOKIE)); [unfold wf; naive_solver|done]].
  destruct (Z.eqb_spec (l mod 4) 0) as [Hal|Hal]; cbn [negb].
  2:{ apply (Hbad _ (l mod 4 = 0)); [|done]. intros (_ & _ & -> & attrs & Htlv). by eapply zlen_tlv. }
  destruct (Z.ltb_spec (20 + l) (2 ^ 64)); [|lia].
  destruct (Z.eqb_spec (20 + zlen body) (20 + l)) as [Hle|Hle]; cbn [negb].
  2:{ apply (Hbad _ (l = zlen body)); [unfold wf; naive_solver|lia]. }
  assert (raw = (to_be 2 k ++ to_be 2 l ++ cookie ++ t) ++ body) as Hr.
  { unfold raw. by rewrite <- !app_assoc. }
  assert (zlen (to_be 2 k ++ to_be 2 l ++ cookie ++ t) = 20) as Hpre.
  { rewrite !zlen_app, !zlen_to_be. lia. }
  pose proof (Hb (S (length raw)) (to_be 2 k ++ to_be 2 l ++ cookie ++ t)) as Hv.
  rewrite <- Hr, Hpre, Hle in Hv.
  destruct Hv as [[-> Htlv]|[[e ->] Htlv]]; [lia|rewrite Hr, length_app; lia| |]; rbind.
  - left. rewrite Hs2. rbind. rewrite <- Hle. split; [done|]. unfold wf. conjs; (done || lia).
  - apply (Hbad _ (exists attrs, tlv body attrs)); [unfold wf; naive_solver|done].
Qed.

Lemma decode_well_formed raw k t attrs :
  well_formed raw k t attrs -> decode raw = Ret (Ok (mkMessage raw k t (zlen raw))).
Proof.
  intros (body & -> & Hk & Ht & Hl & Htlv). pose proof (zlen_nonneg body).
  rewrite zlen_message by done. unfold message_bytes.
  destruct (decode_split k (zlen body) (to_be 4 MAGIC_COOKIE) t body) as [[Hd _]|[_ Hn]];
    try done; try (unfold is_u; lia); [by eapply tlv_decided|]. exfalso. apply Hn. naive_solver.
Qed.

Lemma decode_total raw : is_bytes raw -> returns (decode raw).
Proof.
  intros Hb. destruct (Z.ltb_spec (zlen raw) 20) as [Hs|Hl].
  { unfold decode, HEADER_SIZE. destruct (Z.ltb_spec (zlen raw) 20); [apply returns_ret|lia]. }
  destruct (header_split raw Hl Hb) as (k & l & cookie & t & body & -> & Hk & Hn & Hc & Ht & Hbody).
  destruct (decode_split k l cookie t body) as [[-> _]|[[e ->] _]]; try done;
    try (by apply bytes_decided); apply returns_ret.
Qed.

Lemma decode_accepts raw m :
  is_bytes raw -> decode raw = Ret (Ok m) ->
  exists attrs, well_formed raw (m_kind m) (m_transaction m) attrs
    /\ m = mkMessage raw (m_kind m) (m_transaction m) (zlen raw).
Proof.
  intros Hb Hd. destruct (Z.ltb_spec (zlen raw) 20) as [Hs|Hl].
  { unfold decode, HEADER_SIZE in Hd. destruct (Z.ltb_spec (zlen raw) 20); [done|lia]. }
  destruct (header_split raw Hl Hb) as (k & l & cookie & t & body & -> & Hk & Hn & Hc & Ht & Hbody).
  destruct (decode_split k l cookie t body) as [[Hok (Hk' & -> & -> & attrs & Htlv)]|[[e He] _]];
    try done; [by apply bytes_decided| |congruence].
  rewrite Hok in Hd. injection Hd as <-. cbn [m_kind m_transaction]. exists attrs. unfold is_u in *. split.
  - exists body. conjs; try done; lia.
  - f_equal. rewrite !zlen_app, !zlen_to_be, Ht. lia.
Qed.

(** C40: [decode] never panics, and accepts a datagram exactly when it is a
    well-formed STUN message: a type with clear leading bits other than zero,
    the magic cookie, a length field that is the length of what follows, and a
    body that is a sequence of padded attributes. The message it returns
    carries the type and the transaction of the datagram. *)
Theorem decode_iff raw m :
  is_bytes raw ->
  returns (decode raw)
  /\ (decode raw = Ret (Ok m) <->
      exists attrs, well_formed raw (m_kind m) (m_transaction m) attrs
        /\ m = mkMessage raw (m_kind m) (m_transaction m) (zlen raw)).
Proof.
  intros Hb. split; [by apply decode_total|]. split; [by apply decode_accepts|].
  intros (attrs & Hwf & ->). by eapply decode_well_formed.
Qed.

Definition sample_message : bytes :=
  message_bytes 0x0103 (replicate 12 7) (to_be 2 0x0006 ++ to_be 2 3 ++ [1; 2; 3] ++ [0]).

Lemma decode_iff_witness :
  exists m, decode sample_message = Ret (Ok m) /\ exists attrs, well_formed sample_message (m_kind m) (m_transaction m) attrs.
Proof.
  assert (is_bytes sample_message) as Hb by (apply is_bytes_check; reflexivity).
  exists (mkMessage sample_message 0x0103 (replicate 12 7) 28). split; [reflexivity|].
  destruct (proj1 (proj2 (decode_iff sample_message (mkMessage sample_message 0x0103 (replicate 12 7) 28) Hb)))
    as (attrs & Hwf & _); [reflexivity|].
  exists attrs. exact Hwf.
Defined.

(** ** The iterator *)

(** One step of the iterator, at an attribute that starts behind [pre]. *)
Lemma next_spec pre k v pad rest e :
  is_u 16 k -> is_u 16 (zlen v) -> zlen v + zlen pad = padded (zlen v) -> zlen pre < e ->
  let raw := pre ++ to_be 2 k ++ to_be 2 (zlen v) ++ v ++ pad ++ rest in
  next (mkAttributes raw (zlen pre) e)
  = Ret (Some (mkAttribute (if k =? 0x8020 then 0x0020 else k) v (zlen pre) (zlen pre + 4) (zlen pre + 4 + zlen v),
               mkAttributes raw (zlen pre + 4 + padded (zlen v)) e)).
Proof.
  intros Hk Hv Hp He raw. unfold next. simpl it_end. simpl it_position. simpl it_raw.
  destruct (Z.leb_spec e (zlen pre)); [lia|].
  destruct (index_pair16 pre k (zlen v) (v ++ pad ++ rest) (zlen pre) Hk Hv eq_refl)
    as (a & b & c & d & Ha & Hb & Hc & Hd & Hab & Hcd).
  fold raw in Ha, Hb, Hc, Hd. rewrite Ha, Hb, Hc, Hd. rbind. rewrite Hab, Hcd.
  assert (slice raw (zlen pre + 4) (zlen pre + 4 + zlen v) = Ret v) as ->; [|done].
  assert (raw = (pre ++ to_be 2 k ++ to_be 2 (zlen v)) ++ v ++ pad ++ rest) as ->.
  { unfold raw. by rewrite <- !app_assoc. }
  apply slice_app_mid; rewrite !zlen_app, !zlen_to_be; lia.
Qed.

Lemma find_kind_spec fuel pre rest attrs target :
  tlv rest attrs -> (length rest < fuel)%nat ->
  find_kind fuel (mkAttributes (pre ++ rest) (zlen pre) (zlen pre + zlen rest)) target
  = Ret (List.find (fun a => kind a =? target) (locate (zlen pre) attrs)).
Proof.
  intros Htlv. revert fuel pre. induction Htlv as [|k v pad rest attrs Hk Hv Hp _ IH]; intros fuel pre Hf.
  { destruct fuel; [simpl in Hf; lia|]. cbn [find_kind]. unfold next. simpl.
    destruct (Z.leb_spec (zlen pre + zlen (@nil Z)) (zlen pre)); [done|rewrite zlen_nil in *; lia]. }
  destruct fuel as [|fuel]; [lia|]. cbn [find_kind].
  rewrite !length_app, !length_to_be in Hf.
  rewrite next_spec; [|done..|].
  2:{ rewrite !zlen_app, !zlen_to_be. pose proof (zlen_nonneg v).
      pose proof (zlen_nonneg pad). pose proof (zlen_nonneg rest). lia. }
  rbind. simpl locate. simpl List.find. cbn [kind].
  destruct ((if k =? 0x8020 then 0x0020 else k) =? target); [done|].
  specialize (IH fuel (pre ++ to_be 2 k ++ to_be 2 (zlen v) ++ v ++ pad)).
  rewrite !zlen_app, !zlen_to_be, <- !app_assoc in IH.
  rewrite !zlen_app, !zlen_to_be.
  replace (zlen pre + 4 + padded (zlen v))
    with (zlen pre + (Z.of_nat 2 + (Z.of_nat 2 + (zlen v + zlen pad)))) by lia.
  rewrite <- IH by lia. do 2 f_equal. lia.
Qed.

(** [Message::attribute] on a decoded message: the first attribute of that kind. *)
Lemma attribute_spec raw k t attrs target :
  well_formed raw k t attrs ->
  attribute (mkMessage raw k t (zlen raw)) target
  = Ret (List.find (fun a => StunCodec.kind a =? target) (locate 20 attrs)).
Proof.
  intros (body & -> & Hk & Ht & Hl & Htlv). unfold attribute, attributes. simpl.
  unfold HEADER_SIZE. rewrite zlen_message by done.
  pose proof (find_kind_spec (S (length (message_bytes k t body)))
    (to_be 2 k ++ to_be 2 (zlen body) ++ to_be 4 MAGIC_COOKIE ++ t) body attrs target Htlv) as Hf.
  rewrite !zlen_app, !zlen_to_be, Ht, <- !app_assoc in Hf. apply Hf.
  unfold message_bytes. rewrite !length_app. lia.
Qed.

(** ** Accessors on a decoded message *)

(** [m] is what [decode] gives for [raw]. *)
Definition message_of (raw : bytes) (m : Message) : Prop :=
  exists attrs, well_formed raw (m_kind m) (m_transaction m) attrs
    /\ m = mkMessage raw (m_kind m) (m_transaction m) (zlen raw).

Lemma locate_bounds body attrs pos a :
  tlv body attrs -> List.In a (locate pos attrs) ->
  pos <= header_start a /\ header_start a + 4 + zlen (value a) <= pos + zlen body /\ is_u 16 (zlen (value a)).
Proof.
  intros Htlv. revert pos. induction Htlv as [|k v pad rest attrs Hk Hv Hp _ IH]; intros pos; [done|].
  cbn [locate List.In]. rewrite !zlen_app, !zlen_to_be.
  pose proof (zlen_nonneg pad). pose proof (zlen_nonneg rest). pose proof (zlen_nonneg v).
  intros [<-|Hin]; [cbn [header_start value]; repeat split; try apply Hv; lia|].
  specialize (IH _ Hin). repeat split; try apply IH; lia.
Qed.

(** [attribute] returns, and what it finds lies inside the datagram. *)
Lemma attribute_total raw m target :
  message_of raw m ->
  exists r, attribute m target = Ret r /\
    forall a, r = Some a -> 20 <= header_start a /\ header_start a + 4 + zlen (value a) <= zlen raw
      /\ is_u 16 (zlen (value a)).
Proof.
  intros (attrs & Hwf & ->). rewrite (attribute_spec _ _ _ _ target Hwf). eexists. split; [reflexivity|].
  intros a [Hin _]%List.find_some. destruct Hwf as (body & Hraw & _ & Ht & _ & Htlv).
  rewrite Hraw, zlen_message by done. by apply (locate_bounds body attrs 20).
Qed.

Lemma fingerprint_valid_total `{Digests} raw m : message_of raw m -> returns (fingerprint_valid m).
Proof.
  intros Hm. unfold fingerprint_valid. destruct (attribute_total raw m ATTR_FINGERPRINT Hm) as (r & -> & Hr).
  rbind. destruct r as [a|]; [|apply returns_ret]. destruct (Hr a eq_refl) as (Hs & He & _).
  destruct Hm as (attrs & _ & ->). pose proof (zlen_nonneg (value a)). simpl StunCodec.raw. no_panic.
Qed.
