(* ===== verification/TurnMessage.v ===== *)
(** * TurnMessage: building and checking TURN messages

    Models the message part of [turn_core.rs]: [MessageBuilder], integrity,
    error codes and XOR-mapped addresses. What it builds is related to the
    grammar of [StunCodec], so that the two sides of the codec meet. *)

From S2P Require Import Prelude Bytes Digests StunCodec.

(** [std::net::SocketAddr]: the octets of the address and the port. *)
Inductive SocketAddr : Type :=
| V4 (octets : bytes) (port : Z)
| V6 (octets : bytes) (port : Z).

#[export] Instance socket_addr_eq_dec : EqDecision SocketAddr.
Proof. solve_decision. Defined.

Definition is_ipv4 (a : SocketAddr) : bool := match a with V4 _ _ => true | V6 _ _ => false end.
Definition addr_port (a : SocketAddr) : Z := match a with V4 _ p | V6 _ p => p end.

Definition addr_ok (a : SocketAddr) : Prop :=
  match a with
  | V4 ip p => zlen ip = 4 /\ is_bytes ip /\ is_u 16 p
  | V6 ip p => zlen ip = 16 /\ is_bytes ip /\ is_u 16 p
  end.

Definition ATTR_USERNAME : Z := 0x0006.
Definition ATTR_MESSAGE_INTEGRITY : Z := 0x0008.
Definition ATTR_ERROR_CODE : Z := 0x0009.
Definition ATTR_CHANNEL_NUMBER : Z := 0x000c.
Definition ATTR_LIFETIME : Z := 0x000d.
Definition ATTR_XOR_PEER_ADDRESS : Z := 0x0012.
Definition ATTR_REALM : Z := 0x0014.
Definition ATTR_NONCE : Z := 0x0015.
Definition ATTR_XOR_RELAYED_ADDRESS : Z := 0x0016.
Definition ATTR_REQUESTED_ADDRESS_FAMILY : Z := 0x0017.
Definition ATTR_REQUESTED_TRANSPORT : Z := 0x0019.

(** ** XOR-mapped addresses *)

Definition xor_bytes (p q : bytes) : bytes := zip_with Z.lxor p q.

Definition xor_mask (transaction : bytes) : bytes := to_be 4 MAGIC_COOKIE ++ transaction.

Definition encode_xor_address (address : SocketAddr) (transaction : bytes) : bytes :=
  [0; if is_ipv4 address then 1 else 2]
  ++ to_be 2 (Z.lxor (addr_port address) (Z.shiftr MAGIC_COOKIE 16))
  ++ match address with
     | V4 ip _ => to_be 4 (Z.lxor (of_be ip) MAGIC_COOKIE)
     | V6 ip _ => xor_bytes ip (xor_mask transaction)
     end.

Inductive TurnError : Type :=
| XorMalformed | XorFamily
| AuthIncomplete | KeyMissing | MessageTooLarge
| NoRelayedAddress | InvalidRelayedAddress | AllocateLifetimeZero | RefreshLifetimeZero
| DeallocateLifetimeNotZero
| NativeStatus (status : Z).

Definition decode_xor_address (value transaction : bytes) : res (result SocketAddr TurnError) :=
  if zlen value <? 4 then Ret (Err XorMalformed) else
  v0 ← index value 0;
  if negb (v0 =? 0) then Ret (Err XorMalformed) else
  v2 ← index value 2;
  v3 ← index value 3;
  let port := Z.lxor (of_be [v2; v3]) (Z.shiftr MAGIC_COOKIE 16) in
  v1 ← index value 1;
  if (v1 =? 1) && (zlen value =? 8) then
    encoded ← slice value 4 8;
    Ret (Ok (V4 (to_be 4 (Z.lxor (of_be encoded) MAGIC_COOKIE)) port))
  else if (v1 =? 2) && (zlen value =? 20) then
    octets ← slice value 4 20;
    Ret (Ok (V6 (xor_bytes octets (xor_mask transaction)) port))
  else Ret (Err XorFamily).

(** ** The message builder *)

Record MessageBuilder : Type := mkBuilder {
  b_bytes : bytes;
  b_transaction : bytes;
}.

(** [bytes.len() - 20 + trailing] as a [u16], written at offset 2. *)
Definition set_message_length (b : bytes) (trailing : Z) : res (result bytes TurnError) :=
  if zlen b <? 20 then Panic else
  let length := zlen b - 20 + trailing in
  if u16_max <? length then Ret (Err MessageTooLarge) else
  b ← blit b 2 (to_be 2 length);
  Ret (Ok b).

Definition with_transaction (kind : Z) (transaction : bytes) : MessageBuilder :=
  mkBuilder (to_be 2 kind ++ to_be 2 0 ++ to_be 4 MAGIC_COOKIE ++ transaction) transaction.

(** [while !len.is_multiple_of(4) { push(0) }]; three turns are enough. *)
Fixpoint pad4 (turns : nat) (b : bytes) : bytes :=
  if zlen b mod 4 =? 0 then b
  else match turns with O => b | S turns' => pad4 turns' (b ++ [0]) end.

Definition b_attribute (b : MessageBuilder) (kind : Z) (value : bytes) : MessageBuilder :=
  mkBuilder
    (pad4 3 (b_bytes b ++ to_be 2 kind ++ to_be 2 (wrap 16 (zlen value)) ++ value))
    (b_transaction b).

Definition b_xor_address (b : MessageBuilder) (kind : Z) (address : SocketAddr) : MessageBuilder :=
  b_attribute b kind (encode_xor_address address (b_transaction b)).

Section Finish.
Context `{Digests}.

Definition finish (b : MessageBuilder) : res (result bytes TurnError) :=
  l ← set_message_length (b_bytes b) 8;
  match l with
  | Err e => Ret (Err e)
  | Ok bs =>
      let fingerprint := Z.lxor (crc32 bs) FINGERPRINT_XOR in
      Ret (Ok (b_bytes (b_attribute (mkBuilder bs (b_transaction b)) ATTR_FINGERPRINT (to_be 4 fingerprint))))
  end.

Definition finish_authenticated (b : MessageBuilder) (key : bytes) : res (result bytes TurnError) :=
  l ← set_message_length (b_bytes b) 24;
  match l with
  | Err e => Ret (Err e)
  | Ok bs => finish (b_attribute (mkBuilder bs (b_transaction b)) ATTR_MESSAGE_INTEGRITY (hmac_sha1 key bs))
  end.

(** ** Checking responses *)

Definition verify_integrity (packet : bytes) (message : Message) (key : option bytes) : res bool :=
  integrity ← attribute message ATTR_MESSAGE_INTEGRITY;
  match key, integrity with
  | Some key, Some integrity =>
      if negb (zlen (value integrity) =? 20) || (header_start integrity <? 20) then Ret false else
      signed ← slice packet 0 (header_start integrity);
      let signed_length := header_start integrity + 24 - 20 in
      if u16_max <? signed_length then Ret false else
      signed ← blit signed 2 (to_be 2 signed_length);
      Ret (bytes_eqb (hmac_sha1 key signed) (value integrity))
  | _, _ => Ret false
  end.

Definition error_code (message : Message) : res (option Z) :=
  a ← attribute message ATTR_ERROR_CODE;
  match a with
  | None => Ret None
  | Some a =>
      if zlen (value a) <? 4 then Ret None else
      v2 ← index (value a) 2;
      v3 ← index (value a) 3;
      if (6 <? v2) || (99 <? v3) then Ret None else Ret (Some (v2 * 100 + v3))
  end.

Definition response_requires_integrity (message : Message) : res bool :=
  match class message with
  | Success => Ret true
  | Error =>
      code ← error_code message;
      Ret (negb (bool_decide (code ∈ [Some 400; Some 401; Some 420; Some 438])))
  | _ => Ret false
  end.

Definition is_fingerprinted_allocation_mismatch (message : Message) : res bool :=
  if negb (bool_decide (class message = Error)) then Ret false else
  code ← error_code message;
  if negb (bool_decide (code = Some 437)) then Ret false else
  valid ← fingerprint_valid message;
  Ret (bool_decide (valid = Some true)).

Definition attribute_u32 (message : Message) (kind : Z) : res (option Z) :=
  a ← attribute message kind;
  match a with
  | None => Ret None
  | Some a => Ret (if zlen (value a) =? 4 then Some (of_be (value a)) else None)
  end.
End Finish.

(** ** Lemmas on addresses *)

Lemma lxor_is_u w a b : 0 <= w -> is_u w a -> is_u w b -> is_u w (Z.lxor a b).
Proof.
  intros Hw Ha Hb. unfold is_u in *.
  assert (Z.lxor a b = Z.lxor a b mod 2 ^ w) as ->; [|by apply Z.mod_pos_bound, Z.pow_pos_nonneg].
  rewrite <- (Z.mod_small a (2 ^ w)), <- (Z.mod_small b (2 ^ w)) at 1 by done.
  rewrite <- !Z.land_ones by done. apply Z.bits_inj'. intros n Hn.
  rewrite Z.land_spec, !Z.lxor_spec, !Z.land_spec. destruct (Z.testbit (Z.ones w) n);
    by rewrite ?andb_true_r, ?andb_false_r.
Qed.

Lemma lxor_twice a b : Z.lxor (Z.lxor a b) b = a.
Proof. by rewrite Z.lxor_assoc, Z.lxor_nilpotent, Z.lxor_0_r. Qed.

Lemma xor_bytes_twice p q : (length p <= length q)%nat -> xor_bytes (xor_bytes p q) q = p.
Proof.
  revert q. induction p as [|a p IH]; intros [|b q] Hl; simpl in *; try done; [lia|].
  f_equal; [apply lxor_twice|apply IH; lia].
Qed.

Lemma zlen_xor_bytes p q : (length p <= length q)%nat -> zlen (xor_bytes p q) = zlen p.
Proof. intros Hl. unfold zlen, xor_bytes. rewrite length_zip_with. lia. Qed.

Lemma xor_mask_length t : zlen t = 12 -> zlen (xor_mask t) = 16.
Proof. intros Ht. unfold xor_mask. rewrite zlen_app, zlen_to_be. lia. Qed.

Lemma encode_xor_length a t :
  addr_ok a -> zlen t = 12 -> zlen (encode_xor_address a t) = if is_ipv4 a then 8 else 20.
Proof.
  intros Ha Ht. unfold encode_xor_address. rewrite !zlen_app, zlen_to_be.
  change (zlen [0; if is_ipv4 a then 1 else 2]) with 2.
  destruct a as [ip p|ip p]; simpl is_ipv4; [by rewrite zlen_to_be|].
  pose proof (xor_mask_length t Ht). destruct Ha as (Hip & _ & _).
  rewrite zlen_xor_bytes by (unfold zlen in *; lia). lia.
Qed.

(** Decoding an XOR-mapped address with the transaction it was encoded with
    gives the address back, IPv4 and IPv6, so a relayed address announced by a
    server that encodes as this client does is the one the client stores. *)
Lemma xor_address_roundtrip a t :
  addr_ok a -> zlen t = 12 ->
  decode_xor_address (encode_xor_address a t) t = Ret (Ok a).
Proof.
  intros Ha Ht. unfold decode_xor_address. rewrite encode_xor_length by done.
  assert (is_u 16 (addr_port a)) as Hp by (by destruct a; apply Ha).
  assert (is_u 16 (Z.lxor (addr_port a) (Z.shiftr MAGIC_COOKIE 16))) as Hport.
  { apply lxor_is_u; [lia|done|]. unfold is_u. vm_compute. by split. }
  destruct (to_be_2 _ Hport) as (p0 & p1 & Ep & Hpp). unfold encode_xor_address. rewrite Ep.
  pose proof (xor_mask_length t Ht) as Hm.
  set (f := if is_ipv4 a then 1 else 2).
  set (q := match a with V4 ip _ => to_be 4 (Z.lxor (of_be ip) MAGIC_COOKIE)
            | V6 ip _ => xor_bytes ip (xor_mask t) end).
  assert (forall i j x, [0; f; p0; p1] !! i = Some x -> j = Z.of_nat i ->
    index ([0; f] ++ [p0; p1] ++ q) j = Ret x) as Hidx.
  { intros i j x Hx ->. by apply (index_pre [] 0 f p0 p1 q i). }
  rewrite (Hidx 0%nat 0 0), (Hidx 2%nat 2 p0), (Hidx 3%nat 3 p1), (Hidx 1%nat 1 f) by done.
  assert (forall e, e = zlen q + 4 -> slice ([0; f] ++ [p0; p1] ++ q) 4 e = Ret q) as Hq.
  { intros e ->. change ([0; f] ++ [p0; p1] ++ q) with ([0; f; p0; p1] ++ q).
    rewrite <- (app_nil_r q) at 1. apply slice_app_mid; [done|]. change (zlen [0; f; p0; p1]) with 4. lia. }
  rbind. rewrite Hpp, lxor_twice. destruct a as [ip p|ip p]; destruct Ha as (Hip & Hib & _); unfold f; simpl is_ipv4;
    cbv iota; simpl Z.eqb; simpl andb; cbv iota; rewrite Hq; rbind; unfold q.
  - assert (is_u 32 (Z.lxor (of_be ip) MAGIC_COOKIE)) as Hx.
    { apply lxor_is_u; [lia| |unfold is_u; vm_compute; by split].
      pose proof (of_be_bound ip Hib) as Hb. by rewrite Hip in Hb. }
    rewrite of_be_to_be_small by exact Hx. rewrite lxor_twice, (to_be_of_be_n 4 ip) by done. done.
  - by rewrite zlen_to_be.
  - rewrite xor_bytes_twice; [done|unfold zlen in *; lia].
  - rewrite zlen_xor_bytes; unfold zlen in *; lia.
Qed.

Lemma xor_address_roundtrip_witness :
  decode_xor_address (encode_xor_address (V6 (replicate 16 255) 443) (replicate 12 9)) (replicate 12 9)
  = Ret (Ok (V6 (replicate 16 255) 443)).
Proof.
  apply (xor_address_roundtrip (V6 (replicate 16 255) 443) (replicate 12 9)); [|reflexivity].
  unfold addr_ok, is_u. split; [reflexivity|]. split; [apply is_bytes_check; reflexivity|lia].
Defined.

Lemma decode_xor_address_total value t : returns (decode_xor_address value t).
Proof. unfold decode_xor_address. no_panic. Qed.

(** ** Lemmas on the builder *)

(** The builder [b] holds the attributes [attrs]. *)
Definition built (b : MessageBuilder) (k : Z) (t : bytes) (attrs : list (Z * bytes)) : Prop :=
  exists l body, b_bytes b = to_be 2 k ++ to_be 2 l ++ to_be 4 MAGIC_COOKIE ++ t ++ body
    /\ b_transaction b = t /\ zlen t = 12 /\ tlv body attrs.

Lemma pad4_spec turns b :
  (- zlen b) mod 4 <= Z.of_nat turns ->
  exists pad, pad4 turns b = b ++ pad /\ zlen pad = (- zlen b) mod 4.
Proof.
  revert b. induction turns as [|turns IH]; intros b Hb; cbn [pad4];
    destruct (Z.eqb_spec (zlen b mod 4) 0) as [H0|H0].
  - exists []. rewrite app_nil_r, zlen_nil. split; [done|]. Z.to_euclidean_division_equations; lia.
  - Z.to_euclidean_division_equations; lia.
  - exists []. rewrite app_nil_r, zlen_nil. split; [done|]. Z.to_euclidean_division_equations; lia.
  - destruct (IH (b ++ [0])) as (pad & -> & Hpad).
    { rewrite zlen_app. change (zlen [0]) with 1. Z.to_euclidean_division_equations; lia. }
    exists ([0] ++ pad). rewrite app_assoc. split; [done|]. rewrite !zlen_app in *.
    change (zlen [0]) with 1 in *. Z.to_euclidean_division_equations; lia.
Qed.

#[global] Arguments pad4 : simpl never.

Lemma tlv_app body attrs body' attrs' : tlv body attrs -> tlv body' attrs' -> tlv (body ++ body') (attrs ++ attrs').
Proof.
  intros H H'. induction H as [|k v pad rest attrs Hk Hv Hp _ IH]; [done|].
  rewrite <- !app_assoc. simpl. by apply tlv_cons.
Qed.

Lemma locate_app body attrs attrs' pos :
  tlv body attrs -> locate pos (attrs ++ attrs') = locate pos attrs ++ locate (pos + zlen body) attrs'.
Proof.
  intros H. revert pos. induction H as [|k v pad rest attrs Hk Hv Hp _ IH]; intros pos.
  - simpl. by rewrite zlen_nil, Z.add_0_r.
  - cbn [app locate]. rewrite IH, !zlen_app, !zlen_to_be. do 3 f_equal. lia.
Qed.

Lemma built_start k t : zlen t = 12 -> built (with_transaction k t) k t [].
Proof.
  intros Ht. exists 0, []. unfold with_transaction. rewrite app_nil_r.
  conjs; try done. constructor.
Qed.

(** One attribute with its padding. *)
Lemma attribute_bytes b kind value :
  is_u 16 (zlen value) -> zlen (b_bytes b) mod 4 = 0 ->
  exists pad, b_bytes (b_attribute b kind value)
      = b_bytes b ++ to_be 2 kind ++ to_be 2 (zlen value) ++ value ++ pad
    /\ zlen value + zlen pad = padded (zlen value).
Proof.
  intros Hv Hb. unfold b_attribute. cbn [b_bytes]. rewrite wrap_small by done.
  destruct (pad4_spec 3 (b_bytes b ++ to_be 2 kind ++ to_be 2 (zlen value) ++ value)) as (pad & -> & Hp).
  { pose proof (Z.mod_pos_bound (- zlen (b_bytes b ++ to_be 2 kind ++ to_be 2 (zlen value) ++ value)) 4). lia. }
  exists pad. split; [by rewrite <- !app_assoc|]. rewrite padded_spec.
  rewrite !zlen_app, !zlen_to_be in Hp. Z.to_euclidean_division_equations; lia.
Qed.

Lemma built_mod b k t attrs : built b k t attrs -> zlen (b_bytes b) mod 4 = 0.
Proof.
  intros (l & body & -> & _ & Ht & Htlv%zlen_tlv). rewrite !zlen_app, !zlen_to_be, Ht.
  Z.to_euclidean_division_equations; lia.
Qed.

Lemma built_attribute b k t attrs kind value :
  built b k t attrs -> is_u 16 kind -> is_u 16 (zlen value) ->
  built (b_attribute b kind value) k t (attrs ++ [(kind, value)]).
Proof.
  intros Hbt Hk Hv. pose proof (built_mod _ _ _ _ Hbt) as Hmod.
  destruct (attribute_bytes b kind value Hv Hmod) as (pad & Eb & Hp).
  destruct Hbt as (l & body & Hb & Htr & Ht & Htlv).
  exists l, (body ++ to_be 2 kind ++ to_be 2 (zlen value) ++ value ++ pad ++ []).
  rewrite Eb, Hb, app_nil_r, <- !app_assoc. conjs; try done.
  apply tlv_app; [done|]. rewrite <- (app_nil_r pad). apply tlv_cons; try done. constructor.
Qed.

(** The wire type as the iterator reports it. *)
Definition norm_kind (k : Z) : Z := if k =? 0x8020 then 0x0020 else k.

Definition lacks (target : Z) (attrs : list (Z * bytes)) : Prop :=
  Forall (fun a => norm_kind (fst a) <> target) attrs.

Lemma find_locate target pos attrs l :
  lacks target attrs ->
  List.find (fun a => kind a =? target) (locate pos attrs ++ l) = List.find (fun a => kind a =? target) l.
Proof.
  intros H. revert pos. induction H as [|[k v] attrs Hk _ IH]; intros pos; [done|].
  cbn [locate app List.find kind]. fold (norm_kind k). destruct (Z.eqb_spec (norm_kind k) target); [done|apply IH].
Qed.

(** The first attribute of a kind, in a message whose body is split around it. *)
Lemma attribute_at raw k t attrs1 body1 target v attrs2 :
  well_formed raw k t (attrs1 ++ (target, v) :: attrs2) -> tlv body1 attrs1 ->
  lacks target attrs1 -> norm_kind target = target ->
  attribute (mkMessage raw k t (zlen raw)) target
  = Ret (Some (mkAttribute target v (20 + zlen body1) (20 + zlen body1 + 4) (20 + zlen body1 + 4 + zlen v))).
Proof.
  intros Hwf Htlv Hl Hn. rewrite (attribute_spec _ _ _ _ _ Hwf), (locate_app body1 _ _ _ Htlv), find_locate by done.
  cbn [locate List.find kind]. fold (norm_kind target). by rewrite Hn, Z.eqb_refl.
Qed.

(** A message under construction, with length field [l]. *)
Definition draft (k l : Z) (t body : bytes) : bytes :=
  to_be 2 k ++ to_be 2 l ++ to_be 4 MAGIC_COOKIE ++ t ++ body.

Lemma zlen_draft k l t body : zlen t = 12 -> zlen (draft k l t body) = 20 + zlen body.
Proof. intros Ht. unfold draft. rewrite !zlen_app, !zlen_to_be, Ht. lia. Qed.

Lemma blit_length_field k l l' t body : blit (draft k l t body) 2 (to_be 2 l') = Ret (draft k l' t body).
Proof. unfold draft. apply blit_app; by rewrite ?zlen_to_be. Qed.

Lemma set_length_spec k l t body trailing :
  zlen t = 12 ->
  set_message_length (draft k l t body) trailing
  = if u16_max <? zlen body + trailing then Ret (Err MessageTooLarge)
    else Ret (Ok (draft k (zlen body + trailing) t body)).
Proof.
  intros Ht. unfold set_message_length. rewrite zlen_draft by done. pose proof (zlen_nonneg body).
  destruct (Z.ltb_spec (20 + zlen body) 20); [lia|].
  replace (20 + zlen body - 20 + trailing) with (zlen body + trailing) by lia.
  destruct (u16_max <? zlen body + trailing); [done|]. by rewrite blit_length_field.
Qed.

Section FinishFacts.
Context `{Digests}.

Definition fingerprint_of (k : Z) (t body : bytes) : bytes :=
  to_be 4 (Z.lxor (crc32 (draft k (zlen body + 8) t body)) FINGERPRINT_XOR).

Definition integrity_of (key : bytes) (k : Z) (t body : bytes) : bytes :=
  hmac_sha1 key (draft k (zlen body + 24) t body).

Definition one_attribute (kind : Z) (v : bytes) : bytes := to_be 2 kind ++ to_be 2 (zlen v) ++ v.

Lemma tlv_one kind v : is_u 16 kind -> is_u 16 (zlen v) -> zlen v mod 4 = 0 -> tlv (one_attribute kind v) [(kind, v)].
Proof.
  intros Hk Hv Hm. unfold one_attribute. rewrite <- (app_nil_r v) at 2.
  apply (tlv_cons kind v [] [] []); try done; [|constructor].
  rewrite padded_spec, zlen_nil. Z.to_euclidean_division_equations; lia.
Qed.

Lemma attribute_exact b kind v :
  is_u 16 (zlen v) -> zlen v mod 4 = 0 -> zlen (b_bytes b) mod 4 = 0 ->
  b_bytes (b_attribute b kind v) = b_bytes b ++ one_attribute kind v.
Proof.
  intros Hv Hm Hb. destruct (attribute_bytes b kind v Hv Hb) as (pad & -> & Hp).
  assert (zlen pad = 0) as Hz.
  { rewrite padded_spec in Hp. Z.to_euclidean_division_equations; lia. }
  destruct pad; [by rewrite app_nil_r|]. rewrite zlen_cons in Hz. pose proof (zlen_nonneg pad). lia.
Qed.

Lemma draft_mod k l t body attrs : zlen t = 12 -> tlv body attrs -> zlen (draft k l t body) mod 4 = 0.
Proof.
  intros Ht Htlv%zlen_tlv. rewrite zlen_draft by done. Z.to_euclidean_division_equations; lia.
Qed.

Lemma draft_app k l t body v : draft k l t body ++ v = draft k l t (body ++ v).
Proof. unfold draft. by rewrite <- !app_assoc. Qed.

Lemma finish_spec k l t body attrs tr :
  zlen t = 12 -> tlv body attrs ->
  finish (mkBuilder (draft k l t body) tr)
  = if u16_max <? zlen body + 8 then Ret (Err MessageTooLarge)
    else Ret (Ok (message_bytes k t (body ++ one_attribute ATTR_FINGERPRINT (fingerprint_of k t body)))).
Proof.
  intros Ht Htlv. unfold finish. cbn [b_bytes b_transaction]. rewrite set_length_spec by done.
  destruct (u16_max <? zlen body + 8); [done|]. rbind. do 2 f_equal.
  rewrite attribute_exact; cbn [b_bytes]; rewrite ?zlen_to_be; try done; [|by eapply draft_mod].
  rewrite draft_app. unfold message_bytes, draft, fingerprint_of, one_attribute.
  rewrite !zlen_app, !zlen_to_be. done.
Qed.

Lemma finish_authenticated_spec k l t body attrs tr key :
  zlen t = 12 -> tlv body attrs ->
  let body' := body ++ one_attribute ATTR_MESSAGE_INTEGRITY (integrity_of key k t body) in
  finish_authenticated (mkBuilder (draft k l t body) tr) key
  = if u16_max <? zlen body + 32 then Ret (Err MessageTooLarge)
    else Ret (Ok (message_bytes k t (body' ++ one_attribute ATTR_FINGERPRINT (fingerprint_of k t body')))).
Proof.
  intros Ht Htlv body'. unfold finish_authenticated. cbn [b_bytes b_transaction].
  rewrite set_length_spec by done. unfold u16_max.
  destruct (Z.ltb_spec (2 ^ 16 - 1) (zlen body + 24)) as [Hbig|Hfit].
  { destruct (Z.ltb_spec (2 ^ 16 - 1) (zlen body + 32)); [done|lia]. }
  rbind. set (mac := hmac_sha1 key _). change mac with (integrity_of key k t body).
  assert (zlen (integrity_of key k t body) = 20) as Hmac by apply hmac_sha1_length.
  assert (exists tr', b_attribute (mkBuilder (draft k (zlen body + 24) t body) tr) ATTR_MESSAGE_INTEGRITY
     (integrity_of key k t body) = mkBuilder (draft k (zlen body + 24) t body') tr') as [tr' ->].
  { exists tr. unfold body'. rewrite <- draft_app, <- attribute_exact with (b := mkBuilder (draft k (zlen body + 24) t body) tr);
      cbn [b_bytes]; rewrite ?Hmac; try done. by eapply draft_mod. }
  assert (tlv body' (attrs ++ [(ATTR_MESSAGE_INTEGRITY, integrity_of key k t body)])) as Htlv'.
  { apply tlv_app; [done|]. apply tlv_one; rewrite ?Hmac; done. }
  rewrite (finish_spec _ _ _ _ _ _ Ht Htlv'). unfold u16_max, body'.
  rewrite zlen_app. unfold one_attribute at 1. rewrite !zlen_app, !zlen_to_be, Hmac.
  replace (zlen body + (Z.of_nat 2 + (Z.of_nat 2 + 20)) + 8) with (zlen body + 32) by lia. done.
Qed.

Lemma zlen_fingerprint k t body : zlen (fingerprint_of k t body) = 4.
Proof. apply zlen_to_be. Qed.

Lemma zlen_one kind v : zlen (one_attribute kind v) = 4 + zlen v.
Proof. unfold one_attribute. rewrite !zlen_app, !zlen_to_be. lia. Qed.

(** A finished message carries its attributes and a valid fingerprint. *)
Lemma finished_valid k t body attrs :
  0 < k < 0x4000 -> zlen t = 12 -> tlv body attrs -> zlen body + 8 <= u16_max ->
  lacks ATTR_FINGERPRINT attrs ->
  let packet := message_bytes k t (body ++ one_attribute ATTR_FINGERPRINT (fingerprint_of k t body)) in
  well_formed packet k t (attrs ++ [(ATTR_FINGERPRINT, fingerprint_of k t body)])
  /\ fingerprint_valid (mkMessage packet k t (zlen packet)) = Ret (Some true).
Proof.
  intros Hk Ht Htlv Hsz Hl packet.
  assert (well_formed packet k t (attrs ++ [(ATTR_FINGERPRINT, fingerprint_of k t body)])) as Hwf.
  { eexists. split; [reflexivity|]. split; [done|]. split; [done|]. split.
    - rewrite zlen_app, zlen_one, zlen_fingerprint. unfold u16_max in Hsz. lia.
    - apply tlv_app; [done|]. apply tlv_one; by rewrite ?zlen_fingerprint. }
  split; [done|]. unfold fingerprint_valid.
  rewrite (attribute_at _ _ _ _ _ _ _ _ Hwf Htlv Hl eq_refl). rbind.
  cbn [value header_start m_end StunCodec.raw]. rewrite zlen_fingerprint. cbn [negb Z.eqb orb].
  assert (zlen packet = 20 + zlen body + 8) as ->.
  { unfold packet. rewrite zlen_message, zlen_app, zlen_one, zlen_fingerprint by done. lia. }
  rewrite Z.eqb_refl. cbn [negb]. change (4 =? 4) with true. cbn [negb orb].
  assert (packet = draft k (zlen body + 8) t body ++ one_attribute ATTR_FINGERPRINT (fingerprint_of k t body)) as ->.
  { unfold packet, message_bytes, draft. rewrite zlen_app, zlen_one, zlen_fingerprint, <- !app_assoc. done. }
  rewrite slice_app_head by (rewrite zlen_draft by done; done). rbind. do 2 f_equal.
  apply Z.eqb_eq. unfold fingerprint_of. apply of_be_to_be_small.
  apply (lxor_is_u 32); [lia|apply crc32_width|unfold is_u; vm_compute; by split].
Qed.

(** An authenticated message passes the integrity check with its own key. *)
Lemma authenticated_valid k t body attrs key :
  0 < k < 0x4000 -> zlen t = 12 -> tlv body attrs -> zlen body + 32 <= u16_max ->
  lacks ATTR_MESSAGE_INTEGRITY attrs -> lacks ATTR_FINGERPRINT attrs ->
  let mac := integrity_of key k t body in
  let body' := body ++ one_attribute ATTR_MESSAGE_INTEGRITY mac in
  let packet := message_bytes k t (body' ++ one_attribute ATTR_FINGERPRINT (fingerprint_of k t body')) in
  let m := mkMessage packet k t (zlen packet) in
  well_formed packet k t (attrs ++ [(ATTR_MESSAGE_INTEGRITY, mac); (ATTR_FINGERPRINT, fingerprint_of k t body')])
  /\ fingerprint_valid m = Ret (Some true) /\ verify_integrity packet m (Some key) = Ret true.
Proof.
  intros Hk Ht Htlv Hsz Hlm Hlf mac body' packet m.
  assert (zlen mac = 20) as Hmac by apply hmac_sha1_length.
  assert (tlv body' (attrs ++ [(ATTR_MESSAGE_INTEGRITY, mac)])) as Htlv'.
  { apply tlv_app; [done|]. apply tlv_one; rewrite ?Hmac; done. }
  destruct (finished_valid k t body' (attrs ++ [(ATTR_MESSAGE_INTEGRITY, mac)])) as [Hwf Hfp]; try done.
  { unfold body'. rewrite zlen_app, zlen_one, Hmac. lia. }
  { apply Forall_app. split; [done|]. by apply Forall_singleton. }
  rewrite <- app_assoc in Hwf. split; [exact Hwf|]. split; [done|]. unfold verify_integrity.
  unfold m, packet. rewrite (attribute_at _ _ _ _ _ _ _ _ Hwf Htlv Hlm eq_refl). rbind.
  cbn [value header_start]. rewrite Hmac. pose proof (zlen_nonneg body).
  destruct (Z.ltb_spec (20 + zlen body) 20); [lia|]. change (20 =? 20) with true. cbn [negb orb].
  assert (exists l rest, packet = draft k l t body ++ rest) as (l & rest & Hp).
  { eexists _, _. unfold packet, body', message_bytes. rewrite <- (app_assoc body).
    rewrite draft_app. unfold draft. reflexivity. }
  fold packet. rewrite Hp, slice_app_head by (rewrite zlen_draft by done; done). rbind.
  destruct (Z.ltb_spec u16_max (20 + zlen body + 24 - 20)); [unfold u16_max in *; lia|].
  rewrite blit_length_field. rbind. f_equal. apply bytes_eqb_eq.
  unfold mac, integrity_of. do 2 f_equal. lia.
Qed.
End FinishFacts.

(** ** Checking a decoded message does not panic *)

Section Total.
Context `{Digests}.

Lemma error_code_total raw m : message_of raw m -> returns (error_code m).
Proof.
  intros Hm. unfold error_code. destruct (attribute_total raw m ATTR_ERROR_CODE Hm) as (r & -> & _).
  rbind. no_panic.
Qed.

Lemma attribute_u32_total raw m kind : message_of raw m -> returns (attribute_u32 m kind).
Proof.
  intros Hm. unfold attribute_u32. destruct (attribute_total raw m kind Hm) as (r & -> & _).
  rbind. no_panic.
Qed.

Lemma response_requires_integrity_total raw m : message_of raw m -> returns (response_requires_integrity m).
Proof.
  intros Hm. unfold response_requires_integrity. destruct (error_code_total raw m Hm) as [c Hc].
  destruct (class m); rewrite ?Hc; apply returns_ret.
Qed.

Lemma mismatch_total raw m : message_of raw m -> returns (is_fingerprinted_allocation_mismatch m).
Proof.
  intros Hm. unfold is_fingerprinted_allocation_mismatch. destruct (error_code_total raw m Hm) as [c ->].
  destruct (fingerprint_valid_total raw m Hm) as [f ->]. rbind. no_panic.
Qed.

Lemma verify_integrity_total raw m key : message_of raw m -> returns (verify_integrity raw m key).
Proof.
  intros Hm. unfold verify_integrity. destruct (attribute_total raw m ATTR_MESSAGE_INTEGRITY Hm) as (r & -> & Hr).
  rbind. destruct key as [key|], r as [a|]; try apply returns_ret.
  destruct (Hr a eq_refl) as (Hs & He & _). pose proof (zlen_nonneg (value a)).
  destruct (negb (zlen (value a) =? 20) || (header_start a <? 20)); [apply returns_ret|].
  apply returns_bind; [apply returns_slice; lia|]. intros signed Hl%slice_length.
  destruct (u16_max <? header_start a + 24 - 20); [apply returns_ret|].
  destruct (split_at_z signed 2) as (x & rest & -> & Hx); [lia|]. rewrite zlen_app in Hl.
  rewrite blit_tail by (rewrite ?zlen_to_be; lia). apply returns_ret.
Qed.
End Total.
