(* ===== verification/TurnCore.v ===== *)
(** * TurnCore: the sans-IO TURN client

    Models [NativeCore] of [turn_core.rs]: the client's state, its requests and
    their retransmission, the handling of responses, the timers that [poll]
    serves, and shutdown. Every method takes the core's mutex for its whole
    body, so that a method is one atomic step on [Inner]. *)

From S2P Require Import Prelude Bytes Digests StunCodec TurnMessage.

(** Durations and instants are nanoseconds. *)
Definition millis (n : Z) : Z := n * 1000000.
Definition secs (n : Z) : Z := n * 1000000000.

Definition RESULT_EMPTY : Z := -1.
Definition RESULT_BUFFER_TOO_SMALL : Z := -2.
Definition RESULT_INVALID_ARGUMENT : Z := -3.
Definition RESULT_CLOSED : Z := -4.
Definition RESULT_NOT_CONTROL : Z := -5.
Definition RESULT_TIMEOUT : Z := -6.
Definition RESULT_AUTHENTICATION : Z := -7.
Definition RESULT_PROTOCOL : Z := -8.

Definition EVENT_STATE : Z := 1.
Definition EVENT_REQUEST_COMPLETE : Z := 2.
Definition EVENT_CHANNEL_BOUND : Z := 3.
Definition EVENT_RELAY_ADDRESS : Z := 4.
Definition EVENT_CONTROL_OVERFLOW : Z := 5.
Definition EVENT_FORCED_DESTROY : Z := 7.
Definition EVENT_EVENT_OVERFLOW : Z := 8.
Definition EVENT_STUN_RESPONSE_ERROR : Z := 9.
Definition EVENT_CHANNEL_REBIND_EXHAUSTED : Z := 10.

Definition METHOD_ALLOCATE : Z := 3.
Definition METHOD_REFRESH : Z := 4.
Definition METHOD_CREATE_PERMISSION : Z := 8.
Definition METHOD_CHANNEL_BIND : Z := 9.

Definition STATE_NULL : Z := 0.
Definition STATE_ALLOCATING : Z := 3.
Definition STATE_READY : Z := 4.
Definition STATE_DEALLOCATING : Z := 5.
Definition STATE_DEALLOCATED : Z := 6.
Definition STATE_DESTROYING : Z := 7.

Definition AF_IPV4 : Z := 4.
Definition AF_IPV6 : Z := 6.

Definition CONTROL_CAPACITY : Z := 16.
Definition EVENT_CAPACITY : Z := 64.
Definition INITIAL_RTO : Z := millis 200.
Definition MAX_RTO : Z := millis 1600.
Definition MAX_TRANSMISSIONS : Z := 7.
Definition STREAM_TRANSACTION_TIMEOUT : Z := secs 12.
Definition REQUESTED_ALLOCATION_LIFETIME_SECS : Z := 600.
Definition ALLOCATION_REFRESH : Z := secs 300.
Definition MAINTENANCE_REFRESH : Z := secs 175.
Definition KEEPALIVE_INTERVAL : Z := secs 10.
Definition MAINTENANCE_RETRY_BASE : Z := secs 1.
Definition MAINTENANCE_RETRY_MAX : Z := secs 30.
Definition MAX_CHANNEL_MAINTENANCE_FAILURES : Z := 4.
Definition MAX_NONCE_RETRIES : Z := 3.
Definition CHANNEL_NUMBER : Z := 0x4000.

Inductive TurnControlTransport : Type := Datagram | Stream.

Record CsqttTurnProfile : Type := mkProfile {
  pr_allocation_refresh : Z;
  pr_maintenance_refresh : Z;
  pr_keepalive_interval : Z;
  pr_max_nonce_retries : Z;
}.

Definition PJNATH_COMPAT : CsqttTurnProfile :=
  mkProfile ALLOCATION_REFRESH MAINTENANCE_REFRESH KEEPALIVE_INTERVAL MAX_NONCE_RETRIES.

(** [reserved] is always zero. *)
Record NativeAddress : Type := mkNativeAddress {
  family : Z;
  na_port : Z;
  na_ip : bytes;
}.

Definition default_address : NativeAddress := mkNativeAddress 0 0 (replicate 16 0).

Definition from_socket_addr (a : SocketAddr) : NativeAddress :=
  match a with
  | V4 ip p => mkNativeAddress AF_IPV4 p (ip ++ replicate 12 0)
  | V6 ip p => mkNativeAddress AF_IPV6 p ip
  end.

Definition to_socket_addr (a : NativeAddress) : option SocketAddr :=
  if family a =? AF_IPV4 then Some (V4 (take 4 (na_ip a)) (na_port a))
  else if family a =? AF_IPV6 then Some (V6 (na_ip a) (na_port a))
  else None.

Record NativeEvent : Type := mkEvent {
  ev_kind : Z;
  ev_method : Z;
  ev_status : Z;
  ev_stun_code : Z;
  ev_state : Z;
  ev_previous_state : Z;
  ev_dropped : Z;
  ev_channel : Z;
  ev_address : NativeAddress;
}.

Inductive Operation : Type := Allocate | Refresh | Deallocate | Permission | Channel.

#[export] Instance operation_eq_dec : EqDecision Operation.
Proof. solve_decision. Defined.

Definition op_method (o : Operation) : Z :=
  match o with
  | Allocate => METHOD_ALLOCATE
  | Refresh | Deallocate => METHOD_REFRESH
  | Permission => METHOD_CREATE_PERMISSION
  | Channel => METHOD_CHANNEL_BIND
  end.

Record Pending : Type := mkPending {
  p_operation : Operation;
  p_transaction : bytes;
  p_packet : bytes;
  next_attempt : Z;
  rto : Z;
  transmissions : Z;
  nonce_retries : Z;
  authenticated : bool;
}.

Record Control : Type := mkControl {
  c_packet : bytes;
  destination : SocketAddr;
}.

Record Inner : Type := mkInner {
  server : SocketAddr;
  peer : SocketAddr;
  username : bytes;
  password : bytes;
  realm : option bytes;
  nonce : option bytes;
  key : option bytes;
  state : Z;
  relay : option SocketAddr;
  channel : option Z;
  controls : list Control;
  events : list NativeEvent;
  pending : list Pending;
  allocation_refresh : option Z;
  allocation_expires_at : option Z;
  maintenance_refresh : option Z;
  permission_retry : option Z;
  channel_retry : option Z;
  refresh_failures : Z;
  permission_failures : Z;
  channel_failures : Z;
  keepalive : option Z;
  shutting_down : bool;
  destroyed : bool;
  profile : CsqttTurnProfile;
  transport : TurnControlTransport;
}.

(** Field assignment, [self.f = x]. *)
Definition set_realm (x : option bytes) (s : Inner) : Inner :=
  mkInner (server s) (peer s) (username s) (password s) x (nonce s) (key s) (state s) (relay s)
  (channel s) (controls s) (events s) (pending s) (allocation_refresh s) (allocation_expires_at s)
  (maintenance_refresh s) (permission_retry s) (channel_retry s) (refresh_failures s)
  (permission_failures s) (channel_failures s) (keepalive s) (shutting_down s) (destroyed s)
  (profile s) (transport s).
Definition set_nonce (x : option bytes) (s : Inner) : Inner :=
  mkInner (server s) (peer s) (username s) (password s) (realm s) x (key s) (state s) (relay s)
  (channel s) (controls s) (events s) (pending s) (allocation_refresh s) (allocation_expires_at s)
  (maintenance_refresh s) (permission_retry s) (channel_retry s) (refresh_failures s)
  (permission_failures s) (channel_failures s) (keepalive s) (shutting_down s) (destroyed s)
  (profile s) (transport s).
Definition set_key (x : option bytes) (s : Inner) : Inner :=
  mkInner (server s) (peer s) (username s) (password s) (realm s) (nonce s) x (state s) (relay s)
  (channel s) (controls s) (events s) (pending s) (allocation_refresh s) (allocation_expires_at s)
  (maintenance_refresh s) (permission_retry s) (channel_retry s) (refresh_failures s)
  (permission_failures s) (channel_failures s) (keepalive s) (shutting_down s) (destroyed s)
  (profile s) (transport s).
Definition put_state (x : Z) (s : Inner) : Inner :=
  mkInner (server s) (peer s) (username s) (password s) (realm s) (nonce s) (key s) x (relay s)
  (channel s) (controls s) (events s) (pending s) (allocation_refresh s) (allocation_expires_at s)
  (maintenance_refresh s) (permission_retry s) (channel_retry s) (refresh_failures s)
  (permission_failures s) (channel_failures s) (keepalive s) (shutting_down s) (destroyed s)
  (profile s) (transport s).
Definition set_relay (x : option SocketAddr) (s : Inner) : Inner :=
  mkInner (server s) (peer s) (username s) (password s) (realm s) (nonce s) (key s) (state s) x
  (channel s) (controls s) (events s) (pending s) (allocation_refresh s) (allocation_expires_at s)
  (maintenance_refresh s) (permission_retry s) (channel_retry s) (refresh_failures s)
  (permission_failures s) (channel_failures s) (keepalive s) (shutting_down s) (destroyed s)
  (profile s) (transport s).
Definition set_channel (x : option Z) (s : Inner) : Inner :=
  mkInner (server s) (peer s) (username s) (password s) (realm s) (nonce s) (key s) (state s)
  (relay s) x (controls s) (events s) (pending s) (allocation_refresh s) (allocation_expires_at s)
  (maintenance_refresh s) (permission_retry s) (channel_retry s) (refresh_failures s)
  (permission_failures s) (channel_failures s) (keepalive s) (shutting_down s) (destroyed s)
  (profile s) (transport s).
Definition set_controls (x : list Control) (s : Inner) : Inner :=
  mkInner (server s) (peer s) (username s) (password s) (realm s) (nonce s) (key s) (state s)
  (relay s) (channel s) x (events s) (pending s) (allocation_refresh s) (allocation_expires_at s)
  (maintenance_refresh s) (permission_retry s) (channel_retry s) (refresh_failures s)
  (permission_failures s) (channel_failures s) (keepalive s) (shutting_down s) (destroyed s)
  (profile s) (transport s).
Definition set_events (x : list NativeEvent) (s : Inner) : Inner :=
  mkInner (server s) (peer s) (username s) (password s) (realm s) (nonce s) (key s) (state s)
  (relay s) (channel s) (controls s) x (pending s) (allocation_refresh s) (allocation_expires_at
  s) (maintenance_refresh s) (permission_retry s) (channel_retry s) (refresh_failures s)
  (permission_failures s) (channel_failures s) (keepalive s) (shutting_down s) (destroyed s)
  (profile s) (transport s).
Definition set_pending (x : list Pending) (s : Inner) : Inner :=
  mkInner (server s) (peer s) (username s) (password s) (realm s) (nonce s) (key s) (state s)
  (relay s) (channel s) (controls s) (events s) x (allocation_refresh s) (allocation_expires_at s)
  (maintenance_refresh s) (permission_retry s) (channel_retry s) (refresh_failures s)
  (permission_failures s) (channel_failures s) (keepalive s) (shutting_down s) (destroyed s)
  (profile s) (transport s).
Definition set_allocation_refresh (x : option Z) (s : Inner) : Inner :=
  mkInner (server s) (peer s) (username s) (password s) (realm s) (nonce s) (key s) (state s)
  (relay s) (channel s) (controls s) (events s) (pending s) x (allocation_expires_at s)
  (maintenance_refresh s) (permission_retry s) (channel_retry s) (refresh_failures s)
  (permission_failures s) (channel_failures s) (keepalive s) (shutting_down s) (destroyed s)
  (profile s) (transport s).
Definition set_allocation_expires_at (x : option Z) (s : Inner) : Inner :=
  mkInner (server s) (peer s) (username s) (password s) (realm s) (nonce s) (key s) (state s)
  (relay s) (channel s) (controls s) (events s) (pending s) (allocation_refresh s) x
  (maintenance_refresh s) (permission_retry s) (channel_retry s) (refresh_failures s)
  (permission_failures s) (channel_failures s) (keepalive s) (shutting_down s) (destroyed s)
  (profile s) (transport s).
Definition set_maintenance_refresh (x : option Z) (s : Inner) : Inner :=
  mkInner (server s) (peer s) (username s) (password s) (realm s) (nonce s) (key s) (state s)
  (relay s) (channel s) (controls s) (events s) (pending s) (allocation_refresh s)
  (allocation_expires_at s) x (permission_retry s) (channel_retry s) (refresh_failures s)
  (permission_failures s) (channel_failures s) (keepalive s) (shutting_down s) (destroyed s)
  (profile s) (transport s).
Definition set_permission_retry (x : option Z) (s : Inner) : Inner :=
  mkInner (server s) (peer s) (username s) (password s) (realm s) (nonce s) (key s) (state s)
  (relay s) (channel s) (controls s) (events s) (pending s) (allocation_refresh s)
  (allocation_expires_at s) (maintenance_refresh s) x (channel_retry s) (refresh_failures s)
  (permission_failures s) (channel_failures s) (keepalive s) (shutting_down s) (destroyed s)
  (profile s) (transport s).
Definition set_channel_retry (x : option Z) (s : Inner) : Inner :=
  mkInner (server s) (peer s) (username s) (password s) (realm s) (nonce s) (key s) (state s)
  (relay s) (channel s) (controls s) (events s) (pending s) (allocation_refresh s)
  (allocation_expires_at s) (maintenance_refresh s) (permission_retry s) x (refresh_failures s)
  (permission_failures s) (channel_failures s) (keepalive s) (shutting_down s) (destroyed s)
  (profile s) (transport s).
Definition set_refresh_failures (x : Z) (s : Inner) : Inner :=
  mkInner (server s) (peer s) (username s) (password s) (realm s) (nonce s) (key s) (state s)
  (relay s) (channel s) (controls s) (events s) (pending s) (allocation_refresh s)
  (allocation_expires_at s) (maintenance_refresh s) (permission_retry s) (channel_retry s) x
  (permission_failures s) (channel_failures s) (keepalive s) (shutting_down s) (destroyed s)
  (profile s) (transport s).
Definition set_permission_failures (x : Z) (s : Inner) : Inner :=
  mkInner (server s) (peer s) (username s) (password s) (realm s) (nonce s) (key s) (state s)
  (relay s) (channel s) (controls s) (events s) (pending s) (allocation_refresh s)
  (allocation_expires_at s) (maintenance_refresh s) (permission_retry s) (channel_retry s)
  (refresh_failures s) x (channel_failures s) (keepalive s) (shutting_down s) (destroyed s)
  (profile s) (transport s).
Definition set_channel_failures (x : Z) (s : Inner) : Inner :=
  mkInner (server s) (peer s) (username s) (password s) (realm s) (nonce s) (key s) (state s)
  (relay s) (channel s) (controls s) (events s) (pending s) (allocation_refresh s)
  (allocation_expires_at s) (maintenance_refresh s) (permission_retry s) (channel_retry s)
  (refresh_failures s) (permission_failures s) x (keepalive s) (shutting_down s) (destroyed s)
  (profile s) (transport s).
Definition set_keepalive (x : option Z) (s : Inner) : Inner :=
  mkInner (server s) (peer s) (username s) (password s) (realm s) (nonce s) (key s) (state s)
  (relay s) (channel s) (controls s) (events s) (pending s) (allocation_refresh s)
  (allocation_expires_at s) (maintenance_refresh s) (permission_retry s) (channel_retry s)
  (refresh_failures s) (permission_failures s) (channel_failures s) x (shutting_down s) (destroyed
  s) (profile s) (transport s).
Definition set_shutting_down (x : bool) (s : Inner) : Inner :=
  mkInner (server s) (peer s) (username s) (password s) (realm s) (nonce s) (key s) (state s)
  (relay s) (channel s) (controls s) (events s) (pending s) (allocation_refresh s)
  (allocation_expires_at s) (maintenance_refresh s) (permission_retry s) (channel_retry s)
  (refresh_failures s) (permission_failures s) (channel_failures s) (keepalive s) x (destroyed s)
  (profile s) (transport s).
Definition set_destroyed (x : bool) (s : Inner) : Inner :=
  mkInner (server s) (peer s) (username s) (password s) (realm s) (nonce s) (key s) (state s)
  (relay s) (channel s) (controls s) (events s) (pending s) (allocation_refresh s)
  (allocation_expires_at s) (maintenance_refresh s) (permission_retry s) (channel_retry s)
  (refresh_failures s) (permission_failures s) (channel_failures s) (keepalive s) (shutting_down
  s) x (profile s) (transport s).

(** What a call reads from outside: the instant taken at its start, the
    instant and the random transaction taken when it starts an operation. *)
Record Env : Type := mkEnv {
  now : Z;
  op_now : Operation -> Z;
  op_random : Operation -> bytes;
}.

Section Core.
Context `{Digests}.

(** ** Creation *)

Definition create (server_ : SocketAddr) (username_ password_ : bytes) (peer_ : SocketAddr)
  (profile_ : CsqttTurnProfile) (transport_ : TurnControlTransport) : result Inner TurnError :=
  if (addr_port server_ =? 0) || (addr_port peer_ =? 0) then Err (NativeStatus RESULT_INVALID_ARGUMENT) else
  if (zlen username_ =? 0) || (512 <? zlen username_) || (zlen password_ =? 0) || (512 <? zlen password_)
  then Err (NativeStatus RESULT_INVALID_ARGUMENT) else
  Ok {| server := server_; peer := peer_; username := username_; password := password_;
        realm := None; nonce := None; key := None; state := STATE_NULL; relay := None; channel := None;
        controls := []; events := []; pending := [];
        allocation_refresh := None; allocation_expires_at := None; maintenance_refresh := None;
        permission_retry := None; channel_retry := None;
        refresh_failures := 0; permission_failures := 0; channel_failures := 0; keepalive := None;
        shutting_down := false; destroyed := false; profile := profile_; transport := transport_ |}.

(** ** Queues and events *)

Definition push_event (s : Inner) (e : NativeEvent) : Inner :=
  if zlen (events s) =? EVENT_CAPACITY
  then set_events (drop 1 (events s)
         ++ [mkEvent EVENT_EVENT_OVERFLOW 0 RESULT_BUFFER_TOO_SMALL 0 0 0 1 0 default_address]) s
  else set_events (events s ++ [e]) s.

Definition queue_packet (s : Inner) (packet : bytes) : Inner :=
  let s :=
    if zlen (controls s) =? CONTROL_CAPACITY
    then push_event (set_controls (drop 1 (controls s)) s)
           (mkEvent EVENT_CONTROL_OVERFLOW 0 RESULT_BUFFER_TOO_SMALL 0 0 0 1 0 default_address)
    else s in
  set_controls (controls s ++ [mkControl packet (server s)]) s.

Definition push_control (s : Inner) (packet : bytes) : Inner := queue_packet s packet.

Definition queue_keepalive (s : Inner) : Inner :=
  match channel s with
  | None => s
  | Some channel => queue_packet s (to_be 2 channel ++ to_be 2 1 ++ [0xff; 0; 0; 0])
  end.

Definition set_state (s : Inner) (st : Z) : Inner :=
  if state s =? st then s
  else push_event (put_state st s) (mkEvent EVENT_STATE 0 0 0 st (state s) 0 0 default_address).

Definition has_operation (s : Inner) (o : Operation) : bool :=
  existsb (fun p => bool_decide (p_operation p = o)) (pending s).

Definition remove_queued_transaction (s : Inner) (t : bytes) : Inner :=
  set_controls
    (filter (fun c => get_range (c_packet c) 8 20 <> Some t) (controls s)) s.

Definition set_auth (s : Inner) (realm_ nonce_ : bytes) : Inner :=
  set_nonce (Some nonce_) (set_realm (Some realm_)
    (set_key (Some (md5 (username s ++ [58] ++ realm_ ++ [58] ++ password s))) s)).

Definition require_open (s : Inner) : result unit TurnError :=
  if destroyed s || shutting_down s then Err (NativeStatus RESULT_CLOSED) else Ok tt.

Definition require_ready (s : Inner) : result unit TurnError :=
  match require_open s with
  | Err e => Err e
  | Ok _ => if negb (state s =? STATE_READY) then Err (NativeStatus RESULT_INVALID_ARGUMENT) else Ok tt
  end.

(** ** Requests *)

Definition build_request (s : Inner) (o : Operation) (t : bytes) (auth : bool)
  : res (result bytes TurnError) :=
  let b := with_transaction (op_method o) t in
  let b :=
    match o with
    | Allocate =>
        let b := b_attribute b ATTR_REQUESTED_TRANSPORT [17; 0; 0; 0] in
        let b := b_attribute b ATTR_REQUESTED_ADDRESS_FAMILY [if is_ipv4 (peer s) then 1 else 2; 0; 0; 0] in
        b_attribute b ATTR_LIFETIME (to_be 4 REQUESTED_ALLOCATION_LIFETIME_SECS)
    | Refresh => b_attribute b ATTR_LIFETIME (to_be 4 REQUESTED_ALLOCATION_LIFETIME_SECS)
    | Deallocate => b_attribute b ATTR_LIFETIME (to_be 4 0)
    | Permission => b_xor_address b ATTR_XOR_PEER_ADDRESS (peer s)
    | Channel =>
        b_xor_address (b_attribute b ATTR_CHANNEL_NUMBER [0x40; 0; 0; 0]) ATTR_XOR_PEER_ADDRESS (peer s)
    end in
  if auth then
    let b := b_attribute b ATTR_USERNAME (username s) in
    let b := b_attribute b ATTR_REALM (default [] (realm s)) in
    let b := b_attribute b ATTR_NONCE (default [] (nonce s)) in
    match key s with
    | None => Ret (Err KeyMissing)
    | Some key => finish_authenticated b key
    end
  else finish b.

Definition transaction_timeout (s : Inner) : Z :=
  match transport s with Datagram => INITIAL_RTO | Stream => STREAM_TRANSACTION_TIMEOUT end.

Definition start_operation (env : Env) (s : Inner) (o : Operation) (auth : bool) (retries : Z)
  : res (Inner * result unit TurnError) :=
  if has_operation s o then
    if bool_decide (o = Channel) then
      match List.find (fun p => bool_decide (p_operation p = o)) (pending s) with
      | Some p => Ret (queue_packet s (p_packet p), Ok tt)
      | None => Ret (s, Ok tt)
      end
    else Ret (s, Ok tt)
  else if auth && (bool_decide (realm s = None) || bool_decide (nonce s = None) || bool_decide (key s = None))
  then Ret (s, Err AuthIncomplete)
  else
    let t := op_random env o in
    packet ← build_request s o t auth;
    match packet with
    | Err e => Ret (s, Err e)
    | Ok packet =>
        let s := push_control s packet in
        Ret (set_pending (pending s ++
               [mkPending o t packet (op_now env o + transaction_timeout s) INITIAL_RTO 1 retries auth]) s,
             Ok tt)
    end.

Definition start_allocation (env : Env) (s : Inner) : res (Inner * result unit TurnError) :=
  match require_open s with
  | Err e => Ret (s, Err e)
  | Ok _ =>
      if negb (state s =? STATE_NULL) then Ret (s, Err (NativeStatus RESULT_INVALID_ARGUMENT))
      else start_operation env (set_state s STATE_ALLOCATING) Allocate false 0
  end.

Definition start_channel (env : Env) (s : Inner) : res (Inner * result unit TurnError) :=
  match require_ready s with
  | Err e => Ret (s, Err e)
  | Ok _ => start_operation env s Channel true 0
  end.

Definition start_permission (env : Env) (s : Inner) : res (Inner * result unit TurnError) :=
  match require_ready s with
  | Err e => Ret (s, Err e)
  | Ok _ => start_operation env s Permission true 0
  end.

(** ** Completion *)

Definition complete (s : Inner) (o : Operation) (status code : Z) : Inner :=
  push_event s
    (mkEvent EVENT_REQUEST_COMPLETE (op_method o) status code (state s) 0 0 (default 0 (channel s))
       (match relay s with Some a => from_socket_addr a | None => default_address end)).

Definition destroy_allocation (s : Inner) (o : Operation) (status code : Z) : Inner :=
  let s := complete s o status code in
  let s := set_controls [] s in
  let s := set_pending [] s in
  let s := set_channel None s in
  let s := set_allocation_refresh None s in
  let s := set_allocation_expires_at None s in
  let s := set_maintenance_refresh None s in
  let s := set_permission_retry None s in
  let s := set_channel_retry None s in
  let s := set_keepalive None s in
  let s := set_relay None s in
  if bool_decide (o = Deallocate) then set_state s STATE_DEALLOCATED else set_state s STATE_DESTROYING.

Definition destroy_after_channel_rebind_exhausted (s : Inner) : Inner :=
  let s := set_controls [] s in
  let s := set_pending [] s in
  let s := set_channel None s in
  let s := set_maintenance_refresh None s in
  let s := set_permission_retry None s in
  let s := set_channel_retry None s in
  let s := set_keepalive None s in
  let s := push_event s
    (mkEvent EVENT_CHANNEL_REBIND_EXHAUSTED 0 RESULT_TIMEOUT 0 STATE_DESTROYING 0 0 0 default_address) in
  set_state s STATE_DESTROYING.

(** The delay before the retry that follows the [failures]-th failure. *)
Definition retry_delay (failures : Z) : Z :=
  let shift := Z.min (saturating_sub failures 1) 5 in
  Z.min (MAINTENANCE_RETRY_BASE * Z.shiftl 1 shift) MAINTENANCE_RETRY_MAX.

Definition schedule_maintenance_retry (s : Inner) (o : Operation) (now : Z) : Inner * bool :=
  match o with
  | Refresh =>
      let s := set_refresh_failures (saturating_add 8 (refresh_failures s) 1) s in
      (set_allocation_refresh (Some (now + retry_delay (refresh_failures s))) s, true)
  | Permission =>
      let s := set_permission_failures (saturating_add 8 (permission_failures s) 1) s in
      (set_permission_retry (Some (now + retry_delay (permission_failures s))) s, true)
  | Channel =>
      let s := set_channel_failures (saturating_add 8 (channel_failures s) 1) s in
      if MAX_CHANNEL_MAINTENANCE_FAILURES <=? channel_failures s then (s, false)
      else (set_channel_retry (Some (now + retry_delay (channel_failures s))) s, true)
  | Allocate | Deallocate => (s, true)
  end.

Definition complete_failure (s : Inner) (o : Operation) (status code now : Z) : Inner :=
  if bool_decide (o ∈ [Refresh; Permission; Channel]) && (state s =? STATE_READY)
     && (match allocation_expires_at s with Some deadline => now <? deadline | None => false end)
  then
    let s := complete s o status code in
    let '(s, scheduled) := schedule_maintenance_retry s o now in
    if scheduled then s else destroy_after_channel_rebind_exhausted s
  else destroy_allocation s o status code.

(** ** Deadlines *)

Definition allocation_refresh_deadline (now : Z) (lifetime : option Z) (interval : Z) : Z :=
  let lifetime := secs (default REQUESTED_ALLOCATION_LIFETIME_SECS lifetime) in
  now + Z.max (Z.min interval (lifetime / 2)) (millis 500).

Definition keepalive_mix (relay : SocketAddr) : Z :=
  match relay with
  | V4 ip p => Z.lxor p (of_be ip)
  | V6 ip p => Z.lxor p (of_be (drop 8 ip))
  end.

(** The subtraction underflows when the interval is shorter than a millisecond. *)
Definition first_keepalive_deadline (now interval : Z) (relay : SocketAddr) : res Z :=
  let interval_ms := interval / millis 1 in
  let span_ms := Z.max (interval_ms / 5) 1 in
  if interval_ms <? span_ms then Panic else
  Ret (now + millis (interval_ms - span_ms + keepalive_mix relay mod (span_ms * 2 + 1))).

Definition requires_allocation_recreate (o : Operation) (code : Z) : bool :=
  (code =? 437) || (bool_decide (o = Channel) && (code =? 400)).

Definition next_deadline (s : Inner) : option Z :=
  let deadlines :=
    map next_attempt (pending s)
    ++ option_list (allocation_refresh s) ++ option_list (maintenance_refresh s)
    ++ option_list (permission_retry s) ++ option_list (channel_retry s) ++ option_list (keepalive s) in
  min_by_key id deadlines.

(** ** Responses *)

(** The part of the Allocate and Refresh branches that restarts the timers. *)
Definition renew_allocation (s : Inner) (returned_lifetime : option Z) (lifetime now : Z) : Inner :=
  let s := set_allocation_refresh
    (Some (allocation_refresh_deadline now returned_lifetime (pr_allocation_refresh (profile s)))) s in
  let s := set_allocation_expires_at (Some (now + secs lifetime)) s in
  set_refresh_failures 0 s.

(** The assignments of the Allocate branch. *)
Definition store_allocation (s : Inner) (relay : SocketAddr) (returned_lifetime : option Z)
  (lifetime keepalive now : Z) : Inner :=
  let s := set_relay (Some relay) s in
  let s := renew_allocation s returned_lifetime lifetime now in
  let s := set_maintenance_refresh (Some (now + pr_maintenance_refresh (profile s))) s in
  set_keepalive (Some keepalive) s.

(** The end of the Allocate branch. *)
Definition allocate_end (env : Env) (s : Inner) : res (Inner * result unit TurnError) :=
  if shutting_down s then start_operation env (set_state s STATE_DEALLOCATING) Deallocate true 0
  else Ret (complete (set_state s STATE_READY) Allocate 0 0, Ok tt).

Definition allocate_success (env : Env) (s : Inner) (message : Message)
  : res (Inner * result unit TurnError) :=
  a ← attribute message ATTR_XOR_RELAYED_ADDRESS;
  match a with
  | None => Ret (s, Err NoRelayedAddress)
  | Some a =>
      decoded ← decode_xor_address (value a) (transaction message);
      match decoded with
      | Err e => Ret (s, Err e)
      | Ok relay =>
          if negb (eqb (is_ipv4 relay) (is_ipv4 (peer s))) || (addr_port relay =? 0)
          then Ret (s, Err InvalidRelayedAddress) else
          returned_lifetime ← attribute_u32 message ATTR_LIFETIME;
          let lifetime := default REQUESTED_ALLOCATION_LIFETIME_SECS returned_lifetime in
          if lifetime =? 0 then Ret (s, Err AllocateLifetimeZero) else
          keepalive ← first_keepalive_deadline (now env) (pr_keepalive_interval (profile s)) relay;
          allocate_end env
            (push_event (store_allocation s relay returned_lifetime lifetime keepalive (now env))
               (mkEvent EVENT_RELAY_ADDRESS 0 0 0 0 0 0 0 (from_socket_addr relay)))
      end
  end.

Definition refresh_success (s : Inner) (message : Message) (now : Z) : res (Inner * result unit TurnError) :=
  returned_lifetime ← attribute_u32 message ATTR_LIFETIME;
  let lifetime := default REQUESTED_ALLOCATION_LIFETIME_SECS returned_lifetime in
  if lifetime =? 0 then Ret (s, Err RefreshLifetimeZero) else
  Ret (complete (renew_allocation s returned_lifetime lifetime now) Refresh 0 0, Ok tt).

Definition deallocate_success (s : Inner) (message : Message) : res (Inner * result unit TurnError) :=
  lifetime ← attribute_u32 message ATTR_LIFETIME;
  if negb (default 0 lifetime =? 0) then Ret (s, Err DeallocateLifetimeNotZero) else
  let s := set_relay None s in
  let s := set_allocation_refresh None s in
  let s := set_allocation_expires_at None s in
  let s := complete s Deallocate 0 0 in
  Ret (set_state s STATE_DEALLOCATED, Ok tt).

Definition complete_success (env : Env) (s : Inner) (o : Operation) (message : Message)
  : res (Inner * result unit TurnError) :=
  match o with
  | Allocate => allocate_success env s message
  | Refresh => refresh_success s message (now env)
  | Deallocate => deallocate_success s message
  | Permission => Ret (complete (set_permission_failures 0 s) Permission 0 0, Ok tt)
  | Channel =>
      let s := set_channel (Some CHANNEL_NUMBER) s in
      let s := set_channel_failures 0 s in
      let s := push_event s
        (mkEvent EVENT_CHANNEL_BOUND 0 0 0 0 0 0 CHANNEL_NUMBER (from_socket_addr (peer s))) in
      Ret (complete s Channel 0 0, Ok tt)
  end.

Definition response_error (method status code st : Z) : NativeEvent :=
  mkEvent EVENT_STUN_RESPONSE_ERROR method status code st 0 0 0 default_address.

(** The guard of [input_stun] that refuses a response without dropping the
    transaction it answers. *)
Definition refused (s : Inner) (packet : bytes) (message : Message) (authenticated : bool) : res bool :=
  if negb authenticated then Ret false else
  required ← response_requires_integrity message;
  if negb required then Ret false else
  verified ← verify_integrity packet message (key s);
  if (verified : bool) then Ret false else
  mismatch ← is_fingerprinted_allocation_mismatch message;
  Ret (negb mismatch).

(** The error branch of [input_stun], once the transaction has been dropped. *)
Definition input_error (env : Env) (s : Inner) (p : Pending) (message : Message) : res (Inner * Z) :=
  let method := StunCodec.method message in
  let o := p_operation p in
  error ← error_code message;
  let code := default 0 error in
  let st := state s in
  if code =? 0 then
    let s := push_event s (response_error method RESULT_PROTOCOL 0 st) in
    Ret (complete_failure s o RESULT_PROTOCOL 0 (now env), 0)
  else if requires_allocation_recreate o code then
    let s := push_event s (response_error method 0 code st) in
    Ret (destroy_allocation s o RESULT_PROTOCOL code, 0)
  else
    realm_attribute ← attribute message ATTR_REALM;
    let realm_ :=
      match realm_attribute with
      | Some a => Some (value a)
      | None => if code =? 438 then realm s else None
      end in
    nonce_attribute ← attribute message ATTR_NONCE;
    let surrender (s : Inner) :=
      let s := push_event s (response_error method 0 code st) in
      Ret (complete_failure s o RESULT_PROTOCOL code (now env), 0) in
    match realm_, nonce_attribute with
    | Some realm_, Some a =>
        if ((code =? 401) || (code =? 438)) && (nonce_retries p <? pr_max_nonce_retries (profile s)) then
          let s := set_auth s realm_ (value a) in
          started ← start_operation env s o true (nonce_retries p + 1);
          let '(s, r) := started in
          if is_ok r then Ret (s, 0) else surrender s
        else surrender s
    | _, _ => surrender s
    end.

(** What [input_stun] does with the transaction a response answers. *)
Definition input_pending (env : Env) (s : Inner) (packet : bytes) (message : Message) (index : nat) (p : Pending)
  : res (Inner * Z) :=
  let method := StunCodec.method message in
  refused ← refused s packet message (authenticated p);
  if (refused : bool) then
    code ← (if bool_decide (class message = Error) then error_code message else Ret None);
    match code with
    | Some code =>
        Ret (push_event s (response_error method RESULT_AUTHENTICATION code (state s)), RESULT_AUTHENTICATION)
    | None => Ret (s, RESULT_AUTHENTICATION)
    end
  else
    let s := set_pending (remove_at index (pending s)) s in
    let s := remove_queued_transaction s (transaction message) in
    if bool_decide (class message = Success) && negb (authenticated p) then
      Ret (complete_failure s (p_operation p) RESULT_AUTHENTICATION 0 (now env), RESULT_AUTHENTICATION)
    else if bool_decide (class message = Error) then input_error env s p message
    else
      completed ← complete_success env s (p_operation p) message;
      let '(s, r) := completed in
      if is_ok r then Ret (s, 0)
      else Ret (complete_failure s (p_operation p) RESULT_PROTOCOL 0 (now env), RESULT_PROTOCOL).

Definition input_stun (env : Env) (s : Inner) (packet : bytes) : res (Inner * Z) :=
  decoded ← decode packet;
  match decoded with
  | Err _ => Ret (s, RESULT_INVALID_ARGUMENT)
  | Ok message =>
      if negb (bool_decide (class message = Success) || bool_decide (class message = Error))
      then Ret (s, RESULT_NOT_CONTROL) else
      fingerprint ← fingerprint_valid message;
      if bool_decide (fingerprint = Some false) then Ret (s, RESULT_INVALID_ARGUMENT) else
      let answers p := bytes_eqb (p_transaction p) (transaction message)
                       && (op_method (p_operation p) =? StunCodec.method message) in
      match position answers (pending s) with
      | None => Ret (s, RESULT_NOT_CONTROL)
      | Some index =>
          match pending s !! index with
          | None => Panic
          | Some p => input_pending env s packet message index p
          end
      end
  end.

(** ** Timers *)

(** The loop of [expire_transactions]; every turn moves on or drops a
    transaction, so that a turn per transaction is enough. *)
Fixpoint expire_loop (turns : nat) (s : Inner) (now : Z) (index : nat) : res Inner :=
  match pending s !! index with
  | None => Ret s
  | Some p =>
      match turns with
      | O => Panic
      | S turns =>
          if now <? next_attempt p then expire_loop turns s now (S index)
          else if (MAX_TRANSMISSIONS <=? transmissions p)
                  || match transport s with Stream => true | Datagram => false end then
            let s := set_pending (remove_at index (pending s)) s in
            let s := remove_queued_transaction s (p_transaction p) in
            let s := complete_failure s (p_operation p) RESULT_TIMEOUT 0 now in
            expire_loop turns s now index
          else
            let s := queue_packet s (p_packet p) in
            let rto' := Z.min (rto p * 2) MAX_RTO in
            let p := mkPending (p_operation p) (p_transaction p) (p_packet p) (now + rto') rto'
                       (transmissions p + 1) (nonce_retries p) (authenticated p) in
            let s := set_pending (<[index := p]> (pending s)) s in
            expire_loop turns s now (S index)
      end
  end.

Definition expire_transactions (s : Inner) (now : Z) : res Inner :=
  expire_loop (length (pending s)) s now 0.

Definition due (deadline : option Z) (now : Z) : bool :=
  match deadline with Some deadline => deadline <=? now | None => false end.

(** [inner.start_operation(o, true, 0)?] in the middle of [poll]. *)
Definition try_start (env : Env) (s : Inner) (o : Operation) (k : Inner -> res (Inner * result (option Z) TurnError))
  : res (Inner * result (option Z) TurnError) :=
  started ← start_operation env s o true 0;
  let '(s, r) := started in
  match r with Err e => Ret (s, Err e) | Ok _ => k s end.

Definition poll_result (s : Inner) (now : Z) : res (Inner * result (option Z) TurnError) :=
  Ret (s, Ok ((fun deadline => Z.max (saturating_sub deadline now) (millis 1)) <$> next_deadline s)).

(** The steps of [poll] on a ready allocation, in their order. *)
Definition poll_keepalive (env : Env) (s : Inner) : res (Inner * result (option Z) TurnError) :=
  let s :=
    if due (keepalive s) (now env)
    then queue_keepalive (set_keepalive (Some (now env + pr_keepalive_interval (profile s))) s)
    else s in
  poll_result s (now env).

Definition poll_channel (env : Env) (s : Inner) (maintenance_due channel_retry_due : bool)
  : res (Inner * result (option Z) TurnError) :=
  if (maintenance_due || channel_retry_due) && negb (has_operation s Channel)
  then try_start env (set_channel_retry None s) Channel (poll_keepalive env)
  else poll_keepalive env s.

Definition poll_permission (env : Env) (s : Inner) (maintenance_due permission_retry_due channel_retry_due : bool)
  : res (Inner * result (option Z) TurnError) :=
  let s :=
    if maintenance_due
    then set_maintenance_refresh (Some (now env + pr_maintenance_refresh (profile s))) s else s in
  let k s := poll_channel env s maintenance_due channel_retry_due in
  if (maintenance_due || permission_retry_due) && negb (has_operation s Permission)
  then try_start env (set_permission_retry None s) Permission k
  else k s.

Definition poll_ready (env : Env) (s : Inner) : res (Inner * result (option Z) TurnError) :=
  let maintenance_due := due (maintenance_refresh s) (now env) in
  let permission_retry_due := due (permission_retry s) (now env) in
  let channel_retry_due := due (channel_retry s) (now env) in
  let k s := poll_permission env s maintenance_due permission_retry_due channel_retry_due in
  if due (allocation_refresh s) (now env) && negb (has_operation s Refresh)
  then try_start env (set_allocation_refresh None s) Refresh k
  else k s.

Definition poll (env : Env) (s : Inner) : res (Inner * result (option Z) TurnError) :=
  if destroyed s then Ret (s, Ok None) else
  s ← expire_transactions s (now env);
  let s :=
    if negb (shutting_down s) && (state s =? STATE_READY) && due (allocation_expires_at s) (now env)
    then destroy_allocation s Refresh RESULT_TIMEOUT 0 else s in
  if negb (shutting_down s) && (state s =? STATE_READY)
  then poll_ready env s
  else poll_result s (now env).

(** [expires.checked_sub(gap)]: an underflow is treated like a deadline in the past. *)
Definition resync_after_suspend (env : Env) (s : Inner) (gap : Z) : Inner * bool :=
  if destroyed s || shutting_down s || negb (state s =? STATE_READY) then (s, false) else
  let probe s :=
    set_keepalive (Some (now env)) (set_maintenance_refresh (Some (now env))
      (set_allocation_refresh (Some (now env)) s)) in
  match allocation_expires_at s with
  | None => (probe s, false)
  | Some expires =>
      if now env <? expires - gap
      then (probe (set_allocation_expires_at (Some (expires - gap)) s), false)
      else (destroy_allocation s Refresh RESULT_TIMEOUT 0, true)
  end.

(** ** Output and shutdown *)

(** [pull_control]; [capacity] is the length of the caller's buffer, 1024. *)
Definition pull_control (s : Inner) (capacity : Z) : Inner * result (option (bytes * SocketAddr)) TurnError :=
  match controls s with
  | [] => (s, Ok None)
  | c :: rest =>
      let s := set_controls rest s in
      if capacity <? zlen (c_packet c) then (s, Err (NativeStatus RESULT_BUFFER_TOO_SMALL))
      else (s, Ok (Some (c_packet c, destination c)))
  end.

Definition pull_event (s : Inner) : Inner * option NativeEvent :=
  match events s with
  | [] => (s, None)
  | e :: rest => (set_events rest s, Some e)
  end.

Definition relay_address (s : Inner) : option SocketAddr := relay s.

(** The assignments at the start of [graceful_shutdown]. *)
Definition stop_activity (s : Inner) : Inner :=
  let s := set_shutting_down true s in
  let s := set_channel None s in
  let s := set_maintenance_refresh None s in
  let s := set_permission_retry None s in
  let s := set_channel_retry None s in
  let s := set_keepalive None s in
  set_controls [] s.

Definition graceful_shutdown (env : Env) (s : Inner) : res (Inner * result unit TurnError) :=
  if destroyed s || shutting_down s then Ret (s, Ok tt) else
  let s := stop_activity s in
  if (state s =? STATE_READY)
     || ((state s =? STATE_DESTROYING) && negb (bool_decide (allocation_expires_at s = None)))
  then start_operation env (set_state (set_pending [] s) STATE_DEALLOCATING) Deallocate true 0
  else if negb (state s =? STATE_ALLOCATING) then Ret (set_pending [] s, Ok tt)
  else Ret (s, Ok tt).

Definition force_destroy (s : Inner) (status : Z) : Inner :=
  if destroyed s then s else
  let s := set_destroyed true s in
  let s := set_controls [] s in
  let s := set_pending [] s in
  let s := set_state s STATE_DESTROYING in
  push_event s (mkEvent EVENT_FORCED_DESTROY 0 status 0 STATE_DESTROYING 0 0 0 default_address).


(** ** What [build_request] builds *)

Definition operation_attributes (s : Inner) (o : Operation) (t : bytes) : list (Z * bytes) :=
  match o with
  | Allocate => [(ATTR_REQUESTED_TRANSPORT, [17; 0; 0; 0]);
                 (ATTR_REQUESTED_ADDRESS_FAMILY, [if is_ipv4 (peer s) then 1 else 2; 0; 0; 0]);
                 (ATTR_LIFETIME, to_be 4 REQUESTED_ALLOCATION_LIFETIME_SECS)]
  | Refresh => [(ATTR_LIFETIME, to_be 4 REQUESTED_ALLOCATION_LIFETIME_SECS)]
  | Deallocate => [(ATTR_LIFETIME, to_be 4 0)]
  | Permission => [(ATTR_XOR_PEER_ADDRESS, encode_xor_address (peer s) t)]
  | Channel => [(ATTR_CHANNEL_NUMBER, [0x40; 0; 0; 0]); (ATTR_XOR_PEER_ADDRESS, encode_xor_address (peer s) t)]
  end.

Definition credential_attributes (s : Inner) : list (Z * bytes) :=
  [(ATTR_USERNAME, username s); (ATTR_REALM, default [] (realm s)); (ATTR_NONCE, default [] (nonce s))].

Definition request_attributes (s : Inner) (o : Operation) (t : bytes) (auth : bool) : list (Z * bytes) :=
  operation_attributes s o t ++ if auth then credential_attributes s else [].

(** What the requests need of the state: an address of a known family, and
    credentials whose lengths fit an attribute. *)
Definition credentials_ok (s : Inner) : Prop :=
  addr_ok (peer s) /\ is_u 16 (zlen (username s))
  /\ is_u 16 (zlen (default [] (realm s))) /\ is_u 16 (zlen (default [] (nonce s))).

(** A packet that a server decodes as this request. *)
Definition request_valid (s : Inner) (o : Operation) (t : bytes) (auth : bool) (packet : bytes) : Prop :=
  let m := mkMessage packet (op_method o) t (zlen packet) in
  (exists tail, well_formed packet (op_method o) t (request_attributes s o t auth ++ tail))
  /\ class m = Request /\ StunCodec.method m = op_method o /\ transaction m = t
  /\ fingerprint_valid m = Ret (Some true)
  /\ (auth = true -> verify_integrity packet m (key s) = Ret true).

Lemma built_draft b k t attrs :
  built b k t attrs -> exists l body, b = mkBuilder (draft k l t body) t /\ zlen t = 12 /\ tlv body attrs.
Proof.
  intros (l & body & Hb & Htr & Ht & Htlv). exists l, body. destruct b as [bs tr]. simpl in *. by subst.
Qed.

Lemma small_u16 (v : bytes) n : zlen v = n -> 0 <= n < 65536 -> is_u 16 (zlen v).
Proof. unfold is_u. intros -> Hn. exact Hn. Qed.

Lemma xor_value_u16 a t : addr_ok a -> zlen t = 12 -> is_u 16 (zlen (encode_xor_address a t)).
Proof. intros Ha Ht. rewrite encode_xor_length by done. by destruct (is_ipv4 a). Qed.

Lemma operation_lacks target s o t :
  target ∈ [ATTR_FINGERPRINT; ATTR_MESSAGE_INTEGRITY] -> lacks target (operation_attributes s o t).
Proof.
  intros Ht. assert (target = ATTR_FINGERPRINT \/ target = ATTR_MESSAGE_INTEGRITY) as [-> | ->] by set_solver;
    destruct o; repeat (apply List.Forall_cons; [done|]); apply List.Forall_nil.
Qed.

Lemma credential_lacks target s :
  target ∈ [ATTR_FINGERPRINT; ATTR_MESSAGE_INTEGRITY] -> lacks target (credential_attributes s).
Proof.
  intros Ht. assert (target = ATTR_FINGERPRINT \/ target = ATTR_MESSAGE_INTEGRITY) as [-> | ->] by set_solver;
    repeat (apply List.Forall_cons; [done|]); apply List.Forall_nil.
Qed.

Lemma request_lacks target s o t auth :
  target ∈ [ATTR_FINGERPRINT; ATTR_MESSAGE_INTEGRITY] -> lacks target (request_attributes s o t auth).
Proof.
  intros Ht. apply Forall_app. split; [by apply operation_lacks|].
  destruct auth; [by apply credential_lacks|constructor].
Qed.

(** The builder after a list of attributes. *)
Definition add_all (b : MessageBuilder) (attrs : list (Z * bytes)) : MessageBuilder :=
  foldl (fun b a => b_attribute b (fst a) (snd a)) b attrs.

Definition attribute_fits (a : Z * bytes) : Prop := is_u 16 (fst a) /\ is_u 16 (zlen (snd a)).

Lemma built_all b k t l attrs :
  built b k t l -> Forall attribute_fits attrs -> built (add_all b attrs) k t (l ++ attrs).
Proof.
  intros Hb Ha. revert b l Hb. induction Ha as [|[kind v] attrs [Hk Hv] _ IH]; intros b l Hb.
  - by rewrite app_nil_r.
  - simpl. replace (l ++ (kind, v) :: attrs) with ((l ++ [(kind, v)]) ++ attrs) by (by rewrite <- app_assoc).
    apply IH. by apply built_attribute.
Qed.

(** [build_request] adds the attributes of the request in order and finishes. *)
Lemma build_request_eq s o t auth :
  build_request s o t auth
  = let b := add_all (with_transaction (op_method o) t) (request_attributes s o t auth) in
    if auth then match key s with None => Ret (Err KeyMissing) | Some key => finish_authenticated b key end
    else finish b.
Proof.
  unfold build_request, request_attributes, add_all. destruct auth.
  - by destruct o.
  - rewrite app_nil_r. by destruct o.
Qed.

Lemma request_fits s o t auth :
  credentials_ok s -> zlen t = 12 -> Forall attribute_fits (request_attributes s o t auth).
Proof.
  intros (Ha & Hu & Hr & Hn) Ht. pose proof (xor_value_u16 (peer s) t Ha Ht) as Hx.
  apply Forall_app. split.
  - destruct o; repeat (apply List.Forall_cons; [by split|]); apply List.Forall_nil.
  - destruct auth; repeat (apply List.Forall_cons; [by split|]); apply List.Forall_nil.
Qed.

Lemma op_method_range o : 0 < op_method o < 0x4000.
Proof. by destruct o. Qed.

Lemma request_class packet o t e :
  class (mkMessage packet (op_method o) t e) = Request
  /\ StunCodec.method (mkMessage packet (op_method o) t e) = op_method o.
Proof. by destruct o. Qed.

(** [build_request] returns; its packet is valid, and it fails only when the
    credentials do not fit a message or the key is missing. *)
Lemma build_request_spec s o t auth :
  credentials_ok s -> zlen t = 12 ->
  exists r, build_request s o t auth = Ret r /\
    match r with
    | Ok packet => request_valid s o t auth packet /\ (auth = true -> is_Some (key s))
    | Err e => (e = MessageTooLarge) \/ (e = KeyMissing /\ key s = None)
    end.
Proof.
  intros Hc Ht. rewrite build_request_eq. cbv zeta.
  destruct (built_draft _ _ _ _ (built_all _ _ _ _ _ (built_start (op_method o) t Ht)
    (request_fits s o t auth Hc Ht))) as (l & body & -> & _ & Htlv). simpl app in Htlv.
  pose proof (request_lacks ATTR_FINGERPRINT s o t auth ltac:(set_solver)) as Hlf.
  pose proof (request_lacks ATTR_MESSAGE_INTEGRITY s o t auth ltac:(set_solver)) as Hlm.
  pose proof (op_method_range o) as Hm. unfold request_valid. destruct auth.
  - destruct (key s) as [key'|] eqn:Ek; [|eexists; split; [reflexivity|by right]].
    rewrite (finish_authenticated_spec _ _ _ _ _ _ _ Ht Htlv).
    destruct (Z.ltb_spec u16_max (zlen body + 32)) as [Hbig|Hfit]; [eexists; split; [reflexivity|by left]|].
    eexists; split; [reflexivity|].
    destruct (authenticated_valid (op_method o) t body _ key' Hm Ht Htlv Hfit Hlm Hlf) as (Hwf & Hfp & Hv).
    split; [|done]. split; [by eexists|]. split; [apply request_class|]. split; [apply request_class|]. done.
  - rewrite (finish_spec _ _ _ _ _ _ Ht Htlv).
    destruct (Z.ltb_spec u16_max (zlen body + 8)) as [Hbig|Hfit]; [eexists; split; [reflexivity|by left]|].
    eexists; split; [reflexivity|].
    destruct (finished_valid (op_method o) t body _ Hm Ht Htlv Hfit Hlf) as (Hwf & Hfp).
    split; [|done]. split; [by eexists|]. split; [apply request_class|]. split; [apply request_class|]. done.
Qed.

(** On credentials that fit, [build_request] never panics; the packet it
    gives is one that [Message::decode] accepts as a request of the right
    method and transaction, whose attributes are those of the operation
    followed by the credentials, whose fingerprint is valid and whose
    integrity verifies under the client's key. *)
Lemma build_request_decodes s o t auth packet :
  credentials_ok s -> zlen t = 12 -> build_request s o t auth = Ret (Ok packet) ->
  exists m tail, decode packet = Ret (Ok m) /\ class m = Request /\ StunCodec.method m = op_method o
    /\ transaction m = t
    /\ well_formed packet (m_kind m) t (request_attributes s o t auth ++ tail)
    /\ fingerprint_valid m = Ret (Some true)
    /\ (auth = true -> verify_integrity packet m (key s) = Ret true).
Proof.
  intros Hc Ht Hb. destruct (build_request_spec s o t auth Hc Ht) as (r & Hr & Hok).
  rewrite Hb in Hr. injection Hr as <-. destruct Hok as [([tail Hwf] & Hcl & Hme & Htr & Hfp & Hv) _].
  exists (mkMessage packet (op_method o) t (zlen packet)), tail.
  split; [by eapply decode_well_formed|]. done.
Qed.

(** ** The invariant of the core *)

(** The state in which an operation may be in flight. *)
Definition op_state (o : Operation) : Z :=
  match o with
  | Allocate => STATE_ALLOCATING
  | Deallocate => STATE_DEALLOCATING
  | Refresh | Permission | Channel => STATE_READY
  end.

(** A packet that a server decodes as a request for [o] with transaction [t]. *)
Definition request_packet (o : Operation) (t packet : bytes) : Prop :=
  exists attrs, well_formed packet (op_method o) t attrs
    /\ fingerprint_valid (mkMessage packet (op_method o) t (zlen packet)) = Ret (Some true).

Definition pending_ok (key : option bytes) (max_retries : Z) (p : Pending) : Prop :=
  zlen (p_transaction p) = 12 /\ 1 <= transmissions p <= MAX_TRANSMISSIONS
  /\ rto p = Z.min (INITIAL_RTO * 2 ^ (transmissions p - 1)) MAX_RTO
  /\ 0 <= nonce_retries p <= max_retries
  /\ request_packet (p_operation p) (p_transaction p) (p_packet p)
  /\ (authenticated p = true -> is_Some key).

Definition profile_ok (p : CsqttTurnProfile) : Prop :=
  millis 1 <= pr_keepalive_interval p /\ 0 <= pr_max_nonce_retries p.

Record core_wf (s : Inner) : Prop := {
  wf_controls : zlen (controls s) <= CONTROL_CAPACITY;
  wf_events : zlen (events s) <= EVENT_CAPACITY;
  wf_distinct : NoDup (map p_operation (pending s));
  wf_pending : Forall (pending_ok (key s) (pr_max_nonce_retries (profile s))) (pending s);
  wf_in_flight : Forall (fun p => state s = op_state (p_operation p)) (pending s);
  wf_credentials : credentials_ok s;
  wf_key : is_Some (key s) -> is_Some (realm s) /\ is_Some (nonce s);
  wf_channel : channel s = None \/ channel s = Some CHANNEL_NUMBER;
  wf_state : state s ∈ [STATE_NULL; STATE_ALLOCATING; STATE_READY; STATE_DEALLOCATING;
                         STATE_DEALLOCATED; STATE_DESTROYING];
  wf_ready : state s = STATE_READY ->
    shutting_down s = false /\ destroyed s = false /\ is_Some (relay s) /\ is_Some (allocation_expires_at s);
  wf_destroyed : destroyed s = true -> pending s = [] /\ controls s = [] /\ state s = STATE_DESTROYING;
  wf_failures : is_u 8 (refresh_failures s) /\ is_u 8 (permission_failures s) /\ is_u 8 (channel_failures s);
  wf_profile : profile_ok (profile s);
}.

Definition env_ok (env : Env) : Prop := forall o, zlen (op_random env o) = 12.

(** *** Events and the control queue *)

Lemma push_event_eq s e :
  zlen (events s) <= EVENT_CAPACITY ->
  exists es, push_event s e = set_events es s /\ zlen es <= EVENT_CAPACITY.
Proof.
  intros Hl. unfold push_event. destruct (Z.eqb_spec (zlen (events s)) EVENT_CAPACITY) as [He|He];
    (eexists; split; [reflexivity|]); rewrite zlen_snoc; [|lia].
  rewrite zlen_drop_list. unfold EVENT_CAPACITY in *. lia.
Qed.

Lemma core_wf_events s es : core_wf s -> zlen es <= EVENT_CAPACITY -> core_wf (set_events es s).
Proof. intros [] ?. by constructor. Qed.

Lemma push_event_wf s e : core_wf s -> core_wf (push_event s e).
Proof.
  intros Hw. destruct (push_event_eq s e) as (es & -> & He); [apply Hw|]. by apply core_wf_events.
Qed.

Lemma core_wf_controls s cs :
  core_wf s -> zlen cs <= CONTROL_CAPACITY -> destroyed s = false \/ cs = [] -> core_wf (set_controls cs s).
Proof.
  intros [] ? Hd. constructor; try done; simpl. intros Hdd. destruct (wf_destroyed0 Hdd) as (? & ? & ?).
  destruct Hd as [Hd| ->]; [congruence|done].
Qed.

Lemma queue_packet_eq s packet :
  zlen (controls s) <= CONTROL_CAPACITY -> zlen (events s) <= EVENT_CAPACITY ->
  exists cs es, queue_packet s packet = set_controls cs (set_events es s)
    /\ zlen cs <= CONTROL_CAPACITY /\ zlen es <= EVENT_CAPACITY.
Proof.
  intros Hc He. unfold queue_packet. destruct (Z.eqb_spec (zlen (controls s)) CONTROL_CAPACITY) as [Hf|Hf].
  - destruct (push_event_eq (set_controls (drop 1 (controls s)) s)
      (mkEvent EVENT_CONTROL_OVERFLOW 0 RESULT_BUFFER_TOO_SMALL 0 0 0 1 0 default_address)) as (es & -> & Hes);
      [done|]. eexists _, es. split; [reflexivity|]. split; [|done]. simpl.
    rewrite zlen_snoc, zlen_drop_list. unfold CONTROL_CAPACITY in *. lia.
  - eexists _, (events s). split; [by destruct s|]. split; [|done]. simpl.
    rewrite zlen_snoc. lia.
Qed.

Lemma queue_packet_wf s packet : core_wf s -> destroyed s = false -> core_wf (queue_packet s packet).
Proof.
  intros Hw Hd. destruct (queue_packet_eq s packet) as (cs & es & -> & Hc & He); [apply Hw..|].
  apply core_wf_controls; [by apply core_wf_events|done|by left].
Qed.

Lemma set_state_eq s st :
  zlen (events s) <= EVENT_CAPACITY ->
  exists es, set_state s st = set_events es (put_state st s) /\ zlen es <= EVENT_CAPACITY.
Proof.
  intros He. unfold set_state. destruct (Z.eqb_spec (state s) st) as [<-|Hn].
  - exists (events s). split; [by destruct s|done].
  - apply push_event_eq. exact He.
Qed.

Lemma remove_queued_wf s t : core_wf s -> core_wf (remove_queued_transaction s t).
Proof.
  intros Hw. apply core_wf_controls; [done| |].
  - pose proof (length_filter (fun c => get_range (c_packet c) 8 20 <> Some t) (controls s)) as Hf.
    pose proof (wf_controls s Hw). unfold zlen in *. lia.
  - destruct (destroyed s) eqn:E; [right|by left]. by rewrite (proj1 (proj2 (wf_destroyed s Hw E))).
Qed.

(** *** Ending an allocation *)

Lemma destroy_allocation_eq s o status code :
  zlen (events s) <= EVENT_CAPACITY ->
  exists es, destroy_allocation s o status code
    = set_events es (put_state (if bool_decide (o = Deallocate) then STATE_DEALLOCATED else STATE_DESTROYING)
        (set_relay None (set_keepalive None (set_channel_retry None (set_permission_retry None
        (set_maintenance_refresh None (set_allocation_expires_at None (set_allocation_refresh None
        (set_channel None (set_pending [] (set_controls [] s)))))))))))
    /\ zlen es <= EVENT_CAPACITY.
Proof.
  intros He. unfold destroy_allocation, complete.
  destruct (push_event_eq s (mkEvent EVENT_REQUEST_COMPLETE (op_method o) status code (state s) 0 0
    (default 0 (channel s)) (match relay s with Some a => from_socket_addr a | None => default_address end)) He)
    as (es & -> & Hes).
  case_bool_decide; match goal with |- context [set_state ?x ?st] =>
    destruct (set_state_eq x st) as (es' & -> & Hes') end; [done| |done| ]; by exists es'.
Qed.

Lemma destroy_allocation_wf s o status code :
  core_wf s -> destroyed s = false -> core_wf (destroy_allocation s o status code).
Proof.
  intros Hw Hd. destruct (destroy_allocation_eq s o status code) as (es & -> & He); [apply Hw|].
  destruct Hw. constructor; simpl; try done; try (by left); try (by constructor); try congruence.
  - case_bool_decide; rewrite !elem_of_cons; auto 10.
  - by case_bool_decide.
Qed.

Lemma destroy_after_eq s :
  zlen (events s) <= EVENT_CAPACITY ->
  exists es, destroy_after_channel_rebind_exhausted s
    = set_events es (put_state STATE_DESTROYING
        (set_keepalive None (set_channel_retry None (set_permission_retry None
        (set_maintenance_refresh None (set_channel None (set_pending [] (set_controls [] s))))))))
    /\ zlen es <= EVENT_CAPACITY.
Proof.
  intros He. unfold destroy_after_channel_rebind_exhausted.
  match goal with |- context [push_event ?x ?e] => destruct (push_event_eq x e) as (es & -> & Hes); [done|] end.
  match goal with |- context [set_state ?x ?st] => destruct (set_state_eq x st) as (es' & -> & Hes'); [done|] end.
  exists es'. split; [|done]. destruct s. cbv. reflexivity.
Qed.

Lemma destroy_after_wf s : core_wf s -> destroyed s = false -> core_wf (destroy_after_channel_rebind_exhausted s).
Proof.
  intros Hw Hd. destruct (destroy_after_eq s) as (es & -> & He); [apply Hw|].
  destruct Hw. constructor; simpl; try done; try (by left); try (by constructor); try congruence.
  rewrite !elem_of_cons; auto 10.
Qed.

Lemma complete_wf s o status code : core_wf s -> core_wf (complete s o status code).
Proof. apply push_event_wf. Qed.

Lemma saturating_u8 x : is_u 8 x -> is_u 8 (saturating_add 8 x 1).
Proof. unfold is_u, saturating_add. lia. Qed.

Lemma schedule_wf s o now : core_wf s -> core_wf (fst (schedule_maintenance_retry s o now)).
Proof.
  intros Hw. pose proof (wf_failures s Hw) as (Hr & Hp & Hc).
  pose proof (saturating_u8 _ Hr). pose proof (saturating_u8 _ Hp). pose proof (saturating_u8 _ Hc).
  destruct o; simpl; try done; try destruct (_ <=? _); destruct Hw; by constructor.
Qed.

Lemma complete_destroyed s o status code : destroyed (complete s o status code) = destroyed s.
Proof. unfold complete, push_event. by case_match. Qed.

Lemma schedule_destroyed s o now : destroyed (fst (schedule_maintenance_retry s o now)) = destroyed s.
Proof. destruct o; simpl; try done. by destruct (_ <=? _). Qed.

Lemma complete_failure_wf s o status code now :
  core_wf s -> destroyed s = false -> core_wf (complete_failure s o status code now).
Proof.
  intros Hw Hd. unfold complete_failure.
  match goal with |- context [if ?c then _ else _] => destruct c end; [|by apply destroy_allocation_wf].
  pose proof (schedule_wf _ o now (complete_wf s o status code Hw)) as Hs.
  pose proof (schedule_destroyed (complete s o status code) o now) as Hsd.
  destruct (schedule_maintenance_retry _ o now) as [s' scheduled]. simpl in *.
  destruct scheduled; [done|]. apply destroy_after_wf; [done|].
  by rewrite Hsd, complete_destroyed.
Qed.

(** *** Starting an operation *)

(** [s'] is [s] with other events, controls and transactions. *)
Definition same_but_queues (s s' : Inner) : Prop :=
  exists es cs ps, s' = set_pending ps (set_controls cs (set_events es s)).

Lemma has_operation_false s o : has_operation s o = false -> o ∉ map p_operation (pending s).
Proof.
  intros Hf Hin. apply list_elem_of_fmap in Hin as (p & -> & Hp).
  assert (has_operation s (p_operation p) = true) as Ht; [|congruence].
  apply existsb_exists. exists p. split; [by apply list_elem_of_In|by apply bool_decide_eq_true].
Qed.

Lemma has_operation_true s o : has_operation s o = true -> exists p, p ∈ pending s /\ p_operation p = o.
Proof.
  intros (p & Hp & Ho)%existsb_exists. exists p.
  split; [by apply list_elem_of_In|by apply bool_decide_eq_true in Ho].
Qed.

Lemma request_valid_packet s o t auth packet : request_valid s o t auth packet -> request_packet o t packet.
Proof. intros ([tail Hwf] & _ & _ & _ & Hfp & _). by eexists. Qed.

Lemma add_pending_wf s p :
  core_wf s -> destroyed s = false -> p_operation p ∉ map p_operation (pending s) ->
  pending_ok (key s) (pr_max_nonce_retries (profile s)) p -> state s = op_state (p_operation p) ->
  core_wf (set_pending (pending s ++ [p]) s).
Proof.
  intros [] Hd Hnew Hp Hst. constructor; try done; simpl; try congruence.
  - rewrite map_app. apply NoDup_app. split; [done|]. split; [|apply NoDup_singleton].
    intros o Ho [->|[]%not_elem_of_nil]%elem_of_cons. done.
  - apply Forall_app. split; [done|by apply Forall_singleton].
  - apply Forall_app. split; [done|by apply Forall_singleton].
Qed.

Lemma start_operation_ok env s o auth retries :
  core_wf s -> destroyed s = false -> state s = op_state o -> env_ok env ->
  0 <= retries <= pr_max_nonce_retries (profile s) ->
  exists s' r, start_operation env s o auth retries = Ret (s', r) /\ core_wf s' /\ same_but_queues s s'
    /\ (is_ok r = false -> s' = s)
    /\ (is_ok r = true -> exists p, p ∈ pending s' /\ p_operation p = o).
Proof.
  intros Hw Hd Hst He Hret.
  assert (same_but_queues s s) as Hsame by (exists (events s), (controls s), (pending s); by destruct s).
  assert (forall packet, same_but_queues s (queue_packet s packet)
    /\ pending (queue_packet s packet) = pending s) as Hq.
  { intros packet. destruct (queue_packet_eq s packet) as (cs & es & -> & _); [apply Hw..|].
    split; [exists es, cs, (pending s)|]; by destruct s. }
  unfold start_operation. destruct (has_operation s o) eqn:Eh.
  { pose proof (has_operation_true s o Eh) as Hp. case_bool_decide; [|by exists s, (Ok tt); conjs].
    destruct (List.find _ (pending s)) as [p|]; [|by exists s, (Ok tt); conjs].
    eexists _, _. split; [reflexivity|]. destruct (Hq (p_packet p)) as [Hq1 Hq2].
    split; [by apply queue_packet_wf|]. split; [done|]. split; [done|]. by rewrite Hq2. }
  destruct (auth && _) eqn:Ea; [by exists s, (Err AuthIncomplete); conjs|].
  destruct (build_request_spec s o (op_random env o) auth (wf_credentials s Hw) (He o)) as (r & -> & Hr).
  rbind. destruct r as [packet|e]; [|by exists s, (Err e); conjs]. destruct Hr as [Hreq Hkey].
  eexists _, _. split; [reflexivity|]. unfold push_control.
  destruct (queue_packet_eq s packet) as (cs & es & Eq & _); [apply Hw..|].
  pose proof (queue_packet_wf s packet Hw Hd) as Hwq. rewrite Eq in *.
  split; [|split; [|split]].
  - apply add_pending_wf; simpl; try done; [by apply has_operation_false|]. split; [apply He|].
    split; [unfold MAX_TRANSMISSIONS; simpl; lia|]. split; [done|]. split; [done|].
    split; [by eapply request_valid_packet|done].
  - by eexists es, cs, _.
  - done.
  - intros _. eexists. split; [apply elem_of_app; right; by apply list_elem_of_singleton|done].
Qed.

(** *** Dropping a transaction *)

Lemma remove_at_elem {A} i (l : list A) x y : l !! i = Some x -> y ∈ remove_at i l -> y ∈ l.
Proof. intros Hx Hy. rewrite (remove_at_perm _ _ _ Hx). by constructor. Qed.

Lemma remove_pending_wf s i p :
  core_wf s -> pending s !! i = Some p ->
  core_wf (set_pending (remove_at i (pending s)) s)
  /\ (p_operation p ∉ map p_operation (remove_at i (pending s)))
  /\ destroyed s = false /\ pending_ok (key s) (pr_max_nonce_retries (profile s)) p /\ state s = op_state (p_operation p).
Proof.
  intros [] Hp. pose proof (remove_at_perm _ _ _ Hp) as Hperm.
  pose proof (list_elem_of_lookup_2 _ _ _ Hp) as Hin.
  rewrite Hperm in wf_distinct0, wf_pending0, wf_in_flight0. simpl in wf_distinct0.
  apply NoDup_cons in wf_distinct0 as [Hni Hnd].
  apply Forall_cons in wf_pending0 as [Hok Hall]. apply Forall_cons in wf_in_flight0 as [Hst Hfl].
  assert (destroyed s = false) as Hd.
  { destruct (destroyed s); [|done]. destruct (wf_destroyed0 eq_refl) as (Hnil & _). by rewrite Hnil in Hp. }
  split; [|done]. constructor; try done; simpl. congruence.
Qed.

(** *** Responses *)

Lemma set_state_wf s st :
  core_wf s -> pending s = [] -> destroyed s = false ->
  st ∈ [STATE_NULL; STATE_ALLOCATING; STATE_READY; STATE_DEALLOCATING; STATE_DEALLOCATED; STATE_DESTROYING] ->
  (st = STATE_READY -> shutting_down s = false /\ is_Some (relay s) /\ is_Some (allocation_expires_at s)) ->
  core_wf (set_state s st).
Proof.
  intros Hw Hp Hd Hin Hr. destruct (set_state_eq s st) as (es & -> & He); [apply Hw|].
  destruct Hw. constructor; simpl; try done; [by rewrite Hp| |congruence].
  intros H0. destruct (Hr H0) as (? & ? & ?). done.
Qed.

Lemma set_state_facts s st :
  core_wf s -> state (set_state s st) = st /\ destroyed (set_state s st) = destroyed s
  /\ pending (set_state s st) = pending s.
Proof. intros Hw. by destruct (set_state_eq s st) as (es & -> & He); [apply Hw|]. Qed.

Lemma push_event_facts s e :
  core_wf s -> exists es, push_event s e = set_events es s.
Proof. intros Hw. destruct (push_event_eq s e) as (es & H0 & _); [apply Hw|]. by exists es. Qed.

(** With no operation of its own left, a state that one operation may be in has none. *)
Lemma no_pending s o :
  core_wf s -> state s = op_state o -> o ∈ [Allocate; Deallocate] ->
  o ∉ map p_operation (pending s) -> pending s = [].
Proof.
  intros Hw Hst Ho Hn. destruct (pending s) as [|p l] eqn:E; [done|]. exfalso. apply Hn.
  pose proof (wf_in_flight s Hw) as Hf. rewrite E in Hf. apply Forall_cons in Hf as [Hp _].
  rewrite Hst in Hp. assert (p_operation p = o) as <-; [|by left].
  assert (o = Allocate \/ o = Deallocate) as [-> | ->] by set_solver; by destruct (p_operation p).
Qed.

Lemma first_keepalive_total now interval relay :
  millis 1 <= interval -> returns (first_keepalive_deadline now interval relay).
Proof.
  intros Hi. unfold first_keepalive_deadline.
  assert (1 <= interval / millis 1) as H1 by (apply Z.div_le_lower_bound; unfold millis in *; lia).
  set (ms := interval / millis 1) in *. destruct (Z.ltb_spec ms (Z.max (ms / 5) 1)); [|apply returns_ret].
  pose proof (Z.div_le_upper_bound ms 5 ms). lia.
Qed.

(** A step of the response handling: it returns, and keeps the invariant. *)
Definition good {A} (m : res (Inner * A)) : Prop :=
  exists s' r, m = Ret (s', r) /\ core_wf s' /\ destroyed s' = false.

Lemma good_ret {A} s (r : A) : core_wf s -> destroyed s = false -> good (Ret (s, r)).
Proof. intros. by exists s, r. Qed.

Lemma start_operation_good env s o auth retries :
  core_wf s -> destroyed s = false -> state s = op_state o -> env_ok env ->
  0 <= retries <= pr_max_nonce_retries (profile s) ->
  good (start_operation env s o auth retries).
Proof.
  intros Hw Hd Hst He Hret. destruct (start_operation_ok env s o auth retries Hw Hd Hst He Hret)
    as (s' & r & -> & Hw' & (es & cs & ps & ->) & _). by apply good_ret.
Qed.

Lemma no_retries s : core_wf s -> 0 <= 0 <= pr_max_nonce_retries (profile s).
Proof. intros Hw. pose proof (proj2 (wf_profile s Hw)). lia. Qed.

Lemma start_fresh_good env s o auth :
  core_wf s -> destroyed s = false -> state s = op_state o -> env_ok env ->
  good (start_operation env s o auth 0).
Proof. intros Hw Hd Hst He. apply start_operation_good; try done. by apply no_retries. Qed.

Lemma renew_allocation_wf s returned lifetime now :
  core_wf s -> core_wf (renew_allocation s returned lifetime now).
Proof.
  intros Hw. pose proof (wf_failures s Hw) as (_ & ? & ?). assert (is_u 8 0) by (unfold is_u; lia).
  destruct Hw. unfold renew_allocation. constructor; simpl; try done.
  intros Hr. destruct (wf_ready0 Hr) as (? & ? & ? & _). done.
Qed.

Lemma store_allocation_wf s relay' returned lifetime ka now :
  core_wf s -> state s <> STATE_READY ->
  let s1 := store_allocation s relay' returned lifetime ka now in
  core_wf s1 /\ is_Some (relay s1) /\ is_Some (allocation_expires_at s1) /\ state s1 = state s
  /\ pending s1 = pending s /\ destroyed s1 = destroyed s /\ shutting_down s1 = shutting_down s.
Proof.
  intros Hw Hst s1. split; [|done]. unfold s1, store_allocation. cbv zeta.
  assert (core_wf (set_relay (Some relay') s)) as Hw1.
  { destruct Hw. constructor; try done. }
  pose proof (renew_allocation_wf _ returned lifetime now Hw1) as Hw2.
  assert (forall x y t, core_wf t -> core_wf (set_keepalive x (set_maintenance_refresh y t))) as Hs.
  { intros x y t []. by constructor. }
  by apply Hs.
Qed.

Lemma allocate_end_good env s :
  core_wf s -> destroyed s = false -> is_Some (relay s) -> is_Some (allocation_expires_at s) ->
  pending s = [] -> env_ok env -> good (allocate_end env s).
Proof.
  intros Hw Hd Hrel Hexp Hp He. unfold allocate_end. destruct (shutting_down s) eqn:Esd.
  - pose proof (set_state_facts s STATE_DEALLOCATING Hw) as (Hst3 & Hd3 & _).
    apply start_fresh_good; [|by rewrite Hd3|exact Hst3|done].
    apply set_state_wf; [done..| |done]. rewrite !elem_of_cons; auto 10.
  - pose proof (set_state_facts s STATE_READY Hw) as (Hst3 & Hd3 & _).
    apply good_ret; [|by rewrite complete_destroyed, Hd3].
    apply complete_wf, set_state_wf; [done..| |done]. rewrite !elem_of_cons; auto 10.
Qed.

Lemma allocate_end_event_good env s ev :
  core_wf s -> destroyed s = false -> is_Some (relay s) -> is_Some (allocation_expires_at s) ->
  pending s = [] -> env_ok env -> good (allocate_end env (push_event s ev)).
Proof.
  intros Hw Hd Hrel Hexp Hp He. pose proof (push_event_wf s ev Hw) as Hw2.
  destruct (push_event_facts s ev Hw) as (es & Hes). rewrite Hes in *. by apply allocate_end_good.
Qed.

Lemma allocate_success_good env s raw m :
  core_wf s -> destroyed s = false -> state s = STATE_ALLOCATING ->
  pending s = [] -> message_of raw m -> env_ok env -> good (allocate_success env s m).
Proof.
  intros Hw Hd Hst Hp Hm He. unfold allocate_success.
  destruct (attribute_total raw m ATTR_XOR_RELAYED_ADDRESS Hm) as (ra & -> & _). rbind.
  destruct ra as [a|]; [|by apply good_ret].
  destruct (decode_xor_address_total (value a) (transaction m)) as [d ->]. rbind.
  destruct d as [relay'|e]; [|by apply good_ret].
  destruct (negb _ || _); [by apply good_ret|].
  destruct (attribute_u32_total raw m ATTR_LIFETIME Hm) as [lt ->]. rbind.
  destruct (default REQUESTED_ALLOCATION_LIFETIME_SECS lt =? 0); [by apply good_ret|].
  destruct (first_keepalive_total (now env) _ relay' (proj1 (wf_profile s Hw))) as [ka ->]. rbind.
  destruct (store_allocation_wf s relay' lt (default REQUESTED_ALLOCATION_LIFETIME_SECS lt) ka (now env) Hw)
    as (Hw1 & Hrel & Hexp & _ & Hp1 & Hd1 & _); [by rewrite Hst|].
  rewrite Hd in Hd1. rewrite Hp in Hp1.
  by apply allocate_end_event_good.
Qed.

Lemma complete_success_good env s o raw m :
  core_wf s -> destroyed s = false -> state s = op_state o ->
  o ∉ map p_operation (pending s) -> message_of raw m -> env_ok env -> good (complete_success env s o m).
Proof.
  intros Hw Hd Hst Hn Hm He. destruct o; cbn [complete_success].
  - eapply allocate_success_good; try done. eapply no_pending; try done. set_solver.
  - unfold refresh_success. destruct (attribute_u32_total raw m ATTR_LIFETIME Hm) as [lt ->]. rbind.
    destruct (_ =? 0); [by apply good_ret|]. apply good_ret; [|by rewrite complete_destroyed].
    by apply complete_wf, renew_allocation_wf.
  - unfold deallocate_success. destruct (attribute_u32_total raw m ATTR_LIFETIME Hm) as [lt ->]. rbind.
    destruct (negb _); [by apply good_ret|]. cbv zeta.
    match goal with |- context [complete ?x _ _ _] => set (s1 := x) end.
    assert (core_wf s1) as Hw1 by (destruct Hw; constructor; simpl; try done; by rewrite Hst).
    assert (pending s1 = []) as Hp1.
    { apply (no_pending s Deallocate); try done. set_solver. }
    assert (destroyed s1 = false) as Hd1 by done. clearbody s1.
    destruct (push_event_facts s1 (mkEvent EVENT_REQUEST_COMPLETE (op_method Deallocate) 0 0 (state s1) 0 0
      (default 0 (channel s1)) (match relay s1 with Some a => from_socket_addr a | None => default_address end)) Hw1)
      as (es & Hes).
    pose proof (complete_wf s1 Deallocate 0 0 Hw1) as Hw2. unfold complete in *. rewrite Hes in *.
    apply good_ret; [|by destruct (set_state_facts _ STATE_DEALLOCATED Hw2) as (_ & -> & _)].
    apply set_state_wf; try done. rewrite !elem_of_cons; auto 10.
  - apply good_ret; [|by rewrite complete_destroyed]. apply complete_wf.
    pose proof (wf_failures s Hw) as (? & _ & ?).
    assert (is_u 8 0) by (unfold is_u; lia). destruct Hw. by constructor.
  - apply good_ret.
    + apply complete_wf, push_event_wf. pose proof (wf_failures s Hw) as (? & ? & _).
      assert (is_u 8 0) by (unfold is_u; lia). destruct Hw. constructor; simpl; try done. by right.
    + rewrite complete_destroyed. unfold push_event. by case_match.
Qed.

Lemma set_auth_wf s r n :
  core_wf s -> is_u 16 (zlen r) -> is_u 16 (zlen n) -> core_wf (set_auth s r n).
Proof.
  intros [] Hr Hn. destruct wf_credentials0 as (Hp & Hu & _ & _). constructor; simpl; try done.
  eapply Forall_impl; [exact wf_pending0|]. intros p (? & ? & ? & ? & ? & _). by repeat (split; [done|]).
Qed.

Lemma push_event_destroyed s e : destroyed (push_event s e) = destroyed s.
Proof. unfold push_event. by case_match. Qed.

Lemma push_event_state s e : state (push_event s e) = state s.
Proof. unfold push_event. by case_match. Qed.

Lemma complete_failure_good {A} s o status code now (r : A) :
  core_wf s -> destroyed s = false -> good (Ret (complete_failure s o status code now, r)).
Proof.
  intros Hw Hd. apply good_ret; [by apply complete_failure_wf|]. unfold complete_failure.
  assert (forall s', core_wf s' -> destroyed s' = false -> destroyed (destroy_after_channel_rebind_exhausted s') = false) as Hafter.
  { intros s' Hw' Hd'. by destruct (destroy_after_eq s') as (es & -> & _); [apply Hw'|]. }
  match goal with |- context [if ?c then _ else _] => destruct c end.
  - pose proof (schedule_wf _ o now (complete_wf s o status code Hw)) as Hs.
    pose proof (schedule_destroyed (complete s o status code) o now) as Hsd.
    destruct (schedule_maintenance_retry _ o now) as [s' scheduled]. simpl in *.
    rewrite complete_destroyed, Hd in Hsd. destruct scheduled; [done|by apply Hafter].
  - by destruct (destroy_allocation_eq s o status code) as (es & -> & _); [apply Hw|].
Qed.

Lemma destroy_allocation_good {A} s o status code (r : A) :
  core_wf s -> destroyed s = false -> good (Ret (destroy_allocation s o status code, r)).
Proof.
  intros Hw Hd. apply good_ret; [by apply destroy_allocation_wf|].
  by destruct (destroy_allocation_eq s o status code) as (es & -> & _); [apply Hw|].
Qed.

(** A refused response is reported and its transaction given up. *)
Lemma surrender_good s o e status code now :
  core_wf s -> destroyed s = false -> good (Ret (complete_failure (push_event s e) o status code now, 0)).
Proof.
  intros Hw Hd. apply complete_failure_good; [by apply push_event_wf|by rewrite push_event_destroyed].
Qed.

Lemma input_error_good env s p raw m :
  core_wf s -> destroyed s = false -> state s = op_state (p_operation p) -> 0 <= nonce_retries p ->
  message_of raw m -> env_ok env -> good (input_error env s p m).
Proof.
  intros Hw Hd Hst Hnr Hm He. unfold input_error. destruct (error_code_total raw m Hm) as [error ->]. rbind.
  set (code := default 0 error).
  destruct (code =? 0); [by apply surrender_good|].
  destruct (requires_allocation_recreate (p_operation p) code).
  { apply destroy_allocation_good; [by apply push_event_wf|by rewrite push_event_destroyed]. }
  destruct (attribute_total raw m ATTR_REALM Hm) as (ra & -> & Hra). rbind.
  destruct (attribute_total raw m ATTR_NONCE Hm) as (na & -> & Hna). rbind.
  set (realm_ := match ra with Some a => Some (value a) | None => if code =? 438 then realm s else None end).
  assert (forall r, realm_ = Some r -> is_u 16 (zlen r)) as Hrl.
  { intros r Hr. destruct (wf_credentials s Hw) as (_ & _ & Hcr & _). unfold realm_ in Hr. destruct ra as [a|].
    - injection Hr as <-. by apply Hra.
    - destruct (code =? 438); [|done]. by rewrite Hr in Hcr. }
  destruct realm_ as [r|]; [|by apply surrender_good].
  destruct na as [a|]; [|by apply surrender_good].
  destruct (((code =? 401) || (code =? 438)) && (nonce_retries p <? pr_max_nonce_retries (profile s))) eqn:Eretry;
    [|by apply surrender_good].
  apply andb_true_iff in Eretry as [_ Hlt%Z.ltb_lt].
  assert (core_wf (set_auth s r (value a))) as Hwa.
  { apply set_auth_wf; [done|by apply Hrl|by apply Hna]. }
  destruct (start_operation_good env (set_auth s r (value a)) (p_operation p) true (nonce_retries p + 1))
    as (s' & res & -> & Hw' & Hd'); [done..|simpl; lia|]. rbind.
  destruct (is_ok res); [by apply good_ret|by apply surrender_good].
Qed.

Lemma refused_total raw s m auth : message_of raw m -> returns (refused s raw m auth).
Proof.
  intros Hm. unfold refused. destruct (response_requires_integrity_total raw m Hm) as [q ->].
  destruct (verify_integrity_total raw m (key s) Hm) as [v ->].
  destruct (mismatch_total raw m Hm) as [x ->]. rbind. destruct auth, q, v; simpl; apply returns_ret.
Qed.

Lemma input_pending_good env s raw m index p :
  core_wf s -> pending s !! index = Some p -> message_of raw m -> env_ok env ->
  good (input_pending env s raw m index p).
Proof.
  intros Hw Hp Hm He. destruct (remove_pending_wf s index p Hw Hp) as (Hw1 & Hni & Hd & (_ & _ & _ & Hnr & _) & Hst).
  unfold input_pending. destruct (refused_total raw s m (authenticated p) Hm) as [rf ->]. rbind.
  destruct rf.
  { destruct (error_code_total raw m Hm) as [c Hc]. rewrite Hc. case_bool_decide; rbind; [|by apply good_ret].
    destruct c; [|by apply good_ret]. apply good_ret; [by apply push_event_wf|by rewrite push_event_destroyed]. }
  pose proof (remove_queued_wf _ (transaction m) Hw1) as Hw2.
  set (s1 := remove_queued_transaction _ _) in *.
  assert (destroyed s1 = false /\ state s1 = state s /\ pending s1 = remove_at index (pending s)) as (Hd1 & Hs1 & Hp1) by done.
  rewrite <- Hs1 in Hst. rewrite <- Hp1 in Hni. clearbody s1.
  destruct (_ && _); [by apply complete_failure_good|].
  case_bool_decide; [eapply input_error_good; (done || lia)|].
  destruct (complete_success_good env s1 (p_operation p) raw m) as (s' & r & -> & Hw' & Hd'); [done..|]. rbind.
  destruct (is_ok r); [by apply good_ret|by apply complete_failure_good].
Qed.

Lemma decode_message_of raw m : is_bytes raw -> decode raw = Ret (Ok m) -> message_of raw m.
Proof. intros Hb Hd. by apply decode_accepts. Qed.

(** [input_stun] returns on every datagram and keeps the invariant. *)
Lemma input_stun_ok env s packet :
  core_wf s -> is_bytes packet -> env_ok env ->
  exists s' r, input_stun env s packet = Ret (s', r) /\ core_wf s'.
Proof.
  intros Hw Hb He. unfold input_stun.
  destruct (decode_total packet Hb) as [d Hd]. rewrite Hd. rbind.
  destruct d as [m|e]; [|by eexists _, _].
  pose proof (decode_message_of packet m Hb Hd) as Hm.
  destruct (negb _); [by eexists _, _|].
  destruct (fingerprint_valid_total packet m Hm) as [f ->]. rbind.
  case_bool_decide; [by eexists _, _|]. cbv zeta.
  match goal with |- context [position ?f ?l] => destruct (position f l) as [index|] eqn:E end; [|by eexists _, _].
  apply position_Some in E as (p & Hp & _). rewrite Hp.
  destruct (input_pending_good env s packet m index p Hw Hp Hm He) as (s' & r & -> & Hw' & _).
  by eexists _, _.
Qed.

(** *** Timers *)

Lemma complete_failure_pending s o status code now :
  core_wf s -> pending (complete_failure s o status code now) = pending s
             \/ pending (complete_failure s o status code now) = [].
Proof.
  intros Hw. unfold complete_failure.
  match goal with |- context [if ?c then _ else _] => destruct c end.
  2:{ right. by destruct (destroy_allocation_eq s o status code) as (es & -> & _); [apply Hw|]. }
  pose proof (schedule_wf _ o now (complete_wf s o status code Hw)) as Hs.
  assert (pending (fst (schedule_maintenance_retry (complete s o status code) o now)) = pending s) as Hp.
  { assert (pending (complete s o status code) = pending s) as <-.
    { unfold complete. by destruct (push_event_facts s (mkEvent EVENT_REQUEST_COMPLETE (op_method o) status code
        (state s) 0 0 (default 0 (channel s))
        (match relay s with Some a => from_socket_addr a | None => default_address end)) Hw) as (es & ->). }
    destruct o; simpl; try done. by destruct (_ <=? _). }
  destruct (schedule_maintenance_retry _ o now) as [s' scheduled]. simpl in *.
  destruct scheduled; [by left|right].
  by destruct (destroy_after_eq s') as (es & -> & _); [apply Hs|].
Qed.

Lemma update_pending_wf s i p p' :
  core_wf s -> pending s !! i = Some p -> p_operation p' = p_operation p -> pending_ok (key s) (pr_max_nonce_retries (profile s)) p' ->
  core_wf (set_pending (<[i := p']> (pending s)) s).
Proof.
  intros [] Hp Ho Hok.
  assert (map p_operation (<[i := p']> (pending s)) = map p_operation (pending s)) as Hmap.
  { change (p_operation <$> <[i := p']> (pending s) = p_operation <$> pending s).
    rewrite list_fmap_insert, Ho. apply list_insert_id. by rewrite list_lookup_fmap, Hp. }
  constructor; try done; simpl.
  - by rewrite Hmap.
  - by apply Forall_insert.
  - apply Forall_insert; [done|]. rewrite Ho.
    exact (Forall_lookup_1 _ _ _ _ wf_in_flight0 Hp).
  - intros Hd. destruct (wf_destroyed0 Hd) as (Hn & _). by rewrite Hn in Hp.
Qed.

(** The timeout of the next transmission. *)
Lemma rto_doubles t :
  1 <= t ->
  Z.min (Z.min (INITIAL_RTO * 2 ^ (t - 1)) MAX_RTO * 2) MAX_RTO = Z.min (INITIAL_RTO * 2 ^ (t + 1 - 1)) MAX_RTO
  /\ 0 < Z.min (Z.min (INITIAL_RTO * 2 ^ (t - 1)) MAX_RTO * 2) MAX_RTO.
Proof.
  intros Ht. replace (t + 1 - 1) with (Z.succ (t - 1)) by lia. rewrite Z.pow_succ_r by lia.
  assert (0 < 2 ^ (t - 1)) by (apply Z.pow_pos_nonneg; lia).
  unfold INITIAL_RTO, MAX_RTO, millis. lia.
Qed.

(** The loop ends with every remaining deadline in the future. *)
Lemma expire_loop_ok turns s now index :
  core_wf s -> destroyed s = false -> (length (pending s) - index <= turns)%nat ->
  Forall (fun p => now < next_attempt p) (take index (pending s)) ->
  exists s', expire_loop turns s now index = Ret s' /\ core_wf s' /\ destroyed s' = false
    /\ Forall (fun p => now < next_attempt p) (pending s').
Proof.
  revert s index. induction turns as [|turns IH]; intros s index Hw Hd Ht Hf; cbn [expire_loop];
    destruct (pending s !! index) as [p|] eqn:Hp.
  2, 4: exists s; apply lookup_ge_None in Hp; rewrite take_ge in Hf by lia; done.
  - apply lookup_lt_Some in Hp. lia.
  - pose proof (lookup_lt_Some _ _ _ Hp) as Hlt.
    destruct (Z.ltb_spec now (next_attempt p)) as [Hfut|Hdue].
    { apply IH; try done; [lia|]. rewrite (take_S_r _ _ p) by done.
      apply Forall_app. split; [done|by apply Forall_singleton]. }
    destruct (_ || _) eqn:Eor.
    + destruct (remove_pending_wf s index p Hw Hp) as (Hw1 & _ & _ & _ & _).
      pose proof (remove_queued_wf _ (p_transaction p) Hw1) as Hw2.
      set (s1 := remove_queued_transaction _ _) in *.
      assert (destroyed s1 = false /\ pending s1 = remove_at index (pending s)) as (Hd1 & Hp1) by done.
      clearbody s1.
      destruct (complete_failure_good s1 (p_operation p) RESULT_TIMEOUT 0 now tt Hw2 Hd1)
        as (s2 & [] & [= Hs2] & Hw3 & Hd3).
      destruct (complete_failure_pending s1 (p_operation p) RESULT_TIMEOUT 0 now Hw2) as [Hpe|Hpe];
        rewrite Hs2 in *; apply IH; try done; rewrite Hpe; [| |simpl; lia|by rewrite take_nil].
      * rewrite Hp1. pose proof (remove_at_length _ _ _ Hp). lia.
      * rewrite Hp1. unfold remove_at. rewrite take_app_le by (rewrite length_take; lia).
        by rewrite take_take, Nat.min_id.
    + destruct (queue_packet_eq s (p_packet p)) as (cs & es & Eq & _); [apply Hw..|].
      pose proof (queue_packet_wf s (p_packet p) Hw Hd) as Hwq. rewrite Eq in *.
      assert (pending_ok (key s) (pr_max_nonce_retries (profile s)) p) as (Ht1 & Ht2 & Ht3 & Ht4 & Ht5 & Ht6) by (eapply Forall_lookup_1; [apply Hw|done]).
      apply orb_false_iff in Eor as [Etx%Z.leb_gt _].
      set (p' := mkPending _ _ _ _ _ _ _ _).
      destruct (rto_doubles (transmissions p)) as [Hrto Hpos]; [lia|]. rewrite <- Ht3 in Hrto, Hpos.
      assert (now < next_attempt p') as Hfut by (unfold p'; simpl; lia).
      assert (pending_ok (key s) (pr_max_nonce_retries (profile s)) p') as Hok.
      { unfold pending_ok, p'. simpl. unfold MAX_TRANSMISSIONS in *. conjs; try done; lia. }
      change (pending (set_controls cs (set_events es s))) with (pending s).
      pose proof (update_pending_wf (set_controls cs (set_events es s)) index p p' Hwq Hp eq_refl Hok) as Hw2.
      apply IH; [exact Hw2|done|simpl; rewrite length_insert; lia|]. simpl.
      rewrite (take_S_r _ _ p') by (by apply list_lookup_insert_eq).
      apply Forall_app. split; [by rewrite take_insert_ge by lia|by apply Forall_singleton].
Qed.

Lemma expire_transactions_ok s now :
  core_wf s -> destroyed s = false ->
  exists s', expire_transactions s now = Ret s' /\ core_wf s' /\ destroyed s' = false
    /\ Forall (fun p => now < next_attempt p) (pending s').
Proof. intros Hw Hd. apply expire_loop_ok; try done. lia. Qed.

Lemma try_start_good env s o k :
  core_wf s -> destroyed s = false -> state s = op_state o -> env_ok env ->
  (forall s', core_wf s' -> destroyed s' = false -> state s' = state s -> good (k s')) ->
  good (try_start env s o k).
Proof.
  intros Hw Hd Hst He Hk. unfold try_start.
  destruct (start_operation_ok env s o true 0 Hw Hd Hst He (no_retries s Hw)) as (s' & r & -> & Hw' & (es & cs & ps & ->) & _).
  rbind. destruct r; [by apply Hk|by apply good_ret].
Qed.

Lemma poll_result_good s now : core_wf s -> destroyed s = false -> good (poll_result s now).
Proof. apply good_ret. Qed.

Lemma poll_keepalive_good env s : core_wf s -> destroyed s = false -> good (poll_keepalive env s).
Proof.
  intros Hw Hd. unfold poll_keepalive. destruct (due (keepalive s) (now env)); [|by apply good_ret].
  assert (core_wf (set_keepalive (Some (now env + pr_keepalive_interval (profile s))) s)) as Hw1.
  { destruct Hw. by constructor. }
  apply poll_result_good; unfold queue_keepalive; destruct (channel _) as [c|]; try done.
  - by apply queue_packet_wf.
  - by destruct (queue_packet_eq (set_keepalive (Some (now env + pr_keepalive_interval (profile s))) s)
      (to_be 2 c ++ to_be 2 1 ++ [0xff; 0; 0; 0])) as (cs & es & -> & _); [apply Hw1..|].
Qed.

Lemma poll_channel_good env s b1 b2 :
  core_wf s -> destroyed s = false -> state s = STATE_READY -> env_ok env -> good (poll_channel env s b1 b2).
Proof.
  intros Hw Hd Hst He. unfold poll_channel. destruct (_ && _); [|by apply poll_keepalive_good].
  apply try_start_good; try done; [destruct Hw; by constructor|].
  intros s' Hw' Hd' _. by apply poll_keepalive_good.
Qed.

Lemma poll_permission_good env s b1 b2 b3 :
  core_wf s -> destroyed s = false -> state s = STATE_READY -> env_ok env -> good (poll_permission env s b1 b2 b3).
Proof.
  intros Hw Hd Hst He. unfold poll_permission. cbv zeta.
  set (s1 := if b1 then _ else s).
  assert (core_wf s1 /\ destroyed s1 = false /\ state s1 = STATE_READY) as (Hw1 & Hd1 & Hst1).
  { unfold s1. destruct b1; [|done]. split; [destruct Hw; by constructor|done]. }
  clearbody s1. destruct (_ && _); [|by apply poll_channel_good].
  apply try_start_good; try done; [destruct Hw1; by constructor|].
  intros s' Hw' Hd' Hst'. apply poll_channel_good; try done. by rewrite Hst'.
Qed.

Lemma poll_ready_good env s :
  core_wf s -> destroyed s = false -> state s = STATE_READY -> env_ok env -> good (poll_ready env s).
Proof.
  intros Hw Hd Hst He. unfold poll_ready. destruct (_ && _); [|by apply poll_permission_good].
  apply try_start_good; try done; [destruct Hw; by constructor|].
  intros s' Hw' Hd' Hst'. apply poll_permission_good; try done. by rewrite Hst'.
Qed.

Lemma poll_ok env s :
  core_wf s -> env_ok env -> exists s' r, poll env s = Ret (s', r) /\ core_wf s'.
Proof.
  intros Hw He. unfold poll. destruct (destroyed s) eqn:Hd; [by exists s, (Ok None)|].
  destruct (expire_transactions_ok s (now env) Hw Hd) as (s1 & -> & Hw1 & Hd1 & _). rbind. cbv zeta.
  set (s2 := if negb (shutting_down s1) && (state s1 =? STATE_READY) && due (allocation_expires_at s1) (now env)
             then _ else s1).
  assert (core_wf s2 /\ destroyed s2 = false) as (Hw2 & Hd2).
  { unfold s2. destruct (_ && _ && _); [|done]. split; [by apply destroy_allocation_wf|].
    by destruct (destroy_allocation_eq s1 Refresh RESULT_TIMEOUT 0) as (es & -> & _); [apply Hw1|]. }
  clearbody s2. destruct (negb (shutting_down s2) && (state s2 =? STATE_READY)) eqn:E.
  - apply andb_true_iff in E as [_ Hst%Z.eqb_eq].
    destruct (poll_ready_good env s2) as (s' & r & -> & Hw' & _); [done..|]. by exists s', r.
  - by eexists _, _.
Qed.

(** *** The other methods *)

Lemma start_allocation_ok env s :
  core_wf s -> env_ok env -> exists s' r, start_allocation env s = Ret (s', r) /\ core_wf s'.
Proof.
  intros Hw He. unfold start_allocation, require_open.
  destruct (destroyed s || shutting_down s) eqn:E; [by exists s, (Err (NativeStatus RESULT_CLOSED))|].
  apply orb_false_iff in E as [Hd _].
  destruct (Z.eqb_spec (state s) STATE_NULL) as [Hst|Hst]; cbn [negb]; [|by eexists _, _].
  assert (pending s = []) as Hp.
  { destruct (pending s) as [|p l] eqn:E; [done|]. pose proof (wf_in_flight s Hw) as Hf.
    rewrite E in Hf. apply Forall_cons in Hf as [Hf _]. rewrite Hst in Hf. by destruct (p_operation p). }
  destruct (set_state_facts s STATE_ALLOCATING Hw) as (Hst' & Hd' & _). rewrite Hd in Hd'.
  destruct (start_fresh_good env (set_state s STATE_ALLOCATING) Allocate false) as (s' & r & -> & Hw' & _);
    try done; [|by exists s', r].
  apply set_state_wf; try done. rewrite !elem_of_cons; auto 10.
Qed.

Lemma start_ready_ok env s o :
  core_wf s -> env_ok env -> op_state o = STATE_READY ->
  exists s' r,
    match require_ready s with Err e => Ret (s, Err e) | Ok _ => start_operation env s o true 0 end = Ret (s', r)
    /\ core_wf s'.
Proof.
  intros Hw He Ho. unfold require_ready, require_open.
  destruct (destroyed s || shutting_down s) eqn:E; [by eexists _, _|].
  apply orb_false_iff in E as [Hd _].
  destruct (Z.eqb_spec (state s) STATE_READY) as [Hst|Hst]; cbn [negb]; [|by eexists _, _].
  destruct (start_fresh_good env s o true) as (s' & r & -> & Hw' & _); try done; [by rewrite Ho|by exists s', r].
Qed.

Lemma resync_ok env s gap : core_wf s -> core_wf (fst (resync_after_suspend env s gap)).
Proof.
  intros Hw. unfold resync_after_suspend. destruct (_ || _) eqn:E; [done|].
  assert (destroyed s = false) as Hd by (destruct (destroyed s); done).
  assert (forall x y z t, core_wf t -> core_wf (set_keepalive x (set_maintenance_refresh y (set_allocation_refresh z t)))) as Hs.
  { intros x y z t []. by constructor. }
  destruct (allocation_expires_at s); [|by apply Hs].
  destruct (_ <? _); simpl; [|by apply destroy_allocation_wf].
  apply Hs. destruct Hw. constructor; try done. simpl. intros Hr. destruct (wf_ready0 Hr) as (? & ? & ? & _). done.
Qed.

Lemma pull_control_ok s capacity : core_wf s -> core_wf (fst (pull_control s capacity)).
Proof.
  intros Hw. unfold pull_control. destruct (controls s) as [|c rest] eqn:E; [done|].
  assert (core_wf (set_controls rest s)) as Hr; [|by destruct (_ <? _)].
  pose proof (wf_controls s Hw) as Hc. rewrite E, zlen_cons in Hc.
  apply core_wf_controls; [done|lia|]. destruct (destroyed s) eqn:Hd; [|by left].
  destruct (wf_destroyed s Hw Hd) as (_ & Hn & _). by rewrite E in Hn.
Qed.

Lemma pull_event_ok s : core_wf s -> core_wf (fst (pull_event s)).
Proof.
  intros Hw. unfold pull_event. destruct (events s) as [|e rest] eqn:E; [done|].
  pose proof (wf_events s Hw) as Hc. rewrite E, zlen_cons in Hc. apply core_wf_events; [done|lia].
Qed.

Lemma stop_activity_facts s :
  state (stop_activity s) = state s /\ destroyed (stop_activity s) = destroyed s
  /\ events (stop_activity s) = events s /\ allocation_expires_at (stop_activity s) = allocation_expires_at s.
Proof. by destruct s. Qed.

Lemma stop_activity_wf s : core_wf s -> state s <> STATE_READY -> core_wf (stop_activity s).
Proof.
  intros [] Hst. destruct s. constructor; simpl in *; try done; [by left|naive_solver].
Qed.

Lemma clear_pending_wf s : core_wf s -> core_wf (set_pending [] s).
Proof. intros []. constructor; simpl; try done; try (by constructor). naive_solver. Qed.

Lemma deallocating_wf s :
  core_wf s -> destroyed s = false -> core_wf (set_state (set_pending [] (stop_activity s)) STATE_DEALLOCATING)
  /\ destroyed (set_state (set_pending [] (stop_activity s)) STATE_DEALLOCATING) = false
  /\ state (set_state (set_pending [] (stop_activity s)) STATE_DEALLOCATING) = STATE_DEALLOCATING.
Proof.
  intros Hw Hd. destruct (set_state_eq (set_pending [] (stop_activity s)) STATE_DEALLOCATING) as (es & -> & He).
  { exact (wf_events s Hw). }
  destruct Hw, s. split; [|done]. constructor; simpl in *; try done; try (by constructor); try (by left); [|congruence].
  rewrite !elem_of_cons; auto 10.
Qed.

Lemma graceful_shutdown_ok env s :
  core_wf s -> env_ok env -> exists s' r, graceful_shutdown env s = Ret (s', r) /\ core_wf s'.
Proof.
  intros Hw He. unfold graceful_shutdown.
  destruct (destroyed s || shutting_down s) eqn:E; [by exists s, (Ok tt)|].
  apply orb_false_iff in E as [Hd Hsd]. cbv zeta.
  destruct (stop_activity_facts s) as (-> & _ & _ & ->).
  destruct (deallocating_wf s Hw Hd) as (Hw1 & Hd1 & Hst1).
  pose proof (stop_activity_wf s Hw) as Hw2. destruct (Z.eqb_spec (state s) STATE_READY) as [Hr|Hr]; cbn [orb].
  { destruct (start_fresh_good env _ Deallocate true Hw1 Hd1 Hst1 He) as (s' & r & -> & Hw' & _). by exists s', r. }
  specialize (Hw2 Hr). destruct (_ && _).
  { destruct (start_fresh_good env _ Deallocate true Hw1 Hd1 Hst1 He) as (s' & r & -> & Hw' & _). by exists s', r. }
  destruct (negb _); eexists _, _; (split; [reflexivity|]); [by apply clear_pending_wf|done].
Qed.

Lemma force_destroy_ok s status : core_wf s -> core_wf (force_destroy s status).
Proof.
  intros Hw. unfold force_destroy. destruct (destroyed s) eqn:Hd; [done|]. cbv zeta. apply push_event_wf.
  destruct (set_state_eq (set_pending [] (set_controls [] (set_destroyed true s))) STATE_DESTROYING) as (es & -> & He).
  { exact (wf_events s Hw). }
  destruct Hw, s. constructor; simpl in *; try done; try (by constructor). rewrite !elem_of_cons; auto 10.
Qed.

(** *** Every history *)

(** The calls that the driver and the worker make on a core. *)
Inductive Call : Type :=
| StartAllocation | StartChannel | StartPermission
| InputStun (packet : bytes)
| Poll
| ResyncAfterSuspend (gap : Z)
| PullControl (capacity : Z)
| PullEvent
| GracefulShutdown
| ForceDestroy (status : Z).

Definition call (env : Env) (s : Inner) (c : Call) : res Inner :=
  match c with
  | StartAllocation => fst <$> start_allocation env s
  | StartChannel => fst <$> start_channel env s
  | StartPermission => fst <$> start_permission env s
  | InputStun packet => fst <$> input_stun env s packet
  | Poll => fst <$> poll env s
  | ResyncAfterSuspend gap => Ret (fst (resync_after_suspend env s gap))
  | PullControl capacity => Ret (fst (pull_control s capacity))
  | PullEvent => Ret (fst (pull_event s))
  | GracefulShutdown => fst <$> graceful_shutdown env s
  | ForceDestroy status => Ret (force_destroy s status)
  end.

Definition call_ok (c : Env * Call) : Prop :=
  env_ok (fst c) /\ match snd c with InputStun packet => is_bytes packet | _ => True end.

Fixpoint run_calls (s : Inner) (calls : list (Env * Call)) : res Inner :=
  match calls with
  | [] => Ret s
  | (env, c) :: calls => s ← call env s c; run_calls s calls
  end.

Lemma call_wf env s c : core_wf s -> call_ok (env, c) -> exists s', call env s c = Ret s' /\ core_wf s'.
Proof.
  intros Hw [He Hc]. simpl in *.
  assert (forall A (m : res (Inner * A)), (exists s' r, m = Ret (s', r) /\ core_wf s') ->
    exists s', fst <$> m = Ret s' /\ core_wf s') as Hm by (intros A m (s' & r & -> & Hw'); by exists s').
  destruct c; cbn [call].
  - by apply Hm, start_allocation_ok.
  - by apply Hm, start_ready_ok.
  - by apply Hm, start_ready_ok.
  - by apply Hm, input_stun_ok.
  - by apply Hm, poll_ok.
  - eexists. split; [reflexivity|]. by apply resync_ok.
  - eexists. split; [reflexivity|]. by apply pull_control_ok.
  - eexists. split; [reflexivity|]. by apply pull_event_ok.
  - by apply Hm, graceful_shutdown_ok.
  - eexists. split; [reflexivity|]. by apply force_destroy_ok.
Qed.

Lemma create_wf server_ username_ password_ peer_ profile_ transport_ s :
  addr_ok peer_ -> profile_ok profile_ ->
  create server_ username_ password_ peer_ profile_ transport_ = Ok s -> core_wf s.
Proof.
  intros Ha Hp. unfold create. destruct (_ || _); [done|].
  destruct ((_ || _) || _ || _) eqn:E; [done|]. intros [= <-].
  bool_to_prop. pose proof (zlen_nonneg username_).
  constructor; simpl; try done; try (by constructor); try (by left).
  unfold credentials_ok, is_u. simpl. conjs; try done; lia.
Qed.

(** C1: whatever calls are made on a core, with whatever datagrams, clocks and
    random transactions, no call panics, and the core keeps its invariant: at
    most 16 queued controls and 64 events, at most one transaction per
    operation, each in the state in which its operation may be in flight, each
    with a request that decodes with that transaction and at most seven
    transmissions; a ready core has a relay address and an expiry; a destroyed
    core has nothing queued or in flight. *)
Theorem core_safe server_ username_ password_ peer_ profile_ transport_ s calls :
  addr_ok peer_ -> profile_ok profile_ ->
  create server_ username_ password_ peer_ profile_ transport_ = Ok s ->
  Forall call_ok calls ->
  exists s', run_calls s calls = Ret s' /\ core_wf s'.
Proof.
  intros Ha Hp Hc Hcalls. pose proof (create_wf _ _ _ _ _ _ _ Ha Hp Hc) as Hw. clear Hc.
  revert s Hw. induction Hcalls as [|[env c] calls Hok _ IH]; intros s Hw; [by exists s|].
  destruct (call_wf env s c Hw Hok) as (s' & Hs & Hw'). cbn [run_calls]. rewrite Hs. rbind. by apply IH.
Qed.
End Core.
