(* ===== verification/TurnCoreFacts.v ===== *)
(** * TurnCoreFacts: what the TURN client guarantees

    Theorems on the definitions of [TurnCore], beyond its invariant: whose word
    the client takes for its relay address and channel, that destruction is
    final, how retransmissions, retries and timers are spaced, and a complete
    handshake evaluated step by step. *)

From S2P Require Import Prelude Bytes Digests StunCodec TurnMessage TurnCore.

Section Facts.
Context `{Digests}.

(** ** Authenticated responses *)

(** [s'] has no relay address or channel that [s] had not. *)
Definition keeps (s s' : Inner) : Prop :=
  (relay s' = relay s \/ relay s' = None) /\ (channel s' = channel s \/ channel s' = None).

Lemma keeps_refl s : keeps s s.
Proof. by split; left. Qed.

Ltac keep_same := split; left; reflexivity.

Lemma keeps_trans s1 s2 s3 : keeps s1 s2 -> keeps s2 s3 -> keeps s1 s3.
Proof. unfold keeps. intros [[-> | ->] [-> | ->]] [[-> | ->] [-> | ->]]; auto. Qed.

Lemma push_event_keeps s e : keeps s (push_event s e).
Proof. unfold push_event. destruct (_ =? _); keep_same. Qed.

Lemma set_state_keeps s st : keeps s (set_state s st).
Proof. unfold set_state, push_event. repeat case_match; keep_same. Qed.

Lemma queue_packet_keeps s packet : keeps s (queue_packet s packet).
Proof. unfold queue_packet, push_event. destruct (_ =? _); [|keep_same]. case_match; keep_same. Qed.

Lemma start_operation_keeps env s o auth retries s' r :
  start_operation env s o auth retries = Ret (s', r) -> keeps s s'.
Proof.
  unfold start_operation. destruct (has_operation s o).
  - case_bool_decide; [destruct (List.find _ _)|]; intros [= <- <-]; try keep_same.
    apply queue_packet_keeps.
  - destruct (_ && _); [intros [= <- <-]; keep_same|].
    intros (packet & _ & Hp)%bind_ret_inv. destruct packet as [packet|e]; injection Hp as <- <-; [|keep_same].
    unfold push_control. pose proof (queue_packet_keeps s packet) as Hk. exact Hk.
Qed.

Lemma destroy_allocation_keeps s o status code : keeps s (destroy_allocation s o status code).
Proof.
  unfold destroy_allocation. cbv zeta. split; right;
    (case_bool_decide; unfold set_state, push_event; repeat case_match; reflexivity).
Qed.

Lemma schedule_keeps s o now : keeps s (fst (schedule_maintenance_retry s o now)).
Proof. destruct o; simpl; try keep_same. destruct (_ <=? _); keep_same. Qed.

Lemma destroy_after_keeps s : keeps s (destroy_after_channel_rebind_exhausted s).
Proof.
  unfold destroy_after_channel_rebind_exhausted. cbv zeta. unfold set_state.
  set (s1 := set_keepalive None _). assert (keeps s s1) as Hk by (split; [by left|by right]). clearbody s1.
  eapply keeps_trans; [exact Hk|]. eapply keeps_trans; [apply push_event_keeps|]. apply set_state_keeps.
Qed.

Lemma complete_failure_keeps s o status code now : keeps s (complete_failure s o status code now).
Proof.
  unfold complete_failure. match goal with |- context [if ?c then _ else _] => destruct c end;
    [|apply destroy_allocation_keeps].
  pose proof (schedule_keeps (complete s o status code) o now) as Hk.
  destruct (schedule_maintenance_retry _ o now) as [s' scheduled]. simpl in Hk.
  apply (keeps_trans _ _ _ (push_event_keeps s _)) in Hk.
  destruct scheduled; [exact Hk|]. eapply keeps_trans; [exact Hk|]. apply destroy_after_keeps.
Qed.

Lemma input_error_keeps env s p m s' r : input_error env s p m = Ret (s', r) -> keeps s s'.
Proof.
  assert (forall e o st code now, keeps s (complete_failure (push_event s e) o st code now)) as Hgive.
  { intros. eapply keeps_trans; [apply push_event_keeps|apply complete_failure_keeps]. }
  unfold input_error. intros (error & _ & Hm)%bind_ret_inv. cbv zeta in Hm.
  destruct (_ =? 0); [injection Hm as <- <-; apply Hgive|].
  destruct (requires_allocation_recreate _ _).
  { injection Hm as <- <-. eapply keeps_trans; [apply push_event_keeps|apply destroy_allocation_keeps]. }
  apply bind_ret_inv in Hm as (ra & _ & Hm). apply bind_ret_inv in Hm as (na & _ & Hm).
  destruct (match ra with Some a => _ | None => _ end) as [rl|]; [|injection Hm as <- <-; apply Hgive].
  destruct na as [a|]; [|injection Hm as <- <-; apply Hgive].
  destruct (_ && _); [|injection Hm as <- <-; apply Hgive].
  apply bind_ret_inv in Hm as ([s1 r1] & Hs & Hm).
  apply start_operation_keeps in Hs. change (keeps s s1) in Hs.
  destruct (is_ok r1); injection Hm as <- <-; [exact Hs|].
  eapply keeps_trans; [exact Hs|]. eapply keeps_trans; [apply push_event_keeps|apply complete_failure_keeps].
Qed.

(** A success that the guard lets through answers an authenticated request and verifies. *)
Lemma refused_false s packet m :
  refused s packet m true = Ret false -> class m = Success -> verify_integrity packet m (key s) = Ret true.
Proof.
  intros Hr Hc. unfold refused in Hr. simpl negb in Hr. cbv iota in Hr.
  apply bind_ret_inv in Hr as (q & Hq & Hr). unfold response_requires_integrity in Hq. rewrite Hc in Hq.
  injection Hq as <-. simpl negb in Hr. cbv iota in Hr. apply bind_ret_inv in Hr as (v & Hv & Hr).
  destruct v; [done|]. unfold is_fingerprinted_allocation_mismatch in Hr.
  rewrite bool_decide_false in Hr by congruence. simpl in Hr. discriminate Hr.
Qed.

(** C2: the client takes a relay address or a channel only from a success
    response whose message integrity verifies under its key and that answers a
    request it sent with that key; every other datagram leaves them as they
    were or drops them. *)
Theorem relay_authenticated env s packet s' r :
  input_stun env s packet = Ret (s', r) ->
  keeps s s'
  \/ exists m p, decode packet = Ret (Ok m) /\ class m = Success /\ p ∈ pending s
     /\ p_transaction p = transaction m /\ op_method (p_operation p) = StunCodec.method m
     /\ authenticated p = true /\ verify_integrity packet m (key s) = Ret true.
Proof.
  unfold input_stun. intros (d & Hd & Hm)%bind_ret_inv.
  destruct d as [m|e]; [|injection Hm as <- <-; left; apply keeps_refl].
  destruct (negb _) eqn:Ec; [injection Hm as <- <-; left; apply keeps_refl|].
  apply bind_ret_inv in Hm as (f & _ & Hm).
  destruct (bool_decide (f = Some false)); [injection Hm as <- <-; left; apply keeps_refl|]. cbv zeta in Hm.
  destruct (position _ _) as [index|] eqn:Epos; [|injection Hm as <- <-; left; apply keeps_refl].
  apply position_Some in Epos as (p & Hp & Hans & _). rewrite Hp in Hm.
  apply andb_true_iff in Hans as [Ht%bytes_eqb_eq Hmeth%Z.eqb_eq].
  unfold input_pending in Hm. apply bind_ret_inv in Hm as (rf & Hrf & Hm). destruct rf.
  { left. apply bind_ret_inv in Hm as (code & _ & Hm).
    destruct code; injection Hm as <- <-; [apply push_event_keeps|apply keeps_refl]. }
  cbv zeta in Hm. set (s1 := remove_queued_transaction _ _) in Hm.
  assert (keeps s s1) as Hk by keep_same. clearbody s1.
  destruct (bool_decide (class m = Success) && negb (authenticated p)) eqn:Ea.
  { left. injection Hm as <- <-. eapply keeps_trans; [exact Hk|apply complete_failure_keeps]. }
  case_bool_decide as Herr.
  { left. eapply keeps_trans; [exact Hk|]. by eapply input_error_keeps. }
  right. assert (class m = Success) as Hs.
  { apply negb_false_iff, orb_true_iff in Ec. rewrite !bool_decide_eq_true in Ec. by destruct Ec. }
  rewrite bool_decide_true in Ea by done. simpl in Ea. apply negb_false_iff in Ea.
  exists m, p. conjs; try done; [by eapply list_elem_of_lookup_2|].
  rewrite Ea in Hrf. by apply refused_false.
Qed.

(** ** Destruction is final *)

Lemma call_destroyed env s c s' :
  core_wf s -> destroyed s = true -> call env s c = Ret s' -> destroyed s' = true.
Proof.
  intros Hw Hd Hc. destruct (wf_destroyed s Hw Hd) as (Hp & Hctl & Hst).
  destruct c; cbn [call] in Hc.
  - unfold start_allocation, require_open in Hc. rewrite Hd in Hc. injection Hc as <-. done.
  - unfold start_channel, require_ready, require_open in Hc. rewrite Hd in Hc. injection Hc as <-. done.
  - unfold start_permission, require_ready, require_open in Hc. rewrite Hd in Hc. injection Hc as <-. done.
  - destruct (input_stun env s packet) as [[s1 r]|] eqn:E; [|done]. injection Hc as <-.
    unfold input_stun in E. apply bind_ret_inv in E as (d & _ & E). destruct d; [|by injection E as <- <-].
    destruct (negb _); [by injection E as <- <-|]. apply bind_ret_inv in E as (f & _ & E).
    destruct (bool_decide _); [by injection E as <- <-|]. rewrite Hp in E. by injection E as <- <-.
  - unfold poll in Hc. rewrite Hd in Hc. by injection Hc as <-.
  - unfold resync_after_suspend in Hc. rewrite Hd in Hc. by injection Hc as <-.
  - unfold pull_control in Hc. rewrite Hctl in Hc. by injection Hc as <-.
  - unfold pull_event in Hc. destruct (events s); by injection Hc as <-.
  - unfold graceful_shutdown in Hc. rewrite Hd in Hc. by injection Hc as <-.
  - unfold force_destroy in Hc. rewrite Hd in Hc. by injection Hc as <-.
Qed.

Lemma force_destroyed s status : core_wf s -> core_wf (force_destroy s status) /\ destroyed (force_destroy s status) = true.
Proof.
  intros Hw. split; [by apply force_destroy_ok|]. unfold force_destroy. destruct (destroyed s) eqn:E; [done|].
  cbv zeta. rewrite push_event_destroyed. unfold set_state. destruct (_ =? _); [done|]. by rewrite push_event_destroyed.
Qed.

(** After [force_destroy] nothing is ever queued to the server again, and
    the core stays destroyed, whatever is called on it. *)
Lemma destroyed_is_final s status calls :
  core_wf s -> Forall call_ok calls ->
  exists s', run_calls (force_destroy s status) calls = Ret s'
    /\ destroyed s' = true /\ controls s' = [] /\ pending s' = [] /\ state s' = STATE_DESTROYING.
Proof.
  intros Hw Hcalls.
  destruct (force_destroyed s status Hw) as [Hw1 Hd1].
  revert Hw1 Hd1. generalize (force_destroy s status). clear s Hw.
  induction Hcalls as [|[env c] calls Hok _ IH]; intros s Hw Hd.
  - exists s. destruct (wf_destroyed s Hw Hd) as (? & ? & ?). done.
  - destruct (call_wf env s c Hw Hok) as (s1 & Hs & Hw1). cbn [run_calls]. rewrite Hs. rbind.
    apply IH; [done|]. exact (call_destroyed env s c s1 Hw Hd Hs).
Qed.
End Facts.

(** ** Timers *)

Section Timers.
Context `{Digests}.

(** [expire_transactions] ends within a turn per transaction, and leaves
    only transactions whose next attempt is in the future, so that the deadline
    [poll] reports never falls on a transaction it has just served. *)
Lemma expire_transactions_future s now :
  core_wf s -> destroyed s = false ->
  exists s', expire_transactions s now = Ret s' /\ core_wf s'
    /\ Forall (fun p => now < next_attempt p) (pending s').
Proof.
  intros Hw Hd. destruct (expire_transactions_ok s now Hw Hd) as (s' & Hs & Hw' & _ & Hf). by exists s'.
Qed.

Lemma retry_delay_bounds n :
  1 <= n -> retry_delay n = Z.min (MAINTENANCE_RETRY_BASE * 2 ^ Z.min (n - 1) 5) MAINTENANCE_RETRY_MAX.
Proof.
  intros Hn. unfold retry_delay. rewrite saturating_sub_exact by done.
  by rewrite Z.shiftl_mul_pow2, Z.mul_1_l by lia.
Qed.

(** The delay before a maintenance retry doubles with every failure from
    one second, never exceeds thirty seconds, never shrinks as failures
    accumulate, and a channel is retried at most three times. *)
Lemma maintenance_backoff s o now s' scheduled :
  core_wf s -> o ∈ [Refresh; Permission; Channel] ->
  schedule_maintenance_retry s o now = (s', scheduled) ->
  let failures t := match o with Refresh => refresh_failures t | Permission => permission_failures t
                    | _ => channel_failures t end in
  let retry t := match o with Refresh => allocation_refresh t | Permission => permission_retry t
                 | _ => channel_retry t end in
  failures s' = Z.min (failures s + 1) 255
  /\ (scheduled = true <-> (o = Channel -> failures s' < 4))
  /\ (scheduled = true ->
      retry s' = Some (now + Z.min (secs 1 * 2 ^ Z.min (failures s' - 1) 5) (secs 30))
      /\ secs 1 <= Z.min (secs 1 * 2 ^ Z.min (failures s' - 1) 5) (secs 30) <= secs 30).
Proof.
  intros Hw Ho. pose proof (wf_failures s Hw) as (Hr & Hp & Hc). unfold is_u in Hr, Hp, Hc.
  assert (forall n, 1 <= n -> secs 1 <= Z.min (secs 1 * 2 ^ Z.min (n - 1) 5) (secs 30) <= secs 30) as Hb.
  { intros n Hn. assert (0 < 2 ^ Z.min (n - 1) 5) by (apply Z.pow_pos_nonneg; lia). unfold secs. lia. }
  assert (o = Refresh \/ o = Permission \/ o = Channel) as [-> | [-> | ->]] by set_solver;
    cbn [schedule_maintenance_retry]; unfold saturating_add; change (2 ^ 8 - 1) with 255.
  - intros [= <- <-]. simpl. rewrite retry_delay_bounds by lia.
    split; [lia|]. split; [done|]. intros _. split; [done|]. apply Hb. lia.
  - intros [= <- <-]. simpl. rewrite retry_delay_bounds by lia.
    split; [lia|]. split; [done|]. intros _. split; [done|]. apply Hb. lia.
  - unfold MAX_CHANNEL_MAINTENANCE_FAILURES. simpl.
    destruct (Z.leb_spec 4 (Z.min (channel_failures s + 1) 255)) as [Hm|Hm]; intros [= <- <-]; simpl.
    + split; [lia|]. split; [|done]. split; [done|]. intros Hx. specialize (Hx eq_refl). lia.
    + rewrite retry_delay_bounds by lia. split; [lia|]. split; [split; [intros _ _; lia|done]|].
      intros _. split; [done|]. apply Hb. lia.
Qed.

(** An allocation of at least a second is refreshed strictly before it
    expires, and never sooner than half a second from now. *)
Lemma refresh_before_expiry now lifetime interval :
  1 <= default REQUESTED_ALLOCATION_LIFETIME_SECS lifetime ->
  now + millis 500 <= allocation_refresh_deadline now lifetime interval
  < now + secs (default REQUESTED_ALLOCATION_LIFETIME_SECS lifetime).
Proof.
  intros Hl. unfold allocation_refresh_deadline. cbv zeta. unfold secs, millis.
  set (l := default REQUESTED_ALLOCATION_LIFETIME_SECS lifetime) in *.
  assert (l * 1000000000 / 2 = l * 500000000) as ->.
  { replace (l * 1000000000) with (l * 500000000 * 2) by lia. by rewrite Z.div_mul. }
  lia.
Qed.

Lemma refresh_before_expiry_witness :
  7 + millis 500 <= allocation_refresh_deadline 7 (Some 1) ALLOCATION_REFRESH < 7 + secs 1.
Proof. apply (refresh_before_expiry 7 (Some 1) ALLOCATION_REFRESH). simpl. lia. Defined.

(** The first keepalive of an allocation falls within a fifth of the
    interval around it, and always after the present; the arithmetic does not
    underflow for any interval of at least a millisecond. *)
Lemma first_keepalive_spread now interval relay :
  millis 1 <= interval -> addr_ok relay ->
  exists d, first_keepalive_deadline now interval relay = Ret d
    /\ Z.abs (d - (now + millis (interval / millis 1))) <= millis (Z.max (interval / millis 1 / 5) 1)
    /\ now <= d.
Proof.
  intros Hi Ha. unfold first_keepalive_deadline. cbv zeta.
  assert (1 <= interval / millis 1) as H1 by (apply Z.div_le_lower_bound; unfold millis in *; lia).
  set (ms := interval / millis 1) in *. assert (ms / 5 <= ms) by (apply Z.div_le_upper_bound; lia).
  destruct (Z.ltb_spec ms (Z.max (ms / 5) 1)); [lia|].
  eexists. split; [reflexivity|]. set (span := Z.max (ms / 5) 1) in *.
  pose proof (Z.mod_pos_bound (keepalive_mix relay) (span * 2 + 1)) as Hm. unfold millis. lia.
Qed.

Lemma first_keepalive_spread_witness :
  exists d, first_keepalive_deadline 0 KEEPALIVE_INTERVAL (V4 [10; 0; 0; 1] 5000) = Ret d
    /\ Z.abs (d - millis 10000) <= millis 2000.
Proof.
  destruct (first_keepalive_spread 0 KEEPALIVE_INTERVAL (V4 [10; 0; 0; 1] 5000)) as (d & Hd & Hb & _).
  - unfold millis, KEEPALIVE_INTERVAL, secs. lia.
  - unfold addr_ok, is_u. split; [reflexivity|]. split; [apply is_bytes_check; reflexivity|lia].
  - exists d. split; [exact Hd|exact Hb].
Defined.
End Timers.

(** ** A handshake, evaluated

    A client and a server that challenges it and then grants the allocation;
    the digests are those of [checksum_digests]. *)

Definition example_peer : SocketAddr := V4 [10; 9; 9; 1] 56000.
Definition example_relay : SocketAddr := V4 [203; 0; 113; 7] 49152.
Definition example_env (t : Z) (r : Z) : Env := mkEnv t (fun _ => t) (fun _ => replicate 12 r).

Definition example_core : Inner :=
  match create (V4 [198; 51; 100; 4] 3478) [117] [112] example_peer PJNATH_COMPAT Datagram with
  | Ok s => s
  | Err _ => mkInner (V4 [] 0) (V4 [] 0) [] [] None None None 0 None None [] [] [] None None None None None
               0 0 0 None false false PJNATH_COMPAT Datagram
  end.

(** 401 with realm [114] and nonce [110], for the transaction of ones. *)
Definition example_challenge : bytes :=
  message_bytes 0x0113 (replicate 12 1)
    (to_be 2 ATTR_ERROR_CODE ++ to_be 2 4 ++ [0; 0; 4; 1]
     ++ to_be 2 ATTR_REALM ++ to_be 2 1 ++ [114; 0; 0; 0]
     ++ to_be 2 ATTR_NONCE ++ to_be 2 1 ++ [110; 0; 0; 0]).

(** The grant, for the transaction of twos. *)
Definition example_grant : bytes :=
  match finish_authenticated
    (b_attribute (b_xor_address (with_transaction 0x0103 (replicate 12 2)) ATTR_XOR_RELAYED_ADDRESS example_relay)
       ATTR_LIFETIME (to_be 4 600))
    (md5 ([117] ++ [58] ++ [114] ++ [58] ++ [112])) with
  | Ret (Ok packet) => packet
  | _ => []
  end.

Definition example_calls : list (Env * Call) :=
  [(example_env 0 1, StartAllocation);
   (example_env 5 2, InputStun example_challenge);
   (example_env 9 3, InputStun example_grant)].

Definition after_calls (n : nat) : Inner :=
  match run_calls example_core (take n example_calls) with Ret s => s | Panic => example_core end.

Lemma example_core_wf : core_wf example_core.
Proof.
  assert (addr_ok example_peer) as Ha.
  { unfold addr_ok, example_peer, is_u. split; [reflexivity|]. split; [apply is_bytes_check; reflexivity|lia]. }
  assert (profile_ok PJNATH_COMPAT) as Hp.
  { unfold profile_ok, PJNATH_COMPAT, millis, KEEPALIVE_INTERVAL, secs, MAX_NONCE_RETRIES. simpl. lia. }
  exact (create_wf (V4 [198; 51; 100; 4] 3478) [117] [112] _ _ Datagram example_core Ha Hp eq_refl).
Qed.

Lemma example_calls_ok : Forall call_ok example_calls.
Proof.
  assert (forall t r, env_ok (example_env t r)) as He by done.
  repeat (apply List.Forall_cons; [split; [apply He|cbn [snd]; try exact I; apply is_bytes_check; vm_compute; reflexivity]|]).
  apply List.Forall_nil.
Qed.

(** The allocation is granted: the core is ready, with the server's address. *)
Lemma example_ready :
  state (after_calls 3) = STATE_READY /\ relay (after_calls 3) = Some example_relay
  /\ relay (after_calls 2) = None /\ pending (after_calls 3) = [].
Proof. vm_compute. repeat split. Qed.

Lemma core_safe_witness :
  exists s', run_calls example_core example_calls = Ret s' /\ core_wf s'.
Proof.
  apply (core_safe (V4 [198; 51; 100; 4] 3478) [117] [112] example_peer PJNATH_COMPAT Datagram example_core example_calls).
  - unfold addr_ok, example_peer, is_u. split; [reflexivity|]. split; [apply is_bytes_check; reflexivity|lia].
  - unfold profile_ok, PJNATH_COMPAT, millis, KEEPALIVE_INTERVAL, secs, MAX_NONCE_RETRIES. simpl. lia.
  - reflexivity.
  - exact example_calls_ok.
Defined.

Lemma relay_authenticated_witness :
  exists m p, decode example_grant = Ret (Ok m) /\ class m = Success /\ p ∈ pending (after_calls 2)
    /\ authenticated p = true /\ verify_integrity example_grant m (key (after_calls 2)) = Ret true.
Proof.
  destruct (relay_authenticated (example_env 9 3) (after_calls 2) example_grant (after_calls 3) 0)
    as [[[Hk|Hk] _]|(m & p & Hd & Hc & Hp & _ & _ & Ha & Hv)].
  - vm_compute. reflexivity.
  - vm_compute in Hk. discriminate Hk.
  - vm_compute in Hk. discriminate Hk.
  - exists m, p. split; [exact Hd|]. split; [exact Hc|]. split; [exact Hp|]. split; [exact Ha|exact Hv].
Defined.

Lemma destroyed_is_final_witness :
  exists s', run_calls (force_destroy example_core RESULT_CLOSED) example_calls = Ret s'
    /\ destroyed s' = true /\ controls s' = [] /\ pending s' = [] /\ state s' = STATE_DESTROYING.
Proof. exact (destroyed_is_final example_core RESULT_CLOSED example_calls example_core_wf example_calls_ok). Defined.

Lemma after_calls_wf n : core_wf (after_calls n).
Proof.
  assert (forall s calls, core_wf s -> Forall call_ok calls -> exists s', run_calls s calls = Ret s' /\ core_wf s') as Hrun.
  { intros s calls Hw Hc. revert s Hw. induction Hc as [|[env c] calls Hok _ IH]; intros s Hw; [by exists s|].
    destruct (call_wf env s c Hw Hok) as (s1 & Hs & Hw1). cbn [run_calls]. rewrite Hs. rbind. by apply IH. }
  destruct (Hrun example_core (take n example_calls) example_core_wf) as (s & Hs & Hw).
  { apply Forall_take, example_calls_ok. }
  unfold after_calls. by rewrite Hs.
Qed.

(** The request of the first call, still unanswered after a second, is sent again. *)
Lemma expire_transactions_future_witness :
  exists s', expire_transactions (after_calls 1) (secs 1) = Ret s'
    /\ Forall (fun p => secs 1 < next_attempt p) (pending s') /\ zlen (controls s') = 2.
Proof.
  destruct (expire_transactions_future (after_calls 1) (secs 1)) as (s' & Hs & _ & Hf);
    [apply after_calls_wf|vm_compute; reflexivity|].
  exists s'. split; [exact Hs|]. split; [exact Hf|]. vm_compute in Hs. injection Hs as <-. vm_compute. reflexivity.
Defined.

Lemma maintenance_backoff_witness :
  exists s', schedule_maintenance_retry example_core Refresh 0 = (s', true)
    /\ secs 1 <= Z.min (secs 1 * 2 ^ Z.min (refresh_failures s' - 1) 5) (secs 30) <= secs 30.
Proof.
  destruct (schedule_maintenance_retry example_core Refresh 0) as [s' b] eqn:E.
  pose proof (maintenance_backoff example_core Refresh 0 s' b example_core_wf) as Hm.
  destruct Hm as (_ & _ & Hb); [apply elem_of_cons; left; reflexivity|exact E|].
  assert (b = true) as Hbt by (injection E as _ <-; reflexivity). subst b.
  exists s'. split; [reflexivity|]. exact (proj2 (Hb eq_refl)).
Defined.

Lemma build_request_decodes_witness :
  exists packet m, build_request (after_calls 2) Refresh (replicate 12 8) true = Ret (Ok packet)
    /\ decode packet = Ret (Ok m) /\ class m = Request /\ StunCodec.method m = 4
    /\ verify_integrity packet m (key (after_calls 2)) = Ret true.
Proof.
  destruct (build_request (after_calls 2) Refresh (replicate 12 8) true) as [[packet|e]|] eqn:E;
    [|vm_compute in E; discriminate E|vm_compute in E; discriminate E].
  destruct (build_request_decodes (after_calls 2) Refresh (replicate 12 8) true packet)
    as (m & tail & Hd & Hc & Hme & _ & _ & _ & Hv); [apply (wf_credentials _ (after_calls_wf 2))|reflexivity|exact E|].
  exists packet, m. split; [reflexivity|]. split; [exact Hd|]. split; [exact Hc|]. split; [exact Hme|exact (Hv eq_refl)].
Defined.
