(* ===== verification/Replay.v ===== *)
(** * Replay: the inbound replay window

    Models [ReplayWindow] of [session.rs]: a circular bitmap of 16384 counters
    and the extension of 16-bit RTP sequence numbers, and refines it to the set
    of the counters accepted so far. *)

From S2P Require Import Prelude Bytes.

(** The number of counters the bitmap covers. *)
Definition WINDOW : Z := 16384.

Record ReplayWindow : Type := mkReplayWindow {
  highest : option Z;
  seen : list Z;
}.

(** [[0; 256]] *)
Definition blank_words : list Z := replicate 256 0.

Definition default_window : ReplayWindow := mkReplayWindow None blank_words.

(** The word of [seen] that holds a counter; the index is always below 256. *)
Definition word_index (counter : Z) : nat := Z.to_nat (counter mod 16384 / 64).
Definition word (w : ReplayWindow) (counter : Z) : Z := default 0 (seen w !! word_index counter).
Definition mask (counter : Z) : Z := Z.shiftl 1 (counter mod 16384 mod 64).

Definition set_bit (w : ReplayWindow) (counter : Z) : ReplayWindow :=
  mkReplayWindow (highest w) (<[word_index counter := Z.lor (word w counter) (mask counter)]> (seen w)).

Definition clear_bit (w : ReplayWindow) (counter : Z) : ReplayWindow :=
  mkReplayWindow (highest w)
    (<[word_index counter := Z.land (word w counter) (Z.lnot (mask counter))]> (seen w)).

Definition test_bit (w : ReplayWindow) (counter : Z) : bool :=
  negb (Z.land (word w counter) (mask counter) =? 0).

(** [for i in 1..=n { clear_bit(from + i) }] *)
Fixpoint clear_bits (w : ReplayWindow) (from : Z) (n : nat) : ReplayWindow :=
  match n with
  | O => w
  | S n => clear_bits (clear_bit w (from + 1)) (from + 1) n
  end.

Definition set_highest (w : ReplayWindow) (counter : Z) : ReplayWindow := mkReplayWindow (Some counter) (seen w).

Definition accept (w : ReplayWindow) (counter : Z) : bool * ReplayWindow :=
  match highest w with
  | None => (true, set_bit (set_highest w counter) counter)
  | Some highest =>
      if highest <? counter then
        let shift := counter - highest in
        let w :=
          if 16384 <=? shift then mkReplayWindow (Some highest) blank_words
          else clear_bits w highest (Z.to_nat shift) in
        (true, set_bit (set_highest w counter) counter)
      else
        let age := highest - counter in
        if 16384 <=? age then (false, w)
        else if test_bit w counter then (false, w)
        else (true, set_bit w counter)
  end.

(** The 64-bit counter that an RTP sequence number stands for. *)
Definition extend (highest sequence : Z) : Z :=
  let base := Z.land highest (Z.lnot u16_max) in
  let extended := Z.lor base sequence in
  if saturating_add 64 extended (2 ^ 15) <? highest then saturating_add 64 extended (2 ^ 16)
  else if (saturating_add 64 highest (2 ^ 15) <? extended) && (2 ^ 16 <=? extended) then extended - 2 ^ 16
  else extended.

Definition accept_rtp (w : ReplayWindow) (sequence : Z) : bool * ReplayWindow :=
  match highest w with
  | None => accept w sequence
  | Some highest => accept w (extend highest sequence)
  end.

(** ** The bitmap *)

(** The bit of a counter. *)
Definition bit (w : ReplayWindow) (counter : Z) : bool := Z.testbit (word w counter) (counter mod 16384 mod 64).

Definition window_len (w : ReplayWindow) : Prop := length (seen w) = 256%nat.

Lemma word_index_bound c : (word_index c < 256)%nat.
Proof. unfold word_index. pose proof (Z.mod_pos_bound c 16384). Z.to_euclidean_division_equations; lia. Qed.

Lemma slot_bounds c : 0 <= c mod 16384 mod 64 < 64.
Proof. apply Z.mod_pos_bound. lia. Qed.

(** Two counters share a bit when they agree modulo the window. *)
Lemma same_slot c d :
  word_index c = word_index d -> c mod 16384 mod 64 = d mod 16384 mod 64 -> c mod 16384 = d mod 16384.
Proof.
  unfold word_index. intros Hw Hm. pose proof (Z.mod_pos_bound c 16384). pose proof (Z.mod_pos_bound d 16384).
  apply Z2Nat.inj in Hw; [|apply Z.div_pos; lia..].
  rewrite (Z.div_mod (c mod 16384) 64), (Z.div_mod (d mod 16384) 64) by lia. by rewrite Hw, Hm.
Qed.

Lemma test_bit_bit w c : test_bit w c = bit w c.
Proof.
  unfold test_bit, bit, mask. pose proof (slot_bounds c) as Hk. set (k := c mod 16384 mod 64) in *.
  destruct (Z.testbit (word w c) k) eqn:E.
  - apply negb_true_iff, Z.eqb_neq. intros H0. apply (f_equal (fun x => Z.testbit x k)) in H0.
    rewrite Z.land_spec, E, Z.bits_0, Z.shiftl_spec, Z.sub_diag in H0 by lia. done.
  - apply negb_false_iff, Z.eqb_eq. apply Z.bits_inj'. intros n Hn.
    rewrite Z.land_spec, Z.bits_0, Z.shiftl_spec by lia. destruct (Z.eq_dec n k) as [->|Hne]; [by rewrite E|].
    destruct (Z.ltb_spec n k) as [Hlt|Hge]; [by rewrite (Z.testbit_neg_r 1) by lia; rewrite andb_false_r|].
    rewrite (Z.bits_above_log2 1 (n - k)), andb_false_r; [done|lia|simpl; lia].
Qed.

Lemma testbit_mask c n : 0 <= n -> Z.testbit (mask c) n = (n =? c mod 16384 mod 64).
Proof.
  intros Hn. unfold mask. pose proof (slot_bounds c). rewrite Z.shiftl_1_l.
  destruct (Z.eqb_spec n (c mod 16384 mod 64)) as [->|Hne]; [by apply Z.pow2_bits_true|].
  apply Z.pow2_bits_false. lia.
Qed.

Lemma bit_update w c d x :
  window_len w ->
  bit (mkReplayWindow (highest w) (<[word_index c := x]> (seen w))) d
  = if decide (word_index c = word_index d) then Z.testbit x (d mod 16384 mod 64) else bit w d.
Proof.
  intros Hl. unfold bit, word. simpl. case_decide as Hd.
  - rewrite Hd, list_lookup_insert_eq; [done|]. rewrite Hl. apply word_index_bound.
  - by rewrite list_lookup_insert_ne.
Qed.

Lemma word_same w c d : word_index c = word_index d -> word w c = word w d.
Proof. unfold word. by intros ->. Qed.

Lemma bit_set w c d : window_len w -> bit (set_bit w c) d = bit w d || (c mod 16384 =? d mod 16384).
Proof.
  intros Hl. unfold set_bit. rewrite bit_update by done. pose proof (slot_bounds d).
  case_decide as Hd.
  - rewrite Z.lor_spec, testbit_mask by lia. unfold bit. rewrite (word_same w c d) by done. f_equal.
    destruct (Z.eqb_spec (d mod 16384 mod 64) (c mod 16384 mod 64)) as [He|He];
      destruct (Z.eqb_spec (c mod 16384) (d mod 16384)) as [He'|He']; try done.
    + destruct He'. by apply same_slot.
    + rewrite He' in He. done.
  - destruct (Z.eqb_spec (c mod 16384) (d mod 16384)) as [He'|He']; [|by rewrite orb_false_r].
    destruct Hd. unfold word_index. by rewrite He'.
Qed.

Lemma bit_clear w c d : window_len w -> bit (clear_bit w c) d = bit w d && negb (c mod 16384 =? d mod 16384).
Proof.
  intros Hl. unfold clear_bit. rewrite bit_update by done. pose proof (slot_bounds d).
  case_decide as Hd.
  - rewrite Z.land_spec, Z.lnot_spec, testbit_mask by lia. unfold bit. rewrite (word_same w c d) by done. do 2 f_equal.
    destruct (Z.eqb_spec (d mod 16384 mod 64) (c mod 16384 mod 64)) as [He|He];
      destruct (Z.eqb_spec (c mod 16384) (d mod 16384)) as [He'|He']; try done.
    + destruct He'. by apply same_slot.
    + rewrite He' in He. done.
  - destruct (Z.eqb_spec (c mod 16384) (d mod 16384)) as [He'|He']; [|by rewrite andb_true_r].
    destruct Hd. unfold word_index. by rewrite He'.
Qed.

Lemma set_bit_len w c : window_len w -> window_len (set_bit w c).
Proof. unfold window_len, set_bit. simpl. by rewrite length_insert. Qed.

Lemma clear_bit_len w c : window_len w -> window_len (clear_bit w c).
Proof. unfold window_len, clear_bit. simpl. by rewrite length_insert. Qed.

Lemma bit_clear_bits w from n d :
  window_len w ->
  window_len (clear_bits w from n) /\
  (bit (clear_bits w from n) d = true <->
   bit w d = true /\ forall i, from < i <= from + Z.of_nat n -> i mod 16384 <> d mod 16384).
Proof.
  revert w from. induction n as [|n IH]; intros w from Hl; cbn [clear_bits].
  - split; [done|]. split; [|naive_solver]. intros Hb. split; [done|]. lia.
  - destruct (IH (clear_bit w (from + 1)) (from + 1)) as [Hl' Hb]; [by apply clear_bit_len|].
    split; [done|]. rewrite Hb, bit_clear, andb_true_iff, negb_true_iff, Z.eqb_neq by done. split.
    + intros [[Hd Hn] Hall]. split; [done|]. intros i Hi.
      destruct (Z.eq_dec i (from + 1)) as [->|Hne]; [done|]. apply Hall. lia.
    + intros [Hd Hall]. split; [split; [done|apply Hall; lia]|]. intros i Hi. apply Hall. lia.
Qed.

Lemma bit_blank c h : bit (mkReplayWindow h blank_words) c = false.
Proof.
  unfold bit, word, blank_words. cbn [seen]. destruct (replicate 256 0 !! word_index c) as [x|] eqn:E.
  - apply lookup_replicate in E as [-> _]. apply Z.bits_0.
  - apply Z.bits_0.
Qed.

(** ** Refinement to the set of accepted counters *)

(** The specification: the greatest counter and all the counters accepted. *)
Definition spec_accept (s : option Z * list Z) (counter : Z) : bool * (option Z * list Z) :=
  let '(h, accepted) := s in
  match h with
  | None => (true, (Some counter, counter :: accepted))
  | Some h =>
      if h <? counter then (true, (Some counter, counter :: accepted))
      else if (WINDOW <=? h - counter) || bool_decide (counter ∈ accepted) then (false, s)
      else (true, (Some h, counter :: accepted))
  end.

(** The window's bitmap is the set of accepted counters, as far back as it reaches. *)
Definition window_rel (w : ReplayWindow) (s : option Z * list Z) : Prop :=
  window_len w /\ highest w = fst s /\
  match fst s with
  | None => snd s = [] /\ forall c, bit w c = false
  | Some h => (forall c, c ∈ snd s -> c <= h)
      /\ forall c, h - WINDOW < c <= h -> (bit w c = true <-> c ∈ snd s)
  end.

Lemma default_rel : window_rel default_window (None, []).
Proof. split; [done|]. split; [done|]. split; [done|]. intros c. apply bit_blank. Qed.

(** Counters less than a window apart do not share a bit. *)
Lemma mod_window_inj c d : c mod 16384 = d mod 16384 -> c - WINDOW < d < c + WINDOW -> c = d.
Proof.
  unfold WINDOW. intros Hm Hr. pose proof (Z.div_mod c 16384). pose proof (Z.div_mod d 16384). nia.
Qed.

(** Marking [c] as the newest accepted counter. *)
Lemma mark_rel w c accepted :
  window_len w -> (forall d, d ∈ accepted -> d < c) ->
  (forall d, c - WINDOW < d < c -> (bit w d = true <-> d ∈ accepted)) ->
  window_rel (set_bit (set_highest w c) c) (Some c, c :: accepted).
Proof.
  intros Hl Hmax Hb. split; [by apply set_bit_len|]. split; [done|]. simpl. split.
  - intros d [->|Hd]%elem_of_cons; [lia|]. specialize (Hmax d Hd). lia.
  - intros d Hd. rewrite bit_set by done. change (bit (set_highest w c) d) with (bit w d).
    rewrite orb_true_iff, Z.eqb_eq, elem_of_cons. destruct (Z.eq_dec d c) as [->|Hne]; [naive_solver|].
    rewrite Hb by lia. split; [|naive_solver]. intros [Hd'|Hm]; [by right|].
    destruct Hne. symmetry. apply mod_window_inj; [done|unfold WINDOW in *; lia].
Qed.

Lemma accept_step w s c :
  window_rel w s ->
  let '(b, w') := accept w c in
  let '(b', s') := spec_accept s c in
  b = b' /\ window_rel w' s'.
Proof.
  destruct s as [h accepted]. intros (Hl & Hh & Hrel). unfold accept, spec_accept. simpl in Hh, Hrel. rewrite Hh.
  assert (window_rel w (h, accepted)) as Hw by (split; [done|by split]).
  destruct h as [h|].
  2:{ destruct Hrel as [-> Hb]. split; [done|]. apply mark_rel; [done|by intros d Hd%elem_of_nil|].
      intros d _. rewrite Hb. split; [done|by intros Hd%elem_of_nil]. }
  destruct Hrel as [Hmax Hb]. destruct (Z.ltb_spec h c) as [Hnew|Hold].
  - split; [done|]. destruct (Z.leb_spec 16384 (c - h)) as [Hfar|Hnear].
    + apply (mark_rel (mkReplayWindow (Some h) blank_words)); [done| |].
      * intros d Hd. specialize (Hmax d Hd). lia.
      * intros d Hd. rewrite bit_blank. split; [done|]. intros Hin. specialize (Hmax d Hin). unfold WINDOW in Hd. lia.
    + destruct (bit_clear_bits w h (Z.to_nat (c - h)) 0 Hl) as [Hl' _]. apply mark_rel; [done| |].
      * intros d Hd. specialize (Hmax d Hd). lia.
      * intros d Hd. destruct (bit_clear_bits w h (Z.to_nat (c - h)) d Hl) as [_ ->].
        rewrite Z2Nat.id by lia. unfold WINDOW in Hd. destruct (Z.le_gt_cases d h) as [Hdh|Hdh].
        -- rewrite Hb by (unfold WINDOW; lia). split; [by intros [Hd' _]|]. intros Hin. split; [done|].
           intros i Hi Hm. apply mod_window_inj in Hm; [lia|unfold WINDOW; lia].
        -- split; [|intros Hin; specialize (Hmax d Hin); lia]. intros [_ Hall].
           destruct (Hall d); [lia|done].
  - change 16384 with WINDOW. destruct (Z.leb_spec WINDOW (h - c)) as [Hfar|Hnear]; simpl orb; [done|].
    rewrite test_bit_bit. assert (bit w c = bool_decide (c ∈ accepted)) as ->.
    { destruct (Hb c) as [Hc1 Hc2]; [lia|]. case_bool_decide as Hin; [by apply Hc2|].
      destruct (bit w c); [by destruct Hin; apply Hc1|done]. }
    case_bool_decide as Hin; [done|]. split; [done|].
    split; [by apply set_bit_len|]. split; [done|]. simpl. split.
    + intros d [->|Hd]%elem_of_cons; [done|by apply Hmax].
    + intros d Hd. rewrite bit_set by done. rewrite orb_true_iff, Z.eqb_eq, elem_of_cons, Hb by done.
      split; [|naive_solver]. intros [Hd'|Hm]; [by right|]. left. symmetry.
      apply mod_window_inj; [done|unfold WINDOW in *; lia].
Qed.

(** ** Histories *)

(** The answers to a sequence of counters: of the window and of its specification. *)
Fixpoint answers (w : ReplayWindow) (counters : list Z) : list bool :=
  match counters with
  | [] => []
  | c :: counters => let '(b, w) := accept w c in b :: answers w counters
  end.

Fixpoint spec_answers (s : option Z * list Z) (counters : list Z) : list bool :=
  match counters with
  | [] => []
  | c :: counters => let '(b, s) := spec_accept s c in b :: spec_answers s counters
  end.

(** C33: a fresh replay window answers every sequence of counters as its
    specification does, which remembers every counter it accepted: a new
    greatest counter is accepted, an older one when it is less than 16384
    behind and has never been accepted. *)
Theorem accept_refines counters : answers default_window counters = spec_answers (None, []) counters.
Proof.
  assert (forall w s, window_rel w s -> answers w counters = spec_answers s counters) as H
    by (induction counters as [|c counters IH]; intros w s Hrel; [done|]; cbn [answers spec_answers];
        pose proof (accept_step w s c Hrel) as Hr; destruct (accept w c), (spec_accept s c);
        destruct Hr as [-> Hrel']; f_equal; by apply IH).
  apply H, default_rel.
Qed.


(** The counters accepted, in order, when [counters] arrive. *)
Fixpoint accepted_of (w : ReplayWindow) (counters : list Z) : list Z :=
  match counters with
  | [] => []
  | c :: counters =>
      let '(b, w) := accept w c in
      if b then c :: accepted_of w counters else accepted_of w counters
  end.

Lemma spec_accept_seen s c b s' :
  spec_accept s c = (b, s') ->
  (forall h d, fst s = Some h -> d ∈ snd s -> d <= h) -> (fst s = None -> snd s = []) ->
  (b = true -> (c ∉ snd s) /\ snd s' = c :: snd s) /\ (b = false -> snd s' = snd s).
Proof.
  destruct s as [[h|] accepted]; simpl; intros Hs Hmax Hnone.
  - destruct (Z.ltb_spec h c) as [Hnew|Hold].
    + injection Hs as <- <-. split; [|done]. intros _. split; [|done]. intros Hin.
      specialize (Hmax h c eq_refl Hin). lia.
    + destruct (_ || _) eqn:E; injection Hs as <- <-; [by split|]. split; [|done]. intros _. split; [|done].
      apply orb_false_iff in E as [_ E]. by apply bool_decide_eq_false in E.
  - injection Hs as <- <-. split; [|done]. intros _. rewrite Hnone by done. split; [apply not_elem_of_nil|done].
Qed.

(** C23: whatever counters arrive at a fresh window, in whatever order and with
    whatever repetitions, no counter is accepted twice. *)
Theorem accepted_once counters : NoDup (accepted_of default_window counters).
Proof.
  assert (forall w s, window_rel w s ->
    NoDup (accepted_of w counters) /\ forall c, c ∈ accepted_of w counters -> c ∉ snd s) as H.
  2:{ apply (H default_window (None, [])), default_rel. }
  induction counters as [|c counters IH]; intros w s Hrel; cbn [accepted_of].
  { split; [constructor|]. by intros c Hc%elem_of_nil. }
  pose proof (accept_step w s c Hrel) as Hr. destruct (accept w c) as [b w'].
  destruct (spec_accept s c) as [b' s'] eqn:Es. destruct Hr as [-> Hrel'].
  destruct (spec_accept_seen s c b' s' Es) as [Ht Hf].
  { intros h d Hh Hd. destruct Hrel as (_ & _ & Hrel). rewrite Hh in Hrel. by apply Hrel. }
  { intros Hn. destruct Hrel as (_ & _ & Hrel). rewrite Hn in Hrel. by destruct Hrel. }
  destruct (IH w' s' Hrel') as [Hnd Hni]. destruct b'.
  - destruct (Ht eq_refl) as [Hnew Hs']. rewrite Hs' in Hni. split.
    + constructor; [|done]. intros Hin. apply (Hni c Hin). by left.
    + intros d [->|Hd]%elem_of_cons; [done|]. intros Hin. apply (Hni d Hd). by right.
  - specialize (Hf eq_refl). split; [done|]. intros d Hd. rewrite <- Hf. by apply Hni.
Qed.

(** ** Sequence extension *)

(** A packet whose 64-bit counter is within 2^15 of the greatest one accepted
    is given back its own counter from the sixteen bits of it that the RTP
    header carries, also across a wrap of the sequence; no 64-bit sum overflows
    or saturates on the way. *)
Lemma extend_counter h n :
  0 <= h < 2 ^ 63 -> 0 <= n -> h - 2 ^ 15 < n -> n < h + 2 ^ 15 ->
  extend h (n mod 2 ^ 16) = n.
Proof.
  intros Hh Hn Hlo Hhi. unfold extend. cbv zeta.
  assert (Z.land h (Z.lnot u16_max) = h / 2 ^ 16 * 2 ^ 16) as ->.
  { change u16_max with (Z.ones 16). rewrite <- Z.ldiff_land, Z.ldiff_ones_r, Z.shiftl_mul_pow2, Z.shiftr_div_pow2 by lia. done. }
  assert (Z.lor (h / 2 ^ 16 * 2 ^ 16) (n mod 2 ^ 16) = h / 2 ^ 16 * 2 ^ 16 + n mod 2 ^ 16) as ->.
  { rewrite <- Z.add_lor_land. assert (Z.land (h / 2 ^ 16 * 2 ^ 16) (n mod 2 ^ 16) = 0) as ->; [|lia].
    rewrite <- Z.land_ones, (Z.land_comm n), Z.land_assoc, Z.land_ones, Z.mod_mul by lia. by rewrite Z.land_0_l. }
  pose proof (Z.div_mod h (2 ^ 16) ltac:(lia)). pose proof (Z.mod_pos_bound h (2 ^ 16) ltac:(lia)).
  pose proof (Z.div_mod n (2 ^ 16) ltac:(lia)). pose proof (Z.mod_pos_bound n (2 ^ 16) ltac:(lia)).
  set (hq := h / 2 ^ 16) in *. set (nq := n / 2 ^ 16) in *. set (r := n mod 2 ^ 16) in *. set (hr := h mod 2 ^ 16) in *.
  change (2 ^ 16) with 65536 in *. change (2 ^ 15) with 32768 in *.
  unfold saturating_add. change (2 ^ 64) with (2 * 2 ^ 63). set (M := 2 ^ 63) in *.
  assert (nq = hq - 1 \/ nq = hq \/ nq = hq + 1) as Hq by lia.
  destruct (Z.ltb_spec (Z.min (hq * 65536 + r + 32768) (2 * M - 1)) h) as [?|?];
    [|destruct (Z.ltb_spec (Z.min (h + 32768) (2 * M - 1)) (hq * 65536 + r)) as [?|?];
      destruct (Z.leb_spec 65536 (hq * 65536 + r)) as [?|?]; simpl andb; cbv iota].
  all: lia.
Qed.

(** For a packet whose 64-bit counter is within 2^15 of the greatest one
    accepted, the sixteen bits in the RTP header are as good as the counter:
    the window accepts them exactly when that counter is less than 16384 behind
    and has not been accepted before, also across a wrap of the sequence. *)
Lemma accept_rtp_exact w h accepted n :
  window_rel w (Some h, accepted) -> 0 <= h < 2 ^ 63 -> 0 <= n -> h - 2 ^ 15 < n < h + 2 ^ 15 ->
  accept_rtp w (n mod 2 ^ 16) = accept w n
  /\ (fst (accept_rtp w (n mod 2 ^ 16)) = true <-> h - WINDOW < n /\ (n ∉ accepted)).
Proof.
  intros Hrel Hh Hn Hr. assert (accept_rtp w (n mod 2 ^ 16) = accept w n) as ->.
  { unfold accept_rtp. rewrite (proj1 (proj2 Hrel)). simpl fst at 1. cbv iota. by rewrite extend_counter by lia. }
  split; [done|]. pose proof (accept_step w _ n Hrel) as Ha. destruct (accept w n) as [b w']. simpl in Ha.
  destruct Hrel as (_ & _ & Hmax & _). simpl in Hmax. destruct (Z.ltb_spec h n) as [Hnew|Hold].
  - destruct Ha as [-> _]. simpl. split; [|done]. intros _. unfold WINDOW. split; [lia|].
    intros Hin. specialize (Hmax n Hin). lia.
  - destruct (Z.leb_spec WINDOW (h - n)); simpl in Ha; [destruct Ha as [-> _]; simpl; split; [done|lia]|].
    case_bool_decide; destruct Ha as [-> _]; simpl; split; try done; [by intros [_ ?]|]. intros _. split; [lia|done].
Qed.

Definition example_window : ReplayWindow := snd (accept default_window 65535).

Lemma example_rel : window_rel example_window (Some 65535, [65535]).
Proof. exact (proj2 (accept_step default_window (None, []) 65535 default_rel)). Qed.

Lemma accept_rtp_exact_witness :
  accept_rtp example_window 1 = accept example_window 65537
  /\ fst (accept_rtp example_window 1) = true /\ fst (accept_rtp example_window 65535) = false.
Proof.
  destruct (accept_rtp_exact example_window 65535 [65535] 65537 example_rel) as [He Hi]; [lia..|].
  split; [exact He|]. split.
  - apply Hi. unfold WINDOW. split; [lia|]. intros Hin. apply list_elem_of_singleton in Hin. discriminate Hin.
  - vm_compute. reflexivity.
Defined.
