(* ===== verification/ChannelData.v ===== *)
(** * ChannelData: TURN ChannelData framing

    Models the wire helpers of [turn.rs]: the ChannelData header, its padding,
    and the STUN test that tells the two kinds of datagram on the TURN socket
    apart. *)

From S2P Require Import Prelude Bytes PacketPool StunCodec.

Inductive ChannelError : Type :=
| ChannelInvalid | PayloadTooLarge | ExceedsBuffer
| Buffer (e : PacketError).

Definition channel_in_range (channel : Z) : bool := (0x4000 <=? channel) && (channel <=? 0x7fff).

Definition channel_data_header (wire : bytes) : res (option (Z * Z)) :=
  if zlen wire <? 4 then Ret None else
  b0 ← index wire 0;
  if negb (Z.land b0 0xc0 =? 0x40) then Ret None else
  b1 ← index wire 1;
  let channel := of_be [b0; b1] in
  if negb (channel_in_range channel) then Ret None else
  b2 ← index wire 2;
  b3 ← index wire 3;
  let payload_length := of_be [b2; b3] in
  if zlen wire - 4 <? payload_length then Ret None else
  if 3 <? zlen wire - 4 - payload_length then Ret None else
  Ret (Some (channel, payload_length)).

Definition is_stun (wire : bytes) : res bool :=
  if zlen wire <? 20 then Ret false else
  b0 ← index wire 0;
  if negb (Z.land b0 0xc0 =? 0) then Ret false else
  cookie ← slice wire 4 8;
  Ret (bytes_eqb cookie (to_be 4 MAGIC_COOKIE)).

Definition channel_data_padding (p : PacketBuf) (channel : Z) : result Z ChannelError :=
  if negb (channel_in_range channel) then Err ChannelInvalid else
  let payload_length := len p in
  if u16_max <? payload_length then Err PayloadTooLarge else
  let padding := (4 - payload_length mod 4) mod 4 in
  if (range_start p <? 4)
     || (match checked_add 64 (range_end p) padding with None => true | Some e => PACKET_CAPACITY <? e end)
  then Err ExceedsBuffer
  else Ok padding.

Definition encode_channel_data (p : PacketBuf) (channel : Z) : res (result PacketBuf ChannelError) :=
  match channel_data_padding p channel with
  | Err e => Ret (Err e)
  | Ok padding =>
      let payload_length := len p in
      match extend_tail p padding with
      | Err e => Ret (Err (Buffer e))
      | Ok p1 =>
          p2 ← write_at p1 payload_length (replicate (Z.to_nat padding) 0);
          match prepend p2 4 with
          | Err e => Ret (Err (Buffer e))
          | Ok p3 =>
              p4 ← write_at p3 0 (to_be 2 channel ++ to_be 2 (wrap 16 payload_length));
              Ret (Ok p4)
          end
      end
  end.

(** ** The wire format *)

(** [channel], the payload and its zero padding to four bytes. *)
Definition channel_frame (channel : Z) (payload : bytes) : bytes :=
  to_be 2 channel ++ to_be 2 (zlen payload) ++ payload
  ++ replicate (Z.to_nat ((4 - zlen payload mod 4) mod 4)) 0.

Lemma top_bits_channel channel b0 b1 :
  channel_in_range channel = true -> to_be 2 channel = [b0; b1] -> Z.land b0 0xc0 = 0x40.
Proof.
  unfold channel_in_range. intros [H1%Z.leb_le H2%Z.leb_le]%andb_true_iff He.
  assert (b0 = channel / 256) as ->.
  { injection He as <- _. change (256 ^ Z.of_nat 1) with 256. apply Z.mod_small.
    split; [apply Z.div_pos; lia|]. apply Z.div_lt_upper_bound; lia. }
  assert (0x40 <= channel / 256 <= 0x7f) as Hb.
  { split; [apply Z.div_le_lower_bound; lia|]. apply Z.lt_succ_r, Z.div_lt_upper_bound; lia. }
  set (x := channel / 256) in *. clearbody x. clear -Hb.
  assert (x = 0x40 + x mod 64) as Hx by (Z.to_euclidean_division_equations; lia).
  assert (Z.land x (Z.ones 6) = x mod 64) as Hm by (rewrite Z.land_ones by lia; done).
  pose proof (Z.mod_pos_bound x 64).
  rewrite <- (Z.lor_ldiff_and x (Z.ones 6)). rewrite Z.ldiff_ones_r, Z.shiftl_mul_pow2, Z.shiftr_div_pow2 by lia.
  assert (x / 2 ^ 6 = 1) as -> by (Z.to_euclidean_division_equations; lia).
  rewrite Z.land_lor_distr_l, <- Z.land_assoc. change (Z.land (Z.ones 6) 0xc0) with 0. by rewrite Z.land_0_r.
Qed.

Lemma top_bits_stun k b0 b1 : k < 0x4000 -> is_u 16 k -> to_be 2 k = [b0; b1] -> Z.land b0 0xc0 = 0.
Proof.
  intros Hk Hu He. assert (b0 = k / 256) as ->.
  { injection He as <- _. change (256 ^ Z.of_nat 1) with 256. apply Z.mod_small. unfold is_u in Hu.
    split; [apply Z.div_pos; lia|]. apply Z.div_lt_upper_bound; lia. }
  assert (0 <= k / 256 < 2 ^ 6) as Hb.
  { unfold is_u in Hu. split; [apply Z.div_pos; lia|]. apply Z.div_lt_upper_bound; lia. }
  rewrite <- (Z.mod_small _ _ Hb), <- Z.land_ones, <- Z.land_assoc by lia.
  change (Z.land (Z.ones 6) 0xc0) with 0. by rewrite Z.land_0_r.
Qed.

Lemma padding_bound n : 0 <= (4 - n mod 4) mod 4 <= 3 /\ (n + (4 - n mod 4) mod 4) mod 4 = 0.
Proof. Z.to_euclidean_division_equations; lia. Qed.

Lemma zlen_pad n : zlen (replicate (Z.to_nat ((4 - n mod 4) mod 4)) 0) = (4 - n mod 4) mod 4.
Proof. rewrite zlen_replicate. pose proof (padding_bound n). lia. Qed.

(** [channel_data_header] reads the frames of this format. *)
Lemma header_of_frame channel payload :
  channel_in_range channel = true -> zlen payload <= u16_max ->
  channel_data_header (channel_frame channel payload) = Ret (Some (channel, zlen payload)).
Proof.
  intros Hc Hl. pose proof (zlen_nonneg payload). unfold u16_max in Hl.
  assert (is_u 16 channel) as Hu.
  { unfold channel_in_range in Hc. apply andb_true_iff in Hc as [?%Z.leb_le ?%Z.leb_le]. unfold is_u. lia. }
  assert (is_u 16 (zlen payload)) as Hlu by (unfold is_u; lia).
  pose proof (padding_bound (zlen payload)) as [Hp _]. unfold channel_data_header.
  assert (zlen (channel_frame channel payload) = 4 + zlen payload + (4 - zlen payload mod 4) mod 4) as ->.
  { unfold channel_frame. rewrite !zlen_app, !zlen_to_be, zlen_pad. lia. }
  destruct (Z.ltb_spec (4 + zlen payload + (4 - zlen payload mod 4) mod 4) 4); [lia|].
  set (tail := payload ++ replicate (Z.to_nat ((4 - zlen payload mod 4) mod 4)) 0).
  destruct (index_pair16 [] channel (zlen payload) tail 0 Hu Hlu eq_refl)
    as (a & b & c & d & Ha & Hb & Hc' & Hd & Hab & Hcd).
  rewrite app_nil_l in *. rewrite !Z.add_0_l in *. unfold channel_frame. fold tail.
  rewrite Ha, Hb, Hc', Hd. rbind.
  assert (Z.land a 0xc0 = 0x40) as ->.
  { apply (top_bits_channel channel a b Hc). destruct (to_be_2 channel Hu) as (a' & b' & E & _).
    rewrite E in *. simpl app in Ha, Hb. unfold index in Ha, Hb. simpl in Ha, Hb. congruence. }
  rewrite Hab, Hcd, Hc. simpl negb. cbv iota.
  destruct (Z.ltb_spec (4 + zlen payload + (4 - zlen payload mod 4) mod 4 - 4) (zlen payload)); [lia|].
  destruct (Z.ltb_spec 3 (4 + zlen payload + (4 - zlen payload mod 4) mod 4 - 4 - zlen payload)); [lia|done].
Qed.

Lemma channel_data_header_length wire channel n :
  channel_data_header wire = Ret (Some (channel, n)) -> is_bytes wire -> 0 <= n <= zlen wire - 4.
Proof.
  unfold channel_data_header. intros Hh Hb. inv_ret Hh. split; [|done].
  rewrite of_be_2.
  repeat match goal with H : index _ _ = Ret ?b |- _ => apply (index_byte _ _ _ Hb) in H; unfold is_byte in H end. lia.
Qed.

Lemma channel_data_header_total wire : returns (channel_data_header wire).
Proof. unfold channel_data_header. no_panic. Qed.

Lemma is_stun_total wire : returns (is_stun wire).
Proof. unfold is_stun. no_panic. Qed.

(** ** Encoding *)

Lemma extend_write_slice p n v body q :
  buf_ok p -> as_slice p = Ret body -> extend_tail p n = Ok q -> zlen v = n ->
  exists q', write_at q (len p) v = Ret q' /\ buf_ok q' /\ as_slice q' = Ret (body ++ v)
    /\ range_start q' = range_start p /\ range_end q' = range_end p + n.
Proof.
  intros Hok Hbody Hext Hv. pose proof (len_ok p Hok) as Hlen. destruct Hok as (Hst & Hs & He).
  pose proof (zlen_nonneg v). unfold extend_tail, checked_add in Hext.
  destruct (Z.ltb_spec (range_end p + n) (2 ^ 64)); [|done].
  destruct (Z.ltb_spec PACKET_CAPACITY (range_end p + n)) as [|Hfit]; [done|]. injection Hext as <-.
  rewrite Hlen. destruct p as [st s e]. unfold as_slice, write_at, with_range in *. simpl in *.
  destruct (split_at_z st s) as (l & r & -> & Hl); [lia|]. rewrite zlen_app in Hst.
  destruct (split_at_z r (e - s)) as (b & r1 & -> & Hb); [lia|]. rewrite zlen_app in Hst.
  rewrite slice_app_mid in Hbody by lia. injection Hbody as <-.
  destruct (split_at_z r1 n) as (x & r2 & -> & Hx); [lia|]. rewrite zlen_app in Hst.
  assert (blit (l ++ b ++ x ++ r2) (s + (e - s)) v = Ret (l ++ b ++ v ++ r2)) as ->.
  { rewrite (app_assoc l b (x ++ r2)), (app_assoc l b (v ++ r2)). apply blit_app; rewrite ?zlen_app; lia. }
  rbind. eexists. split; [reflexivity|]. unfold buf_ok. simpl. rewrite !zlen_app.
  split; [lia|]. split; [|split; lia].
  rewrite (app_assoc b v r2). apply slice_app_mid; rewrite ?zlen_app; lia.
Qed.

(** Trimming a header and truncating to a length leave the bytes between. *)
Lemma trim_truncate_slice p h body rest :
  buf_ok p -> as_slice p = Ret (h ++ body ++ rest) ->
  exists q q', trim_front p (zlen h) = Ok q /\ truncate q (zlen body) = Ok q'
    /\ buf_ok q' /\ as_slice q' = Ret body.
Proof.
  intros Hok Hs. pose proof (len_ok p Hok) as Hlen. pose proof (slice_length _ _ _ _ Hs) as Hl.
  rewrite !zlen_app in Hl. destruct Hok as (Hst & Hr & He).
  pose proof (zlen_nonneg h). pose proof (zlen_nonneg body). pose proof (zlen_nonneg rest).
  exists (with_range p (range_start p + zlen h) (range_end p)),
    (with_range p (range_start p + zlen h) (range_start p + zlen h + zlen body)).
  split; [unfold trim_front; by destruct (Z.ltb_spec (len p) (zlen h)); [lia|]|].
  split. { unfold truncate, len, with_range. simpl.
    by destruct (Z.ltb_spec (Z.max (range_end p - (range_start p + zlen h)) 0) (zlen body)); [lia|]. }
  unfold buf_ok, with_range, as_slice in *. simpl. split; [lia|].
  apply slice_inv, get_range_inv in Hs as (_ & _ & _ & Hs). rewrite slice_returns by lia. f_equal.
  apply (f_equal (fun l => take (length body) (drop (length h) l))) in Hs.
  rewrite drop_app_length, take_app_length in Hs. rewrite Hs at 2. rewrite skipn_firstn_comm, take_take, drop_drop.
  f_equal; [unfold zlen in *; lia|]. f_equal. unfold zlen. lia.
Qed.

(** What a packet needs to be sent in place: its own length in an attribute's
    range, headroom for the header and room for the padding. *)
Definition encodable (p : PacketBuf) (channel : Z) : Prop :=
  channel_in_range channel = true /\ 4 <= range_start p
  /\ range_end p + (4 - len p mod 4) mod 4 <= PACKET_CAPACITY.

(** [encode_channel_data] never panics on a well-formed buffer: it fails
    exactly when the channel, the headroom or the padding does not fit, and
    otherwise turns the packet into the ChannelData frame of its bytes in
    place. The receiver's header test accepts that frame, and trimming four
    bytes and truncating to the announced length gives the payload back. *)
Lemma encode_channel_data_roundtrip p channel payload :
  buf_ok p -> as_slice p = Ret payload ->
  (encodable p channel /\ exists q q' q'',
     encode_channel_data p channel = Ret (Ok q) /\ buf_ok q
     /\ as_slice q = Ret (channel_frame channel payload)
     /\ channel_data_header (channel_frame channel payload) = Ret (Some (channel, zlen payload))
     /\ trim_front q 4 = Ok q' /\ truncate q' (zlen payload) = Ok q'' /\ as_slice q'' = Ret payload)
  \/ (~ encodable p channel /\ exists e, encode_channel_data p channel = Ret (Err e)).
Proof.
  intros Hok Hpay. pose proof (len_ok p Hok) as Hlen. pose proof (slice_length _ _ _ _ Hpay) as Hlp.
  rewrite <- Hlen in Hlp. destruct Hok as (Hst & Hs & He).
  pose proof (padding_bound (len p)) as [Hpad _]. unfold encode_channel_data, channel_data_padding, encodable.
  destruct (channel_in_range channel) eqn:Hc; cbn [negb]; [|right; split; [intros (? & _); done|by eexists]].
  unfold PACKET_CAPACITY in *. unfold u16_max.
  destruct (Z.ltb_spec (2 ^ 16 - 1) (len p)) as [Hbig|_]; [lia|]. unfold checked_add.
  destruct (Z.ltb_spec (range_end p + (4 - len p mod 4) mod 4) (2 ^ 64)); [|lia].
  destruct (Z.ltb_spec (range_start p) 4) as [Hs4|Hs4]; cbn [orb].
  { right. split; [lia|by eexists]. }
  destruct (Z.ltb_spec 2304 (range_end p + (4 - len p mod 4) mod 4)) as [Hov|Hfit].
  { right. split; [unfold PACKET_CAPACITY; lia|by eexists]. }
  left. split; [done|]. set (padding := (4 - len p mod 4) mod 4) in *.
  assert (extend_tail p padding = Ok (with_range p (range_start p) (range_end p + padding))) as Hext.
  { unfold extend_tail, checked_add, PACKET_CAPACITY.
    destruct (Z.ltb_spec (range_end p + padding) (2 ^ 64)); [|lia].
    destruct (Z.ltb_spec 2304 (range_end p + padding)); [lia|done]. }
  rewrite Hext. set (v := replicate (Z.to_nat padding) 0).
  destruct (extend_write_slice p padding v payload _ (conj Hst (conj Hs He)) Hpay Hext)
    as (p2 & Hw & Hok2 & Hsl2 & Hs2 & He2); [unfold v; rewrite zlen_replicate; lia|].
  rewrite Hw. rbind. set (h := to_be 2 channel ++ to_be 2 (wrap 16 (len p))).
  assert (zlen h = 4) as Hh by (unfold h; by rewrite zlen_app, !zlen_to_be).
  assert (prepend p2 4 = Ok (with_range p2 (range_start p2 - 4) (range_end p2))) as Hpre.
  { unfold prepend. destruct (Z.ltb_spec (range_start p2) 4); [lia|done]. }
  rewrite Hpre. rewrite <- Hh in Hpre.
  destruct (prepend_write_slice p2 h (payload ++ v) _ Hok2 Hsl2 Hpre) as (q & Hq & Hokq & Hslq & q' & Htr & Hslq').
  rewrite Hh in Hq. rewrite Hq. rbind.
  assert (as_slice q = Ret (channel_frame channel payload)) as Hframe.
  { rewrite Hslq. unfold channel_frame, h, v, padding. rewrite Hlp, <- !app_assoc.
    rewrite wrap_small by (unfold is_u; lia). done. }
  pose proof (zlen_nonneg payload).
  assert (as_slice q = Ret (h ++ payload ++ v)) as Hparts by exact Hslq.
  destruct (trim_truncate_slice q h payload v Hokq Hparts) as (q1 & q2 & Htrim & Htrunc & _ & Hs2').
  rewrite Hh in Htrim. exists q, q1, q2. conjs; try done. apply header_of_frame; [done|unfold u16_max; lia].
Qed.

Lemma encode_channel_data_roundtrip_witness :
  exists q, encode_channel_data (mkPacketBuf blank 64 100) 0x4000 = Ret (Ok q)
    /\ as_slice q = Ret (channel_frame 0x4000 (replicate 36 0)).
Proof.
  destruct (encode_channel_data_roundtrip (mkPacketBuf blank 64 100) 0x4000 (replicate 36 0))
    as [[_ (q & _ & _ & Hq & _ & Hs & _)]|[Hn _]].
  - unfold buf_ok, PACKET_CAPACITY. simpl. split; [reflexivity|lia].
  - reflexivity.
  - exists q. split; [exact Hq|exact Hs].
  - exfalso. apply Hn. unfold encodable, PACKET_CAPACITY. split; [reflexivity|]. vm_compute. split; discriminate.
Defined.

(** ** Demultiplexing *)

(** No datagram is both ChannelData and STUN, and neither test panics: the
    two tests of the receive path look at the same two bits. *)
Lemma demultiplex_disjoint wire channel n :
  channel_data_header wire = Ret (Some (channel, n)) ->
  is_stun wire = Ret false
  /\ 0x4000 <= channel <= 0x7fff /\ n <= zlen wire - 4 <= n + 3.
Proof.
  unfold channel_data_header, is_stun. destruct (Z.ltb_spec (zlen wire) 4) as [|Hl]; [done|].
  intros (b0 & H0 & Hr)%bind_ret_inv. rewrite H0.
  destruct (Z.eqb_spec (Z.land b0 0xc0) 0x40) as [Hb|]; [|done]. cbn [negb] in Hr.
  apply bind_ret_inv in Hr as (b1 & H1 & Hr). destruct (channel_in_range _) eqn:Hc; [|done]. cbn [negb] in Hr.
  apply bind_ret_inv in Hr as (b2 & H2 & Hr). apply bind_ret_inv in Hr as (b3 & H3 & Hr).
  destruct (Z.ltb_spec (zlen wire - 4) (of_be [b2; b3])); [done|].
  destruct (Z.ltb_spec 3 (zlen wire - 4 - of_be [b2; b3])); [done|]. injection Hr as <- <-.
  apply andb_true_iff in Hc as [?%Z.leb_le ?%Z.leb_le]. split; [|lia].
  destruct (zlen wire <? 20); [done|]. rbind. by rewrite Hb.
Qed.

Lemma demultiplex_disjoint_witness : is_stun (channel_frame 0x4000 (replicate 40 1)) = Ret false.
Proof.
  apply (demultiplex_disjoint _ 0x4000 40). reflexivity.
Defined.
