(* ===== verification/TurnReceive.v ===== *)
(** * TurnReceive: the driver's shared state around the TURN core

    Models the parts of [turn.rs] between the sans-IO core and the session:
    [DriverShared] with its first-wins terminal reason, [pump_native], which
    sends the core's controls and applies its events, [process_packet] and
    [process_deficit_packet], which demultiplex what was received, and the
    priority of [TurnReceiver::recv]. *)

From S2P Require Import Prelude Bytes Digests StunCodec TurnMessage TurnCore TurnCoreFacts PacketPool Scheduler ChannelData.

Definition INCOMING_QUEUE_CAPACITY : Z := PACKET_POOL_PER_WORKER.
Definition PROTECTED_INCOMING : Z := 32.
Definition CONTROL_MAX : Z := 1024.
Definition CLEANUP_TIMEOUT : Z := secs 35.
Definition READY_CLEANUP_TIMEOUT : Z := secs 12.
Definition EVENT_DATA_REJECTED : Z := 6.

Definition is_retryable_maintenance (method : Z) : bool :=
  (method =? METHOD_CREATE_PERMISSION) || (method =? METHOD_CHANNEL_BIND) || (method =? METHOD_REFRESH).

Definition is_allocation_mismatch_stun (method stun_code : Z) : bool :=
  (stun_code =? 437) || ((method =? METHOD_CHANNEL_BIND) && (stun_code =? 400)).

(** Why a pump fails. *)
Inductive PumpError : Type :=
| CoreError (e : TurnError)
| UnexpectedDestination (a : SocketAddr)
| SendFailed
| AddressFamily
| RelayUnavailable
| RelayMismatch.

(** The reasons a driver ends with; the source formats them as text. *)
Inductive Reason : Type :=
| RequestFailed (method status stun_code : Z)
| UnexpectedPeer (peer : SocketAddr)
| InvalidChannel (channel : Z)
| ControlOverflow (dropped : Z)
| EventOverflow (dropped : Z)
| ForceDestroyed
| UnknownEvent (kind : Z)
| ChannelRebindExhausted
| DestroyingUnexpectedly
| PumpFailed (e : PumpError)
| ReceiveFailed
| ReadinessFailed
| BatchCountInvalid
| StreamReceiveFailed
| StreamTransmitFailed
| CallFailed (e : TurnError)
| AllocateDeadline.

Record Completion : Type := mkCompletion {
  sequence : Z;
  status : Z;
  stun_code : Z;
}.

Definition default_completion : Completion := mkCompletion 0 0 0.

Record CoreSnapshot : Type := mkSnapshot {
  sn_state : Z;
  sn_relay : option SocketAddr;
  sn_channel : option Z;
  allocate : Completion;
  refresh : Completion;
  permission : Completion;
  channel_bind : Completion;
  terminal : option Reason;
}.

Definition default_snapshot : CoreSnapshot :=
  mkSnapshot 0 None None default_completion default_completion default_completion default_completion None.

Definition completion (s : CoreSnapshot) (method : Z) : Completion :=
  if method =? METHOD_ALLOCATE then allocate s
  else if method =? METHOD_REFRESH then refresh s
  else if method =? METHOD_CREATE_PERMISSION then permission s
  else if method =? METHOD_CHANNEL_BIND then channel_bind s
  else allocate s.

(** Writing through [completion_mut]; [None] when there is nothing to write to. *)
Definition set_completion (s : CoreSnapshot) (method : Z) (c : Completion) : option CoreSnapshot :=
  if method =? METHOD_ALLOCATE then
    Some (mkSnapshot (sn_state s) (sn_relay s) (sn_channel s) c (refresh s) (permission s) (channel_bind s) (terminal s))
  else if method =? METHOD_REFRESH then
    Some (mkSnapshot (sn_state s) (sn_relay s) (sn_channel s) (allocate s) c (permission s) (channel_bind s) (terminal s))
  else if method =? METHOD_CREATE_PERMISSION then
    Some (mkSnapshot (sn_state s) (sn_relay s) (sn_channel s) (allocate s) (refresh s) c (channel_bind s) (terminal s))
  else if method =? METHOD_CHANNEL_BIND then
    Some (mkSnapshot (sn_state s) (sn_relay s) (sn_channel s) (allocate s) (refresh s) (permission s) c (terminal s))
  else None.

Definition with_state (s : CoreSnapshot) (st : Z) : CoreSnapshot :=
  mkSnapshot st
    (if STATE_DEALLOCATED <=? st then None else sn_relay s)
    (if negb (st =? STATE_READY) then None else sn_channel s)
    (allocate s) (refresh s) (permission s) (channel_bind s) (terminal s).

Definition with_channel (s : CoreSnapshot) (c : Z) : CoreSnapshot :=
  mkSnapshot (sn_state s) (sn_relay s) (Some c) (allocate s) (refresh s) (permission s) (channel_bind s) (terminal s).

Definition with_relay (s : CoreSnapshot) (r : SocketAddr) : CoreSnapshot :=
  mkSnapshot (sn_state s) (Some r) (sn_channel s) (allocate s) (refresh s) (permission s) (channel_bind s) (terminal s).

Definition with_terminal (s : CoreSnapshot) (r : Reason) : CoreSnapshot :=
  mkSnapshot (sn_state s) (sn_relay s) (sn_channel s) (allocate s) (refresh s) (permission s) (channel_bind s) (Some r).

(** [DriverShared]; [incoming] is the bounded channel to the session, and
    [owner_closed] whether its receiver is gone. *)
Record DriverShared : Type := mkShared {
  snapshot : CoreSnapshot;
  closing : bool;
  terminal_present : bool;
  control_sent : bool;
  bound_channel : Z;
  queue_full_drops : Z;
  pool_deficit_drops : Z;
  protected : list PacketBuf;
  incoming : list PacketBuf;
  owner_closed : bool;
}.

Definition new_shared : DriverShared := mkShared default_snapshot false false false 0 0 0 [] [] false.

Definition set_snapshot (x : CoreSnapshot) (s : DriverShared) : DriverShared :=
  mkShared x (closing s) (terminal_present s) (control_sent s) (bound_channel s)
    (queue_full_drops s) (pool_deficit_drops s) (protected s) (incoming s) (owner_closed s).
Definition set_bound_channel (x : Z) (s : DriverShared) : DriverShared :=
  mkShared (snapshot s) (closing s) (terminal_present s) (control_sent s) x
    (queue_full_drops s) (pool_deficit_drops s) (protected s) (incoming s) (owner_closed s).
Definition set_control_sent (x : bool) (s : DriverShared) : DriverShared :=
  mkShared (snapshot s) (closing s) (terminal_present s) x (bound_channel s)
    (queue_full_drops s) (pool_deficit_drops s) (protected s) (incoming s) (owner_closed s).
Definition set_drops (q p : Z) (s : DriverShared) : DriverShared :=
  mkShared (snapshot s) (closing s) (terminal_present s) (control_sent s) (bound_channel s)
    q p (protected s) (incoming s) (owner_closed s).
Definition set_queues (prot inc : list PacketBuf) (s : DriverShared) : DriverShared :=
  mkShared (snapshot s) (closing s) (terminal_present s) (control_sent s) (bound_channel s)
    (queue_full_drops s) (pool_deficit_drops s) prot inc (owner_closed s).

Definition fail (s : DriverShared) (reason : Reason) : DriverShared :=
  if closing s then s
  else match terminal (snapshot s) with
  | None =>
      mkShared (with_terminal (snapshot s) reason) (closing s) true (control_sent s) (bound_channel s)
        (queue_full_drops s) (pool_deficit_drops s) (protected s) (incoming s) (owner_closed s)
  | Some _ => s
  end.

Definition terminal_of (s : DriverShared) : option Reason :=
  if terminal_present s then terminal (snapshot s) else None.

Definition stash_protected (s : DriverShared) (packet : PacketBuf) : DriverShared :=
  let queue := if PROTECTED_INCOMING <=? zlen (protected s) then drop 1 (protected s) else protected s in
  set_queues (queue ++ [packet]) (incoming s) s.

Definition pop_protected (s : DriverShared) : option (PacketBuf * DriverShared) :=
  match protected s with
  | [] => None
  | packet :: rest => Some (packet, set_queues rest (incoming s) s)
  end.

Definition request_cleanup (s : DriverShared) : DriverShared :=
  mkShared (snapshot s) true (terminal_present s) (control_sent s) 0
    (queue_full_drops s) (pool_deficit_drops s) (protected s) (incoming s) (owner_closed s).

Definition fail_turn_request (s : DriverShared) (method status stun_code : Z) : DriverShared :=
  fail s (RequestFailed method status stun_code).

Inductive OpenError : Type := AllocationClosing | Terminal (r : Reason).

Definition ensure_open (s : DriverShared) : result unit OpenError :=
  if closing s then Err AllocationClosing
  else match terminal_of s with Some r => Err (Terminal r) | None => Ok tt end.

(** ** Receiving *)

Inductive PacketAction : Type := Wait | Pump | OwnerClosed.

Section Driver.
Context `{Digests}.

Definition process_packet (env : Env) (core : Inner) (s : DriverShared) (packet : PacketBuf)
  : res (Inner * DriverShared * PacketAction) :=
  wire ← as_slice packet;
  header ← channel_data_header wire;
  match header with
  | Some (channel, payload_length) =>
      if negb (channel =? bound_channel s) then Ret (core, s, Wait) else
      match trim_front packet 4 with
      | Err _ => Ret (core, s, Wait)
      | Ok packet =>
          match truncate packet payload_length with
          | Err _ => Ret (core, s, Wait)
          | Ok packet =>
              if owner_closed s then Ret (core, s, OwnerClosed)
              else if zlen (incoming s) <? INCOMING_QUEUE_CAPACITY then
                Ret (core, set_queues (protected s) (incoming s ++ [packet]) s, Wait)
              else
                payload ← as_slice packet;
                keep ← keep_under_pressure payload;
                if (keep : bool) then Ret (core, stash_protected s packet, Wait)
                else Ret (core, set_drops (queue_full_drops s + 1) (pool_deficit_drops s) s, Wait)
          end
      end
  | None =>
      stun ← is_stun wire;
      if (stun : bool) then
        r ← input_stun env core wire;
        Ret (fst r, s, Pump)
      else Ret (core, s, Wait)
  end.

Definition process_deficit_packet (env : Env) (core : Inner) (s : DriverShared) (wire : bytes)
  : res (Inner * DriverShared * PacketAction) :=
  header ← channel_data_header wire;
  match header with
  | Some (channel, _) =>
      if channel =? bound_channel s
      then Ret (core, set_drops (queue_full_drops s) (pool_deficit_drops s + 1) s, Wait)
      else Ret (core, s, Wait)
  | None =>
      stun ← is_stun wire;
      if (stun : bool) then
        r ← input_stun env core wire;
        Ret (fst r, s, Pump)
      else Ret (core, s, Wait)
  end.

(** What [TurnReceiver::recv] returns from its queues, in its order: the
    terminal reason, then a protected packet, then the bulk queue. *)
Definition recv_ready (s : DriverShared) : option (result PacketBuf Reason * DriverShared) :=
  match terminal_of s with
  | Some reason => Some (Err reason, s)
  | None =>
      match pop_protected s with
      | Some (packet, s) => Some (Ok packet, s)
      | None =>
          match incoming s with
          | packet :: rest => Some (Ok packet, set_queues (protected s) rest s)
          | [] => None
          end
      end
  end.

(** ** Pumping the core *)

(** The flags that [pump_native] keeps while it applies events. *)
Record PumpFlags : Type := mkFlags {
  unexpected_destroy : bool;
  channel_rebind_exhausted : bool;
}.

Definition on_request_complete (s : DriverShared) (e : NativeEvent) : DriverShared :=
  let old := completion (snapshot s) (ev_method e) in
  let c := mkCompletion (wrapping_add 64 (sequence old) 1) (ev_status e) (ev_stun_code e) in
  let s := match set_completion (snapshot s) (ev_method e) c with Some sn => set_snapshot sn s | None => s end in
  let mismatch := is_allocation_mismatch_stun (ev_method e) (ev_stun_code e) in
  if (negb (ev_status e =? 0) || negb (ev_stun_code e =? 0)) && negb (closing s)
     && (negb (is_retryable_maintenance (ev_method e)) || mismatch)
  then fail_turn_request s (ev_method e) (ev_status e) (ev_stun_code e)
  else s.

Definition on_channel_bound (s : DriverShared) (e : NativeEvent) (peer : SocketAddr) : result DriverShared PumpError :=
  match to_socket_addr (ev_address e) with
  | None => Err AddressFamily
  | Some event_peer =>
      if negb (bool_decide (event_peer = peer)) then Ok (fail s (UnexpectedPeer event_peer))
      else if negb (channel_in_range (ev_channel e)) then Ok (fail s (InvalidChannel (ev_channel e)))
      else Ok (set_snapshot (with_channel (snapshot s) (ev_channel e)) (set_bound_channel (ev_channel e) s))
  end.

Definition on_relay_address (core : Inner) (s : DriverShared) (e : NativeEvent) : result DriverShared PumpError :=
  match to_socket_addr (ev_address e) with
  | None => Err AddressFamily
  | Some relay =>
      match relay_address core with
      | None => Err RelayUnavailable
      | Some queried =>
          if negb (bool_decide (queried = relay)) then Err RelayMismatch
          else Ok (set_snapshot (with_relay (snapshot s) relay) s)
      end
  end.

Definition handle_event (core : Inner) (peer : SocketAddr) (s : DriverShared) (f : PumpFlags) (e : NativeEvent)
  : result (DriverShared * PumpFlags) PumpError :=
  if ev_kind e =? EVENT_STATE then
    let s := if negb (ev_state e =? STATE_READY) then set_bound_channel 0 s else s in
    let s := set_snapshot (with_state (snapshot s) (ev_state e)) s in
    let destroy := (ev_state e =? STATE_DESTROYING) && negb (closing s) in
    Ok (s, mkFlags (unexpected_destroy f || destroy) (channel_rebind_exhausted f))
  else if ev_kind e =? EVENT_REQUEST_COMPLETE then Ok (on_request_complete s e, f)
  else if ev_kind e =? EVENT_STUN_RESPONSE_ERROR then
    Ok (if negb (closing s) && is_allocation_mismatch_stun (ev_method e) (ev_stun_code e)
        then fail_turn_request s (ev_method e) (ev_status e) (ev_stun_code e) else s, f)
  else if ev_kind e =? EVENT_CHANNEL_BOUND then
    match on_channel_bound s e peer with Ok s => Ok (s, f) | Err x => Err x end
  else if ev_kind e =? EVENT_RELAY_ADDRESS then
    match on_relay_address core s e with Ok s => Ok (s, f) | Err x => Err x end
  else if ev_kind e =? EVENT_CONTROL_OVERFLOW then Ok (fail s (ControlOverflow (ev_dropped e)), f)
  else if ev_kind e =? EVENT_DATA_REJECTED then Ok (s, f)
  else if ev_kind e =? EVENT_FORCED_DESTROY then
    Ok (if negb (closing s) then fail s ForceDestroyed else s, f)
  else if ev_kind e =? EVENT_CHANNEL_REBIND_EXHAUSTED then Ok (s, mkFlags (unexpected_destroy f) true)
  else if ev_kind e =? EVENT_EVENT_OVERFLOW then Ok (fail s (EventOverflow (ev_dropped e)), f)
  else Ok (fail s (UnknownEvent (ev_kind e)), f).

(** [while let Some(..) = core.pull_control(..)]: [send] is whether a datagram
    or a stream write succeeds; what was handed to it is collected in [sent].
    One turn per queued control is enough. *)
Fixpoint drain_controls (turns : nat) (send : bytes -> bool) (core : Inner) (s : DriverShared) (sent : list bytes)
  : res (Inner * DriverShared * list bytes * result unit PumpError) :=
  match turns with
  | O => Panic
  | S turns =>
      match pull_control core CONTROL_MAX with
      | (core, Err e) => Ret (core, s, sent, Err (CoreError e))
      | (core, Ok None) => Ret (core, s, sent, Ok tt)
      | (core', Ok (Some (packet, destination))) =>
          if negb (bool_decide (destination = server core))
          then Ret (core', s, sent, Err (UnexpectedDestination destination))
          else if negb (send packet) then Ret (core', s, sent, Err SendFailed)
          else drain_controls turns send core' (set_control_sent true s) (sent ++ [packet])
      end
  end.

Fixpoint drain_events (turns : nat) (peer : SocketAddr) (core : Inner) (s : DriverShared) (f : PumpFlags)
  : res (Inner * DriverShared * result PumpFlags PumpError) :=
  match turns with
  | O => Panic
  | S turns =>
      match pull_event core with
      | (core, None) => Ret (core, s, Ok f)
      | (core, Some event) =>
          match handle_event core peer s f event with
          | Err e => Ret (core, s, Err e)
          | Ok (s, f) => drain_events turns peer core s f
          end
      end
  end.

(** What [pump_native] does after the events. *)
Definition settle (s : DriverShared) (f : PumpFlags) : DriverShared :=
  if unexpected_destroy f && bool_decide (terminal_of s = None)
  then fail s (if channel_rebind_exhausted f then ChannelRebindExhausted else DestroyingUnexpectedly)
  else s.

(** [pump_native]; the driver's [server] and [peer] are those of its core. *)
Definition pump_native (env : Env) (send : bytes -> bool) (core : Inner) (s : DriverShared)
  : res (Inner * DriverShared * list bytes * result (option Z) PumpError) :=
  polled ← poll env core;
  let '(core, next_timer) := polled in
  match next_timer with
  | Err e => Ret (core, s, [], Err (CoreError e))
  | Ok next_timer =>
      drained ← drain_controls (S (length (controls core))) send core s [];
      let '(core, s, sent, r) := drained in
      match r with
      | Err e => Ret (core, s, sent, Err e)
      | Ok tt =>
          handled ← drain_events (S (length (events core))) (peer core) core s (mkFlags false false);
          let '(core, s, r) := handled in
          match r with
          | Err e => Ret (core, s, sent, Err e)
          | Ok f => Ret (core, settle s f, sent, Ok next_timer)
          end
      end
  end.

(** [observe_wake], for the wake epoch and the gap that [wake] reports. *)
Definition observe_wake (env : Env) (core : Inner) (seen_epoch current gap : Z) : Inner * Z * bool :=
  if current =? seen_epoch then (core, seen_epoch, false)
  else (fst (resync_after_suspend env core gap), current, true).

(** [start_driver_cleanup] gives the core, the stored deadline (which is also
    what it returns) and whether the shutdown was started by this call. *)
Definition start_driver_cleanup (env : Env) (core : Inner) (cleanup_deadline : option Z) (shutdown_requested : bool)
  (state : Z) : res (Inner * Z * bool) :=
  let timeout := if STATE_READY <=? state then READY_CLEANUP_TIMEOUT else CLEANUP_TIMEOUT in
  let proposed := now env + timeout in
  let stored := default proposed cleanup_deadline in
  let deadline := if proposed <? stored then proposed else stored in
  if shutdown_requested then Ret (core, deadline, false)
  else
    r ← graceful_shutdown env core;
    Ret (fst r, deadline, true).

(** ** One driver *)

(** What the loops of a driver do to its core and its shared state, one step at
    a time, with what the step reads from outside. *)
Inductive DriverStep : Type :=
| Pumped (env : Env) (send : bytes -> bool)
| Received (env : Env) (packet : PacketBuf)
| ReceivedDeficit (env : Env) (wire : bytes)
| Woken (env : Env) (seen current gap : Z)
| CleanupStarted (env : Env) (deadline : option Z) (requested : bool)
| OwnerReceives
| Fails (reason : Reason)
| RequestsCleanup.

Definition driver_step (x : Inner * DriverShared) (d : DriverStep) : res (Inner * DriverShared) :=
  let '(core, s) := x in
  match d with
  | Pumped env send =>
      r ← pump_native env send core s; let '(core, s, _, _) := r in Ret (core, s)
  | Received env packet => r ← process_packet env core s packet; Ret (fst r)
  | ReceivedDeficit env wire => r ← process_deficit_packet env core s wire; Ret (fst r)
  | Woken env seen current gap => let '(core, _, _) := observe_wake env core seen current gap in Ret (core, s)
  | CleanupStarted env deadline requested =>
      r ← start_driver_cleanup env core deadline requested (sn_state (snapshot s));
      let '(core, _, _) := r in Ret (core, s)
  | OwnerReceives => match recv_ready s with Some (_, s) => Ret (core, s) | None => Ret (core, s) end
  | Fails reason => Ret (core, fail s reason)
  | RequestsCleanup => Ret (core, request_cleanup s)
  end.

Fixpoint driver_run (x : Inner * DriverShared) (ds : list DriverStep) : res (Inner * DriverShared) :=
  match ds with
  | [] => Ret x
  | d :: ds => x ← driver_step x d; driver_run x ds
  end.
End Driver.

(** ** The invariant of the shared state *)

Record shared_ok (s : DriverShared) : Prop := {
  ok_protected : zlen (protected s) <= PROTECTED_INCOMING /\ Forall buf_ok (protected s);
  ok_incoming : zlen (incoming s) <= INCOMING_QUEUE_CAPACITY /\ Forall buf_ok (incoming s);
  ok_bound : bound_channel s <> 0 ->
    channel_in_range (bound_channel s) = true /\ sn_channel (snapshot s) = Some (bound_channel s);
  ok_terminal : terminal_present s = true <-> is_Some (terminal (snapshot s));
}.

(** A change that keeps the invariant, never reopens a closing driver, never
    replaces a terminal reason, and gives none to a closing driver. *)
Definition evolves (s s' : DriverShared) : Prop :=
  shared_ok s ->
  shared_ok s' /\ (closing s = true -> closing s' = true /\ terminal_of s' = terminal_of s)
  /\ (forall r, terminal_of s = Some r -> terminal_of s' = Some r).

Lemma evolves_refl s : evolves s s.
Proof. by intros Hs. Qed.

Lemma evolves_trans s1 s2 s3 : evolves s1 s2 -> evolves s2 s3 -> evolves s1 s3.
Proof.
  intros H12 H23 Hs. destruct (H12 Hs) as (H2 & Hc2 & Ht2). destruct (H23 H2) as (H3 & Hc3 & Ht3).
  split; [done|]. split; [|auto]. intros Hc. destruct (Hc2 Hc) as [Hc' He]. destruct (Hc3 Hc'). split; congruence.
Qed.

(** Changes that leave the terminal reason, the closing flag and the channel alone. *)
Lemma evolves_same s s' :
  closing s' = closing s -> terminal_present s' = terminal_present s ->
  terminal (snapshot s') = terminal (snapshot s) ->
  (bound_channel s' = 0 \/ (bound_channel s' = bound_channel s /\ sn_channel (snapshot s') = sn_channel (snapshot s))
   \/ (channel_in_range (bound_channel s') = true /\ sn_channel (snapshot s') = Some (bound_channel s'))) ->
  (shared_ok s -> zlen (protected s') <= PROTECTED_INCOMING /\ Forall buf_ok (protected s')) ->
  (shared_ok s -> zlen (incoming s') <= INCOMING_QUEUE_CAPACITY /\ Forall buf_ok (incoming s')) ->
  evolves s s'.
Proof.
  intros Hc Hp Ht Hb Hpr Hin Hs. assert (terminal_of s' = terminal_of s) as Ht' by (unfold terminal_of; by rewrite Hp, Ht).
  split; [|split; [by rewrite Hc|intros r; by rewrite Ht']].
  constructor; [by apply Hpr|by apply Hin| |by rewrite Hp, Ht; apply ok_terminal].
  intros Hn. destruct Hb as [Hb|[[Hb Hsn]|Hb]]; [done| |done]. rewrite Hb, Hsn in *. by apply ok_bound.
Qed.

Ltac evolves_fields :=
  apply evolves_same; simpl; auto; intros Hs; (apply (ok_protected _ Hs) || apply (ok_incoming _ Hs)).

Lemma fail_evolves s reason : evolves s (fail s reason).
Proof.
  unfold fail. destruct (closing s) eqn:Ec; [apply evolves_refl|].
  destruct (terminal (snapshot s)) as [r|] eqn:Et; [apply evolves_refl|]. intros Hs.
  assert (terminal_present s = false) as Hp.
  { destruct (terminal_present s) eqn:E; [|done]. destruct (proj1 (ok_terminal s Hs) E) as [? H]. congruence. }
  split; [|split; [by rewrite Ec|unfold terminal_of; by rewrite Hp]].
  constructor; simpl; [apply ok_protected|apply ok_incoming|apply ok_bound|]; done.
Qed.

Lemma request_cleanup_evolves s : evolves s (request_cleanup s).
Proof.
  intros Hs. split; [|by split]. destruct Hs. constructor; simpl; try done.
Qed.

Lemma stash_evolves s p : buf_ok p -> evolves s (stash_protected s p).
Proof.
  intros Hp. unfold stash_protected. apply evolves_same; simpl; auto; intros Hs; [|by apply ok_incoming].
  destruct (ok_protected s Hs) as [Hl Hf]. unfold PROTECTED_INCOMING in *. rewrite zlen_snoc. split.
  - destruct (Z.leb_spec 32 (zlen (protected s))); [rewrite zlen_drop_list; lia|lia].
  - apply Forall_app. split; [|by apply Forall_singleton]. destruct (_ <=? _); [by apply Forall_drop|done].
Qed.

Lemma pop_evolves s p s' : pop_protected s = Some (p, s') -> evolves s s'.
Proof.
  unfold pop_protected. destruct (protected s) as [|q rest] eqn:E; [done|]. intros [= <- <-].
  apply evolves_same; simpl; auto; intros Hs; [|by apply ok_incoming].
  destruct (ok_protected s Hs) as [Hl Hf]. rewrite E, zlen_cons in Hl. rewrite E in Hf.
  split; [lia|]. by apply Forall_cons in Hf as [_ Hf].
Qed.

Lemma recv_ready_evolves s r s' : recv_ready s = Some (r, s') -> evolves s s'.
Proof.
  unfold recv_ready. destruct (terminal_of s); [intros [= _ <-]; apply evolves_refl|].
  destruct (pop_protected s) as [[p s1]|] eqn:E; [intros [= _ <-]; by eapply pop_evolves|].
  destruct (incoming s) as [|q rest] eqn:Ei; [done|]. intros [= _ <-].
  apply evolves_same; simpl; auto; intros Hs; [by apply ok_protected|].
  destruct (ok_incoming s Hs) as [Hl Hf]. rewrite Ei, zlen_cons in Hl. rewrite Ei in Hf.
  split; [lia|]. by apply Forall_cons in Hf as [_ Hf].
Qed.

Lemma set_snapshot_evolves s sn :
  terminal sn = terminal (snapshot s) -> sn_channel sn = sn_channel (snapshot s) -> evolves s (set_snapshot sn s).
Proof. intros. evolves_fields. Qed.

Lemma on_request_complete_evolves s e : evolves s (on_request_complete s e).
Proof.
  unfold on_request_complete. cbv zeta.
  set (c := mkCompletion _ _ _). set (s1 := match set_completion _ _ _ with Some _ => _ | None => _ end).
  assert (evolves s s1) as H1.
  { unfold s1. destruct (set_completion _ _ c) as [sn|] eqn:E; [|apply evolves_refl].
    unfold set_completion in E. apply set_snapshot_evolves; repeat case_match; by simplify_eq. }
  eapply evolves_trans; [exact H1|]. clearbody s1. destruct (_ && _); [apply fail_evolves|apply evolves_refl].
Qed.

Lemma handle_event_evolves core p s f e s' f' : handle_event core p s f e = Ok (s', f') -> evolves s s'.
Proof.
  unfold handle_event.
  destruct (_ =? _).
  { intros [= <- _]. unfold with_state. destruct (ev_state e =? STATE_READY); simpl; evolves_fields. }
  destruct (_ =? _); [intros [= <- _]; apply on_request_complete_evolves|].
  destruct (_ =? _); [intros [= <- _]; destruct (_ && _); [apply fail_evolves|apply evolves_refl]|].
  destruct (_ =? _).
  { unfold on_channel_bound. destruct (to_socket_addr _); [|done].
    destruct (negb (bool_decide _)); [intros [= <- _]; apply fail_evolves|].
    destruct (negb _) eqn:E; [intros [= <- _]; apply fail_evolves|]. apply negb_false_iff in E.
    intros [= <- _]. evolves_fields. }
  destruct (_ =? _).
  { unfold on_relay_address. destruct (to_socket_addr _); [|done]. destruct (relay_address core); [|done].
    destruct (negb _); [done|]. intros [= <- _]. by apply set_snapshot_evolves. }
  destruct (_ =? _); [intros [= <- _]; apply fail_evolves|].
  destruct (_ =? _); [intros [= <- _]; apply evolves_refl|].
  destruct (_ =? _); [intros [= <- _]; destruct (negb _); [apply fail_evolves|apply evolves_refl]|].
  destruct (_ =? _); [intros [= <- _]; apply evolves_refl|].
  destruct (_ =? _); intros [= <- _]; apply fail_evolves.
Qed.

Section DriverFacts.
Context `{Digests}.

(** ** The pump *)

Lemma pull_control_eq core :
  controls (fst (pull_control core CONTROL_MAX)) = tail (controls core)
  /\ server (fst (pull_control core CONTROL_MAX)) = server core.
Proof. unfold pull_control. destruct (controls core) as [|c l] eqn:E; [done|]. by destruct (_ <? _). Qed.

Lemma drain_controls_ok turns send core s sent :
  core_wf core -> (length (controls core) < turns)%nat ->
  exists core' s' sent' r, drain_controls turns send core s sent = Ret (core', s', sent', r)
    /\ core_wf core' /\ evolves s s'
    /\ (is_ok r = true -> controls core' = [] /\ sent' = sent ++ map c_packet (controls core)).
Proof.
  revert core s sent. induction turns as [|turns IH]; intros core s sent Hw Hl; [lia|]. cbn [drain_controls].
  pose proof (pull_control_ok core CONTROL_MAX Hw) as Hw'. pose proof (pull_control_eq core) as [Hc _].
  unfold pull_control in *. destruct (controls core) as [|c rest] eqn:E; simpl in *.
  { eexists core, s, sent, _. conjs; try reflexivity; try done; try apply evolves_refl.
    intros _. by rewrite app_nil_r. }
  destruct (CONTROL_MAX <? zlen (c_packet c)); simpl in *.
  { eexists _, s, sent, _. conjs; try reflexivity; try done; apply evolves_refl. }
  destruct (negb _); [eexists _, s, sent, _; conjs; try reflexivity; try done; apply evolves_refl|].
  destruct (negb (send _)); [eexists _, s, sent, _; conjs; try reflexivity; try done; apply evolves_refl|].
  destruct (IH (set_controls rest core) (set_control_sent true s) (sent ++ [c_packet c]) Hw')
    as (core' & s' & sent' & r & -> & Hw2 & He & Hr); [simpl; lia|].
  eexists _, _, _, _. split; [reflexivity|]. split; [done|]. split.
  - eapply evolves_trans; [|exact He]. evolves_fields.
  - intros Hok. destruct (Hr Hok) as [-> ->]. by rewrite <- app_assoc.
Qed.

Lemma drain_events_ok turns p core s f :
  core_wf core -> (length (events core) < turns)%nat ->
  exists core' s' r, drain_events turns p core s f = Ret (core', s', r)
    /\ core_wf core' /\ evolves s s' /\ controls core' = controls core
    /\ (is_ok r = true -> events core' = []).
Proof.
  revert core s f. induction turns as [|turns IH]; intros core s f Hw Hl; [lia|]. cbn [drain_events].
  pose proof (pull_event_ok core Hw) as Hw'. unfold pull_event in *.
  destruct (events core) as [|e rest] eqn:E; simpl in Hw'.
  { eexists core, s, _. conjs; try reflexivity; try done; apply evolves_refl. }
  destruct (handle_event _ p s f e) as [[s1 f1]|err] eqn:Eh.
  - destruct (IH (set_events rest core) s1 f1 Hw') as (core' & s' & r & -> & Hw2 & He & Hc & Hr); [simpl in *; lia|].
    eexists _, _, _. split; [reflexivity|]. split; [done|]. split; [|done].
    eapply evolves_trans; [|exact He]. by eapply handle_event_evolves.
  - eexists _, _, _. split; [reflexivity|]. split; [done|]. split; [apply evolves_refl|done].
Qed.

Lemma settle_evolves s f : evolves s (settle s f).
Proof. unfold settle. destruct (_ && _); [apply fail_evolves|apply evolves_refl]. Qed.

Lemma pump_native_ok env send core s :
  core_wf core -> env_ok env ->
  exists core1 polled core' s' sent r, poll env core = Ret (core1, polled)
    /\ pump_native env send core s = Ret (core', s', sent, r)
    /\ core_wf core' /\ evolves s s'
    /\ (is_ok r = true -> controls core' = [] /\ events core' = [] /\ sent = map c_packet (controls core1)
        /\ r = match polled with Ok t => Ok t | Err e => Err (CoreError e) end).
Proof.
  intros Hw He. unfold pump_native. destruct (poll_ok env core Hw He) as (core1 & polled & Hp & Hw1).
  exists core1, polled. rewrite Hp. rbind. destruct polled as [t|e].
  2:{ eexists core1, s, [], _. conjs; try reflexivity; try done; apply evolves_refl. }
  destruct (drain_controls_ok (S (length (controls core1))) send core1 s [] Hw1)
    as (core2 & s2 & sent & r2 & -> & Hw2 & He2 & Hr2); [lia|]. rbind.
  destruct r2 as [[]|e]; [|by eexists _, _, _, _]. destruct (Hr2 eq_refl) as [Hc2 ->].
  destruct (drain_events_ok (S (length (events core2))) (peer core2) core2 s2 (mkFlags false false) Hw2)
    as (core3 & s3 & r3 & -> & Hw3 & He3 & Hc3 & Hr3); [lia|]. rbind.
  destruct r3 as [f|e]; eexists _, _, _, _; (split; [reflexivity|]); (split; [reflexivity|]); (split; [done|]).
  - split; [eapply evolves_trans; [exact He2|]; eapply evolves_trans; [exact He3|apply settle_evolves]|].
    intros _. rewrite Hc3. auto.
  - split; [by eapply evolves_trans|done].
Qed.

(** A pump polls the core once, sends every control the core had queued, in
    order and each once, and applies every event; it ends, because neither
    queue grows while it is drained, and unless the socket or the core reports
    an error it leaves both queues empty and returns the core's next deadline. *)
Lemma pump_drains env send core s :
  core_wf core -> env_ok env ->
  exists core1 polled core' s' sent r, poll env core = Ret (core1, polled)
    /\ pump_native env send core s = Ret (core', s', sent, r)
    /\ (is_ok r = true -> controls core' = [] /\ events core' = [] /\ sent = map c_packet (controls core1)
        /\ r = match polled with Ok t => Ok t | Err e => Err (CoreError e) end).
Proof.
  intros Hw He. destruct (pump_native_ok env send core s Hw He) as (core1 & polled & core' & s' & sent & r & ? & ? & _ & _ & ?).
  by exists core1, polled, core', s', sent, r.
Qed.

(** ** Receiving *)

Lemma slice_valid p wire : buf_ok p -> as_slice p = Ret wire -> valid_slice wire.
Proof.
  intros (_ & Hs & He) Hw. apply slice_length in Hw. unfold valid_slice, isize_max, PACKET_CAPACITY in *. lia.
Qed.

(** What becomes of the payload of a ChannelData packet of the bound channel. *)
Lemma forward_ok (core : Inner) s q payload keep :
  buf_ok q -> as_slice q = Ret payload -> keep_under_pressure payload = Ret keep ->
  exists s' action,
    (if owner_closed s then Ret (core, s, OwnerClosed)
     else if zlen (incoming s) <? INCOMING_QUEUE_CAPACITY then
       Ret (core, set_queues (protected s) (incoming s ++ [q]) s, Wait)
     else
       payload ← as_slice q;
       keep ← keep_under_pressure payload;
       if (keep : bool) then Ret (core, stash_protected s q, Wait)
       else Ret (core, set_drops (queue_full_drops s + 1) (pool_deficit_drops s) s, Wait)) = Ret (core, s', action)
    /\ evolves s s'
    /\ (owner_closed s = false -> zlen (incoming s) < INCOMING_QUEUE_CAPACITY ->
         s' = set_queues (protected s) (incoming s ++ [q]) s)
    /\ (owner_closed s = false -> INCOMING_QUEUE_CAPACITY <= zlen (incoming s) ->
         s' = if keep then stash_protected s q
              else set_drops (queue_full_drops s + 1) (pool_deficit_drops s) s).
Proof.
  intros Hq Hsl Hk. destruct (owner_closed s).
  { eexists _, _. split; [reflexivity|]. by split; [apply evolves_refl|]. }
  destruct (Z.ltb_spec (zlen (incoming s)) INCOMING_QUEUE_CAPACITY).
  - eexists _, _. split; [reflexivity|]. split; [|split; [done|lia]].
    apply evolves_same; simpl; auto; intros Hok; [by apply ok_protected|].
    destruct (ok_incoming s Hok) as [_ Hf]. rewrite zlen_snoc. split; [lia|].
    apply Forall_app. split; [done|by apply Forall_singleton].
  - rewrite Hsl. rbind. rewrite Hk. rbind.
    destruct keep; (eexists _, _; split; [reflexivity|]); (split; [|split; [lia|done]]).
    + by apply stash_evolves.
    + evolves_fields.
Qed.

Lemma process_packet_ok env core s packet :
  core_wf core -> env_ok env -> buf_ok packet -> (forall wire, as_slice packet = Ret wire -> is_bytes wire) ->
  exists core' s' action, process_packet env core s packet = Ret (core', s', action)
    /\ core_wf core' /\ evolves s s'.
Proof.
  intros Hw He Hok Hb. unfold process_packet.
  assert (returns (as_slice packet)) as [wire Hwire].
  { destruct Hok as (Hst & Hs & Hend). apply returns_slice; lia. }
  rewrite Hwire. rbind. destruct (channel_data_header_total wire) as [header Hh]. rewrite Hh. rbind.
  destruct header as [[channel n]|].
  - destruct (negb _); [by eexists _, _, _|].
    destruct (trim_front packet 4) as [q1|] eqn:E1; [|by eexists _, _, _].
    destruct (truncate q1 n) as [q2|] eqn:E2; [|by eexists _, _, _].
    assert (buf_ok q2 /\ exists payload, as_slice q2 = Ret payload) as (Hq2 & payload & Hs2).
    { destruct Hok as (Hst & Hs & Hend). unfold trim_front, truncate, with_range, len in E1, E2.
      destruct (Z.ltb_spec (Z.max (range_end packet - range_start packet) 0) 4) as [|H4]; [done|].
      injection E1 as <-. simpl in E2. destruct (Z.ltb_spec (Z.max (range_end packet - (range_start packet + 4)) 0) n); [done|].
      injection E2 as <-. unfold buf_ok, as_slice. simpl.
      pose proof (channel_data_header_length wire channel n Hh (Hb wire Hwire)) as Hn.
      split; [lia|]. apply returns_slice; lia. }
    destruct (keep_under_pressure_total payload (slice_valid q2 payload Hq2 Hs2)) as [keep Hk].
    destruct (forward_ok core s q2 payload keep Hq2 Hs2 Hk) as (s' & action & -> & Hev & _).
    by eexists core, s', action.
  - destruct (is_stun_total wire) as [stun ->]. rbind. destruct stun; [|by eexists _, _, _].
    destruct (input_stun_ok env core wire Hw (Hb wire Hwire) He) as (core' & r & -> & Hw'). rbind.
    by eexists _, _, _.
Qed.

Lemma process_deficit_ok env core s wire :
  core_wf core -> env_ok env -> is_bytes wire ->
  exists core' s' action, process_deficit_packet env core s wire = Ret (core', s', action)
    /\ core_wf core' /\ evolves s s'.
Proof.
  intros Hw He Hb. unfold process_deficit_packet.
  destruct (channel_data_header_total wire) as [header ->]. rbind. destruct header as [[channel n]|].
  - destruct (_ =? _); (eexists _, _, _; split; [reflexivity|]); split; try done. evolves_fields.
  - destruct (is_stun_total wire) as [stun ->]. rbind. destruct stun; [|by eexists _, _, _].
    destruct (input_stun_ok env core wire Hw Hb He) as (core' & r & -> & Hw'). rbind. by eexists _, _, _.
Qed.

Definition driver_step_ok (d : DriverStep) : Prop :=
  match d with
  | Pumped env _ | Woken env _ _ _ | CleanupStarted env _ _ => env_ok env
  | Received env packet => env_ok env /\ buf_ok packet /\ is_bytes (storage packet)
  | ReceivedDeficit env wire => env_ok env /\ is_bytes wire
  | OwnerReceives | Fails _ | RequestsCleanup => True
  end.

Lemma driver_step_evolves core s d :
  core_wf core -> driver_step_ok d ->
  exists core' s', driver_step (core, s) d = Ret (core', s') /\ core_wf core' /\ evolves s s'.
Proof.
  intros Hw Hd. destruct d as [env send|env packet|env wire|env seen current gap|env deadline requested| |reason|];
    simpl in Hd; cbn [driver_step].
  - destruct (pump_native_ok env send core s Hw Hd) as (core1 & polled & core' & s' & sent & r & _ & -> & Hw' & He & _).
    rbind. by eexists _, _.
  - destruct Hd as (He & Hb & Hby).
    destruct (process_packet_ok env core s packet Hw He Hb (fun wire => slice_bytes _ _ _ _ Hby)) as (core' & s' & a & -> & ? & ?). rbind. by eexists _, _.
  - destruct Hd as (He & Hb).
    destruct (process_deficit_ok env core s wire Hw He Hb) as (core' & s' & a & -> & ? & ?). rbind. by eexists _, _.
  - unfold observe_wake. destruct (_ =? _); (eexists _, _; split; [reflexivity|]); (split; [|apply evolves_refl]);
      [done|by apply resync_ok].
  - unfold start_driver_cleanup. cbv zeta.
    destruct requested; [eexists _, _; (split; [reflexivity|]); (split; [done|apply evolves_refl])|].
    destruct (graceful_shutdown_ok env core Hw Hd) as (core' & r & -> & Hw'). rbind.
    eexists _, _; (split; [reflexivity|]); (split; [done|apply evolves_refl]).
  - destruct (recv_ready s) as [[r s']|] eqn:E; (eexists _, _; split; [reflexivity|]); (split; [done|]);
      [by eapply recv_ready_evolves|apply evolves_refl].
  - eexists _, _. split; [reflexivity|]. split; [done|apply fail_evolves].
  - eexists _, _. split; [reflexivity|]. split; [done|apply request_cleanup_evolves].
Qed.

Lemma driver_run_evolves core s ds :
  core_wf core -> Forall driver_step_ok ds ->
  exists core' s', driver_run (core, s) ds = Ret (core', s') /\ core_wf core' /\ evolves s s'.
Proof.
  intros Hw Hds. revert core s Hw. induction Hds as [|d ds Hd _ IH]; intros core s Hw; cbn [driver_run].
  - exists core, s. split; [done|]. split; [done|apply evolves_refl].
  - destruct (driver_step_evolves core s d Hw Hd) as (core1 & s1 & -> & Hw1 & H1). rbind.
    destruct (IH core1 s1 Hw1) as (core' & s' & Hrun & Hw' & H2). exists core', s'.
    split; [done|]. split; [done|]. by eapply evolves_trans.
Qed.

Lemma new_shared_ok : shared_ok new_shared.
Proof. constructor; simpl; done. Qed.

(** In every interleaving of pumps, datagrams, wakes, cleanup and failures,
    no step of a driver panics; its core keeps its invariant; at most 32
    protected and 256 ordinary packets wait for the owner, each in a well-formed
    buffer; the channel that received data is matched against is zero or the
    one the snapshot shows, in the ChannelData range; the first terminal reason
    is never replaced, a closing driver stays closing and is given none. *)
Lemma driver_safe core s ds :
  core_wf core -> shared_ok s -> Forall driver_step_ok ds ->
  exists core' s', driver_run (core, s) ds = Ret (core', s') /\ core_wf core' /\ shared_ok s'
    /\ (closing s = true -> closing s' = true /\ terminal_of s' = terminal_of s)
    /\ (forall r, terminal_of s = Some r -> terminal_of s' = Some r).
Proof.
  intros Hw Hs Hds.
  destruct (driver_run_evolves core s ds Hw Hds) as (core' & s' & Hrun & Hw' & Hev).
  exists core', s'. split; [done|]. split; [done|]. by apply Hev.
Qed.

(** The payload of a ChannelData frame of the bound channel reaches the
    owner's queue unchanged while the queue has room; when it is full, the
    packet waits in the protected queue if it is kept under pressure and is
    counted as dropped if not. Nothing else changes. *)
Lemma payload_forwarded env core s packet payload keep :
  buf_ok packet -> as_slice packet = Ret (channel_frame (bound_channel s) payload) ->
  channel_in_range (bound_channel s) = true -> owner_closed s = false ->
  keep_under_pressure payload = Ret keep ->
  exists q, as_slice q = Ret payload /\
    process_packet env core s packet
    = Ret (core,
           (if zlen (incoming s) <? INCOMING_QUEUE_CAPACITY then set_queues (protected s) (incoming s ++ [q]) s
            else if keep then stash_protected s q
            else set_drops (queue_full_drops s + 1) (pool_deficit_drops s) s),
           Wait).
Proof.
  intros Hok Hs Hc Ho Hk.
  assert (zlen payload <= u16_max) as Hl.
  { pose proof (slice_length _ _ _ _ Hs) as Hl. unfold channel_frame in Hl. rewrite !zlen_app in Hl.
    rewrite !zlen_to_be in Hl. destruct Hok as (_ & Hr & He). unfold u16_max, PACKET_CAPACITY in *.
    pose proof (zlen_nonneg (replicate (Z.to_nat ((4 - zlen payload mod 4) mod 4)) 0)). lia. }
  pose proof (header_of_frame (bound_channel s) payload Hc Hl) as Hh.
  assert (exists pad, channel_frame (bound_channel s) payload
    = (to_be 2 (bound_channel s) ++ to_be 2 (zlen payload)) ++ payload ++ pad) as [pad Hp]
    by (unfold channel_frame; eexists; by rewrite <- app_assoc).
  destruct (trim_truncate_slice packet (to_be 2 (bound_channel s) ++ to_be 2 (zlen payload)) payload pad Hok)
    as (q & q' & Htrim & Htrunc & Hq & Hslice); [by rewrite <- Hp|].
  exists q'. split; [done|]. unfold process_packet. rewrite Hs.
  rbind. rewrite Hh. rbind. rewrite Z.eqb_refl. cbn [negb].
  rewrite zlen_app, !zlen_to_be in Htrim. change (Z.of_nat 2 + Z.of_nat 2) with 4 in Htrim.
  rewrite Htrim, Htrunc, Ho, Hslice. rbind. rewrite Hk. rbind. destruct (_ <? _); [done|]. by destruct keep.
Qed.
End DriverFacts.

(** ** Evaluated steps *)

Definition always_sends (packet : bytes) : bool := true.

(** Pumping the core that has just started to allocate sends its request. *)
Lemma pump_drains_witness :
  exists core1 polled core' s' sent r, poll (example_env 1 1) (after_calls 1) = Ret (core1, polled)
    /\ pump_native (example_env 1 1) always_sends (after_calls 1) new_shared = Ret (core', s', sent, r)
    /\ (is_ok r = true -> controls core' = [] /\ events core' = [] /\ sent = map c_packet (controls core1)
        /\ r = match polled with Ok t => Ok t | Err e => Err (CoreError e) end).
Proof. apply (pump_drains (example_env 1 1) always_sends (after_calls 1) new_shared (after_calls_wf 1)). intros o. reflexivity. Defined.

Lemma pump_example :
  match pump_native (example_env 1 1) always_sends (after_calls 1) new_shared with
  | Ret (_, s, sent, Ok _) => length sent = 1%nat /\ control_sent s = true /\ sn_state (snapshot s) = STATE_ALLOCATING
  | _ => False
  end.
Proof. vm_compute. repeat split. Qed.

(** A frame of channel [0x4000] with twelve bytes of payload, as received. *)
Definition example_frame : PacketBuf :=
  mkPacketBuf (replicate 64 0 ++ channel_frame 0x4000 (replicate 12 7) ++ replicate 2224 0) 64 80.

Definition bound_shared : DriverShared :=
  set_snapshot (with_channel default_snapshot 0x4000) (set_bound_channel 0x4000 new_shared).

Lemma example_frame_ok : buf_ok example_frame.
Proof. unfold buf_ok, PACKET_CAPACITY. split; [vm_compute; reflexivity|simpl; lia]. Qed.

Lemma driver_safe_witness :
  exists core' s', driver_run (after_calls 3, new_shared)
      [Pumped (example_env 10 4) always_sends; Received (example_env 11 5) example_frame; OwnerReceives;
       RequestsCleanup; Fails ForceDestroyed] = Ret (core', s')
    /\ core_wf core' /\ shared_ok s'.
Proof.
  destruct (driver_safe (after_calls 3) new_shared
    [Pumped (example_env 10 4) always_sends; Received (example_env 11 5) example_frame; OwnerReceives;
     RequestsCleanup; Fails ForceDestroyed] (after_calls_wf 3) new_shared_ok) as (core' & s' & Hr & Hw & Hs & _).
  - repeat (apply List.Forall_cons; [simpl driver_step_ok|]); try apply List.Forall_nil; try exact I; try (intros o; reflexivity).
    split; [intros o; reflexivity|]. split; [exact example_frame_ok|]. apply is_bytes_check. vm_compute. reflexivity.
  - exists core', s'. split; [exact Hr|]. split; [exact Hw|exact Hs].
Defined.

Lemma payload_forwarded_witness :
  exists q, as_slice q = Ret (replicate 12 7)
    /\ process_packet (example_env 1 1) example_core bound_shared example_frame
       = Ret (example_core, set_queues [] [q] bound_shared, Wait).
Proof.
  destruct (payload_forwarded (example_env 1 1) example_core bound_shared example_frame (replicate 12 7) true)
    as (q & Hq & Hp); [exact example_frame_ok|vm_compute; reflexivity..|].
  exists q. split; [exact Hq|exact Hp].
Defined.
