(* ===== verification/TurnStream.v ===== *)
(** * TurnStream: framing over TCP and TLS

    Models [turn_stream.rs]: the reader, which cuts the byte stream of a TURN
    connection into STUN messages and padded ChannelData frames however the
    transport fragments it, and the writer loop, which merges the control and
    data queues. The socket is a list of the chunks that successive reads give. *)

From S2P Require Import Prelude Bytes ArrayQueue StunCodec PacketPool ChannelData.

Definition MAX_CONTROL_FRAME_BYTES : Z := 4096.
Definition MAX_DATA_FRAME_BYTES : Z := PACKET_CAPACITY - PACKET_HEADROOM.
Definition CONTROL_QUEUE_CAPACITY : Z := 16.
Definition DATA_QUEUE_CAPACITY : Z := 32.
Definition STREAM_READ_BUFFER_BYTES : Z := MAX_CONTROL_FRAME_BYTES.

Inductive FrameKind : Type :=
| ControlKind (frame_bytes : Z)
| ChannelDataKind (frame_bytes padding : Z).

Inductive StreamError : Type :=
| UnalignedLength
| LengthOverflow
| ControlTooLong
| InvalidCookie
| ReservedType
| DataTooLong
| HardLimit
| ClosedByPeer
| PacketFailed (e : PacketError).

Definition frame_start (b : bytes) : res (result (option FrameKind) StreamError) :=
  if zlen b <? 4 then Ret (Ok None) else
  b0 ← index b 0;
  b2 ← index b 2;
  b3 ← index b 3;
  let declared := of_be [b2; b3] in
  if Z.land b0 0xc0 =? 0 then
    if negb (declared mod 4 =? 0) then Ret (Err UnalignedLength) else
    match checked_add 64 20 declared with
    | None => Ret (Err LengthOverflow)
    | Some frame_bytes =>
        if MAX_CONTROL_FRAME_BYTES <? frame_bytes then Ret (Err ControlTooLong) else
        if zlen b <? 8 then Ret (Ok None) else
        cookie ← slice b 4 8;
        if negb (bytes_eqb cookie [0x21; 0x12; 0xa4; 0x42]) then Ret (Err InvalidCookie)
        else Ret (Ok (Some (ControlKind frame_bytes)))
    end
  else if negb (Z.land b0 0xc0 =? 0x40) then Ret (Err ReservedType)
  else
    match checked_add 64 4 declared with
    | None => Ret (Err LengthOverflow)
    | Some frame_bytes =>
        let padding := (4 - declared mod 4) mod 4 in
        if MAX_DATA_FRAME_BYTES <? frame_bytes + padding then Ret (Err DataTooLong)
        else Ret (Ok (Some (ChannelDataKind frame_bytes padding)))
    end.

Inductive TurnStreamFrame : Type :=
| ControlFrame (wire : bytes)
| DataFrame (p : PacketBuf)
| DataDropped.

(** [BytesMut::split_to]: the first [n] bytes and what is left. *)
Definition split_to (b : bytes) (n : Z) : res (bytes * bytes) :=
  head ← slice b 0 n;
  rest ← slice_from b n;
  Ret (head, rest).

Section Reader.
Context {Q : Type -> Type} `{ArrayQueue Q}.

Definition copy_channel_data (wire : bytes) (pool : @PacketPool Q) (fresh : bytes)
  : res (result TurnStreamFrame StreamError * @PacketPool Q) :=
  let '(packet, pool) := try_acquire pool fresh in
  match packet with
  | None => Ret (Ok DataDropped, pool)
  | Some packet =>
      match set_read_len packet (zlen wire) with
      | Err e => Ret (Err (PacketFailed e), release pool (storage packet))
      | Ok packet =>
          packet ← write_at packet 0 wire;
          Ret (Ok (DataFrame packet), pool)
      end
  end.

(** [decode_frame] and [take_frame]: [Ok None] is [NeedMore]. *)
Definition decode_frame (buffer : bytes) (pool : @PacketPool Q) (fresh : bytes)
  : res (result (option TurnStreamFrame) StreamError * bytes * @PacketPool Q) :=
  start ← frame_start buffer;
  match start with
  | Err e => Ret (Err e, buffer, pool)
  | Ok None => Ret (Ok None, buffer, pool)
  | Ok (Some (ControlKind frame_bytes)) =>
      if zlen buffer <? frame_bytes then Ret (Ok None, buffer, pool) else
      split ← split_to buffer frame_bytes;
      Ret (Ok (Some (ControlFrame (fst split))), snd split, pool)
  | Ok (Some (ChannelDataKind frame_bytes padding)) =>
      if zlen buffer <? frame_bytes + padding then Ret (Ok None, buffer, pool) else
      split ← split_to buffer (frame_bytes + padding);
      copied ← copy_channel_data (fst split) pool fresh;
      match copied with
      | (Ok frame, pool) => Ret (Ok (Some frame), snd split, pool)
      | (Err e, pool) => Ret (Err e, snd split, pool)
      end
  end.

(** [read_frame]: the frame or the error, the buffer and the chunks left. An
    exhausted socket reads zero bytes; so does an empty chunk. *)
Fixpoint read_frame (chunks : list bytes) (buffer : bytes) (pool : @PacketPool Q) (fresh : bytes)
  : res (result TurnStreamFrame StreamError * bytes * @PacketPool Q * list bytes) :=
  decoded ← decode_frame buffer pool fresh;
  match decoded with
  | (Err e, buffer, pool) => Ret (Err e, buffer, pool, chunks)
  | (Ok (Some frame), buffer, pool) => Ret (Ok frame, buffer, pool, chunks)
  | (Ok None, buffer, pool) =>
      if STREAM_READ_BUFFER_BYTES <=? zlen buffer then Ret (Err HardLimit, buffer, pool, chunks) else
      match chunks with
      | [] | [] :: _ => Ret (Err ClosedByPeer, buffer, pool, tail chunks)
      | chunk :: chunks => read_frame chunks (buffer ++ chunk) pool fresh
      end
  end.

(** Successive calls, each with the pool as it is at that moment. *)
Fixpoint read_frames (envs : list (@PacketPool Q * bytes)) (chunks : list bytes) (buffer : bytes)
  : res (list (result TurnStreamFrame StreamError)) :=
  match envs with
  | [] => Ret []
  | (pool, fresh) :: envs =>
      read ← read_frame chunks buffer pool fresh;
      let '(frame, buffer, _, chunks) := read in
      frames ← read_frames envs chunks buffer;
      Ret (frame :: frames)
  end.
End Reader.

(** ** The writer *)

Inductive TurnStreamOutbound : Type :=
| OutControl (wire : bytes)
| OutData (packet : PacketBuf).

(** What the writer takes next when neither queue is closed: a control if one
    is there, a data packet otherwise; [None] while it waits. *)
Definition writer_next (control : list bytes) (data : list PacketBuf)
  : option (TurnStreamOutbound * list bytes * list PacketBuf) :=
  match control with
  | wire :: control => Some (OutControl wire, control, data)
  | [] =>
      match data with
      | packet :: data => Some (OutData packet, control, data)
      | [] => None
      end
  end.

Definition outbound_wire (o : TurnStreamOutbound) : res bytes :=
  match o with OutControl wire => Ret wire | OutData packet => as_slice packet end.

(** ** The frames of a stream *)

Inductive StreamMessage : Type :=
| StunMessage (kind : Z) (t body : bytes)
| ChannelMessage (channel : Z) (payload : bytes).

Definition stream_wire (m : StreamMessage) : bytes :=
  match m with
  | StunMessage kind t body => message_bytes kind t body
  | ChannelMessage channel payload => channel_frame channel payload
  end.

(** The messages that fit the reader's limits. *)
Definition stream_ok (m : StreamMessage) : Prop :=
  match m with
  | StunMessage kind t body =>
      0 <= kind < 0x4000 /\ zlen t = 12 /\ zlen body mod 4 = 0 /\ 20 + zlen body <= MAX_CONTROL_FRAME_BYTES
  | ChannelMessage channel payload =>
      channel_in_range channel = true /\ zlen (channel_frame channel payload) <= MAX_DATA_FRAME_BYTES
  end.

Definition kind_of (m : StreamMessage) : FrameKind :=
  match m with
  | StunMessage _ _ body => ControlKind (20 + zlen body)
  | ChannelMessage _ payload => ChannelDataKind (4 + zlen payload) ((4 - zlen payload mod 4) mod 4)
  end.

Lemma stream_wire_len m :
  stream_ok m ->
  4 <= zlen (stream_wire m) <= 4096
  /\ zlen (stream_wire m) = match kind_of m with ControlKind n => n | ChannelDataKind n padding => n + padding end
  /\ (forall n, kind_of m = ControlKind n -> 20 <= n).
Proof.
  destruct m as [kind t body|channel payload]; simpl.
  - intros (_ & Ht & _ & Hl). rewrite zlen_message by done. pose proof (zlen_nonneg body).
    unfold MAX_CONTROL_FRAME_BYTES in Hl. split; [lia|]. split; [done|]. intros n [= <-]. lia.
  - intros [_ Hl]. unfold MAX_DATA_FRAME_BYTES, PACKET_CAPACITY, PACKET_HEADROOM in Hl.
    pose proof (padding_bound (zlen payload)). pose proof (zlen_nonneg payload).
    assert (zlen (channel_frame channel payload) = 4 + zlen payload + (4 - zlen payload mod 4) mod 4) as He.
    { unfold channel_frame. rewrite !zlen_app, !zlen_to_be, zlen_pad. lia. }
    split; [lia|]. split; [done|]. done.
Qed.

(** The first bytes of a message: its type, its length, and for STUN the cookie. *)
Lemma stream_head m :
  stream_ok m ->
  exists h declared tail, stream_wire m = to_be 2 h ++ to_be 2 declared ++ tail /\ is_u 16 h /\ is_u 16 declared
  /\ match m with
     | StunMessage _ _ body => h < 0x4000 /\ declared = zlen body /\ exists tail', tail = to_be 4 MAGIC_COOKIE ++ tail'
     | ChannelMessage channel payload => h = channel /\ declared = zlen payload
     end.
Proof.
  destruct m as [kind t body|channel payload]; simpl.
  - intros (Hk & _ & _ & Hl). pose proof (zlen_nonneg body). unfold MAX_CONTROL_FRAME_BYTES in Hl.
    exists kind, (zlen body), (to_be 4 MAGIC_COOKIE ++ t ++ body). unfold is_u. conjs; try done; try lia. by eexists.
  - intros [Hc Hl]. pose proof (zlen_nonneg payload).
    pose proof (stream_wire_len (ChannelMessage channel payload) (conj Hc Hl)) as (Hlen & He & _). simpl in Hlen, He.
    pose proof (padding_bound (zlen payload)). unfold channel_in_range in Hc. bool_to_prop.
    exists channel, (zlen payload), (payload ++ replicate (Z.to_nat ((4 - zlen payload mod 4) mod 4)) 0).
    unfold is_u. conjs; try done; lia.
Qed.

(** Four bytes at the front of [b], when they are at the front of what it is a prefix of. *)
Lemma prefix4 (x y c d : Z) (tail b b' : bytes) :
  x :: y :: c :: d :: tail = b ++ b' -> 4 <= zlen b -> exists b1, b = x :: y :: c :: d :: b1 /\ tail = b1 ++ b'.
Proof.
  intros He Hl. destruct b as [|b0 [|b1 [|b2 [|b3 b4]]]]; try (unfold zlen in Hl; simpl in Hl; lia).
  simpl in He. injection He as <- <- <- <- ->. by eexists.
Qed.

(** On a prefix of a message and what follows it, [frame_start] either asks
    for more or knows the kind. *)
Lemma frame_start_prefix m rest b b' :
  stream_ok m -> stream_wire m ++ rest = b ++ b' ->
  (frame_start b = Ret (Ok None) /\ zlen b < zlen (stream_wire m))
  \/ frame_start b = Ret (Ok (Some (kind_of m))).
Proof.
  intros Hok Heq. pose proof (stream_wire_len m Hok) as (Hlen & Hsize & Hctl). unfold frame_start.
  destruct (Z.ltb_spec (zlen b) 4) as [|H4]; [left; split; [done|lia]|].
  destruct (stream_head m Hok) as (h & declared & tail & Hw & Hh & Hd & Hm).
  destruct (to_be_2 h Hh) as (x & y & Exy & Hxy). destruct (to_be_2 declared Hd) as (c & d & Ecd & Hcd).
  rewrite Hw, Exy, Ecd in Heq. simpl app in Heq.
  destruct (prefix4 x y c d (tail ++ rest) b b' Heq H4) as (b1 & -> & Hb1). clear Heq Hw.
  rewrite !index_lookup by lia. change (Z.to_nat 0) with 0%nat. change (Z.to_nat 2) with 2%nat.
  change (Z.to_nat 3) with 3%nat. cbn [lookup list_lookup]. rbind. rewrite Hcd. clear Hcd.
  destruct m as [kind t body|channel payload].
  - destruct Hm as (Hk & -> & tail' & ->). destruct Hok as (_ & Ht & Ha & Hl).
    rewrite (top_bits_stun h x y Hk Hh Exy), Ha. cbn [Z.eqb negb]. unfold checked_add, MAX_CONTROL_FRAME_BYTES in *.
    destruct (Z.ltb_spec (20 + zlen body) (2 ^ 64)); [|lia]. destruct (Z.ltb_spec 4096 (20 + zlen body)); [lia|].
    specialize (Hctl _ eq_refl). cbn [kind_of] in Hsize, Hctl |- *.
    destruct (Z.ltb_spec (zlen (x :: y :: c :: d :: b1)) 8) as [|H8]; [left; split; [done|lia]|]. right.
    rewrite <- app_assoc in Hb1. rewrite !zlen_cons in H8.
    change (to_be 4 MAGIC_COOKIE) with [0x21; 0x12; 0xa4; 0x42] in Hb1. simpl app in Hb1.
    destruct (prefix4 _ _ _ _ _ b1 b' Hb1) as (b2 & -> & _); [lia|].
    change (x :: y :: c :: d :: 33 :: 18 :: 164 :: 66 :: b2) with ([x; y; c; d] ++ [33; 18; 164; 66] ++ b2).
    rewrite (slice_app_mid [x; y; c; d] [33; 18; 164; 66] b2 4 8 eq_refl eq_refl). rbind. done.
  - destruct Hm as [-> ->]. destruct Hok as [Hc Hl]. right.
    rewrite (top_bits_channel channel x y Hc Exy). cbn [Z.eqb Pos.eqb negb]. unfold checked_add.
    cbn [kind_of stream_wire] in *. pose proof (padding_bound (zlen payload)).
    destruct (Z.ltb_spec (4 + zlen payload) (2 ^ 64)); [|lia]. cbv zeta.
    destruct (Z.ltb_spec MAX_DATA_FRAME_BYTES (4 + zlen payload + (4 - zlen payload mod 4) mod 4)); [lia|done].
Qed.

(** ** Reassembly *)

Lemma split_to_app (w b : bytes) n : n = zlen w -> split_to (w ++ b) n = Ret (w, b).
Proof.
  intros ->. unfold split_to. rewrite slice_app_head by done. rbind. by rewrite (slice_from_app w b (zlen w)).
Qed.

(** A prefix that is at least as long as the first of two parts contains it. *)
Lemma prefix_whole (w rest b b' : bytes) :
  w ++ rest = b ++ b' -> zlen w <= zlen b -> exists b2, b = w ++ b2 /\ rest = b2 ++ b'.
Proof.
  intros He Hl. apply app_eq_inv in He as [(k & -> & ->)|(k & -> & ->)]; [|by exists k].
  rewrite zlen_app in Hl. assert (k = []) as ->; [|exists []; by rewrite !app_nil_r].
  destruct k; [done|]. rewrite zlen_cons in Hl. pose proof (zlen_nonneg k). lia.
Qed.

Section Reassembly.
Context {Q : Type -> Type} `{ArrayQueue Q}.

(** What the reader may hand over for a message, with the pool as it was: a
    ChannelData frame is dropped only when the pool had no buffer for it. *)
Definition received (e : @PacketPool Q * bytes) (m : StreamMessage) (r : result TurnStreamFrame StreamError) : Prop :=
  match m with
  | StunMessage _ _ _ => r = Ok (ControlFrame (stream_wire m))
  | ChannelMessage _ _ =>
      (r = Ok DataDropped /\ fst (try_acquire (fst e) (snd e)) = None)
      \/ exists p, r = Ok (DataFrame p) /\ buf_ok p /\ as_slice p = Ret (stream_wire m)
  end.

Definition env_pool_ok (e : @PacketPool Q * bytes) : Prop := pool_lone_ok (fst e) /\ zlen (snd e) = PACKET_CAPACITY.

Lemma copy_channel_data_ok wire pool fresh :
  env_pool_ok (pool, fresh) -> zlen wire <= MAX_DATA_FRAME_BYTES ->
  exists frame pool', copy_channel_data wire pool fresh = Ret (Ok frame, pool')
    /\ ((frame = DataDropped /\ fst (try_acquire pool fresh) = None)
        \/ exists p, frame = DataFrame p /\ buf_ok p /\ as_slice p = Ret wire).
Proof.
  intros [Hp Hf] Hl. unfold copy_channel_data. pose proof (try_acquire_ok pool fresh Hp Hf) as Ha.
  destruct (try_acquire pool fresh) as [[p|] pool'] eqn:E.
  2:{ eexists _, _. split; [reflexivity|]. left. done. }
  destruct Ha as (_ & _ & (Hst & Hs & He) & _). pose proof (zlen_nonneg wire).
  unfold MAX_DATA_FRAME_BYTES, set_read_len in *. cbn [fst].
  destruct (Z.ltb_spec (PACKET_CAPACITY - PACKET_HEADROOM) (zlen wire)); [lia|].
  unfold write_at, with_range. simpl. rewrite Z.add_0_r.
  destruct (split_at_z (storage p) PACKET_HEADROOM) as (l & r & Hlr & Hll);
    [unfold PACKET_HEADROOM, PACKET_CAPACITY in *; lia|].
  rewrite Hlr in *. rewrite zlen_app in Hst.
  destruct (split_at_z r (zlen wire)) as (w & r2 & -> & Hw); [lia|]. rewrite zlen_app in Hst.
  rewrite blit_app by done. rbind. eexists _, _. split; [reflexivity|]. right. eexists. split; [reflexivity|].
  unfold buf_ok, as_slice. simpl. rewrite !zlen_app. unfold PACKET_HEADROOM, PACKET_CAPACITY in *.
  split; [lia|]. apply slice_app_mid; lia.
Qed.

Lemma decode_frame_prefix m rest b b' pool fresh :
  stream_ok m -> env_pool_ok (pool, fresh) -> stream_wire m ++ rest = b ++ b' ->
  (zlen b < zlen (stream_wire m) /\ decode_frame b pool fresh = Ret (Ok None, b, pool))
  \/ exists frame b2 pool', decode_frame b pool fresh = Ret (Ok (Some frame), b2, pool')
       /\ rest = b2 ++ b' /\ received (pool, fresh) m (Ok frame).
Proof.
  intros Hok He Heq. pose proof (stream_wire_len m Hok) as (Hlen & Hsize & _). unfold decode_frame.
  destruct (frame_start_prefix m rest b b' Hok Heq) as [[-> Hshort]| ->]; rbind; [by left|].
  destruct (Z.le_gt_cases (zlen (stream_wire m)) (zlen b)) as [Hfull|Hshort].
  2:{ left. split; [done|]. destruct (kind_of m);
      (match goal with |- context [?x <? ?y] => destruct (Z.ltb_spec x y) end; [done|lia]). }
  right. destruct (prefix_whole _ _ _ _ Heq Hfull) as (b2 & -> & Hrest).
  rewrite zlen_app in *. pose proof (zlen_nonneg b2). destruct m as [kind t body|channel payload]; cbn [kind_of] in *.
  - destruct (Z.ltb_spec (zlen (stream_wire (StunMessage kind t body)) + zlen b2) (20 + zlen body)); [lia|].
    rewrite split_to_app by done. rbind. by eexists _, b2, _.
  - destruct (Z.ltb_spec (zlen (stream_wire (ChannelMessage channel payload)) + zlen b2)
                (4 + zlen payload + (4 - zlen payload mod 4) mod 4)); [lia|].
    rewrite split_to_app by done. rbind.
    destruct (copy_channel_data_ok (stream_wire (ChannelMessage channel payload)) pool fresh He (proj2 Hok))
      as (frame & pool' & Hcopy & Hframe). cbn [fst snd]. rewrite Hcopy. rbind.
    eexists _, b2, _. split; [reflexivity|]. split; [done|].
    destruct Hframe as [[-> Hn]|(p & -> & Hp)]; [left; done|right; by exists p].
Qed.

Lemma read_frame_ok m rest chunks buffer pool fresh :
  stream_ok m -> env_pool_ok (pool, fresh) -> Forall (fun c => c <> []) chunks ->
  stream_wire m ++ rest = buffer ++ concat chunks ->
  exists r buffer' pool' chunks', read_frame chunks buffer pool fresh = Ret (r, buffer', pool', chunks')
    /\ received (pool, fresh) m r /\ Forall (fun c => c <> []) chunks' /\ rest = buffer' ++ concat chunks'.
Proof.
  intros Hok He Hc. revert buffer. induction Hc as [|chunk chunks Hne Hc IH]; intros buffer Heq; cbn [read_frame];
    destruct (decode_frame_prefix m rest _ _ pool fresh Hok He Heq)
      as [[Hshort ->]|(frame & b2 & pool' & -> & Hrest & Hrec)]; rbind.
  - simpl in Heq. rewrite app_nil_r in Heq. rewrite <- Heq, zlen_app in Hshort. pose proof (zlen_nonneg rest). lia.
  - eexists _, _, _, []. split; [reflexivity|]. by split.
  - pose proof (stream_wire_len m Hok) as (Hlen & _).
    unfold STREAM_READ_BUFFER_BYTES, MAX_CONTROL_FRAME_BYTES. destruct (Z.leb_spec 4096 (zlen buffer)); [lia|].
    destruct chunk as [|x chunk]; [done|]. apply IH. rewrite <- app_assoc. exact Heq.
  - eexists _, _, _, (chunk :: chunks). split; [reflexivity|]. split; [done|]. split; [by constructor|done].
Qed.

(** C37: however the transport cuts a stream of messages into reads, successive
    calls of [read_frame] give back exactly those messages, whole and in order:
    none is lost, split, merged or refused, the read buffer never reaches its
    hard limit, and a ChannelData frame is dropped only when the packet pool
    has no buffer for it. *)
Theorem stream_reassembled ms envs chunks :
  Forall stream_ok ms -> Forall env_pool_ok envs -> length envs = length ms ->
  Forall (fun c => c <> []) chunks -> concat chunks = concat (map stream_wire ms) ->
  exists frames, read_frames envs chunks [] = Ret frames /\ Forall2 (fun em r => received (fst em) (snd em) r) (zip envs ms) frames.
Proof.
  intros Hms He Hl Hc Heq. symmetry in Heq. change (concat chunks) with ([] ++ concat chunks) in Heq.
  revert Heq Hl. generalize (@nil Z) as buffer. revert chunks Hc ms Hms.
  induction He as [|[pool fresh] envs He _ IH]; intros chunks Hc ms Hms buffer Heq Hl; destruct ms as [|m ms]; try done.
  { exists []. by split; [|constructor]. }
  apply Forall_cons in Hms as [Hm Hms]. cbn [map concat] in Heq. cbn [read_frames].
  destruct (read_frame_ok m _ chunks buffer pool fresh Hm He Hc Heq)
    as (r & buffer' & pool' & chunks' & -> & Hr & Hc' & Heq'). rbind.
  destruct (IH chunks' Hc' ms Hms buffer' Heq') as (frames & -> & Hf); [simpl in Hl; lia|]. rbind.
  eexists. split; [reflexivity|]. by constructor.
Qed.
End Reassembly.

Definition example_messages : list StreamMessage :=
  [StunMessage 0x0101 (replicate 12 9) []; ChannelMessage 0x4000 [0xa1; 0xb2; 0xc3]].

(** Three reads: inside the cookie, inside the payload, and the rest. *)
Definition example_chunks : list bytes :=
  let wire := concat (map stream_wire example_messages) in
  [take 6 wire; take 20 (drop 6 wire); drop 26 wire].

Lemma stream_reassembled_witness :
  exists frames, read_frames (replicate 2 (new_pool (Q := ListQueue) 4, blank)) example_chunks [] = Ret frames
    /\ Forall2 (fun em r => received (fst em) (snd em) r) (zip (replicate 2 (new_pool (Q := ListQueue) 4, blank)) example_messages) frames.
Proof.
  apply (stream_reassembled example_messages (replicate 2 (new_pool (Q := ListQueue) 4, blank)) example_chunks).
  - apply List.Forall_cons; [|apply List.Forall_cons; [|apply List.Forall_nil]]; unfold stream_ok.
    + unfold MAX_CONTROL_FRAME_BYTES. split; [lia|]. split; [reflexivity|]. split; [reflexivity|]. vm_compute. discriminate.
    + split; [reflexivity|]. vm_compute. discriminate.
  - assert (env_pool_ok (new_pool (Q := ListQueue) 4, blank)) as He.
    { split; [|reflexivity]. split; [split; [reflexivity|vm_compute; discriminate]|]. apply List.Forall_nil. }
    apply List.Forall_cons; [exact He|]. apply List.Forall_cons; [exact He|apply List.Forall_nil].
  - reflexivity.
  - repeat (apply List.Forall_cons; [discriminate|]). apply List.Forall_nil.
  - vm_compute. reflexivity.
Defined.
