(* ===== verification/Protocol.v ===== *)
(** * Protocol: the control messages of the tunnel

    Models [protocol.rs]: the GETCONF request and its answer, the recognition
    of control responses, and the repair and keepalive commands that name
    workers by number. Texts are their UTF-8 bytes. *)

From Stdlib Require Import Strings.String Strings.Ascii.
From S2P Require Import Prelude Bytes Text.

(** The bytes of a literal. *)
Definition WIRE_PROTOCOL_REVISION : bytes := ascii "CSQTT-WIRE-3".
Definition PANEL_RESTART_NOTICE : bytes := [0xff] ++ ascii "CSQTT_PANEL_RESTART_V1" ++ [0x00; 0x91; 0x7d; 0x03; 0xa8].
Definition STREAM_REPAIR_PREFIX : bytes := [0xff] ++ ascii "CSQTT_STREAM_REPAIR_V1".
Definition STREAM_ALIVE_PREFIX : bytes := [0xff] ++ ascii "CSQTT_STREAM_ALIVE_V1".
Definition MAX_STREAM_WORKERS : Z := 126.

Inductive ConfigResponse : Type :=
| Config (text : bytes)
| NoConfig.

(** The reasons [parse_config_response] fails with, in place of their texts. *)
Inductive ConfigError : Type :=
| InvalidUtf8
| WrongPassword
| Expired
| DeviceMismatch
| ProtocolMismatch
| AccessDenied (reason : bytes)
| UnexpectedResponse.

Record StreamRepairCommand : Type := mkCommand {
  sequence : Z;
  desired_count : Z;
  worker_ids : list Z;
}.

(** ** Text *)

Definition continuation (b : Z) : bool := (0x80 <=? b) && (b <=? 0xbf).
Definition within (lo b hi : Z) : bool := (lo <=? b) && (b <=? hi).

(** [str::from_utf8(b).is_ok()]: the well-formed byte sequences of Unicode. *)
Fixpoint utf8_valid (b : bytes) : bool :=
  match b with
  | [] => true
  | a :: t =>
      if a <? 0x80 then utf8_valid t else
      match t with
      | c :: t =>
          if within 0xc2 a 0xdf then continuation c && utf8_valid t else
          match t with
          | d :: t =>
              if within 0xe0 a 0xef then
                within (if a =? 0xe0 then 0xa0 else 0x80) c (if a =? 0xed then 0x9f else 0xbf)
                && continuation d && utf8_valid t
              else
              match t with
              | e :: t =>
                  within 0xf0 a 0xf4 && within (if a =? 0xf0 then 0x90 else 0x80) c (if a =? 0xf4 then 0x8f else 0xbf)
                  && continuation d && continuation e && utf8_valid t
              | [] => false
              end
          | [] => false
          end
      | [] => false
      end
  end.

(** ** Requests and answers *)

Definition bar : bytes := ascii "|".

Definition config_request (local_port device_id password : bytes) (generation_id : Z) (salt : bytes)
  (worker_id : Z) (desired_count : option Z) : bytes :=
  let desired_count := match desired_count with None => [] | Some value => to_string value end in
  ascii "GETCONF:" ++ local_port ++ bar ++ device_id ++ bar ++ password ++ bar ++ to_string generation_id ++ bar
  ++ salt ++ bar ++ to_string worker_id ++ bar ++ desired_count ++ bar ++ WIRE_PROTOCOL_REVISION.

Definition denied (reason : bytes) : ConfigError :=
  if bytes_eqb reason (ascii "wrong_password") then WrongPassword
  else if bytes_eqb reason (ascii "expired") then Expired
  else if bytes_eqb reason (ascii "device_mismatch") then DeviceMismatch
  else if bytes_eqb reason (ascii "protocol_mismatch") || bytes_eqb reason (ascii "invalid_worker_count")
  then ProtocolMismatch
  else AccessDenied reason.

Definition parse_config_response (response : bytes) : result ConfigResponse ConfigError :=
  if negb (utf8_valid response) then Err InvalidUtf8 else
  if bytes_eqb response (ascii "NOCONF") then Ok NoConfig else
  match strip_prefix (ascii "DENIED:") response with
  | Some reason => Err (denied reason)
  | None =>
      if starts_with response (ascii "TUNCONF:") then Ok (Config response)
      else Err UnexpectedResponse
  end.

Definition is_config_response (response : bytes) : bool :=
  existsb (starts_with response) [ascii "TUNCONF:"; ascii "NOCONF"; ascii "DENIED:"].

Definition is_panel_restart_notice (response : bytes) : bool := bytes_eqb response PANEL_RESTART_NOTICE.

Definition is_control_response (response : bytes) : bool :=
  if is_panel_restart_notice response then true else
  existsb (starts_with response)
    [ascii "TUNCONF:"; ascii "NOCONF"; ascii "DENIED:"; ascii "READY_OK"; ascii "OK:disconnected";
     STREAM_REPAIR_PREFIX; STREAM_ALIVE_PREFIX].

Definition disconnect_request (device_id salt : bytes) : bytes := ascii "DISCONNECT:" ++ device_id ++ bar ++ salt.

(** ** Stream commands *)

(** The loop over [ids.chunks_exact(2)]. *)
Fixpoint parse_worker_ids (desired_count : Z) (ids : bytes) : option (list Z) :=
  match ids with
  | a :: b :: ids =>
      let worker_id := of_be [a; b] in
      if (worker_id =? 0) || (desired_count <? worker_id) then None
      else match parse_worker_ids desired_count ids with
           | Some rest => Some (worker_id :: rest)
           | None => None
           end
  | _ => Some []
  end.

Definition parse_stream_command (payload prefix : bytes) : res (option StreamRepairCommand) :=
  match strip_prefix prefix payload with
  | None => Ret None
  | Some rest =>
      if zlen rest <? 11 then Ret None else
      s ← slice rest 0 8;
      d ← slice rest 8 10;
      count ← index rest 10;
      ids ← slice_from rest 11;
      if (of_be s =? 0) || (of_be d =? 0) || (MAX_STREAM_WORKERS <? of_be d)
         || negb (zlen ids =? saturating_mul 64 count 2)
      then Ret None
      else
        match parse_worker_ids (of_be d) ids with
        | None => Ret None
        | Some worker_ids =>
            if zlen worker_ids =? 0 then Ret None
            else Ret (Some (mkCommand (of_be s) (of_be d) worker_ids))
        end
  end.

Definition parse_stream_repair (payload : bytes) : res (option StreamRepairCommand) :=
  parse_stream_command payload STREAM_REPAIR_PREFIX.
Definition parse_stream_alive (payload : bytes) : res (option StreamRepairCommand) :=
  parse_stream_command payload STREAM_ALIVE_PREFIX.

(** ** The command format *)

Definition worker_ids_wire (ids : list Z) : bytes := concat (map (to_be 2) ids).

Definition command_wire (prefix : bytes) (c : StreamRepairCommand) : bytes :=
  prefix ++ to_be 8 (sequence c) ++ to_be 2 (desired_count c) ++ [zlen (worker_ids c)] ++ worker_ids_wire (worker_ids c).

Definition command_ok (c : StreamRepairCommand) : Prop :=
  0 < sequence c < 2 ^ 64 /\ 0 < desired_count c <= MAX_STREAM_WORKERS
  /\ worker_ids c <> [] /\ zlen (worker_ids c) < 256
  /\ Forall (fun id => 0 < id <= desired_count c) (worker_ids c).

Lemma zlen_ids ids : zlen (worker_ids_wire ids) = 2 * zlen ids.
Proof.
  unfold worker_ids_wire. induction ids as [|id ids IH]; [done|]. cbn [map concat].
  rewrite zlen_app, zlen_to_be, IH, zlen_cons. lia.
Qed.

Lemma parse_worker_ids_sound n (b : bytes) ids k :
  is_bytes b -> zlen b = 2 * k -> parse_worker_ids n b = Some ids ->
  b = worker_ids_wire ids /\ zlen ids = k /\ Forall (fun id => 0 < id <= n) ids.
Proof.
  intros Hb Hl. revert b k Hb Hl. induction ids as [|id ids IH]; intros b k Hb Hl Hp;
    (destruct b as [|x [|y b]]; [|unfold zlen in Hl; simpl in Hl; lia|]).
  all: cbn [parse_worker_ids] in Hp; try done.
  - unfold zlen in Hl. simpl in Hl. split; [done|]. split; [unfold zlen; simpl; lia|constructor].
  - destruct (_ || _); [done|]. by destruct (parse_worker_ids n b).
  - destruct (_ || _) eqn:E; [done|]. destruct (parse_worker_ids n b) as [rest|] eqn:Er; [|done].
    injection Hp as <- ->. change (x :: y :: b) with ([x; y] ++ b) in *. apply is_bytes_app in Hb as [Hxy Hb].
    rewrite zlen_app in Hl. change (zlen [x; y]) with 2 in Hl.
    destruct (IH b (k - 1) Hb ltac:(lia) Er) as (-> & Hk & Hf).
    bool_to_prop. pose proof (of_be_bound _ Hxy). split; [|split; [rewrite zlen_cons; lia|constructor; [lia|done]]].
    unfold worker_ids_wire. cbn [map concat]. f_equal. symmetry. by apply to_be_of_be_n.
Qed.

Lemma parse_worker_ids_wire n ids :
  n < 65536 -> Forall (fun id => 0 < id <= n) ids -> parse_worker_ids n (worker_ids_wire ids) = Some ids.
Proof.
  intros Hn Hf. induction Hf as [|id ids Hid _ IH]; [done|]. unfold worker_ids_wire in *. cbn [map concat].
  destruct (to_be 2 id) as [|a [|b [|c t]]] eqn:E; try (apply (f_equal zlen) in E; rewrite zlen_to_be in E; unfold zlen in E; simpl in E; lia).
  simpl app. cbn [parse_worker_ids]. assert (of_be [a; b] = id) as ->.
  { rewrite <- E. apply of_be_to_be_small. simpl. lia. }
  destruct (Z.eqb_spec id 0); [lia|]. destruct (Z.ltb_spec n id); [lia|]. by rewrite IH.
Qed.

Lemma parse_stream_command_wire prefix c :
  command_ok c -> parse_stream_command (command_wire prefix c) prefix = Ret (Some c).
Proof.
  intros (Hs & Hd & Hne & Hlen & Hids). unfold parse_stream_command, command_wire. rewrite strip_prefix_app.
  unfold MAX_STREAM_WORKERS in Hd. pose proof (zlen_nonneg (worker_ids c)) as Hn.
  assert (zlen (worker_ids c) <> 0) as Hn0.
  { destruct (worker_ids c); [done|]. rewrite zlen_cons. pose proof (zlen_nonneg l). lia. }
  set (ids := worker_ids_wire (worker_ids c)). pose proof (zlen_ids (worker_ids c)) as Hi. fold ids in Hi.
  rewrite !zlen_app, !zlen_to_be. change (zlen [zlen (worker_ids c)]) with 1.
  destruct (Z.ltb_spec (Z.of_nat 8 + (Z.of_nat 2 + (1 + zlen ids))) 11); [lia|].
  rewrite (slice_app_head (to_be 8 (sequence c))) by (by rewrite zlen_to_be). rbind.
  rewrite (slice_app_mid (to_be 8 (sequence c)) (to_be 2 (desired_count c))) by (by rewrite !zlen_to_be). rbind.
  set (l := to_be 8 (sequence c) ++ to_be 2 (desired_count c)).
  assert (zlen l = 10) as Hl by (unfold l; by rewrite zlen_app, !zlen_to_be).
  rewrite app_assoc. fold l. rewrite index_app_r by lia. rewrite Hl.
  rewrite index_app_l by (change (zlen [zlen (worker_ids c)]) with 1; lia).
  change (index [zlen (worker_ids c)] (10 - 10)) with (Ret (zlen (worker_ids c))). rbind.
  rewrite app_assoc, slice_from_app by (rewrite zlen_app, Hl; done). rbind.
  rewrite !of_be_to_be_small by (simpl; lia).
  unfold MAX_STREAM_WORKERS, saturating_mul.
  destruct (Z.eqb_spec (sequence c) 0); [lia|]. destruct (Z.eqb_spec (desired_count c) 0); [lia|].
  destruct (Z.ltb_spec 126 (desired_count c)); [lia|].
  destruct (Z.eqb_spec (zlen ids) (Z.min (zlen (worker_ids c) * 2) (2 ^ 64 - 1))); [|lia]. cbn [orb negb].
  unfold ids. rewrite parse_worker_ids_wire by (done || lia).
  destruct (Z.eqb_spec (zlen (worker_ids c)) 0); [done|]. by destruct c.
Qed.

Lemma parse_stream_command_total payload prefix : returns (parse_stream_command payload prefix).
Proof. unfold parse_stream_command. no_panic; by case_match; no_panic. Qed.

Lemma parse_stream_command_sound payload prefix c :
  is_bytes payload -> parse_stream_command payload prefix = Ret (Some c) ->
  payload = command_wire prefix c /\ command_ok c.
Proof.
  intros Hb Hp. unfold parse_stream_command in Hp.
  destruct (strip_prefix prefix payload) as [rest|] eqn:E; [|done]. apply strip_prefix_Some in E as ->.
  apply is_bytes_app in Hb as [_ Hb]. destruct (Z.ltb_spec (zlen rest) 11) as [|Hl]; [done|].
  destruct (split_at_z rest 8) as (s & r & -> & Hs); [lia|]. apply is_bytes_app in Hb as [Hbs Hb]. rewrite zlen_app in Hl.
  destruct (split_at_z r 2) as (d & r2 & -> & Hd); [lia|]. apply is_bytes_app in Hb as [Hbd Hb]. rewrite zlen_app in Hl.
  rewrite Hs, Hd in Hl. destruct r2 as [|count ids]; [rewrite zlen_nil in Hl; lia|].
  rewrite (slice_app_head s) in Hp by done. rewrite (slice_app_mid s d) in Hp by lia.
  change (count :: ids) with ([count] ++ ids) in *. apply is_bytes_app in Hb as [Hbc Hbi].
  rewrite index_app_r in Hp by lia. rewrite index_app_r in Hp by lia. rewrite Hs, Hd in Hp.
  change (index ([count] ++ ids) (10 - 8 - 2)) with (Ret count) in Hp.
  rewrite !app_assoc, slice_from_app in Hp by (rewrite !zlen_app; change (zlen [count]) with 1; lia).
  cbn [mbind res_bind] in Hp. destruct (_ || _ || _ || _) eqn:E; [done|].
  destruct (parse_worker_ids (of_be d) ids) as [l|] eqn:Ep; [|done].
  destruct (Z.eqb_spec (zlen l) 0) as [|Hn]; [done|]. injection Hp as <-. bool_to_prop.
  pose proof (of_be_bound _ Hbs). pose proof (of_be_bound _ Hbd).
  apply is_bytes_lookup with (i := 0%nat) (b := count) in Hbc; [|done]. unfold is_byte, saturating_mul in *.
  destruct (parse_worker_ids_sound (of_be d) ids l count Hbi) as (-> & Hk & Hf); [lia|done|].
  unfold command_wire, command_ok, MAX_STREAM_WORKERS in *. cbn [sequence desired_count worker_ids]. split.
  - rewrite (to_be_of_be_n 8 s Hbs) by lia. rewrite (to_be_of_be_n 2 d Hbd) by lia. by rewrite Hk.
  - rewrite Hs in *. change (256 ^ 8) with (2 ^ 64) in *. conjs; try lia; try done. intros ->. by apply Hn.
Qed.

(** A repair or keepalive command is parsed without panic from any payload,
    and a payload is accepted exactly when it is the prefix and the encoding of
    a command that names at least one worker, all between one and the worker
    count, which is at most 126, with a positive sequence. *)
Lemma stream_command_iff payload prefix c :
  is_bytes payload ->
  returns (parse_stream_command payload prefix)
  /\ (parse_stream_command payload prefix = Ret (Some c) <-> payload = command_wire prefix c /\ command_ok c).
Proof.
  intros Hb. split; [apply parse_stream_command_total|]. split; [by apply parse_stream_command_sound|].
  intros [-> Hok]. by apply parse_stream_command_wire.
Qed.

Lemma stream_command_iff_witness :
  parse_stream_command (command_wire STREAM_REPAIR_PREFIX (mkCommand 7 3 [1; 3])) STREAM_REPAIR_PREFIX
  = Ret (Some (mkCommand 7 3 [1; 3])).
Proof.
  apply (stream_command_iff _ STREAM_REPAIR_PREFIX (mkCommand 7 3 [1; 3])).
  - apply is_bytes_check. vm_compute. reflexivity.
  - split; [reflexivity|]. unfold command_ok, MAX_STREAM_WORKERS. simpl. split; [lia|]. split; [lia|].
    split; [discriminate|]. split; [reflexivity|]. repeat apply List.Forall_cons; try apply List.Forall_nil; lia.
Defined.
