(* ===== verification/Repair.v ===== *)
(** * Repair: which workers a server command restarts

    Models [repair.rs]: a slot of counters per worker, the repair commands that
    restart a worker once per sequence number, and the keepalive commands that
    mark it ready. The compare-and-exchange loop of [apply_repair] is modelled
    twice: run alone, and as atomic steps of threads that interleave. *)

From S2P Require Import Prelude Bytes Protocol.

Record RepairApplyResult : Type := mkApplyResult {
  restarts : Z;
  credential_resets : Z;
}.

Record RepairSlot : Type := mkSlot {
  restart_generation : Z;
  credential_generation : Z;
  last_sequence : Z;
  ready_sequence : Z;
}.

Definition new_slot : RepairSlot := mkSlot 0 0 0 0.

(** [RepairState]: the slots; slot zero is never used. *)
Definition RepairState : Type := list RepairSlot.

Definition new_state (desired_count : nat) : RepairState := replicate (S desired_count) new_slot.

Definition slot (s : RepairState) (worker_id : Z) : option RepairSlot :=
  if worker_id =? 0 then None else s !! Z.to_nat worker_id.

Definition set_slot (s : RepairState) (worker_id : Z) (x : RepairSlot) : RepairState := <[Z.to_nat worker_id := x]> s.

Definition generation_of (s : RepairState) (worker_id : Z) : Z :=
  match slot s worker_id with Some x => restart_generation x | None => 0 end.
Definition credential_generation_of (s : RepairState) (worker_id : Z) : Z :=
  match slot s worker_id with Some x => credential_generation x | None => 0 end.

(** [changed] returns when this is true. *)
Definition has_changed (s : RepairState) (worker_id observed_generation : Z) : bool :=
  match slot s worker_id with
  | Some x => negb (restart_generation x =? observed_generation)
  | None => false
  end.

Definition mark_ready (s : RepairState) (worker_id : Z) : RepairState :=
  match slot s worker_id with
  | None => s
  | Some x => set_slot s worker_id (mkSlot (restart_generation x) (credential_generation x) (last_sequence x) (last_sequence x))
  end.

(** The body of [apply_repair]'s loop for one worker, run alone: the first
    exchange finds the value that was loaded. [None]: nothing to do;
    [Some reset]: restarted, with the credentials reset or not. *)
Definition repair_slot (x : RepairSlot) (sequence : Z) : RepairSlot * option bool :=
  if sequence <=? last_sequence x then (x, None) else
  let previous := last_sequence x in
  let reset := negb (previous =? 0) && (ready_sequence x <? previous) in
  (mkSlot (wrapping_add 64 (restart_generation x) 1)
          (if reset then wrapping_add 64 (credential_generation x) 1 else credential_generation x)
          sequence (ready_sequence x), Some reset).

Fixpoint apply_workers (s : RepairState) (sequence : Z) (ids : list Z) (r : RepairApplyResult)
  : RepairState * RepairApplyResult :=
  match ids with
  | [] => (s, r)
  | id :: ids =>
      match slot s id with
      | None => apply_workers s sequence ids r
      | Some x =>
          match repair_slot x sequence with
          | (_, None) => apply_workers s sequence ids r
          | (x, Some reset) =>
              apply_workers (set_slot s id x) sequence ids
                (mkApplyResult (restarts r + 1) (credential_resets r + (if (reset : bool) then 1 else 0)))
          end
      end
  end.

Definition apply_repair (s : RepairState) (command : StreamRepairCommand) : RepairState * RepairApplyResult :=
  apply_workers s (sequence command) (worker_ids command) (mkApplyResult 0 0).

Fixpoint alive_workers (s : RepairState) (sequence : Z) (ids : list Z) (applied : Z) : RepairState * Z :=
  match ids with
  | [] => (s, applied)
  | id :: ids =>
      match slot s id with
      | None => alive_workers s sequence ids applied
      | Some x =>
          alive_workers
            (set_slot s id (mkSlot (restart_generation x) (credential_generation x) (last_sequence x)
                              (Z.max (ready_sequence x) sequence)))
            sequence ids (applied + 1)
      end
  end.

Definition apply_alive (s : RepairState) (command : StreamRepairCommand) : RepairState * Z :=
  alive_workers s (sequence command) (worker_ids command) 0.

(** ** Threads on one slot *)

(** Where a thread that applies a command to the slot is: in the loop with the
    value it read; past the exchange it won; past the reset test; done. *)
Inductive Pc : Type :=
| AtLoop (current : Z)
| Won (previous : Z)
| Tested (reset : bool)
| Done (restarted : option bool).

Record Thread : Type := mkThread { command_sequence : Z; pc : Pc }.

(** One atomic access to the slot. [step_mark] is the store of [mark_ready], of
    some value that [last_sequence] has had. *)
Inductive slot_step : RepairSlot * list Thread -> RepairSlot * list Thread -> Prop :=
| step_load x ts n : 0 < n -> slot_step (x, ts) (x, mkThread n (AtLoop (last_sequence x)) :: ts)
| step_stale x l1 l2 n current : n <= current ->
    slot_step (x, l1 ++ mkThread n (AtLoop current) :: l2) (x, l1 ++ mkThread n (Done None) :: l2)
| step_exchange g c r l1 l2 n current : current < n ->
    slot_step (mkSlot g c current r, l1 ++ mkThread n (AtLoop current) :: l2)
              (mkSlot g c n r, l1 ++ mkThread n (Won current) :: l2)
| step_retry x l1 l2 n current : current < n -> last_sequence x <> current ->
    slot_step (x, l1 ++ mkThread n (AtLoop current) :: l2) (x, l1 ++ mkThread n (AtLoop (last_sequence x)) :: l2)
| step_reset g c l r l1 l2 n previous : previous <> 0 -> r < previous ->
    slot_step (mkSlot g c l r, l1 ++ mkThread n (Won previous) :: l2)
              (mkSlot g (wrapping_add 64 c 1) l r, l1 ++ mkThread n (Tested true) :: l2)
| step_keep x l1 l2 n previous : previous = 0 \/ previous <= ready_sequence x ->
    slot_step (x, l1 ++ mkThread n (Won previous) :: l2) (x, l1 ++ mkThread n (Tested false) :: l2)
| step_restart g c l r l1 l2 n reset :
    slot_step (mkSlot g c l r, l1 ++ mkThread n (Tested reset) :: l2)
              (mkSlot (wrapping_add 64 g 1) c l r, l1 ++ mkThread n (Done (Some reset)) :: l2)
| step_alive g c l r ts n : slot_step (mkSlot g c l r, ts) (mkSlot g c l (Z.max r n), ts)
| step_mark g c l r ts v : v <= l -> slot_step (mkSlot g c l r, ts) (mkSlot g c l v, ts).

(** The sequence of a thread that won its exchange; whether it has restarted
    the worker; whether it has reset the credentials. *)
Definition winner (t : Thread) : option Z :=
  match pc t with Won _ | Tested _ | Done (Some _) => Some (command_sequence t) | _ => None end.
Definition restarted (t : Thread) : option unit := match pc t with Done (Some _) => Some tt | _ => None end.
Definition credited (t : Thread) : option unit :=
  match pc t with Tested true | Done (Some true) => Some tt | _ => None end.

Definition thread_ok (x : RepairSlot) (t : Thread) : Prop :=
  match pc t with
  | AtLoop current => current <= last_sequence x
  | Done None => command_sequence t <= last_sequence x
  | _ => True
  end.

Record slot_wf (x : RepairSlot) (ts : list Thread) : Prop := {
  wf_once : NoDup (omap winner ts);
  wf_last : Forall (fun n => n <= last_sequence x) (omap winner ts);
  wf_newest : last_sequence x = 0 \/ last_sequence x ∈ omap winner ts;
  wf_threads : Forall (thread_ok x) ts;
  wf_restarts : restart_generation x = wrap 64 (zlen (omap restarted ts));
  wf_credits : credential_generation x = wrap 64 (zlen (omap credited ts));
}.

Lemma wrap_succ n : wrapping_add 64 (wrap 64 n) 1 = wrap 64 (n + 1).
Proof. unfold wrapping_add, wrap. by rewrite Z.add_mod_idemp_l. Qed.

(** A thread changes its place only: the same winner, restart and reset. *)
Lemma slot_wf_move x x' l1 l2 t t' :
  winner t' = winner t -> restarted t' = restarted t -> credited t' = credited t ->
  last_sequence x' = last_sequence x -> restart_generation x' = restart_generation x ->
  credential_generation x' = credential_generation x -> thread_ok x t' ->
  slot_wf x (l1 ++ t :: l2) -> slot_wf x' (l1 ++ t' :: l2).
Proof.
  intros Hw Hr Hc Hl Hg Hk Ht [].
  assert (forall {B} (f : Thread -> option B), f t' = f t -> omap f (l1 ++ t' :: l2) = omap f (l1 ++ t :: l2)) as He.
  { intros B f Hf. rewrite !omap_app. cbn [omap list_omap]. by rewrite Hf. }
  constructor; rewrite ?(He _ _ Hw), ?(He _ _ Hr), ?(He _ _ Hc), ?Hl, ?Hg, ?Hk; try done.
  apply Forall_app in wf_threads0 as [H1 H2]. apply Forall_cons in H2 as [_ H2].
  apply Forall_app. split; [|constructor]; try (eapply Forall_impl; [eassumption|]; intros u Hu);
    unfold thread_ok in *; by rewrite Hl.
Qed.

Lemma slot_step_wf a b : slot_wf (fst a) (snd a) -> slot_step a b -> slot_wf (fst b) (snd b).
Proof.
  intros Hwf Hs. destruct Hs as [x ts n Hn|x l1 l2 n current Hle|g c r l1 l2 n current Hlt|x l1 l2 n current Hlt Hne
    |g c l r l1 l2 n previous Hp Hr|x l1 l2 n previous Hp|g c l r l1 l2 n reset|g c l r ts n|g c l r ts v Hv]; simpl in *.
  - destruct Hwf. constructor; try done. constructor; [|done]. unfold thread_ok. simpl. lia.
  - pose proof (wf_threads _ _ Hwf) as Ht. apply Forall_app in Ht as [_ [Ht _]%Forall_cons].
    unfold thread_ok in Ht. simpl in Ht.
    eapply (slot_wf_move x x _ _ (mkThread n (AtLoop current))); try done. unfold thread_ok. simpl. lia.
  - destruct Hwf. simpl in *. rewrite !omap_app in *. cbn [omap list_omap winner restarted credited pc command_sequence] in *.
    assert ((omap winner l1 ++ n :: omap winner l2) ≡ₚ n :: (omap winner l1 ++ omap winner l2)) as Hperm
      by (by rewrite Permutation_middle).
    constructor; simpl; rewrite ?omap_app; cbn [omap list_omap winner restarted credited pc command_sequence]; try done.
    + rewrite Hperm. constructor; [|done]. intros Hin. rewrite Forall_forall in wf_last0. specialize (wf_last0 n Hin). lia.
    + rewrite Hperm. constructor; [lia|]. eapply Forall_impl; [exact wf_last0|]. simpl. intros. lia.
    + right. rewrite Hperm. by left.
    + apply Forall_app in wf_threads0 as [H1 [_ H2]%Forall_cons].
      apply Forall_app. split; [|constructor; [done|]]; (eapply Forall_impl; [eassumption|]); intros [m p];
        unfold thread_ok; simpl; destruct p as [| | |[]]; try done; lia.
  - eapply (slot_wf_move x x _ _ (mkThread n (AtLoop current))); try done. unfold thread_ok. simpl. lia.
  - destruct Hwf. simpl in *. rewrite !omap_app in *. cbn [omap list_omap winner restarted credited pc command_sequence] in *.
    constructor; simpl; rewrite ?omap_app; cbn [omap list_omap winner restarted credited pc command_sequence]; try done.
    + apply Forall_app in wf_threads0 as [H1 [_ H2]%Forall_cons]. apply Forall_app. by split; [|constructor].
    + rewrite wf_credits0, wrap_succ, !zlen_app, zlen_cons. f_equal. lia.
  - eapply (slot_wf_move x x _ _ (mkThread n (Won previous))); done.
  - destruct Hwf. simpl in *. rewrite !omap_app in *.
    constructor; simpl; rewrite ?omap_app; destruct reset;
      cbn [omap list_omap winner restarted credited pc command_sequence] in *; try done.
    1-2: apply Forall_app in wf_threads0 as [H1 [_ H2]%Forall_cons]; apply Forall_app; by split; [|constructor].
    all: rewrite wf_restarts0, wrap_succ, !zlen_app, zlen_cons; f_equal; lia.
  - destruct Hwf. constructor; done.
  - destruct Hwf. constructor; done.
Qed.

(** C34: however many threads receive repair commands for a worker, and however
    their accesses interleave with each other, with keepalives and with the
    worker reporting ready: a sequence number restarts the worker at most once;
    the restart and credential generations count exactly the threads that
    restarted it and reset its credentials; the slot's sequence is the greatest
    of those that won; and a command is passed over only for one as new. *)
Theorem repair_once x ts :
  rtc slot_step (new_slot, []) (x, ts) ->
  NoDup (omap winner ts)
  /\ restart_generation x = wrap 64 (zlen (omap restarted ts))
  /\ credential_generation x = wrap 64 (zlen (omap credited ts))
  /\ (forall n, n ∈ omap winner ts -> n <= last_sequence x)
  /\ (last_sequence x = 0 \/ last_sequence x ∈ omap winner ts)
  /\ (forall n, mkThread n (Done None) ∈ ts -> n <= last_sequence x).
Proof.
  intros Hrtc.
  assert (forall a b, rtc slot_step a b -> slot_wf (fst a) (snd a) -> slot_wf (fst b) (snd b)) as Hall.
  { intros a b Hab. induction Hab as [|a b c Hab _ IH]; [done|]. intros Ha. apply IH. by eapply slot_step_wf. }
  destruct (Hall _ _ Hrtc) as [Honce Hlast Hnew Hthreads Hg Hc]; [constructor; simpl; try done; by left|].
  simpl in *. rewrite Forall_forall in Hlast. rewrite Forall_forall in Hthreads. conjs; try done.
  intros n Hin. exact (Hthreads _ Hin).
Qed.

(** Run alone, the steps of a thread are [repair_slot]. *)
Lemma repair_slot_alone x n :
  0 < n ->
  rtc slot_step (x, []) (fst (repair_slot x n), [mkThread n (Done (snd (repair_slot x n)))]).
Proof.
  intros Hn. eapply rtc_l; [by apply (step_load _ _ n)|]. unfold repair_slot.
  destruct (Z.leb_spec n (last_sequence x)) as [Hle|Hlt]; simpl.
  { apply rtc_once. by apply (step_stale x [] [] n). }
  destruct x as [g c l r]. simpl in *.
  eapply rtc_l; [by apply (step_exchange g c r [] [] n l)|].
  destruct (Z.eqb_spec l 0) as [H0|H0]; simpl; [|destruct (Z.ltb_spec r l) as [Hr|Hr]].
  - eapply rtc_l; [apply (step_keep _ [] [] n l); by left|]. apply rtc_once. apply (step_restart _ _ _ _ [] [] n false).
  - eapply rtc_l; [by apply (step_reset _ _ _ _ [] [] n l)|]. apply rtc_once. apply (step_restart _ _ _ _ [] [] n true).
  - eapply rtc_l; [apply (step_keep _ [] [] n l); by right|]. apply rtc_once. apply (step_restart _ _ _ _ [] [] n false).
Qed.

(** Two threads with the same command: one restarts the worker, the other sees
    that it is done. *)
Lemma repair_once_witness :
  exists x ts, rtc slot_step (new_slot, []) (x, ts)
    /\ ts = [mkThread 5 (Done None); mkThread 5 (Done (Some false))]
    /\ NoDup (omap winner ts) /\ restart_generation x = 1.
Proof.
  assert (rtc slot_step (new_slot, [])
    (mkSlot 1 0 5 0, [mkThread 5 (Done None); mkThread 5 (Done (Some false))])) as Hrun.
  { eapply rtc_l; [apply (step_load _ _ 5); reflexivity|].
    eapply rtc_l; [apply (step_load _ _ 5); reflexivity|].
    eapply rtc_l; [apply (step_exchange 0 0 0 [mkThread 5 (AtLoop 0)] [] 5 0); reflexivity|].
    eapply rtc_l; [apply (step_retry _ [] _ 5 0); [reflexivity|discriminate]|].
    eapply rtc_l; [apply (step_stale _ [] _ 5 5); discriminate|].
    eapply rtc_l; [apply (step_keep _ [mkThread 5 (Done None)] [] 5 0); left; reflexivity|].
    eapply rtc_l; [apply (step_restart 0 0 5 0 [mkThread 5 (Done None)] [] 5 false)|]. apply rtc_refl. }
  destruct (repair_once _ _ Hrun) as (Hd & Hg & _).
  eexists _, _. split; [exact Hrun|]. split; [reflexivity|]. split; [exact Hd|]. exact Hg.
Defined.
