(* ===== verification/Idle.v ===== *)
(** * Idle: parking workers while the tunnel is silent

    Models [idle.rs]: the process-wide counters that say how many workers may
    run and which server epoch they register with, the operations on them, run
    alone and, for [enter] and [exit], as the atomic accesses of two threads;
    and [build_registration_payload] of [session.rs], which reads them. *)

From S2P Require Import Prelude Bytes Protocol TurnCore.

Definition DEFAULT_KEEP : Z := 2.
Definition DEFAULT_AFTER : Z := secs 180.
Definition ACTIVE_BYTES_PER_POLL : Z := 1400.
Definition EXIT_PACKETS : Z := 12.
Definition EXIT_PACKETS_WINDOW_MS : Z := 1000.
Definition EXIT_SYNS : Z := 3.
Definition EXIT_SYNS_WINDOW_MS : Z := 3000.
Definition JOINED_SLOTS : Z := 127.

(** A window counter: [.._WINDOW_START_MS] and [.._WINDOW_COUNT]. *)
Record Window : Type := mkWindow { w_start : Z; w_count : Z }.

(** The statics of the module. *)
Record Idle : Type := mkIdle {
  LIMIT : Z;
  ACTIVE : bool;
  TOTAL_WORKERS : Z;
  DECLARED : Z;
  GEN_OFFSET : Z;
  ANNOUNCE : Z;
  PACKET_WINDOW : Window;
  SYN_WINDOW : Window;
  JOINED : list Z;
}.

Definition initial : Idle :=
  mkIdle usize_max false 0 0 0 0 (mkWindow 0 0) (mkWindow 0 0) (replicate (Z.to_nat JOINED_SLOTS) 0).

Definition reset (s : Idle) (total_workers : Z) : Idle :=
  mkIdle usize_max false total_workers total_workers 0 0 (PACKET_WINDOW s) (SYN_WINDOW s)
    (replicate (Z.to_nat JOINED_SLOTS) 0).

Definition allows (s : Idle) (worker_id : Z) : bool := worker_id <=? LIMIT s.
Definition is_active (s : Idle) : bool := ACTIVE s.
Definition declared_count (s : Idle) : Z := if DECLARED s =? 0 then TOTAL_WORKERS s else DECLARED s.
Definition generation_offset (s : Idle) : Z := GEN_OFFSET s.
Definition generation (s : Idle) (base : Z) : Z := saturating_add 64 base (generation_offset s).
Definition announce_epoch (s : Idle) : Z := ANNOUNCE s.

Definition set_joined (s : Idle) (worker_id x : Z) : Idle :=
  mkIdle (LIMIT s) (ACTIVE s) (TOTAL_WORKERS s) (DECLARED s) (GEN_OFFSET s) (ANNOUNCE s)
    (PACKET_WINDOW s) (SYN_WINDOW s) (<[Z.to_nat worker_id := x]> (JOINED s)).

(** [JOINED.get(worker_id)] *)
Definition joined (s : Idle) (worker_id : Z) : option Z := JOINED s !! Z.to_nat worker_id.

Definition note_path_joined (s : Idle) (worker_id offset : Z) : Idle :=
  match joined s worker_id with
  | None => s
  | Some _ => if worker_id =? 0 then s else set_joined s worker_id (saturating_add 64 offset 1)
  end.

(** Run alone, the exchange finds the offset that was just loaded. *)
Definition note_path_lost (s : Idle) (worker_id : Z) : Idle :=
  if negb (allows s worker_id) then s else
  match joined s worker_id with
  | None => s
  | Some j =>
      if j =? 0 then s else
      if negb (j - 1 =? GEN_OFFSET s) then s else
      let s := mkIdle (LIMIT s) (ACTIVE s) (TOTAL_WORKERS s) (DECLARED s) (saturating_add 64 (GEN_OFFSET s) 1)
                 (wrapping_add 64 (ANNOUNCE s) 1) (PACKET_WINDOW s) (SYN_WINDOW s) (JOINED s) in
      set_joined s worker_id 0
  end.

Definition enter (s : Idle) (keep : Z) : Idle :=
  let total := TOTAL_WORKERS s in
  if (keep =? 0) || (total =? 0) || (total <=? keep) then s else
  if ACTIVE s then s else
  mkIdle keep true total keep (wrapping_add 64 (GEN_OFFSET s) 1) (wrapping_add 64 (ANNOUNCE s) 1)
    (mkWindow (w_start (PACKET_WINDOW s)) 0) (mkWindow (w_start (SYN_WINDOW s)) 0) (JOINED s).

Definition exit (s : Idle) : Idle :=
  if negb (ACTIVE s) then s else
  mkIdle usize_max false (TOTAL_WORKERS s) (TOTAL_WORKERS s) (GEN_OFFSET s) (wrapping_add 64 (ANNOUNCE s) 1)
    (PACKET_WINDOW s) (SYN_WINDOW s) (JOINED s).

Definition is_tcp_syn (packet : bytes) : res bool :=
  if zlen packet <? 20 then Ret false else
  b0 ← index packet 0;
  if negb (Z.shiftr b0 4 =? 4) then Ret false else
  protocol ← index packet 9;
  if negb (protocol =? 6) then Ret false else
  let ihl := Z.land b0 0x0f * 4 in
  if (ihl <? 20) || (zlen packet <? ihl + 14) then Ret false else
  flags ← index packet (ihl + 13);
  Ret (negb (Z.land flags 0x02 =? 0) && (Z.land flags 0x10 =? 0)).

Definition window_hit (w : Window) (now_ms window_ms limit : Z) : bool * Window :=
  if window_ms <? saturating_sub now_ms (w_start w) then (limit <=? 1, mkWindow now_ms 1)
  else (limit <=? w_count w + 1, mkWindow (w_start w) (wrapping_add 64 (w_count w) 1)).

Definition set_windows (s : Idle) (p y : Window) : Idle :=
  mkIdle (LIMIT s) (ACTIVE s) (TOTAL_WORKERS s) (DECLARED s) (GEN_OFFSET s) (ANNOUNCE s) p y (JOINED s).

Definition note_uplink (s : Idle) (now_ms : Z) (packet : bytes) : res Idle :=
  if negb (is_active s) then Ret s else
  syn ← is_tcp_syn packet;
  let '(hit, y) := if (syn : bool) then window_hit (SYN_WINDOW s) now_ms EXIT_SYNS_WINDOW_MS EXIT_SYNS
                   else (false, SYN_WINDOW s) in
  let s := set_windows s (PACKET_WINDOW s) y in
  if (hit : bool) then Ret (exit s) else
  let '(hit, p) := window_hit (PACKET_WINDOW s) now_ms EXIT_PACKETS_WINDOW_MS EXIT_PACKETS in
  let s := set_windows s p (SYN_WINDOW s) in
  Ret (if (hit : bool) then exit s else s).

Definition should_enter (quiet_for after : Z) (active : bool) : bool := negb active && (after <=? quiet_for).

(** One turn of [monitor]'s loop, after its sleep: the state, the byte counter
    and the start of the quiet time. *)
Definition monitor_turn (keep after : Z) (s : Idle) (last_bytes quiet_since bytes now : Z) : Idle * Z * Z :=
  let delta := bytes - last_bytes in
  if ACTIVE_BYTES_PER_POLL <? delta then (s, bytes, now)
  else if should_enter (now - quiet_since) after (is_active s) then (enter s keep, bytes, quiet_since)
  else (s, bytes, quiet_since).

(** ** Registration *)

(** What [build_registration_payload] puts in the request and what it returns
    for [note_path_joined]; [at_generation], [at_offset] and [at_count] are the
    statics at each of its three reads. *)
Record Registration : Type := mkRegistration {
  sent_generation : Z;
  sent_count : Z;
  returned_offset : Z;
}.

Definition build_registration_payload (at_generation at_offset at_count : Idle) (base : Z) : Registration :=
  mkRegistration (generation at_generation base) (Z.max (declared_count at_count) 1) (generation_offset at_offset).

(** ** Histories of operations that do not overlap *)

Inductive IdleOp : Type :=
| OpReset (total_workers : Z)
| OpJoined (worker_id offset : Z)
| OpLost (worker_id : Z)
| OpEnter (keep : Z)
| OpExit
| OpUplink (now_ms : Z) (packet : bytes)
| OpMonitor (keep after last_bytes quiet_since bytes now : Z).

Definition idle_op (s : Idle) (o : IdleOp) : res Idle :=
  match o with
  | OpReset total => Ret (reset s total)
  | OpJoined id offset => Ret (note_path_joined s id offset)
  | OpLost id => Ret (note_path_lost s id)
  | OpEnter keep => Ret (enter s keep)
  | OpExit => Ret (exit s)
  | OpUplink now packet => note_uplink s now packet
  | OpMonitor keep after last quiet bytes now => Ret (fst (fst (monitor_turn keep after s last quiet bytes now)))
  end.

Fixpoint idle_run (s : Idle) (ops : list IdleOp) : res Idle :=
  match ops with
  | [] => Ret s
  | o :: ops => s ← idle_op s o; idle_run s ops
  end.

(** Idle: the first [keep] workers, and the server told so. Otherwise: all. *)
Definition idle_ok (s : Idle) : Prop :=
  length (JOINED s) = Z.to_nat JOINED_SLOTS
  /\ if ACTIVE s then 0 < LIMIT s < TOTAL_WORKERS s /\ DECLARED s = LIMIT s
     else LIMIT s = usize_max /\ DECLARED s = TOTAL_WORKERS s.

Definition op_ok (o : IdleOp) : Prop :=
  match o with
  | OpReset total => 0 <= total
  | OpEnter keep | OpMonitor keep _ _ _ _ _ => 0 <= keep
  | OpUplink _ packet => valid_slice packet
  | _ => True
  end.

Lemma is_tcp_syn_total packet : valid_slice packet -> returns (is_tcp_syn packet).
Proof.
  intros Hv. unfold is_tcp_syn. no_panic.
  all: match goal with |- context [Z.land ?b 0x0f] => pose proof (land_low_bound b 0x0f ltac:(lia)) end; lia.
Qed.

Lemma enter_ok s keep : 0 <= keep -> idle_ok s -> idle_ok (enter s keep).
Proof.
  intros Hk [Hj Ha]. unfold enter. destruct (_ || _) eqn:E; [done|]. bool_to_prop.
  destruct (ACTIVE s) eqn:Ea; [unfold idle_ok; by rewrite Ea|]. split; [done|]. simpl. lia.
Qed.

Lemma exit_ok s : idle_ok s -> idle_ok (exit s).
Proof. intros [Hj Ha]. unfold exit. destruct (ACTIVE s) eqn:E; simpl; [done|unfold idle_ok; by rewrite E]. Qed.

Lemma note_path_joined_ok s id offset : idle_ok s -> idle_ok (note_path_joined s id offset).
Proof.
  intros Hs. unfold note_path_joined. destruct (joined s id); [|done]. destruct (_ =? _); [done|].
  destruct Hs as [Hj Ha]. split; [simpl; by rewrite length_insert|done].
Qed.

Lemma note_path_lost_ok s id : idle_ok s -> idle_ok (note_path_lost s id).
Proof.
  intros Hs. unfold note_path_lost. destruct (negb _); [done|]. destruct (joined s id); [|done].
  destruct (_ =? _); [done|]. destruct (negb _); [done|].
  destruct Hs as [Hj Ha]. split; [simpl; by rewrite length_insert|done].
Qed.

Lemma note_uplink_ok s now packet :
  valid_slice packet -> idle_ok s -> exists s', note_uplink s now packet = Ret s' /\ idle_ok s'.
Proof.
  intros Hv Hs. unfold note_uplink. destruct (negb (is_active s)); [by eexists|].
  destruct (is_tcp_syn_total packet Hv) as [syn ->]. rbind.
  destruct (if syn then _ else _) as [hit y]. cbv zeta.
  assert (forall p y, idle_ok (set_windows s p y)) as Hw by (intros; exact Hs).
  destruct hit; [eexists; split; [reflexivity|]; by apply exit_ok|].
  destruct (window_hit _ _ _ _) as [hit p]. eexists. split; [reflexivity|]. destruct hit; [by apply exit_ok|done].
Qed.

(** Operations that do not overlap keep the counters consistent, whatever
    their order: while idle, a proper non-empty prefix of the workers may run
    and the server is told their number; otherwise every worker may run and the
    server is told the user's total. No operation panics. *)
Lemma idle_consistent ops :
  Forall op_ok ops -> exists s, idle_run initial ops = Ret s /\ idle_ok s.
Proof.
  intros Hops. assert (idle_ok initial) as Hs by done. revert Hs. generalize initial.
  induction Hops as [|o ops Ho _ IH]; intros s Hs; [by exists s|]. cbn [idle_run].
  assert (exists s1, idle_op s o = Ret s1 /\ idle_ok s1) as (s1 & -> & Hs1); [|rbind; by apply IH].
  destruct o; cbn [idle_op op_ok] in *; try (eexists; split; [reflexivity|]).
  - done.
  - by apply note_path_joined_ok.
  - by apply note_path_lost_ok.
  - by apply enter_ok.
  - by apply exit_ok.
  - by apply note_uplink_ok.
  - unfold monitor_turn. cbv zeta. destruct (_ <? _); [done|]. destruct (should_enter _ _ _); [by apply enter_ok|done].
Qed.

Lemma idle_consistent_witness :
  exists s, idle_run initial
    [OpReset 8; OpMonitor 2 0 0 0 100 5; OpUplink 10 (replicate 40 0); OpJoined 1 1; OpLost 1; OpExit] = Ret s
    /\ idle_ok s.
Proof.
  apply (idle_consistent [OpReset 8; OpMonitor 2 0 0 0 100 5; OpUplink 10 (replicate 40 0); OpJoined 1 1; OpLost 1; OpExit]).
  repeat (apply List.Forall_cons; [simpl op_ok; try exact I; try lia; try (vm_compute; discriminate)|]). apply List.Forall_nil.
Defined.

(** ** Lost paths *)

Lemma path_lost_gone s id :
  (forall j, joined s id = Some j -> j <> 0 -> j - 1 <> GEN_OFFSET s) -> note_path_lost s id = s.
Proof.
  intros Hj. unfold note_path_lost. destruct (negb _); [done|]. destruct (joined s id) as [j|] eqn:E; [|done].
  destruct (Z.eqb_spec j 0) as [|H0]; [done|]. destruct (Z.eqb_spec (j - 1) (GEN_OFFSET s)) as [He|]; [|done].
  by destruct (Hj j eq_refl H0).
Qed.

(** When several workers that registered with the current epoch die, in
    whatever order and number, the epoch is bumped exactly once and announced
    once. *)
Lemma path_lost_burst s ids :
  ids <> [] -> 0 <= GEN_OFFSET s < u64_max -> is_u 64 (ANNOUNCE s) ->
  Forall (fun id => allows s id = true /\ joined s id = Some (GEN_OFFSET s + 1)) ids ->
  let s' := foldl note_path_lost s ids in
  GEN_OFFSET s' = GEN_OFFSET s + 1 /\ ANNOUNCE s' = wrapping_add 64 (ANNOUNCE s) 1.
Proof.
  intros Hne Hg Ha Hids. destruct ids as [|id ids]; [done|]. apply Forall_cons in Hids as [[Hal Hj] Hids].
  cbn [foldl]. set (s1 := note_path_lost s id).
  assert (GEN_OFFSET s1 = GEN_OFFSET s + 1 /\ ANNOUNCE s1 = wrapping_add 64 (ANNOUNCE s) 1
    /\ JOINED s1 = <[Z.to_nat id := 0]> (JOINED s)) as (H1 & H2 & H3).
  { unfold s1, note_path_lost. rewrite Hal, Hj. cbn [negb].
    destruct (Z.eqb_spec (GEN_OFFSET s + 1) 0); [lia|].
    destruct (Z.eqb_spec (GEN_OFFSET s + 1 - 1) (GEN_OFFSET s)); [|lia]. simpl.
    unfold saturating_add, u64_max in *. split; [lia|done]. }
  assert (foldl note_path_lost s1 ids = s1) as ->; [|done].
  assert (Forall (fun i => note_path_lost s1 i = s1) ids) as Hall.
  { eapply Forall_impl; [exact Hids|]. intros i [_ Hi]. apply path_lost_gone. unfold joined in *. rewrite H1, H3.
    intros j Hjj Hj0. destruct (decide (Z.to_nat id = Z.to_nat i)) as [He|Hn].
    - rewrite He, list_lookup_insert_eq in Hjj by (eapply lookup_lt_Some; exact Hi). by injection Hjj as <-.
    - rewrite list_lookup_insert_ne in Hjj by done. rewrite Hi in Hjj. injection Hjj as <-. lia. }
  clear -Hall. induction Hall as [|i ids Hi _ IH]; [done|]. cbn [foldl]. by rewrite Hi.
Qed.

Definition joined_pair : Idle := note_path_joined (note_path_joined (reset initial 8) 3 0) 5 0.

Lemma path_lost_burst_witness :
  GEN_OFFSET (foldl note_path_lost joined_pair [5; 3; 5]) = 1.
Proof.
  apply (path_lost_burst joined_pair [5; 3; 5]).
  - discriminate.
  - vm_compute. split; [discriminate|reflexivity].
  - vm_compute. split; [discriminate|reflexivity].
  - repeat (apply List.Forall_cons; [split; reflexivity|]). apply List.Forall_nil.
Defined.

(** ** Overlapping [enter] and [exit]

    [monitor] and the packet bridge run in different threads. Their calls as
    atomic accesses: [Swap] ends its thread when it finds the value it stores. *)

Inductive Access : Type :=
| SwapActive (to : bool)
| StoreLimit (x : Z)
| StoreDeclared (x : Z)
| BumpOffset
| BumpAnnounce
| ClearCounts.

Definition enter_accesses (keep : Z) : list Access :=
  [SwapActive true; StoreLimit keep; StoreDeclared keep; BumpOffset; BumpAnnounce; ClearCounts].

Definition exit_accesses (total : Z) : list Access :=
  [SwapActive false; StoreLimit usize_max; StoreDeclared total; BumpAnnounce].

(** One access, and whether the thread goes on. *)
Definition access (s : Idle) (a : Access) : Idle * bool :=
  let mk l b d g n p y := mkIdle l b (TOTAL_WORKERS s) d g n p y (JOINED s) in
  match a with
  | SwapActive to =>
      (mk (LIMIT s) to (DECLARED s) (GEN_OFFSET s) (ANNOUNCE s) (PACKET_WINDOW s) (SYN_WINDOW s),
       negb (Bool.eqb (ACTIVE s) to))
  | StoreLimit x => (mk x (ACTIVE s) (DECLARED s) (GEN_OFFSET s) (ANNOUNCE s) (PACKET_WINDOW s) (SYN_WINDOW s), true)
  | StoreDeclared x => (mk (LIMIT s) (ACTIVE s) x (GEN_OFFSET s) (ANNOUNCE s) (PACKET_WINDOW s) (SYN_WINDOW s), true)
  | BumpOffset => (mk (LIMIT s) (ACTIVE s) (DECLARED s) (wrapping_add 64 (GEN_OFFSET s) 1) (ANNOUNCE s) (PACKET_WINDOW s) (SYN_WINDOW s), true)
  | BumpAnnounce => (mk (LIMIT s) (ACTIVE s) (DECLARED s) (GEN_OFFSET s) (wrapping_add 64 (ANNOUNCE s) 1) (PACKET_WINDOW s) (SYN_WINDOW s), true)
  | ClearCounts => (mk (LIMIT s) (ACTIVE s) (DECLARED s) (GEN_OFFSET s) (ANNOUNCE s)
                      (mkWindow (w_start (PACKET_WINDOW s)) 0) (mkWindow (w_start (SYN_WINDOW s)) 0), true)
  end.

(** Two threads under a schedule: [true] runs the first one. *)
Fixpoint interleave (s : Idle) (t1 t2 : list Access) (schedule : list bool) : Idle * list Access * list Access :=
  match schedule with
  | [] => (s, t1, t2)
  | true :: schedule =>
      match t1 with
      | [] => interleave s t1 t2 schedule
      | a :: t1 => let '(s, go) := access s a in interleave s (if (go : bool) then t1 else []) t2 schedule
      end
  | false :: schedule =>
      match t2 with
      | [] => interleave s t1 t2 schedule
      | a :: t2 => let '(s, go) := access s a in interleave s t1 (if (go : bool) then t2 else []) schedule
      end
  end.

(** Run alone, the accesses are [enter] and [exit]. *)
Lemma enter_alone s keep :
  keep <> 0 -> TOTAL_WORKERS s <> 0 -> keep < TOTAL_WORKERS s ->
  interleave s (enter_accesses keep) [] (replicate 6 true) = (enter s keep, [], []).
Proof.
  intros Hk Ht Hlt. unfold enter. destruct (Z.eqb_spec keep 0); [done|].
  destruct (Z.eqb_spec (TOTAL_WORKERS s) 0); [done|]. destruct (Z.leb_spec (TOTAL_WORKERS s) keep); [lia|].
  destruct s as [l [] t d g an p y j]; reflexivity.
Qed.

Lemma exit_alone s : interleave s (exit_accesses (TOTAL_WORKERS s)) [] (replicate 4 true) = (exit s, [], []).
Proof. destruct s as [l [] t d g an p y j]; reflexivity. Qed.

(** When traffic ends the idle time between [enter]'s first access and its
    next ones, the engine is left active with the workers parked: only [keep]
    of them may run, the server is told [keep], and no further traffic unparks
    the others, because [note_uplink] does nothing while not idle. *)
Lemma enter_exit_race :
  let s0 := reset initial 8 in
  let '(s, t1, t2) := interleave s0 (enter_accesses 2) (exit_accesses 8) ([true] ++ replicate 4 false ++ replicate 5 true) in
  t1 = [] /\ t2 = [] /\ ACTIVE s = false /\ LIMIT s = 2 /\ DECLARED s = 2
  /\ allows s 3 = false /\ ~ idle_ok s
  /\ forall now packet, note_uplink s now packet = Ret s.
Proof.
  cbv -[note_uplink idle_ok not]. conjs; try reflexivity. intros [_ Hi]. by destruct Hi as [Hi _].
Qed.

(** The offset a registration returns is read after the generation it sends, so
    a path lost in between records the worker in an epoch it did not join. *)
Lemma registration_offset_race :
  let s0 := note_path_joined (reset initial 8) 3 0 in
  let s1 := note_path_lost s0 3 in
  let r := build_registration_payload s0 s1 s1 100 in
  sent_generation r = 100 /\ returned_offset r = 1 /\ generation s1 100 = 101.
Proof. vm_compute. repeat split. Qed.
