(* ===== verification/TurnEndpoint.v ===== *)
(** * TurnEndpoint: TURN URIs

    Models [turn_endpoint.rs]: which host, port and transport a TURN URI and
    the user's overrides stand for. Errors are an enumeration in place of their
    texts. *)

From Stdlib Require Import Strings.String.
From S2P Require Import Prelude Bytes Text Protocol.

Inductive TurnTransportMode : Type := ModeUdp | ModeTcpTls.
Inductive TurnWireTransport : Type := WireUdp | WireTcp | WireTls.
Inductive TurnScheme : Type := Turn | Turns | Bare.
Inductive UriTransport : Type := UriUdp | UriTcp.

#[export] Instance scheme_eq_dec : EqDecision TurnScheme.
Proof. solve_decision. Defined.
#[export] Instance uri_transport_eq_dec : EqDecision UriTransport.
Proof. solve_decision. Defined.

Record TurnEndpoint : Type := mkEndpoint {
  host : text;
  port : Z;
  transport : TurnWireTransport;
}.

Inductive EndpointError : Type :=
| UnsupportedMode (value : text)
| EmptyEndpoint
| EmptyAuthority
| UnsupportedTransport
| DuplicateTransport
| TurnsOverUdp
| MalformedIpv6
| UnbracketedIpv6
| EmptyHost
| InvalidPort
| TlsInUdpMode
| TcpInUdpMode
| UdpInTcpMode.

(** ** Endpoints *)

Definition parse_mode (value : text) : result TurnTransportMode EndpointError :=
  let value := to_ascii_lowercase (trim value) in
  if bytes_eqb value (ascii "udp") then Ok ModeUdp
  else if existsb (bytes_eqb value) [ascii "tcp"; ascii "tcp_tls"; ascii "tcp-tls"; ascii "tcp/tls"] then Ok ModeTcpTls
  else Err (UnsupportedMode value).

Definition colon : Z := 0x3a.

Definition socket_authority (e : TurnEndpoint) : text :=
  if existsb (fun c => c =? colon) (host e)
  then ascii "[" ++ host e ++ ascii "]:" ++ to_string (port e)
  else host e ++ ascii ":" ++ to_string (port e).

(** The loop over the query's parameters. *)
Fixpoint parse_parameters (parameters : list text) (uri_transport : option UriTransport)
  : result (option UriTransport) EndpointError :=
  match parameters with
  | [] => Ok uri_transport
  | parameter :: parameters =>
      if zlen parameter =? 0 then parse_parameters parameters uri_transport else
      let '(key, value) := default (parameter, []) (split_once 0x3d parameter) in
      if bytes_eqb (to_ascii_lowercase key) (ascii "transport") then
        let value := to_ascii_lowercase value in
        let parsed := if bytes_eqb value (ascii "udp") then Some UriUdp
                      else if bytes_eqb value (ascii "tcp") then Some UriTcp else None in
        match parsed with
        | None => Err UnsupportedTransport
        | Some parsed =>
            match uri_transport with
            | Some _ => Err DuplicateTransport
            | None => parse_parameters parameters (Some parsed)
            end
        end
      else parse_parameters parameters uri_transport
  end.

Definition parse_turn_uri (value : text) : result (TurnScheme * text * option UriTransport) EndpointError :=
  let value := trim value in
  if zlen value =? 0 then Err EmptyEndpoint else
  let lower := to_ascii_lowercase value in
  let '(scheme, value) :=
    if starts_with lower (ascii "turns:") then (Turns, drop 6 value)
    else if starts_with lower (ascii "turn:") then (Turn, drop 5 value)
    else (Bare, value) in
  let '(authority, query) := default (value, []) (split_once 0x3f value) in
  if zlen authority =? 0 then Err EmptyAuthority else
  match parse_parameters (split 0x26 query) None with
  | Err e => Err e
  | Ok uri_transport =>
      if bool_decide (scheme = Turns) && bool_decide (uri_transport = Some UriUdp) then Err TurnsOverUdp
      else Ok (scheme, authority, uri_transport)
  end.

Definition is_supported_turn_uri (value : text) : bool := is_ok (parse_turn_uri value).

Definition default_port (scheme : TurnScheme) : Z := match scheme with Turns => 5349 | Turn | Bare => 3478 end.

Definition with_port (host port : text) : result (text * Z) EndpointError :=
  match parse_u16 port with Some port => Ok (host, port) | None => Err InvalidPort end.

Definition parse_authority (value : text) (scheme : TurnScheme) : result (text * Z) EndpointError :=
  match strip_prefix (ascii "[") value with
  | Some rest =>
      match split_bracket rest with
      | None =>
          match strip_suffix 0x5d rest with
          | None => Err MalformedIpv6
          | Some host => Ok (host, default_port scheme)
          end
      | Some (host, port) => with_port host port
      end
  | None =>
      if 1 <? count_of colon value then Err UnbracketedIpv6 else
      match rsplit_once colon value with
      | Some (host, port) => if zlen host =? 0 then Err EmptyHost else with_port host port
      | None => Ok (value, default_port scheme)
      end
  end.

(** An override that is present and not blank, trimmed. *)
Definition override_value (value : option text) : option text :=
  match value with
  | Some value => if zlen (trim value) =? 0 then None else Some (trim value)
  | None => None
  end.

Definition choose_transports (mode : TurnTransportMode) (scheme : TurnScheme) (uri_transport : option UriTransport)
  : result (list TurnWireTransport) EndpointError :=
  match mode with
  | ModeUdp =>
      match scheme, uri_transport with
      | Turns, _ => Err TlsInUdpMode
      | _, Some UriTcp => Err TcpInUdpMode
      | _, _ => Ok [WireUdp]
      end
  | ModeTcpTls =>
      match scheme, uri_transport with
      | _, Some UriUdp => Err UdpInTcpMode
      | Turns, _ => Ok [WireTls]
      | _, Some UriTcp => Ok [WireTcp]
      | _, None => Ok [WireTcp]
      end
  end.

Definition resolve_turn_endpoints (value : text) (override_host override_port : option text) (mode : TurnTransportMode)
  : result (list TurnEndpoint) EndpointError :=
  match parse_turn_uri value with
  | Err e => Err e
  | Ok (scheme, authority, uri_transport) =>
      match parse_authority authority scheme with
      | Err e => Err e
      | Ok (original_host, original_port) =>
          let host := default original_host (override_value override_host) in
          let port := match override_value override_port with
                      | None => Ok original_port
                      | Some value => match parse_u16 value with Some p => Ok p | None => Err InvalidPort end
                      end in
          match port with
          | Err e => Err e
          | Ok port =>
              if zlen host =? 0 then Err EmptyHost else
              match choose_transports mode scheme uri_transport with
              | Err e => Err e
              | Ok transports => Ok (map (mkEndpoint host port) transports)
              end
          end
      end
  end.

(** ** What a URI can resolve to *)

Lemma parse_authority_port value scheme h p : parse_authority value scheme = Ok (h, p) -> is_u 16 p.
Proof.
  assert (is_u 16 (default_port scheme)) as Hd by (by destruct scheme).
  assert (forall a b, with_port a b = Ok (h, p) -> is_u 16 p) as Hw.
  { intros a b. unfold with_port. destruct (parse_u16 b) eqn:E; [|done]. intros [= _ <-]. by eapply parse_u16_range. }
  unfold parse_authority. destruct (strip_prefix _ value).
  - destruct (split_bracket _) as [[a b]|]; [apply Hw|]. destruct (strip_suffix _ _); [|done]. by intros [= _ <-].
  - destruct (_ <? _); [done|]. destruct (rsplit_once _ _) as [[a b]|]; [|by intros [= _ <-]].
    destruct (_ =? _); [done|apply Hw].
Qed.

(** The transport that mode and scheme call for. *)
Definition expected_transport (mode : TurnTransportMode) (scheme : TurnScheme) : TurnWireTransport :=
  match mode, scheme with
  | ModeUdp, _ => WireUdp
  | ModeTcpTls, Turns => WireTls
  | ModeTcpTls, _ => WireTcp
  end.

(** A URI resolves to exactly one endpoint, with a host that is not empty
    and a port of sixteen bits; its transport is the one the mode and the
    scheme call for: the UDP mode never opens a stream, the TCP mode never
    sends datagrams, and a [turns:] URI is never served in the clear. *)
Lemma resolve_endpoint value h p mode eps :
  resolve_turn_endpoints value h p mode = Ok eps ->
  exists scheme authority uri_transport e,
    parse_turn_uri value = Ok (scheme, authority, uri_transport) /\ eps = [e]
    /\ host e <> [] /\ is_u 16 (port e) /\ transport e = expected_transport mode scheme
    /\ (scheme = Turns -> mode = ModeTcpTls /\ transport e = WireTls)
    /\ (uri_transport = Some UriUdp -> transport e = WireUdp)
    /\ (uri_transport = Some UriTcp -> transport e <> WireUdp).
Proof.
  unfold resolve_turn_endpoints. destruct (parse_turn_uri value) as [[[scheme authority] ut]|]; [|done].
  destruct (parse_authority authority scheme) as [[oh op]|] eqn:Ea; [|done].
  apply parse_authority_port in Ea. set (hst := default oh _).
  set (prt := match override_value p with Some _ => _ | None => Ok op end).
  assert (forall x, prt = Ok x -> is_u 16 x) as Hp.
  { unfold prt. intros x. destruct (override_value p) as [v|]; [|by intros [= <-]].
    destruct (parse_u16 v) eqn:E; [|done]. intros [= <-]. by eapply parse_u16_range. }
  clearbody prt. destruct prt as [prt|]; [|done]. specialize (Hp prt eq_refl).
  destruct (Z.eqb_spec (zlen hst) 0) as [|Hh]; [done|]. intros Hc.
  exists scheme, authority, ut, (mkEndpoint hst prt (expected_transport mode scheme)).
  split; [done|]. simpl. assert (hst <> []) as Hne by (intros E; by rewrite E in Hh).
  clearbody hst. destruct mode, scheme, ut as [[]|]; simpl in Hc; try discriminate Hc; injection Hc as <-; done.
Qed.

(** The host is the one given beside the address, if it is not blank, and
    otherwise the address's own. *)
Lemma resolve_host value h p mode eps scheme authority ut :
  resolve_turn_endpoints value h p mode = Ok eps -> parse_turn_uri value = Ok (scheme, authority, ut) ->
  exists original number, parse_authority authority scheme = Ok (original, number)
    /\ Forall (fun e => host e = default original (override_value h)) eps.
Proof.
  intros Hr Hu. unfold resolve_turn_endpoints in Hr. rewrite Hu in Hr.
  destruct (parse_authority authority scheme) as [[original number]|]; [|done]. exists original, number. split; [done|].
  destruct (match override_value p with Some _ => _ | None => Ok number end) as [prt|]; [|done].
  destruct (_ =? 0); [done|]. destruct (choose_transports mode scheme ut) as [l|]; [|done]. injection Hr as <-.
  apply Forall_fmap, Forall_true. done.
Qed.

Lemma resolve_endpoint_witness :
  exists e, resolve_turn_endpoints (ascii " turns:relay.example:443?transport=tcp") None None ModeTcpTls = Ok [e]
    /\ transport e = WireTls.
Proof.
  assert (resolve_turn_endpoints (ascii " turns:relay.example:443?transport=tcp") None None ModeTcpTls
    = Ok [mkEndpoint (ascii "relay.example") 443 WireTls]) as Hr by (vm_compute; reflexivity).
  destruct (resolve_endpoint _ _ _ _ _ Hr) as (scheme & authority & ut & e & Hu & He & _ & _ & Ht & _).
  vm_compute in Hu. injection Hu as <- <- <-. exists e. split; [|exact Ht]. rewrite <- He. exact Hr.
Defined.
