(* ===== verification/PacketQueue.v ===== *)
(** * PacketQueue: the epoch-stamped queues between tasks

    Models [PacketQueue], [PacketSender] and [PacketReceiver] of
    [dispatcher.rs]: a bounded queue whose elements carry the epoch in which
    they were accepted, so that a receiver that resumes with a new interface
    never delivers a packet accepted for the old one. The operations are given
    run alone, and as the atomic accesses of senders and a receiver. *)

From S2P Require Import Prelude Bytes ArrayQueue PacketPool.

Definition QUEUE_ACTIVE : Z := 1.

Record QueuedPacket : Type := mkQueued { packet : PacketBuf; epoch : Z }.

Section Queue.
Context {Q : Type -> Type} `{ArrayQueue Q}.

Record PacketQueue : Type := mkQueue {
  queue : Q QueuedPacket;
  state : Z;
  senders : Z;
  receiver_open : bool;
}.

Definition packet_channel (capacity : Z) (active : bool) : PacketQueue :=
  mkQueue (aq_new (Z.max capacity 1)) ((if active then 1 else 0) * QUEUE_ACTIVE) 1 true.

Definition set_queue (s : PacketQueue) (q : Q QueuedPacket) : PacketQueue :=
  mkQueue q (state s) (senders s) (receiver_open s).
Definition set_state (s : PacketQueue) (x : Z) : PacketQueue := mkQueue (queue s) x (senders s) (receiver_open s).

(** The loads at the start of [send_inner]: the epoch to stamp, unless the
    receiver is gone or suspended. *)
Definition send_load (s : PacketQueue) : option Z :=
  if negb (receiver_open s) then None
  else if Z.land (state s) QUEUE_ACTIVE =? 0 then None
  else Some (Z.shiftr (state s) 1).

(** The push of [send_inner]; [Err] gives the packet back. *)
Definition send_push (s : PacketQueue) (queued : QueuedPacket) (force : bool) : PacketQueue * result unit PacketBuf :=
  if force then
    let '(_, q) := aq_force_push (queue s) queued in (set_queue s q, Ok tt)
  else
    match aq_push (queue s) queued with
    | Some q => (set_queue s q, Ok tt)
    | None => (s, Err (packet queued))
    end.

Definition send_inner (s : PacketQueue) (p : PacketBuf) (force : bool) : PacketQueue * result unit PacketBuf :=
  match send_load s with
  | None => (s, Err p)
  | Some e => send_push s (mkQueued p e) force
  end.

Definition try_send (s : PacketQueue) (p : PacketBuf) := send_inner s p false.
Definition force_send (s : PacketQueue) (p : PacketBuf) := send_inner s p true.

(** [while let Some(queued) = pop()]; one turn per element. *)
Fixpoint pop_all (turns : nat) (q : Q QueuedPacket) : list QueuedPacket * Q QueuedPacket :=
  match turns with
  | O => ([], q)
  | S turns =>
      match aq_pop q with
      | None => ([], q)
      | Some (x, q) => let '(xs, q) := pop_all turns q in (x :: xs, q)
      end
  end.

Definition steal (s : PacketQueue) : list PacketBuf * PacketQueue :=
  let '(xs, q) := pop_all (length (items (queue s))) (queue s) in (map packet xs, set_queue s q).

Lemma pop_all_items q :
  aq_ok q -> exists q', pop_all (length (items q)) q = (items q, q') /\ items q' = [] /\ aq_capacity q' = aq_capacity q.
Proof.
  intros Hok. remember (items q) as l eqn:Hl. revert q Hok Hl.
  induction l as [|x l IH]; intros q Hok Hl; [by exists q|]. cbn [length pop_all].
  destruct (aq_pop_cases q Hok) as [[Hn _]|(y & q1 & -> & Hi & Hc & Hok1)]; [by rewrite Hn in Hl|].
  rewrite Hi in Hl. injection Hl as -> Hl. destruct (IH q1 Hok1 Hl) as (q2 & -> & Hi2 & Hc2).
  exists q2. by rewrite Hc2, Hc.
Qed.

(** [steal] takes every packet, in order, and leaves the queue empty. *)
Lemma steal_spec s :
  aq_ok (queue s) ->
  exists q, steal s = (map packet (items (queue s)), set_queue s q) /\ items q = [] /\ aq_ok q.
Proof.
  intros Hok. unfold steal. destruct (pop_all_items (queue s) Hok) as (q & -> & Hi & Hc).
  exists q. split; [done|]. split; [done|]. apply (aq_ok_intro (queue s)); [done..|]. rewrite Hi, zlen_nil. by destruct Hok; lia.
Qed.

Definition queued (s : PacketQueue) : Z := aq_len (queue s).
Definition is_congested (s : PacketQueue) : bool :=
  (0 <? aq_capacity (queue s)) && (aq_capacity (queue s) <=? queued s * 2).

(** Whether [try_recv_inner] returns what it popped. *)
Definition deliverable (s : PacketQueue) (x : QueuedPacket) : bool :=
  negb (Z.land (state s) QUEUE_ACTIVE =? 0) && (epoch x =? Z.shiftr (state s) 1).

(** [try_recv_inner]; at most one turn per element and one for the empty queue. *)
Fixpoint recv_turns (turns : nat) (s : PacketQueue) : option PacketBuf * PacketQueue :=
  match turns with
  | O => (None, s)
  | S turns =>
      match aq_pop (queue s) with
      | None => (None, s)
      | Some (x, q) =>
          if deliverable s x then (Some (packet x), set_queue s q) else recv_turns turns (set_queue s q)
      end
  end.
Definition try_recv (s : PacketQueue) : option PacketBuf * PacketQueue := recv_turns (S (length (items (queue s)))) s.

Definition purge (s : PacketQueue) : PacketQueue := snd (steal s).

(** The epoch that [resume] starts. *)
Definition next_epoch (s : PacketQueue) : Z := saturating_add 64 (Z.shiftr (state s) 1) 1.
Definition resume (s : PacketQueue) : PacketQueue :=
  let epoch := next_epoch s in
  let s := set_state s (wrap 64 (Z.shiftl epoch 1)) in
  let s := purge s in
  set_state s (Z.lor (wrap 64 (Z.shiftl epoch 1)) QUEUE_ACTIVE).

Definition clone_sender (s : PacketQueue) : PacketQueue :=
  mkQueue (queue s) (state s) (senders s + 1) (receiver_open s).
Definition drop_sender (s : PacketQueue) : PacketQueue :=
  mkQueue (queue s) (state s) (senders s - 1) (receiver_open s).
Definition drop_receiver (s : PacketQueue) : PacketQueue :=
  mkQueue (queue s) (state s) (senders s) false.
Definition is_closed (s : PacketQueue) : bool := (senders s =? 0) && (queued s =? 0).
Definition has_queued_packet (s : PacketQueue) : bool := negb (queued s =? 0).

(** ** One receiver and many senders *)

Inductive QueueEvent : Type :=
| Accepted (p : PacketBuf)
| Resumed
| Delivered (p : PacketBuf).

(** The queue, the packets whose senders are between load and push, whether the
    receiver is inside [resume], and what happened, newest first. *)
Record QueueSystem : Type := mkSystem {
  shared : PacketQueue;
  flying : list QueuedPacket;
  resuming : bool;
  log : list QueueEvent;
}.

Inductive queue_step : QueueSystem -> QueueSystem -> Prop :=
| step_load s fl r l p e : send_load s = Some e ->
    queue_step (mkSystem s fl r l) (mkSystem s (mkQueued p e :: fl) r (Accepted p :: l))
| step_push s fl1 fl2 r l x force s' res : send_push s x force = (s', res) ->
    queue_step (mkSystem s (fl1 ++ x :: fl2) r l) (mkSystem s' (fl1 ++ fl2) r l)
| step_recv s fl l x q : aq_pop (queue s) = Some (x, q) ->
    queue_step (mkSystem s fl false l)
      (mkSystem (set_queue s q) fl false (if deliverable s x then Delivered (packet x) :: l else l))
| step_steal s fl r l x q : aq_pop (queue s) = Some (x, q) ->
    queue_step (mkSystem s fl r l) (mkSystem (set_queue s q) fl r l)
| step_resume_start s fl l : next_epoch s < 2 ^ 63 ->
    queue_step (mkSystem s fl false l)
      (mkSystem (set_state s (wrap 64 (Z.shiftl (next_epoch s) 1))) fl true (Resumed :: l))
| step_resume_end s fl l : aq_pop (queue s) = None ->
    queue_step (mkSystem s fl true l) (mkSystem (set_state s (Z.lor (state s) QUEUE_ACTIVE)) fl false l)
| step_close s fl r l : queue_step (mkSystem s fl r l) (mkSystem (drop_receiver s) fl r l).

Definition queue_start (capacity : Z) (active : bool) : QueueSystem := mkSystem (packet_channel capacity active) [] false [].

Fixpoint resumes (l : list QueueEvent) : Z :=
  match l with
  | [] => 0
  | Resumed :: l => resumes l + 1
  | _ :: l => resumes l
  end.

(** [p] was accepted in epoch [e]. *)
Definition accepted_in (l : list QueueEvent) (x : QueuedPacket) : Prop :=
  exists l1 l2, l = l1 ++ Accepted (packet x) :: l2 /\ resumes l2 = epoch x.

Record system_wf (s : QueueSystem) : Prop := {
  sys_queue : aq_ok (queue (shared s));
  sys_state : exists a, state (shared s) = 2 * resumes (log s) + (if (a : bool) then 1 else 0)
    /\ (resuming s = true -> a = false);
  sys_bound : resumes (log s) < 2 ^ 63;
  sys_flying : Forall (accepted_in (log s)) (flying s);
  sys_items : Forall (accepted_in (log s)) (items (queue (shared s)));
  sys_log : forall l1 p l2, log s = l1 ++ Delivered p :: l2 ->
    exists m1 m2, l2 = m1 ++ Accepted p :: m2 /\ Resumed ∉ m1;
}.

(** ** Facts *)

Lemma state_parts n (a : bool) :
  0 <= n -> Z.shiftr (2 * n + (if a then 1 else 0)) 1 = n
  /\ (Z.land (2 * n + (if a then 1 else 0)) QUEUE_ACTIVE =? 0) = negb a.
Proof.
  intros Hn. unfold QUEUE_ACTIVE. set (x := 2 * n + _).
  assert (Z.land x 1 = x mod 2) as -> by exact (Z.land_ones x 1 ltac:(lia)).
  rewrite Z.shiftr_div_pow2 by lia. change (2 ^ 1) with 2.
  assert (x / 2 = n /\ x mod 2 = if a then 1 else 0) as [-> ->];
    [unfold x; destruct a; Z.to_euclidean_division_equations; lia|by destruct a].
Qed.

Lemma activate n : Z.lor (2 * n) QUEUE_ACTIVE = 2 * n + 1.
Proof.
  unfold QUEUE_ACTIVE. pose proof (Z.add_lor_land (2 * n) 1) as Ha.
  assert (Z.land (2 * n) 1 = (2 * n) mod 2) as Hl by exact (Z.land_ones (2 * n) 1 ltac:(lia)).
  rewrite Z.mul_comm, Z.mod_mul in Hl by lia. rewrite (Z.mul_comm 2) in *. lia.
Qed.

Lemma resumes_app l1 l2 : resumes (l1 ++ l2) = resumes l1 + resumes l2.
Proof. induction l1 as [|[] l1 IH]; simpl; lia. Qed.

Lemma resumes_nonneg l : 0 <= resumes l.
Proof. induction l as [|[] l IH]; simpl; lia. Qed.

Lemma resumes_none l : resumes l = 0 -> Resumed ∉ l.
Proof.
  intros Hr Hin. apply list_elem_of_split in Hin as (l1 & l2 & ->). rewrite resumes_app in Hr. simpl in Hr.
  pose proof (resumes_nonneg l1). pose proof (resumes_nonneg l2). lia.
Qed.

Lemma accepted_in_cons l e x : accepted_in l x -> accepted_in (e :: l) x.
Proof. intros (l1 & l2 & -> & Hr). by exists (e :: l1), l2. Qed.

Lemma log_cons e l :
  (forall p, e <> Delivered p) ->
  (forall l1 p l2, l = l1 ++ Delivered p :: l2 -> exists m1 m2, l2 = m1 ++ Accepted p :: m2 /\ Resumed ∉ m1) ->
  forall l1 p l2, e :: l = l1 ++ Delivered p :: l2 -> exists m1 m2, l2 = m1 ++ Accepted p :: m2 /\ Resumed ∉ m1.
Proof.
  intros Hne Hl [|e' l1] p l2 He; [injection He as -> _; by destruct (Hne p)|]. injection He as _ He. by eapply Hl.
Qed.

(** The queue after a push or a pop, in terms of its elements. *)
Lemma send_push_facts s x force s' r :
  aq_ok (queue s) -> send_push s x force = (s', r) ->
  aq_ok (queue s') /\ state s' = state s /\ Forall (fun y => y ∈ items (queue s) \/ y = x) (items (queue s')).
Proof.
  intros Hok Hp. unfold send_push in Hp.
  assert (forall l, Forall (fun y => y ∈ l \/ y = x) (l ++ [x])) as Hsnoc.
  { intros l. apply Forall_app. split; [apply Forall_forall; by left|]. apply Forall_singleton. by right. }
  destruct force.
  - destruct (aq_force_cases (queue s) x Hok) as (out & q & He & Hq & _ & Hi & _). rewrite He in Hp.
    injection Hp as <- _. simpl. split; [done|]. split; [done|]. rewrite Hi.
    eapply Forall_impl; [apply Hsnoc|]. simpl. intros y [Hy| ->]; [left|by right].
    destruct (_ =? _); [|done]. exact (subseteq_drop 1 _ _ Hy).
  - destruct (aq_push_cases (queue s) x Hok) as [[_ He]|(q & He & Hi & _ & Hq)]; rewrite He in Hp;
      injection Hp as <- _; simpl; split; try done; split; try done.
    + apply Forall_forall. by left.
    + rewrite Hi. apply Hsnoc.
Qed.

Lemma queue_step_wf a b : system_wf a -> queue_step a b -> system_wf b.
Proof.
  intros Hw Hs.
  destruct Hs as [s fl r l p e Hl|s fl1 fl2 r l x force s' res Hp|s fl l x q Hp|s fl r l x q Hp|s fl l Hb|s fl l Hp|s fl r l];
    destruct Hw as [Hq (a & Hst & Hra) Hbound Hfl Hit Hlog]; simpl in *.
  - unfold send_load in Hl. destruct (negb (receiver_open s)); [done|].
    destruct (state_parts (resumes l) a (resumes_nonneg l)) as [Hsh Hland]. rewrite Hst, Hsh, Hland in Hl.
    destruct a; [|done]. injection Hl as <-. constructor; simpl; try done.
    + by exists true.
    + constructor; [|eapply Forall_impl; [exact Hfl|]; intros; by apply accepted_in_cons]. by exists [], l.
    + eapply Forall_impl; [exact Hit|]. intros. by apply accepted_in_cons.
    + by apply log_cons.
  - apply send_push_facts in Hp as (Hq' & Hst' & Hi); [|done]. constructor; simpl; try done.
    + exists a. by rewrite Hst'.
    + apply Forall_app in Hfl as [H1 [_ H2]%Forall_cons]. apply Forall_app. done.
    + apply Forall_app in Hfl as [_ [Hx _]%Forall_cons]. rewrite Forall_forall in Hit.
      eapply Forall_impl; [exact Hi|]. simpl. intros y [Hy| ->]; auto.
  - destruct (aq_pop_cases (queue s) Hq) as [[_ He]|(y & q' & He & Hi & _ & Hq')]; [congruence|].
    rewrite He in Hp. injection Hp as -> ->. rewrite Hi in Hit. apply Forall_cons in Hit as [Hx Hit].
    destruct (deliverable s x) eqn:Hd; constructor; simpl; try done; try (by exists a);
      try (eapply Forall_impl; [eassumption|]; intros; by apply accepted_in_cons).
    unfold deliverable in Hd. destruct (state_parts (resumes l) a (resumes_nonneg l)) as [Hsh _].
    rewrite Hst, Hsh in Hd. apply andb_true_iff in Hd as [_ Hd%Z.eqb_eq].
    intros [|e l1] p l2 Hl; [|injection Hl as _ Hl; by eapply Hlog]. injection Hl as <- <-.
    destruct Hx as (m1 & m2 & -> & Hr). exists m1, m2. split; [done|]. apply resumes_none.
    rewrite resumes_app in Hd. simpl in Hd. pose proof (resumes_nonneg m1). lia.
  - destruct (aq_pop_cases (queue s) Hq) as [[_ He]|(y & q' & He & Hi & _ & Hq')]; [congruence|].
    rewrite He in Hp. injection Hp as -> ->. rewrite Hi in Hit. apply Forall_cons in Hit as [Hx Hit].
    constructor; simpl; try done. by exists a.
  - unfold next_epoch in *. destruct (state_parts (resumes l) a (resumes_nonneg l)) as [Hsh _]. rewrite Hst, Hsh in *.
    unfold saturating_add in *. pose proof (resumes_nonneg l).
    assert (Z.min (resumes l + 1) (2 ^ 64 - 1) = resumes l + 1) as E by lia. rewrite E in *.
    constructor; simpl; try done; try (eapply Forall_impl; [eassumption|]; intros; by apply accepted_in_cons).
    + exists false. split; [|done]. rewrite Z.shiftl_mul_pow2, wrap_small by (unfold is_u; lia). lia.
    + by apply log_cons.
  - constructor; simpl; try done. exists true. split; [|done]. rewrite (Hra eq_refl) in Hst. rewrite Hst.
    by rewrite Z.add_0_r, activate.
  - constructor; simpl; try done. by exists a.
Qed.

Lemma queue_start_wf capacity active : system_wf (queue_start capacity active).
Proof.
  constructor; simpl; try done.
  - split; rewrite ?aq_new_items, ?aq_new_capacity; unfold zlen; simpl; lia.
  - exists active. by destruct active.
  - by rewrite aq_new_items.
  - by intros [|] p l2.
Qed.

(** C35: whatever the senders do while the receiver resumes with a new
    interface, and at whichever point between its load and its push a sender
    is overtaken, a packet is delivered only if it was accepted after the last
    resume before its delivery; and the queue never exceeds its capacity. *)
Theorem stale_never_delivered capacity active s :
  rtc queue_step (queue_start capacity active) s ->
  aq_ok (queue (shared s))
  /\ forall l1 p l2, log s = l1 ++ Delivered p :: l2 ->
      exists m1 m2, l2 = m1 ++ Accepted p :: m2 /\ Resumed ∉ m1.
Proof.
  intros Hrtc. assert (system_wf s) as [Hq _ _ _ _ Hl]; [|by split].
  revert Hrtc. pose proof (queue_start_wf capacity active) as Hw. intros Hrtc.
  induction Hrtc as [|a b c Hab _ IH]; [done|]. apply IH. by eapply queue_step_wf.
Qed.
End Queue.

Definition some_packet (n : Z) : PacketBuf := mkPacketBuf [n] 0 1.

(** A sender that read the state before the resume pushes after it: its packet
    is popped and not delivered; the one accepted after it is. *)
Lemma stale_never_delivered_witness :
  exists s : @QueueSystem ListQueue, rtc queue_step (queue_start 4 true) s
    /\ log s = [Delivered (some_packet 2); Accepted (some_packet 2); Resumed; Accepted (some_packet 1)]
    /\ exists m1 m2, [Accepted (some_packet 2); Resumed; Accepted (some_packet 1)] = m1 ++ Accepted (some_packet 2) :: m2
         /\ Resumed ∉ m1.
Proof.
  eexists. split; [|split; [|refine (proj2 (stale_never_delivered 4 true _ _) [] (some_packet 2) _ _)]].
  1,3: eapply rtc_l; [eapply (step_load _ _ _ _ (some_packet 1) 0); reflexivity|].
  1,2: eapply rtc_l; [eapply step_resume_start; reflexivity|].
  1,2: eapply rtc_l; [eapply step_resume_end; reflexivity|].
  1,2: eapply rtc_l; [eapply (step_push _ [] [] _ _ (mkQueued (some_packet 1) 0) false); reflexivity|].
  1,2: eapply rtc_l; [eapply step_recv; reflexivity|].
  1,2: eapply rtc_l; [eapply (step_load _ _ _ _ (some_packet 2) 1); reflexivity|].
  1,2: eapply rtc_l; [eapply (step_push _ [] [] _ _ (mkQueued (some_packet 2) 1) false); reflexivity|].
  1,2: eapply rtc_l; [eapply step_recv; reflexivity|]; apply rtc_refl.
  all: vm_compute; reflexivity.
Defined.
