(* ===== verification/Dispatcher.v ===== *)
(** * Dispatcher: spreading packets over the workers

    Models the dispatcher proper of [dispatcher.rs]: the worker table and its
    order, the round-robin scheduler, the choice of a worker's queue for a
    packet, and its redispatching. Queues and health flags are shared between the
    workers and the snapshots of the table that the readers hold; they live in
    a store and a [WorkerChannels] holds their addresses. *)

From stdpp Require Import sorting functions.
From S2P Require Import Prelude Bytes FlowFrame Scheduler SelectiveFec ArrayQueue PacketPool PacketQueue.

Definition RETURN_CAPACITY : Z := 1024.
Definition RETURN_LATENCY_CAPACITY : Z := 128.
Definition RETURN_PRIORITY_CAPACITY : Z := 384.
Definition RETURN_BULK_CAPACITY : Z := RETURN_CAPACITY - RETURN_LATENCY_CAPACITY - RETURN_PRIORITY_CAPACITY.

Record WorkerChannels : Type := mkWorker {
  id : Z;
  incarnation_id : Z;
  turn_path : bytes;
  latency : nat;
  priority : nat;
  bulk : nat;
  healthy : nat;
}.

(** ** The order of the worker table *)

(** [str::cmp], then the id. *)
Fixpoint path_le (a b : bytes) : bool :=
  match a, b with
  | [], _ => true
  | _ :: _, [] => false
  | x :: a, y :: b => (x <? y) || ((x =? y) && path_le a b)
  end.
Definition worker_le (l r : WorkerChannels) : Prop :=
  (path_le (turn_path l) (turn_path r)
   && (negb (bytes_eqb (turn_path l) (turn_path r)) || (id l <=? id r))) = true.
#[export] Instance worker_le_dec : RelDecision worker_le.
Proof. intros l r. unfold worker_le. apply _. Defined.

(** The runs of neighbours with the same path. *)
Fixpoint group_runs (sorted : list WorkerChannels) (groups : list (list WorkerChannels)) : list (list WorkerChannels) :=
  match sorted with
  | [] => groups
  | worker :: sorted =>
      match last groups with
      | Some ((first :: _) as group) =>
          if bytes_eqb (turn_path first) (turn_path worker)
          then group_runs sorted (take (length groups - 1) groups ++ [group ++ [worker]])
          else group_runs sorted (groups ++ [[worker]])
      | _ => group_runs sorted (groups ++ [[worker]])
      end
  end.

Definition round (groups : list (list WorkerChannels)) (offset : nat) : list WorkerChannels :=
  omap (fun group => group !! offset) groups.

(** [for offset in 0..]: one turn per round that adds a worker, and a last one. *)
Fixpoint rounds (turns : nat) (groups : list (list WorkerChannels)) (offset : nat) : list WorkerChannels :=
  match turns with
  | O => []
  | S turns =>
      match round groups offset with
      | [] => []
      | added => added ++ rounds turns groups (S offset)
      end
  end.

Definition interleave_turn_paths (workers : list WorkerChannels) : list WorkerChannels :=
  rounds (S (length workers)) (group_runs (merge_sort worker_le workers) []) 0.

Definition register (workers : list WorkerChannels) (channels : WorkerChannels) : list WorkerChannels :=
  interleave_turn_paths (filter (fun w => id w <> id channels) workers ++ [channels]).

Definition unregister (workers : list WorkerChannels) (id_ incarnation_id_ : Z) : list WorkerChannels :=
  interleave_turn_paths (filter (fun w => id w <> id_ \/ incarnation_id w <> incarnation_id_) workers).

(** ** The round-robin scheduler *)

Record RoundRobinCursor : Type := mkCursor { current_worker : Z; remaining : Z }.
Definition default_cursor : RoundRobinCursor := mkCursor 0 0.

Record FastPathScheduler : Type := mkScheduler {
  workers : list WorkerChannels;
  worker_count : Z;
  cursors : PacketClass -> RoundRobinCursor;
}.

Definition new_scheduler : FastPathScheduler := mkScheduler [] 0 (fun _ => default_cursor).

Definition sync_worker_count (s : FastPathScheduler) (count : Z) : FastPathScheduler :=
  if worker_count s =? count then s else mkScheduler (workers s) count (fun _ => default_cursor).

Definition begin_for_class (s : FastPathScheduler) (count : Z) (class : PacketClass)
  : FastPathScheduler * option DispatchTicket :=
  if count =? 0 then (s, None) else
  let s := sync_worker_count s count in
  let cursor := cursors s class in
  let left := if remaining cursor =? 0 then stream_chunk class else remaining cursor in
  let start := current_worker cursor in
  let left := left - 1 in
  let next :=
    if left =? 0 then (if start + 1 =? count then 0 else start + 1) else start in
  (mkScheduler (workers s) (worker_count s) (<[class := mkCursor next left]> (cursors s)),
   Some (mkDispatchTicket start class)).

(** [begin], where [source] is the table that [load_full] would read. *)
Definition begin (s : FastPathScheduler) (source : list WorkerChannels) (packet : bytes)
  : res (FastPathScheduler * option DispatchTicket) :=
  class ← packet_class packet;
  let s :=
    if remaining (cursors s class) =? 0
    then sync_worker_count (mkScheduler source (worker_count s) (cursors s)) (zlen source)
    else s in
  Ret (begin_for_class s (worker_count s) class).

(** ** Choosing a queue *)

Section Store.
Context {Q : Type -> Type} `{ArrayQueue Q}.

(** The queues and flags behind the [Arc]s, by address. *)
Record Store : Type := mkStore {
  queues : nat -> @PacketQueue Q;
  flags : nat -> bool;
}.

Definition set_store_queue (h : Store) (k : nat) (q : @PacketQueue Q) : Store := mkStore (<[k := q]> (queues h)) (flags h).

Definition is_healthy (h : Store) (w : WorkerChannels) : bool := flags h (healthy w).
Definition mark_unhealthy (h : Store) (w : WorkerChannels) : Store :=
  mkStore (queues h) (<[healthy w := false]> (flags h)).

Definition steal_at (h : Store) (k : nat) : list PacketBuf * Store :=
  let '(packets, q) := steal (queues h k) in (packets, set_store_queue h k q).

Definition drain_uplink (h : Store) (w : WorkerChannels) : list PacketBuf * Store :=
  let '(p1, h) := steal_at h (latency w) in
  let '(p2, h) := steal_at h (priority w) in
  let '(p3, h) := steal_at h (bulk w) in
  (p1 ++ p2 ++ p3, h).

Definition queue_for_class (w : WorkerChannels) (class : PacketClass) : nat :=
  match class with Small => latency w | Medium => priority w | Bulk => bulk w end.

(** The inner loop of [enqueue_selected_worker], from [offset], [count] more
    times; a refused packet leaves its queue as it was. *)
Fixpoint enqueue_pass (h : Store) (ws : list WorkerChannels) (ticket : DispatchTicket) (prefer_clear : bool)
  (offset : Z) (count : nat) (packet : PacketBuf) : res (Store * result unit PacketBuf) :=
  match count with
  | O => Ret (h, Err packet)
  | S count =>
      match ws !! Z.to_nat ((start_slot ticket + offset) mod zlen ws) with
      | None => Panic
      | Some w =>
          if negb (is_healthy h w) then enqueue_pass h ws ticket prefer_clear (offset + 1) count packet else
          let k := queue_for_class w (ticket_class ticket) in
          if prefer_clear && is_congested (queues h k)
          then enqueue_pass h ws ticket prefer_clear (offset + 1) count packet else
          match try_send (queues h k) packet with
          | (q, Ok tt) => Ret (set_store_queue h k q, Ok tt)
          | (_, Err packet) => enqueue_pass h ws ticket prefer_clear (offset + 1) count packet
          end
      end
  end.

Definition search_width (h : Store) (ws : list WorkerChannels) (ticket : DispatchTicket) : Z :=
  let primary_healthy :=
    match ws !! Z.to_nat (start_slot ticket) with Some w => is_healthy h w | None => false end in
  if primary_healthy then 1 + Z.min 2 (saturating_sub (zlen ws) 1) else zlen ws.

Definition enqueue_selected_worker (h : Store) (ws : list WorkerChannels) (ticket : DispatchTicket) (packet : PacketBuf)
  : res (Store * result unit PacketBuf) :=
  if zlen ws =? 0 then Ret (h, Err packet) else
  let search := Z.to_nat (search_width h ws ticket) in
  r ← enqueue_pass h ws ticket true 0 search packet;
  match r with
  | (h, Ok tt) => Ret (h, Ok tt)
  | (h, Err packet) => enqueue_pass h ws ticket false 0 search packet
  end.

Definition replace_oldest_in_selected_queue (h : Store) (ws : list WorkerChannels) (ticket : DispatchTicket) (packet : PacketBuf)
  : Store * result unit PacketBuf :=
  if zlen ws =? 0 then (h, Err packet) else
  let key w := queue_for_class w (ticket_class ticket) in
  match min_by_key (fun w => queued (queues h (key w))) (filter (fun w => is_healthy h w = true) ws) with
  | None => (h, Err packet)
  | Some w => let '(q, r) := force_send (queues h (key w)) packet in (set_store_queue h (key w) q, r)
  end.

(** The two attempts that [dispatch_now] and [redispatch] make. *)
Definition place (h : Store) (ws : list WorkerChannels) (ticket : DispatchTicket) (packet : PacketBuf) : res Store :=
  r ← enqueue_selected_worker h ws ticket packet;
  match r with
  | (h, Ok tt) => Ret h
  | (h, Err packet) => Ret (fst (replace_oldest_in_selected_queue h ws ticket packet))
  end.

Definition redispatch (h : Store) (ws : list WorkerChannels) (packet : PacketBuf) : res Store :=
  if zlen ws =? 0 then Ret h else
  wire ← as_slice packet;
  class ← packet_class wire;
  place h ws (mkDispatchTicket 0 class) packet.

Fixpoint redispatch_all (h : Store) (ws : list WorkerChannels) (packets : list PacketBuf) : res Store :=
  match packets with
  | [] => Ret h
  | packet :: packets => h ← redispatch h ws packet; redispatch_all h ws packets
  end.

(** [dispatch_now]; [spare] is what [udp_spare] gives for the packet. *)
Definition dispatch_now (h : Store) (s : FastPathScheduler) (source : list WorkerChannels) (packet : PacketBuf)
  (spare : option PacketBuf) : res (Store * FastPathScheduler) :=
  wire ← as_slice packet;
  begun ← begin s source wire;
  match begun with
  | (s, None) => Ret (h, s)
  | (s, Some ticket) =>
      h ← place h (workers s) ticket packet;
      let n := zlen (workers s) in
      match spare with
      | Some spare =>
          if 1 <? n then
            let alt := mkDispatchTicket ((start_slot ticket + n / 2) mod n) (ticket_class ticket) in
            r ← enqueue_selected_worker h (workers s) alt spare;
            Ret (fst r, s)
          else Ret (h, s)
      | None => Ret (h, s)
      end
  end.
End Store.

(** ** Where a packet goes *)

Section Placement.
Context {Q : Type -> Type} `{ArrayQueue Q}.

(** The queues of the class that healthy workers read are open and active. *)
Definition live (h : @Store Q) (ws : list WorkerChannels) (class : PacketClass) : Prop :=
  Forall (fun w => is_healthy h w = true ->
    is_Some (send_load (queues h (queue_for_class w class))) /\ aq_ok (queue (queues h (queue_for_class w class)))) ws.

(** [packet] is at the end of the queue of the class of one healthy worker, no
    other queue has changed, and the oldest element of that queue has left it
    only if it was full and no healthy worker's queue was shorter. *)
Definition placed (h h' : @Store Q) (ws : list WorkerChannels) (class : PacketClass) (packet : PacketBuf) : Prop :=
  exists w e q kept, w ∈ ws /\ is_healthy h w = true
    /\ let k := queue_for_class w class in
       send_load (queues h k) = Some e /\ h' = set_store_queue h k (set_queue (queues h k) q)
       /\ aq_ok q /\ items q = kept ++ [mkQueued packet e]
       /\ (kept = items (queue (queues h k))
           \/ (kept = drop 1 (items (queue (queues h k)))
              /\ queued (queues h k) = aq_capacity (queue (queues h k))
              /\ forall w', w' ∈ ws -> is_healthy h w' = true ->
                   queued (queues h k) <= queued (queues h (queue_for_class w' class)))).

Lemma ring_lookup (ws : list WorkerChannels) i : zlen ws <> 0 -> exists w, ws !! Z.to_nat (i mod zlen ws) = Some w.
Proof.
  intros Hn. pose proof (zlen_nonneg ws). pose proof (Z.mod_pos_bound i (zlen ws) ltac:(lia)).
  apply lookup_lt_is_Some_2. unfold zlen in *. lia.
Qed.

Lemma enqueue_pass_spec h ws ticket prefer offset count packet :
  zlen ws <> 0 -> live h ws (ticket_class ticket) ->
  exists h' r, enqueue_pass h ws ticket prefer offset count packet = Ret (h', r)
    /\ ((r = Err packet /\ h' = h) \/ (r = Ok tt /\ placed h h' ws (ticket_class ticket) packet)).
Proof.
  intros Hn Hlive. revert offset. induction count as [|count IH]; intros offset; cbn [enqueue_pass].
  { eexists _, _. split; [reflexivity|]. by left. }
  destruct (ring_lookup ws (start_slot ticket + offset) Hn) as [w Hw]. rewrite Hw.
  destruct (is_healthy h w) eqn:Hh; cbn [negb]; [|apply IH]. destruct (_ && _); [apply IH|].
  apply list_elem_of_lookup_2 in Hw.
  destruct (proj1 (Forall_forall _ _) Hlive w Hw Hh) as [[e He] Hq].
  unfold try_send, send_inner, send_push. rewrite He.
  destruct (aq_push_cases (queue (queues h (queue_for_class w (ticket_class ticket)))) (mkQueued packet e) Hq)
    as [[_ ->]|(q' & -> & Hi & _ & Hq')]; [apply IH|].
  eexists _, _. split; [reflexivity|]. right. split; [done|].
  exists w, e, q', (items (queue (queues h (queue_for_class w (ticket_class ticket))))).
  cbv zeta. conjs; try done. by left.
Qed.

Lemma place_placed h ws ticket packet w :
  live h ws (ticket_class ticket) -> w ∈ ws -> is_healthy h w = true ->
  exists h', place h ws ticket packet = Ret h' /\ placed h h' ws (ticket_class ticket) packet.
Proof.
  intros Hlive Hw Hh.
  assert (zlen ws <> 0) as Hn.
  { destruct ws; [by apply not_elem_of_nil in Hw|]. rewrite zlen_cons. pose proof (zlen_nonneg ws). lia. }
  unfold place, enqueue_selected_worker. destruct (Z.eqb_spec (zlen ws) 0); [done|].
  destruct (enqueue_pass_spec h ws ticket true 0 (Z.to_nat (search_width h ws ticket)) packet Hn Hlive)
    as (h1 & r1 & -> & [[-> ->]|[-> Hp]]); rbind; [|by exists h1].
  destruct (enqueue_pass_spec h ws ticket false 0 (Z.to_nat (search_width h ws ticket)) packet Hn Hlive)
    as (h2 & r2 & -> & [[-> ->]|[-> Hp]]); rbind; [|by exists h2].
  eexists. split; [reflexivity|]. unfold replace_oldest_in_selected_queue. destruct (Z.eqb_spec (zlen ws) 0); [done|].
  assert (w ∈ filter (fun w => is_healthy h w = true) ws) as Hin by (by apply list_elem_of_filter).
  destruct (min_by_key _ (filter _ ws)) as [m|] eqn:Hm.
  2:{ apply min_by_key_None in Hm. rewrite Hm in Hin. by apply not_elem_of_nil in Hin. }
  apply min_by_key_Some in Hm as [Hmin Hle]. apply list_elem_of_filter in Hmin as [Hmh Hmw].
  destruct (proj1 (Forall_forall _ _) Hlive m Hmw Hmh) as [[e He] Hq].
  unfold force_send, send_inner, send_push. rewrite He.
  destruct (aq_force_cases (queue (queues h (queue_for_class m (ticket_class ticket)))) (mkQueued packet e) Hq)
    as (out & q & -> & Hq' & _ & Hi & _). simpl.
  exists m, e, q, (if zlen (items (queue (queues h (queue_for_class m (ticket_class ticket)))))
                     =? aq_capacity (queue (queues h (queue_for_class m (ticket_class ticket))))
                   then drop 1 (items (queue (queues h (queue_for_class m (ticket_class ticket)))))
                   else items (queue (queues h (queue_for_class m (ticket_class ticket))))).
  cbv zeta. conjs; try done. destruct (Z.eqb_spec (zlen (items (queue (queues h (queue_for_class m (ticket_class ticket))))))
    (aq_capacity (queue (queues h (queue_for_class m (ticket_class ticket)))))) as [Hfull|]; [right|by left].
  split; [done|]. split; [done|]. intros w' Hw' Hh'. apply Hle. by apply list_elem_of_filter.
Qed.

(** If a worker of the table is healthy, a dispatched packet ends up in
    exactly one queue: at the end of the queue of its class of a healthy
    worker, and of no other. The choice never indexes out of the table, no
    queue exceeds its capacity, and a packet is evicted only from a full queue
    that is no longer than that of any other healthy worker. *)
Lemma place_delivers h ws ticket packet w :
  live h ws (ticket_class ticket) -> w ∈ ws -> is_healthy h w = true ->
  exists h', place h ws ticket packet = Ret h' /\ placed h h' ws (ticket_class ticket) packet.
Proof. apply place_placed. Qed.
End Placement.

(** ** The stripes of the scheduler *)

Fixpoint tickets (s : FastPathScheduler) (count : Z) (classes : list PacketClass) : list (option DispatchTicket) :=
  match classes with
  | [] => []
  | class :: classes => let '(s, t) := begin_for_class s count class in t :: tickets s count classes
  end.

(** The specification: the [k]-th packet of a class goes to worker
    [k / chunk], modulo their number; [sent] counts the packets of each class. *)
Fixpoint stripes (sent : PacketClass -> Z) (count : Z) (classes : list PacketClass) : list (option DispatchTicket) :=
  match classes with
  | [] => []
  | class :: classes =>
      Some (mkDispatchTicket ((sent class / stream_chunk class) mod count) class)
      :: stripes (<[class := sent class + 1]> sent) count classes
  end.

Definition cursor_at (count k : Z) (class : PacketClass) (c : RoundRobinCursor) : Prop :=
  current_worker c = (k / stream_chunk class) mod count
  /\ remaining c = (stream_chunk class - k mod stream_chunk class) mod stream_chunk class.

Lemma stream_chunk_pos class : 0 < stream_chunk class.
Proof. by destruct class. Qed.

Lemma mod_succ q n : 0 < n -> (q + 1) mod n = if q mod n + 1 =? n then 0 else q mod n + 1.
Proof.
  intros Hn. pose proof (Z.mod_pos_bound q n Hn). rewrite <- Z.add_mod_idemp_l by lia.
  destruct (Z.eqb_spec (q mod n + 1) n) as [->|]; [by rewrite Z.mod_same by lia|]. by rewrite Z.mod_small by lia.
Qed.

Lemma chunk_succ k c :
  0 < c -> 0 <= k ->
  let left := (if (c - k mod c) mod c =? 0 then c else (c - k mod c) mod c) - 1 in
  (left =? 0) = ((k + 1) mod c =? 0) /\ (k + 1) / c = k / c + (if left =? 0 then 1 else 0)
  /\ left = (c - (k + 1) mod c) mod c.
Proof.
  intros Hc Hk. pose proof (Z.mod_pos_bound k c Hc). pose proof (Z.div_mod k c ltac:(lia)) as Hd.
  assert ((if (c - k mod c) mod c =? 0 then c else (c - k mod c) mod c) = c - k mod c) as ->.
  { destruct (Z.eq_dec (k mod c) 0) as [E|E].
    - rewrite E, Z.sub_0_r, Z.mod_same by lia. done.
    - rewrite (Z.mod_small (c - k mod c)) by lia. destruct (Z.eqb_spec (c - k mod c) 0); lia. }
  cbv zeta. pose proof (mod_succ k c Hc) as Hs. destruct (Z.eqb_spec (k mod c + 1) c) as [E|E]; rewrite Hs.
  - assert (c - k mod c - 1 = 0) as -> by lia. rewrite Z.sub_0_r, Z.mod_same by lia. split; [done|]. split; [|done].
    symmetry. apply (Z.div_unique_pos (k + 1) c (k / c + 1) 0); lia.
  - rewrite (Z.mod_small (c - (k mod c + 1))) by lia.
    destruct (Z.eqb_spec (c - k mod c - 1) 0); [lia|]. destruct (Z.eqb_spec (k mod c + 1) 0); [lia|].
    split; [done|]. split; [|lia]. rewrite Z.add_0_r. symmetry.
    apply (Z.div_unique_pos (k + 1) c (k / c) (k mod c + 1)); lia.
Qed.

(** With a constant number of workers, the packets of each class are
    striped over them in chunks of the class's size, in turn and without
    skipping one, however the classes are interleaved; every slot is in the
    table. *)
Lemma tickets_striped count classes :
  0 < count ->
  tickets new_scheduler count classes = stripes (fun _ => 0) count classes
  /\ Forall (fun t => exists slot class, t = Some (mkDispatchTicket slot class) /\ 0 <= slot < count)
       (tickets new_scheduler count classes).
Proof.
  intros Hn.
  assert (forall s sent, (forall c, 0 <= sent c) ->
    worker_count (sync_worker_count s count) = count ->
    (forall c, cursor_at count (sent c) c (cursors (sync_worker_count s count) c)) ->
    tickets s count classes = stripes sent count classes) as H.
  { induction classes as [|class classes IH]; intros s sent Hs Hc Hcur; [done|]. cbn [tickets stripes].
    unfold begin_for_class. destruct (Z.eqb_spec count 0); [lia|]. destruct (Hcur class) as [Hcw Hrem].
    set (s1 := sync_worker_count s count) in *. rewrite Hcw, Hrem. f_equal.
    pose proof (chunk_succ (sent class) (stream_chunk class) (stream_chunk_pos class) (Hs class)) as (Hz & Hd & Hl).
    set (left := _ - 1) in *. apply IH.
    - intros c. destruct (decide (class = c)) as [<-|Hne]; [rewrite fn_lookup_insert|by rewrite fn_lookup_insert_ne].
      specialize (Hs class). lia.
    - unfold sync_worker_count. simpl. by rewrite Hc, Z.eqb_refl.
    - unfold sync_worker_count. simpl. rewrite Hc, Z.eqb_refl. simpl. intros c.
      destruct (decide (class = c)) as [<-|Hne].
      + rewrite !fn_lookup_insert. unfold cursor_at. simpl. split; [|done]. rewrite Hd.
        destruct (left =? 0); [by rewrite mod_succ|by rewrite Z.add_0_r].
      + by rewrite !fn_lookup_insert_ne. }
  assert (tickets new_scheduler count classes = stripes (fun _ => 0) count classes) as ->.
  { assert (sync_worker_count new_scheduler count = mkScheduler [] count (fun _ => default_cursor)) as Hsync.
    { unfold sync_worker_count. cbn [worker_count new_scheduler]. by destruct (Z.eqb_spec 0 count); [lia|]. }
    apply H; rewrite ?Hsync; [done|done|]. intros c. unfold cursor_at. cbn [cursors current_worker remaining default_cursor].
    pose proof (stream_chunk_pos c). by rewrite Z.div_0_l, !Z.mod_0_l, Z.sub_0_r, Z.mod_same by lia. }
  split; [done|]. clear H. generalize (fun _ : PacketClass => 0) as sent.
  induction classes as [|class classes IH]; intros sent; [constructor|]. cbn [stripes]. constructor; [|apply IH].
  eexists _, _. split; [reflexivity|]. by apply Z.mod_pos_bound.
Qed.

Lemma tickets_striped_witness :
  tickets new_scheduler 2 (replicate 9 Small) = stripes (fun _ => 0) 2 (replicate 9 Small).
Proof. apply (tickets_striped 2 (replicate 9 Small)). lia. Defined.

(** ** The worker table *)

Lemma group_runs_concat sorted groups : concat (group_runs sorted groups) = concat groups ++ sorted.
Proof.
  revert groups. induction sorted as [|w sorted IH]; intros groups; cbn [group_runs]; [by rewrite app_nil_r|].
  assert (concat (groups ++ [[w]]) ++ sorted = concat groups ++ w :: sorted) as Hnew.
  { rewrite concat_app. simpl. by rewrite <- app_assoc. }
  destruct (last groups) as [[|first group]|] eqn:El; [by rewrite IH, Hnew| |by rewrite IH, Hnew].
  destruct (bytes_eqb _ _); rewrite IH; [|by rewrite Hnew].
  apply last_Some in El as [gs ->]. rewrite length_app, Nat.add_sub, take_app_length, !concat_app. simpl.
  by rewrite !app_nil_r, <- !app_assoc, <- app_comm_cons, <- app_assoc.
Qed.

Lemma length_le_concat {A} (l : list A) ls : l ∈ ls -> (length l <= length (concat ls))%nat.
Proof.
  induction 1 as [|? ? ? _ IH]; simpl; rewrite length_app; lia.
Qed.

(** Once a round adds no worker, no later one does. *)
Lemma round_nil groups offset : round groups offset = [] -> round groups (S offset) = [].
Proof.
  unfold round. induction groups as [|g groups IH]; [done|]. cbn [omap list_omap].
  destruct (g !! offset) eqn:E; [done|]. intros Hr. apply lookup_ge_None in E.
  rewrite (proj2 (lookup_ge_None g (S offset))) by lia. by apply IH.
Qed.

Lemma rounds_concat turns groups offset : rounds turns groups offset = concat (map (round groups) (seq offset turns)).
Proof.
  revert offset. induction turns as [|turns IH]; intros offset; [done|]. cbn [rounds seq map concat].
  destruct (round groups offset) as [|w ws] eqn:E; [|by rewrite IH]. simpl. symmetry.
  assert (forall n k, round groups k = [] -> concat (map (round groups) (seq k n)) = []) as H.
  { intros n. induction n as [|n IHn]; intros k Hk; [done|]. cbn [seq map concat]. rewrite Hk. by apply IHn, round_nil. }
  by apply H, round_nil.
Qed.

Lemma rounds_one_group (g : list WorkerChannels) n :
  (length g <= n)%nat -> concat (map (fun k => option_list (g !! k)) (seq 0 n)) = g.
Proof.
  revert n. induction g as [|w g IH]; intros n Hn.
  - clear Hn. generalize 0%nat as k. induction n as [|n IHn]; intros k; [done|]. simpl. by rewrite IHn.
  - destruct n as [|n]; simpl in *; [lia|]. f_equal. rewrite <- seq_shift, map_map. by apply IH; lia.
Qed.

Lemma rounds_perm groups n :
  Forall (fun g => (length g <= n)%nat) groups -> concat (map (round groups) (seq 0 n)) ≡ₚ concat groups.
Proof.
  induction 1 as [|g groups Hg _ IH].
  - generalize 0%nat as k. induction n as [|n IHn]; intros k; [done|]. cbn [seq map concat]. apply IHn.
  - cbn [concat]. transitivity (concat (map (fun k => option_list (g !! k)) (seq 0 n)) ++ concat (map (round groups) (seq 0 n)));
      [|by rewrite (rounds_one_group g n Hg), IH].
    clear. generalize (seq 0 n) as ks. induction ks as [|k ks IHk]; [done|]. cbn [map concat]. rewrite IHk.
    unfold round. cbn [omap list_omap]. destruct (g !! k); simpl; [constructor|];
      rewrite !app_assoc; f_equiv; by rewrite Permutation_app_comm.
Qed.

Lemma interleave_perm ws : interleave_turn_paths ws ≡ₚ ws.
Proof.
  unfold interleave_turn_paths. set (sorted := merge_sort worker_le ws).
  assert (sorted ≡ₚ ws) as Hp by apply merge_sort_Permutation.
  pose proof (group_runs_concat sorted []) as Hc. simpl in Hc.
  rewrite rounds_concat, rounds_perm, Hc; [done|]. apply Forall_forall. intros g Hg.
  apply length_le_concat in Hg. rewrite Hc in Hg. rewrite (Permutation_length Hp) in Hg. lia.
Qed.

(** Registering a worker replaces the one with its number and keeps every
    other; unregistering removes it only if it is still the same incarnation.
    No worker is lost or doubled by the reordering, so a table without
    duplicate numbers keeps having none. *)
Lemma table_updates ws c :
  NoDup (map id ws) ->
  NoDup (map id (register ws c))
  /\ (forall w, w ∈ register ws c <-> w = c \/ (w ∈ ws /\ id w <> id c))
  /\ forall n i, NoDup (map id (unregister ws n i))
     /\ forall w, w ∈ unregister ws n i <-> w ∈ ws /\ ~ (id w = n /\ incarnation_id w = i).
Proof.
  intros Hd.
  assert (forall P `{forall w : WorkerChannels, Decision (P w)}, NoDup (map id (filter P ws))) as Hf.
  { intros P ?. clear c. induction ws as [|w l IH]; [constructor|]. cbn [map] in Hd. apply NoDup_cons in Hd as [Hn Hd].
    rewrite filter_cons. destruct (decide (P w)); [|by apply IH]. cbn [map]. constructor; [|by apply IH].
    intros Hin. apply Hn. apply list_elem_of_fmap in Hin as (x & Hx & Hin). apply list_elem_of_filter in Hin as [_ Hin].
    apply list_elem_of_fmap. by exists x. }
  split; [|split].
  - unfold register. rewrite (Permutation_map id (interleave_perm _)), map_app. apply NoDup_app. split; [apply Hf|].
    split; [|apply NoDup_singleton]. intros n Hn. apply list_elem_of_fmap in Hn as (w & -> & Hw).
    apply list_elem_of_filter in Hw as [Hw _]. intros Hs%list_elem_of_singleton. by apply Hw.
  - intros w. unfold register. rewrite interleave_perm, elem_of_app, list_elem_of_filter, list_elem_of_singleton. naive_solver.
  - intros n i. unfold unregister. split; [rewrite (Permutation_map id (interleave_perm _)); apply Hf|].
    intros w. rewrite interleave_perm, list_elem_of_filter. split; [intros [[] ?]; naive_solver|].
    intros [Hw Hn]. split; [|done]. destruct (decide (id w = n)), (decide (incarnation_id w = i)); naive_solver.
Qed.

Definition sample_worker (n : Z) (path : bytes) : WorkerChannels := mkWorker n n path 0 1 2 0.

Lemma table_updates_witness :
  NoDup (map id (register [sample_worker 1 [97]; sample_worker 2 [98]] (sample_worker 3 [97]))).
Proof.
  apply (table_updates [sample_worker 1 [97]; sample_worker 2 [98]] (sample_worker 3 [97])).
  simpl. apply NoDup_cons. split; [|apply NoDup_singleton]. intros Hin. apply list_elem_of_singleton in Hin. discriminate Hin.
Defined.

(** Two paths with two workers each alternate. *)
Lemma interleave_example :
  map id (interleave_turn_paths [sample_worker 1 [97]; sample_worker 2 [97]; sample_worker 3 [98]; sample_worker 4 [98]])
  = [1; 3; 2; 4].
Proof. reflexivity. Qed.

(** Two healthy workers with queues of one packet, the first one full. *)
Definition example_store : @Store ListQueue :=
  mkStore (<[0%nat := fst (try_send (packet_channel 1 true) (some_packet 9))]> (fun _ => packet_channel 1 true)) (fun _ => true).
Definition example_table : list WorkerChannels := [mkWorker 1 1 [97] 0 0 0 0; mkWorker 2 1 [98] 1 1 1 1].

Lemma place_delivers_witness :
  exists h', place example_store example_table (mkDispatchTicket 0 Bulk) (some_packet 7) = Ret h'
    /\ placed example_store h' example_table Bulk (some_packet 7).
Proof.
  apply (place_delivers example_store example_table (mkDispatchTicket 0 Bulk) (some_packet 7) (mkWorker 1 1 [97] 0 0 0 0)).
  - assert (forall k, is_Some (send_load (queues example_store k)) /\ aq_ok (queue (queues example_store k))) as Hk.
    { intros [|k]; (split; [by eexists|]); split; vm_compute; try reflexivity; discriminate. }
    repeat (apply List.Forall_cons; [intros _; apply Hk|]). apply List.Forall_nil.
  - left.
  - reflexivity.
Defined.
