(* ===== verification/ReturnPath.v ===== *)
(** * ReturnPath: the two ends of the dispatcher

    Models the rest of [dispatcher.rs]: the framing of outbound packets, the
    spare copies of short datagrams and QUIC handshakes, and the return path:
    the queue a returned packet goes to, the order in which the three queues
    are read, the restoring of each flow's order and the batches written to the
    interface. The clock of a push into the reassembler is an argument. *)

From S2P Require Import Prelude Bytes FlowFrame Scheduler SelectiveFec ArrayQueue PacketPool PacketQueue Dispatcher.

(** ** Outbound framing *)

Definition frame_outbound_packet (sequences : FlowSequencer) (packet : PacketBuf)
  : res (bool * FlowSequencer * PacketBuf) :=
  wire ← as_slice packet;
  next ← FlowFrame.next sequences wire;
  let '(header, sequences) := next in
  match header with
  | None => Ret (true, sequences, packet)
  | Some header =>
      match prepend packet FRAME_LEN with
      | Err _ => Ret (false, sequences, packet)
      | Ok packet =>
          prefix ← slice (storage packet) (range_start packet) (range_start packet + FRAME_LEN);
          encoded ← encode header prefix;
          packet ← write_at packet 0 (snd encoded);
          Ret (fst encoded, sequences, packet)
      end
  end.

(** ** Spare copies *)

Definition QUIC_SPARE_PER_FLOW : Z := 2.
Definition QUIC_SPARE_FLOW_CAP : Z := 256.

Definition ipv4_udp_flow_key (packet : bytes) : res (option Z) :=
  if zlen packet <? 28 then Ret None else
  b0 ← index packet 0;
  if negb (Z.shiftr b0 4 =? 4) then Ret None else
  b9 ← index packet 9;
  if negb (b9 =? 17) then Ret None else
  let ihl := Z.land b0 0x0f * 4 in
  if (ihl <? 20) || (zlen packet <? saturating_add 64 ihl 4) then Ret None else
  src_ip ← slice packet 12 16;
  dst_ip ← slice packet 16 20;
  src_port ← slice packet ihl (ihl + 2);
  dst_port ← slice packet (ihl + 2) (ihl + 4);
  Ret (Some (Z.lxor (Z.lxor (Z.lxor (wrap 64 (Z.shiftl (of_be src_ip) 32)) (wrap 64 (Z.shiftl (of_be dst_ip) 16)))
                       (wrap 64 (Z.shiftl (of_be src_port) 8))) (of_be dst_port))).

Definition map_len (m : gmap Z Z) : Z := Z.of_nat (size m).

(** [quic_initial_spare_allow], with its tracker. *)
Definition quic_initial_spare_allow (tracker : gmap Z Z) (packet : bytes) : res (bool * gmap Z Z) :=
  key ← ipv4_udp_flow_key packet;
  match key with
  | None => Ret (false, tracker)
  | Some key =>
      let count := default 0 (tracker !! key) in
      let map := <[key := count]> tracker in
      if QUIC_SPARE_PER_FLOW <=? count then Ret (false, map) else
      let map := <[key := saturating_add 8 count 1]> map in
      let map :=
        if QUIC_SPARE_FLOW_CAP <? map_len map then
          let map := filter (fun kv => snd kv < QUIC_SPARE_PER_FLOW) map in
          if QUIC_SPARE_FLOW_CAP <? map_len map then {[key := 1]} else map
        else map in
      Ret (true, map)
  end.

(** [udp_spare]; [copy] is what [try_duplicate] of the packet would give. *)
Definition udp_spare (tracker : gmap Z Z) (packet : PacketBuf) (copy : option PacketBuf)
  : res (option PacketBuf * gmap Z Z) :=
  b ← as_slice packet;
  if zlen b <? 20 then Ret (None, tracker) else
  b0 ← index b 0;
  if negb (Z.shiftr b0 4 =? 4) then Ret (None, tracker) else
  b9 ← index b 9;
  if negb (b9 =? 17) then Ret (None, tracker) else
  duplicate ← should_duplicate b;
  if (duplicate : bool) then Ret (copy, tracker) else
  initial ← is_quic_initial_sized b;
  if (initial : bool) then
    allowed ← quic_initial_spare_allow tracker b;
    Ret (if (fst allowed : bool) then copy else None, snd allowed)
  else Ret (None, tracker).

(** ** Returns *)

Section Returns.
Context {Q : Type -> Type} `{ArrayQueue Q}.

(** The three return queues. *)
Record Returns : Type := mkReturns {
  r_latency : @PacketQueue Q;
  r_priority : @PacketQueue Q;
  r_bulk : @PacketQueue Q;
}.

Definition return_queue (s : Returns) (class : PacketClass) : @PacketQueue Q :=
  match class with Small => r_latency s | Medium => r_priority s | Bulk => r_bulk s end.
Definition set_return_queue (s : Returns) (class : PacketClass) (q : @PacketQueue Q) : Returns :=
  match class with
  | Small => mkReturns q (r_priority s) (r_bulk s)
  | Medium => mkReturns (r_latency s) q (r_bulk s)
  | Bulk => mkReturns (r_latency s) (r_priority s) q
  end.

Definition return_packet (s : Returns) (packet : PacketBuf) : res Returns :=
  wire ← as_slice packet;
  class ← packet_class wire;
  Ret (set_return_queue s class (fst (force_send (return_queue s class) packet))).

Definition next_return_packet (s : Returns) : option PacketBuf * Returns :=
  match try_recv (r_latency s) with
  | (Some packet, q) => (Some packet, mkReturns q (r_priority s) (r_bulk s))
  | (None, q1) =>
      match try_recv (r_priority s) with
      | (Some packet, q) => (Some packet, mkReturns q1 q (r_bulk s))
      | (None, q2) =>
          let '(packet, q3) := try_recv (r_bulk s) in (packet, mkReturns q1 q2 q3)
      end
  end.

Record ReturnReorder : Type := mkReorder {
  reassembler : FlowReassembler PacketBuf;
  ready : list PacketBuf;
}.
Definition new_reorder : ReturnReorder := mkReorder new_reassembler [].

Definition reorder_push (now : Z) (r : ReturnReorder) (packet : PacketBuf) : res ReturnReorder :=
  wire ← as_slice packet;
  decoded ← decode wire;
  match decoded with
  | Some (header, _) =>
      match trim_front packet FRAME_LEN with
      | Ok packet =>
          let '(reassembler, ready) := push_at (reassembler r) header packet now (ready r) in
          Ret (mkReorder reassembler ready)
      | Err _ => Ret r
      end
  | None => Ret (mkReorder (reassembler r) (ready r ++ [packet]))
  end.

Definition reorder_pop (r : ReturnReorder) : option (PacketBuf * ReturnReorder) :=
  match ready r with
  | [] => None
  | packet :: ready => Some (packet, mkReorder (reassembler r) ready)
  end.

(** The packets that wait in the three queues. *)
Definition waiting (s : Returns) : nat :=
  (length (items (queue (r_latency s))) + length (items (queue (r_priority s))) + length (items (queue (r_bulk s))))%nat.

(** [next_ordered_return_packet]; [clock] is read at each push. *)
Fixpoint ordered_turns (turns : nat) (clock : nat -> Z) (r : ReturnReorder) (s : Returns)
  : res (option PacketBuf * ReturnReorder * Returns) :=
  match turns with
  | O => Panic
  | S turns =>
      match reorder_pop r with
      | Some (packet, r) => Ret (Some packet, r, s)
      | None =>
          match next_return_packet s with
          | (None, s) => Ret (None, r, s)
          | (Some packet, s) => r ← reorder_push (clock turns) r packet; ordered_turns turns clock r s
          end
      end
  end.
Definition next_ordered_return_packet (clock : nat -> Z) (r : ReturnReorder) (s : Returns) :=
  ordered_turns (S (S (waiting s))) clock r s.

Definition higher_priority_waiting (s : Returns) (first_class : PacketClass) : bool :=
  match first_class with
  | Small => false
  | Medium => has_queued_packet (r_latency s)
  | Bulk => has_queued_packet (r_latency s) || has_queued_packet (r_priority s)
  end.

(** The loop of [write_bridge] and [write_udp] that fills a batch. *)
Fixpoint fill_batch (room : nat) (clock : nat -> Z) (first_class : PacketClass) (batch : list PacketBuf)
  (r : ReturnReorder) (s : Returns) : res (list PacketBuf * ReturnReorder * Returns) :=
  match room with
  | O => Ret (batch, r, s)
  | S room =>
      if higher_priority_waiting s first_class then Ret (batch, r, s) else
      next ← next_ordered_return_packet clock r s;
      match next with
      | (None, r, s) => Ret (batch, r, s)
      | (Some packet, r, s) =>
          wire ← as_slice packet;
          class ← packet_class wire;
          if bool_decide (class = first_class) then fill_batch room clock first_class (batch ++ [packet]) r s
          else Ret (batch, mkReorder (reassembler r) (packet :: ready r), s)
      end
  end.

Definition make_batch (clock : nat -> Z) (packet : PacketBuf) (r : ReturnReorder) (s : Returns)
  : res (list PacketBuf * ReturnReorder * Returns) :=
  wire ← as_slice packet;
  first_class ← packet_class wire;
  fill_batch (Z.to_nat (datagram_batch first_class - 1)) clock first_class [packet] r s.
End Returns.

(** ** A framed packet is unframed as it was *)

(** What a sequencer keeps: 64-bit sender and flow ids, 32-bit sequences. *)
Definition sequencer_ok (s : FlowSequencer) : Prop :=
  is_u 64 (fs_sender_id s) /\ map_Forall (fun _ n => is_u 32 n) (sequences s).

Lemma next_for_ok s flow :
  sequencer_ok s -> is_u 64 flow ->
  header_ok (fst (next_for s flow)) /\ sequencer_ok (snd (next_for s flow)).
Proof.
  intros [Hid Hseq] Hf. unfold next_for.
  set (s1 := if _ && _ then _ else s). assert (sequencer_ok s1) as [Hid1 Hseq1].
  { unfold s1. destruct (_ && _); [|done]. split; [|by apply map_Forall_empty]. simpl.
    pose proof (mix64_u64 (wrapping_add 64 (fs_sender_id s) 0x9e3779b97f4a7c15) ltac:(by apply wrap_is_u)).
    unfold is_u in *. lia. }
  clearbody s1. simpl. assert (is_u 32 (default 0 (sequences s1 !! flow))) as Hn.
  { destruct (sequences s1 !! flow) as [n|] eqn:E; [exact (Hseq1 _ _ E)|unfold is_u; simpl; lia]. }
  split; [done|]. split; [done|]. simpl. apply map_Forall_insert_2; [by apply wrap_is_u|done].
Qed.

Lemma hash_bytes_u64 bs h : is_u 64 h -> is_u 64 (hash_bytes h bs).
Proof.
  unfold hash_bytes. revert h. induction bs as [|x bs IH]; intros h Hh; [done|]. cbn [fold_left]. apply IH. by apply wrap_is_u.
Qed.

Lemma tcp_flow_id_u64 packet flow : tcp_flow_id packet = Ret (Some flow) -> is_u 64 flow.
Proof.
  unfold tcp_flow_id. intros Hf. destruct (head packet); [|done].
  apply bind_ret_inv in Hf as (fields & _ & Hf). destruct fields as [[[[? ?] ?] ?]|]; [|done].
  inv_ret Hf.
  apply mix64_u64. repeat apply hash_bytes_u64. by apply wrap_is_u.
Qed.

(** A packet of a tracked TCP flow that is framed on its way out arrives at
    the other end's reassembler with the header the sequencer gave it and with
    its own bytes; a packet of no such flow is sent as it is. Framing fails
    only without headroom, and never panics. *)
Lemma frame_survives s packet body :
  sequencer_ok s -> buf_ok packet -> as_slice packet = Ret body -> FRAME_LEN <= range_start packet ->
  exists s' q, frame_outbound_packet s packet = Ret (true, s', q) /\ sequencer_ok s' /\ buf_ok q
    /\ match tcp_flow_id body with
       | Ret (Some flow) =>
           as_slice q = Ret (header_bytes (fst (next_for s flow)) ++ body)
           /\ exists q', as_slice q' = Ret body /\ forall now r,
                reorder_push now r q
                = Ret (let '(re, rd) := push_at (reassembler r) (fst (next_for s flow)) q' now (ready r) in mkReorder re rd)
       | _ => q = packet /\ s' = s
       end.
Proof.
  intros Hs Hok Hbody Hroom. unfold frame_outbound_packet. rewrite Hbody. rbind. unfold FlowFrame.next.
  destruct (tcp_flow_id body) as [[flow|]|] eqn:Ef; rbind.
  2:{ by exists s, packet. }
  2:{ destruct (tcp_flow_id_total body) as [x Hx]. congruence. }
  destruct (next_for_ok s flow Hs (tcp_flow_id_u64 _ _ Ef)) as [Hh Hs'].
  destruct (next_for s flow) as [h s'] eqn:En. cbn [fst snd] in *.
  assert (prepend packet FRAME_LEN = Ok (with_range packet (range_start packet - FRAME_LEN) (range_end packet))) as Hpre.
  { unfold prepend. destruct (Z.ltb_spec (range_start packet) FRAME_LEN); [lia|done]. }
  rewrite Hpre. cbn [with_range storage range_start].
  destruct Hok as (Hst & Hr & He).
  destruct (returns_slice (storage packet) (range_start packet - FRAME_LEN) (range_start packet - FRAME_LEN + FRAME_LEN))
    as [prefix Hp]; [unfold PACKET_CAPACITY, FRAME_LEN in *; lia..|].
  rewrite Hp. rbind. apply slice_length in Hp. rewrite encode_spec by lia. rbind. cbn [fst snd].
  assert (drop (Z.to_nat FRAME_LEN) prefix = []) as -> by (apply drop_ge; unfold zlen in Hp; lia).
  rewrite app_nil_r. rewrite <- (zlen_header_bytes h) in Hpre.
  destruct (prepend_write_slice packet (header_bytes h) body _ (conj Hst (conj Hr He)) Hbody Hpre)
    as (q & Hw & Hq & Hsl & q' & Ht & Hsl').
  rewrite zlen_header_bytes in Hw, Ht. unfold with_range in *. rewrite Hw. rbind.
  exists s', q. split; [done|]. split; [done|]. split; [done|]. split; [done|].
  exists q'. split; [done|]. intros now r. unfold reorder_push. rewrite Hsl. rbind.
  rewrite decode_header_bytes by done. rbind. rewrite Ht. by destruct (push_at _ _ _ _ _).
Qed.

(** A pure acknowledgement-free TCP segment with one byte of data. *)
Definition example_segment : bytes :=
  [0x45; 0; 0; 41; 0; 0; 0; 0; 64; 6; 0; 0; 10; 0; 0; 1; 10; 0; 0; 2]
  ++ [0x30; 0x39; 0x01; 0xbb; 0; 0; 0; 0; 0; 0; 0; 0; 0x50; 0x18; 0; 0; 0; 0; 0; 0] ++ [0x2a].
Definition example_outbound : PacketBuf :=
  mkPacketBuf (replicate 64 0 ++ example_segment ++ replicate 2199 0) 64 105.

Lemma frame_survives_witness :
  exists s' q, frame_outbound_packet (with_sender_id 7) example_outbound = Ret (true, s', q) /\ buf_ok q
    /\ exists q', as_slice q' = Ret example_segment /\ forall now r, exists r', reorder_push now r q = Ret r'.
Proof.
  assert (buf_ok example_outbound) as Hok.
  { split; [vm_compute; reflexivity|]. unfold PACKET_CAPACITY. simpl. lia. }
  destruct (frame_survives (with_sender_id 7) example_outbound example_segment) as (s' & q & Hf & _ & Hq & Hm).
  - split; [vm_compute; split; [discriminate|reflexivity]|]. apply map_Forall_empty.
  - exact Hok.
  - vm_compute. reflexivity.
  - unfold FRAME_LEN. simpl. lia.
  - exists s', q. split; [exact Hf|]. split; [exact Hq|].
    destruct (tcp_flow_id example_segment) as [[flow|]|] eqn:E; [|vm_compute in E; discriminate E|vm_compute in E; discriminate E].
    destruct Hm as (_ & q' & Hq' & Hr). exists q'. split; [exact Hq'|]. intros now r. eexists. exact (Hr now r).
Defined.

(** ** Batches for the interface *)

(** A packet in the buffer of a pool. *)
Definition good (p : PacketBuf) : Prop := buf_ok p /\ is_bytes (storage p).

Lemma good_slice p : good p -> exists wire, as_slice p = Ret wire /\ is_bytes wire /\ valid_slice wire.
Proof.
  intros [(Hst & Hs & He) Hb]. destruct (returns_slice (storage p) (range_start p) (range_end p)) as [w Hw]; [lia..|].
  exists w. split; [done|]. split; [by eapply slice_bytes|].
  apply slice_length in Hw. unfold valid_slice, isize_max, PACKET_CAPACITY in *. lia.
Qed.

Lemma decode_sequence w h rest : is_bytes w -> decode w = Ret (Some (h, rest)) -> is_u 32 (sequence h).
Proof.
  unfold decode. intros Hb Hd. destruct (zlen w <? FRAME_LEN); [done|].
  apply bind_ret_inv in Hd as (m & _ & Hd). destruct (negb _); [done|].
  apply bind_ret_inv in Hd as (a & _ & Hd). apply bind_ret_inv in Hd as (b & _ & Hd).
  apply bind_ret_inv in Hd as (c & Hc & Hd). apply bind_ret_inv in Hd as (d & _ & Hd). injection Hd as <- _. simpl.
  pose proof (of_be_bound c (slice_bytes _ _ _ _ Hb Hc)) as Hbd. apply slice_length in Hc. rewrite Hc in Hbd. exact Hbd.
Qed.

Lemma trim_good p n q : good p -> 0 <= n -> trim_front p n = Ok q -> good q.
Proof.
  intros [(Hst & Hs & He) Hb] Hn. unfold trim_front, len. destruct (Z.ltb_spec (Z.max (range_end p - range_start p) 0) n); [done|].
  intros [= <-]. split; [|done]. unfold buf_ok, with_range. simpl. lia.
Qed.

Section Batches.
Context {Q : Type -> Type} `{ArrayQueue Q}.

Definition queue_good (s : @PacketQueue Q) : Prop :=
  aq_ok (queue s) /\ Forall (fun x => good (packet x)) (items (queue s)).

Lemma recv_turns_spec turns s :
  queue_good s ->
  let '(o, s') := recv_turns turns s in
  queue_good s' /\ (length (items (queue s')) <= length (items (queue s)))%nat
  /\ forall p, o = Some p -> good p /\ (length (items (queue s')) < length (items (queue s)))%nat.
Proof.
  revert s. induction turns as [|turns IH]; intros s Hs; cbn [recv_turns]; [done|].
  destruct Hs as [Hq Hall]. destruct (aq_pop_cases (queue s) Hq) as [[_ ->]|(x & q & -> & Hi & _ & Hq')]; [by split|].
  rewrite Hi in Hall |- *. apply Forall_cons in Hall as [Hx Hall].
  assert (queue_good (set_queue s q)) as Hs' by done. destruct (deliverable s x).
  - split; [done|]. simpl. split; [lia|]. intros p [= <-]. split; [done|lia].
  - specialize (IH (set_queue s q) Hs'). destruct (recv_turns turns (set_queue s q)) as [o s'].
    destruct IH as (Hg & Hl & Hp). simpl in *. split; [done|]. split; [lia|]. intros p Ho. destruct (Hp p Ho). split; [done|lia].
Qed.

Definition returns_good (s : @Returns Q) : Prop :=
  queue_good (r_latency s) /\ queue_good (r_priority s) /\ queue_good (r_bulk s).

Lemma next_return_spec s :
  returns_good s ->
  let '(o, s') := next_return_packet s in
  returns_good s' /\ (waiting s' <= waiting s)%nat
  /\ forall p, o = Some p -> good p /\ (waiting s' < waiting s)%nat.
Proof.
  intros (H1 & H2 & H3). unfold next_return_packet, try_recv.
  pose proof (recv_turns_spec (S (length (items (queue (r_latency s))))) _ H1) as Hl.
  destruct (recv_turns _ (r_latency s)) as [[p|] q1]; destruct Hl as (Hg1 & Hl1 & Hp1).
  { destruct (Hp1 p eq_refl). split; [done|]. unfold waiting. simpl. split; [lia|]. intros ? [= <-]. split; [done|lia]. }
  pose proof (recv_turns_spec (S (length (items (queue (r_priority s))))) _ H2) as Hl.
  destruct (recv_turns _ (r_priority s)) as [[p|] q2]; destruct Hl as (Hg2 & Hl2 & Hp2).
  { destruct (Hp2 p eq_refl). split; [done|]. unfold waiting. simpl. split; [lia|]. intros ? [= <-]. split; [done|lia]. }
  pose proof (recv_turns_spec (S (length (items (queue (r_bulk s))))) _ H3) as Hl.
  destruct (recv_turns _ (r_bulk s)) as [o q3]; destruct Hl as (Hg3 & Hl3 & Hp3).
  split; [done|]. unfold waiting. simpl. split; [lia|]. intros p Ho. destruct (Hp3 p Ho). split; [done|lia].
Qed.

Definition reorder_good (r : ReturnReorder) : Prop :=
  Forall good (ready r) /\ reassembler_wf (reassembler r)
  /\ map_Forall (fun _ st => Forall (fun x => good (p_value x)) (pending st)) (flows (reassembler r)).

Lemma new_reorder_good : reorder_good new_reorder.
Proof. split; [constructor|]. split; [apply new_reassembler_wf|]. apply map_Forall_empty. Qed.

Lemma reorder_push_good now r p : reorder_good r -> good p -> exists r', reorder_push now r p = Ret r' /\ reorder_good r'.
Proof.
  intros (Hr & Hwf & Hall) Hp. unfold reorder_push. destruct (good_slice p Hp) as (wire & -> & Hb & _). rbind.
  destruct (frame_decode_total wire) as [d Hd]. rewrite Hd. rbind. destruct d as [[h rest]|].
  2:{ eexists. split; [reflexivity|]. split; [|done]. apply Forall_app. split; [done|by apply Forall_singleton]. }
  destruct (trim_front p FRAME_LEN) as [q|] eqn:Et; [|by eexists].
  pose proof (trim_good p FRAME_LEN q Hp ltac:(unfold FRAME_LEN; lia) Et) as Hq.
  pose proof (decode_sequence wire h rest Hb Hd) as Hs.
  destruct (push_at (reassembler r) h q now (ready r)) as [re rd] eqn:E. eexists. split; [reflexivity|].
  pose proof (push_keeps_wf (reassembler r) h q now (ready r) Hwf Hs) as Hwf'. rewrite E in Hwf'. simpl in Hwf'.
  apply push_at_spec in E as (st & total & -> & (rp & -> & Hperm & _) & _); [|done..].
  set (key := mkReassemblyKey _ _) in *.
  assert (map_Forall (fun _ st => Forall (fun x => good (p_value x)) (pending st)) (flows (make_flow_room (reassembler r) key))) as Hroom.
  { unfold make_flow_room. destruct (_ && _); [apply map_Forall_empty|done]. }
  assert (Forall (fun x => good (p_value x)) (rp ++ pending st)) as Hg.
  { rewrite <- Hperm. assert (Forall (fun x => good (p_value x)) (pending (default empty_state (flows (make_flow_room (reassembler r) key) !! key)))) as Hold.
    { destruct (flows _ !! key) as [st0|] eqn:El; [exact (Hroom _ _ El)|constructor]. }
    destruct (accepts _ _); [by constructor|done]. }
  apply Forall_app in Hg as [Hg1 Hg2]. split; [|split; [done|]]; simpl.
  - apply Forall_app. split; [done|]. by apply Forall_fmap.
  - by apply map_Forall_insert_2.
Qed.

Lemma ordered_turns_good turns clock r s :
  (S (waiting s) < turns)%nat -> reorder_good r -> returns_good s ->
  exists o r' s', ordered_turns turns clock r s = Ret (o, r', s') /\ reorder_good r' /\ returns_good s'
    /\ forall p, o = Some p -> good p.
Proof.
  revert r s. induction turns as [|turns IH]; intros r s Ht Hr Hs; [lia|]. cbn [ordered_turns].
  unfold reorder_pop. destruct (ready r) as [|p rest] eqn:Er.
  - pose proof (next_return_spec s Hs) as Hn. destruct (next_return_packet s) as [[p|] s1]; destruct Hn as (Hs1 & Hle & Hp).
    + destruct (Hp p eq_refl) as [Hg Hlt]. destruct (reorder_push_good (clock turns) r p Hr Hg) as (r1 & -> & Hr1). rbind.
      apply IH; [lia|done..].
    + by eexists _, _, _.
  - destruct Hr as (Hall & Hwf & Hm). rewrite Er in Hall. apply Forall_cons in Hall as [Hp Hall].
    eexists _, _, _. split; [reflexivity|]. split; [done|]. split; [done|]. by intros ? [= <-].
Qed.

Definition of_class (class : PacketClass) (p : PacketBuf) : Prop :=
  exists wire, as_slice p = Ret wire /\ packet_class wire = Ret class.

Lemma fill_batch_good room clock class batch r s :
  reorder_good r -> returns_good s -> Forall (of_class class) batch ->
  exists batch' r' s', fill_batch room clock class batch r s = Ret (batch', r', s')
    /\ reorder_good r' /\ returns_good s' /\ Forall (of_class class) batch'
    /\ (length batch' <= length batch + room)%nat /\ exists more, batch' = batch ++ more.
Proof.
  revert batch r s. induction room as [|room IH]; intros batch r s Hr Hs Hb; cbn [fill_batch].
  { eexists _, _, _. split; [reflexivity|]. conjs; try done; [lia|]. exists []. by rewrite app_nil_r. }
  assert (exists more, batch = batch ++ more) as Hsame by (exists []; by rewrite app_nil_r).
  destruct (higher_priority_waiting s class).
  { eexists _, _, _. split; [reflexivity|]. conjs; try done. lia. }
  unfold next_ordered_return_packet.
  destruct (ordered_turns_good (S (S (waiting s))) clock r s) as (o & r1 & s1 & -> & Hr1 & Hs1 & Hp); [lia|done..|]. rbind.
  destruct o as [p|]; [|eexists _, _, _; split; [reflexivity|]; conjs; try done; lia].
  specialize (Hp p eq_refl). destruct (good_slice p Hp) as (wire & Hw & _ & Hv). rewrite Hw. rbind.
  destruct (packet_class_total wire Hv) as [c Hc]. rewrite Hc. rbind. case_bool_decide as E.
  - subst c. destruct (IH (batch ++ [p]) r1 s1 Hr1 Hs1) as (batch' & r' & s' & -> & ? & ? & ? & Hl & more & ->).
    { apply Forall_app. split; [done|]. apply Forall_singleton. by exists wire. }
    eexists _, _, _. split; [reflexivity|]. rewrite !length_app in *. simpl in *. conjs; try done; [lia|].
    exists ([p] ++ more). by rewrite app_assoc.
  - eexists _, _, _. split; [reflexivity|]. destruct Hr1 as (Hrd & Hrest). conjs; try done; [|lia].
    split; [|done]. simpl. by constructor.
Qed.

(** The writer's batch: filling it ends and never panics, starts with the
    packet at hand, holds at most the batch size of its class, and only packets
    of that class, and the queues and the reassembler stay well formed. *)
Lemma make_batch_ok clock p r s :
  good p -> reorder_good r -> returns_good s ->
  exists batch r' s' class, make_batch clock p r s = Ret (batch, r', s')
    /\ reorder_good r' /\ returns_good s'
    /\ head batch = Some p /\ Forall (of_class class) batch /\ zlen batch <= datagram_batch class.
Proof.
  intros Hp Hr Hs. unfold make_batch. destruct (good_slice p Hp) as (wire & Hw & _ & Hv). rewrite Hw. rbind.
  destruct (packet_class_total wire Hv) as [c Hc]. rewrite Hc. rbind.
  destruct (fill_batch_good (Z.to_nat (datagram_batch c - 1)) clock c [p] r s Hr Hs)
    as (batch & r' & s' & -> & ? & ? & ? & Hl & more & ->).
  { apply Forall_singleton. by exists wire. }
  eexists _, _, _, c. split; [reflexivity|]. conjs; try done. unfold zlen.
  rewrite !length_app in *. simpl length in *. destruct c; unfold datagram_batch, SMALL_DATAGRAM_BATCH, MEDIUM_DATAGRAM_BATCH, BULK_DATAGRAM_BATCH in *; lia.
Qed.
End Batches.

(** A packet at hand and three empty queues. *)
Definition idle_returns : @Returns ListQueue :=
  mkReturns (packet_channel 4 true) (packet_channel 4 true) (packet_channel 4 true).

Lemma example_good : good example_outbound.
Proof.
  split; [split; [vm_compute; reflexivity|unfold PACKET_CAPACITY; simpl; lia]|].
  apply Forall_app; split; [|apply Forall_app; split]; try (apply Forall_replicate; change (0 <= 0 < 256); lia).
  unfold example_segment. repeat (apply List.Forall_cons; [split; [discriminate|reflexivity]|]). apply Forall_nil_2.
Qed.

Lemma idle_returns_good : returns_good idle_returns.
Proof.
  assert (queue_good (@packet_channel ListQueue _ 4 true)) as Hq by (split; [split; [reflexivity|discriminate]|apply Forall_nil_2]).
  split; [exact Hq|split; exact Hq].
Qed.

Lemma make_batch_ok_witness :
  exists batch r' s', make_batch (fun _ => 0) example_outbound new_reorder idle_returns = Ret (batch, r', s')
    /\ head batch = Some example_outbound.
Proof.
  destruct (make_batch_ok (fun _ => 0) example_outbound new_reorder idle_returns)
    as (batch & r' & s' & class & Hm & _ & _ & Hh & _).
  - exact example_good.
  - exact new_reorder_good.
  - exact idle_returns_good.
  - exists batch, r', s'. split; [exact Hm|exact Hh].
Defined.
