(* ===== verification/Ciphers.v ===== *)
(** * Ciphers: the interface of the cipher crates

    AES-128 in counter mode ([aes], [ctr]) and ChaCha20-Poly1305 ([aws_lc_rs])
    are not part of the repository. [Obfs] is stated over this class: the
    keystream of the one, sealing and opening of the other, and what their
    documentation promises: the widths, and that opening with a tag gives a
    plaintext exactly when sealing that plaintext gives the tag. *)

From S2P Require Import Prelude Bytes Digests StunCodec TurnMessage.

Class Ciphers : Type := {
  aes_ctr : bytes -> bytes -> nat -> bytes;
  seal : bytes -> bytes -> bytes -> bytes -> bytes * bytes;
  open : bytes -> bytes -> bytes -> bytes -> bytes -> option bytes;
  aes_ctr_length key iv n : length (aes_ctr key iv n) = n;
  seal_length key nonce aad p : zlen (fst (seal key nonce aad p)) = zlen p;
  seal_tag key nonce aad p : zlen (snd (seal key nonce aad p)) = 16;
  open_iff key nonce aad c t p : open key nonce aad c t = Some p <-> seal key nonce aad p = (c, t);
}.

(** A constant keystream and a checksum, used to instantiate the class. *)
Definition toy_stream (n : nat) : bytes := replicate n 0x5a.
Definition toy_tag (key nonce aad c : bytes) : bytes := to_be 16 (checksum 128 (key ++ nonce ++ aad ++ c)).
Definition toy_seal (key nonce aad p : bytes) : bytes * bytes :=
  let c := xor_bytes p (toy_stream (length p)) in (c, toy_tag key nonce aad c).
Definition toy_open (key nonce aad c t : bytes) : option bytes :=
  if bytes_eqb t (toy_tag key nonce aad c) then Some (xor_bytes c (toy_stream (length c))) else None.

Lemma length_xor_stream p : length (xor_bytes p (toy_stream (length p))) = length p.
Proof.
  pose proof (zlen_xor_bytes p (toy_stream (length p))) as H. unfold zlen, toy_stream in *.
  rewrite length_replicate in H. specialize (H (Nat.le_refl _)). lia.
Qed.

Lemma toy_stream_twice p : xor_bytes (xor_bytes p (toy_stream (length p))) (toy_stream (length p)) = p.
Proof. apply xor_bytes_twice. unfold toy_stream. by rewrite length_replicate. Qed.

Lemma toy_open_iff key nonce aad c t p : toy_open key nonce aad c t = Some p <-> toy_seal key nonce aad p = (c, t).
Proof.
  unfold toy_open, toy_seal. destruct (bytes_eqb t (toy_tag key nonce aad c)) eqn:E.
  - apply bytes_eqb_eq in E as ->. split; intros [= <-].
    + by rewrite length_xor_stream, toy_stream_twice.
    + by rewrite length_xor_stream, toy_stream_twice.
  - apply bytes_eqb_neq in E. split; [done|]. intros [= <- <-]. done.
Qed.

#[export] Instance toy_ciphers : Ciphers.
Proof.
  refine {| aes_ctr := fun _ _ => toy_stream; seal := toy_seal; open := toy_open |}.
  - intros _ _ n. apply length_replicate.
  - intros key nonce aad p. unfold zlen. simpl. by rewrite length_xor_stream.
  - intros key nonce aad p. apply zlen_to_be.
  - exact toy_open_iff.
Defined.
