(* ===== verification/Obfs.v ===== *)
(** * Obfs: packets disguised as RTP

    Models [obfs.rs] and [authenticate_inbound] of [session.rs]: a packet is
    encrypted in place and given an RTP header and padding, in the audio mode
    under ChaCha20-Poly1305, in the video mode as SRTP with AES-CTR and a
    truncated HMAC. The random draws and the time elapsed since the state was
    made are arguments. *)

From S2P Require Import Prelude Bytes PacketPool Digests StunCodec TurnMessage Ciphers Replay.

Definition WRAP_KEY_LEN : Z := 32.

Inductive ObfsMode : Type := Audio | Video.

Inductive ObfsError : Type :=
| EmptyPayload | ExceedsCapacity | Buffer (e : PacketError)
| NotRtp | UnsupportedPayloadType | ShortExtension | ShortHeader
| MissingTag | AuthenticationFailed | InvalidPadding | ExpectedAudio | MissingPayload.

Record ObfsConfig : Type := mkConfig {
  padding_max : Z;
  ssrc : Z;
  payload_type : Z;
  mode : ObfsMode;
}.

(** [ObfsConfig::new]; the ssrc is drawn. *)
Definition new_config (m : ObfsMode) (random_ssrc : Z) : ObfsConfig :=
  let '(payload_type, padding_max) := match m with Audio => (111, 24) | Video => (96, 60) end in
  mkConfig padding_max random_ssrc payload_type m.

Record ObfsState : Type := mkState {
  count : Z;
  initial_timestamp : Z;
  initial_abs_send_time : Z;
  initial_sequence : Z;
  transport_sequence : Z;
}.

(** [ObfsState::new]; [wall_ms] is the time of day, the rest is drawn. *)
Definition new_obfs_state (wall_ms timestamp sequence transport : Z) : ObfsState :=
  mkState 0 (wrap 32 timestamp) (Z.land (wrap 32 (wall_ms * 262144 / 1000)) 0x00ffffff)
    (wrap 16 (wrap 32 sequence)) (wrap 16 (wrap 32 transport)).

Definition obfs_next (s : ObfsState) : Z * Z * ObfsState :=
  (count s, transport_sequence s,
   mkState (wrapping_add 64 (count s) 1) (initial_timestamp s) (initial_abs_send_time s) (initial_sequence s)
     (wrapping_add 16 (transport_sequence s) 1)).

Record ObfsCipher : Type := mkCipher { aes_key : bytes; hmac_key : bytes; chacha_key : bytes }.
Definition new_cipher (key : bytes) : ObfsCipher := mkCipher (take 16 key) (drop 16 key) key.

(** What one call of [wrap] draws: the nanoseconds elapsed, the two
    [random_range], and the bytes of the padding. *)
Record Draw : Type := mkDraw { elapsed : Z; draw_padding : Z; draw_marker : Z; draw_fill : bytes }.

Definition rtp_clock_rate (payload_type : Z) : Z := if payload_type =? 96 then 90000 else 48000.

Definition duration_ticks (elapsed clock_rate : Z) : Z :=
  wrap 32 (wrapping_add 64 (wrapping_mul 64 (elapsed / 1000000000) clock_rate)
             (wrapping_mul 64 (elapsed mod 1000000000) clock_rate / 1000000000)).

Definition config_sequence (s : ObfsState) (count : Z) : Z := wrapping_add 16 (initial_sequence s) (wrap 16 count).

Definition nonce (ssrc sequence timestamp : Z) : bytes :=
  to_be 4 ssrc ++ to_be 2 sequence ++ [0; 0] ++ to_be 4 timestamp.
Definition srtp_iv (ssrc sequence timestamp : Z) : bytes :=
  to_be 4 ssrc ++ to_be 2 sequence ++ [0; 0] ++ to_be 4 timestamp ++ [0; 0; 0; 0].

(** The bytes that [wrap] needs behind the payload. *)
Definition tail_len (config : ObfsConfig) (draw : Draw) : Z :=
  match mode config with Video => draw_padding draw + 1 + 10 | Audio => draw_padding draw + 1 + 16 end.

(** The 24 bytes that [wrap] writes in front of the payload. *)
Definition wrap_header (config : ObfsConfig) (draw_marker sequence timestamp absolute_send_time transport : Z) : bytes :=
  let second := Z.land (payload_type config) 0x7f in
  let second := if (payload_type config =? 96) && (draw_marker =? 0) then Z.lor second 0x80 else second in
  [Z.lor 0xb0 0x20; second] ++ to_be 2 sequence ++ to_be 4 timestamp ++ to_be 4 (ssrc config)
  ++ to_be 2 0xbede ++ to_be 2 2
  ++ [0x32; wrap 8 (Z.shiftr absolute_send_time 16); wrap 8 (Z.shiftr absolute_send_time 8); wrap 8 absolute_send_time; 0x51]
  ++ to_be 2 transport ++ [0].

(** [Mac::verify_truncated_left] *)
Definition verify_truncated_left (mac tag : bytes) : bool :=
  negb (zlen tag =? 0) && (zlen tag <=? zlen mac) && bytes_eqb (take (length tag) mac) tag.

(** Subtraction on [usize], which must not go below zero. *)
Definition usub (a b : Z) : res Z := if b <=? a then Ret (a - b) else Panic.

Section Cipher.
Context `{Digests} `{Ciphers}.

(** The two ways to protect the payload of a packet whose header is written. *)
Definition wrap_video (c : ObfsCipher) (config : ObfsConfig) (draw : Draw) (sequence timestamp payload_len : Z)
  (packet : PacketBuf) : res (result PacketBuf ObfsError) :=
  let padding_total := draw_padding draw + 1 in
  let range_start_ := range_start packet in
  let payload_start := range_start_ + 24 in
  let payload_end := payload_start + payload_len in
  match extend_tail packet (padding_total + 10) with
  | Err e => Ret (Err (Buffer e))
  | Ok packet =>
      let iv := srtp_iv (ssrc config) sequence timestamp in
      plain ← slice (storage packet) payload_start payload_end;
      st ← blit (storage packet) payload_start (xor_bytes plain (aes_ctr (aes_key c) iv (length plain)));
      st ← blit st payload_end (draw_fill draw);
      st ← blit st (payload_end + padding_total - 1) [wrap 8 padding_total];
      let tag_start := payload_end + padding_total in
      signed ← slice st range_start_ tag_start;
      st ← blit st tag_start (take 10 (hmac_sha1 (hmac_key c) signed));
      Ret (Ok (mkPacketBuf st (range_start packet) (range_end packet)))
  end.

Definition wrap_audio (c : ObfsCipher) (config : ObfsConfig) (draw : Draw) (sequence timestamp payload_len : Z)
  (packet : PacketBuf) : res (result PacketBuf ObfsError) :=
  let padding_total := draw_padding draw + 1 in
  let range_start_ := range_start packet in
  let payload_start := range_start_ + 24 in
  let payload_end := payload_start + payload_len in
  match extend_tail packet (16 + padding_total) with
  | Err e => Ret (Err (Buffer e))
  | Ok packet =>
      aad ← slice (storage packet) range_start_ payload_start;
      plain ← slice (storage packet) payload_start payload_end;
      let '(sealed, tag) := seal (chacha_key c) (nonce (ssrc config) sequence timestamp) aad plain in
      st ← blit (storage packet) payload_start sealed;
      st ← blit st payload_end tag;
      let padding_start := payload_end + 16 in
      st ← blit st padding_start (draw_fill draw);
      st ← blit st (padding_start + padding_total - 1) [wrap 8 padding_total];
      Ret (Ok (mkPacketBuf st (range_start packet) (range_end packet)))
  end.

(** [ObfsCipher::wrap]; the state moves on even when the packet is refused. *)
Definition wrap_packet (c : ObfsCipher) (config : ObfsConfig) (state : ObfsState) (draw : Draw) (packet : PacketBuf)
  : res (result PacketBuf ObfsError * ObfsState) :=
  if is_empty packet then Ret (Err EmptyPayload, state) else
  let payload_len := len packet in
  let '(count, transport, state) := obfs_next state in
  let sequence := config_sequence state count in
  let timestamp :=
    wrapping_add 32 (initial_timestamp state) (duration_ticks (elapsed draw) (rtp_clock_rate (payload_type config))) in
  let tail := tail_len config draw in
  let fits := match checked_add 64 (range_end packet) tail with None => false | Some e => e <=? PACKET_CAPACITY end in
  if (range_start packet <? 24) || negb fits then Ret (Err ExceedsCapacity, state) else
  let absolute_send_time :=
    Z.land (wrapping_add 32 (initial_abs_send_time state) (duration_ticks (elapsed draw) 262144)) 0x00ffffff in
  match prepend packet 24 with
  | Err e => Ret (Err (Buffer e), state)
  | Ok packet =>
      packet ← write_at packet 0 (wrap_header config (draw_marker draw) sequence timestamp absolute_send_time transport);
      wrapped ← match mode config with
                | Video => wrap_video c config draw sequence timestamp payload_len packet
                | Audio => wrap_audio c config draw sequence timestamp payload_len packet
                end;
      Ret (wrapped, state)
  end.

Definition supported (payload_type : Z) : bool := (payload_type =? 111) || (payload_type =? 96) || (payload_type =? 6).

Record Fields : Type := mkFields { f_type : Z; f_sequence : Z; f_timestamp : Z; f_ssrc : Z; f_header_len : Z }.

(** The first part of [unwrap], which reads the RTP header. *)
Definition unwrap_header (wire : bytes) : res (result Fields ObfsError) :=
  if zlen wire <? 13 then Ret (Err NotRtp) else
  b0 ← index wire 0;
  if negb (Z.shiftr b0 6 =? 2) then Ret (Err NotRtp) else
  b1 ← index wire 1;
  let payload_type := Z.land b1 0x7f in
  if negb (supported payload_type) then Ret (Err UnsupportedPayloadType) else
  s ← slice wire 2 4;
  t ← slice wire 4 8;
  r ← slice wire 8 12;
  let fields header_len := mkFields payload_type (of_be s) (of_be t) (of_be r) header_len in
  if negb (Z.land b0 0x10 =? 0) then
    if zlen wire <? 16 then Ret (Err ShortExtension) else
    w ← slice wire 14 16;
    let header_len := 12 + (4 + of_be w * 4) in
    if zlen wire <? header_len then Ret (Err ShortHeader) else Ret (Ok (fields header_len))
  else if zlen wire <? 12 then Ret (Err ShortHeader) else Ret (Ok (fields 12)).

(** The padding that ends at [payload_end], whose last byte is its length. *)
Definition strip_padding (st : bytes) (start header_len payload_end : Z) : res (result Z ObfsError) :=
  b0 ← index st start;
  if negb (Z.land b0 0x20 =? 0) then
    last ← usub payload_end 1;
    padding ← index st last;
    if padding =? 0 then Ret (Err InvalidPadding) else
    room ← usub payload_end start;
    room ← usub room header_len;
    if room <? padding then Ret (Err InvalidPadding) else
    payload_end ← usub payload_end padding;
    Ret (Ok payload_end)
  else Ret (Ok payload_end).

Definition unwrap_video (c : ObfsCipher) (f : Fields) (packet : PacketBuf) : res (result (Z * PacketBuf) ObfsError) :=
  let st := storage packet in
  let start := range_start packet in
  if len packet <? f_header_len f + 10 then Ret (Err MissingTag) else
  tag_start ← usub (range_end packet) 10;
  signed ← slice st start tag_start;
  tag ← slice st tag_start (range_end packet);
  if negb (verify_truncated_left (hmac_sha1 (hmac_key c) signed) tag) then Ret (Err AuthenticationFailed) else
  stripped ← strip_padding st start (f_header_len f) tag_start;
  match stripped with
  | Err e => Ret (Err e)
  | Ok payload_end =>
      let payload_start := start + f_header_len f in
      sealed ← slice st payload_start payload_end;
      let iv := srtp_iv (f_ssrc f) (f_sequence f) (f_timestamp f) in
      st ← blit st payload_start (xor_bytes sealed (aes_ctr (aes_key c) iv (length sealed)));
      match set_range (mkPacketBuf st start (range_end packet)) payload_start payload_end with
      | Err e => Ret (Err (Buffer e))
      | Ok packet => Ret (Ok (f_sequence f, packet))
      end
  end.

Definition unwrap_audio (c : ObfsCipher) (f : Fields) (packet : PacketBuf) : res (result (Z * PacketBuf) ObfsError) :=
  let st := storage packet in
  let start := range_start packet in
  if negb (f_type f =? 111) then Ret (Err ExpectedAudio) else
  stripped ← strip_padding st start (f_header_len f) (range_end packet);
  match stripped with
  | Err e => Ret (Err e)
  | Ok payload_end =>
      let payload_start := start + f_header_len f in
      if payload_end <=? payload_start + 16 then Ret (Err MissingPayload) else
      tag_start ← usub payload_end 16;
      tag ← slice st tag_start payload_end;
      aad ← slice st start payload_start;
      sealed ← slice st payload_start tag_start;
      match open (chacha_key c) (nonce (f_ssrc f) (f_sequence f) (f_timestamp f)) aad sealed tag with
      | None => Ret (Err AuthenticationFailed)
      | Some plain =>
          st ← blit st payload_start plain;
          match set_range (mkPacketBuf st start (range_end packet)) payload_start tag_start with
          | Err e => Ret (Err (Buffer e))
          | Ok packet => Ret (Ok (f_sequence f, packet))
          end
      end
  end.

(** [ObfsCipher::unwrap]; a packet that is refused is dropped by the caller. *)
Definition unwrap_packet (c : ObfsCipher) (m : ObfsMode) (packet : PacketBuf) : res (result (Z * PacketBuf) ObfsError) :=
  wire ← as_slice packet;
  header ← unwrap_header wire;
  match header with
  | Err e => Ret (Err e)
  | Ok f => match m with Video => unwrap_video c f packet | Audio => unwrap_audio c f packet end
  end.

Definition is_rtp_packet (wire : bytes) : res bool :=
  if zlen wire <? 13 then Ret false else
  b0 ← index wire 0;
  if negb (Z.shiftr b0 6 =? 2) then Ret false else
  b1 ← index wire 1;
  Ret (supported (Z.land b1 0x7f)).

(** [authenticate_inbound] of [session.rs]. *)
Definition authenticate_inbound (c : ObfsCipher) (config : ObfsConfig) (replay : ReplayWindow) (packet : PacketBuf)
  : res (option PacketBuf * ReplayWindow) :=
  wire ← as_slice packet;
  rtp ← is_rtp_packet wire;
  if negb rtp then Ret (None, replay) else
  unwrapped ← unwrap_packet c (mode config) packet;
  match unwrapped with
  | Err _ => Ret (None, replay)
  | Ok (sequence, packet) =>
      let '(accepted, replay) := accept_rtp replay sequence in
      Ret (if accepted then Some packet else None, replay)
  end.
End Cipher.

(** ** The packets that carry a payload *)

(** An RTP header, and its header extension. *)
Record Rtp : Type := mkRtp {
  first : Z;
  second : Z;
  rtp_sequence : Z;
  rtp_timestamp : Z;
  rtp_ssrc : Z;
  extension : option (bytes * bytes);
}.

Definition extension_bytes (e : option (bytes * bytes)) : bytes :=
  match e with None => [] | Some (profile, words) => profile ++ to_be 2 (zlen words / 4) ++ words end.

Definition rtp_bytes (h : Rtp) : bytes :=
  [first h; second h] ++ to_be 2 (rtp_sequence h) ++ to_be 4 (rtp_timestamp h) ++ to_be 4 (rtp_ssrc h)
  ++ extension_bytes (extension h).

Definition rtp_ok (h : Rtp) : Prop :=
  Z.shiftr (first h) 6 = 2 /\ supported (Z.land (second h) 0x7f) = true
  /\ is_u 16 (rtp_sequence h) /\ is_u 32 (rtp_timestamp h) /\ is_u 32 (rtp_ssrc h)
  /\ match extension h with
     | None => Z.land (first h) 0x10 = 0
     | Some (profile, words) =>
         Z.land (first h) 0x10 <> 0 /\ zlen profile = 2 /\ zlen words mod 4 = 0 /\ is_u 16 (zlen words / 4)
     end.

(** Padding that the first byte announces ends with its own length. *)
Definition padding_ok (first : Z) (pad : bytes) : Prop :=
  if Z.land first 0x20 =? 0 then pad = [] else exists rest, pad = rest ++ [zlen pad].

(** [wire] is a packet made under the key of [c] that carries [payload]. *)
Definition authentic `{Digests} `{Ciphers} (c : ObfsCipher) (m : ObfsMode) (wire : bytes) (sequence : Z)
  (payload : bytes) : Prop :=
  exists h body, wire = rtp_bytes h ++ body /\ rtp_ok h /\ sequence = rtp_sequence h /\
    match m with
    | Audio =>
        Z.land (second h) 0x7f = 111 /\ payload <> [] /\ exists sealed tag pad, body = sealed ++ tag ++ pad
          /\ seal (chacha_key c) (nonce (rtp_ssrc h) (rtp_sequence h) (rtp_timestamp h)) (rtp_bytes h) payload
             = (sealed, tag)
          /\ padding_ok (first h) pad
    | Video =>
        exists sealed pad tag, body = sealed ++ pad ++ tag
          /\ tag = take 10 (hmac_sha1 (hmac_key c) (rtp_bytes h ++ sealed ++ pad))
          /\ padding_ok (first h) pad
          /\ payload = xor_bytes sealed (aes_ctr (aes_key c) (srtp_iv (rtp_ssrc h) (rtp_sequence h) (rtp_timestamp h))
                                           (length sealed))
    end.

(** ** The header *)

Lemma zlen_rtp_bytes h :
  zlen (rtp_bytes h) = 12 + match extension h with None => 0 | Some (p, w) => zlen p + 2 + zlen w end.
Proof.
  unfold rtp_bytes, extension_bytes. rewrite !zlen_app, !zlen_to_be. destruct (extension h) as [[p w]|];
    rewrite ?zlen_app, ?zlen_to_be; change (zlen [first h; second h]) with 2; change (zlen (@nil Z)) with 0; lia.
Qed.

Definition fields_of (h : Rtp) : Fields :=
  mkFields (Z.land (second h) 0x7f) (rtp_sequence h) (rtp_timestamp h) (rtp_ssrc h) (zlen (rtp_bytes h)).

(** The reads of the fixed part of a header. *)
Lemma header_reads b0 b1 s t r rest :
  zlen s = 2 -> zlen t = 4 -> zlen r = 4 ->
  let wire := [b0; b1] ++ s ++ t ++ r ++ rest in
  index wire 0 = Ret b0 /\ index wire 1 = Ret b1
  /\ slice wire 2 4 = Ret s /\ slice wire 4 8 = Ret t /\ slice wire 8 12 = Ret r.
Proof.
  intros Hs Ht Hr. cbv zeta. conjs; try done.
  - by apply slice_app_mid; rewrite ?zlen_cons, ?zlen_nil; lia.
  - rewrite app_assoc. by apply slice_app_mid; rewrite ?zlen_app, ?zlen_cons, ?zlen_nil; lia.
  - rewrite (app_assoc s), app_assoc. by apply slice_app_mid; rewrite ?zlen_app, ?zlen_cons, ?zlen_nil; lia.
Qed.

(** A wire of twelve bytes and more, cut at its fields. *)
Lemma fixed_header wire :
  12 <= zlen wire -> exists (b0 b1 : Z) (s t r rest : bytes),
    wire = [b0; b1] ++ s ++ t ++ r ++ rest /\ zlen s = 2 /\ zlen t = 4 /\ zlen r = 4.
Proof.
  intros Hl. destruct (split_at_z wire 2) as (a & w1 & -> & Ha); [lia|]. rewrite zlen_app in Hl.
  destruct (split_at_z w1 2) as (s & w2 & -> & Hs); [lia|]. rewrite zlen_app in Hl.
  destruct (split_at_z w2 4) as (t & w3 & -> & Ht); [lia|]. rewrite zlen_app in Hl.
  destruct (split_at_z w3 4) as (r & rest & -> & Hr); [lia|].
  destruct a as [|b0 [|b1 [|? l]]]; rewrite ?zlen_cons, ?zlen_nil in Ha; try lia; [|pose proof (zlen_nonneg l); lia].
  by exists b0, b1, s, t, r, rest.
Qed.

Lemma unwrap_header_complete h body :
  rtp_ok h -> body <> [] -> unwrap_header (rtp_bytes h ++ body) = Ret (Ok (fields_of h)).
Proof.
  intros (Hv & Hsup & Hs & Ht & Hr & He) Hb. pose proof (zlen_rtp_bytes h) as Hh. unfold fields_of. rewrite Hh.
  assert (1 <= zlen body) as Hb1 by (destruct body as [|x l]; [done|rewrite zlen_cons; pose proof (zlen_nonneg l); lia]).
  assert (zlen (rtp_bytes h ++ body) = zlen (rtp_bytes h) + zlen body) as Hw by apply zlen_app. rewrite Hh in Hw. clear Hh.
  unfold rtp_bytes in Hw |- *. rewrite <- !app_assoc in Hw |- *. unfold unwrap_header. rewrite Hw.
  destruct (header_reads (first h) (second h) (to_be 2 (rtp_sequence h)) (to_be 4 (rtp_timestamp h)) (to_be 4 (rtp_ssrc h))
    (extension_bytes (extension h) ++ body)) as (-> & -> & -> & -> & ->); [apply zlen_to_be..|]. rbind.
  rewrite Hv, Hsup, !of_be_to_be_small by done. cbn [negb Z.eqb Pos.eqb].
  destruct (extension h) as [[p w]|].
  - destruct He as (Hx & Hp & Hm & Hu). pose proof (zlen_nonneg w).
    destruct (Z.ltb_spec (12 + (zlen p + 2 + zlen w) + zlen body) 13); [lia|].
    apply Z.eqb_neq in Hx. rewrite Hx. cbn [negb].
    destruct (Z.ltb_spec (12 + (zlen p + 2 + zlen w) + zlen body) 16); [lia|].
    rewrite (slice_at _ ([first h; second h] ++ to_be 2 (rtp_sequence h) ++ to_be 4 (rtp_timestamp h)
                           ++ to_be 4 (rtp_ssrc h) ++ p) (to_be 2 (zlen w / 4)) (w ++ body)).
    2:{ unfold extension_bytes. by rewrite <- !app_assoc. }
    2,3: rewrite ?zlen_app, ?zlen_to_be, ?zlen_cons, ?zlen_nil; lia.
    rbind. rewrite of_be_to_be_small by done.
    assert (12 + (4 + zlen w / 4 * 4) = 12 + (zlen p + 2 + zlen w)) as ->
      by (Z.to_euclidean_division_equations; lia).
    destruct (Z.ltb_spec (12 + (zlen p + 2 + zlen w) + zlen body) (12 + (zlen p + 2 + zlen w))); [lia|done].
  - rewrite He. cbn [negb Z.eqb].
    destruct (Z.ltb_spec (12 + 0 + zlen body) 13); [lia|]. destruct (Z.ltb_spec (12 + 0 + zlen body) 12); [lia|done].
Qed.

Lemma bytes_field n (l : bytes) :
  is_bytes l -> zlen l = Z.of_nat n -> to_be n (of_be l) = l /\ is_u (8 * Z.of_nat n) (of_be l).
Proof.
  intros Hb Hl. split; [by apply to_be_of_be_n|]. pose proof (of_be_bound l Hb) as Hbd. rewrite Hl in Hbd.
  unfold is_u. rewrite Z.pow_mul_r by lia. exact Hbd.
Qed.

Lemma unwrap_header_sound wire :
  is_bytes wire ->
  exists r, unwrap_header wire = Ret r /\ forall f, r = Ok f ->
    exists h body, wire = rtp_bytes h ++ body /\ rtp_ok h /\ f = fields_of h.
Proof.
  intros Hb. unfold unwrap_header. destruct (Z.ltb_spec (zlen wire) 13) as [|Hl]; [by eexists|].
  destruct (fixed_header wire) as (b0 & b1 & s & t & r & rest & -> & Hs & Ht & Hr); [lia|].
  destruct (header_reads b0 b1 s t r rest Hs Ht Hr) as (-> & -> & -> & -> & ->). rbind.
  destruct (Z.eqb_spec (Z.shiftr b0 6) 2) as [Hv|]; [|by eexists]. cbn [negb].
  destruct (supported (Z.land b1 0x7f)) eqn:Hsup; [|by eexists]. cbn [negb].
  rewrite !zlen_app in *. rewrite ?zlen_cons in *. change (zlen (@nil Z)) with 0 in *.
  rewrite !is_bytes_app in Hb. destruct Hb as (_ & Hbs & Hbt & Hbr & Hbrest).
  destruct (bytes_field 2 s Hbs Hs) as [Es Us]. destruct (bytes_field 4 t Hbt Ht) as [Et Ut].
  destruct (bytes_field 4 r Hbr Hr) as [Er Ur].
  destruct (Z.eqb_spec (Z.land b0 0x10) 0) as [Hx|Hx]; cbn [negb].
  - destruct_ltb; [by eexists|].
    eexists. split; [reflexivity|]. intros f [= <-].
    exists (mkRtp b0 b1 (of_be s) (of_be t) (of_be r) None), rest. split.
    { unfold rtp_bytes. cbn [first second rtp_sequence rtp_timestamp rtp_ssrc extension extension_bytes]. by rewrite Es, Et, Er, app_nil_r, <- !app_assoc. }
    split; [by unfold rtp_ok|]. unfold fields_of. by rewrite zlen_rtp_bytes.
  - destruct_ltb; [by eexists|].
    destruct (split_at_z rest 2) as (p & rest' & -> & Hp); [lia|]. rewrite zlen_app in *.
    destruct (split_at_z rest' 2) as (c & rest & -> & Hc); [lia|]. rewrite zlen_app in *.
    rewrite !is_bytes_app in Hbrest. destruct Hbrest as (_ & Hbc & _). destruct (bytes_field 2 c Hbc Hc) as [Ec Uc].
    rewrite (slice_at _ ([b0; b1] ++ s ++ t ++ r ++ p) c rest).
    2:{ by rewrite <- !app_assoc. }
    2,3: rewrite ?zlen_app, ?zlen_cons, ?zlen_nil; lia.
    rbind. set (n := of_be c) in *.
    destruct_ltb; [by eexists|].
    eexists. split; [reflexivity|]. intros f [= <-].
    destruct (split_at_z rest (n * 4)) as (w & body & -> & Hw); [unfold is_u in Uc; lia|].
    assert (zlen w / 4 = n) as Hdiv by (rewrite Hw; by apply Z.div_mul).
    exists (mkRtp b0 b1 (of_be s) (of_be t) (of_be r) (Some (p, w))), body. split.
    { unfold rtp_bytes. cbn [first second rtp_sequence rtp_timestamp rtp_ssrc extension extension_bytes]. by rewrite Hdiv, Es, Et, Er, Ec, <- !app_assoc. }
    split.
    { unfold rtp_ok. simpl. conjs; rewrite ?Hdiv; try done. rewrite Hw. by apply Z.mod_mul. }
    unfold fields_of. rewrite zlen_rtp_bytes. simpl. f_equal. lia.
Qed.

(** ** Padding *)

Lemma usub_ret a b : b <= a -> usub a b = Ret (a - b).
Proof. intros Hb. unfold usub. destruct (Z.leb_spec b a); [done|lia]. Qed.

Lemma nonempty_last (l : bytes) : l <> [] -> exists rest b, l = rest ++ [b].
Proof. intros Hl. destruct (exists_last Hl) as (r & b & ->). by exists r, b. Qed.

Section Padding.
Variables (pre hb post : bytes) (b0 : Z).
Hypothesis first_byte : exists rest, hb = b0 :: rest.

Lemma first_index x : index (pre ++ hb ++ x ++ post) (zlen pre) = Ret b0.
Proof.
  destruct first_byte as [rest ->]. rewrite index_app_r by lia. by rewrite Z.sub_diag.
Qed.

Lemma header_nonempty : 1 <= zlen hb.
Proof. destruct first_byte as [rest ->]. rewrite zlen_cons. pose proof (zlen_nonneg rest). lia. Qed.

Lemma strip_complete y pad :
  padding_ok b0 pad ->
  strip_padding (pre ++ hb ++ (y ++ pad) ++ post) (zlen pre) (zlen hb) (zlen pre + zlen hb + zlen (y ++ pad))
  = Ret (Ok (zlen pre + zlen hb + zlen y)).
Proof.
  intros Hp. unfold strip_padding. rewrite first_index. rbind. unfold padding_ok in Hp.
  destruct (Z.land b0 0x20 =? 0); cbn [negb]; [by rewrite Hp, app_nil_r|].
  destruct Hp as [rest Hpad]. pose proof (zlen_nonneg pre). pose proof (zlen_nonneg y). pose proof (zlen_nonneg hb).
  pose proof (zlen_nonneg rest). assert (zlen pad = zlen rest + 1) as Hl by (rewrite Hpad at 1; apply zlen_snoc).
  rewrite zlen_app. set (n := zlen pad) in *.
  rewrite (usub_ret _ 1) by lia. rbind.
  assert (pre ++ hb ++ (y ++ pad) ++ post = (pre ++ hb ++ y ++ rest) ++ [n] ++ post) as ->.
  { rewrite Hpad. by rewrite <- !app_assoc. }
  rewrite index_app_r by (rewrite !zlen_app; lia). rewrite !zlen_app.
  replace (_ - _) with 0 by lia. cbn [app]. change (index (n :: post) 0) with (Ret n). rbind.
  destruct (Z.eqb_spec n 0); [lia|]. repeat (rewrite usub_ret by lia; rbind).
  destruct_ltb; [lia|]. repeat (rewrite usub_ret by lia; rbind). do 2 f_equal. lia.
Qed.

Lemma strip_sound x :
  is_bytes (pre ++ hb ++ x ++ post) ->
  exists r, strip_padding (pre ++ hb ++ x ++ post) (zlen pre) (zlen hb) (zlen pre + zlen hb + zlen x) = Ret r
    /\ forall e, r = Ok e -> exists y pad, x = y ++ pad /\ padding_ok b0 pad /\ e = zlen pre + zlen hb + zlen y.
Proof.
  intros Hb. unfold strip_padding. rewrite first_index. rbind. unfold padding_ok.
  destruct (Z.land b0 0x20 =? 0); cbn [negb].
  { eexists. split; [reflexivity|]. intros e [= <-]. exists x, []. by rewrite app_nil_r. }
  pose proof header_nonempty. pose proof (zlen_nonneg pre). pose proof (zlen_nonneg x). pose proof (zlen_nonneg post).
  rewrite (usub_ret _ 1) by lia. rbind.
  destruct (index_returns (pre ++ hb ++ x ++ post) (zlen pre + zlen hb + zlen x - 1)) as (p & Hp & _);
    [rewrite !zlen_app; lia|].
  pose proof (index_byte _ _ _ Hb Hp) as Hpb. unfold is_byte in Hpb. rewrite Hp. rbind.
  destruct (Z.eqb_spec p 0) as [|Hp0]; [by eexists|]. rewrite (usub_ret _ (zlen pre)) by lia. rbind. rewrite (usub_ret _ (zlen hb)) by lia. rbind.
  destruct_ltb; [by eexists|]. rewrite usub_ret by lia. rbind. eexists. split; [reflexivity|]. intros e [= <-].
  destruct (split_at_z x (zlen x - p)) as (y & pad & -> & Hy); [lia|]. rewrite zlen_app in *.
  destruct (nonempty_last pad) as (rest & b & ->); [intros ->; change (zlen (@nil Z)) with 0 in *; lia|].
  exists y, (rest ++ [b]). split; [done|]. split; [|lia]. exists rest. do 2 f_equal.
  assert (index (pre ++ hb ++ (y ++ rest ++ [b]) ++ post) (zlen pre + zlen hb + (zlen y + zlen (rest ++ [b])) - 1) = Ret b) as Hi.
  { rewrite <- !app_assoc. rewrite (app_assoc y), (app_assoc hb), (app_assoc pre).
    rewrite index_app_r by (rewrite ?zlen_app; change (zlen [b]) with 1; lia). rewrite ?zlen_app. change (zlen [b]) with 1.
    by replace (_ - _) with 0 by lia. }
  rewrite Hi in Hp. injection Hp as ->. lia.
Qed.
End Padding.

(** ** Opening a packet *)

Lemma packet_parts p wire :
  buf_ok p -> as_slice p = Ret wire ->
  exists pre post, p = mkPacketBuf (pre ++ wire ++ post) (zlen pre) (zlen pre + zlen wire)
    /\ zlen (pre ++ wire ++ post) = PACKET_CAPACITY.
Proof.
  intros (Hst & Hs & He) Hw. destruct p as [st s e]. unfold as_slice in Hw. simpl in *.
  destruct (split_at_z st s) as (pre & r & -> & Hpre); [lia|].
  rewrite zlen_app in Hst. destruct (split_at_z r (e - s)) as (w & post & -> & Hl); [lia|].
  rewrite slice_app_mid in Hw by lia. injection Hw as ->. exists pre, post. split; [f_equal; lia|].
  rewrite !zlen_app in *. lia.
Qed.

(** A packet whose payload lies at its place in the storage. *)
Lemma payload_packet l payload r :
  zlen (l ++ payload ++ r) = PACKET_CAPACITY ->
  let q := mkPacketBuf (l ++ payload ++ r) (zlen l) (zlen l + zlen payload) in
  buf_ok q /\ as_slice q = Ret payload
  /\ forall s e, set_range (mkPacketBuf (l ++ payload ++ r) s e) (zlen l) (zlen l + zlen payload) = Ok q.
Proof.
  intros Hl. pose proof (zlen_nonneg l). pose proof (zlen_nonneg payload). pose proof (zlen_nonneg r). cbv zeta.
  split; [|split]; [unfold buf_ok; simpl; rewrite !zlen_app in *; lia|by apply slice_app_mid|].
  intros s e. unfold set_range, with_range. rewrite !zlen_app in Hl.
  destruct (Z.ltb_spec (zlen l + zlen payload) (zlen l)); [lia|].
  destruct (Z.ltb_spec PACKET_CAPACITY (zlen l + zlen payload)); [lia|done].
Qed.

Lemma rtp_bytes_first h : exists rest, rtp_bytes h = first h :: rest.
Proof. by eexists. Qed.

Section Open.
Context `{Digests} `{Ciphers}.
Variables (c : ObfsCipher) (pre post : bytes) (h : Rtp).

Lemma zlen_mac key m : zlen (take 10 (hmac_sha1 key m)) = 10.
Proof. pose proof (hmac_sha1_length key m) as Hl. unfold zlen in *. rewrite length_take. lia. Qed.

Lemma verify_tag key m tag :
  zlen tag = 10 -> verify_truncated_left (hmac_sha1 key m) tag = true <-> tag = take 10 (hmac_sha1 key m).
Proof.
  intros Ht. unfold verify_truncated_left. rewrite hmac_sha1_length, Ht. simpl. rewrite bytes_eqb_eq.
  assert (length tag = 10%nat) as -> by (unfold zlen in Ht; lia). done.
Qed.

(** The packet that holds the signed part and the tag of a video packet. *)
Definition video_packet (x tag : bytes) : PacketBuf :=
  mkPacketBuf (pre ++ rtp_bytes h ++ x ++ tag ++ post) (zlen pre) (zlen pre + zlen (rtp_bytes h ++ x ++ tag)).

Definition video_plain (sealed : bytes) : bytes :=
  xor_bytes sealed (aes_ctr (aes_key c) (srtp_iv (rtp_ssrc h) (rtp_sequence h) (rtp_timestamp h)) (length sealed)).

Lemma zlen_video_plain sealed : zlen (video_plain sealed) = zlen sealed.
Proof. apply zlen_xor_bytes. by rewrite aes_ctr_length. Qed.

(** The tag test and the slices in front of it. *)
Lemma video_tag x tag :
  zlen tag = 10 ->
  unwrap_video c (fields_of h) (video_packet x tag) =
    if negb (verify_truncated_left (hmac_sha1 (hmac_key c) (rtp_bytes h ++ x)) tag) then Ret (Err AuthenticationFailed) else
    stripped ← strip_padding (pre ++ rtp_bytes h ++ x ++ tag ++ post) (zlen pre) (zlen (rtp_bytes h))
                 (zlen pre + zlen (rtp_bytes h) + zlen x);
    match stripped with
    | Err e => Ret (Err e)
    | Ok payload_end =>
        let st := pre ++ rtp_bytes h ++ x ++ tag ++ post in
        let payload_start := zlen pre + zlen (rtp_bytes h) in
        sealed ← slice st payload_start payload_end;
        st ← blit st payload_start (video_plain sealed);
        match set_range (mkPacketBuf st (zlen pre) (zlen pre + zlen (rtp_bytes h ++ x ++ tag))) payload_start payload_end with
        | Err e => Ret (Err (Buffer e))
        | Ok packet => Ret (Ok (rtp_sequence h, packet))
        end
    end.
Proof.
  intros Ht. unfold unwrap_video, video_packet, len. cbn [range_start range_end storage].
  pose proof (zlen_nonneg x). pose proof (zlen_nonneg (rtp_bytes h)). pose proof (zlen_nonneg pre).
  unfold fields_of. cbn [f_header_len f_sequence f_timestamp f_ssrc].
  rewrite !zlen_app. set (hl := zlen (rtp_bytes h)) in *. destruct_ltb; [lia|]. rewrite usub_ret by lia. rbind.
  replace (zlen pre + (hl + (zlen x + zlen tag)) - 10) with (zlen pre + hl + zlen x) by lia.
  set (st := pre ++ rtp_bytes h ++ x ++ tag ++ post).
  assert (slice st (zlen pre) (zlen pre + hl + zlen x) = Ret (rtp_bytes h ++ x)) as ->.
  { apply (slice_at _ pre _ (tag ++ post)); [by unfold st; rewrite <- !app_assoc|done|rewrite zlen_app; lia]. }
  rbind. assert (slice st (zlen pre + hl + zlen x) (zlen pre + (hl + (zlen x + zlen tag))) = Ret tag) as ->.
  { apply (slice_at _ (pre ++ rtp_bytes h ++ x) _ post); [by unfold st; rewrite <- !app_assoc|rewrite !zlen_app; lia..]. }
  rbind. done.
Qed.

(** Deciphering in place what the padding left. *)
Lemma video_finish sealed rest e :
  zlen (pre ++ rtp_bytes h ++ sealed ++ rest) = PACKET_CAPACITY ->
  exists q, buf_ok q /\ as_slice q = Ret (video_plain sealed) /\
    (let st := pre ++ rtp_bytes h ++ sealed ++ rest in
     let payload_start := zlen pre + zlen (rtp_bytes h) in
     sealed' ← slice st payload_start (payload_start + zlen sealed);
     st ← blit st payload_start (video_plain sealed');
     match set_range (mkPacketBuf st (zlen pre) e) payload_start (payload_start + zlen sealed) with
     | Err e => Ret (Err (Buffer e))
     | Ok packet => Ret (Ok (rtp_sequence h, packet))
     end) = Ret (Ok (rtp_sequence h, q) : result (Z * PacketBuf) ObfsError).
Proof.
  intros Hl. rewrite app_assoc in Hl |- *. cbv zeta.
  destruct (payload_packet (pre ++ rtp_bytes h) (video_plain sealed) rest) as (Hq & Ha & Hr).
  { rewrite !zlen_app, zlen_video_plain in *. lia. }
  rewrite zlen_video_plain, zlen_app in Hr.
  eexists. split; [exact Hq|]. split; [exact Ha|].
  rewrite slice_app_mid by (rewrite zlen_app; lia). rbind.
  rewrite blit_app by (rewrite ?zlen_app, ?zlen_video_plain; lia). rbind. rewrite Hr.
  by rewrite zlen_app, zlen_video_plain.
Qed.

Lemma unwrap_video_complete sealed pad tag :
  zlen (pre ++ (rtp_bytes h ++ sealed ++ pad ++ tag) ++ post) = PACKET_CAPACITY ->
  tag = take 10 (hmac_sha1 (hmac_key c) (rtp_bytes h ++ sealed ++ pad)) -> padding_ok (first h) pad ->
  exists q, unwrap_video c (fields_of h) (video_packet (sealed ++ pad) tag) = Ret (Ok (rtp_sequence h, q))
    /\ buf_ok q /\ as_slice q = Ret (video_plain sealed).
Proof.
  intros Hl Htag Hpad. assert (zlen tag = 10) as Ht by (rewrite Htag; apply zlen_mac).
  rewrite video_tag by done. rewrite (proj2 (verify_tag _ _ _ Ht) Htag). cbn [negb].
  rewrite (strip_complete pre (rtp_bytes h) (tag ++ post) (first h) (rtp_bytes_first h) sealed pad Hpad). rbind.
  rewrite <- !app_assoc in *. destruct (video_finish sealed (pad ++ tag ++ post)
    (zlen pre + zlen (rtp_bytes h ++ sealed ++ pad ++ tag))) as (q & Hq & Ha & He); [done|].
  exists q. split; [exact He|done].
Qed.

Lemma unwrap_video_sound x tag :
  is_bytes (pre ++ rtp_bytes h ++ x ++ tag ++ post) -> zlen tag = 10 ->
  zlen (pre ++ (rtp_bytes h ++ x ++ tag) ++ post) = PACKET_CAPACITY ->
  exists r, unwrap_video c (fields_of h) (video_packet x tag) = Ret r /\
    forall n q, r = Ok (n, q) -> exists sealed pad, x = sealed ++ pad
      /\ tag = take 10 (hmac_sha1 (hmac_key c) (rtp_bytes h ++ sealed ++ pad)) /\ padding_ok (first h) pad
      /\ n = rtp_sequence h /\ buf_ok q /\ as_slice q = Ret (video_plain sealed).
Proof.
  intros Hb Ht Hl. rewrite video_tag by done. destruct (verify_truncated_left _ _) eqn:Ev; cbn [negb]; [|by eexists].
  apply (verify_tag _ _ _ Ht) in Ev.
  destruct (strip_sound pre (rtp_bytes h) (tag ++ post) (first h) (rtp_bytes_first h) x Hb) as (r & -> & Hr). rbind.
  destruct r as [e|]; [|by eexists]. destruct (Hr e eq_refl) as (sealed & pad & -> & Hpad & ->).
  rewrite <- !app_assoc in *. destruct (video_finish sealed (pad ++ tag ++ post)
    (zlen pre + zlen (rtp_bytes h ++ sealed ++ pad ++ tag))) as (q & Hq & Ha & He); [done|].
  eexists. split; [exact He|]. intros n q' [= <- <-]. by exists sealed, pad.
Qed.

(** The same for an audio packet, whose padding follows the tag. *)
Definition audio_packet (body : bytes) : PacketBuf :=
  mkPacketBuf (pre ++ rtp_bytes h ++ body ++ post) (zlen pre) (zlen pre + zlen (rtp_bytes h ++ body)).

Definition audio_nonce : bytes := nonce (rtp_ssrc h) (rtp_sequence h) (rtp_timestamp h).

Lemma audio_finish sealed tag rest payload :
  zlen tag = 16 -> seal (chacha_key c) audio_nonce (rtp_bytes h) payload = (sealed, tag) ->
  zlen (pre ++ rtp_bytes h ++ sealed ++ tag ++ rest) = PACKET_CAPACITY ->
  exists q, buf_ok q /\ as_slice q = Ret payload /\
    forall e,
    (st ← blit (pre ++ rtp_bytes h ++ sealed ++ tag ++ rest) (zlen pre + zlen (rtp_bytes h)) payload;
     match set_range (mkPacketBuf st (zlen pre) e) (zlen pre + zlen (rtp_bytes h))
             (zlen pre + zlen (rtp_bytes h) + zlen sealed) with
     | Err e => Ret (Err (Buffer e))
     | Ok packet => Ret (Ok (rtp_sequence h, packet))
     end) = Ret (Ok (rtp_sequence h, q) : result (Z * PacketBuf) ObfsError).
Proof.
  intros Ht Hs Hl. pose proof (seal_length (chacha_key c) audio_nonce (rtp_bytes h) payload) as Hlen.
  rewrite Hs in Hlen. simpl in Hlen. rewrite app_assoc in Hl |- *.
  destruct (payload_packet (pre ++ rtp_bytes h) payload (tag ++ rest)) as (Hq & Ha & Hr).
  { rewrite !zlen_app in *. lia. }
  rewrite zlen_app, <- Hlen in Hr. eexists. split; [exact Hq|]. split; [exact Ha|]. intros e.
  rewrite blit_app by (rewrite ?zlen_app; lia). rbind. rewrite Hr. by rewrite zlen_app, <- Hlen.
Qed.

(** The slices of a packet whose padding has been found. *)
Lemma audio_parts sealed tag rest :
  zlen tag = 16 ->
  let st := pre ++ rtp_bytes h ++ sealed ++ tag ++ rest in
  let payload_start := zlen pre + zlen (rtp_bytes h) in
  slice st (payload_start + zlen sealed) (payload_start + zlen sealed + 16) = Ret tag
  /\ slice st (zlen pre) payload_start = Ret (rtp_bytes h)
  /\ slice st payload_start (payload_start + zlen sealed) = Ret sealed.
Proof.
  intros Ht. cbv zeta. conjs.
  - apply (slice_at _ (pre ++ rtp_bytes h ++ sealed) _ rest); [by rewrite <- !app_assoc|rewrite !zlen_app; lia..].
  - by apply (slice_at _ pre _ (sealed ++ tag ++ rest)).
  - apply (slice_at _ (pre ++ rtp_bytes h) _ (tag ++ rest)); [by rewrite <- !app_assoc|rewrite !zlen_app; lia..].
Qed.

Lemma unwrap_audio_complete sealed tag pad payload :
  zlen (pre ++ (rtp_bytes h ++ sealed ++ tag ++ pad) ++ post) = PACKET_CAPACITY ->
  Z.land (second h) 0x7f = 111 -> payload <> [] ->
  seal (chacha_key c) audio_nonce (rtp_bytes h) payload = (sealed, tag) -> padding_ok (first h) pad ->
  exists q, unwrap_audio c (fields_of h) (audio_packet (sealed ++ tag ++ pad)) = Ret (Ok (rtp_sequence h, q))
    /\ buf_ok q /\ as_slice q = Ret payload.
Proof.
  intros Hl Htype Hne Hs Hpad. unfold unwrap_audio, audio_packet, fields_of.
  cbn [range_start range_end storage f_header_len f_type f_sequence f_timestamp f_ssrc].
  rewrite Htype. cbn [negb Z.eqb Pos.eqb].
  pose proof (seal_tag (chacha_key c) audio_nonce (rtp_bytes h) payload) as Ht. rewrite Hs in Ht. simpl in Ht.
  pose proof (seal_length (chacha_key c) audio_nonce (rtp_bytes h) payload) as Hlen. rewrite Hs in Hlen. simpl in Hlen.
  assert (1 <= zlen payload) by (destruct payload as [|b l]; [done|rewrite zlen_cons; pose proof (zlen_nonneg l); lia]).
  pose proof (zlen_nonneg pre). pose proof (zlen_nonneg (rtp_bytes h)).
  rewrite zlen_app, Z.add_assoc. rewrite !(app_assoc sealed tag pad).
  rewrite (strip_complete pre (rtp_bytes h) post (first h) (rtp_bytes_first h) (sealed ++ tag) pad Hpad). rbind.
  rewrite (zlen_app sealed tag), Ht. destruct_ltb; [lia|]. rewrite usub_ret by lia. rbind.
  rewrite <- !app_assoc in *.
  replace (zlen pre + zlen (rtp_bytes h) + (zlen sealed + 16) - 16)
    with (zlen pre + zlen (rtp_bytes h) + zlen sealed) by lia. rewrite (Z.add_assoc _ (zlen sealed) 16).
  destruct (audio_parts sealed tag (pad ++ post) Ht) as (-> & -> & ->). rbind.
  fold audio_nonce. rewrite (proj2 (open_iff _ _ _ _ _ _) Hs).
  destruct (audio_finish sealed tag (pad ++ post) payload Ht Hs Hl) as (q & Hq & Ha & He).
  exists q. split; [apply He|done].
Qed.

Lemma unwrap_audio_sound body :
  is_bytes (pre ++ rtp_bytes h ++ body ++ post) ->
  zlen (pre ++ (rtp_bytes h ++ body) ++ post) = PACKET_CAPACITY ->
  exists r, unwrap_audio c (fields_of h) (audio_packet body) = Ret r /\
    forall n q, r = Ok (n, q) -> exists sealed tag pad payload, body = sealed ++ tag ++ pad
      /\ Z.land (second h) 0x7f = 111 /\ payload <> []
      /\ seal (chacha_key c) audio_nonce (rtp_bytes h) payload = (sealed, tag) /\ padding_ok (first h) pad
      /\ n = rtp_sequence h /\ buf_ok q /\ as_slice q = Ret payload.
Proof.
  intros Hb Hl. unfold unwrap_audio, audio_packet, fields_of.
  cbn [range_start range_end storage f_header_len f_type f_sequence f_timestamp f_ssrc].
  destruct (Z.eqb_spec (Z.land (second h) 0x7f) 111) as [Htype|]; cbn [negb]; [|by eexists].
  pose proof (zlen_nonneg pre). pose proof (zlen_nonneg (rtp_bytes h)).
  rewrite zlen_app, Z.add_assoc.
  destruct (strip_sound pre (rtp_bytes h) post (first h) (rtp_bytes_first h) body Hb) as (r & -> & Hr). rbind.
  destruct r as [e|]; [|by eexists]. destruct (Hr e eq_refl) as (y & pad & -> & Hpad & ->).
  destruct_ltb; [by eexists|]. rewrite usub_ret by lia. rbind.
  destruct (split_at_z y (zlen y - 16)) as (sealed & tag & -> & Hy); [lia|]. rewrite (zlen_app sealed tag) in *.
  assert (zlen tag = 16) as Ht by lia. rewrite Ht in *. rewrite <- !app_assoc in *.
  replace (zlen pre + zlen (rtp_bytes h) + (zlen sealed + 16) - 16)
    with (zlen pre + zlen (rtp_bytes h) + zlen sealed) by lia. rewrite (Z.add_assoc _ (zlen sealed) 16).
  destruct (audio_parts sealed tag (pad ++ post) Ht) as (-> & -> & ->). rbind. fold audio_nonce.
  destruct (open _ _ _ _ _) as [payload|] eqn:Eo; [|by eexists]. apply open_iff in Eo.
  destruct (audio_finish sealed tag (pad ++ post) payload Ht Eo Hl) as (q & Hq & Ha & He). rewrite He.
  eexists. split; [reflexivity|]. intros n q' [= <- <-]. exists sealed, tag, pad, payload. conjs; try done.
  intros ->. pose proof (seal_length (chacha_key c) audio_nonce (rtp_bytes h) []) as Hlen. rewrite Eo in Hlen.
  change (zlen (@nil Z)) with 0 in Hlen. simpl in Hlen. lia.
Qed.
End Open.

Section Inbound.
Context `{Digests} `{Ciphers}.

Lemma unwrap_complete c m p wire n payload :
  buf_ok p -> as_slice p = Ret wire -> authentic c m wire n payload ->
  exists q, unwrap_packet c m p = Ret (Ok (n, q)) /\ buf_ok q /\ as_slice q = Ret payload.
Proof.
  intros Hok Hw (h & body & -> & Hh & -> & Hm). unfold unwrap_packet. rewrite Hw. rbind.
  destruct (packet_parts p _ Hok Hw) as (pre & post & -> & Hl). destruct m.
  - destruct Hm as (Htype & Hne & sealed & tag & pad & -> & Hs & Hpad).
    rewrite unwrap_header_complete; [rbind|done|].
    + destruct (unwrap_audio_complete c pre post h sealed tag pad payload Hl Htype Hne Hs Hpad) as (q & Hq & ?).
      exists q. split; [|done]. rewrite <- Hq. unfold audio_packet. by rewrite <- !app_assoc.
    + pose proof (seal_tag (chacha_key c) (nonce (rtp_ssrc h) (rtp_sequence h) (rtp_timestamp h)) (rtp_bytes h) payload) as Ht.
      rewrite Hs in Ht. intros [_ [-> _]%app_nil]%app_nil. done.
  - destruct Hm as (sealed & pad & tag & -> & Htag & Hpad & ->).
    rewrite unwrap_header_complete; [rbind|done|].
    + destruct (unwrap_video_complete c pre post h sealed pad tag Hl Htag Hpad) as (q & Hq & ?).
      exists q. split; [|done]. rewrite <- Hq. unfold video_packet. by rewrite <- !app_assoc.
    + pose proof (zlen_mac (hmac_key c) (rtp_bytes h ++ sealed ++ pad)) as Ht. rewrite <- Htag in Ht.
      intros [_ [_ ->]%app_nil]%app_nil. done.
Qed.

Lemma unwrap_sound c m p wire :
  buf_ok p -> is_bytes (storage p) -> as_slice p = Ret wire ->
  exists r, unwrap_packet c m p = Ret r /\
    forall n q, r = Ok (n, q) -> exists payload, authentic c m wire n payload /\ buf_ok q /\ as_slice q = Ret payload.
Proof.
  intros Hok Hb Hw. unfold unwrap_packet. rewrite Hw. rbind.
  destruct (packet_parts p _ Hok Hw) as (pre & post & -> & Hl). simpl in Hb.
  destruct (unwrap_header_sound wire) as (r & -> & Hr); [rewrite !is_bytes_app in Hb; apply Hb|]. rbind.
  destruct r as [f|]; [|by eexists]. destruct (Hr f eq_refl) as (h & body & -> & Hh & ->). destruct m.
  - rewrite <- (app_assoc (rtp_bytes h)) in Hb. destruct (unwrap_audio_sound c pre post h body Hb Hl) as (r & Hr' & Hq).
    exists r. split; [rewrite <- Hr'; unfold audio_packet; by rewrite (app_assoc (rtp_bytes h))|].
    intros n q ->. destruct (Hq n q eq_refl) as (sealed & tag & pad & payload & -> & ? & ? & ? & ? & -> & ? & ?).
    exists payload. split; [|done]. exists h, (sealed ++ tag ++ pad). conjs; try done. by exists sealed, tag, pad.
  - destruct (Z.ltb_spec (zlen body) 10) as [Hshort|Hlong].
    { exists (Err MissingTag). split; [|done]. unfold unwrap_video, len, fields_of. cbn [range_start range_end f_header_len].
      rewrite zlen_app. pose proof (zlen_nonneg (rtp_bytes h)). destruct_ltb; [done|lia]. }
    destruct (split_at_z body (zlen body - 10)) as (x & tag & -> & Hx); [lia|]. rewrite (zlen_app x) in Hx.
    rewrite <- !(app_assoc (rtp_bytes h)), <- app_assoc in Hb.
    destruct (unwrap_video_sound c pre post h x tag Hb ltac:(lia) Hl) as (r & Hr' & Hq).
    exists r. split; [rewrite <- Hr'; unfold video_packet; by rewrite <- !app_assoc|].
    intros n q ->. destruct (Hq n q eq_refl) as (sealed & pad & -> & Htag & Hpad & -> & ? & ?).
    exists (video_plain c h sealed). split; [|done]. exists h, (sealed ++ pad ++ tag). rewrite <- !app_assoc.
    conjs; try done. by exists sealed, pad, tag.
Qed.

Lemma is_rtp_total wire : returns (is_rtp_packet wire).
Proof.
  unfold is_rtp_packet. destruct_ltb; [by eexists|]. destruct (index_returns wire 0) as (b0 & -> & _); [lia|].
  destruct (index_returns wire 1) as (b1 & E1 & _); [lia|]. rbind. destruct (negb _); [by eexists|]. rewrite E1. by eexists.
Qed.

Lemma header_accepted wire f : unwrap_header wire = Ret (Ok f) -> is_rtp_packet wire = Ret true.
Proof.
  unfold unwrap_header, is_rtp_packet. intros Hu. destruct (_ <? 13); [done|].
  apply bind_ret_inv in Hu as (b0 & -> & Hu). rbind. destruct (negb (_ =? 2)); [done|].
  apply bind_ret_inv in Hu as (b1 & -> & Hu). rbind. by destruct (supported _).
Qed.

(** C7: an inbound packet is let in exactly when it was made under the shared
    key, with a sequence number that the replay window accepts, and what is let
    in is the payload that was sealed. The window moves only for authentic
    packets, so that nobody without the key can move it, and no datagram makes
    the receiver panic. *)
Theorem inbound_iff c config w p wire :
  buf_ok p -> is_bytes (storage p) -> as_slice p = Ret wire ->
  exists o w', authenticate_inbound c config w p = Ret (o, w')
    /\ (forall payload, (exists q, o = Some q /\ as_slice q = Ret payload)
          <-> exists n, authentic c (mode config) wire n payload /\ fst (accept_rtp w n) = true)
    /\ (w' = w \/ exists n payload, authentic c (mode config) wire n payload /\ w' = snd (accept_rtp w n)).
Proof.
  intros Hok Hb Hw. destruct (unwrap_sound c (mode config) p wire Hok Hb Hw) as (r & Hr & Hsound).
  pose proof (fun n payload => unwrap_complete c (mode config) p wire n payload Hok Hw) as Hcomplete.
  unfold authenticate_inbound. rewrite Hw. rbind. destruct (is_rtp_total wire) as [[] Hrtp]; rewrite Hrtp; rbind; cbn [negb].
  - rewrite Hr. rbind. destruct r as [[n q]|e].
    + destruct (Hsound n q eq_refl) as (payload & Hauth & _ & Hq). destruct (accept_rtp w n) as [b w'] eqn:Ea.
      eexists _, _. split; [reflexivity|]. split; [|right; exists n, payload; by rewrite Ea].
      intros payload'. split.
      * intros (q' & Ho & Hq'). destruct b; [|done]. injection Ho as <-. exists n. rewrite Ea.
        assert (payload' = payload) as -> by congruence. done.
      * intros (n' & Hauth' & Hacc). destruct (Hcomplete n' payload' Hauth') as (q' & Hu & _ & Hq').
        rewrite Hr in Hu. injection Hu as <- <-. rewrite Ea in Hacc. simpl in Hacc. subst b. by exists q.
    + eexists _, _. split; [reflexivity|]. split; [|by left]. intros payload. split; [by intros (? & ? & _)|].
      intros (n & Hauth & _). destruct (Hcomplete n payload Hauth) as (q & Hu & _). congruence.
  - eexists _, _. split; [reflexivity|]. split; [|by left]. intros payload. split; [by intros (? & ? & _)|].
    intros (n & Hauth & _). destruct (Hcomplete n payload Hauth) as (q & Hu & _). exfalso. revert Hu.
    unfold unwrap_packet. rewrite Hw. rbind. intros (f & Hf & Hu)%bind_ret_inv. destruct f as [f|]; [|done].
    apply header_accepted in Hf. congruence.
Qed.
End Inbound.

(** ** Making a packet *)

(** What the generator can draw for a packet of this configuration. *)
Definition draw_ok (config : ObfsConfig) (draw : Draw) : Prop :=
  0 <= draw_padding draw < padding_max config /\ zlen (draw_fill draw) = draw_padding draw.

Definition wrap_rtp (config : ObfsConfig) (draw_marker sequence timestamp absolute_send_time transport : Z) : Rtp :=
  mkRtp 0xb0 (if (payload_type config =? 96) && (draw_marker =? 0) then Z.lor (Z.land (payload_type config) 0x7f) 0x80
              else Z.land (payload_type config) 0x7f)
    sequence timestamp (ssrc config)
    (Some (to_be 2 0xbede,
           [0x32; wrap 8 (Z.shiftr absolute_send_time 16); wrap 8 (Z.shiftr absolute_send_time 8); wrap 8 absolute_send_time; 0x51]
           ++ to_be 2 transport ++ [0])).

Lemma wrap_rtp_header m s marker sequence timestamp abs transport :
  is_u 32 s -> is_u 16 sequence -> is_u 32 timestamp ->
  let config := new_config m s in
  let h := wrap_rtp config marker sequence timestamp abs transport in
  wrap_header config marker sequence timestamp abs transport = rtp_bytes h
  /\ rtp_ok h /\ zlen (rtp_bytes h) = 24
  /\ Z.land (second h) 0x7f = match m with Audio => 111 | Video => 96 end.
Proof.
  intros Hs Hq Ht. cbv zeta. split; [|split; [|split]].
  - unfold wrap_header, rtp_bytes, wrap_rtp, extension_bytes. cbn [first second rtp_sequence rtp_timestamp rtp_ssrc extension].
    reflexivity.
  - unfold rtp_ok, wrap_rtp. cbn [first second rtp_sequence rtp_timestamp rtp_ssrc extension].
    conjs; try done; destruct m; cbn [new_config payload_type]; try done. by destruct (marker =? 0).
  - rewrite zlen_rtp_bytes. reflexivity.
  - destruct m; unfold wrap_rtp; cbn [second new_config payload_type]; [done|]. by destruct (marker =? 0).
Qed.

Lemma padded_ok fill n : zlen fill + 1 = n -> 0 < n < 256 -> padding_ok 0xb0 (fill ++ [wrap 8 n]).
Proof.
  intros Hf Hn. unfold padding_ok. cbn [Z.land Z.eqb]. change (Z.land 0xb0 0x20 =? 0) with false. cbv iota.
  exists fill. rewrite zlen_snoc, Hf. by rewrite wrap_small by (unfold is_u; lia).
Qed.

Section Wrap.
Context `{Digests} `{Ciphers}.
Variables (c : ObfsCipher) (config : ObfsConfig) (draw : Draw) (h : Rtp) (pre payload gap post : bytes).
Hypothesis drawn : draw_ok config draw.
Hypothesis padding_bound : padding_max config <= 60.
Hypothesis header_24 : zlen (rtp_bytes h) = 24.
Hypothesis header_ssrc : rtp_ssrc h = ssrc config.
Hypothesis padded : first h = 0xb0.
Hypothesis capacity : zlen (pre ++ rtp_bytes h ++ payload ++ gap ++ post) = PACKET_CAPACITY.

Definition headed : PacketBuf :=
  mkPacketBuf (pre ++ rtp_bytes h ++ payload ++ gap ++ post) (zlen pre) (zlen pre + 24 + zlen payload).

Definition pad_bytes : bytes := draw_fill draw ++ [wrap 8 (draw_padding draw + 1)].

Lemma pad_bytes_ok : padding_ok (first h) pad_bytes /\ zlen pad_bytes = draw_padding draw + 1.
Proof.
  destruct drawn as [Hd Hf]. rewrite padded. split; [apply padded_ok; lia|]. unfold pad_bytes. rewrite zlen_snoc. lia.
Qed.

Lemma extend_headed n :
  zlen gap = n -> extend_tail headed n
  = Ok (mkPacketBuf (pre ++ rtp_bytes h ++ payload ++ gap ++ post) (zlen pre) (zlen pre + 24 + zlen payload + n)).
Proof.
  intros Hn. unfold extend_tail, headed, checked_add, with_range. cbn [range_end range_start storage].
  rewrite !zlen_app in capacity. pose proof (zlen_nonneg post).
  assert (PACKET_CAPACITY = 2304) as HC by done.
  destruct (Z.ltb_spec (zlen pre + 24 + zlen payload + n) (2 ^ 64)); [|lia].
  destruct (Z.ltb_spec PACKET_CAPACITY (zlen pre + 24 + zlen payload + n)); [lia|done].
Qed.

(** The two halves of the tail that a packet is given, written one after the
    other: [first_part], then the fill and the length of the padding. *)
Lemma wrapped_ok body e :
  zlen body = zlen payload + zlen gap -> e = zlen pre + 24 + zlen body ->
  let q := mkPacketBuf (pre ++ (rtp_bytes h ++ body) ++ post) (zlen pre) e in
  buf_ok q /\ as_slice q = Ret (rtp_bytes h ++ body).
Proof.
  intros Hb ->. cbv zeta. rewrite !zlen_app in capacity. pose proof (zlen_nonneg pre). pose proof (zlen_nonneg body).
  pose proof (zlen_nonneg post). split.
  - unfold buf_ok. cbn [storage range_start range_end]. rewrite !zlen_app. lia.
  - unfold as_slice; cbn [storage range_start range_end]. apply slice_app_mid; [done|]. rewrite zlen_app. lia.
Qed.

Lemma wrap_video_ok :
  zlen gap = draw_padding draw + 11 ->
  exists q sealed tag, wrap_video c config draw (rtp_sequence h) (rtp_timestamp h) (zlen payload) headed = Ret (Ok q)
    /\ buf_ok q /\ as_slice q = Ret (rtp_bytes h ++ sealed ++ pad_bytes ++ tag)
    /\ tag = take 10 (hmac_sha1 (hmac_key c) (rtp_bytes h ++ sealed ++ pad_bytes))
    /\ sealed = video_plain c h payload.
Proof.
  intros Hg. pose proof drawn as [Hd Hf]. unfold wrap_video. rewrite extend_headed by lia.
  cbn [headed range_start storage range_end]. set (n := draw_padding draw + 1).
  destruct (split_at_z gap (draw_padding draw)) as (g1 & r & Hgap & Hg1); [lia|].
  assert (zlen r = 11) as Hr by (rewrite Hgap, zlen_app in Hg; lia).
  destruct (split_at_z r 1) as (g2 & g3 & -> & Hg2); [lia|]. rewrite zlen_app in Hr.
  rewrite (slice_at _ (pre ++ rtp_bytes h) payload (gap ++ post)) by
    (rewrite <- ?app_assoc, ?zlen_app; (done || lia)). rbind.
  fold (video_plain c h payload).
  replace (xor_bytes payload _) with (video_plain c h payload) by (unfold video_plain; by rewrite header_ssrc).
  set (sealed := video_plain c h payload). assert (zlen sealed = zlen payload) as Hs by apply zlen_video_plain.
  rewrite (blit_at _ (pre ++ rtp_bytes h) payload (gap ++ post)) by (rewrite <- ?app_assoc, ?zlen_app; (done || lia)). rbind.
  rewrite (blit_at _ (pre ++ rtp_bytes h ++ sealed) g1 (g2 ++ g3 ++ post)) by
    (rewrite ?Hgap, <- ?app_assoc, ?zlen_app; (done || lia)). rbind.
  rewrite (blit_at _ (pre ++ rtp_bytes h ++ sealed ++ draw_fill draw) g2 (g3 ++ post)) by
    (rewrite <- ?app_assoc, ?zlen_app; change (zlen [wrap 8 n]) with 1; (done || lia)). rbind.
  rewrite (slice_at _ pre (rtp_bytes h ++ sealed ++ pad_bytes) (g3 ++ post)) by
    (unfold pad_bytes; rewrite <- ?app_assoc, ?zlen_app; change (zlen [wrap 8 (draw_padding draw + 1)]) with 1; (done || lia)). rbind.
  set (tag := take 10 _). assert (zlen tag = 10) as Ht by apply zlen_mac.
  rewrite (blit_at _ (pre ++ rtp_bytes h ++ sealed ++ pad_bytes) g3 post) by
    (unfold pad_bytes; rewrite <- ?app_assoc, ?zlen_app; change (zlen [wrap 8 (draw_padding draw + 1)]) with 1; (done || lia)). rbind.
  destruct (wrapped_ok (sealed ++ pad_bytes ++ tag) (zlen pre + 24 + zlen payload + (n + 10))) as [Hq Ha].
  { rewrite !zlen_app, (proj2 pad_bytes_ok). lia. }
  { rewrite !zlen_app, (proj2 pad_bytes_ok). lia. }
  rewrite <- !app_assoc in *. by eexists _, sealed, tag.
Qed.

Lemma wrap_audio_ok :
  zlen gap = draw_padding draw + 17 ->
  exists q sealed tag, wrap_audio c config draw (rtp_sequence h) (rtp_timestamp h) (zlen payload) headed = Ret (Ok q)
    /\ buf_ok q /\ as_slice q = Ret (rtp_bytes h ++ sealed ++ tag ++ pad_bytes)
    /\ seal (chacha_key c) (audio_nonce h) (rtp_bytes h) payload = (sealed, tag).
Proof.
  intros Hg. pose proof drawn as [Hd Hf]. unfold wrap_audio. rewrite extend_headed by lia.
  cbn [headed range_start storage range_end]. set (n := draw_padding draw + 1).
  destruct (split_at_z gap 16) as (g1 & r & Hgap & Hg1); [lia|].
  assert (zlen r = n) as Hr by (rewrite Hgap, zlen_app in Hg; lia).
  destruct (split_at_z r (draw_padding draw)) as (g2 & g3 & -> & Hg2); [lia|]. rewrite zlen_app in Hr.
  rewrite (slice_at _ pre (rtp_bytes h) (payload ++ gap ++ post) (zlen pre)) by ((done || lia)). rbind.
  rewrite (slice_at _ (pre ++ rtp_bytes h) payload (gap ++ post)) by
    (rewrite <- ?app_assoc, ?zlen_app; (done || lia)). rbind.
  assert (nonce (ssrc config) (rtp_sequence h) (rtp_timestamp h) = audio_nonce h) as ->
    by (unfold audio_nonce; by rewrite header_ssrc).
  destruct (seal _ _ _ _) as [sealed tag] eqn:Es.
  pose proof (seal_length (chacha_key c) (audio_nonce h) (rtp_bytes h) payload) as Hs. rewrite Es in Hs. simpl in Hs.
  pose proof (seal_tag (chacha_key c) (audio_nonce h) (rtp_bytes h) payload) as Ht. rewrite Es in Ht. simpl in Ht.
  rewrite (blit_at _ (pre ++ rtp_bytes h) payload (gap ++ post)) by (rewrite <- ?app_assoc, ?zlen_app; (done || lia)). rbind.
  rewrite (blit_at _ (pre ++ rtp_bytes h ++ sealed) g1 (g2 ++ g3 ++ post)) by
    (rewrite ?Hgap, <- ?app_assoc, ?zlen_app; (done || lia)). rbind.
  rewrite (blit_at _ (pre ++ rtp_bytes h ++ sealed ++ tag) g2 (g3 ++ post)) by
    (rewrite <- ?app_assoc, ?zlen_app; (done || lia)). rbind.
  rewrite (blit_at _ (pre ++ rtp_bytes h ++ sealed ++ tag ++ draw_fill draw) g3 post) by
    (rewrite <- ?app_assoc, ?zlen_app; change (zlen [wrap 8 n]) with 1; (done || lia)). rbind.
  destruct (wrapped_ok (sealed ++ tag ++ pad_bytes) (zlen pre + 24 + zlen payload + (16 + n))) as [Hq Ha].
  { rewrite !zlen_app, (proj2 pad_bytes_ok). lia. }
  { rewrite !zlen_app, (proj2 pad_bytes_ok). lia. }
  unfold pad_bytes in *. rewrite <- !app_assoc in *. by eexists _, sealed, tag.
Qed.
End Wrap.

Definition fits (config : ObfsConfig) (draw : Draw) (p : PacketBuf) : Prop :=
  24 <= range_start p /\ range_end p + tail_len config draw <= PACKET_CAPACITY.

(** Once the header fits in front and the tail behind, the packet is made. *)
Lemma wrap_made `{Digests} `{Ciphers} c m s draw sequence timestamp abs transport pre g payload gap post {A} (st : A) :
  is_u 32 s -> draw_ok (new_config m s) draw -> is_u 16 sequence -> is_u 32 timestamp -> payload <> [] ->
  zlen g = 24 -> zlen gap = tail_len (new_config m s) draw ->
  zlen (pre ++ g ++ payload ++ gap ++ post) = PACKET_CAPACITY ->
  exists q wire,
    (packet ← write_at (mkPacketBuf (pre ++ g ++ payload ++ gap ++ post) (zlen pre) (zlen pre + 24 + zlen payload)) 0
                (wrap_header (new_config m s) (draw_marker draw) sequence timestamp abs transport);
     wrapped ← match mode (new_config m s) with
               | Video => wrap_video c (new_config m s) draw sequence timestamp (zlen payload) packet
               | Audio => wrap_audio c (new_config m s) draw sequence timestamp (zlen payload) packet
               end;
     Ret (wrapped, st)) = Ret (Ok q, st)
    /\ buf_ok q /\ as_slice q = Ret wire /\ authentic c m wire sequence payload.
Proof.
  intros Hs Hdraw Hq Ht Hne Hg Hgap Hl.
  destruct (wrap_rtp_header m s (draw_marker draw) sequence timestamp abs transport Hs Hq Ht) as (Hw & Hh & H24 & Htype).
  set (h := wrap_rtp _ _ _ _ _ _) in *. rewrite Hw. unfold write_at. cbn [storage range_start range_end].
  rewrite (blit_at _ pre g (payload ++ gap ++ post)) by (done || lia). rbind.
  assert (zlen (pre ++ rtp_bytes h ++ payload ++ gap ++ post) = PACKET_CAPACITY) as Hl'
    by (rewrite !zlen_app in *; lia).
  assert (padding_max (new_config m s) <= 60) as Hmax by (destruct m; done).
  change (mkPacketBuf (pre ++ rtp_bytes h ++ payload ++ gap ++ post) (zlen pre) (zlen pre + 24 + zlen payload))
    with (headed h pre payload gap post).
  assert (padding_ok (first h) (pad_bytes draw)) as Hpad by (eapply pad_bytes_ok; eauto).
  assert (mode (new_config m s) = m) as Hm by (by destruct m). unfold tail_len in Hgap. rewrite Hm in Hgap |- *.
  clear Hm. destruct m.
  - destruct (wrap_audio_ok c (new_config Audio s) draw h pre payload gap post Hdraw Hmax H24 eq_refl eq_refl Hl')
      as (q & sealed & tag & Hmade & Hok & Hwire & Hseal); [lia|].
    exists q, (rtp_bytes h ++ sealed ++ tag ++ pad_bytes draw).
    change sequence with (rtp_sequence h). change timestamp with (rtp_timestamp h). rewrite Hmade.
    split; [done|]. split; [done|]. split; [done|]. exists h, (sealed ++ tag ++ pad_bytes draw). conjs; try done.
    by exists sealed, tag, (pad_bytes draw).
  - destruct (wrap_video_ok c (new_config Video s) draw h pre payload gap post Hdraw Hmax H24 eq_refl eq_refl Hl')
      as (q & sealed & tag & Hmade & Hok & Hwire & Htag & Hsealed); [lia|].
    exists q, (rtp_bytes h ++ sealed ++ pad_bytes draw ++ tag).
    change sequence with (rtp_sequence h). change timestamp with (rtp_timestamp h). rewrite Hmade.
    split; [done|]. split; [done|]. split; [done|]. exists h, (sealed ++ pad_bytes draw ++ tag). conjs; try done.
    exists sealed, (pad_bytes draw), tag. conjs; try done. rewrite Hsealed. unfold video_plain.
    assert (length (xor_bytes payload (aes_ctr (aes_key c) (srtp_iv (rtp_ssrc h) (rtp_sequence h) (rtp_timestamp h))
              (length payload))) = length payload) as ->.
    { pose proof (zlen_video_plain c h payload) as Hz. unfold video_plain, zlen in Hz. lia. }
    rewrite xor_bytes_twice; [done|]. by rewrite aes_ctr_length.
Qed.

(** What a payload that fits becomes. *)
Lemma wrap_fits `{Digests} `{Ciphers} c m s state draw p payload :
  is_u 32 s -> draw_ok (new_config m s) draw -> buf_ok p -> as_slice p = Ret payload ->
  payload <> [] -> fits (new_config m s) draw p ->
  exists q wire, wrap_packet c (new_config m s) state draw p = Ret (Ok q, snd (obfs_next state))
    /\ buf_ok q /\ as_slice q = Ret wire /\ authentic c m wire (config_sequence state (count state)) payload.
Proof.
  intros Hs Hdraw Hok Hp Hne [Hstart Hend]. destruct (packet_parts p payload Hok Hp) as (pre0 & post0 & -> & Hl).
  unfold wrap_packet, is_empty, len. cbn [range_start range_end storage] in *.
  assert (1 <= zlen payload) by (destruct payload as [|b l]; [done|rewrite zlen_cons; pose proof (zlen_nonneg l); lia]).
  destruct_ltb; [lia|]. cbn [obfs_next snd]. cbv zeta. pose proof Hdraw as [Hd _]. rewrite !zlen_app in Hl.
  assert (PACKET_CAPACITY = 2304) as HC by done.
  assert (11 <= tail_len (new_config m s) draw <= 77) as Htail by (unfold tail_len; destruct m; simpl in *; lia).
  unfold checked_add, prepend, with_range. cbn [range_start range_end storage].
  destruct_ltb; [|lia]. destruct (Z.ltb_spec (zlen pre0) 24); [lia|].
  destruct (Z.leb_spec (zlen pre0 + zlen payload + tail_len (new_config m s) draw) PACKET_CAPACITY); [|lia].
  cbn [negb orb]. destruct (split_at_z pre0 (zlen pre0 - 24)) as (pre & g & -> & Hpre); [lia|].
  destruct (split_at_z post0 (tail_len (new_config m s) draw)) as (gap & post & -> & Hgap); [lia|].
  rewrite !zlen_app in *. rewrite <- app_assoc in *. assert (zlen g = 24) as Hg by lia.
  replace (zlen pre + zlen g - 24) with (zlen pre) by lia. rewrite Hg.
  replace (Z.max (zlen pre + 24 + zlen payload - (zlen pre + 24)) 0) with (zlen payload) by lia.
  match goal with |- context [wrap_header _ _ ?n ?t ?a ?x] =>
    match goal with |- context [fun w : result PacketBuf ObfsError => Ret (w, ?st)] =>
    destruct (wrap_made c m s draw n t a x pre g payload gap post st) as (q & wire & Hmade & Hq & Hwire & Hauth); try done
    end end.
  { unfold config_sequence, wrapping_add. by apply wrap_is_u. }
  { unfold wrapping_add. by apply wrap_is_u. }
  { rewrite !zlen_app. lia. }
  rewrite Hmade. by exists q, wire.
Qed.

Lemma tail_bounds m s draw : draw_ok (new_config m s) draw -> 0 <= tail_len (new_config m s) draw <= 2304.
Proof. intros [Hd _]. unfold tail_len. destruct m; simpl in *; lia. Qed.

(** What is refused. *)
Lemma wrap_refused `{Digests} `{Ciphers} c config state draw p payload :
  buf_ok p -> as_slice p = Ret payload -> 0 <= tail_len config draw <= 2304 -> ~ (payload <> [] /\ fits config draw p) ->
  exists e state', wrap_packet c config state draw p = Ret (Err e, state')
    /\ (state' = state \/ state' = snd (obfs_next state)).
Proof.
  intros Hok Hp Ht Hno. destruct (packet_parts p payload Hok Hp) as (pre & post & -> & Hl).
  unfold wrap_packet, is_empty. unfold fits in Hno. cbn [range_start range_end] in *. destruct_ltb; [eexists _, _; split; [reflexivity|by left]|].
  cbn [obfs_next]. cbv zeta. rewrite !zlen_app in Hl. pose proof (zlen_nonneg pre). pose proof (zlen_nonneg post).
  assert (PACKET_CAPACITY = 2304) as HC by done. unfold checked_add. destruct_ltb; [|lia].
  assert (payload <> []) as Hne by (intros ->; change (zlen (@nil Z)) with 0 in *; lia).
  destruct (Z.ltb_spec (zlen pre) 24), (Z.leb_spec (zlen pre + zlen payload + tail_len config draw) PACKET_CAPACITY);
    cbn [negb orb]; try (eexists _, _; split; [reflexivity|by right]). destruct Hno. split; [done|lia].
Qed.

(** C28: any payload that fits is wrapped, in either mode and whatever is drawn,
    into a packet made under the key, which the peer's [unwrap] opens to the
    same payload and the next sequence number. A payload that is empty or does
    not fit is refused, and nothing panics. *)
Theorem wrap_unwrap `{Digests} `{Ciphers} c m s state draw p payload :
  is_u 32 s -> draw_ok (new_config m s) draw -> buf_ok p -> as_slice p = Ret payload ->
  (payload <> [] /\ fits (new_config m s) draw p /\
   exists q wire q' state', wrap_packet c (new_config m s) state draw p = Ret (Ok q, state')
     /\ as_slice q = Ret wire /\ authentic c m wire (config_sequence state (count state)) payload
     /\ unwrap_packet c m q = Ret (Ok (config_sequence state (count state), q')) /\ as_slice q' = Ret payload)
  \/ (~ (payload <> [] /\ fits (new_config m s) draw p) /\
      exists e state', wrap_packet c (new_config m s) state draw p = Ret (Err e, state')).
Proof.
  intros Hs Hdraw Hok Hp. destruct (decide (payload <> [] /\ fits (new_config m s) draw p)) as [[Hne Hf]|Hno].
  - left. split; [done|]. split; [done|].
    destruct (wrap_fits c m s state draw p payload Hs Hdraw Hok Hp Hne Hf) as (q & wire & Hw & Hq & Hwire & Hauth).
    destruct (unwrap_complete c m q wire _ payload Hq Hwire Hauth) as (q' & Hu & _ & Hq').
    by eexists q, wire, q', _.
  - right. split; [done|].
    destruct (wrap_refused c (new_config m s) state draw p payload Hok Hp) as (e & state' & Hw & _); [by eapply tail_bounds|done|].
    by exists e, state'.
Qed.

(** ** A tunnel in one direction *)

(** What the receiver lets in of the packets that the sender wraps one after
    the other; [false] marks a packet that the network loses. *)
Fixpoint tunnel `{Digests} `{Ciphers} (c : ObfsCipher) (sender receiver : ObfsConfig) (state : ObfsState)
  (w : ReplayWindow) (jobs : list (bool * Draw * PacketBuf)) : res (list (option PacketBuf)) :=
  match jobs with
  | [] => Ret []
  | (delivered, draw, p) :: jobs =>
      wrapped ← wrap_packet c sender state draw p;
      match wrapped with
      | (Err _, state) => tunnel c sender receiver state w jobs
      | (Ok q, state) =>
          if (delivered : bool) then
            inbound ← authenticate_inbound c receiver w q;
            rest ← tunnel c sender receiver state (snd inbound) jobs;
            Ret (fst inbound :: rest)
          else tunnel c sender receiver state w jobs
      end
  end.

(** Fewer than 2^15 - 1 packets are lost in a row; [lost] have just been. *)
Fixpoint losses_ok (lost : Z) (flags : list bool) : Prop :=
  match flags with
  | [] => True
  | true :: flags => losses_ok 0 flags
  | false :: flags => lost + 1 < 2 ^ 15 - 1 /\ losses_ok (lost + 1) flags
  end.

Definition job_ok (config : ObfsConfig) (job : bool * Draw * PacketBuf) : Prop :=
  draw_ok config (snd (fst job)) /\ buf_ok (snd job) /\ fits config (snd (fst job)) (snd job)
  /\ exists payload, as_slice (snd job) = Ret payload /\ payload <> [].

(** The window has not started, or last accepted the counter [lost + 1] before
    the one whose sequence number comes next. *)
Definition expects (w : ReplayWindow) (sequence lost room : Z) : Prop :=
  w = default_window
  \/ exists h accepted, window_rel w (Some h, accepted) /\ 0 <= h /\ h + lost + room < 2 ^ 62
       /\ sequence = (h + lost + 1) mod 2 ^ 16.

Lemma config_sequence_next state :
  config_sequence (snd (obfs_next state)) (count (snd (obfs_next state)))
  = wrapping_add 16 (config_sequence state (count state)) 1.
Proof.
  unfold config_sequence, wrapping_add, wrap. cbn [obfs_next snd count initial_sequence]. unfold wrapping_add, wrap.
  assert (((count state + 1) mod 2 ^ 64) mod 2 ^ 16 = (count state + 1) mod 2 ^ 16) as ->.
  { apply Z.mod_mod_divide. by exists (2 ^ 48). }
  rewrite !Z.add_mod_idemp_r, !Z.add_mod_idemp_l by lia. f_equal. lia.
Qed.

Lemma inbound_complete `{Digests} `{Ciphers} c config w p wire n payload :
  buf_ok p -> as_slice p = Ret wire -> authentic c (mode config) wire n payload ->
  exists q, as_slice q = Ret payload /\
    authenticate_inbound c config w p
    = Ret (if (fst (accept_rtp w n) : bool) then Some q else None, snd (accept_rtp w n)).
Proof.
  intros Hok Hw Hauth. destruct (unwrap_complete c (mode config) p wire n payload Hok Hw Hauth) as (q & Hu & _ & Hq).
  exists q. split; [done|]. unfold authenticate_inbound. rewrite Hw. rbind.
  assert (is_rtp_packet wire = Ret true) as ->.
  { pose proof Hu as Hu'. unfold unwrap_packet in Hu'. rewrite Hw in Hu'. cbn [mbind res_bind] in Hu'.
    apply bind_ret_inv in Hu' as (f & Hf & Hu'). destruct f as [f|]; [|done]. by eapply header_accepted. }
  rbind. cbn [negb]. rewrite Hu. rbind. by destruct (accept_rtp w n).
Qed.

(** The packet that a window expects next is accepted, and the next one then. *)
Lemma expected_accepted w sequence lost room :
  is_u 16 sequence -> 0 <= lost < 2 ^ 15 - 1 -> 0 < room < 2 ^ 61 -> expects w sequence lost room ->
  exists w', accept_rtp w sequence = (true, w') /\ expects w' ((sequence + 1) mod 2 ^ 16) 0 (room - 1).
Proof.
  intros Hs Hlost Hroom [->|(h & accepted & Hrel & Hh & Hbound & Hseq)].
  - unfold accept_rtp. cbn [default_window highest]. pose proof (accept_step default_window (None, []) sequence default_rel) as Ha.
    destruct (accept default_window sequence) as [b w']. destruct Ha as [-> Hrel]. exists w'. split; [done|]. right.
    exists sequence, [sequence]. unfold is_u in Hs. split; [done|]. split; [lia|]. split; [lia|]. f_equal. lia.
  - set (n := h + lost + 1) in *. assert (accept_rtp w sequence = accept w n) as ->.
    { unfold accept_rtp. rewrite (proj1 (proj2 Hrel)). cbn [fst]. rewrite Hseq. by rewrite extend_counter by lia. }
    pose proof (accept_step w _ n Hrel) as Ha. destruct (accept w n) as [b w']. cbn [spec_accept] in Ha.
    destruct (Z.ltb_spec h n); [|lia]. destruct Ha as [-> Hrel']. exists w'. split; [done|]. right.
    exists n, (n :: accepted). split; [done|]. split; [lia|]. split; [lia|]. rewrite Hseq.
    rewrite Z.add_mod_idemp_l by lia. f_equal. lia.
Qed.

Lemma expects_lost w sequence lost room :
  0 <= lost -> expects w sequence lost room -> expects w ((sequence + 1) mod 2 ^ 16) (lost + 1) (room - 1).
Proof.
  intros Hl [->|(h & accepted & Hrel & Hh & Hb & ->)]; [by left|]. right. exists h, accepted.
  split; [done|]. split; [done|]. split; [lia|]. rewrite Z.add_mod_idemp_l by lia. f_equal. lia.
Qed.

(** Which packets the receiver lets in: each one that arrives. *)
Definition arrived (job : bool * Draw * PacketBuf) (o : option PacketBuf) : Prop :=
  exists q payload, o = Some q /\ as_slice q = Ret payload /\ as_slice (snd job) = Ret payload.

Lemma tunnel_from `{Digests} `{Ciphers} c m s r jobs : forall state w lost,
  is_u 32 s -> Forall (job_ok (new_config m s)) jobs -> losses_ok lost (map (fun j => fst (fst j)) jobs) ->
  zlen jobs < 2 ^ 61 -> 0 <= lost < 2 ^ 15 - 1 -> expects w (config_sequence state (count state)) lost (zlen jobs) ->
  exists out, tunnel c (new_config m s) (new_config m r) state w jobs = Ret out
    /\ Forall2 arrived (List.filter (fun j => fst (fst j)) jobs) out.
Proof.
  induction jobs as [|[[delivered draw] p] jobs IH]; intros state w lost Hs Hjobs Hloss Hn Hlost Hex; cbn [tunnel].
  { exists []. split; [done|]. constructor. }
  apply Forall_cons in Hjobs as [(Hdraw & Hok & Hfits & payload & Hp & Hne) Hjobs]. cbn [fst snd] in *.
  destruct (wrap_fits c m s state draw p payload Hs Hdraw Hok Hp Hne Hfits) as (q & wire & -> & Hq & Hwire & Hauth). rbind.
  rewrite zlen_cons in *. pose proof (zlen_nonneg jobs).
  assert (is_u 16 (config_sequence state (count state))) as Hu by (by apply wrap_is_u).
  pose proof (config_sequence_next state) as Hnext. unfold wrapping_add, wrap in Hnext.
  cbn [map fst losses_ok] in Hloss. destruct delivered.
  - destruct (expected_accepted w _ lost (1 + zlen jobs) Hu Hlost ltac:(lia) Hex) as (w' & Hacc & Hex').
    assert (mode (new_config m r) = m) as Hm by (by destruct m). rewrite <- Hm in Hauth.
    destruct (inbound_complete c (new_config m r) w q wire _ payload Hq Hwire Hauth) as (q' & Hq' & ->). rbind.
    rewrite Hacc. cbn [fst snd].
    destruct (IH (snd (obfs_next state)) w' 0) as (out & -> & Hout); try done; try lia.
    { rewrite Hnext. by replace (zlen jobs) with (1 + zlen jobs - 1) by lia. }
    rbind. eexists. split; [reflexivity|]. cbn [List.filter fst]. constructor; [|done]. by exists q', payload.
  - destruct Hloss as [Hl15 Hloss]. apply (IH (snd (obfs_next state)) w (lost + 1)); try done; try lia.
    rewrite Hnext. replace (zlen jobs) with (1 + zlen jobs - 1) by lia. apply expects_lost; [lia|done].
Qed.

(** C5: a tunnel delivers: of the packets that a session wraps one after the
    other, in either mode and whatever is drawn, every one that the network
    delivers, in order, is let in by a fresh receiver with its payload intact,
    whatever sequence number the session started from and across its wraps,
    as long as fewer than 2^15 - 1 packets are lost in a row. *)
Theorem tunnel_delivers `{Digests} `{Ciphers} c m s r state jobs :
  is_u 32 s -> Forall (job_ok (new_config m s)) jobs -> losses_ok 0 (map (fun j => fst (fst j)) jobs) ->
  zlen jobs < 2 ^ 61 ->
  exists out, tunnel c (new_config m s) (new_config m r) state default_window jobs = Ret out
    /\ Forall2 arrived (List.filter (fun j => fst (fst j)) jobs) out.
Proof. intros Hs Hjobs Hloss Hn. apply (tunnel_from c m s r jobs state default_window 0); try done. by left. Qed.

(** ** Nonces *)

(** What a session makes of the packets that it wraps one after the other; the
    state moves on with the packets that are refused too. *)
Fixpoint wraps `{Digests} `{Ciphers} (c : ObfsCipher) (config : ObfsConfig) (state : ObfsState)
  (jobs : list (Draw * PacketBuf)) : res (list (result PacketBuf ObfsError)) :=
  match jobs with
  | [] => Ret []
  | (draw, p) :: jobs =>
      wrapped ← wrap_packet c config state draw p;
      rest ← wraps c config (snd wrapped) jobs;
      Ret (fst wrapped :: rest)
  end.

(** [payload] is in [wire], sealed (or, in the video mode, ciphered) under the
    key of [c] and the nonce [n]. *)
Definition sealed_under `{Digests} `{Ciphers} (c : ObfsCipher) (m : ObfsMode) (n wire payload : bytes) : Prop :=
  exists head body, wire = head ++ body /\
    match m with
    | Audio => exists sealed tag pad, body = sealed ++ tag ++ pad /\ seal (chacha_key c) n head payload = (sealed, tag)
    | Video => exists sealed rest, body = sealed ++ rest
        /\ sealed = xor_bytes payload (aes_ctr (aes_key c) (n ++ [0; 0; 0; 0]) (length payload))
    end.

(** What becomes of one packet: a payload that fits is sealed under the nonce
    [n], and what does not fit is refused and uses none. *)
Definition wrap_result `{Digests} `{Ciphers} (c : ObfsCipher) (config : ObfsConfig) (job : Draw * PacketBuf)
  (r : result PacketBuf ObfsError) (n : option bytes) : Prop :=
  exists payload, as_slice (snd job) = Ret payload /\
    match r with
    | Ok q => payload <> [] /\ fits config (fst job) (snd job)
        /\ exists used wire, n = Some used /\ as_slice q = Ret wire /\ sealed_under c (mode config) used wire payload
    | Err _ => ~ (payload <> [] /\ fits config (fst job) (snd job)) /\ n = None
    end.

Lemma nonce_sequence s n t s' n' t' : is_u 16 n -> is_u 16 n' -> nonce s n t = nonce s' n' t' -> n = n'.
Proof.
  intros Hn Hn' He. unfold nonce in He. apply app_inj_1 in He as [_ He]; [|by rewrite !length_to_be].
  apply app_inj_1 in He as [He _]; [|by rewrite !length_to_be].
  rewrite <- (of_be_to_be_small 2 n), <- (of_be_to_be_small 2 n') by done. by rewrite He.
Qed.

Lemma authentic_sealed `{Digests} `{Ciphers} c m wire sequence payload :
  authentic c m wire sequence payload -> is_u 16 sequence /\ exists s t, sealed_under c m (nonce s sequence t) wire payload.
Proof.
  intros (h & body & -> & (_ & _ & Hu & _) & -> & Hb). split; [done|].
  exists (rtp_ssrc h), (rtp_timestamp h), (rtp_bytes h), body. split; [done|]. destruct m.
  - destruct Hb as (_ & _ & sealed & tag & pad & -> & Hs & _). by exists sealed, tag, pad.
  - destruct Hb as (sealed & pad & tag & -> & _ & _ & ->). exists sealed, (pad ++ tag). split; [done|].
    assert (nonce (rtp_ssrc h) (rtp_sequence h) (rtp_timestamp h) ++ [0; 0; 0; 0]
            = srtp_iv (rtp_ssrc h) (rtp_sequence h) (rtp_timestamp h)) as ->
      by (unfold nonce, srtp_iv; by rewrite <- !app_assoc).
    set (iv := srtp_iv _ _ _).
    assert (length (xor_bytes sealed (aes_ctr (aes_key c) iv (length sealed))) = length sealed) as ->.
    { pose proof (zlen_xor_bytes sealed (aes_ctr (aes_key c) iv (length sealed))) as Hz. unfold zlen in Hz.
      rewrite aes_ctr_length in Hz. specialize (Hz (Nat.le_refl _)). lia. }
    rewrite xor_bytes_twice; [done|]. by rewrite aes_ctr_length.
Qed.

(** One packet: its nonce holds the session's next sequence number. *)
Lemma wrap_one `{Digests} `{Ciphers} c m s state draw p :
  is_u 32 s -> draw_ok (new_config m s) draw -> buf_ok p ->
  exists r state' n, wrap_packet c (new_config m s) state draw p = Ret (r, state')
    /\ wrap_result c (new_config m s) (draw, p) r n
    /\ ((n = None /\ state' = state) \/ (state' = snd (obfs_next state)
        /\ forall used, n = Some used -> exists s t, used = nonce s (config_sequence state (count state)) t)).
Proof.
  intros Hs Hdraw Hok. pose proof Hok as (Hlen & Hse & He).
  destruct (returns_slice (storage p) (range_start p) (range_end p)) as [payload Hp]; [lia..|]. change (as_slice p = Ret payload) in Hp.
  assert (mode (new_config m s) = m) as Hm by (by destruct m).
  destruct (decide (payload <> [] /\ fits (new_config m s) draw p)) as [[Hne Hf]|Hno].
  - destruct (wrap_fits c m s state draw p payload Hs Hdraw Hok Hp Hne Hf) as (q & wire & Hw & _ & Hwire & Hauth).
    apply authentic_sealed in Hauth as (_ & s' & t & Hsealed).
    exists (Ok q), (snd (obfs_next state)), (Some (nonce s' (config_sequence state (count state)) t)).
    split; [done|]. split; [|right; split; [done|intros used [= <-]; by exists s', t]].
    exists payload. split; [done|]. split; [done|]. split; [done|]. rewrite Hm. by eexists _, wire.
  - destruct (wrap_refused c (new_config m s) state draw p payload Hok Hp) as (e & state' & Hw & Hst); [by eapply tail_bounds|done|].
    exists (Err e), state', None. split; [done|]. split; [by exists payload|].
    destruct Hst as [->| ->]; [by left|right]. split; [done|discriminate].
Qed.

(** The nonces hold the sequence numbers from the next one on, each at most once. *)
Lemma wraps_from `{Digests} `{Ciphers} c m s jobs : forall state,
  is_u 32 s -> Forall (fun job => draw_ok (new_config m s) (fst job) /\ buf_ok (snd job)) jobs -> zlen jobs <= 2 ^ 16 ->
  exists out ns, wraps c (new_config m s) state jobs = Ret out /\ Forall3 (wrap_result c (new_config m s)) jobs out ns
    /\ NoDup (omap id ns)
    /\ forall n, n ∈ omap id ns -> exists i s t, 0 <= i < zlen jobs
         /\ n = nonce s ((config_sequence state (count state) + i) mod 2 ^ 16) t.
Proof.
  induction jobs as [|[draw p] jobs IH]; intros state Hs Hjobs Hl; cbn [wraps].
  { exists [], []. split; [done|]. split; [constructor|]. split; [constructor|]. by intros n ?%elem_of_nil. }
  apply Forall_cons in Hjobs as [[Hdraw Hok] Hjobs]. cbn [fst snd] in *. rewrite zlen_cons in *. pose proof (zlen_nonneg jobs).
  destruct (wrap_one c m s state draw p Hs Hdraw Hok) as (r & state' & n & -> & Hr & Hn). rbind. cbn [fst snd].
  destruct (IH state' Hs Hjobs ltac:(lia)) as (out & ns & -> & Hout & Hnd & Hin). rbind.
  assert (is_u 16 (config_sequence state (count state))) as Hu by (by apply wrap_is_u).
  exists (r :: out), (n :: ns). split; [done|]. split; [by constructor|]. destruct Hn as [[-> ->]|[-> Hn]].
  - split; [done|]. intros n (i & s' & t & Hi & ->)%Hin. exists i, s', t. split; [lia|done].
  - rewrite config_sequence_next in Hin. unfold wrapping_add, wrap in Hin.
    assert (forall n, n ∈ omap id ns -> exists i s t, 0 <= i < zlen jobs
              /\ n = nonce s ((config_sequence state (count state) + (1 + i)) mod 2 ^ 16) t) as Hin'.
    { intros x (i & s' & t & Hi & ->)%Hin. exists i, s', t. split; [done|]. rewrite Z.add_mod_idemp_l by lia. do 2 f_equal. lia. }
    clear Hin. destruct n as [n|]; cbn [omap list_omap id].
    + destruct (Hn n eq_refl) as (s0 & t0 & ->). split.
      * constructor; [|done]. intros (i & s' & t & Hi & He)%Hin'.
        apply nonce_sequence in He; [|done|by apply Z.mod_pos_bound]. unfold is_u in Hu.
        change (2 ^ 16) with 65536 in *. Z.to_euclidean_division_equations. lia.
      * intros x [->|(i & s' & t & Hi & ->)%Hin']%elem_of_cons.
        { exists 0, s0, t0. split; [lia|]. by rewrite Z.add_0_r, Z.mod_small. }
        exists (1 + i), s', t. split; [lia|done].
    + split; [done|]. intros x (i & s' & t & Hi & ->)%Hin'. exists (1 + i), s', t. split; [lia|done].
Qed.

(** C31: a session never uses a nonce twice within 65536 packets: of the packets
    that it wraps one after the other, in either mode, whatever is drawn and
    whatever the clock reads, every payload that fits is in its packet sealed
    under a nonce of its own, and those that are refused in between use none; the
    reason is that the nonce holds the sequence number, which counts the packets.
    With the same key a repeated nonce would give away what was sealed under it. *)
Theorem nonces_distinct `{Digests} `{Ciphers} c m s state jobs :
  is_u 32 s -> Forall (fun job => draw_ok (new_config m s) (fst job) /\ buf_ok (snd job)) jobs -> zlen jobs <= 2 ^ 16 ->
  exists out ns, wraps c (new_config m s) state jobs = Ret out
    /\ Forall3 (wrap_result c (new_config m s)) jobs out ns /\ NoDup (omap id ns).
Proof.
  intros Hs Hjobs Hl. destruct (wraps_from c m s jobs state Hs Hjobs Hl) as (out & ns & Hw & Hout & Hnd & _).
  by exists out, ns.
Qed.

(** ** Instances *)

Definition example_key : ObfsCipher := new_cipher (seqZ 0 32).
Definition example_state : ObfsState := new_obfs_state 1700000000000 5 65535 7.
Definition example_draw : Draw := mkDraw 20000000 3 0 [9; 9; 9].
Definition example_plain : PacketBuf := mkPacketBuf (replicate 64 0 ++ [1; 2; 3] ++ replicate 2237 0) 64 67.
Definition example_wrapped (m : ObfsMode) : PacketBuf :=
  match wrap_packet example_key (new_config m 77) example_state example_draw example_plain with
  | Ret (Ok q, _) => q
  | _ => example_plain
  end.

Lemma example_plain_ok : buf_ok example_plain.
Proof. split; [vm_compute; reflexivity|]. unfold PACKET_CAPACITY. simpl. lia. Qed.

Lemma example_draw_ok m : draw_ok (new_config m 77) example_draw.
Proof. split; [|reflexivity]. destruct m; simpl; lia. Qed.

Lemma example_fits m : fits (new_config m 77) example_draw example_plain.
Proof. unfold fits, tail_len, PACKET_CAPACITY. destruct m; simpl; lia. Qed.

Lemma wrap_unwrap_witness :
  exists q state' q', wrap_packet example_key (new_config Video 77) example_state example_draw example_plain = Ret (Ok q, state')
    /\ unwrap_packet example_key Video q = Ret (Ok (65535, q')) /\ as_slice q' = Ret [1; 2; 3].
Proof.
  destruct (wrap_unwrap example_key Video 77 example_state example_draw example_plain [1; 2; 3])
    as [(_ & _ & q & wire & q' & state' & Hw & _ & _ & Hu & Hq)|[Hno _]].
  - split; [discriminate|reflexivity].
  - exact (example_draw_ok Video).
  - exact example_plain_ok.
  - reflexivity.
  - exists q, state', q'. split; [exact Hw|]. split; [exact Hu|exact Hq].
  - destruct Hno. split; [discriminate|exact (example_fits Video)].
Defined.

Lemma inbound_iff_witness :
  exists q w', authenticate_inbound example_key (new_config Audio 0) default_window (example_wrapped Audio) = Ret (Some q, w')
    /\ as_slice q = Ret [1; 2; 3].
Proof.
  destruct (inbound_iff example_key (new_config Audio 0) default_window (example_wrapped Audio)
    (match as_slice (example_wrapped Audio) with Ret wire => wire | Panic => [] end)) as (o & w' & Ha & Hiff & _).
  - split; [vm_compute; reflexivity|]. split; [split; vm_compute; discriminate|vm_compute; discriminate].
  - apply is_bytes_check. vm_compute. reflexivity.
  - vm_compute. reflexivity.
  - assert (exists q, authenticate_inbound example_key (new_config Audio 0) default_window (example_wrapped Audio)
                      = Ret (Some q, w')) as [q Hq].
    { destruct o as [q|]; [exists q; exact Ha|]. exfalso. clear Hiff. revert Ha. vm_compute. discriminate. }
    rewrite Ha in Hq. injection Hq as ->. exists q, w'. split; [exact Ha|].
    assert (as_slice q = Ret [1; 2; 3]) as Hs.
    { clear Hiff. revert Ha. vm_compute. intros [= <- _]. reflexivity. }
    exact Hs.
Defined.

Lemma tunnel_delivers_witness :
  exists out, tunnel example_key (new_config Audio 77) (new_config Audio 0) example_state default_window
      [(true, example_draw, example_plain); (false, example_draw, example_plain); (true, example_draw, example_plain)] = Ret out
    /\ length out = 2%nat.
Proof.
  destruct (tunnel_delivers example_key Audio 77 0 example_state
    [(true, example_draw, example_plain); (false, example_draw, example_plain); (true, example_draw, example_plain)])
    as (out & Ht & Hout).
  - split; [discriminate|reflexivity].
  - assert (forall b, job_ok (new_config Audio 77) (b, example_draw, example_plain)) as Hj.
    { intros b. split; [exact (example_draw_ok Audio)|]. split; [exact example_plain_ok|].
      split; [exact (example_fits Audio)|]. exists [1; 2; 3]. split; [reflexivity|discriminate]. }
    repeat (apply List.Forall_cons; [apply Hj|]). apply List.Forall_nil.
  - simpl. lia.
  - vm_compute. reflexivity.
  - exists out. split; [exact Ht|]. symmetry. exact (Forall2_length _ _ _ Hout).
Defined.

Lemma nonces_distinct_witness :
  exists out (ns : list (option bytes)), wraps example_key (new_config Audio 77) example_state
      [(example_draw, example_plain); (example_draw, mkPacketBuf (replicate 2304 0) 64 64); (example_draw, example_plain)] = Ret out
    /\ length out = 3%nat /\ NoDup (omap id ns).
Proof.
  destruct (nonces_distinct example_key Audio 77 example_state
    [(example_draw, example_plain); (example_draw, mkPacketBuf (replicate 2304 0) 64 64); (example_draw, example_plain)])
    as (out & ns & Hw & Hout & Hnd).
  - split; [discriminate|reflexivity].
  - assert (buf_ok (mkPacketBuf (replicate 2304 0) 64 64)) as Hempty.
    { split; [vm_compute; reflexivity|]. unfold PACKET_CAPACITY. simpl. lia. }
    repeat (apply List.Forall_cons; [split; [exact (example_draw_ok Audio)|]|]);
      [exact example_plain_ok|exact Hempty|exact example_plain_ok|apply List.Forall_nil].
  - vm_compute. discriminate.
  - exists out, ns. split; [exact Hw|]. split; [|exact Hnd]. symmetry. exact (Forall3_length_lm _ _ _ _ Hout).
Defined.
