(* ===== verification/Credentials.v ===== *)
(** * Credentials: the TURN credentials that a cohort of workers shares

    Models [CredentialCache] and [GroupCredentials] of [worker.rs]: a credential
    is handed out as leases, at most eighteen outstanding at once, and rotated
    when the relay refuses it; what a worker reports about a lease counts only
    while its credential is the current one. The mutex of the cache is held for
    the whole of each operation, and by [get] across its waits, so that an
    operation is one step. Durations are nanoseconds. *)

From S2P Require Import Prelude Bytes Text TurnCore.

Definition WORKERS_PER_GROUP : Z := 9.
Definition GROUPS_PER_CREDENTIAL : Z := 2.
Definition WORKERS_PER_CREDENTIAL : Z := WORKERS_PER_GROUP * GROUPS_PER_CREDENTIAL.
Definition CREDENTIAL_POST_DELAY : Z := millis 100.

Record TurnCredentials : Type := mkCredentials {
  tc_username : text;
  tc_password : text;
  tc_server_addresses : list text;
}.

#[export] Instance credentials_eq_dec : EqDecision TurnCredentials.
Proof. solve_decision. Defined.

Definition same_turn_credentials (left right : TurnCredentials) : bool :=
  bytes_eqb (tc_username left) (tc_username right) && bytes_eqb (tc_password left) (tc_password right)
  && bool_decide (tc_server_addresses left = tc_server_addresses right).

Record CachedCredentials : Type := mkCached {
  c_value : TurnCredentials;
  c_generation : Z;
  allocation_attempts : Z;
  allocation_mismatches : Z;
}.

Record CredentialLease : Type := mkLease { l_value : TurnCredentials; l_generation : Z }.

Record CredentialCache : Type := mkCache {
  current : option CachedCredentials;
  quota_blocked : option TurnCredentials;
  next_generation : Z;
  quota_retries : Z;
}.
Definition default_cache : CredentialCache := mkCache None None 0 0.

Inductive QuotaRotation : Type := QuotaRotated (delay : Z) | QuotaReplaced.
Inductive AllocationMismatch : Type := RetryCurrent | MismatchRotated | MismatchReplaced.

Definition quota_rotation_delay (attempt : Z) : Z :=
  millis (if attempt =? 0 then 100 else if attempt =? 1 then 300 else if attempt =? 2 then 500
          else if attempt =? 3 then 800 else 1500).

Definition set_current (s : CredentialCache) (c : option CachedCredentials) : CredentialCache :=
  mkCache c (quota_blocked s) (next_generation s) (quota_retries s).

(** The test by which every report finds out whether its lease is current. *)
Definition is_lease_of (cached : CachedCredentials) (lease : CredentialLease) : bool :=
  (c_generation cached =? l_generation lease) && same_turn_credentials (c_value cached) (l_value lease).

Definition reserve (s : CredentialCache) : option CredentialLease * CredentialCache :=
  let s :=
    match current s with
    | Some cached => if WORKERS_PER_CREDENTIAL <=? allocation_attempts cached then set_current s None else s
    | None => s
    end in
  match current s with
  | None => (None, s)
  | Some cached =>
      (Some (mkLease (c_value cached) (c_generation cached)),
       set_current s (Some (mkCached (c_value cached) (c_generation cached)
                              (saturating_add 64 (allocation_attempts cached) 1) (allocation_mismatches cached))))
  end.

Definition store (s : CredentialCache) (credentials : TurnCredentials) : bool * CredentialCache :=
  if match quota_blocked s with Some blocked => same_turn_credentials blocked credentials | None => false end
  then (false, s)
  else
    let generation := Z.max (saturating_add 64 (next_generation s) 1) 1 in
    (true, mkCache (Some (mkCached credentials generation 0 0)) None generation (quota_retries s)).

Definition record_allocation (s : CredentialCache) (lease : CredentialLease) : CredentialCache :=
  match current s with
  | Some cached =>
      if is_lease_of cached lease
      then mkCache (Some (mkCached (c_value cached) (c_generation cached) (allocation_attempts cached) 0))
             (quota_blocked s) (next_generation s) 0
      else s
  | None => s
  end.

Definition release (s : CredentialCache) (lease : CredentialLease) : CredentialCache :=
  match current s with
  | Some cached =>
      if is_lease_of cached lease
      then set_current s (Some (mkCached (c_value cached) (c_generation cached)
                                  (saturating_sub (allocation_attempts cached) 1) (allocation_mismatches cached)))
      else s
  | None => s
  end.

Definition invalidate (s : CredentialCache) (lease : CredentialLease) : bool * CredentialCache :=
  match current s with
  | Some cached => if is_lease_of cached lease then (true, set_current s None) else (false, s)
  | None => (false, s)
  end.

Definition rotate_after_quota (s : CredentialCache) (lease : CredentialLease) : QuotaRotation * CredentialCache :=
  match current s with
  | None => (QuotaReplaced, s)
  | Some cached =>
      if negb (c_generation cached =? l_generation lease) || negb (same_turn_credentials (c_value cached) (l_value lease))
      then (QuotaReplaced, s)
      else (QuotaRotated (quota_rotation_delay (quota_retries s)),
            mkCache None (Some (c_value cached)) (next_generation s) (saturating_add 64 (quota_retries s) 1))
  end.

Definition next_quota_delay (s : CredentialCache) : Z * CredentialCache :=
  (quota_rotation_delay (quota_retries s),
   mkCache (current s) (quota_blocked s) (next_generation s) (saturating_add 64 (quota_retries s) 1)).

Definition retry_after_mismatch (s : CredentialCache) (lease : CredentialLease) : AllocationMismatch * CredentialCache :=
  match current s with
  | None => (MismatchReplaced, s)
  | Some cached =>
      if negb (c_generation cached =? l_generation lease) || negb (same_turn_credentials (c_value cached) (l_value lease))
      then (MismatchReplaced, s)
      else if allocation_mismatches cached =? 0
      then (RetryCurrent, set_current s (Some (mkCached (c_value cached) (c_generation cached) (allocation_attempts cached) 1)))
      else (MismatchRotated, set_current s None)
  end.

(** ** The credentials of a group *)

Record GroupCredentials : Type := mkGroup {
  state : CredentialCache;
  failures : Z;
  unavailable : bool;
}.

Inductive FetchError : Type := CallUnavailable | OtherError.

(** What [get] meets: whether the pacer's lock came before a cancellation,
    whether the hash has become unavailable meanwhile, what the fetch gave if
    it was not cancelled, whether the sleep at the end was not, and the random
    part of the delay. *)
Record GetEnv : Type := mkGetEnv {
  pacer_acquired : bool;
  unavailable_later : bool;
  fetched : option (result TurnCredentials FetchError);
  slept : bool;
  get_jitter : Z;
}.

(** [GroupCredentials::get], with the delay that it slept before giving up. *)
Definition get (env : GetEnv) (g : GroupCredentials) : option CredentialLease * GroupCredentials * option Z :=
  if unavailable g then (None, g, None) else
  let '(lease, cache) := reserve (state g) in
  let g := mkGroup cache (failures g) (unavailable g) in
  match lease with
  | Some lease => (Some lease, g, None)
  | None =>
      if negb (pacer_acquired env) then (None, g, None) else
      let g := mkGroup (state g) (failures g) (unavailable_later env) in
      if unavailable g then (None, g, None) else
      match fetched env with
      | None => (None, g, None)
      | Some (Ok credentials) =>
          match store (state g) credentials with
          | (false, cache) =>
              let '(delay, cache) := next_quota_delay cache in
              (None, mkGroup cache (failures g) (unavailable g), Some delay)
          | (true, cache) =>
              let g := mkGroup cache 0 (unavailable g) in
              if negb (slept env) then (None, g, None) else
              let '(lease, cache) := reserve (state g) in
              (lease, mkGroup cache (failures g) (unavailable g), Some CREDENTIAL_POST_DELAY)
          end
      | Some (Err CallUnavailable) => (None, mkGroup (state g) (failures g) true, None)
      | Some (Err OtherError) =>
          let shift := Z.min (failures g) 5 in
          let delay := Z.min (CREDENTIAL_POST_DELAY * Z.shiftl 1 shift) (secs 3) + millis (get_jitter env mod 100) in
          (None, mkGroup (state g) (wrapping_add 64 (failures g) 1) (unavailable g), Some delay)
      end
  end.

(** ** Histories *)

Inductive CacheCall : Type :=
| CallReserve
| CallStore (credentials : TurnCredentials)
| CallRecord (lease : CredentialLease)
| CallRelease (lease : CredentialLease)
| CallInvalidate (lease : CredentialLease)
| CallRotate (lease : CredentialLease)
| CallNextDelay
| CallMismatch (lease : CredentialLease).

Definition cache_call (s : CredentialCache) (c : CacheCall) : CredentialCache :=
  match c with
  | CallReserve => snd (reserve s)
  | CallStore credentials => snd (store s credentials)
  | CallRecord lease => record_allocation s lease
  | CallRelease lease => release s lease
  | CallInvalidate lease => snd (invalidate s lease)
  | CallRotate lease => snd (rotate_after_quota s lease)
  | CallNextDelay => snd (next_quota_delay s)
  | CallMismatch lease => snd (retry_after_mismatch s lease)
  end.

(** The lease that a call grants. *)
Definition granted_by (s : CredentialCache) (c : CacheCall) : option CredentialLease :=
  match c with CallReserve => fst (reserve s) | _ => None end.

Fixpoint run_cache (s : CredentialCache) (calls : list CacheCall) : CredentialCache :=
  match calls with [] => s | c :: calls => run_cache (cache_call s c) calls end.
Fixpoint granted (s : CredentialCache) (calls : list CacheCall) : list CredentialLease :=
  match calls with
  | [] => []
  | c :: calls => option_list (granted_by s c) ++ granted (cache_call s c) calls
  end.

(** The leases of a generation that are granted, and those that are released. *)
Definition count_of_generation (g : Z) (leases : list CredentialLease) : Z :=
  zlen (List.filter (fun l => l_generation l =? g) leases).
Definition released (calls : list CacheCall) : list CredentialLease :=
  omap (fun c => match c with CallRelease l => Some l | _ => None end) calls.

(** The leases of a credential, whatever their generation. *)
Definition count_of_value (v : TurnCredentials) (leases : list CredentialLease) : Z :=
  zlen (List.filter (fun l => bool_decide (l_value l = v)) leases).

(** How often the credential was stored, and not turned away. *)
Definition stored_by (v : TurnCredentials) (s : CredentialCache) (c : CacheCall) : Z :=
  match c with
  | CallStore credentials => if (fst (store s credentials) && bool_decide (credentials = v))%bool then 1 else 0
  | _ => 0
  end.
Fixpoint times_stored (v : TurnCredentials) (s : CredentialCache) (calls : list CacheCall) : Z :=
  match calls with [] => 0 | c :: calls => stored_by v s c + times_stored v (cache_call s c) calls end.

Lemma same_credentials_spec a b : same_turn_credentials a b = true <-> a = b.
Proof.
  unfold same_turn_credentials. rewrite !andb_true_iff, !bytes_eqb_eq, bool_decide_eq_true.
  destruct a, b; simpl. naive_solver.
Qed.

(** What every cache satisfies; [n] bounds the stores so far. *)
Record cache_wf (s : CredentialCache) (n : Z) : Prop := {
  wf_generation : 0 <= next_generation s <= n;
  wf_blocked : quota_blocked s <> None -> current s = None;
  wf_current : forall c, current s = Some c ->
    c_generation c = next_generation s /\ 1 <= c_generation c
    /\ 0 <= allocation_attempts c <= WORKERS_PER_CREDENTIAL /\ 0 <= allocation_mismatches c <= 1;
}.

Lemma default_cache_wf : cache_wf default_cache 0.
Proof. split; simpl; [lia|done|done]. Qed.

(** A cache that differs only in its current credential. *)
Lemma set_current_wf s n c :
  cache_wf s n ->
  (forall x, c = Some x -> current s <> None /\ c_generation x = next_generation s /\ 1 <= c_generation x
     /\ 0 <= allocation_attempts x <= WORKERS_PER_CREDENTIAL /\ 0 <= allocation_mismatches x <= 1) ->
  cache_wf (set_current s c) n.
Proof.
  intros [Hg Hb Hc] Hx. split; simpl; [done| |].
  - intros Hq. destruct c as [x|]; [|done]. destruct (Hx x eq_refl) as [Hn _]. by rewrite Hb in Hn.
  - intros x ->. by destruct (Hx x eq_refl) as [_ ?].
Qed.

(** ** The invariant *)

Lemma reserve_cases s n :
  cache_wf s n ->
  (exists c, current s = Some c /\ allocation_attempts c < WORKERS_PER_CREDENTIAL
     /\ reserve s = (Some (mkLease (c_value c) (c_generation c)),
                     set_current s (Some (mkCached (c_value c) (c_generation c) (allocation_attempts c + 1) (allocation_mismatches c)))))
  \/ (reserve s = (None, set_current s None)
      /\ forall c, current s = Some c -> allocation_attempts c = WORKERS_PER_CREDENTIAL).
Proof.
  intros [_ _ Hc]. unfold reserve. destruct (current s) as [c|] eqn:Ec.
  - destruct (Hc c eq_refl) as (_ & _ & Ha & _). destruct (Z.leb_spec WORKERS_PER_CREDENTIAL (allocation_attempts c)).
    + right. simpl. split; [done|]. intros x [= <-]. lia.
    + left. exists c. rewrite Ec. split; [done|]. split; [done|]. unfold saturating_add.
      rewrite Z.min_l by (unfold WORKERS_PER_CREDENTIAL, WORKERS_PER_GROUP, GROUPS_PER_CREDENTIAL in *; lia). done.
  - right. rewrite Ec. split; [|done]. f_equal. unfold set_current. destruct s; simpl in *. by subst.
Qed.

Lemma is_lease_of_spec c l : is_lease_of c l = true <-> c_generation c = l_generation l /\ c_value c = l_value l.
Proof. unfold is_lease_of. by rewrite andb_true_iff, Z.eqb_eq, same_credentials_spec. Qed.

Lemma not_current c l : (negb (c_generation c =? l_generation l) || negb (same_turn_credentials (c_value c) (l_value l)))
  = negb (is_lease_of c l).
Proof. unfold is_lease_of. by rewrite negb_andb. Qed.

Lemma cache_call_wf s n c : cache_wf s n -> 0 <= n < u64_max -> cache_wf (cache_call s c) (n + 1).
Proof.
  intros Hs Hn. assert (cache_wf s (n + 1)) as Hs'.
  { destruct Hs as [Hg Hb Hc]. split; [lia|done|done]. }
  pose proof Hs' as [Hg Hb Hc]. destruct c as [|cr|l|l|l|l| |l]; cbn [cache_call].
  - destruct (reserve_cases s n Hs) as [(c & Ec & Ha & ->)|[-> _]]; apply set_current_wf; try done.
    intros x [= <-]. simpl. destruct (Hc c Ec) as (? & ? & ? & ?). rewrite Ec. split; [done|lia].
  - unfold store. destruct (match quota_blocked s with Some _ => _ | None => false end); [done|]. simpl.
    destruct Hs as [Hg0 _ _]. unfold saturating_add, u64_max in *. split; simpl; [lia|done|].
    intros x [= <-]. simpl. unfold WORKERS_PER_CREDENTIAL, WORKERS_PER_GROUP, GROUPS_PER_CREDENTIAL. lia.
  - unfold record_allocation. destruct (current s) as [c|] eqn:Ec; [|done]. destruct (is_lease_of c l); [|done].
    destruct (Hc c eq_refl) as (? & ? & ? & ?). split; simpl; [done| |].
    + intros Hq. specialize (Hb Hq). congruence.
    + intros x [= <-]. simpl. lia.
  - unfold release. destruct (current s) as [c|] eqn:Ec; [|done]. destruct (is_lease_of c l); [|done].
    apply set_current_wf; [done|]. intros x [= <-]. rewrite Ec. simpl. destruct (Hc c eq_refl) as (? & ? & ? & ?).
    unfold saturating_sub. split; [done|lia].
  - unfold invalidate. destruct (current s) as [c|]; [|done]. destruct (is_lease_of c l); [|done]. by apply set_current_wf.
  - unfold rotate_after_quota. destruct (current s) as [c|] eqn:Ec; [|done]. rewrite not_current.
    destruct (is_lease_of c l); [|done]. by split.
  - split; simpl; done.
  - unfold retry_after_mismatch. destruct (current s) as [c|] eqn:Ec; [|done]. rewrite not_current.
    destruct (is_lease_of c l); [|done]. cbn [negb]. destruct (allocation_mismatches c =? 0); simpl.
    + apply set_current_wf; [done|]. intros x [= <-]. rewrite Ec. simpl. destruct (Hc c eq_refl) as (? & ? & ? & ?).
      split; [done|lia].
    + by apply set_current_wf.
Qed.

(** A report about a lease that is not current changes nothing. *)
Definition about (c : CacheCall) : option CredentialLease :=
  match c with
  | CallRecord l | CallRelease l | CallInvalidate l | CallRotate l | CallMismatch l => Some l
  | CallReserve | CallStore _ | CallNextDelay => None
  end.

Lemma stale_call_ignored s c l :
  about c = Some l -> (forall x, current s = Some x -> is_lease_of x l = false) -> cache_call s c = s.
Proof.
  intros Hc Hno. destruct c as [|cr|l'|l'|l'|l'| |l']; simplify_eq/=;
    unfold record_allocation, release, invalidate, rotate_after_quota, retry_after_mismatch;
    (destruct (current s) as [x|]; [|done]); rewrite ?not_current, (Hno x eq_refl); done.
Qed.

(** ** How many leases are outstanding *)

(** Granted and not released, of the generation [g]. *)
Definition balance_ok (g : Z) (s : CredentialCache) (b : Z) : Prop :=
  b <= WORKERS_PER_CREDENTIAL
  /\ (forall c, current s = Some c -> c_generation c = g -> b <= allocation_attempts c)
  /\ (next_generation s < g -> b <= 0).

Definition delta (g : Z) (s : CredentialCache) (c : CacheCall) : Z :=
  count_of_generation g (option_list (granted_by s c))
  - count_of_generation g (match c with CallRelease l => [l] | _ => [] end).

Lemma count_nonneg g l : 0 <= count_of_generation g l.
Proof. apply zlen_nonneg. Qed.

Lemma count_one g l : count_of_generation g [l] = if l_generation l =? g then 1 else 0.
Proof. unfold count_of_generation. simpl. by destruct (l_generation l =? g). Qed.

(** A call that grants nothing and keeps what can be charged to [g]. *)
Lemma balance_keep g s s' b b' :
  balance_ok g s b -> b' <= b -> next_generation s' = next_generation s ->
  (forall c, current s' = Some c -> exists x, current s = Some x /\ c_generation c = c_generation x
     /\ (c_generation c = g -> allocation_attempts x - (b - b') <= allocation_attempts c)) ->
  balance_ok g s' b'.
Proof.
  intros (H1 & H2 & H3) Hb Hn Hc. split; [lia|]. split; [|lia]. intros c Ec Hg.
  destruct (Hc c Ec) as (x & Ex & Hx & Ha). specialize (Ha Hg). specialize (H2 x Ex). lia.
Qed.

Lemma balance_step g s n c b :
  cache_wf s n -> 0 <= n < u64_max -> balance_ok g s b -> balance_ok g (cache_call s c) (b + delta g s c).
Proof.
  intros Hs Hn Hb. pose proof (wf_current s n Hs) as Hc.
  assert (forall s', next_generation s' = next_generation s -> (current s' = None \/ current s' = current s) ->
    balance_ok g s' (b + 0)) as Hsame.
  { intros s' Hg Hcur. apply (balance_keep g s _ b); [done|lia|done|]. intros x Ex. destruct Hcur as [Hcur|Hcur]; [congruence|].
    exists x. split; [congruence|]. split; [done|lia]. }
  unfold delta. destruct c as [|cr|l|l|l|l| |l]; cbn [cache_call granted_by];
    change (count_of_generation g (option_list None)) with 0; change (count_of_generation g []) with 0; rewrite ?Z.sub_0_r.
  - destruct (reserve_cases s n Hs) as [(c & Ec & Ha & ->)|[-> _]]; cbn [fst snd].
    + change (option_list (Some ?x)) with [x]. rewrite count_one. cbn [l_generation]. destruct Hb as (H1 & H2 & H3). destruct (Hc c Ec) as (Hg & _ & Hat & _).
      unfold balance_ok. cbn [set_current current next_generation].
      destruct (Z.eqb_spec (c_generation c) g) as [Eg|Eg].
      * specialize (H2 c Ec Eg). split; [lia|]. split; [intros x [= <-] _; simpl; lia|lia].
      * split; [lia|]. split; [intros x [= <-] ?; simpl in *; lia|lia].
    + change (count_of_generation g (option_list None)) with 0. apply Hsame; [done|by left].
  - unfold store. destruct (match quota_blocked s with Some _ => _ | None => false end); simpl; [apply Hsame; simpl; auto|].
    destruct Hb as (H1 & H2 & H3), Hs as [Hg _ _]. unfold balance_ok, saturating_add, u64_max in *. simpl.
    split; [lia|]. split; [intros x [= <-] Eg; simpl in *; lia|lia].
  - unfold record_allocation. destruct (current s) as [c|] eqn:Ec; [|apply Hsame; simpl; auto].
    destruct (is_lease_of c l); [|apply Hsame; simpl; auto]. apply (balance_keep g s _ b); [done|lia|done|]. simpl.
    intros x [= <-]. exists c. simpl. split; [done|]. split; [done|lia].
  - rewrite count_one. unfold release. destruct (current s) as [c|] eqn:Ec.
    2:{ apply (balance_keep g s _ b); [done|destruct (_ =? _); lia|done|]. intros x Ex. congruence. }
    destruct (is_lease_of c l) eqn:El.
    + apply is_lease_of_spec in El as [Eg _]. destruct (Hc c eq_refl) as (_ & _ & Hat & _).
      apply (balance_keep g s _ b); [done|destruct (_ =? _); lia|done|]. simpl. intros x [= <-]. exists c. simpl.
      split; [done|]. split; [done|]. intros <-. rewrite <- Eg, Z.eqb_refl. unfold saturating_sub. lia.
    + apply (balance_keep g s _ b); [done|destruct (_ =? _); lia|done|]. intros x Ex. exists x. split; [congruence|].
      split; [done|]. destruct (_ =? _); lia.
  - unfold invalidate. destruct (current s) as [c|] eqn:Ec; [|apply Hsame; simpl; auto]. destruct (is_lease_of c l); apply Hsame; simpl; auto.
  - unfold rotate_after_quota. destruct (current s) as [c|] eqn:Ec; [|apply Hsame; simpl; auto]. rewrite not_current.
    destruct (is_lease_of c l); apply Hsame; simpl; auto.
  - apply Hsame; simpl; auto.
  - unfold retry_after_mismatch. destruct (current s) as [c|] eqn:Ec; [|apply Hsame; simpl; auto]. rewrite not_current.
    destruct (is_lease_of c l); [|apply Hsame; simpl; auto]. cbn [negb]. destruct (allocation_mismatches c =? 0); simpl.
    + apply (balance_keep g s _ b); [done|lia|done|]. simpl. intros x [= <-]. exists c. simpl. split; [done|]. split; [done|lia].
    + apply Hsame; simpl; auto.
Qed.

Lemma count_app g a b : count_of_generation g (a ++ b) = count_of_generation g a + count_of_generation g b.
Proof. unfold count_of_generation. rewrite List.filter_app. apply zlen_app. Qed.

Lemma balance_run g calls : forall s n b,
  cache_wf s n -> 0 <= n -> n + zlen calls <= u64_max -> balance_ok g s b ->
  b + count_of_generation g (granted s calls) - count_of_generation g (released calls) <= WORKERS_PER_CREDENTIAL.
Proof.
  induction calls as [|c calls IH]; intros s n b Hs H0 Hn Hb; cbn [granted].
  { destruct Hb as [Hb _]. unfold count_of_generation. simpl. change (zlen (@nil CredentialLease)) with 0. lia. }
  rewrite zlen_cons in Hn. pose proof (zlen_nonneg calls).
  pose proof (IH _ _ _ (cache_call_wf s n c Hs ltac:(lia)) ltac:(lia) ltac:(lia) (balance_step g s n c b Hs ltac:(lia) Hb)) as Hi.
  rewrite count_app. unfold delta in Hi.
  assert (count_of_generation g (released (c :: calls))
    = count_of_generation g (match c with CallRelease l => [l] | _ => [] end) + count_of_generation g (released calls)) as ->.
  { rewrite <- count_app. unfold released. by destruct c. }
  lia.
Qed.

(** Granted and not released, of the credential [v], which was stored [k] times. *)
Definition spent_ok (v : TurnCredentials) (s : CredentialCache) (k b : Z) : Prop :=
  b <= WORKERS_PER_CREDENTIAL * k
  /\ forall c, current s = Some c -> c_value c = v -> b <= WORKERS_PER_CREDENTIAL * (k - 1) + allocation_attempts c.

Lemma count_value_one v l : count_of_value v [l] = if bool_decide (l_value l = v) then 1 else 0.
Proof. unfold count_of_value. cbn [List.filter]. by destruct (bool_decide _). Qed.

Lemma count_value_app v a b : count_of_value v (a ++ b) = count_of_value v a + count_of_value v b.
Proof. unfold count_of_value. rewrite List.filter_app. apply zlen_app. Qed.

Lemma spent_keep v s s' k b b' :
  spent_ok v s k b -> b' <= b ->
  (forall c, current s' = Some c -> exists x, current s = Some x /\ c_value c = c_value x
     /\ (c_value c = v -> allocation_attempts x - (b - b') <= allocation_attempts c)) ->
  spent_ok v s' k b'.
Proof.
  intros (H1 & H2) Hb Hc. split; [lia|]. intros c Ec Hv.
  destruct (Hc c Ec) as (x & Ex & Hx & Ha). specialize (Ha Hv). specialize (H2 x Ex). rewrite <- Hx in H2. specialize (H2 Hv). lia.
Qed.

Definition spends (v : TurnCredentials) (s : CredentialCache) (c : CacheCall) : Z :=
  count_of_value v (option_list (granted_by s c)) - count_of_value v (match c with CallRelease l => [l] | _ => [] end).

Lemma spent_release v s n k b l :
  cache_wf s n -> spent_ok v s k b -> spent_ok v (release s l) k (b - count_of_value v [l]).
Proof.
  intros Hs Hb. rewrite count_value_one. unfold release.
  destruct (current s) as [c|] eqn:Ec; [destruct (is_lease_of c l) eqn:El|].
  - apply is_lease_of_spec in El as [_ Ev]. destruct (wf_current s n Hs c Ec) as (_ & _ & Hat & _).
    apply (spent_keep v s _ k b); [done|case_bool_decide; lia|]. simpl. intros x [= <-]. exists c. simpl.
    split; [done|]. split; [done|]. intros Hv. rewrite bool_decide_eq_true_2 by congruence. unfold saturating_sub. lia.
  - apply (spent_keep v s _ k b); [done|case_bool_decide; lia|]. intros x Ex. exists x. split; [done|]. split; [done|].
    case_bool_decide; lia.
  - apply (spent_keep v s _ k b); [done|case_bool_decide; lia|]. intros x Ex. congruence.
Qed.

Lemma spent_step v s n c k b :
  cache_wf s n -> spent_ok v s k b -> spent_ok v (cache_call s c) (k + stored_by v s c) (b + spends v s c).
Proof.
  intros Hs Hb. pose proof (wf_current s n Hs) as Hc.
  assert (forall s', current s' = None \/ current s' = current s -> spent_ok v s' (k + 0) (b + 0)) as Hsame.
  { intros s' Hcur. rewrite Z.add_0_r. apply (spent_keep v s _ k b); [done|lia|]. intros x Ex.
    destruct Hcur as [Hcur|Hcur]; [congruence|]. exists x. split; [congruence|]. split; [done|lia]. }
  unfold spends. destruct c as [|cr|l|l|l|l| |l]; cbn [cache_call granted_by stored_by];
    change (count_of_value v (option_list None)) with 0; change (count_of_value v []) with 0; rewrite ?Z.sub_0_r, ?Z.sub_0_l.
  - destruct (reserve_cases s n Hs) as [(c & Ec & Ha & ->)|[-> _]]; cbn [fst snd]; [|by apply Hsame; left].
    change (option_list (Some ?x)) with [x]. rewrite count_value_one. cbn [l_value]. destruct Hb as (H1 & H2).
    destruct (Hc c Ec) as (_ & _ & Hat & _). unfold spent_ok. cbn [set_current current]. case_bool_decide as Ev.
    + specialize (H2 c Ec Ev). split; [lia|]. intros x [= <-] _. simpl. lia.
    + split; [lia|]. intros x [= <-] ?. by simpl in *.
  - unfold store. destruct (match quota_blocked s with Some _ => _ | None => false end); cbn [fst snd andb]; [apply Hsame; auto|].
    destruct Hb as (H1 & H2). unfold spent_ok. simpl. case_bool_decide as Ev.
    + split; [unfold WORKERS_PER_CREDENTIAL, WORKERS_PER_GROUP, GROUPS_PER_CREDENTIAL in *; lia|]. intros x [= <-] _. simpl. lia.
    + split; [lia|]. intros x [= <-] ?. by simpl in *.
  - unfold record_allocation. destruct (current s) as [c|] eqn:Ec; [|apply Hsame; simpl; auto].
    destruct (is_lease_of c l); [|apply Hsame; simpl; auto]. rewrite Z.add_0_r. apply (spent_keep v s _ k b); [done|lia|]. simpl.
    intros x [= <-]. exists c. simpl. split; [done|]. split; [done|lia].
  - rewrite Z.add_0_r. by apply (spent_release v s n).
  - unfold invalidate. destruct (current s) as [c|] eqn:Ec; [|apply Hsame; simpl; auto]. destruct (is_lease_of c l); apply Hsame; simpl; auto.
  - unfold rotate_after_quota. destruct (current s) as [c|] eqn:Ec; [|apply Hsame; simpl; auto]. rewrite not_current.
    destruct (is_lease_of c l); apply Hsame; simpl; auto.
  - apply Hsame; simpl; auto.
  - unfold retry_after_mismatch. destruct (current s) as [c|] eqn:Ec; [|apply Hsame; simpl; auto]. rewrite not_current.
    destruct (is_lease_of c l); [|apply Hsame; simpl; auto]. cbn [negb]. destruct (allocation_mismatches c =? 0); simpl.
    + rewrite Z.add_0_r. apply (spent_keep v s _ k b); [done|lia|]. simpl. intros x [= <-]. exists c. simpl. split; [done|]. split; [done|lia].
    + apply Hsame; simpl; auto.
Qed.

Lemma spent_run v calls : forall s n k b,
  cache_wf s n -> 0 <= n -> n + zlen calls <= u64_max -> spent_ok v s k b ->
  b + count_of_value v (granted s calls) - count_of_value v (released calls)
  <= WORKERS_PER_CREDENTIAL * (k + times_stored v s calls).
Proof.
  induction calls as [|c calls IH]; intros s n k b Hs H0 Hn Hb; cbn [granted times_stored].
  { destruct Hb as [Hb _]. unfold count_of_value. simpl. change (zlen (@nil CredentialLease)) with 0. lia. }
  rewrite zlen_cons in Hn. pose proof (zlen_nonneg calls).
  pose proof (IH _ _ _ _ (cache_call_wf s n c Hs ltac:(lia)) ltac:(lia) ltac:(lia) (spent_step v s n c k b Hs Hb)) as Hi.
  rewrite count_value_app. unfold spends in Hi.
  assert (count_of_value v (released (c :: calls))
    = count_of_value v (match c with CallRelease l => [l] | _ => [] end) + count_of_value v (released calls)) as ->.
  { rewrite <- count_value_app. unfold released. by destruct c. }
  lia.
Qed.

(** C12: each storing of a credential is shared by at most eighteen workers:
    whatever the workers report, in whatever order and about whichever leases, the
    leases of one generation that were granted exceed those that were released by
    at most [WORKERS_PER_CREDENTIAL], and the leases of one credential, counted
    over all its generations, by at most as much for each time that it was stored.
    A credential that is stored again once its budget is spent has another
    eighteen, see [restored_shared_again]. *)
Theorem lease_budget calls :
  zlen calls <= u64_max ->
  (forall g, count_of_generation g (granted default_cache calls) - count_of_generation g (released calls)
             <= WORKERS_PER_CREDENTIAL)
  /\ (forall v, count_of_value v (granted default_cache calls) - count_of_value v (released calls)
             <= WORKERS_PER_CREDENTIAL * times_stored v default_cache calls).
Proof.
  intros Hn. split.
  - intros g. pose proof (balance_run g calls default_cache 0 0 default_cache_wf ltac:(lia) ltac:(lia)) as Hb.
    apply Hb. split; [done|]. by split.
  - intros v. pose proof (spent_run v calls default_cache 0 0 0 default_cache_wf ltac:(lia) ltac:(lia)) as Hb.
    apply Hb. by split.
Qed.

(** A worker reserves, the relay refuses a third worker, and the cache rotates. *)
Definition demo_credentials : TurnCredentials := mkCredentials [117] [112] [[97]].
Definition demo_calls : list CacheCall :=
  let lease := mkLease demo_credentials 1 in
  [CallStore demo_credentials; CallReserve; CallReserve; CallRecord lease; CallReserve; CallRelease lease;
   CallRotate lease; CallRelease lease; CallStore demo_credentials; CallReserve].

Lemma lease_budget_witness :
  zlen demo_calls <= u64_max
  /\ zlen (granted default_cache demo_calls) = 3
  /\ times_stored demo_credentials default_cache demo_calls = 1
  /\ count_of_generation 1 (granted default_cache demo_calls) - count_of_generation 1 (released demo_calls) <= WORKERS_PER_CREDENTIAL
  /\ count_of_value demo_credentials (granted default_cache demo_calls) - count_of_value demo_credentials (released demo_calls)
     <= WORKERS_PER_CREDENTIAL * 1.
Proof.
  assert (zlen demo_calls <= u64_max) as Hn by (vm_compute; discriminate).
  destruct (lease_budget demo_calls Hn) as [Hg Hv].
  split; [exact Hn|]. split; [vm_compute; reflexivity|]. split; [vm_compute; reflexivity|]. split; [exact (Hg 1)|exact (Hv demo_credentials)].
Defined.

(** The same credential again, once its eighteen leases are out: [store] takes it
    under a new generation, and eighteen more are granted. A seeded credential is
    fetched the same each time. *)
Lemma restored_shared_again :
  let calls := CallStore demo_credentials :: replicate 19 CallReserve ++ CallStore demo_credentials :: replicate 18 CallReserve in
  count_of_value demo_credentials (granted default_cache calls) = 36 /\ released calls = []
  /\ times_stored demo_credentials default_cache calls = 2.
Proof. vm_compute. split_and!; reflexivity. Qed.

(** ** Rotation *)

Lemma new_generation s n :
  cache_wf s n -> n < u64_max -> Z.max (saturating_add 64 (next_generation s) 1) 1 = next_generation s + 1.
Proof. intros [Hg _ _] Hn. unfold saturating_add, u64_max in *. lia. Qed.

Lemma store_new s n credentials :
  cache_wf s n -> n < u64_max -> quota_blocked s <> Some credentials ->
  store s credentials
  = (true, mkCache (Some (mkCached credentials (next_generation s + 1) 0 0)) None (next_generation s + 1) (quota_retries s)).
Proof.
  intros Hs Hn Hq. unfold store.
  assert (match quota_blocked s with Some blocked => same_turn_credentials blocked credentials | None => false end = false) as ->.
  { destruct (quota_blocked s) as [b|]; [|done]. apply not_true_iff_false. rewrite same_credentials_spec. congruence. }
  by rewrite (new_generation s n).
Qed.

(** When the relay refuses a credential for its quota, the cache drops it,
    paces the next fetch by the number of refusals in a row, and does not take
    the same credential again; the next different one starts a generation of
    its own with a full budget, and no late report about the refused lease
    touches it. *)
Lemma quota_rotation s n c lease :
  cache_wf s n -> 0 <= n < u64_max -> current s = Some c -> is_lease_of c lease = true ->
  let '(rotation, s1) := rotate_after_quota s lease in
  rotation = QuotaRotated (quota_rotation_delay (quota_retries s))
  /\ reserve s1 = (None, s1) /\ store s1 (c_value c) = (false, s1)
  /\ forall fresh, fresh <> c_value c ->
       exists s2, store s1 fresh = (true, s2)
       /\ fst (reserve s2) = Some (mkLease fresh (next_generation s + 1))
       /\ forall report, about report = Some lease -> cache_call s2 report = s2.
Proof.
  intros Hs Hn Ec El. pose proof (wf_current s n Hs c Ec) as (Hg & _). pose proof (cache_call_wf s n (CallRotate lease) Hs Hn) as Hs1.
  cbn [cache_call] in Hs1. unfold rotate_after_quota in *. rewrite Ec in *. rewrite not_current, El in *. cbn [negb snd] in *.
  split; [done|]. split; [done|]. split.
  { unfold store. cbn [quota_blocked]. by rewrite (proj2 (same_credentials_spec _ _) eq_refl). }
  intros fresh Hf. eexists. split; [|split].
  - unfold store. cbn [quota_blocked next_generation quota_retries].
    destruct (same_turn_credentials (c_value c) fresh) eqn:E; [apply same_credentials_spec in E; congruence|].
    by rewrite (new_generation s n Hs) by lia.
  - done.
  - intros r Hr. apply (stale_call_ignored _ _ lease Hr). cbn [current]. intros x [= <-].
    apply is_lease_of_spec in El as [El _]. unfold is_lease_of. cbn [c_generation].
    rewrite (proj2 (Z.eqb_neq _ _)) by lia. done.
Qed.

Lemma quota_rotation_witness :
  let c := mkCached demo_credentials 1 1 0 in
  let s := mkCache (Some c) None 1 2 in
  let lease := mkLease demo_credentials 1 in
  cache_wf s 1
  /\ fst (rotate_after_quota s lease) = QuotaRotated (millis 500)
  /\ store (snd (rotate_after_quota s lease)) demo_credentials = (false, snd (rotate_after_quota s lease)).
Proof.
  assert (cache_wf (mkCache (Some (mkCached demo_credentials 1 1 0)) None 1 2) 1) as Hs.
  { split; simpl; [lia|done|]. intros x [= <-]. simpl. unfold WORKERS_PER_CREDENTIAL, WORKERS_PER_GROUP, GROUPS_PER_CREDENTIAL. lia. }
  split; [exact Hs|].
  pose proof (quota_rotation _ 1 (mkCached demo_credentials 1 1 0) (mkLease demo_credentials 1) Hs ltac:(unfold u64_max; lia) eq_refl eq_refl) as Hr.
  cbn zeta. destruct (rotate_after_quota _ _) as [r s1]. destruct Hr as (-> & _ & Hb & _). by split.
Defined.

(** ** The fetch of a group *)

Lemma cache_wf_mono s n m : cache_wf s n -> n <= m -> cache_wf s m.
Proof. intros [Hg Hb Hc] Hm. split; [lia|done|done]. Qed.

Lemma reserve_grants s n l :
  cache_wf s n -> fst (reserve s) = Some l ->
  exists c, current (snd (reserve s)) = Some c /\ is_lease_of c l = true /\ 1 <= allocation_attempts c.
Proof.
  intros Hs Hr. destruct (reserve_cases s n Hs) as [(c & Ec & _ & Er)|[Er _]]; rewrite Er in *; simplify_eq/=.
  destruct (wf_current s n Hs c Ec) as (_ & _ & Ha & _). eexists. split; [done|]. rewrite is_lease_of_spec. simpl.
  split; [done|lia].
Qed.

(** A worker of a group gets a lease only while the call is available, of a
    credential whose budget is not spent or of one just fetched, and that
    credential is then the current one; an unavailable call is not asked again,
    and is what a fetch that says so makes of the group; and no outcome makes
    the worker wait for less than 100 ms or as long as 3.1 s. *)
Lemma group_get env g n :
  cache_wf (state g) n -> 0 <= n -> n + 2 < u64_max -> 0 <= failures g ->
  let '(lease, g', delay) := get env g in
  cache_wf (state g') (n + 3)
  /\ (unavailable g = true -> lease = None /\ g' = g /\ delay = None)
  /\ (fetched env = Some (Err CallUnavailable) -> lease = None -> unavailable g = false ->
        pacer_acquired env = true -> unavailable g' = true /\ delay = None)
  /\ (forall l, lease = Some l -> exists c, current (state g') = Some c /\ is_lease_of c l = true /\ 1 <= allocation_attempts c)
  /\ (forall d, delay = Some d -> millis 100 <= d < millis 3100).
Proof.
  intros Hs H0 Hn Hf. pose proof (cache_call_wf _ _ CallReserve Hs ltac:(lia)) as Hr. cbn [cache_call] in Hr.
  pose proof (reserve_grants (state g) n) as Hg. assert (cache_wf (state g) (n + 3)) as Hs3 by (eapply cache_wf_mono; [done|lia]).
  unfold get. destruct (unavailable g) eqn:Eu; [by split|].
  destruct (reserve (state g)) as [[l|] s1]; cbn [fst snd] in *.
  { split; [eapply cache_wf_mono; [done|lia]|]. split; [done|]. split; [done|]. split; [|done]. intros ? [= <-]. by apply Hg. }
  assert (cache_wf s1 (n + 3)) as Hr3 by (eapply cache_wf_mono; [done|lia]).
  destruct (pacer_acquired env); cbn [negb]; [|by split].
  cbn [unavailable state failures]. destruct (unavailable_later env) eqn:El; [by split|].
  destruct (fetched env) as [[cr|[|]]|]; [|by split| |by split].
  - pose proof (cache_call_wf _ _ (CallStore cr) Hr ltac:(lia)) as Hst. cbn [cache_call] in Hst.
    destruct (store s1 cr) as [[|] s2]; cbn [fst snd] in Hst.
    + assert (cache_wf s2 (n + 3)) as Hst3 by (eapply cache_wf_mono; [done|lia]). destruct (slept env); cbn [negb]; [|by split].
      cbn [state failures]. pose proof (cache_call_wf _ _ CallReserve Hst ltac:(lia)) as Hr2. cbn [cache_call] in Hr2.
      pose proof (fun l => reserve_grants s2 _ l Hst) as Hg2. destruct (reserve s2) as [l s4]; cbn [fst snd] in *.
      split; [by replace (n + 3) with (n + 1 + 1 + 1) by lia|]. split; [done|]. split; [done|].
      split; [by intros; eapply Hg2|]. intros d [= <-]. unfold CREDENTIAL_POST_DELAY, millis. lia.
    + cbn [next_quota_delay]. pose proof (cache_call_wf s2 _ CallNextDelay Hst ltac:(lia)) as Hd. cbn [cache_call] in Hd. split; [eapply cache_wf_mono; [done|lia]|].
      split; [done|]. split; [done|]. split; [done|]. intros d [= <-]. unfold quota_rotation_delay, millis.
      repeat destruct (_ =? _); lia.
  - split; [done|]. split; [done|]. split; [done|]. split; [done|]. intros d [= <-].
    unfold CREDENTIAL_POST_DELAY, millis, secs. rewrite Z.shiftl_1_l.
    pose proof (Z.mod_pos_bound (get_jitter env) 100 ltac:(lia)).
    assert (1 <= 2 ^ Z.min (failures g) 5) by (pose proof (Z.pow_pos_nonneg 2 (Z.min (failures g) 5)); lia). lia.
Qed.

(** A first fetch that fails waits for a tenth of a second and some jitter. *)
Definition failing_env : GetEnv := mkGetEnv true false (Some (Err OtherError)) true 142.

Lemma group_get_witness :
  let g := mkGroup default_cache 0 false in
  cache_wf (state g) 0 /\ snd (get failing_env g) = Some (millis 142)
  /\ millis 100 <= millis 142 < millis 3100.
Proof.
  split; [apply default_cache_wf|]. split; [done|].
  pose proof (group_get failing_env (mkGroup default_cache 0 false) 0 default_cache_wf ltac:(lia) ltac:(unfold u64_max; lia) ltac:(simpl; lia)) as Hg.
  by apply Hg.
Defined.
