(* ===== verification/WorkerErrors.v ===== *)
(** * WorkerErrors: what a worker reads in the error of its session

    Models the errors of the engine as [anyhow] keeps them, a chain of causes
    with the outermost first, the errors that [turn.rs] and [session.rs] make
    of a TURN failure, and the tests by which [worker.rs] tells a refused
    credential, an exhausted quota, a lost allocation, a reset stream and a lost
    network from one another. *)

From Stdlib Require Import Strings.String.
From S2P Require Import Prelude Bytes Text TurnCore.

(** ** Errors *)

(** [std::io::ErrorKind], as far as it is looked at. *)
Inductive IoKind : Type := ConnectionReset | ConnectionAborted | BrokenPipe | OtherKind.

(** What [downcast_ref] finds a cause to be: a [TurnRequestError], a
    [TurnAllocateError], an [std::io::Error], or none of these. *)
Inductive Downcast : Type :=
| Message
| TurnRequestError (stun_code : Z)
| TurnAllocateError
| IoError (raw_os_error : option Z) (kind : IoKind).

Record Cause : Type := mkCause { shown : text; downcast : Downcast }.
Record Error : Type := mkError { outermost : Cause; causes : list Cause }.

Definition chain (e : Error) : list Cause := outermost e :: causes e.
(** [error.to_string()] and [format!("{error:#}")] *)
Definition display (e : Error) : text := shown (outermost e).
Fixpoint join (separator : text) (parts : list text) : text :=
  match parts with
  | [] => []
  | [p] => p
  | p :: parts => p ++ separator ++ join separator parts
  end.
Definition alternate (e : Error) : text := join (ascii ": ") (map shown (chain e)).

(** [anyhow!(..)] and [.context(..)] *)
Definition anyhow (t : text) : Error := mkError (mkCause t Message) [].
Definition context (t : text) (e : Error) : Error := mkError (mkCause t Message) (chain e).

(** ** The errors of a TURN request *)

Definition method_name (method : Z) : text :=
  if method =? METHOD_ALLOCATE then ascii "Allocate"
  else if method =? METHOD_REFRESH then ascii "Refresh"
  else if method =? METHOD_CREATE_PERMISSION then ascii "CreatePermission"
  else if method =? METHOD_CHANNEL_BIND then ascii "ChannelBind"
  else ascii "request".

Definition stun_suffix (stun_code : Z) : text :=
  if stun_code =? 0 then [] else ascii "; STUN error " ++ i32_to_string stun_code.

Definition native_status_text (status : Z) : text :=
  let named (t : text) := t ++ ascii " (" ++ i32_to_string status ++ ascii ")" in
  if status =? 0 then named (ascii "success")
  else if status =? RESULT_EMPTY then named (ascii "empty")
  else if status =? RESULT_BUFFER_TOO_SMALL then named (ascii "buffer too small")
  else if status =? RESULT_INVALID_ARGUMENT then named (ascii "invalid argument")
  else if status =? RESULT_CLOSED then named (ascii "closed")
  else if status =? RESULT_NOT_CONTROL then named (ascii "not a TURN control response")
  else if status =? RESULT_TIMEOUT then named (ascii "request timeout")
  else if status =? RESULT_AUTHENTICATION then named (ascii "response authentication failed")
  else if status =? RESULT_PROTOCOL then named (ascii "TURN protocol error")
  else ascii "TURN status " ++ i32_to_string status.

Definition request_text (method status stun_code : Z) : text :=
  ascii "TURN " ++ method_name method ++ ascii " failed: " ++ native_status_text status ++ stun_suffix stun_code.

(** [TurnRequestError] and the wrapper of a failed connect. *)
Definition turn_request_error (method status stun_code : Z) : Error :=
  mkError (mkCause (request_text method status stun_code) (TurnRequestError stun_code)) [].
Definition turn_allocate_error (e : Error) : Error :=
  mkError (mkCause (ascii "TURN Allocate: " ++ alternate e) TurnAllocateError) (chain e).

Definition is_allocation_mismatch_stun (method stun_code : Z) : bool :=
  (stun_code =? 437) || ((method =? METHOD_CHANNEL_BIND) && (stun_code =? 400)).

(** ** The tests of a worker *)

Definition stun_code_of (c : Cause) : option Z :=
  match downcast c with TurnRequestError code => Some code | _ => None end.

(** [chain().find_map(..)] *)
Fixpoint find_map {A} (f : Cause -> option A) (l : list Cause) : option A :=
  match l with
  | [] => None
  | c :: l => match f c with Some x => Some x | None => find_map f l end
  end.
Definition turn_stun_code (e : Error) : option Z := find_map stun_code_of (chain e).

(** The error inside a [TurnAllocateError] is the rest of the chain. *)
Fixpoint allocate_code (l : list Cause) : option Z :=
  match l with
  | [] => None
  | c :: l =>
      match downcast c with
      | TurnAllocateError =>
          match find_map stun_code_of l with Some code => Some code | None => allocate_code l end
      | _ => allocate_code l
      end
  end.
Definition turn_allocate_stun_code (e : Error) : option Z := allocate_code (chain e).

Definition contains_any (message : text) (markers : list text) : bool := existsb (contains message) markers.

Definition is_turn_allocation_quota (e : Error) (message : text) : bool :=
  bool_decide (turn_allocate_stun_code e = Some 486)
  || (contains message (ascii "turn allocate")
      && contains_any message [ascii "stun error 486"; ascii "allocation quota reached"; ascii "quota reached"]).

Definition error_is_allocation_mismatch (e : Error) : bool :=
  let chain := to_ascii_lowercase (join [0x0a] (map shown (chain e))) in
  contains chain (ascii "stun error 437")
  || (contains chain (ascii "stun error 400") && contains chain (ascii "channelbind")).

Definition is_turn_allocation_mismatch (e : Error) (message : text) : bool :=
  let channelbind := contains message (ascii "channelbind") in
  let otherwise :=
    contains message (ascii "stun error 437") || (contains message (ascii "stun error 400") && channelbind)
    || error_is_allocation_mismatch e in
  match turn_stun_code e with
  | Some code => if code =? 437 then true else if (code =? 400) && channelbind then true else otherwise
  | None => otherwise
  end.

Definition should_invalidate_turn_credentials (e : Error) (message : text) : bool :=
  match turn_stun_code e with
  | Some stun_code => (stun_code =? 401) || (stun_code =? 438) || (stun_code =? 441)
  | None =>
      contains message (ascii "turn ")
      && contains_any message
           [ascii "stun error 401"; ascii "stun error 438"; ascii "stun error 441"; ascii "unauthorized";
            ascii "wrong credential"; ascii "authentication failed"]
  end.

Definition network_down_codes : list Z := [100; 101; 113; 10050; 10051; 10065].

Definition contains_os_error_code (message : text) (code : Z) : bool :=
  existsb (fun rest => match rest with [] => true | c :: _ => negb (is_digit c) end)
    (after_matches (ascii "os error " ++ i32_to_string code) O message).

Definition is_local_network_down (e : Error) : bool :=
  existsb (fun c => match downcast c with
                    | IoError (Some code) _ => existsb (Z.eqb code) network_down_codes
                    | _ => false
                    end) (chain e)
  || let message := to_ascii_lowercase (alternate e) in
     contains_any message
       [ascii "network is unreachable"; ascii "network is down"; ascii "no route to host"; ascii "no route to network";
        ascii "enetunreach"; ascii "enetdown"; ascii "ehostunreach"]
     || existsb (contains_os_error_code message) network_down_codes.

Definition is_remote_tcp_stream_reset (e : Error) (message : text) : bool :=
  existsb (fun c => match downcast c with
                    | IoError _ ConnectionReset | IoError _ ConnectionAborted | IoError _ BrokenPipe => true
                    | _ => false
                    end) (chain e)
  || contains_any message [ascii "connection reset by peer"; ascii "connection aborted"; ascii "broken pipe"].

Definition is_transport_timeout (message : text) : bool :=
  contains_any message
    [ascii "transaction timeout"; ascii "request timeout"; ascii "i/o timeout"; ascii "timed out";
     ascii "deadline has elapsed"].

(** [session.rs]: whether the loss of a path opens an epoch. *)
Definition should_note_path_lost (e : Error) : bool :=
  if contains_any (display e) [ascii "IDLE_PARK"; ascii "NET_REBIND"; ascii "TARGET_REPAIR"] then false
  else negb (error_is_allocation_mismatch e).

(** ** How a failed request reaches a worker *)

(** By the connect, by the binding of the channel that follows, or as the
    terminal reason of the driver: as the writer of the session meets it, or
    under the context that the reader puts on it. *)
Inductive Route : Type := ByConnect | ByPrepare | ByWriter | ByReader.

Definition RECEIVE_CONTEXT : text := ascii "TURN allocation receive".
(** "TURN ChannelBind обязателен" *)
Definition BIND_CONTEXT : text :=
  ascii "TURN ChannelBind " ++ [0x43e; 0x431; 0x44f; 0x437; 0x430; 0x442; 0x435; 0x43b; 0x435; 0x43d].

Definition route_error (r : Route) (method status stun_code : Z) : Error :=
  match r with
  | ByConnect => turn_allocate_error (turn_request_error method status stun_code)
  | ByPrepare => context BIND_CONTEXT (turn_request_error method status stun_code)
  | ByWriter => anyhow (request_text method status stun_code)
  | ByReader => context RECEIVE_CONTEXT (anyhow (request_text method status stun_code))
  end.

Record Verdict : Type := mkVerdict { v_invalidate : bool; v_quota : bool; v_mismatch : bool; v_lost : bool }.
#[export] Instance verdict_eq_dec : EqDecision Verdict.
Proof. solve_decision. Defined.

Definition verdict (e : Error) : Verdict :=
  let lower := to_ascii_lowercase (display e) in
  mkVerdict (should_invalidate_turn_credentials e lower) (is_turn_allocation_quota e lower)
    (is_turn_allocation_mismatch e lower) (should_note_path_lost e).

(** What the STUN code means, and who sees it. *)
Definition refuses_credentials (stun_code : Z) : bool :=
  (stun_code =? 401) || (stun_code =? 438) || (stun_code =? 441).
Definition expected_verdict (r : Route) (method status stun_code : Z) : Verdict :=
  match r with
  | ByConnect =>
      mkVerdict (refuses_credentials stun_code) (stun_code =? 486) (stun_code =? 437) (negb (stun_code =? 437))
  | ByPrepare =>
      mkVerdict (refuses_credentials stun_code) false
        (is_allocation_mismatch_stun METHOD_CHANNEL_BIND stun_code)
        (negb (is_allocation_mismatch_stun METHOD_CHANNEL_BIND stun_code))
  | ByWriter =>
      mkVerdict (refuses_credentials stun_code || (status =? RESULT_AUTHENTICATION))
        ((method =? METHOD_ALLOCATE) && (stun_code =? 486))
        (is_allocation_mismatch_stun method stun_code) (negb (is_allocation_mismatch_stun method stun_code))
  | ByReader =>
      mkVerdict false false
        (is_allocation_mismatch_stun method stun_code) (negb (is_allocation_mismatch_stun method stun_code))
  end.
Definition route_methods (r : Route) : list Z :=
  match r with
  | ByConnect => [METHOD_ALLOCATE]
  | ByPrepare => [METHOD_CHANNEL_BIND]
  | ByWriter | ByReader => [METHOD_ALLOCATE; METHOD_REFRESH; METHOD_CREATE_PERMISSION; METHOD_CHANNEL_BIND]
  end.
(** The statuses with which the core completes a request, and the codes that
    STUN and TURN register, with 0 for none. *)
Definition statuses : list Z := [RESULT_TIMEOUT; RESULT_AUTHENTICATION; RESULT_PROTOCOL].
Definition stun_codes : list Z :=
  [0; 300; 400; 401; 403; 405; 420; 437; 438; 440; 441; 442; 443; 446; 447; 486; 487; 500; 508].

Definition sorted_by (r : Route) : bool :=
  forallb (fun method => forallb (fun status => forallb (fun code =>
    bool_decide (verdict (route_error r method status code) = expected_verdict r method status code))
    stun_codes) statuses) (route_methods r).

Lemma all_sorted : forallb sorted_by [ByConnect; ByPrepare; ByWriter; ByReader] = true.
Proof. by vm_compute. Qed.

(** Whatever request fails, with whatever code that STUN and TURN register,
    a worker tells a refused credential, an exhausted quota and a lost
    allocation apart by the code alone, and only a lost allocation opens no
    epoch; but of a failure that reaches it through the reader of its session it
    sees the lost allocation and nothing else. *)
Lemma failures_sorted r method status stun_code :
  method ∈ route_methods r -> status ∈ statuses -> stun_code ∈ stun_codes ->
  verdict (route_error r method status stun_code) = expected_verdict r method status stun_code.
Proof.
  intros Hm Hs Hc. pose proof all_sorted as Ha. rewrite forallb_forall in Ha.
  assert (sorted_by r = true) as Hr by (apply Ha; destruct r; simpl; tauto).
  unfold sorted_by in Hr. rewrite forallb_forall in Hr. specialize (Hr _ (proj1 (list_elem_of_In _ _) Hm)).
  rewrite forallb_forall in Hr. specialize (Hr _ (proj1 (list_elem_of_In _ _) Hs)).
  rewrite forallb_forall in Hr. specialize (Hr _ (proj1 (list_elem_of_In _ _) Hc)).
  by apply bool_decide_eq_true in Hr.
Qed.

(** A refresh that the relay refuses with 401 is evidence against the
    credential for the writer, not for the reader. *)
Lemma failures_sorted_witness :
  v_invalidate (verdict (route_error ByWriter METHOD_REFRESH RESULT_PROTOCOL 401)) = true
  /\ v_invalidate (verdict (route_error ByReader METHOD_REFRESH RESULT_PROTOCOL 401)) = false.
Proof.
  split.
  - rewrite (failures_sorted ByWriter METHOD_REFRESH RESULT_PROTOCOL 401); [done|set_solver..].
  - rewrite (failures_sorted ByReader METHOD_REFRESH RESULT_PROTOCOL 401); [done|set_solver..].
Defined.

(** Under the context of the reader no text of a terminal reason is visible. *)
Lemma reader_hides reason :
  display (context RECEIVE_CONTEXT (anyhow reason)) = RECEIVE_CONTEXT
  /\ turn_stun_code (context RECEIVE_CONTEXT (anyhow reason)) = None
  /\ turn_allocate_stun_code (context RECEIVE_CONTEXT (anyhow reason)) = None.
Proof. done. Qed.
