(* ===== verification/WorkerGates.v ===== *)
(** * WorkerGates: what the workers share besides the credentials

    Models the small shared objects of [worker.rs]: the [RecoveryLogGate] that
    rations a log line, under any interleaving of its atomic accesses, the
    [WorkerStartPacer], whose mutex makes a wait one step, and the flag of a
    configuration request in flight, taken by [ConfigFlightGuard] and given
    back both by the session ([ConfigDeliveryState] of [session.rs]) and by the
    guard. The waiting of [PauseGate] is in Waits; its flag is an
    argument of the worker. *)

From S2P Require Import Prelude TurnCore.

(** ** The log gate *)

Definition RECOVERY_LOG_INTERVAL_MS : Z := 10000.

Record RecoveryLogGate : Type := mkGate { pending : Z; next_report_ms : Z }.
Definition new_gate : RecoveryLogGate := mkGate 0 0.

Definition next_report (now_ms : Z) : Z := Z.max (saturating_add 64 now_ms RECOVERY_LOG_INTERVAL_MS) 1.
Definition held (deadline now_ms : Z) : bool := negb (deadline =? 0) && (now_ms <? deadline).

(** [observe] when nothing interferes: the exchange succeeds at once. *)
Definition observe (g : RecoveryLogGate) (now_ms : Z) : option Z * RecoveryLogGate :=
  let g := mkGate (wrapping_add 64 (pending g) 1) (next_report_ms g) in
  if held (next_report_ms g) now_ms then (None, g)
  else (Some (pending g), mkGate 0 (next_report now_ms)).

(** A thread in [observe], by the access that it does next. *)
Inductive Observer : Type :=
| ToCount | ToLoad | ToExchange (deadline : Z) | ToSwap | Returned (report : option Z).

(** The gate, the threads with the time that each was given, and the times of
    the successful exchanges, the last first. *)
Record GateSystem : Type := mkGateSystem {
  gate : RecoveryLogGate;
  observers : list (Z * Observer);
  wins : list Z;
}.

Inductive gate_step : GateSystem -> GateSystem -> Prop :=
| gate_count g w l1 l2 now :
    gate_step (mkGateSystem g (l1 ++ (now, ToCount) :: l2) w)
      (mkGateSystem (mkGate (wrapping_add 64 (pending g) 1) (next_report_ms g)) (l1 ++ (now, ToLoad) :: l2) w)
| gate_load_held g w l1 l2 now : held (next_report_ms g) now = true ->
    gate_step (mkGateSystem g (l1 ++ (now, ToLoad) :: l2) w) (mkGateSystem g (l1 ++ (now, Returned None) :: l2) w)
| gate_load_free g w l1 l2 now : held (next_report_ms g) now = false ->
    gate_step (mkGateSystem g (l1 ++ (now, ToLoad) :: l2) w)
      (mkGateSystem g (l1 ++ (now, ToExchange (next_report_ms g)) :: l2) w)
| gate_exchange g w l1 l2 now deadline : next_report_ms g = deadline ->
    gate_step (mkGateSystem g (l1 ++ (now, ToExchange deadline) :: l2) w)
      (mkGateSystem (mkGate (pending g) (next_report now)) (l1 ++ (now, ToSwap) :: l2) (now :: w))
| gate_exchange_lost g w l1 l2 now deadline : next_report_ms g <> deadline ->
    gate_step (mkGateSystem g (l1 ++ (now, ToExchange deadline) :: l2) w)
      (mkGateSystem g (l1 ++ (now, ToLoad) :: l2) w)
| gate_swap g w l1 l2 now :
    gate_step (mkGateSystem g (l1 ++ (now, ToSwap) :: l2) w)
      (mkGateSystem (mkGate 0 (next_report_ms g)) (l1 ++ (now, Returned (Some (pending g))) :: l2) w).

Definition gate_start (times : list Z) : GateSystem := mkGateSystem new_gate (map (fun now => (now, ToCount)) times) [].

Definition counted (t : Z * Observer) : Z := match snd t with ToCount => 0 | _ => 1 end.
Definition reported (t : Z * Observer) : Z := match snd t with Returned (Some n) => n | _ => 0 end.
Fixpoint total (f : Z * Observer -> Z) (l : list (Z * Observer)) : Z :=
  match l with [] => 0 | t :: l => f t + total f l end.

(** Consecutive wins are at least an interval apart. *)
Fixpoint spaced (last : option Z) (w : list Z) : Prop :=
  match w with
  | [] => True
  | now :: w =>
      match last with Some later => now + RECOVERY_LOG_INTERVAL_MS <= later | None => True end /\ spaced (Some now) w
  end.

Record gate_wf (s : GateSystem) : Prop := {
  gate_counts : pending (gate s) + total reported (observers s) = total counted (observers s);
  gate_pending : 0 <= pending (gate s);
  gate_reported : Forall (fun t => 0 <= reported t) (observers s);
  gate_times : Forall (fun t => 0 <= fst t /\ fst t + RECOVERY_LOG_INTERVAL_MS <= u64_max) (observers s);
  gate_last : next_report_ms (gate s) = match wins s with [] => 0 | now :: _ => now + RECOVERY_LOG_INTERVAL_MS end;
  gate_wins : Forall (Z.le 0) (wins s);
  gate_spaced : spaced None (wins s);
  gate_exchanges : Forall (fun t => match snd t with
    | ToExchange deadline => held deadline (fst t) = false
    | _ => True end) (observers s);
}.

Lemma total_app f a b : total f (a ++ b) = total f a + total f b.
Proof. induction a as [|t a IH]; simpl; lia. Qed.

Lemma total_counted l : 0 <= total counted l <= zlen l.
Proof.
  induction l as [|t l IH]; [by vm_compute|]. rewrite zlen_cons. simpl.
  assert (0 <= counted t <= 1) by (by destruct t as [? []]). lia.
Qed.

Lemma total_reported l : Forall (fun t => 0 <= reported t) l -> 0 <= total reported l.
Proof. induction 1 as [|t l Ht _ IH]; simpl; lia. Qed.

Lemma gate_start_wf times :
  Forall (fun now => 0 <= now /\ now + RECOVERY_LOG_INTERVAL_MS <= u64_max) times -> gate_wf (gate_start times).
Proof.
  intros Ht. split; simpl; try done.
  - induction times as [|t times IH]; [done|]. inversion Ht; subst. by apply IH.
  - by apply Forall_map, Forall_true.
  - by apply Forall_map.
  - by apply Forall_map, Forall_true.
Qed.

Lemma next_report_exact now :
  0 <= now -> now + RECOVERY_LOG_INTERVAL_MS <= u64_max -> next_report now = now + RECOVERY_LOG_INTERVAL_MS.
Proof. unfold next_report, saturating_add, RECOVERY_LOG_INTERVAL_MS, u64_max. lia. Qed.

Lemma gate_step_wf s s' : gate_step s s' -> gate_wf s -> zlen (observers s) <= u64_max -> gate_wf s'.
Proof.
  intros Hst [H1 H2 H3 H4 H5 H6 H7 H8] Hn.
  destruct Hst; simpl in *; rewrite ?total_app in *; rewrite !Forall_app, !Forall_cons in *; destruct_and!; simpl in *;
    pose proof (total_counted l1); pose proof (total_counted l2); rewrite ?zlen_app, ?zlen_cons in Hn;
    pose proof (total_reported l1 ltac:(done)); pose proof (total_reported l2 ltac:(done)).
  all: split; simpl; rewrite ?total_app, ?Forall_app, ?Forall_cons; cbn [total reported counted snd] in *; try done; try lia.
  - unfold wrapping_add. rewrite wrap_small by (unfold is_u, u64_max in *; lia). lia.
  - by apply wrap_is_u.
  - by apply next_report_exact.
  - split; [done|]. destruct w as [|last w]; [done|]. destruct H7 as [_ H7]. split; [|done].
    unfold held in *. inversion H6; subst. unfold RECOVERY_LOG_INTERVAL_MS in *. destruct (_ =? 0) eqn:E0; bool_to_prop; lia.
Qed.

(** However the workers that report the same kind of failure interleave,
    every failure is counted by exactly one log line or still pending, and two
    lines are at least ten seconds apart. *)
Lemma log_gate_exact times s :
  Forall (fun now => 0 <= now /\ now + RECOVERY_LOG_INTERVAL_MS <= u64_max) times -> zlen times <= u64_max ->
  rtc gate_step (gate_start times) s ->
  pending (gate s) + total reported (observers s) = total counted (observers s) /\ spaced None (wins s).
Proof.
  intros Ht Hn Hr. enough (gate_wf s /\ zlen (observers s) <= u64_max) as [Hs _] by (split; apply Hs).
  revert s Hr. apply (rtc_ind_r (fun s => gate_wf s /\ zlen (observers s) <= u64_max)); [|intros x y _ Hst [Hx Hl]; split].
  - split; [by apply gate_start_wf|]. unfold zlen in *. simpl. by rewrite length_map.
  - by eapply gate_step_wf.
  - destruct Hst; simpl in *; rewrite ?zlen_app, ?zlen_cons in *; lia.
Qed.

(** Two workers fail at once; the second loses the exchange and is counted by
    the first. *)
Lemma log_gate_exact_witness :
  exists s, rtc gate_step (gate_start [5; 6]) s
  /\ pending (gate s) + total reported (observers s) = 2 /\ wins s = [5].
Proof.
  pose (s := mkGateSystem (mkGate 0 10005) [(5, Returned (Some 2)); (6, Returned None)] [5]).
  assert (rtc gate_step (gate_start [5; 6]) s) as Hr.
  { eapply rtc_l; [apply (gate_count _ _ [] [(6, ToCount)] 5)|].
    eapply rtc_l; [apply (gate_load_free _ _ [] [(6, ToCount)] 5); done|].
    eapply rtc_l; [apply (gate_count _ _ [(5, ToExchange 0)] [] 6)|].
    eapply rtc_l; [apply (gate_load_free _ _ [(5, ToExchange 0)] [] 6); done|].
    eapply rtc_l; [apply (gate_exchange _ _ [] [(6, ToExchange 0)] 5); done|].
    eapply rtc_l; [apply (gate_exchange_lost _ _ [(5, ToSwap)] [] 6); done|].
    eapply rtc_l; [apply (gate_load_held _ _ [(5, ToSwap)] [] 6); done|].
    eapply rtc_l; [apply (gate_swap _ _ [] [(6, Returned None)] 5)|]. apply rtc_refl. }
  exists s. split; [exact Hr|].
  destruct (log_gate_exact [5; 6] s ltac:(by repeat constructor) ltac:(done) Hr) as [Hc _]. split; [|done]. by rewrite Hc.
Defined.

(** ** The pacing of starts *)

Record WorkerStartPacer : Type := mkPacer { next_start : Z; interval : Z }.

(** What a wait meets: the clock when it has the lock, if no cancellation came
    first, and whether none came during the sleep. *)
Record PacerEnv : Type := mkPacerEnv { locked_at : option Z; sleep_ended : bool }.

(** [wait]: the time at which the worker may start. *)
Definition pacer_wait (p : WorkerStartPacer) (env : PacerEnv) : option Z * WorkerStartPacer :=
  match locked_at env with
  | None => (None, p)
  | Some now =>
      let scheduled := Z.max (next_start p) now in
      if sleep_ended env then (Some scheduled, mkPacer (scheduled + interval p) (interval p)) else (None, p)
  end.

Fixpoint starts (p : WorkerStartPacer) (envs : list PacerEnv) : list Z :=
  match envs with
  | [] => []
  | env :: envs => let '(start, p) := pacer_wait p env in option_list start ++ starts p envs
  end.

Fixpoint paced (gap earliest : Z) (l : list Z) : Prop :=
  match l with [] => True | t :: l => earliest <= t /\ paced gap (t + gap) l end.

Lemma paced_weaken gap a b l : a <= b -> paced gap b l -> paced gap a l.
Proof. destruct l as [|t l]; [done|]. intros Hab [Ht Hl]. split; [lia|done]. Qed.

(** Starts are at least an interval apart, whoever gives up in between. *)
Lemma starts_paced p envs : 0 <= interval p -> paced (interval p) (next_start p) (starts p envs).
Proof.
  revert p. induction envs as [|env envs IH]; intros p Hi; [done|]. cbn [starts]. unfold pacer_wait.
  destruct (locked_at env) as [now|]; [|by apply IH]. destruct (sleep_ended env); [|by apply IH].
  cbn [option_list]. split; [lia|]. exact (IH (mkPacer (Z.max (next_start p) now + interval p) (interval p)) Hi).
Qed.

(** Workers that come at once start one interval after the other. *)
Lemma starts_together n p now :
  0 <= interval p ->
  starts p (replicate n (mkPacerEnv (Some now) true))
  = map (fun k => Z.max (next_start p) now + Z.of_nat k * interval p) (seq 0 n).
Proof.
  revert p. induction n as [|n IH]; intros p Hi; [done|]. cbn [replicate starts]. unfold pacer_wait. cbn [locked_at sleep_ended].
  rewrite IH by done. cbn [next_start interval seq map]. change (option_list (Some ?x)) with [x]. cbn [app].
  f_equal; [lia|]. rewrite <- seq_shift, map_map. apply map_ext. intros k. lia.
Qed.

(** ** The configuration request in flight *)

Record Flight : Type := mkFlight { sent : bool; in_flight : bool }.

(** A worker between two sessions, in [acquire] after it found that nothing was
    sent, in the request of a session, in [complete] before the flag is
    cleared, in the rest of that session, and in a session that does not ask. *)
Inductive Asker : Type := Between | Loaded | Asking | Completing | Serving | Plain.

(** [late] counts the guards dropped after their request had completed. *)
Record FlightSystem : Type := mkFlightSystem { flight : Flight; askers : list Asker; late : Z }.

Inductive flight_step : FlightSystem -> FlightSystem -> Prop :=
| flight_sent f n l1 l2 : sent f = true ->
    flight_step (mkFlightSystem f (l1 ++ Between :: l2) n) (mkFlightSystem f (l1 ++ Plain :: l2) n)
| flight_load f n l1 l2 : sent f = false ->
    flight_step (mkFlightSystem f (l1 ++ Between :: l2) n) (mkFlightSystem f (l1 ++ Loaded :: l2) n)
| flight_exchange f n l1 l2 : in_flight f = false ->
    flight_step (mkFlightSystem f (l1 ++ Loaded :: l2) n) (mkFlightSystem (mkFlight (sent f) true) (l1 ++ Asking :: l2) n)
| flight_taken f n l1 l2 : in_flight f = true ->
    flight_step (mkFlightSystem f (l1 ++ Loaded :: l2) n) (mkFlightSystem f (l1 ++ Plain :: l2) n)
| flight_delivered f n l1 l2 :
    flight_step (mkFlightSystem f (l1 ++ Asking :: l2) n) (mkFlightSystem (mkFlight true (in_flight f)) (l1 ++ Completing :: l2) n)
| flight_undelivered f n l1 l2 :
    flight_step (mkFlightSystem f (l1 ++ Asking :: l2) n) (mkFlightSystem f (l1 ++ Completing :: l2) n)
| flight_complete f n l1 l2 :
    flight_step (mkFlightSystem f (l1 ++ Completing :: l2) n) (mkFlightSystem (mkFlight (sent f) false) (l1 ++ Serving :: l2) n)
| flight_abandon f n l1 l2 :
    flight_step (mkFlightSystem f (l1 ++ Asking :: l2) n) (mkFlightSystem (mkFlight (sent f) false) (l1 ++ Between :: l2) n)
| flight_drop f n l1 l2 :
    flight_step (mkFlightSystem f (l1 ++ Serving :: l2) n) (mkFlightSystem (mkFlight (sent f) false) (l1 ++ Between :: l2) (n + 1))
| flight_end f n l1 l2 :
    flight_step (mkFlightSystem f (l1 ++ Plain :: l2) n) (mkFlightSystem f (l1 ++ Between :: l2) n)
| flight_outage f n l1 l2 :
    flight_step (mkFlightSystem f (l1 ++ Between :: l2) n) (mkFlightSystem (mkFlight false (in_flight f)) (l1 ++ Between :: l2) n).

Definition flight_start (workers : nat) : FlightSystem := mkFlightSystem (mkFlight false false) (replicate workers Between) 0.

(** The workers whose request is not over. *)
Fixpoint asking (l : list Asker) : Z :=
  match l with
  | [] => 0
  | (Asking | Completing) :: l => 1 + asking l
  | (Between | Loaded | Serving | Plain) :: l => asking l
  end.

Lemma asking_app a b : asking (a ++ b) = asking a + asking b.
Proof. induction a as [|[] a IH]; simpl; lia. Qed.

(** The requests for the configuration that are in flight at once are at
    most one more than the guards that were dropped after their request was
    over: each of these drops clears the flag of whoever asks at that time. *)
Lemma requests_bounded workers s :
  rtc flight_step (flight_start workers) s -> asking (askers s) <= 1 + late s /\ 0 <= late s.
Proof.
  intros Hr. enough (asking (askers s) <= (if in_flight (flight s) then 1 else 0) + late s /\ 0 <= late s)
    by (destruct (in_flight (flight s)); lia).
  revert s Hr. apply (rtc_ind_r (fun s => asking (askers s) <= (if in_flight (flight s) then 1 else 0) + late s /\ 0 <= late s)).
  - simpl. assert (asking (replicate workers Between) = 0) as -> by (by induction workers). lia.
  - intros x y _ Hst Hx. destruct Hst; simpl in *; rewrite ?asking_app in *; simpl in *;
      repeat match goal with H : in_flight _ = _ |- _ => rewrite H in * end;
      try destruct (in_flight f); lia.
Qed.

(** The first worker is told that there is no configuration and serves; its
    guard, dropped at the end, lets a third worker ask beside the second. *)
Lemma requests_bounded_witness :
  exists s, rtc flight_step (flight_start 3) s /\ asking (askers s) = 2 /\ late s = 1
  /\ asking (askers s) <= 1 + late s.
Proof.
  pose (s := mkFlightSystem (mkFlight false true) [Between; Asking; Asking] 1).
  assert (rtc flight_step (flight_start 3) s) as Hr.
  { eapply rtc_l; [by apply (flight_load _ _ [] [Between; Between])|].
    eapply rtc_l; [by apply (flight_exchange _ _ [] [Between; Between])|].
    eapply rtc_l; [apply (flight_undelivered _ _ [] [Between; Between])|].
    eapply rtc_l; [apply (flight_complete _ _ [] [Between; Between])|].
    eapply rtc_l; [by apply (flight_load _ _ [Serving] [Between])|].
    eapply rtc_l; [by apply (flight_exchange _ _ [Serving] [Between])|].
    eapply rtc_l; [apply (flight_drop _ _ [] [Asking; Between])|].
    eapply rtc_l; [by apply (flight_load _ _ [Between; Asking] [])|].
    eapply rtc_l; [by apply (flight_exchange _ _ [Between; Asking] [])|]. apply rtc_refl. }
  exists s. split; [exact Hr|]. split; [done|]. split; [done|]. exact (proj1 (requests_bounded 3 s Hr)).
Defined.
