(* ===== verification/Groups.v ===== *)
(** * Groups: which worker uses which call

    Models the part of [worker.rs] that reads the list of call links
    ([parse_hashes], [normalize_hash]) and the part of [run_groups] that gives
    every group of nine workers its call and the credential that it shares. *)

From Stdlib Require Import Strings.String.
From S2P Require Import Prelude Bytes Text TurnCore Credentials.

(** ** The list of calls *)

(** [split([',', ';', '\n', '\r', '\t', ' '])], the characters trimmed from a
    link, and those that end a hash. *)
Definition separators : list Z := [0x2c; 0x3b; 0x0a; 0x0d; 0x09; 0x20].
Definition brackets : list Z := [0x3c; 0x3e; 0x22; 0x27].
Definition terminators : list Z := [0x3f; 0x23; 0x2f].
Definition JOIN : text := ascii "/call/join/".

(** [find(['?', '#', '/'])] and [truncate] *)
Fixpoint truncate_at (set s : text) : text :=
  match s with
  | [] => []
  | c :: t => if existsb (Z.eqb c) set then [] else c :: truncate_at set t
  end.

(** The part of a link that follows its path; none for a link to elsewhere. *)
Definition hash_part (value : text) : option text :=
  let lower := to_ascii_lowercase value in
  match find_text JOIN lower with
  | Some index => Some (drop (index + length JOIN) value)
  | None =>
      if starts_with lower (ascii "http://") || starts_with lower (ascii "https://") then None else Some value
  end.
Definition cut_hash (value : text) : option text :=
  match trim_matches [0x2f] (trim (truncate_at terminators value)) with [] => None | hash => Some hash end.

Definition normalize_hash (input : text) : option text :=
  match trim_matches brackets (trim input) with
  | [] => None
  | value => hash_part value ≫= cut_hash
  end.

(** [filter(|hash| seen.insert(hash.clone()))] *)
Fixpoint first_seen (seen : list text) (l : list text) : list text :=
  match l with
  | [] => []
  | h :: l => if bool_decide (h ∈ seen) then first_seen seen l else h :: first_seen (h :: seen) l
  end.

Definition parse_hashes (raw : text) : list text := first_seen [] (omap normalize_hash (split_any separators raw)).

Lemma truncate_incl set s c : c ∈ truncate_at set s -> c ∈ s /\ existsb (Z.eqb c) set = false.
Proof.
  induction s as [|x s IH]; cbn [truncate_at]; [by intros ?%not_elem_of_nil|].
  destruct (existsb (Z.eqb x) set) eqn:E; [by intros ?%not_elem_of_nil|].
  rewrite !elem_of_cons. intros [->|Hc]; [tauto|]. destruct (IH Hc). tauto.
Qed.

Lemma elem_rev (c : Z) s : c ∈ rev s <-> c ∈ s.
Proof. by rewrite !list_elem_of_In, <- in_rev. Qed.

Lemma trim_matches_incl set s c : c ∈ trim_matches set s -> c ∈ s.
Proof.
  assert (forall s, c ∈ trim_start_matches set s -> c ∈ s) as Hs.
  { intros s'. induction s' as [|x s' IH]; cbn [trim_start_matches]; [done|]. destruct (existsb _ _); [|done].
    rewrite elem_of_cons. auto. }
  unfold trim_matches. rewrite elem_rev. intros Hc%Hs. rewrite elem_rev in Hc. by apply Hs.
Qed.

Lemma trim_incl s c : c ∈ trim s -> c ∈ s.
Proof.
  assert (forall s, c ∈ trim_start s -> c ∈ s) as Hs.
  { intros s'. induction s' as [|x s' IH]; cbn [trim_start]; [done|]. destruct (is_whitespace x); [|done].
    rewrite elem_of_cons. auto. }
  unfold trim. rewrite elem_rev. intros Hc%Hs. rewrite elem_rev in Hc. by apply Hs.
Qed.

Lemma split_any_clean set s part c : part ∈ split_any set s -> c ∈ part -> existsb (Z.eqb c) set = false.
Proof.
  revert part. induction s as [|x s IH]; intros part; cbn [split_any].
  { rewrite list_elem_of_singleton. intros ->. by intros ?%not_elem_of_nil. }
  destruct (split_any set s) as [|p ps] eqn:Es.
  { exfalso. clear -Es. destruct s as [|y s]; cbn [split_any] in Es; [done|].
    destruct (split_any set s); [done|]. by destruct (existsb _ _). }
  destruct (existsb (Z.eqb x) set) eqn:Ex; rewrite elem_of_cons; intros [->|Hp] Hc.
  - by apply not_elem_of_nil in Hc.
  - by apply (IH part).
  - apply elem_of_cons in Hc as [->|Hc]; [done|]. apply (IH p); [by left|done].
  - apply (IH part); [by right|done].
Qed.

Lemma hash_part_incl value v c : hash_part value = Some v -> c ∈ v -> c ∈ value.
Proof.
  unfold hash_part. destruct (find_text JOIN _) as [i|].
  - intros [= <-]. rewrite !list_elem_of_In. intros Hc. rewrite <- (take_drop (i + length JOIN) value). apply in_app_iff. by right.
  - destruct (_ || _); [done|]. by intros [= <-].
Qed.

Lemma cut_hash_clean v h :
  cut_hash v = Some h -> h <> [] /\ forall c, c ∈ h -> c ∈ v /\ existsb (Z.eqb c) terminators = false.
Proof.
  unfold cut_hash. destruct (trim_matches _ _) as [|x l] eqn:Et; [done|]. intros [= <-]. split; [done|].
  intros c Hc. rewrite <- Et in Hc. by apply trim_matches_incl, trim_incl, truncate_incl in Hc.
Qed.

Lemma normalize_hash_clean input h :
  normalize_hash input = Some h ->
  h <> [] /\ forall c, c ∈ h -> c ∈ input /\ existsb (Z.eqb c) terminators = false.
Proof.
  unfold normalize_hash. destruct (trim_matches brackets (trim input)) as [|x l] eqn:Ev; [done|].
  destruct (hash_part (x :: l)) as [v|] eqn:Ep; [|done]. intros Hh.
  destruct (cut_hash_clean v h Hh) as [Hn Hc]. split; [done|]. intros c Hin. destruct (Hc c Hin) as [Hv Ht]. split; [|done].
  eapply hash_part_incl in Hv; [|exact Ep]. rewrite <- Ev in Hv. by apply trim_matches_incl, trim_incl in Hv.
Qed.

Lemma first_seen_spec seen l :
  NoDup (first_seen seen l) /\ (forall h, h ∈ first_seen seen l <-> h ∈ l /\ h ∉ seen).
Proof.
  revert seen. induction l as [|h l IH]; intros seen; cbn [first_seen]; [split; [constructor|set_solver]|].
  destruct (IH seen) as [Hn He]. destruct (IH (h :: seen)) as [Hn' He'].
  case_bool_decide as Hd; [split; [done|set_solver]|]. split; [constructor; [set_solver|done]|].
  intros x. rewrite !elem_of_cons, He'. destruct (decide (x = h)); set_solver.
Qed.

(** The list of calls that a text of links gives has no repetition and no
    empty entry, and none of its entries holds a separator, a slash, a query or
    a fragment; it has every call that some part of the text normalises to. *)
Lemma hashes_clean raw :
  NoDup (parse_hashes raw)
  /\ (forall h, h ∈ parse_hashes raw <-> exists part, part ∈ split_any separators raw /\ normalize_hash part = Some h)
  /\ (forall h c, h ∈ parse_hashes raw -> c ∈ h -> existsb (Z.eqb c) (separators ++ terminators) = false)
  /\ [] ∉ parse_hashes raw.
Proof.
  unfold parse_hashes. destruct (first_seen_spec [] (omap normalize_hash (split_any separators raw))) as [Hn He].
  assert (forall h, h ∈ first_seen [] (omap normalize_hash (split_any separators raw)) <->
    exists part, part ∈ split_any separators raw /\ normalize_hash part = Some h) as Hin.
  { intros h. rewrite He, list_elem_of_omap. split; [naive_solver|]. intros Hp. split; [done|]. by intros ?%not_elem_of_nil. }
  split; [done|]. split; [done|]. split.
  - intros h c Hh Hc. apply Hin in Hh as (part & Hp & Hnorm). destruct (normalize_hash_clean _ _ Hnorm) as [_ Hcl].
    destruct (Hcl c Hc) as [Hcp Ht]. rewrite existsb_app, Ht, orb_false_r. by eapply split_any_clean.
  - intros Hh. apply Hin in Hh as (part & _ & Hnorm). by apply normalize_hash_clean in Hnorm as [].
Qed.

(** A link, a bare hash and the same link once more. *)
Example parse_hashes_example :
  parse_hashes (ascii "https://vk.com/call/join/AbC?from=x; <def>, https://other.org/ HTTPS://VK.COM/CALL/JOIN/AbC#1")
  = [ascii "AbC"; ascii "def"].
Proof. by vm_compute. Qed.

(** ** The groups of a run *)

Definition group_worker_ids (group_id : Z) : list Z :=
  let first := (group_id - 1) * WORKERS_PER_GROUP + 1 in
  map (fun k => first + Z.of_nat k) (seq 0 (Z.to_nat WORKERS_PER_GROUP)).
Definition credential_stream_id (credential_id : Z) : Z := credential_id * 100.
Definition group_hash_index (group_index hash_count : nat) : nat := (group_index mod hash_count)%nat.
Definition credential_cohort_index (group_index_for_hash : nat) : nat := (group_index_for_hash / Z.to_nat GROUPS_PER_CREDENTIAL)%nat.

(** A credential that groups share, by its number. *)
Record SharedCredential : Type := mkShared { credential_id : Z; hash : text }.

Record Assignment : Type := mkAssignment {
  credentials_by_hash : list (list SharedCredential);
  groups_by_hash : list nat;
  group_credentials : list SharedCredential;
  next_credential_id : Z;
}.

Definition at_index {A} (l : list A) (i : nat) : res A := match l !! i with Some x => Ret x | None => Panic end.

(** One turn of the loop of [run_groups]. *)
Definition assign_group (hashes : list text) (s : Assignment) (group_index : nat) : res Assignment :=
  let hash_index := group_hash_index group_index (length hashes) in
  group_index_for_hash ← at_index (groups_by_hash s) hash_index;
  let cohort_index := credential_cohort_index group_index_for_hash in
  credentials ← at_index (credentials_by_hash s) hash_index;
  pushed ← (if (length credentials <=? cohort_index)%nat then
    h ← at_index hashes hash_index;
    mret (credentials ++ [mkShared (next_credential_id s) h], next_credential_id s + 1)
  else mret (credentials, next_credential_id s));
  c ← at_index (fst pushed) cohort_index;
  mret (mkAssignment (<[hash_index := fst pushed]> (credentials_by_hash s))
          (<[hash_index := S group_index_for_hash]> (groups_by_hash s))
          (group_credentials s ++ [c]) (snd pushed)).

Fixpoint assign_groups (hashes : list text) (s : Assignment) (indices : list nat) : res Assignment :=
  match indices with
  | [] => Ret s
  | g :: indices => s ← assign_group hashes s g; assign_groups hashes s indices
  end.

(** The credentials that [run_groups] gives its groups, in their order. *)
Definition run_groups (groups : nat) (hashes : list text) : res (list SharedCredential) :=
  match hashes with
  | [] => Ret []
  | _ =>
      s ← assign_groups hashes (mkAssignment (replicate (length hashes) []) (replicate (length hashes) O) [] 1) (seq 0 groups);
      mret (group_credentials s)
  end.

(** The groups before the [k]-th that have the [h]-th of [n] hashes. *)
Definition earlier (n k h : nat) : nat := ((k + (n - 1 - h)) / n)%nat.

Lemma earlier_step n k h : (h < n)%nat -> earlier n (S k) h = (earlier n k h + if decide (h = k mod n)%nat then 1 else 0)%nat.
Proof.
  intros Hn. unfold earlier. pose proof (Nat.div_mod_eq k n) as Hk. pose proof (Nat.mod_upper_bound k n ltac:(lia)) as Hm.
  set (q := (k / n)%nat) in *. set (r := (k mod n)%nat) in *. rewrite Hk.
  replace (n * q + r + (n - 1 - h))%nat with (q * n + (r + (n - 1 - h)))%nat by lia.
  replace (S (n * q + r) + (n - 1 - h))%nat with (q * n + (S r + (n - 1 - h)))%nat by lia.
  rewrite !Nat.div_add_l by lia. destruct (decide (h = r)) as [->|Hr].
  - rewrite (Nat.div_small (r + _)) by lia. replace (S r + (n - 1 - r))%nat with (1 * n)%nat by lia. rewrite Nat.div_mul by lia. lia.
  - destruct (decide (h < r)%nat).
    + replace (r + (n - 1 - h))%nat with (1 * n + (r - 1 - h))%nat by lia.
      replace (S r + (n - 1 - h))%nat with (1 * n + (r - h))%nat by lia. rewrite !Nat.div_add_l, !Nat.div_small by lia. lia.
    + rewrite !Nat.div_small by lia. lia.
Qed.

(** After [k] groups over [hashes]. *)
Record assigned (hashes : list text) (k : nat) (s : Assignment) : Prop := {
  as_counts : forall h, (h < length hashes)%nat -> groups_by_hash s !! h = Some (earlier (length hashes) k h);
  as_rows : forall h, (h < length hashes)%nat ->
    exists row, credentials_by_hash s !! h = Some row /\ length row = ((earlier (length hashes) k h + 1) / 2)%nat;
  as_ids : forall h row c x, credentials_by_hash s !! h = Some row -> row !! c = Some x ->
    (exists t, hashes !! h = Some t /\ hash x = t) /\ 1 <= credential_id x < next_credential_id s;
  as_distinct : forall h row c x h' row' c' x',
    credentials_by_hash s !! h = Some row -> row !! c = Some x ->
    credentials_by_hash s !! h' = Some row' -> row' !! c' = Some x' ->
    credential_id x = credential_id x' -> h = h' /\ c = c';
  as_length : length (group_credentials s) = k;
  as_next : 1 <= next_credential_id s;
  as_given : forall g x, group_credentials s !! g = Some x ->
    exists row, credentials_by_hash s !! (g mod length hashes)%nat = Some row
    /\ row !! (g / length hashes / 2)%nat = Some x;
}.

Lemma earlier_same n k : (0 < n)%nat -> earlier n k (k mod n) = (k / n)%nat.
Proof.
  intros Hn. unfold earlier. pose proof (Nat.div_mod_eq k n) as Hk. pose proof (Nat.mod_upper_bound k n ltac:(lia)) as Hm.
  set (q := (k / n)%nat) in *. set (r := (k mod n)%nat) in *. rewrite Hk.
  replace (n * q + r + (n - 1 - r))%nat with (q * n + (n - 1))%nat by lia.
  rewrite Nat.div_add_l, Nat.div_small by lia. lia.
Qed.

(** The row of a hash before and after one more of its groups. *)
Definition grown (hashes : list text) (h : nat) (row row' : list SharedCredential) (next next' : Z) : Prop :=
  (row' = row /\ next' = next)
  \/ (exists t, hashes !! h = Some t /\ row' = row ++ [mkShared next t] /\ next' = next + 1).

Lemma at_index_Some {A} (l : list A) i x : l !! i = Some x -> at_index l i = Ret x.
Proof. unfold at_index. by intros ->. Qed.

Lemma assign_group_eq hashes s k row m :
  hashes <> [] -> groups_by_hash s !! (k mod length hashes)%nat = Some m ->
  credentials_by_hash s !! (k mod length hashes)%nat = Some row -> length row = ((m + 1) / 2)%nat ->
  exists row' next' c, grown hashes (k mod length hashes) row row' (next_credential_id s) next'
    /\ length row' = ((m + 2) / 2)%nat /\ row' !! (m / 2)%nat = Some c
    /\ assign_group hashes s k
       = Ret (mkAssignment (<[(k mod length hashes)%nat := row']> (credentials_by_hash s))
                (<[(k mod length hashes)%nat := S m]> (groups_by_hash s)) (group_credentials s ++ [c]) next').
Proof.
  intros Hne Hm Hrow Hlen. assert (k mod length hashes < length hashes)%nat as Hh.
  { apply Nat.mod_upper_bound. by destruct hashes. }
  unfold assign_group, group_hash_index, credential_cohort_index. change (Z.to_nat GROUPS_PER_CREDENTIAL) with 2%nat.
  cbv zeta. set (h := (k mod length hashes)%nat) in *. rewrite (at_index_Some _ _ _ Hm). cbn [mbind res_bind]. rewrite (at_index_Some _ _ _ Hrow). cbn [mbind res_bind].
  pose proof (Nat.div_mod_eq m 2). pose proof (Nat.mod_upper_bound m 2 ltac:(lia)).
  pose proof (Nat.div_mod_eq (m + 1) 2). pose proof (Nat.mod_upper_bound (m + 1) 2 ltac:(lia)).
  pose proof (Nat.div_mod_eq (m + 2) 2). pose proof (Nat.mod_upper_bound (m + 2) 2 ltac:(lia)).
  destruct (Nat.leb_spec (length row) (m / 2)) as [Hle|Hgt].
  - destruct (lookup_lt_is_Some_2 hashes h Hh) as [t Ht]. rewrite (at_index_Some _ _ _ Ht). cbn [mbind res_bind mret res_ret fst snd].
    exists (row ++ [mkShared (next_credential_id s) t]), (next_credential_id s + 1), (mkShared (next_credential_id s) t).
    split; [right; by exists t|]. rewrite length_app. cbn [length]. split; [lia|].
    assert ((row ++ [mkShared (next_credential_id s) t]) !! (m / 2)%nat = Some (mkShared (next_credential_id s) t)) as Hc.
    { rewrite lookup_app_r by lia. by replace (m / 2 - length row)%nat with O by lia. }
    split; [done|]. by rewrite (at_index_Some _ _ _ Hc).
  - destruct (lookup_lt_is_Some_2 row (m / 2)) as [c Hc]; [lia|]. cbn [mbind res_bind mret res_ret fst snd].
    exists row, (next_credential_id s), c. split; [by left|]. split; [lia|]. split; [done|]. by rewrite (at_index_Some _ _ _ Hc).
Qed.

Lemma grown_lookup hashes h row row' next next' c x :
  grown hashes h row row' next next' -> row' !! c = Some x ->
  row !! c = Some x \/ (next' = next + 1 /\ c = length row /\ credential_id x = next /\ hashes !! h = Some (hash x)).
Proof.
  intros [[-> ->]|(t & Ht & -> & ->)] Hx; [by left|]. apply lookup_app_Some in Hx as [Hx|[Hl Hx]]; [by left|].
  right. destruct (c - length row)%nat as [|j] eqn:Ej; [|by destruct j]. injection Hx as <-. simpl. by repeat split; [lia|].
Qed.

Lemma grown_keeps hashes h row row' next next' c x :
  grown hashes h row row' next next' -> row !! c = Some x -> row' !! c = Some x.
Proof. intros [[-> _]|(t & _ & -> & _)] Hx; [done|]. by apply lookup_app_l_Some. Qed.

Lemma grown_rows hashes (rows : list (list SharedCredential)) h row row' next next' h' r c x :
  rows !! h = Some row -> grown hashes h row row' next next' ->
  <[h:=row']> rows !! h' = Some r -> r !! c = Some x ->
  (exists r0, rows !! h' = Some r0 /\ r0 !! c = Some x)
  \/ (h' = h /\ next' = next + 1 /\ c = length row /\ credential_id x = next /\ hashes !! h = Some (hash x)).
Proof.
  intros Hrow Hgr Hr Hx. destruct (decide (h' = h)) as [->|Hne].
  - rewrite list_lookup_insert_eq in Hr by (by apply lookup_lt_is_Some; eexists). injection Hr as <-.
    destruct (grown_lookup _ _ _ _ _ _ _ _ Hgr Hx); [left; eauto|tauto].
  - rewrite list_lookup_insert_ne in Hr by done. left. eauto.
Qed.

Lemma assign_group_ok hashes s k :
  hashes <> [] -> assigned hashes k s -> exists s', assign_group hashes s k = Ret s' /\ assigned hashes (S k) s'.
Proof.
  intros Hne [Hc Hr Hi Hd Hl Hnx Hg]. assert (0 < length hashes)%nat as Hpos by (destruct hashes; [done|simpl; lia]).
  assert (k mod length hashes < length hashes)%nat as Hh by (by apply Nat.mod_upper_bound; lia).
  destruct (Hr _ Hh) as (row & Hrow & Hlen). pose proof (Hc _ Hh) as Hm. rewrite earlier_same in * by done.
  destruct (assign_group_eq hashes s k row _ Hne Hm Hrow Hlen) as (row' & next' & c & Hgr & Hlen' & Hcoh & ->).
  eexists. split; [done|]. set (h := (k mod length hashes)%nat) in *. set (n := length hashes) in *.
  assert (earlier n k h = (k / n)%nat) as Hek by (by apply earlier_same).
  assert (h < length (credentials_by_hash s))%nat as Hlc by (by apply lookup_lt_is_Some; eexists).
  assert (h < length (groups_by_hash s))%nat as Hlg by (by apply lookup_lt_is_Some; eexists).
  pose proof (fun h' r c' x => grown_rows hashes _ h row row' _ _ h' r c' x Hrow Hgr) as Hnew.
  assert (next_credential_id s <= next') as Hnext by (destruct Hgr as [[_ ->]|(? & _ & _ & ->)]; lia).
  split; cbn [groups_by_hash credentials_by_hash group_credentials next_credential_id].
  - intros h' Hh'. rewrite earlier_step by done. change (length hashes) with n. change (k mod n)%nat with h. destruct (decide (h' = h)) as [->|Hne'].
    + rewrite list_lookup_insert_eq, Hek by done. f_equal. lia.
    + rewrite list_lookup_insert_ne, Hc by done. f_equal. lia.
  - intros h' Hh'. rewrite earlier_step by done. change (length hashes) with n. change (k mod n)%nat with h. destruct (decide (h' = h)) as [->|Hne'].
    + rewrite list_lookup_insert_eq by done. exists row'. split; [done|]. rewrite Hek, Hlen'. f_equal. lia.
    + rewrite list_lookup_insert_ne by done. rewrite Nat.add_0_r. by apply Hr.
  - intros h' r c' x Hr' Hx. destruct (Hnew h' r c' x Hr' Hx) as [(r0 & Hr0 & Hx0)|(-> & -> & -> & -> & Ht)].
    + destruct (Hi _ _ _ _ Hr0 Hx0). split; [done|lia].
    + split; [by exists (hash x)|]. lia.
  - intros h1 r1 c1 x1 h2 r2 c2 x2 Hr1 Hx1 Hr2 Hx2 He.
    destruct (Hnew _ _ _ _ Hr1 Hx1) as [(s1 & Hs1 & Hy1)|(-> & _ & -> & Hn1 & _)];
    destruct (Hnew _ _ _ _ Hr2 Hx2) as [(s2 & Hs2 & Hy2)|(-> & _ & -> & Hn2 & _)]; [by eapply Hd| | |done].
    + destruct (Hi _ _ _ _ Hs1 Hy1). lia.
    + destruct (Hi _ _ _ _ Hs2 Hy2). lia.
  - rewrite length_app. simpl. lia.
  - lia.
  - change (length hashes) with n in Hg |- *. intros g x Hx. apply lookup_app_Some in Hx as [Hx|[Hgl Hx]].
    + destruct (Hg g x Hx) as (r & Hr' & Hx'). destruct (decide ((g mod n)%nat = h)) as [Eh|Hne'].
      * rewrite Eh in *. rewrite list_lookup_insert_eq by done. exists row'. split; [done|]. eapply grown_keeps; [done|]. congruence.
      * rewrite list_lookup_insert_ne by done. by exists r.
    + destruct (g - length (group_credentials s))%nat as [|j] eqn:Ej; [|by destruct j]. injection Hx as <-.
      assert (g = k) as -> by lia. change (k mod n)%nat with h. rewrite list_lookup_insert_eq by done. by exists row'.
Qed.

Lemma assign_groups_ok hashes k n s :
  hashes <> [] -> assigned hashes k s ->
  exists s', assign_groups hashes s (seq k n) = Ret s' /\ assigned hashes (k + n) s'.
Proof.
  intros Hne. revert k s. induction n as [|n IH]; intros k s Hs; cbn [seq assign_groups].
  - exists s. split; [done|]. by rewrite Nat.add_0_r.
  - destruct (assign_group_ok hashes s k Hne Hs) as (s1 & -> & Hs1). cbn [mbind res_bind].
    destruct (IH (S k) s1 Hs1) as (s2 & He & Hs2). exists s2. split; [done|]. by rewrite Nat.add_succ_r.
Qed.

Lemma assigned_start hashes :
  assigned hashes 0 (mkAssignment (replicate (length hashes) []) (replicate (length hashes) O) [] 1).
Proof.
  assert (forall h, (h < length hashes)%nat -> earlier (length hashes) 0 h = O) as He.
  { intros h Hh. unfold earlier. by apply Nat.div_small; lia. }
  split; simpl; try done.
  - intros h Hh. rewrite He by done. by apply lookup_replicate_2.
  - intros h Hh. exists []. rewrite He by done. split; [by apply lookup_replicate_2|done].
  - intros h row c x Hr Hx. apply lookup_replicate in Hr as [-> _]. done.
  - intros h row c x h' row' c' x' Hr Hx. apply lookup_replicate in Hr as [-> _]. done.
Qed.

(** [run_groups] gives every group the call whose turn it is, and makes two
    groups share a credential exactly when they are a pair of consecutive
    groups of the same call, so that no three groups share one and the eighteen
    leases of a credential are enough for all of its workers. *)
Lemma groups_share groups hashes :
  hashes <> [] ->
  exists l, run_groups groups hashes = Ret l /\ length l = groups
  /\ (forall g x, l !! g = Some x -> hashes !! (g mod length hashes)%nat = Some (hash x))
  /\ (forall g g' x x', l !! g = Some x -> l !! g' = Some x' ->
       (credential_id x = credential_id x' <->
        (g mod length hashes = g' mod length hashes /\ g / length hashes / 2 = g' / length hashes / 2)%nat))
  /\ (forall a b c x y z, (a < b < c)%nat -> l !! a = Some x -> l !! b = Some y -> l !! c = Some z ->
       credential_id x = credential_id y -> credential_id y = credential_id z -> False).
Proof.
  intros Hne. destruct (assign_groups_ok hashes 0 groups _ Hne (assigned_start hashes)) as (s & He & [_ _ Hi Hd Hl _ Hg]).
  exists (group_credentials s). assert (run_groups groups hashes = Ret (group_credentials s)) as ->.
  { unfold run_groups. destruct hashes as [|h hs]; [done|]. by rewrite He. }
  assert (0 < length hashes)%nat as Hpos by (destruct hashes; [done|simpl; lia]).
  assert (forall g g' x x', group_credentials s !! g = Some x -> group_credentials s !! g' = Some x' ->
       (credential_id x = credential_id x' <->
        (g mod length hashes = g' mod length hashes /\ g / length hashes / 2 = g' / length hashes / 2)%nat)) as Hshare.
  { intros g g' x x' Hx Hx'. destruct (Hg g x Hx) as (r & Hr & Hrx). destruct (Hg g' x' Hx') as (r' & Hr' & Hrx'). split.
    - intros Hid. by eapply Hd.
    - intros [E1 E2]. rewrite E1 in Hr. rewrite E2 in Hrx. congruence. }
  split; [done|]. split; [done|]. split; [|split; [exact Hshare|]].
  - intros g x Hx. destruct (Hg g x Hx) as (r & Hr & Hrx). destruct (Hi _ _ _ _ Hr Hrx) as [(t & Ht & <-) _]. done.
  - intros a b c x y z Hlt Hx Hy Hz Hxy Hyz. apply (Hshare a b x y Hx Hy) in Hxy as [M1 D1].
    apply (Hshare b c y z Hy Hz) in Hyz as [M2 D2]. revert Hlt.
    pose proof (Nat.div_mod_eq a (length hashes)). pose proof (Nat.div_mod_eq b (length hashes)).
    pose proof (Nat.div_mod_eq c (length hashes)).
    pose proof (Nat.div_mod_eq (a / length hashes) 2). pose proof (Nat.mod_upper_bound (a / length hashes) 2 ltac:(lia)).
    pose proof (Nat.div_mod_eq (c / length hashes) 2). pose proof (Nat.mod_upper_bound (c / length hashes) 2 ltac:(lia)).
    intros [Hab Hbc]. assert (a / length hashes < b / length hashes)%nat by nia.
    assert (b / length hashes < c / length hashes)%nat by nia. lia.
Qed.

(** Five groups of two calls. *)
Lemma groups_share_witness :
  [ascii "a"; ascii "b"] <> []
  /\ exists l, run_groups 5 [ascii "a"; ascii "b"] = Ret l /\ length l = 5%nat /\ map credential_id l = [1; 2; 1; 2; 3].
Proof.
  split; [done|]. destruct (groups_share 5 [ascii "a"; ascii "b"] ltac:(done)) as (l & Hl & Hn & _).
  exists l. split; [exact Hl|]. split; [exact Hn|]. vm_compute in Hl. injection Hl as <-. reflexivity.
Defined.

(** The ids of a group's workers are its own. *)
Lemma group_workers_apart a b w :
  1 <= a -> 1 <= b -> w ∈ group_worker_ids a -> w ∈ group_worker_ids b -> a = b.
Proof.
  unfold group_worker_ids, WORKERS_PER_GROUP. rewrite !list_elem_of_fmap. intros Ha Hb (i & -> & Hi) (j & Hj & Hj').
  rewrite list_elem_of_In, in_seq in *. lia.
Qed.
