(* ===== verification/Worker.v ===== *)
(** * Worker: the life of one worker between its sessions

    Models [worker_loop] of [worker.rs]: how a worker gets a lease and its turn
    to start, and what it makes of the end of a session: what it reports of its
    lease, how it counts its attempts, how long it waits and when it leaves.
    What the session did is [SessionEnd], what the worker meets meanwhile is
    [Surroundings]; between two accesses to the shared credentials the other
    workers of the cohort may do anything. Durations are nanoseconds. *)

From Stdlib Require Import Strings.String.
From S2P Require Import Prelude Bytes Text TurnCore TurnEndpoint Credentials WorkerErrors WorkerGates.

(** ** Delays *)

Definition worker_retry_delay_with_jitter (attempt jitter_ms : Z) : Z :=
  let shift := Z.min (saturating_sub attempt 1) 4 in
  let base_ms := Z.min (saturating_mul 64 250 (Z.shiftl 1 shift)) 4000 in
  millis (saturating_add 64 base_ms (Z.min jitter_ms 250)).
(** [random] is the draw of [rand::random]. *)
Definition worker_retry_delay (attempt random : Z) : Z := worker_retry_delay_with_jitter attempt (random mod 251).
Definition tcp_stream_retry_delay (attempt : Z) : Z := quota_rotation_delay (saturating_sub attempt 1).

Definition should_refresh_configuration_after_full_outage (was_ready failed : bool) (active_connections : Z)
    (cancelled : bool) : bool :=
  was_ready && failed && (active_connections =? 0) && negb cancelled.

(** ** What a session was, and what surrounds its end *)

Record SessionEnd : Type := mkSessionEnd {
  outcome : result bool Error;
  was_ready : bool;
  allocation_started : bool;
  allocated : bool;
}.

(** [others n] is what the other workers do to the credentials before the
    [n]-th access, [draw n] the [n]-th draw of the text of [worker_loop]. *)
Record Surroundings : Type := mkSurroundings {
  turn_transport : TurnTransportMode;
  active_connections : Z;
  cancelled_early : bool;
  cancelled : bool;
  allowed : bool;
  credential_generation : Z;
  repaired_generation : Z;
  now_ms : Z;
  draw : nat -> Z;
  others : nat -> GroupCredentials -> GroupCredentials;
}.

Inductive Next : Type := Leave | Again | After (delay : Z).
Inductive Notice : Type := NetworkRecovered | NetworkTimeout.

Record Gates : Type := mkGates {
  network_log : RecoveryLogGate;
  turn_timeout_log : RecoveryLogGate;
  wrap_timeout_log : RecoveryLogGate;
  getconf_timeout_log : RecoveryLogGate;
}.

(** What a worker holds and shares: its attempts, the credentials of its
    cohort, the flag of the configuration, the log gates and the notices given
    to the host. *)
Record WorkerState : Type := mkWorkerState {
  attempt : Z;
  group : GroupCredentials;
  config_sent : bool;
  gates : Gates;
  notices : list Notice;
}.

Definition set_attempt (s : WorkerState) (n : Z) : WorkerState :=
  mkWorkerState n (group s) (config_sent s) (gates s) (notices s).
Definition set_group (s : WorkerState) (g : GroupCredentials) : WorkerState :=
  mkWorkerState (attempt s) g (config_sent s) (gates s) (notices s).
Definition set_gates (s : WorkerState) (x : Gates) : WorkerState :=
  mkWorkerState (attempt s) (group s) (config_sent s) x (notices s).
Definition notify (s : WorkerState) (n : Notice) : WorkerState :=
  mkWorkerState (attempt s) (group s) (config_sent s) (gates s) (notices s ++ [n]).

(** One access to the credentials of the cohort, under their mutex. *)
Definition with_cache {A} (env : Surroundings) (n : nat) (s : WorkerState) (f : CredentialCache -> A * CredentialCache)
    : A * WorkerState :=
  let g := others env n (group s) in
  let '(x, cache) := f (state g) in
  (x, set_group s (mkGroup cache (failures g) (unavailable g))).
Definition report (env : Surroundings) (n : nat) (s : WorkerState) (f : CredentialCache -> CredentialCache) : WorkerState :=
  snd (with_cache env n s (fun cache => (tt, f cache))).

(** ** The end of a session *)

(** The log gates and the delays of a failure that is none of the others. *)
Definition observe_failure (env : Surroundings) (s : WorkerState) (message lower : text) (fatal : bool) : WorkerState :=
  let x := gates s in
  if fatal then s
  else if contains lower (ascii "wrap_auth_timeout")
  then set_gates s (mkGates (network_log x) (turn_timeout_log x) (snd (observe (wrap_timeout_log x) (now_ms env))) (getconf_timeout_log x))
  else if contains lower (ascii "getconf") && contains lower (ascii "timeout")
  then set_gates s (mkGates (network_log x) (turn_timeout_log x) (wrap_timeout_log x) (snd (observe (getconf_timeout_log x) (now_ms env))))
  else if contains lower (ascii "turn ") && contains lower (ascii "transaction timeout")
  then set_gates s (mkGates (network_log x) (snd (observe (turn_timeout_log x) (now_ms env))) (wrap_timeout_log x) (getconf_timeout_log x))
  else s.

(** "хеш мёртв" *)
Definition DEAD_HASH : text := [0x445; 0x435; 0x448; 0x20; 0x43c; 0x451; 0x440; 0x442; 0x432].

Definition other_failure (env : Surroundings) (s : WorkerState) (message lower : text) (delay : Z) : Next * WorkerState :=
  let s := if is_transport_timeout lower then notify s NetworkTimeout else s in
  let fatal := contains_any message [ascii "FATAL_AUTH"; ascii "FATAL_PROTOCOL"; ascii "FATAL_HANDSHAKE"; DEAD_HASH] in
  let delay := if fatal then secs (5 + draw env 11 mod 6) else delay in
  let s := observe_failure env s message lower fatal in
  let delay :=
    if contains lower (ascii "getconf") then Z.min (worker_retry_delay (attempt s) (draw env 12)) (secs 1) else delay in
  let delay :=
    if contains lower (ascii "error 29") || contains lower (ascii "cannot create socket")
    then secs (2 + draw env 13 mod 3) else delay in
  (After delay, s).

Definition after_failure (env : Surroundings) (lease : CredentialLease) (s : WorkerState) (error : Error) : Next * WorkerState :=
  let message := display error in
  let lower := to_ascii_lowercase message in
  let tcp_stream_reset :=
    match turn_transport env with ModeTcpTls => is_remote_tcp_stream_reset error lower | _ => false end in
  if contains lower (ascii "net_rebind") then (After (millis (20 + draw env 1 mod 80)), set_attempt s 0)
  else if contains lower (ascii "target_repair") then
    let s := set_attempt s 0 in
    let s := if credential_generation env <? repaired_generation env
             then snd (with_cache env 2 s (fun cache => invalidate cache lease)) else s in
    (After (millis (50 + draw env 2 mod 151)), s)
  else if contains lower (ascii "turn channel rebind retry exhausted")
  then (After (millis (50 + draw env 3 mod 151)), set_attempt s 0)
  else
    let s := set_attempt s (saturating_add 64 (attempt s) 1) in
    let delay := worker_retry_delay (attempt s) (draw env 4) in
    let credentials_invalid := should_invalidate_turn_credentials error lower in
    let '(delay, s) :=
      if credentials_invalid
      then (millis (100 + draw env 5 mod 51),
            set_attempt (snd (with_cache env 2 s (fun cache => invalidate cache lease))) 0)
      else (delay, s) in
    if is_turn_allocation_quota error lower then
      let '(rotation, s) := with_cache env 3 s (fun cache => rotate_after_quota cache lease) in
      (After (match rotation with
              | QuotaRotated quota_delay => quota_delay
              | QuotaReplaced => millis (50 + draw env 6 mod 151)
              end), set_attempt s 0)
    else if is_turn_allocation_mismatch error lower then
      let '(mismatch, s) := with_cache env 3 s (fun cache => retry_after_mismatch cache lease) in
      (After (match mismatch with
              | RetryCurrent => millis (50 + draw env 7 mod 51)
              | MismatchRotated => millis (100 + draw env 8 mod 51)
              | MismatchReplaced => millis (50 + draw env 9 mod 51)
              end), set_attempt s 0)
    else if credentials_invalid then (After delay, s)
    else if tcp_stream_reset then (After (tcp_stream_retry_delay (attempt s)), s)
    else if is_local_network_down error then
      let s := notify s NetworkTimeout in
      let x := gates s in
      (After (millis (250 + draw env 10 mod 751)),
       set_gates s (mkGates (snd (observe (network_log x) (now_ms env))) (turn_timeout_log x) (wrap_timeout_log x)
                      (getconf_timeout_log x)))
    else other_failure env s message lower delay.

Definition after_session (env : Surroundings) (lease : CredentialLease) (e : SessionEnd) (s : WorkerState)
    : Next * WorkerState :=
  let s := if allocated e then notify (report env 0 s (fun cache => record_allocation cache lease)) NetworkRecovered else s in
  let s := if negb (allocation_started e) then report env 1 s (fun cache => release cache lease) else s in
  let s := if was_ready e then set_attempt s 0 else s in
  let s :=
    if should_refresh_configuration_after_full_outage (was_ready e) (negb (is_ok (outcome e))) (active_connections env)
         (cancelled_early env)
    then mkWorkerState (attempt s) (group s) false (gates s) (notices s) else s in
  if cancelled env || unavailable (group s) then (Leave, s)
  else
    let parked := match outcome e with Err error => contains (display error) (ascii "IDLE_PARK") | Ok _ => false end in
    if parked then
      let s := if allocation_started e then report env 2 s (fun cache => release cache lease) else s in
      (Again, set_attempt s 0)
    else if negb (allowed env) then (Again, s)
    else
      match outcome e with
      | Ok _ => (After (worker_retry_delay (Z.max (attempt s) 1) (draw env 0)), s)
      | Err error => after_failure env lease s error
      end.

(** ** Before a session *)

(** A turn of the loop that asks for a lease: what the others did since the
    last one, what the fetch met, and whether the worker was cancelled. *)
Record LeaseTurn : Type := mkLeaseTurn {
  since : GroupCredentials -> GroupCredentials;
  fetch : GetEnv;
  stopped : bool;
}.

(** The loop, over the turns that it is given: [None] when it leaves, and
    [Some None] when the turns run out. *)
Fixpoint obtain_lease (turns : list LeaseTurn) (g : GroupCredentials) : option (option CredentialLease) * GroupCredentials :=
  match turns with
  | [] => (Some None, g)
  | t :: turns =>
      let g := since t g in
      if unavailable g then (None, g) else
      let '(lease, g, _) := get (fetch t) g in
      match lease with
      | Some lease => (Some (Some lease), g)
      | None => if stopped t || unavailable g then (None, g) else obtain_lease turns g
      end
  end.

(** The pacer, then the gates once more; a worker that may not start gives its
    lease back. *)
Definition prepare (env : Surroundings) (lease : CredentialLease) (started allowed_again : bool) (s : WorkerState) : bool * WorkerState :=
  if negb started || negb allowed_again
  then (false, report env 0 s (fun cache => release cache lease)) else (true, s).

(** ** What holds of every end of a session *)

Definition delay_ok (d : Z) : Prop := millis 20 <= d <= secs 10.

Lemma worker_delay_bounds n random :
  millis 250 <= worker_retry_delay n random <= millis 4250.
Proof.
  unfold worker_retry_delay, worker_retry_delay_with_jitter, saturating_mul, saturating_add, saturating_sub, millis.
  cbv zeta. rewrite Z.shiftl_1_l. pose proof (Z.mod_pos_bound random 251 ltac:(lia)).
  set (k := Z.min (Z.max (n - 1) 0) 4). assert (0 <= k <= 4) as Hk by lia.
  pose proof (Z.pow_le_mono_r 2 0 k ltac:(lia) ltac:(lia)). pose proof (Z.pow_le_mono_r 2 k 4 ltac:(lia) ltac:(lia)).
  change (2 ^ 0) with 1 in *. change (2 ^ 4) with 16 in *. change (2 ^ 64) with 18446744073709551616. lia.
Qed.

Lemma quota_delay_bounds n : millis 100 <= quota_rotation_delay n <= millis 1500.
Proof. unfold quota_rotation_delay, millis. repeat destruct (_ =? _); lia. Qed.

Lemma drawn_ms a b n : 20 <= a -> 0 < b -> a + b <= 10001 -> delay_ok (millis (a + n mod b)).
Proof. intros Ha Hb Hab. unfold delay_ok, millis, secs. pose proof (Z.mod_pos_bound n b Hb). lia. Qed.

Lemma drawn_secs a b n : 1 <= a -> 0 < b -> a + b <= 11 -> delay_ok (secs (a + n mod b)).
Proof. intros Ha Hb Hab. unfold delay_ok, millis, secs. pose proof (Z.mod_pos_bound n b Hb). lia. Qed.

Lemma retry_delay_ok n random : delay_ok (worker_retry_delay n random).
Proof. pose proof (worker_delay_bounds n random). unfold delay_ok, millis, secs in *. lia. Qed.

Lemma quota_delay_ok n : delay_ok (quota_rotation_delay n).
Proof. pose proof (quota_delay_bounds n). unfold delay_ok, millis, secs in *. lia. Qed.

Ltac delay := first [apply retry_delay_ok | apply quota_delay_ok | apply drawn_ms; lia | apply drawn_secs; lia].

Lemma other_failure_waits env s message lower delay :
  delay_ok delay -> exists d s', other_failure env s message lower delay = (After d, s') /\ delay_ok d.
Proof.
  intros Hd. unfold other_failure. cbv zeta. eexists _, _. split; [reflexivity|].
  destruct (contains lower (ascii "error 29") || _); [delay|].
  destruct (contains lower (ascii "getconf")).
  - pose proof (worker_delay_bounds (attempt (observe_failure env (if is_transport_timeout lower then notify s NetworkTimeout else s)
      message lower (contains_any message [ascii "FATAL_AUTH"; ascii "FATAL_PROTOCOL"; ascii "FATAL_HANDSHAKE"; DEAD_HASH])))
      (draw env 12)). unfold delay_ok, millis, secs in *. lia.
  - destruct (contains_any _ _); [delay|done].
Qed.

Lemma rotated_delay_ok env n s lease d s' :
  with_cache env n s (fun cache => rotate_after_quota cache lease) = (QuotaRotated d, s') -> delay_ok d.
Proof.
  unfold with_cache, rotate_after_quota. destruct (current (state (others env n (group s)))) as [c|]; [|done].
  destruct (_ || _); [done|]. intros [= <- <-]. apply quota_delay_ok.
Qed.

Lemma after_failure_waits env lease s error :
  exists d s', after_failure env lease s error = (After d, s') /\ delay_ok d.
Proof.
  unfold after_failure. cbv zeta. set (lower := to_ascii_lowercase (display error)).
  repeat (match goal with |- context [if contains lower ?t then _ else _] => destruct (contains lower t) end;
    [eexists _, _; split; [reflexivity|delay]|]).
  set (s1 := set_attempt s _).
  destruct (should_invalidate_turn_credentials error lower);
    (destruct (is_turn_allocation_quota error lower);
      [destruct (with_cache env 3 _ _) as [[d|] s2] eqn:Ew; eexists _, _; (split; [reflexivity|]);
        [by eapply rotated_delay_ok|delay]|
       destruct (is_turn_allocation_mismatch error lower);
        [destruct (with_cache env 3 _ _) as [[| |] s2]; eexists _, _; (split; [reflexivity|delay])|]]).
  - eexists _, _. split; [reflexivity|delay].
  - destruct (match turn_transport env with ModeUdp => _ | ModeTcpTls => _ end); [eexists _, _; split; [reflexivity|delay]|].
    destruct (is_local_network_down error); [eexists _, _; split; [reflexivity|delay]|].
    apply other_failure_waits. delay.
Qed.

(** Nothing that a session can end with makes a worker give up: it leaves
    only when it was cancelled or its call is gone, and otherwise comes back,
    after no less than 20 ms and no more than ten seconds unless it was parked
    or paused, when it comes back as soon as it is let through. *)
Lemma worker_persists env lease e s :
  let '(next, s') := after_session env lease e s in
  match next with
  | Leave => cancelled env = true \/ unavailable (group s') = true
  | Again => (exists error, outcome e = Err error /\ contains (display error) (ascii "IDLE_PARK") = true) \/ allowed env = false
  | After d => delay_ok d
  end.
Proof.
  unfold after_session. set (s1 := if should_refresh_configuration_after_full_outage _ _ _ _ then _ else _).
  destruct (cancelled env || unavailable (group s1)) eqn:El; [by apply orb_prop|].
  destruct (match outcome e with Ok _ => false | Err _ => _ end) eqn:Ep.
  { left. destruct (outcome e) as [|error]; [done|]. by exists error. }
  destruct (allowed env); cbn [negb]; [|by right]. destruct (outcome e) as [b|error].
  - delay.
  - by destruct (after_failure_waits env lease s1 error) as (d & s' & -> & Hd).
Qed.

(** ** The reports about the lease *)

(** What happens to the credentials of the cohort: something that the others
    do, or a report of this worker. *)
Inductive Move : Type := ByOthers (n : nat) | ByReport (c : CacheCall).
Definition move (env : Surroundings) (g : GroupCredentials) (m : Move) : GroupCredentials :=
  match m with
  | ByOthers n => others env n g
  | ByReport c => mkGroup (cache_call (state g) c) (failures g) (unavailable g)
  end.
Definition calls_of (moves : list Move) : list CacheCall :=
  omap (fun m => match m with ByReport c => Some c | ByOthers _ => None end) moves.

(** The worker itself only reports about [lease], and releases it at most [n] times. *)
Definition reports_of (lease : CredentialLease) (n : Z) (moves : list Move) : Prop :=
  Forall (fun c => about c = Some lease) (calls_of moves) /\ zlen (released (calls_of moves)) <= n.

Definition changes (env : Surroundings) (lease : CredentialLease) (n : Z) (s s' : WorkerState) : Prop :=
  exists moves, reports_of lease n moves /\ group s' = foldl (move env) (group s) moves.

Lemma changes_refl env lease s s' : group s' = group s -> changes env lease 0 s s'.
Proof. intros Hg. by exists []. Qed.

Lemma changes_trans env lease n m s1 s2 s3 :
  changes env lease n s1 s2 -> changes env lease m s2 s3 -> changes env lease (n + m) s1 s3.
Proof.
  intros (a & [Ha Hn] & Hga) (b & [Hb Hm] & Hgb). exists (a ++ b). rewrite foldl_app, <- Hga. split; [|done].
  unfold reports_of, calls_of, released in *. rewrite !omap_app, Forall_app, zlen_app. split; [done|lia].
Qed.

Lemma changes_weaken env lease n m s s' : n <= m -> changes env lease n s s' -> changes env lease m s s'.
Proof. intros Hn (a & [Ha Hr] & Hb). exists a. split; [split; [done|lia]|done]. Qed.

Lemma changes_one {A} env k s lease c n (f : CredentialCache -> A * CredentialCache) :
  (forall cache, snd (f cache) = cache_call cache c) -> about c = Some lease ->
  n = zlen (released [c]) -> changes env lease n s (snd (with_cache env k s f)).
Proof.
  intros Hf Hc ->. exists [ByOthers k; ByReport c]. split; [split; [by repeat constructor|done]|].
  unfold with_cache. simpl. rewrite <- Hf. by destruct (f (state (others env k (group s)))).
Qed.

Lemma changes_report env k s lease c n :
  about c = Some lease -> n = zlen (released [c]) ->
  changes env lease n s (report env k s (fun cache => cache_call cache c)).
Proof. exact (changes_one env k s lease c n (fun cache => (tt, cache_call cache c)) (fun _ => eq_refl)). Qed.

Lemma other_failure_group env s message lower delay : group (snd (other_failure env s message lower delay)) = group s.
Proof.
  unfold other_failure, observe_failure. cbv zeta. cbn [snd]. destruct (contains_any _ _).
  - by destruct (is_transport_timeout lower).
  - repeat destruct (contains _ _ && _); destruct (contains _ _); by destruct (is_transport_timeout lower).
Qed.

Lemma after_failure_changes env lease s error :
  changes env lease 0 s (snd (after_failure env lease s error)).
Proof.
  unfold after_failure. cbv zeta. set (lower := to_ascii_lowercase (display error)).
  destruct (contains lower (ascii "net_rebind")); [by apply changes_refl|].
  destruct (contains lower (ascii "target_repair")).
  { destruct (_ <? _); [|by apply changes_refl]. cbn [snd].
    exact (changes_one env 2 (set_attempt s 0) lease (CallInvalidate lease) 0 _ (fun _ => eq_refl) eq_refl eq_refl). }
  destruct (contains lower _); [by apply changes_refl|].
  set (s1 := set_attempt s _).
  assert (forall d : Z, exists d2 s2, (if should_invalidate_turn_credentials error lower
    then (millis (100 + draw env 5 mod 51), set_attempt (snd (with_cache env 2 s1 (fun cache => invalidate cache lease))) 0)
    else (d, s1)) = (d2, s2) /\ changes env lease 0 s s2) as Hinv.
  { intros d. destruct (should_invalidate_turn_credentials error lower); eexists _, _; (split; [reflexivity|]).
    - exact (changes_one env 2 s1 lease (CallInvalidate lease) 0 _ (fun _ => eq_refl) eq_refl eq_refl).
    - by apply changes_refl. }
  destruct (Hinv (worker_retry_delay (attempt s1) (draw env 4))) as (d2 & s2 & -> & H2).
  destruct (is_turn_allocation_quota error lower).
  { pose proof (changes_one env 3 s2 lease (CallRotate lease) 0 _ (fun _ => eq_refl) eq_refl eq_refl) as H3.
    destruct (with_cache env 3 s2 _) as [r s3]. exact (changes_trans _ _ 0 0 _ _ _ H2 H3). }
  destruct (is_turn_allocation_mismatch error lower).
  { pose proof (changes_one env 3 s2 lease (CallMismatch lease) 0 _ (fun _ => eq_refl) eq_refl eq_refl) as H3.
    destruct (with_cache env 3 s2 _) as [r s3]. exact (changes_trans _ _ 0 0 _ _ _ H2 H3). }
  destruct (should_invalidate_turn_credentials error lower); [done|].
  destruct (match turn_transport env with ModeUdp => _ | ModeTcpTls => _ end); [done|].
  destruct (is_local_network_down error); [done|].
  apply (changes_trans _ _ 0 0 _ _ _ H2), changes_refl, other_failure_group.
Qed.

(** What the end of a session changes of the credentials. *)
Lemma session_changes env lease e s :
  let '(next, s') := after_session env lease e s in
  changes env lease (if allocation_started e then match next with Again => 1 | _ => 0 end else 1) s s'.
Proof.
  unfold after_session.
  set (sa := if allocated e then _ else s). set (sb := if negb (allocation_started e) then _ else sa).
  set (sc := if was_ready e then _ else sb). set (sd := if should_refresh_configuration_after_full_outage _ _ _ _ then _ else sc).
  assert (changes env lease (if allocation_started e then 0 else 1) s sd) as Hd.
  { assert (changes env lease 0 s sa) as Ha.
    { subst sa. destruct (allocated e); [|by apply changes_refl].
      exact (changes_report env 0 s lease (CallRecord lease) 0 eq_refl eq_refl). }
    assert (changes env lease (if allocation_started e then 0 else 1) sa sb) as Hb.
    { subst sb. destruct (allocation_started e); [by apply changes_refl|].
      exact (changes_report env 1 sa lease (CallRelease lease) 1 eq_refl eq_refl). }
    assert (changes env lease 0 sb sd) as Hc.
    { subst sd sc. apply changes_refl. destruct (should_refresh_configuration_after_full_outage _ _ _ _); by destruct (was_ready e). }
    eapply changes_weaken; [|exact (changes_trans _ _ _ _ _ _ _ (changes_trans _ _ _ _ _ _ _ Ha Hb) Hc)]. lia. }
  clearbody sd. destruct (cancelled env || unavailable (group sd)); [done|].
  destruct (match outcome e with Ok _ => false | Err _ => _ end).
  { destruct (allocation_started e) eqn:Es; [|done].
    exact (changes_trans _ _ 0 1 _ _ _ Hd (changes_report env 2 sd lease (CallRelease lease) 1 eq_refl eq_refl)). }
  destruct (negb (allowed env)). { eapply changes_weaken; [|exact Hd]. destruct (allocation_started e); lia. }
  destruct (outcome e) as [b|error]; [done|].
  pose proof (after_failure_changes env lease sd error) as Hf. destruct (after_failure_waits env lease sd error) as (d & s' & Ea & _).
  rewrite Ea in *. eapply changes_weaken; [|exact (changes_trans _ _ _ _ _ _ _ Hd Hf)]. destruct (allocation_started e); lia.
Qed.

(** C20: whatever its session ends with and whatever the others do meanwhile, a
    worker changes the credentials of its cohort only by reports about its own
    lease, and gives that lease back at most once, and not at all when it had
    asked the relay for an allocation and was not parked. *)
Theorem lease_returned_once env lease e s :
  let '(next, s') := after_session env lease e s in
  changes env lease (if allocation_started e then match next with Again => 1 | _ => 0 end else 1) s s'.
Proof. apply session_changes. Qed.

(** ** One failure, two ways to meet it *)

(** The terminal reason of the driver when the ladder of ChannelBind is spent. *)
Definition REBIND_EXHAUSTED : text := ascii "TURN channel rebind retry exhausted".

(** A channel whose rebinding is exhausted makes the worker start again at
    once when its writer meets the failure, but climb the ladder of repeated
    failures when its reader does: the context that the reader puts on the
    error hides the reason from the test. *)
Lemma rebind_depends_on_route env lease s :
  after_failure env lease s (anyhow REBIND_EXHAUSTED) = (After (millis (50 + draw env 3 mod 151)), set_attempt s 0)
  /\ after_failure env lease s (context RECEIVE_CONTEXT (anyhow REBIND_EXHAUSTED))
     = (After (worker_retry_delay (saturating_add 64 (attempt s) 1) (draw env 4)),
        set_attempt s (saturating_add 64 (attempt s) 1)).
Proof. split; [done|]. unfold after_failure. by destruct (turn_transport env). Qed.

(** ** Decisions at concrete ends *)

Definition fresh_gates : Gates := mkGates new_gate new_gate new_gate new_gate.
Definition demo_env : Surroundings := mkSurroundings ModeUdp 0 false false true 0 1 0 (fun _ => 7) (fun _ g => g).
Definition demo_lease : CredentialLease := mkLease demo_credentials 1.
Definition demo_state : WorkerState :=
  mkWorkerState 2 (mkGroup (mkCache (Some (mkCached demo_credentials 1 1 0)) None 1 0) 0 false) true fresh_gates [].
Definition next_after (e : Error) : Next * Z * bool :=
  let '(next, s) := after_session demo_env demo_lease (mkSessionEnd (Err e) false true false) demo_state in
  (next, attempt s, match current (state (group s)) with Some _ => true | None => false end).

(** The next step, the attempts and whether the credential is kept: after a
    soft handover, a repair that resets credentials, a refused Allocate, a spent
    quota, a lost allocation, a silent server and an unknown failure. *)
Example decisions :
  map next_after
    [anyhow (ascii "NET_REBIND"); anyhow (ascii "TARGET_REPAIR");
     route_error ByConnect METHOD_ALLOCATE RESULT_PROTOCOL 401;
     route_error ByConnect METHOD_ALLOCATE RESULT_PROTOCOL 486;
     route_error ByPrepare METHOD_CHANNEL_BIND RESULT_PROTOCOL 400;
     anyhow (ascii "FATAL_HANDSHAKE: no answer"); anyhow (ascii "unknown"); anyhow (ascii "IDLE_PARK")]
  = [(After (millis 27), 0, true); (After (millis 57), 0, false); (After (millis 107), 0, false);
     (After (millis 100), 0, false); (After (millis 57), 0, true); (After (secs 6), 3, true);
     (After (millis 1007), 3, true); (Again, 0, true)].
Proof. by vm_compute. Qed.
