(* ===== verification/Shutdown.v ===== *)
(** * Shutdown: the farewell to the server

    Models [ShutdownCoordinator] of [session.rs]: the sessions register the
    stream over which they can send a control message, and the first worker
    that is told to stop sends the farewell over the most recently active
    stream, then over the next ones, until one is acknowledged or the budget is
    spent. The mutex is held for the whole of each operation on the state; the
    activity counter of a stream, shared with its writer, is a field that
    [mark_activity] sets. A stream is named by its writer [W]; the times that
    sending and waiting take are arguments. *)

From Stdlib Require Import Strings.String Sorted.
From stdpp Require Import sorting.
From S2P Require Import Prelude Bytes Text TurnCore Protocol.

Definition DISCONNECT_BUDGET : Z := millis 700.
Definition DISCONNECT_ATTEMPT : Z := millis 80.

Section Coordinator.
Context {W : Type}.

Record ControlStream : Type := mkStream { incarnation_id : Z; writer : W; activity : Z }.

Record ShutdownCoordinator : Type := mkCoordinator {
  active : bool;
  completed : bool;
  streams : list ControlStream;
  next_activity : Z;
}.

Definition new_coordinator : ShutdownCoordinator := mkCoordinator false false [] 1.

(** [next_activity]: the number taken and the counter after it. *)
Definition take_activity (s : ShutdownCoordinator) : Z * ShutdownCoordinator :=
  (Z.max (next_activity s) 1,
   mkCoordinator (active s) (completed s) (streams s) (wrapping_add 64 (next_activity s) 1)).

Definition set_streams (s : ShutdownCoordinator) (l : list ControlStream) : ShutdownCoordinator :=
  mkCoordinator (active s) (completed s) l (next_activity s).

Definition register (s : ShutdownCoordinator) (id : Z) (w : W) : ShutdownCoordinator :=
  let '(n, s) := take_activity s in
  if active s then s else set_streams s (streams s ++ [mkStream id w n]).

Definition mark_activity (s : ShutdownCoordinator) (id : Z) : ShutdownCoordinator :=
  let '(n, s) := take_activity s in
  set_streams s (map (fun x => if incarnation_id x =? id then mkStream id (writer x) n else x) (streams s)).

Definition unregister (s : ShutdownCoordinator) (id : Z) : ShutdownCoordinator :=
  set_streams s (List.filter (fun x => negb (incarnation_id x =? id)) (streams s)).

(** The first block of [request_disconnect]: whether this caller leads. *)
Definition lead (s : ShutdownCoordinator) : bool * ShutdownCoordinator :=
  if active s then (false, s) else (true, mkCoordinator true false (streams s) (next_activity s)).

Definition observe_control_response (s : ShutdownCoordinator) (response : bytes) : bool * ShutdownCoordinator :=
  if negb (bytes_eqb response (ascii "OK:disconnected")) && negb (starts_with response (ascii "DENIED:")) then (false, s)
  else if negb (active s) || completed s then (false, s)
  else (true, mkCoordinator (active s) true (streams s) (next_activity s)).

Definition complete (s : ShutdownCoordinator) : ShutdownCoordinator :=
  if completed s then s else mkCoordinator (active s) true (streams s) (next_activity s).

(** The order of [control_streams]: most recently active first. *)
Definition before (l r : ControlStream) : Prop :=
  activity r < activity l \/ (activity l = activity r /\ incarnation_id r <= incarnation_id l).
#[export] Instance before_dec l r : Decision (before l r).
Proof. unfold before. apply _. Defined.

Definition control_streams (s : ShutdownCoordinator) : list W := map writer (merge_sort before (streams s)).

(** ** The farewell *)

(** What an attempt meets: whether the farewell is acknowledged before it,
    whether the writer answers that it was sent and after how long, after how
    long an acknowledgement comes, if it does, and whether one has come when
    the wait for it runs out. *)
Record Attempt : Type := mkAttempt {
  already : bool;
  answer : option Z;
  acknowledged : option Z;
  at_timeout : bool;
}.

(** [timeout(d, future)]: whether it ends in time, and when. *)
Definition timed (now d : Z) (after : option Z) : bool * Z :=
  match after with Some t => if t <=? d then (true, now + t) else (false, now + d) | None => (false, now + d) end.

(** The loop of [request_disconnect] over the attempts: the writers that were
    asked, and the clock at the end. *)
Fixpoint farewell (now deadline : Z) (l : list (W * Attempt)) : list W * Z :=
  match l with
  | [] => ([], now)
  | (w, a) :: l =>
      if already a then ([], now) else
      if deadline <=? now then ([], now) else
      let '(delivered, now) := timed now (Z.min DISCONNECT_ATTEMPT (deadline - now)) (answer a) in
      if negb delivered then let '(asked, now) := farewell now deadline l in (w :: asked, now) else
      if deadline <=? now then ([w], now) else
      let '(in_time, now) := timed now (Z.min DISCONNECT_ATTEMPT (deadline - now)) (acknowledged a) in
      if in_time || at_timeout a then ([w], now)
      else let '(asked, now) := farewell now deadline l in (w :: asked, now)
  end.

(** [request_disconnect] of the leader: the writers asked, the time it took and
    the coordinator after it. [attempts] are those of the control streams. *)
Definition request_disconnect (s : ShutdownCoordinator) (now : Z) (attempts : list Attempt)
    : option (list W * Z) * ShutdownCoordinator :=
  let '(leader, s) := lead s in
  if negb leader then (None, s)
  else
    let '(asked, fin) := farewell now (now + DISCONNECT_BUDGET) (zip (control_streams s) attempts) in
    (Some (asked, fin - now), complete s).

Lemma timed_bounds now d after : 0 <= d -> (forall t, after = Some t -> 0 <= t) ->
  now <= snd (timed now d after) <= now + d.
Proof.
  intros Hd Ht. unfold timed. destruct after as [t|]; simpl; [|lia]. specialize (Ht t eq_refl).
  destruct (Z.leb_spec t d); simpl; lia.
Qed.

Definition attempt_ok (a : Attempt) : Prop :=
  (forall t, answer a = Some t -> 0 <= t) /\ (forall t, acknowledged a = Some t -> 0 <= t).

(** No acknowledgement comes at this attempt. *)
Definition silent (a : Attempt) : Prop := already a = false /\ acknowledged a = None /\ at_timeout a = false.

(** What the rest of the loop gives, of the streams [l] that it is left with. *)
Definition fares (now deadline : Z) (l : list (W * Attempt)) (asked : list W) (fin : Z) : Prop :=
  now <= fin <= deadline
  /\ asked = take (length asked) (map fst l)
  /\ (Forall (fun x => silent (snd x)) l -> deadline <= fin \/ asked = map fst l)
  /\ fin <= now + 2 * DISCONNECT_ATTEMPT * zlen asked.

Lemma fares_stop now deadline l :
  now <= deadline -> (Forall (fun x => silent (snd x)) l -> deadline <= now \/ l = []) -> fares now deadline l [] now.
Proof.
  intros Hn Hs. split; [lia|]. split; [done|]. split; [|change (zlen (@nil W)) with 0; lia].
  intros Hl. destruct (Hs Hl) as [?| ->]; [by left|by right].
Qed.

Lemma fares_last now t deadline w a l :
  now <= t <= deadline -> t <= now + 2 * DISCONNECT_ATTEMPT ->
  (silent a -> deadline <= t) -> fares now deadline ((w, a) :: l) [w] t.
Proof.
  intros Ht Hb Hs. split; [lia|]. split; [done|]. split; [|rewrite zlen_cons; change (zlen (@nil W)) with 0; lia].
  intros Hl. inversion Hl; subst. left. auto.
Qed.

Lemma fares_next now t deadline w a l asked fin :
  now <= t -> t <= now + 2 * DISCONNECT_ATTEMPT -> fares t deadline l asked fin ->
  fares now deadline ((w, a) :: l) (w :: asked) fin.
Proof.
  intros Ht Hb (H1 & H2 & H3 & H4). unfold fares. rewrite zlen_cons. split; [lia|]. split; [cbn; by f_equal|]. split; [|lia].
  intros Hs. inversion Hs; subst. destruct H3 as [?| ->]; [done|by left|by right].
Qed.

Lemma farewell_spec l : forall now deadline asked fin,
  now <= deadline -> Forall (fun x => attempt_ok (snd x)) l -> farewell now deadline l = (asked, fin) ->
  fares now deadline l asked fin.
Proof.
  induction l as [|[w a] l IH]; intros now deadline asked fin Hnow Hl Hf; cbn [farewell] in Hf.
  { injection Hf as <- <-. apply fares_stop; [done|by right]. }
  inversion Hl as [|? ? [Ha Hk] Hl']; subst. cbn [snd] in *.
  destruct (already a) eqn:Eal.
  { injection Hf as <- <-. apply fares_stop; [done|]. intros Hs. inversion Hs as [|? ? [Hal _] _]; subst. cbn [snd] in *. congruence. }
  destruct (Z.leb_spec deadline now) as [Hd|Hd]; [injection Hf as <- <-; apply fares_stop; [done|by left]|].
  pose proof (timed_bounds now (Z.min DISCONNECT_ATTEMPT (deadline - now)) (answer a)
    ltac:(unfold DISCONNECT_ATTEMPT, millis; lia) Ha) as Hb1.
  destruct (timed now _ (answer a)) as [delivered t1]. cbn [snd] in Hb1.
  assert (0 < DISCONNECT_ATTEMPT) as Hpos by (unfold DISCONNECT_ATTEMPT, millis; lia).
  destruct delivered; cbn [negb] in Hf.
  2:{ destruct (farewell t1 deadline l) as [asked' fin'] eqn:Ef. injection Hf as <- <-.
      apply (fares_next now t1); [lia|lia|]. by apply IH; [lia| |]. }
  destruct (Z.leb_spec deadline t1) as [Hd1|Hd1]; [injection Hf as <- <-; by apply fares_last; [lia|lia|]|].
  pose proof (timed_bounds t1 (Z.min DISCONNECT_ATTEMPT (deadline - t1)) (acknowledged a) ltac:(lia) Hk) as Hb2.
  destruct (timed t1 _ (acknowledged a)) as [in_time t2] eqn:Et. cbn [snd] in Hb2.
  destruct (in_time || at_timeout a) eqn:Estop.
  - injection Hf as <- <-. apply fares_last; [lia|lia|]. intros (_ & Hn & Hat). unfold timed in Et. rewrite Hn in Et.
    injection Et as <- _. by rewrite Hat in Estop.
  - destruct (farewell t2 deadline l) as [asked' fin'] eqn:Ef. injection Hf as <- <-.
    apply (fares_next now t2); [lia|lia|]. by apply IH; [lia| |].
Qed.

(** ** The order of the streams *)

#[export] Instance before_total : Total before.
Proof. intros l r. unfold before. lia. Qed.
#[export] Instance before_trans : Transitive before.
Proof. intros a b c. unfold before. lia. Qed.

(** C36: the leader asks the streams in the order of their activity, each once,
    and is done within the budget of 700 ms, with the farewell marked as over;
    if no answer comes it has asked every stream or at least five of them; and
    whoever calls after it is told to wait. *)
Theorem disconnect_in_order s now attempts :
  active s = false -> Forall attempt_ok attempts -> length attempts = length (streams s) ->
  match request_disconnect s now attempts with
  | (Some (asked, took), s') =>
      0 <= took <= DISCONNECT_BUDGET
      /\ (exists sorted, sorted ≡ₚ streams s /\ StronglySorted before sorted /\ asked = take (length asked) (map writer sorted))
      /\ (Forall silent attempts -> zlen asked < 5 -> asked = control_streams s)
      /\ active s' = true /\ completed s' = true
      /\ forall later others, request_disconnect s' later others = (None, s')
  | (None, _) => False
  end.
Proof.
  intros Ha Hok Hlen. unfold request_disconnect at 1. unfold lead. rewrite Ha. cbn [negb].
  set (s0 := mkCoordinator true false (streams s) (next_activity s)).
  destruct (farewell now (now + DISCONNECT_BUDGET) (zip (control_streams s0) attempts)) as [asked fin] eqn:Ef.
  assert (length (control_streams s) = length attempts) as Hc.
  { unfold control_streams. rewrite length_map, Hlen. apply Permutation_length, merge_sort_Permutation. }
  assert (Forall (fun x : W * Attempt => attempt_ok (snd x)) (zip (control_streams s) attempts)) as Hz.
  { apply (Forall_map snd attempt_ok). change (map snd) with (fmap (M := list) (@snd W Attempt)). rewrite snd_zip by lia. done. }
  pose proof (farewell_spec _ now (now + DISCONNECT_BUDGET) _ _ ltac:(unfold DISCONNECT_BUDGET, millis; lia) Hz Ef) as (H1 & H2 & H3 & H4).
  change (map fst) with (fmap (M := list) (@fst W Attempt)) in *. rewrite fst_zip in * by lia.
  split; [lia|]. split.
  { exists (merge_sort before (streams s)). split; [apply merge_sort_Permutation|]. split; [|exact H2].
    apply StronglySorted_merge_sort; apply _. }
  split.
  { intros Hs H5. destruct H3 as [Hd|Hd]; [|unfold DISCONNECT_BUDGET, DISCONNECT_ATTEMPT, millis in *; lia|exact Hd].
    apply (Forall_map snd silent). change (map snd) with (fmap (M := list) (@snd W Attempt)). by rewrite snd_zip by lia. }
  split; [done|]. split; [done|]. done.
Qed.

(** ** Histories of the state *)

Inductive ShutdownCall : Type :=
| CallRegister (id : Z) (w : W)
| CallActivity (id : Z)
| CallUnregister (id : Z)
| CallLead
| CallObserve (response : bytes)
| CallComplete.

Definition shutdown_call (s : ShutdownCoordinator) (c : ShutdownCall) : bool * ShutdownCoordinator :=
  match c with
  | CallRegister id w => (false, register s id w)
  | CallActivity id => (false, mark_activity s id)
  | CallUnregister id => (false, unregister s id)
  | CallLead => (false, snd (lead s))
  | CallObserve response => observe_control_response s response
  | CallComplete => (false, complete s)
  end.

(** The control responses that were taken for the answer to the farewell. *)
Fixpoint answers (s : ShutdownCoordinator) (calls : list ShutdownCall) : nat :=
  match calls with
  | [] => O
  | c :: calls => let '(taken, s) := shutdown_call s c in ((if taken then 1 else 0) + answers s calls)%nat
  end.

Lemma observe_over s response :
  active s = true -> completed s = true -> observe_control_response s response = (false, s).
Proof. intros Ha Hc. unfold observe_control_response. destruct (_ && _); [done|]. by rewrite Ha, Hc. Qed.

(** Once the farewell is over, or while no one has said it, nothing is taken
    for its answer; and it is never said twice. *)
Lemma answers_bound calls : forall s, (answers s calls <= if active s && completed s then 0 else 1)%nat.
Proof.
  induction calls as [|c calls IH]; intros s; [destruct (active s && completed s); simpl; lia|]. cbn [answers].
  destruct (shutdown_call s c) as [taken s'] eqn:Ec. specialize (IH s').
  assert (active s && completed s = true -> taken = false /\ active s' && completed s' = true) as Hover.
  { intros Hac. apply andb_prop in Hac as [Ha Hc].
    destruct c; cbn [shutdown_call] in Ec; try rewrite observe_over in Ec by done;
      unfold register, mark_activity, unregister, lead, complete, take_activity in Ec; cbn in Ec;
      rewrite ?Ha, ?Hc in Ec; injection Ec as <- <-; cbn; by rewrite ?Ha, ?Hc. }
  destruct taken.
  - destruct (active s && completed s); [by destruct Hover|]. enough (active s' && completed s' = true) as Hd by (rewrite Hd in IH; lia).
    destruct c; cbn [shutdown_call] in Ec; try discriminate Ec. unfold observe_control_response in Ec.
    case_match; [done|]. destruct (negb (active s) || completed s) eqn:E; [done|].
    apply orb_false_elim in E as [Ea%negb_false_iff _]. injection Ec as <-. cbn. by rewrite Ea.
  - destruct (active s && completed s); [|destruct (active s' && completed s'); simpl in *; lia].
    destruct (Hover eq_refl) as [_ Hd]. rewrite Hd in IH. simpl. lia.
Qed.

(** In any history of a coordinator at most one control response is taken
    for the answer to the farewell; every other OK or DENIED of the server goes
    on to the handlers of ordinary control messages. *)
Lemma farewell_answered_once calls : (answers new_coordinator calls <= 1)%nat.
Proof. exact (answers_bound calls new_coordinator). Qed.
End Coordinator.

(** Three streams, the first of which was active last; the most active one does
    not answer, the next one does. *)
Definition demo_coordinator : @ShutdownCoordinator Z :=
  mark_activity (register (register (register new_coordinator 1 10) 2 20) 3 30) 1.
Definition demo_attempts : list Attempt :=
  [mkAttempt false None None false; mkAttempt false (Some (millis 3)) (Some (millis 40)) false;
   mkAttempt false (Some 0) None false].

Lemma disconnect_in_order_witness :
  fst (request_disconnect demo_coordinator 0 demo_attempts) = Some ([10; 30], millis 123)
  /\ control_streams demo_coordinator = [10; 30; 20]
  /\ 0 <= millis 123 <= DISCONNECT_BUDGET.
Proof.
  split; [by vm_compute|]. split; [by vm_compute|].
  assert (Forall attempt_ok demo_attempts) as Hok.
  { repeat constructor; simpl; intros t Ht; try done; injection Ht as <-; unfold millis; lia. }
  pose proof (disconnect_in_order demo_coordinator 0 demo_attempts eq_refl Hok eq_refl) as Hd.
  assert (exists s', request_disconnect demo_coordinator 0 demo_attempts = (Some ([10; 30], millis 123), s')) as [s' He]
    by (eexists; by vm_compute).
  rewrite He in Hd. exact (proj1 Hd).
Defined.
