(* ===== verification/Writer.v ===== *)
(** * Writer: how a session sends

    Models the writing half of a session ([session.rs]): the choice of the next
    packet among the three lanes of the worker and the batch that it opens
    ([next_writer_packet], [send_writer_batch]), and the sending of a batch
    ([TransportWriter]): every packet is duplicated or not, wrapped, and sent
    alone or in a kernel batch. What the senders of the lanes do between two
    accesses of the writer is an argument, and so are the draws and clocks of
    the wrapping and the outcome of every send. *)

From S2P Require Import Prelude Bytes Scheduler SelectiveFec ArrayQueue PacketPool PacketQueue Digests Ciphers Obfs.

Definition WRITER_LATENCY_BATCH_LIMIT : Z := SMALL_DATAGRAM_BATCH.
Definition WRITER_PRIORITY_BATCH_LIMIT : Z := MEDIUM_DATAGRAM_BATCH.
Definition WRITER_BULK_BATCH_LIMIT : Z := BULK_DATAGRAM_BATCH.

(** ** The lanes *)

Section Lanes.
Context {Q : Type -> Type} `{ArrayQueue Q}.

Record Lanes : Type := mkLanes {
  latency : @PacketQueue Q;
  priority : @PacketQueue Q;
  bulk : @PacketQueue Q;
}.

Record WriterPacket : Type := mkWriterPacket { w_packet : PacketBuf; w_class : PacketClass }.

Definition lane (l : Lanes) (class : PacketClass) : @PacketQueue Q :=
  match class with Small => latency l | Medium => priority l | Bulk => bulk l end.
Definition set_lane (l : Lanes) (class : PacketClass) (q : @PacketQueue Q) : Lanes :=
  match class with
  | Small => mkLanes q (priority l) (bulk l)
  | Medium => mkLanes (latency l) q (bulk l)
  | Bulk => mkLanes (latency l) (priority l) q
  end.
Definition batch_limit (class : PacketClass) : Z :=
  match class with
  | Small => WRITER_LATENCY_BATCH_LIMIT
  | Medium => WRITER_PRIORITY_BATCH_LIMIT
  | Bulk => WRITER_BULK_BATCH_LIMIT
  end.

Definition recv_lane (l : Lanes) (class : PacketClass) : option WriterPacket * Lanes :=
  let '(p, q) := try_recv (lane l class) in
  (match p with Some p => Some (mkWriterPacket p class) | None => None end, set_lane l class q).

Definition next_writer_packet (l : Lanes) : option WriterPacket * Lanes :=
  match recv_lane l Small with
  | (Some p, l) => (Some p, l)
  | (None, l) =>
      match recv_lane l Medium with
      | (Some p, l) => (Some p, l)
      | (None, l) => recv_lane l Bulk
      end
  end.

Definition writer_batch_can_extend (class : PacketClass) (latency_pending priority_pending : bool) : bool :=
  match class with
  | Small => true
  | Medium => negb latency_pending
  | Bulk => negb latency_pending && negb priority_pending
  end.

(** The loop of [send_writer_batch], with what the senders do before each turn. *)
Fixpoint collect (turns : nat) (class : PacketClass) (arrive : nat -> Lanes -> Lanes) (batch : list PacketBuf) (l : Lanes)
    : list PacketBuf * Lanes :=
  match turns with
  | O => (batch, l)
  | S turns =>
      let l := arrive turns l in
      if negb (writer_batch_can_extend class (has_queued_packet (latency l)) (has_queued_packet (priority l)))
      then (batch, l)
      else
        match recv_lane l class with
        | (Some p, l) => collect turns class arrive (batch ++ [w_packet p]) l
        | (None, l) => (batch, l)
        end
  end.

Definition writer_batch (first : WriterPacket) (arrive : nat -> Lanes -> Lanes) (l : Lanes) : list PacketBuf * Lanes :=
  collect (Z.to_nat (batch_limit (w_class first) - 1)) (w_class first) arrive [w_packet first] l.

(** A packet taken from the lane of [class] when no lane above it had one. *)
Definition pulled (class : PacketClass) (x : Lanes * PacketBuf) : Prop :=
  fst (try_recv (lane (fst x) class)) = Some (snd x)
  /\ (class <> Small -> queued (latency (fst x)) = 0)
  /\ (class = Bulk -> queued (priority (fst x)) = 0).

Lemma collect_pulled turns class arrive : forall batch l,
  let '(batch', l') := collect turns class arrive batch l in
  exists pulls, batch' = batch ++ map snd pulls /\ (length pulls <= turns)%nat /\ Forall (pulled class) pulls.
Proof.
  induction turns as [|turns IH]; intros batch l; cbn [collect].
  { exists []. rewrite app_nil_r. by repeat split. }
  set (l1 := arrive turns l). destruct (writer_batch_can_extend class _ _) eqn:Ec; cbn [negb].
  2:{ exists []. rewrite app_nil_r. split; [done|]. split; [simpl; lia|done]. }
  destruct (recv_lane l1 class) as [[p|] l2] eqn:Er.
  2:{ exists []. rewrite app_nil_r. split; [done|]. split; [simpl; lia|done]. }
  specialize (IH (batch ++ [w_packet p]) l2). destruct (collect turns class arrive _ l2) as [batch' l'].
  destruct IH as (pulls & -> & Hl & Hp). exists ((l1, w_packet p) :: pulls). rewrite <- app_assoc.
  split; [done|]. split; [simpl; lia|]. constructor; [|done].
  unfold recv_lane in Er. destruct (try_recv (lane l1 class)) as [[x|] q] eqn:Et; [|done]. injection Er as <- _.
  split; [cbn [fst snd]; by rewrite Et|]. unfold writer_batch_can_extend, has_queued_packet in Ec. cbn [fst].
  cbn [fst]. split; intros Hc; destruct class; try done; cbn in Ec; rewrite ?andb_true_iff, ?negb_true_iff, ?negb_false_iff in Ec;
    unfold queued in *; lia.
Qed.
End Lanes.

(** ** Sending a batch *)

Inductive Send : Type := SendOne (packet : PacketBuf) (duplicate : bool) | SendBatch (packets : list PacketBuf).
Definition datagrams_of (x : Send) : list PacketBuf := match x with SendOne p _ => [p] | SendBatch l => l end.
Definition datagrams (l : list Send) : list PacketBuf := concat (map datagrams_of l).

Inductive WriteError : Type := WrapError (e : ObfsError) | SendFailed | NoBudget | TooLarge.

(** The switch of the FEC, the clock of its budget and the draws of the
    wrapping, by the number of packets prepared before, and whether the relay
    refuses a send, by the number of those before it. *)
Record WriterEnv : Type := mkWriterEnv {
  fec_enabled : bool;
  fec_clock : nat -> Z;
  draws : nat -> Draw;
  refused : nat -> bool;
}.

Record TransportWriter : Type := mkTransportWriter {
  write_state : ObfsState;
  fec_budget : Budget;
  prepared : nat;
  sends : list Send;
}.

Section Sending.
Context `{Digests} `{Ciphers}.
Variables (cipher : ObfsCipher) (config : ObfsConfig) (env : WriterEnv).

Definition prepare_packet (t : TransportWriter) (packet : PacketBuf)
    : res (result (bool * PacketBuf) WriteError * TransportWriter) :=
  allowed ← (if fec_enabled env then
    wire ← as_slice packet;
    fits ← should_duplicate wire;
    mret (if (fits : bool) then allow (fec_budget t) (fec_clock env (prepared t)) else (false, fec_budget t))
  else mret (false, fec_budget t));
  wrapped ← wrap_packet cipher config (write_state t) (draws env (prepared t)) packet;
  let t := mkTransportWriter (snd wrapped) (snd allowed) (S (prepared t)) (sends t) in
  mret (match fst wrapped with
        | Err e => (Err (WrapError e), t)
        | Ok packet => (Ok (fst allowed, packet), t)
        end).

Definition send (t : TransportWriter) (x : Send) : result unit WriteError * TransportWriter :=
  if refused env (length (sends t)) then (Err SendFailed, t)
  else (Ok tt, mkTransportWriter (write_state t) (fec_budget t) (prepared t) (sends t ++ [x])).

Definition send_packet (t : TransportWriter) (packet : PacketBuf) : res (result unit WriteError * TransportWriter) :=
  wrapped ← prepare_packet t packet;
  mret (match wrapped with
        | (Err e, t) => (Err e, t)
        | (Ok (duplicate, packet), t) => send t (SendOne packet duplicate)
        end).

Definition flush_mmsg_data (t : TransportWriter) (mmsg : list PacketBuf) : result unit WriteError * TransportWriter :=
  match mmsg with [] => (Ok tt, t) | _ => send t (SendBatch mmsg) end.

(** The loop of [flush_queued_data]: the queued packets and [mmsg_data]. *)
Fixpoint flush_loop (t : TransportWriter) (pending mmsg : list PacketBuf) : res (result unit WriteError * TransportWriter) :=
  match pending with
  | [] => Ret (flush_mmsg_data t mmsg)
  | packet :: pending =>
      wrapped ← prepare_packet t packet;
      match wrapped with
      | (Err e, t) => Ret (Err e, t)
      | (Ok (true, packet), t) =>
          match flush_mmsg_data t mmsg with
          | (Err e, t) => Ret (Err e, t)
          | (Ok _, t) =>
              match send t (SendOne packet true) with
              | (Err e, t) => Ret (Err e, t)
              | (Ok _, t) => flush_loop t pending []
              end
          end
      | (Ok (false, packet), t) =>
          let mmsg := mmsg ++ [packet] in
          if zlen mmsg =? WRITER_BULK_BATCH_LIMIT then
            match flush_mmsg_data t mmsg with
            | (Err e, t) => Ret (Err e, t)
            | (Ok _, t) => flush_loop t pending []
            end
          else flush_loop t pending mmsg
      end
  end.

Definition flush_queued_data (t : TransportWriter) (pending : list PacketBuf) : res (result unit WriteError * TransportWriter) :=
  match pending with [packet] => send_packet t packet | _ => flush_loop t pending [] end.

(** [send_bytes_with_pool] with the buffer that the pool gives, if it does. *)
Definition send_bytes (t : TransportWriter) (buffer : option PacketBuf) (data : bytes)
    : res (result unit WriteError * TransportWriter) :=
  match buffer with
  | None => Ret (Err NoBudget, t)
  | Some packet =>
      if PACKET_CAPACITY - PACKET_HEADROOM <? zlen data then Ret (Err TooLarge, t) else
      packet ← write_read_area packet data;
      match set_read_len packet (zlen data) with
      | Err _ => Ret (Err TooLarge, t)
      | Ok packet => send_packet t packet
      end
  end.
End Sending.

(** ** What is sent *)

(** A packet that fits the wrapping with the draw that it gets. *)
Definition sendable (config : ObfsConfig) (draw : Draw) (p : PacketBuf) : Prop :=
  draw_ok config draw /\ buf_ok p /\ fits config draw p /\ exists payload, as_slice p = Ret payload /\ payload <> [].
Fixpoint all_sendable (config : ObfsConfig) (env : WriterEnv) (n : nat) (ps : list PacketBuf) : Prop :=
  match ps with [] => True | p :: ps => sendable config (draws env n) p /\ all_sendable config env (S n) ps end.

(** The packets [qs] are what the session makes of [ps], in their order: each
    authentic, with the payload of its packet and the next sequence number. *)
Fixpoint wrapped_from `{Digests} `{Ciphers} (c : ObfsCipher) (m : ObfsMode) (state : ObfsState) (ps qs : list PacketBuf) : Prop :=
  match ps, qs with
  | [], [] => True
  | p :: ps, q :: qs =>
      (exists payload wire, as_slice p = Ret payload /\ as_slice q = Ret wire
        /\ authentic c m wire (config_sequence state (count state)) payload)
      /\ wrapped_from c m (snd (obfs_next state)) ps qs
  | _, _ => False
  end.

Section Sent.
Context `{Digests} `{Ciphers}.
Variables (c : ObfsCipher) (m : ObfsMode) (s : Z) (env : WriterEnv).
Hypothesis Hs : is_u 32 s.

Lemma prepare_sendable t p :
  sendable (new_config m s) (draws env (prepared t)) p ->
  exists duplicate q budget payload wire, prepare_packet c (new_config m s) env t p
    = Ret (Ok (duplicate, q), mkTransportWriter (snd (obfs_next (write_state t))) budget (S (prepared t)) (sends t))
    /\ as_slice p = Ret payload /\ as_slice q = Ret wire
    /\ authentic c m wire (config_sequence (write_state t) (count (write_state t))) payload.
Proof.
  intros (Hd & Hok & Hf & payload & Hp & Hne). unfold prepare_packet.
  destruct (wrap_fits c m s (write_state t) (draws env (prepared t)) p payload Hs Hd Hok Hp Hne Hf) as (q & wire & Hw & _ & Hq & Ha).
  assert (exists allowed, (if fec_enabled env then
    wire ← as_slice p;
    fits ← should_duplicate wire;
    mret (if (fits : bool) then allow (fec_budget t) (fec_clock env (prepared t)) else (false, fec_budget t))
    else mret (false, fec_budget t)) = Ret allowed) as [allowed ->].
  { destruct (fec_enabled env); [|by eexists]. rewrite Hp. rbind. destruct (proj1 (fec_tests_total payload)) as [b ->]. rbind. by eexists. }
  rbind. rewrite Hw. rbind. by eexists _, q, _, payload, wire.
Qed.

Lemma send_cases t x :
  (exists e, send env t x = (Err e, t))
  \/ send env t x = (Ok tt, mkTransportWriter (write_state t) (fec_budget t) (prepared t) (sends t ++ [x])).
Proof. unfold send. destruct (refused env _); [left; by eexists|by right]. Qed.

Lemma datagrams_app a b : datagrams (a ++ b) = datagrams a ++ datagrams b.
Proof. unfold datagrams. by rewrite map_app, concat_app. Qed.

(** What a part of the sending leaves behind: new sends, of at most a batch
    each, whose packets are the first of [qs], or all of them when it succeeds. *)
Definition sends_of (t t' : TransportWriter) (r : result unit WriteError) (qs : list PacketBuf) : Prop :=
  exists new, sends t' = sends t ++ new /\ datagrams new `prefix_of` qs /\ (r = Ok tt -> datagrams new = qs)
  /\ Forall (fun x => 1 <= zlen (datagrams_of x) <= WRITER_BULK_BATCH_LIMIT) new.

Lemma sends_none t t' r qs : sends t' = sends t -> (r = Ok tt -> qs = []) -> sends_of t t' r qs.
Proof.
  intros Ht Hr. exists []. rewrite app_nil_r. split; [done|]. split; [apply prefix_nil|]. split; [|done].
  intros E. by rewrite Hr.
Qed.

Lemma sends_then t t1 t' r a b :
  sends_of t t1 (Ok tt) a -> sends_of t1 t' r b -> sends_of t t' r (a ++ b).
Proof.
  intros (n1 & H1 & _ & E1 & F1) (n2 & H2 & P2 & E2 & F2). exists (n1 ++ n2). rewrite H2, H1, <- app_assoc, datagrams_app.
  split; [done|]. rewrite (E1 eq_refl). split; [by apply prefix_app|]. split; [|by apply Forall_app].
  intros Hr. by rewrite E2.
Qed.

Lemma sends_stop t t1 e a b : sends_of t t1 (Err e) a -> sends_of t t1 (Err e) (a ++ b).
Proof. intros (n & H1 & P & _ & F). exists n. split; [done|]. split; [by apply prefix_app_r|]. done. Qed.

(** A send of the datagrams [qs]. *)
Lemma send_sends t x :
  1 <= zlen (datagrams_of x) <= WRITER_BULK_BATCH_LIMIT ->
  let '(r, t') := send env t x in
  sends_of t t' r (datagrams_of x) /\ write_state t' = write_state t /\ prepared t' = prepared t.
Proof.
  intros Hx. destruct (send_cases t x) as [[e ->]| ->]; (split; [|done]); [by apply sends_none|].
  exists [x]. split; [done|]. unfold datagrams. simpl. rewrite app_nil_r. split; [done|]. split; [done|by apply Forall_singleton].
Qed.

Lemma flush_sends t mmsg :
  zlen mmsg <= WRITER_BULK_BATCH_LIMIT ->
  let '(r, t') := flush_mmsg_data env t mmsg in
  sends_of t t' r mmsg /\ write_state t' = write_state t /\ prepared t' = prepared t.
Proof.
  intros Hl. unfold flush_mmsg_data. destruct mmsg as [|q mmsg]; [split; [by apply sends_none|done]|].
  apply (send_sends t (SendBatch (q :: mmsg))). cbn [datagrams_of]. split; [|done]. rewrite zlen_cons. pose proof (zlen_nonneg mmsg). lia.
Qed.

Lemma wrapped_exists ps : forall n state,
  all_sendable (new_config m s) env n ps -> exists qs, wrapped_from c m state ps qs.
Proof.
  induction ps as [|p ps IH]; intros n state Hall; [by exists []|].
  destruct Hall as [(Hd & Hok & Hf & payload & Hp & Hne) Hall]. destruct (IH (S n) (snd (obfs_next state)) Hall) as [qs Hqs].
  destruct (wrap_fits c m s state (draws env n) p payload Hs Hd Hok Hp Hne Hf) as (q & wire & _ & _ & Hq & Ha).
  exists (q :: qs). split; [by exists payload, wire|done].
Qed.

Lemma flush_loop_sends pending : forall t mmsg,
  all_sendable (new_config m s) env (prepared t) pending -> zlen mmsg < WRITER_BULK_BATCH_LIMIT ->
  exists r t' qs, flush_loop c (new_config m s) env t pending mmsg = Ret (r, t')
    /\ wrapped_from c m (write_state t) pending qs /\ sends_of t t' r (mmsg ++ qs).
Proof.
  induction pending as [|p pending IH]; intros t mmsg Hall Hm; cbn [flush_loop].
  { pose proof (flush_sends t mmsg ltac:(lia)) as Hf. destruct (flush_mmsg_data env t mmsg) as [r t'].
    exists r, t', []. rewrite app_nil_r. split; [done|]. split; [done|apply Hf]. }
  destruct Hall as [Hp Hall]. destruct (prepare_sendable t p Hp) as (duplicate & q & b & payload & wire & -> & Hpl & Hq & Ha). rbind.
  set (t1 := mkTransportWriter _ _ _ _). destruct (wrapped_exists pending (S (prepared t)) (write_state t1) Hall) as [rest Hrest].
  assert (forall qs, wrapped_from c m (write_state t1) pending qs -> wrapped_from c m (write_state t) (p :: pending) (q :: qs)) as Hcons.
  { intros qs Hqs. split; [by exists payload, wire|done]. }
  pose proof (zlen_nonneg mmsg). destruct duplicate.
  - pose proof (flush_sends t1 mmsg ltac:(lia)) as Hf. destruct (flush_mmsg_data env t1 mmsg) as [[[]|e] t2]; destruct Hf as (Hf & Hw & Hn).
    2:{ exists (Err e), t2, (q :: rest). split; [done|]. split; [by apply Hcons|by apply sends_stop]. }
    pose proof (send_sends t2 (SendOne q true) ltac:(by cbn)) as Hx. destruct (send env t2 _) as [[[]|e] t3]; destruct Hx as (Hx & Hw' & Hn').
    2:{ exists (Err e), t3, (q :: rest). split; [done|]. split; [by apply Hcons|].
        eapply sends_then; [exact Hf|]. apply (sends_stop t2 t3 e [q] rest Hx). }
    destruct (IH t3 []) as (r & t4 & qs & -> & Hqs & Hsend); [by rewrite Hn', Hn|done|].
    exists r, t4, (q :: qs). split; [done|]. rewrite Hw', Hw in Hqs. split; [by apply Hcons|].
    eapply sends_then; [exact Hf|]. exact (sends_then t2 t3 t4 r [q] qs Hx Hsend).
  - destruct (Z.eqb_spec (zlen (mmsg ++ [q])) WRITER_BULK_BATCH_LIMIT) as [El|El].
    + pose proof (flush_sends t1 (mmsg ++ [q]) ltac:(lia)) as Hf.
      destruct (flush_mmsg_data env t1 (mmsg ++ [q])) as [[[]|e] t2]; destruct Hf as (Hf & Hw & Hn).
      2:{ exists (Err e), t2, (q :: rest). split; [done|]. split; [by apply Hcons|].
          replace (mmsg ++ q :: rest) with ((mmsg ++ [q]) ++ rest) by (by rewrite <- app_assoc). by apply sends_stop. }
      destruct (IH t2 []) as (r & t3 & qs & -> & Hqs & Hsend); [by rewrite Hn|done|].
      exists r, t3, (q :: qs). split; [done|]. rewrite Hw in Hqs. split; [by apply Hcons|].
      replace (mmsg ++ q :: qs) with ((mmsg ++ [q]) ++ qs) by (by rewrite <- app_assoc). by eapply sends_then.
    + destruct (IH t1 (mmsg ++ [q])) as (r & t3 & qs & -> & Hqs & Hsend); [done| |].
      { rewrite zlen_app, zlen_cons in *. change (zlen (@nil PacketBuf)) with 0 in *. lia. }
      exists r, t3, (q :: qs). split; [done|]. split; [by apply Hcons|]. by rewrite <- app_assoc in Hsend.
Qed.

(** The packets of a batch leave in the order in which they were taken, each
    wrapped under the next number of the session, alone or in kernel batches of
    at most the limit; when a send fails the ones before it have left and no
    other, and when none fails all of them have; nothing panics. *)
Lemma flush_in_order t pending :
  all_sendable (new_config m s) env (prepared t) pending ->
  exists r t' qs, flush_queued_data c (new_config m s) env t pending = Ret (r, t')
    /\ wrapped_from c m (write_state t) pending qs /\ sends_of t t' r qs.
Proof.
  intros Hall. destruct pending as [|p [|p' pending]]; [apply (flush_loop_sends [] t []); done| |by apply (flush_loop_sends _ t [])].
  cbn [flush_queued_data]. destruct Hall as [Hp _].
  destruct (prepare_sendable t p Hp) as (duplicate & q & b & payload & wire & Hprep & Hpl & Hq & Ha).
  unfold send_packet. rewrite Hprep. rbind. set (t1 := mkTransportWriter _ _ _ _).
  pose proof (send_sends t1 (SendOne q duplicate) ltac:(by cbn)) as Hx. destruct (send env t1 _) as [r t2]. destruct Hx as (Hx & _).
  exists r, t2, [q]. split; [done|]. split; [|exact Hx]. split; [by exists payload, wire|done].
Qed.
End Sent.

(** The batch that the writer opens with a packet holds at most the limit of
    its class, and every packet that joins it was taken from the lane of that
    class at a moment when no lane above it held one, whatever the senders of
    the lanes do in between. *)
Lemma batch_keeps_priority {Q} `{ArrayQueue Q} (first : WriterPacket) (arrive : nat -> @Lanes Q -> Lanes) (l : Lanes) :
  let '(batch, l') := writer_batch first arrive l in
  (exists pulls, batch = w_packet first :: map snd pulls /\ Forall (pulled (w_class first)) pulls)
  /\ zlen batch <= batch_limit (w_class first).
Proof.
  unfold writer_batch. pose proof (collect_pulled (Z.to_nat (batch_limit (w_class first) - 1)) (w_class first) arrive [w_packet first] l) as Hc.
  destruct (collect _ _ _ _ _) as [batch l']. destruct Hc as (pulls & -> & Hl & Hp). split; [by exists pulls|].
  rewrite zlen_app, zlen_cons. unfold zlen. rewrite length_map. simpl length.
  assert (1 <= batch_limit (w_class first)) by (by destruct (w_class first)). lia.
Qed.

Lemma next_writer_order {Q} `{ArrayQueue Q} (l l' : @Lanes Q) p :
  next_writer_packet l = (Some p, l') ->
  match w_class p with
  | Small => True
  | Medium => fst (try_recv (latency l)) = None
  | Bulk => fst (try_recv (latency l)) = None /\ fst (try_recv (priority l)) = None
  end.
Proof.
  unfold next_writer_packet, recv_lane. cbn [lane]. destruct (try_recv (latency l)) as [[a|] q1] eqn:E1; [by intros [= <- _]|].
  cbn [set_lane lane priority bulk]. destruct (try_recv (priority l)) as [[a|] q2] eqn:E2; [by intros [= <- _]|].
  destruct (try_recv (bulk _)) as [[a|] q3]; by intros [= <- _].
Qed.

Definition demo_env : WriterEnv := mkWriterEnv true (fun _ => 0) (fun _ => example_draw) (fun n => (2 <=? n)%nat).
Definition demo_writer : TransportWriter := mkTransportWriter example_state (new_budget 0) 0 [].

Lemma flush_in_order_witness :
  exists t' qs, flush_queued_data example_key (new_config Video 77) demo_env demo_writer [example_plain; example_plain] = Ret (Ok tt, t')
    /\ wrapped_from example_key Video example_state [example_plain; example_plain] qs /\ datagrams (sends t') = qs
    /\ length (sends t') = 1%nat.
Proof.
  assert (sendable (new_config Video 77) example_draw example_plain) as Hx.
  { split; [exact (example_draw_ok Video)|]. split; [exact example_plain_ok|]. split; [exact (example_fits Video)|].
    exists [1; 2; 3]. split; [reflexivity|discriminate]. }
  destruct (flush_in_order example_key Video 77 demo_env ltac:(split; [discriminate|reflexivity]) demo_writer [example_plain; example_plain])
    as (r & t' & qs & Hf & Hw & new & Hs & _ & Hd & _).
  { split; [exact Hx|]. split; [exact Hx|exact I]. }
  assert (exists t2, flush_queued_data example_key (new_config Video 77) demo_env demo_writer [example_plain; example_plain]
    = Ret (Ok tt, t2) /\ length (sends t2) = 1%nat) as (t2 & E & L).
  { eexists. split; [vm_compute; reflexivity|reflexivity]. }
  rewrite E in Hf. injection Hf as <- <-. exists t2, qs. split; [exact E|]. split; [exact Hw|]. split; [|exact L].
  rewrite Hs. cbn [sends demo_writer app]. exact (Hd eq_refl).
Defined.
