(* ===== verification/Session.v ===== *)
(** * Session: the handshake and the inbound side of a session

    Models [request_configuration], the dispatch of [reader_loop] and the choice
    of the TURN address of a session ([session.rs]). What arrives, and in which
    state of the idle mode a request is built, are arguments; the shared objects
    that a control message reaches are those of their own files. *)

From Stdlib Require Import Strings.String.
From S2P Require Import Prelude Bytes Text FlowFrame Scheduler ArrayQueue PacketPool PacketQueue Protocol Repair Idle TurnCore TurnEndpoint Dispatcher ReturnPath Shutdown.

(** ** The address *)

Definition turn_endpoint_index (id cursor endpoint_count : Z) : Z :=
  (id mod endpoint_count + cursor mod endpoint_count) mod endpoint_count.

Section Address.
Variables (turn_host turn_port : option text) (mode : TurnTransportMode).

Definition usable (address : text) : bool := is_ok (resolve_turn_endpoints address turn_host turn_port mode).

(** The loop over the offsets. *)
Fixpoint search_address (addresses : list text) (start : Z) (offsets : list nat) : res (option text) :=
  match offsets with
  | [] => Ret None
  | offset :: offsets =>
      match addresses !! Z.to_nat ((start + Z.of_nat offset) mod zlen addresses) with
      | None => Panic
      | Some address => if usable address then Ret (Some address) else search_address addresses start offsets
      end
  end.

Definition select_turn_address (addresses : list text) (id cursor : Z) : res (option text) :=
  search_address addresses (turn_endpoint_index id cursor (zlen addresses)) (seq 0 (length addresses)).

(** The error is that of the address, or none for an empty list. *)
Definition turn_path_key (address : text) : result text (option EndpointError) :=
  match resolve_turn_endpoints address turn_host turn_port mode with
  | Err e => Err (Some e)
  | Ok (endpoint :: _) => Ok (socket_authority endpoint)
  | Ok [] => Err None
  end.

(** The address at [k] places after the first choice. *)
Definition turn_of (addresses : list text) (id cursor : Z) (k : nat) : option text :=
  addresses !! Z.to_nat ((id + cursor + Z.of_nat k) mod zlen addresses).

Lemma turn_of_search addresses id cursor k :
  0 < zlen addresses ->
  addresses !! Z.to_nat ((turn_endpoint_index id cursor (zlen addresses) + Z.of_nat k) mod zlen addresses)
  = turn_of addresses id cursor k.
Proof.
  intros Hn. unfold turn_of, turn_endpoint_index. rewrite <- Z.add_mod by lia. by rewrite Zplus_mod_idemp_l.
Qed.

Lemma turn_of_some addresses id cursor k : 0 < zlen addresses -> exists a, turn_of addresses id cursor k = Some a.
Proof.
  intros Hn. unfold turn_of. apply lookup_lt_is_Some_2.
  pose proof (Z.mod_pos_bound (id + cursor + Z.of_nat k) (zlen addresses) Hn). unfold zlen in *. lia.
Qed.

(** Every address has its turn. *)
Lemma turn_of_covers addresses id cursor a :
  a ∈ addresses -> exists k, (k < length addresses)%nat /\ turn_of addresses id cursor k = Some a.
Proof.
  intros Ha. apply list_elem_of_lookup in Ha as [i Hi]. pose proof (lookup_lt_Some _ _ _ Hi) as Hl.
  exists (Z.to_nat ((Z.of_nat i - (id + cursor)) mod zlen addresses)).
  pose proof (Z.mod_pos_bound (Z.of_nat i - (id + cursor)) (zlen addresses) ltac:(unfold zlen; lia)) as Hb.
  split; [unfold zlen in *; lia|]. unfold turn_of. rewrite Z2Nat.id by lia. rewrite Zplus_mod_idemp_r.
  replace (id + cursor + (Z.of_nat i - (id + cursor))) with (Z.of_nat i) by lia.
  rewrite Z.mod_small by (unfold zlen; lia). by rewrite Nat2Z.id.
Qed.

Lemma search_spec addresses id cursor n : forall k,
  0 < zlen addresses ->
  match search_address addresses (turn_endpoint_index id cursor (zlen addresses)) (seq k n) with
  | Ret (Some a) => exists j, (k <= j < k + n)%nat /\ turn_of addresses id cursor j = Some a /\ usable a = true
      /\ forall i b, (k <= i < j)%nat -> turn_of addresses id cursor i = Some b -> usable b = false
  | Ret None => forall i b, (k <= i < k + n)%nat -> turn_of addresses id cursor i = Some b -> usable b = false
  | Panic => False
  end.
Proof.
  induction n as [|n IH]; intros k Hn; cbn [seq search_address]; [lia|]. rewrite turn_of_search by done.
  destruct (turn_of_some addresses id cursor k Hn) as [a Ha]. rewrite Ha. destruct (usable a) eqn:Eu.
  { exists k. split; [lia|]. split; [done|]. split; [done|]. lia. }
  specialize (IH (S k) Hn). destruct (search_address _ _ _) as [[x|]|]; [| |done].
  - destruct IH as (j & Hj & Hx & Hu & Hb). exists j. split; [lia|]. split; [done|]. split; [done|].
    intros i b Hi Hb'. destruct (decide (i = k)) as [->|]; [congruence|]. apply (Hb i b); [lia|done].
  - intros i b Hi Hb'. destruct (decide (i = k)) as [->|]; [congruence|]. apply (IH i b); [lia|done].
Qed.

(** Of the addresses of its credential a session takes the first that suits
    the transport, in the cyclic order that starts where the worker's number and
    its count of sessions point; it finds none only when none suits. *)
Lemma address_selected addresses id cursor :
  addresses <> [] ->
  match select_turn_address addresses id cursor with
  | Ret (Some a) => exists j, (j < length addresses)%nat /\ turn_of addresses id cursor j = Some a /\ usable a = true
      /\ forall i b, (i < j)%nat -> turn_of addresses id cursor i = Some b -> usable b = false
  | Ret None => forall a, a ∈ addresses -> usable a = false
  | Panic => False
  end.
Proof.
  intros Hne. assert (0 < zlen addresses) as Hn by (destruct addresses; [done|rewrite zlen_cons; pose proof (zlen_nonneg addresses); lia]).
  pose proof (search_spec addresses id cursor (length addresses) 0 Hn) as Hs. unfold select_turn_address.
  destruct (search_address _ _ _) as [[a|]|]; [| |done].
  - destruct Hs as (j & Hj & Ha & Hu & Hb). exists j. split; [lia|]. split; [done|]. split; [done|].
    intros i b Hi. apply Hb. lia.
  - intros a Ha. destruct (turn_of_covers addresses id cursor a Ha) as (k & Hk & Hka). apply (Hs k); [lia|done].
Qed.
End Address.

Lemma address_selected_witness :
  let addresses := [ascii "turn:a.example:3478?transport=tcp"; ascii "turn:b.example:3478"; ascii "turn:c.example:3478"] in
  addresses <> [] /\ select_turn_address None None ModeUdp addresses 5 1 = Ret (Some (ascii "turn:b.example:3478"))
  /\ exists j, (j < 3)%nat /\ turn_of addresses 5 1 j = Some (ascii "turn:b.example:3478").
Proof.
  cbv zeta. split; [discriminate|].
  assert (select_turn_address None None ModeUdp [ascii "turn:a.example:3478?transport=tcp"; ascii "turn:b.example:3478";
    ascii "turn:c.example:3478"] 5 1 = Ret (Some (ascii "turn:b.example:3478"))) as He by (vm_compute; reflexivity).
  split; [exact He|].
  pose proof (address_selected None None ModeUdp [ascii "turn:a.example:3478?transport=tcp"; ascii "turn:b.example:3478";
    ascii "turn:c.example:3478"] 5 1 ltac:(discriminate)) as Hs.
  rewrite He in Hs. destruct Hs as (j & Hj & Ht & _). exists j. split; [exact Hj|exact Ht].
Defined.

(** ** The handshake *)

Definition CONFIG_RESPONSE_TIMEOUT_MS : list Z := [750; 1500; 3000].

(** What the reader gives before the deadline of an attempt. *)
Inductive Arrival : Type := Received (wire : bytes) | ReceiveFailed.

(** An attempt: the request as it was built, whether it was sent, and what
    arrived before its deadline. *)
Record HandshakeTurn : Type := mkTurn { registration : Registration; request_sent : bool; arrivals : list Arrival }.

(** What a handshake does to the rest of the engine. *)
Inductive Effect : Type :=
| RequestSent (r : Registration)
| PanelRestarted
| ErrorShown (rejected : bool)
| StreamRepairOn
| ConfigPassed (value : bytes)
| PathJoined (offset : Z).

Inductive HandshakeError : Type :=
| RequestNotSent | ReadFailed | NoAnswer | Rejected (e : ConfigError).

(** The inner loop: the notices met, and the answer or the failure, if any. *)
Fixpoint await_response (l : list Arrival) : list Effect * option (result bytes unit) :=
  match l with
  | [] => ([], None)
  | ReceiveFailed :: _ => ([], Some (Err tt))
  | Received wire :: l =>
      if is_panel_restart_notice wire then let '(e, r) := await_response l in (PanelRestarted :: e, r)
      else if negb (is_config_response wire) then await_response l
      else ([], Some (Ok wire))
  end.

(** The message of a rejection holds FATAL_. *)
Definition fatal (e : ConfigError) : bool :=
  match e with InvalidUtf8 | UnexpectedResponse => false | _ => true end.


(** What is made of the answer to a request with [offset]. *)
Definition read_response (get_config : bool) (offset : Z) (wire : bytes) : list Effect * result bool HandshakeError :=
  match parse_config_response wire with
  | Err e => (if get_config && fatal e then [ErrorShown true] else [], Err (Rejected e))
  | Ok NoConfig => ([], Ok false)
  | Ok (Config value) =>
      ((if ends_with value (ascii ":stream-v1") || ends_with value (ascii ":stream-v2") then [StreamRepairOn] else [])
       ++ (if get_config then [ConfigPassed value] else []) ++ [PathJoined offset], Ok true)
  end.

(** The attempts that are left. *)
Fixpoint handshake (get_config : bool) (turns : list HandshakeTurn) : list Effect * result bool HandshakeError :=
  match turns with
  | [] => (if get_config then [ErrorShown false] else [], Err NoAnswer)
  | t :: turns =>
      if negb (request_sent t) then ([], Err RequestNotSent) else
      let '(notices, answer) := await_response (arrivals t) in
      let '(effects, r) :=
        match answer with
        | None => handshake get_config turns
        | Some (Err _) => ([], Err ReadFailed)
        | Some (Ok wire) => read_response get_config (returned_offset (registration t)) wire
        end in
      (RequestSent (registration t) :: notices ++ effects, r)
  end.

(** [request_configuration]: one attempt per timeout. *)
Definition request_configuration (get_config : bool) (turns : nat -> HandshakeTurn) : list Effect * result bool HandshakeError :=
  handshake get_config (map turns (seq 0 (length CONFIG_RESPONSE_TIMEOUT_MS))).

Definition requests_of (l : list Effect) : list Registration :=
  omap (fun e => match e with RequestSent r => Some r | _ => None end) l.
Definition joined_of (l : list Effect) : list Z :=
  omap (fun e => match e with PathJoined offset => Some offset | _ => None end) l.
Definition passed_of (l : list Effect) : list bytes :=
  omap (fun e => match e with ConfigPassed value => Some value | _ => None end) l.
Definition repair_on (l : list Effect) : bool :=
  existsb (fun e => match e with StreamRepairOn => true | _ => false end) l.

(** The first packet of an attempt that is taken for an answer. *)
Definition answers_with (t : HandshakeTurn) (wire : bytes) : Prop :=
  exists before after, arrivals t = before ++ Received wire :: after /\ is_config_response wire = true
  /\ Forall (fun x => exists w, x = Received w /\ is_config_response w = false) before.
(** An attempt in which the reader fails before an answer. *)
Definition reader_fails (t : HandshakeTurn) : Prop :=
  exists before after, arrivals t = before ++ ReceiveFailed :: after
  /\ Forall (fun x => exists w, x = Received w /\ is_config_response w = false) before.
(** An attempt that only its deadline ends. *)
Definition unanswered (t : HandshakeTurn) : Prop :=
  request_sent t = true /\ Forall (fun x => exists w, x = Received w /\ is_config_response w = false) (arrivals t).

Lemma notice_is_no_answer wire : is_panel_restart_notice wire = true -> is_config_response wire = false.
Proof. unfold is_panel_restart_notice. rewrite bytes_eqb_eq. by intros ->. Qed.

Lemma await_response_spec l :
  let '(notices, answer) := await_response l in
  Forall (fun e => e = PanelRestarted) notices
  /\ match answer with
     | Some (Ok wire) => exists before after, l = before ++ Received wire :: after /\ is_config_response wire = true
         /\ Forall (fun x => exists w, x = Received w /\ is_config_response w = false) before
     | Some (Err _) => exists before after, l = before ++ ReceiveFailed :: after
         /\ Forall (fun x => exists w, x = Received w /\ is_config_response w = false) before
     | None => Forall (fun x => exists w, x = Received w /\ is_config_response w = false) l
     end.
Proof.
  induction l as [|[wire|] l IH]; cbn [await_response]; [done| |split; [done|by exists [], l]].
  destruct (is_panel_restart_notice wire) eqn:En.
  - apply notice_is_no_answer in En. destruct (await_response l) as [notices [[w|]|]]; destruct IH as [Hn IH]; (split; [by constructor|]).
    + destruct IH as (before & after & -> & Hw & Hb). exists (Received wire :: before), after.
      split; [done|]. split; [done|]. constructor; [by exists wire|done].
    + destruct IH as (before & after & -> & Hb). exists (Received wire :: before), after. split; [done|]. constructor; [by exists wire|done].
    + constructor; [by exists wire|done].
  - destruct (is_config_response wire) eqn:Ec; cbn [negb].
    + split; [done|]. by exists [], l.
    + destruct (await_response l) as [notices [[w|]|]]; destruct IH as [Hn IH]; (split; [done|]).
      * destruct IH as (before & after & -> & Hw & Hb). exists (Received wire :: before), after.
        split; [done|]. split; [done|]. constructor; [by exists wire|done].
      * destruct IH as (before & after & -> & Hb). exists (Received wire :: before), after. split; [done|]. constructor; [by exists wire|done].
      * constructor; [by exists wire|done].
Qed.

Lemma requests_app a b : requests_of (a ++ b) = requests_of a ++ requests_of b.
Proof. apply omap_app. Qed.

(** What a list of effects comes to, apart from the requests. *)
Definition gains (l : list Effect) : list Z * list bytes * bool := (joined_of l, passed_of l, repair_on l).

Lemma notices_silent l k : Forall (fun e => e = PanelRestarted) l ->
  requests_of (l ++ k) = requests_of k /\ gains (l ++ k) = gains k.
Proof. induction 1 as [|e l -> _ [IH1 IH2]]; [done|]. by split. Qed.

(** What an answer gives to the request with [offset]: a configuration joins the
    path, is passed on if it was asked for, and switches the repair of streams on
    if it says so; anything else has no effect on these. *)
Definition answer_ok (get_config : bool) (offset : Z) (wire : bytes) (effects : list Effect) (r : result bool HandshakeError) : Prop :=
  match parse_config_response wire with
  | Ok (Config value) => r = Ok true
      /\ gains effects = ([offset], if get_config then [value] else [],
                          ends_with value (ascii ":stream-v1") || ends_with value (ascii ":stream-v2"))
  | Ok NoConfig => r = Ok false /\ gains effects = ([], [], false)
  | Err e => r = Err (Rejected e) /\ gains effects = ([], [], false)
  end.

Lemma read_response_effects get_config offset wire :
  let '(effects, r) := read_response get_config offset wire in
  requests_of effects = [] /\ answer_ok get_config offset wire effects r.
Proof.
  unfold read_response, answer_ok. destruct (parse_config_response wire) as [[value|]|e].
  - destruct (_ || _), get_config; by split.
  - by split.
  - by destruct (_ && _).
Qed.

(** What a handshake over [turns] does and gives: the attempts run out before one
    that is not sent, in which the reader fails, or which is answered, and that one
    decides; or all of them run out. *)
Definition handshake_ok (get_config : bool) (turns : list HandshakeTurn) (effects : list Effect) (r : result bool HandshakeError) : Prop :=
  (Forall unanswered turns /\ requests_of effects = map registration turns
   /\ r = Err NoAnswer /\ gains effects = ([], [], false))
  \/ exists before t after, turns = before ++ t :: after /\ Forall unanswered before /\
       ((request_sent t = false /\ requests_of effects = map registration before
         /\ r = Err RequestNotSent /\ gains effects = ([], [], false))
        \/ (request_sent t = true /\ requests_of effects = map registration (before ++ [t]) /\
            ((reader_fails t /\ r = Err ReadFailed /\ gains effects = ([], [], false))
             \/ exists wire, answers_with t wire /\ answer_ok get_config (returned_offset (registration t)) wire effects r))).

(** The cases exclude each other: the attempts decide which it is. *)
Lemma attempt_is_one t :
  (unanswered t -> ~ reader_fails t) /\ (forall wire, answers_with t wire -> ~ unanswered t /\ ~ reader_fails t)
  /\ forall w1 w2, answers_with t w1 -> answers_with t w2 -> w1 = w2.
Proof.
  assert (Hone : forall (Q : Arrival -> Prop) b1 x1 a1 b2 x2 a2, b1 ++ x1 :: a1 = b2 ++ x2 :: a2 ->
    Forall Q b1 -> Forall Q b2 -> ~ Q x1 -> ~ Q x2 -> x1 = x2).
  { intros Q b1. induction b1 as [|y b1 IH]; intros x1 a1 [|z b2] x2 a2 E H1 H2 N1 N2; simplify_eq/=; try done.
    - by apply Forall_cons in H2 as [? _].
    - by apply Forall_cons in H1 as [? _].
    - apply Forall_cons in H1 as [_ H1], H2 as [_ H2]. by eapply IH. }
  set (Q := fun x => exists w, x = Received w /\ is_config_response w = false) in *.
  assert (~ Q ReceiveFailed) as Hf by (by intros (w & ? & _)).
  assert (forall w, is_config_response w = true -> ~ Q (Received w)) as Hr by (intros w Hw (w' & [= <-] & H); congruence).
  split; [|split].
  - intros [_ Hu] (b & a & E & _). rewrite E in Hu. apply Forall_app in Hu as [_ [Hu _]%Forall_cons]. done.
  - intros wire (b & a & E & Hw & Hb). split.
    + intros [_ Hu]. rewrite E in Hu. apply Forall_app in Hu as [_ [Hu _]%Forall_cons]. by apply (Hr wire).
    + intros (b' & a' & E' & Hb'). rewrite E in E'. assert (Received wire = ReceiveFailed); [|done]. by eapply (Hone Q); eauto.
  - intros w1 w2 (b & a & E & Hw & Hb) (b' & a' & E' & Hw' & Hb'). rewrite E in E'.
    assert (Received w1 = Received w2) as [= ->]; [|done]. by eapply (Hone Q); eauto.
Qed.

Lemma handshake_spec get_config turns :
  let '(effects, r) := handshake get_config turns in handshake_ok get_config turns effects r.
Proof.
  induction turns as [|t turns IH]; cbn [handshake].
  { left. split; [done|]. by destruct get_config. }
  destruct (request_sent t) eqn:Es; cbn [negb].
  2:{ right. exists [], t, turns. split; [done|]. split; [done|]. by left. }
  pose proof (await_response_spec (arrivals t)) as Ha. destruct (await_response (arrivals t)) as [notices answer].
  destruct Ha as [Hn Ha].
  assert (forall effects, requests_of (RequestSent (registration t) :: notices ++ effects) = registration t :: requests_of effects
    /\ gains (RequestSent (registration t) :: notices ++ effects) = gains effects) as Hall.
  { intros effects. destruct (notices_silent notices effects Hn) as [Hr Hg]. split; [|exact Hg].
    change (registration t :: requests_of (notices ++ effects) = registration t :: requests_of effects). by rewrite Hr. }
  assert (Hany : forall offset wire e1 e2 r, gains e1 = gains e2 -> answer_ok get_config offset wire e1 r -> answer_ok get_config offset wire e2 r).
  { intros offset wire e1 e2 r Hg. unfold answer_ok. by rewrite Hg. }
  destruct answer as [[wire|[]]|].
  - pose proof (read_response_effects get_config (returned_offset (registration t)) wire) as Hrd.
    destruct (read_response _ _ wire) as [effects r]. destruct Hrd as (Hq & Hok). destruct (Hall effects) as [Hr Hg].
    right. exists [], t, turns. split; [done|]. split; [done|]. right. split; [done|]. split; [by rewrite Hr, Hq|].
    right. exists wire. split; [exact Ha|]. by eapply Hany.
  - destruct (Hall []) as [Hr Hg]. right. exists [], t, turns. split; [done|]. split; [done|]. right. split; [done|].
    split; [by rewrite Hr|]. left. by rewrite Hg.
  - destruct (handshake get_config turns) as [effects r]. destruct (Hall effects) as [Hr Hg]. unfold handshake_ok. rewrite Hr, Hg.
    assert (unanswered t) as Hu by done. destruct IH as [(Hus & -> & -> & ->)|(before & t1 & after & -> & Hus & Hc)].
    { left. split; [by constructor|]. done. }
    right. exists (t :: before), t1, after. split; [done|]. split; [by constructor|]. cbn [map app].
    destruct Hc as [(Hs & -> & -> & Hg')|(Hs & -> & Hc)]; [by left|right]. split; [done|]. split; [done|].
    destruct Hc as [Hc|(wire & Hw & Hc)]; [by left|right]. exists wire. split; [done|]. by eapply Hany.
Qed.

(** C25: the handshake sends at most three requests, one per timeout and each
    with the generation of its own moment, and as many as it needs: the attempts
    run out one after the other until one cannot be sent, fails while it is waited
    for, or is answered, and that one decides. It has a
    configuration exactly when the answer is one, and then the path joins under the
    offset of that very request and the configuration is passed on to whoever asked
    for it; it gives up for want of an answer when every attempt ran out; and
    without a configuration, be it that the answer says there is none, no path
    joins. *)
Theorem handshake_complete get_config turns :
  let '(effects, r) := request_configuration get_config turns in
  handshake_ok get_config (map turns (seq 0 3)) effects r /\ zlen (requests_of effects) <= 3.
Proof.
  unfold request_configuration. change (length CONFIG_RESPONSE_TIMEOUT_MS) with 3%nat.
  pose proof (handshake_spec get_config (map turns (seq 0 3))) as Hh. destruct (handshake _ _) as [effects r].
  split; [done|]. assert (length (map turns (seq 0 3)) = 3%nat) as Hl by done.
  destruct Hh as [(_ & -> & _)|(before & t & after & Ht & _ & [(_ & -> & _)|(_ & -> & _)])]; unfold zlen;
    rewrite length_map, ?length_app; [lia| |]; rewrite Ht, length_app in Hl; cbn in *; lia.
Qed.

(** The first request is lost, a notice of a panel restart and a stray packet
    come before the answer to the second. *)
Definition demo_turns (n : nat) : HandshakeTurn :=
  let r := mkRegistration (Z.of_nat n) 9 (Z.of_nat n + 10) in
  match n with
  | 1%nat => mkTurn r true [Received PANEL_RESTART_NOTICE; Received [0x45; 0]; Received (ascii "TUNCONF:x:stream-v2")]
  | _ => mkTurn r true []
  end.
Example handshake_example :
  request_configuration true demo_turns
  = ([RequestSent (mkRegistration 0 9 10); RequestSent (mkRegistration 1 9 11); PanelRestarted; StreamRepairOn;
      ConfigPassed (ascii "TUNCONF:x:stream-v2"); PathJoined 11], Ok true).
Proof. by vm_compute. Qed.

(** ** The inbound packets of a session *)

Section Inbound.
Context {Q : Type -> Type} `{ArrayQueue Q} {W : Type}.

(** What an inbound packet can reach: the queues towards the host, the repair
    state, the coordinator of the shutdown, the events of a panel restart and
    the configurations passed on; the idle mode is only read. *)
Record Inbound : Type := mkInbound {
  returns_ : @Returns Q;
  repair : RepairState;
  shutdown : @ShutdownCoordinator W;
  panel_restarts : Z;
  configs : list bytes;
}.

Definition set_repair (s : Inbound) (r : RepairState) : Inbound :=
  mkInbound (returns_ s) r (shutdown s) (panel_restarts s) (configs s).

(** A repair command without the workers that the idle mode has parked. *)
Definition without_parked (idle : Idle) (c : StreamRepairCommand) : StreamRepairCommand :=
  mkCommand (Protocol.sequence c) (desired_count c) (List.filter (allows idle) (worker_ids c)).

(** One turn of [reader_loop] on a packet that the transport let in. *)
Definition handle_inbound (idle : Idle) (s : Inbound) (packet : PacketBuf) : res Inbound :=
  wire ← as_slice packet;
  if is_panel_restart_notice wire
  then Ret (mkInbound (returns_ s) (repair s) (shutdown s) (panel_restarts s + 1) (configs s))
  else
    repair_command ← parse_stream_repair wire;
    match repair_command with
    | Some command => Ret (set_repair s (fst (apply_repair (repair s) (without_parked idle command))))
    | None =>
        alive_command ← parse_stream_alive wire;
        match alive_command with
        | Some command => Ret (set_repair s (fst (apply_alive (repair s) command)))
        | None =>
            let '(observed, coordinator) := observe_control_response (shutdown s) wire in
            if observed
            then Ret (mkInbound (returns_ s) (repair s) coordinator (panel_restarts s) (configs s))
            else if starts_with wire (ascii "TUNCONF:") then
              match parse_config_response wire with
              | Ok (Config config) =>
                  Ret (mkInbound (returns_ s) (repair s) (shutdown s) (panel_restarts s) (configs s ++ [config]))
              | _ => Ret s
              end
            else if is_control_response wire then Ret s
            else
              r ← return_packet (returns_ s) packet;
              Ret (mkInbound r (repair s) (shutdown s) (panel_restarts s) (configs s))
        end
    end.

(** A framed packet, or an IPv6 one, or an IPv4 one that fits a buffer. *)
Definition is_data (wire : bytes) : bool :=
  match wire with
  | a :: b :: c :: d :: _ =>
      bytes_eqb [a; b; c; d] FRAME_MAGIC || ((0x60 <=? a) && (a <=? 0x6f))
      || ((0x40 <=? a) && (a <=? 0x4f) && (of_be [c; d] <=? PACKET_CAPACITY))
  | _ => false
  end.

Lemma data_is_no_control wire : is_data wire = true -> is_control_response wire = false.
Proof.
  intros Hd. destruct wire as [|a [|b [|c [|d rest]]]]; try done. unfold is_control_response, is_panel_restart_notice.
  destruct (bytes_eqb _ PANEL_RESTART_NOTICE) eqn:En.
  { apply bytes_eqb_eq in En. injection En as -> -> -> -> _. done. }
  apply not_true_iff_false. rewrite existsb_exists. intros (prefix & Hin & Hp). apply starts_with_spec in Hp as [r Hr].
  repeat (destruct Hin as [<-|Hin]; [injection Hr as -> -> -> -> _; done|]). done.
Qed.
Lemma command_is_control prefix wire c :
  In prefix [STREAM_REPAIR_PREFIX; STREAM_ALIVE_PREFIX] ->
  parse_stream_command wire prefix = Ret (Some c) -> is_control_response wire = true.
Proof.
  intros Hin Hp. assert (starts_with wire prefix = true) as Hs.
  { unfold parse_stream_command in Hp. unfold starts_with. by destruct (strip_prefix prefix wire). }
  unfold is_control_response. destruct (is_panel_restart_notice wire); [done|]. apply existsb_exists. exists prefix.
  split; [|done]. destruct Hin as [<-|[<-|[]]]; simpl; tauto.
Qed.

Lemma observed_is_control (s s' : @ShutdownCoordinator W) wire :
  observe_control_response s wire = (true, s') -> is_control_response wire = true.
Proof.
  unfold observe_control_response. destruct (negb (bytes_eqb wire _) && _) eqn:E; [done|]. intros _.
  unfold is_control_response. destruct (is_panel_restart_notice wire); [done|]. apply existsb_exists.
  apply andb_false_iff in E as [E|E]; apply negb_false_iff in E.
  - apply bytes_eqb_eq in E as ->. exists (ascii "OK:disconnected"). split; [simpl; tauto|done].
  - exists (ascii "DENIED:"). split; [simpl; tauto|done].
Qed.
(** ** Which workers a command restarts *)

Lemma slot_set_other r i j x : 0 <= i -> 0 <= j -> i <> j -> slot (set_slot r i x) j = slot r j.
Proof. intros Hi Hj Hne. unfold slot, set_slot. destruct (j =? 0); [done|]. apply list_lookup_insert_ne. lia. Qed.

Lemma slot_set_same r i x y : slot r i = Some y -> slot (set_slot r i x) i = Some x.
Proof.
  unfold slot, set_slot. destruct (i =? 0); [done|]. intros Hy. apply list_lookup_insert_eq. by eapply lookup_lt_Some.
Qed.

Lemma apply_workers_other sequence j ids : forall r result,
  0 <= j -> Forall (fun i => 0 <= i /\ i <> j) ids ->
  slot (fst (apply_workers r sequence ids result)) j = slot r j.
Proof.
  induction ids as [|i ids IH]; intros r result Hj Hids; cbn [apply_workers]; [done|].
  inversion Hids as [|? ? [Hi Hne] Hids']; subst. destruct (slot r i) as [x|] eqn:Ex; [|by apply IH].
  destruct (repair_slot x sequence) as [y [reset|]]; [|by apply IH]. rewrite IH by done. by apply slot_set_other.
Qed.

(** What a repair changes of a slot, as the workers see it. *)
Definition generations (r : RepairState) (j : Z) : Z * Z := (generation_of r j, credential_generation_of r j).

Lemma alive_keeps_generations sequence j ids : forall r n,
  0 <= j -> Forall (fun i => 0 <= i) ids -> generations (fst (alive_workers r sequence ids n)) j = generations r j.
Proof.
  induction ids as [|i ids IH]; intros r n Hj Hids; cbn [alive_workers]; [done|].
  inversion Hids; subst. destruct (slot r i) as [x|] eqn:Ex; [|by apply IH]. rewrite IH by done.
  unfold generations, generation_of, credential_generation_of. destruct (decide (i = j)) as [->|Hne].
  - rewrite (slot_set_same r j _ x Ex), Ex. done.
  - by rewrite slot_set_other.
Qed.

Lemma command_ids_positive c : command_ok c -> Forall (fun i => 0 < i) (worker_ids c).
Proof. unfold command_ok. intros (_ & _ & _ & _ & Hids). eapply Forall_impl; [exact Hids|]. simpl. lia. Qed.

Definition inbound_ok (idle : Idle) (s : Inbound) (p : PacketBuf) (wire : bytes) (s' : Inbound) : Prop :=
  (is_control_response wire = true -> returns_ s' = returns_ s)
  /\ (is_control_response wire = false ->
       exists r, return_packet (returns_ s) p = Ret r
       /\ s' = mkInbound r (repair s) (shutdown s) (panel_restarts s) (configs s))
  /\ (forall j, 0 <= j -> allows idle j = false -> generations (repair s') j = generations (repair s) j).

Lemma inbound_control idle s p wire s' :
  is_control_response wire = true -> returns_ s' = returns_ s ->
  (forall j, 0 <= j -> allows idle j = false -> generations (repair s') j = generations (repair s) j) ->
  inbound_ok idle s p wire s'.
Proof. intros Hc Hr Hg. split; [done|]. split; [congruence|done]. Qed.

(** C21: a packet of the peer is a control message or a packet for the host, and
    never both: a control message never reaches the host, anything else reaches
    it unchanged and touches nothing else; framed packets and IP packets that
    fit a buffer are never taken for control messages; and no message makes a
    worker restart that the idle mode has parked. *)
Theorem inbound_sorted idle s p :
  good p ->
  exists wire s', as_slice p = Ret wire /\ handle_inbound idle s p = Ret s' /\ inbound_ok idle s p wire s'
  /\ (is_data wire = true -> is_control_response wire = false).
Proof.
  intros Hp. destruct (good_slice p Hp) as (wire & Hw & Hb & Hv).
  exists wire. enough (exists s', handle_inbound idle s p = Ret s' /\ inbound_ok idle s p wire s') as (s' & Hh & H1 & H2 & H3).
  { exists s'. pose proof (data_is_no_control wire). by repeat split. }
  unfold handle_inbound. rewrite Hw. rbind.
  destruct (is_panel_restart_notice wire) eqn:En.
  { eexists. split; [done|]. apply inbound_control; [|done|done]. unfold is_control_response. by rewrite En. }
  destruct (parse_stream_command_total wire STREAM_REPAIR_PREFIX) as [command Hc].
  unfold parse_stream_repair. rewrite Hc. rbind. destruct command as [command|].
  { eexists. split; [done|]. apply inbound_control; [by eapply command_is_control; [left|]|done|].
    intros j Hj Hpark. apply parse_stream_command_sound in Hc as [_ Hc%command_ids_positive]; [|done].
    unfold generations, generation_of, credential_generation_of, apply_repair. cbn [repair set_repair].
    rewrite apply_workers_other; [done|done|]. unfold without_parked. cbn [worker_ids]. apply List.Forall_forall.
    intros i Hi. apply filter_In in Hi as [Hi Ha]. rewrite List.Forall_forall in Hc. specialize (Hc i Hi). split; [lia|congruence]. }
  destruct (parse_stream_command_total wire STREAM_ALIVE_PREFIX) as [alive Ha].
  unfold parse_stream_alive. rewrite Ha. rbind. destruct alive as [alive|].
  { eexists. split; [done|]. apply inbound_control; [by eapply command_is_control; [right; left|]|done|].
    intros j Hj _. apply parse_stream_command_sound in Ha as [_ Ha%command_ids_positive]; [|done].
    apply alive_keeps_generations; [done|]. eapply Forall_impl; [exact Ha|]. simpl. lia. }
  destruct (observe_control_response (shutdown s) wire) as [[] coordinator] eqn:Eo.
  { eexists. split; [done|]. apply inbound_control; [by eapply observed_is_control|done|done]. }
  destruct (starts_with wire (ascii "TUNCONF:")) eqn:Et.
  { assert (is_control_response wire = true) as Hctl.
    { unfold is_control_response. rewrite En. apply existsb_exists. exists (ascii "TUNCONF:"). split; [simpl; tauto|done]. }
    destruct (parse_config_response wire) as [[config|]|e]; eexists; (split; [done|by apply inbound_control]). }
  destruct (is_control_response wire) eqn:Ectl.
  { eexists. split; [done|]. by apply inbound_control. }
  unfold return_packet. rewrite Hw. rbind. destruct (packet_class_total wire Hv) as [class Hclass]. rewrite Hclass. rbind.
  eexists. split; [done|]. split; [congruence|]. split; [|done]. intros _. eexists. split; [|done].
  unfold return_packet. rewrite Hw. rbind. by rewrite Hclass.
Qed.
End Inbound.

(** A repair of the workers 1 and 3, of which 3 is parked. *)
Definition demo_inbound : @Inbound ListQueue Z := mkInbound idle_returns (new_state 3) new_coordinator 0 [].
Definition repair_wire : bytes := command_wire STREAM_REPAIR_PREFIX (mkCommand 7 3 [1; 3]).
Definition repair_packet : PacketBuf :=
  mkPacketBuf (replicate 64 0 ++ repair_wire ++ replicate (Z.to_nat (PACKET_CAPACITY - 64 - zlen repair_wire)) 0) 64 (64 + zlen repair_wire).
Definition two_allowed : Idle := enter (reset initial 3) 2.

Lemma inbound_sorted_witness :
  exists s', handle_inbound two_allowed demo_inbound repair_packet = Ret s'
  /\ returns_ s' = idle_returns /\ map (generation_of (repair s')) [1; 2; 3] = [1; 0; 0].
Proof.
  destruct (inbound_sorted two_allowed demo_inbound repair_packet) as (wire & s' & Hw & Hh & (Hc & _) & _).
  - split; [split; [vm_compute; reflexivity|repeat split; vm_compute; discriminate]|]. apply is_bytes_check. vm_compute. reflexivity.
  - exists s'. split; [exact Hh|].
    assert (wire = repair_wire) as -> by (assert (Ret wire = Ret repair_wire) as E by (rewrite <- Hw; vm_compute; reflexivity); by injection E).
    split; [exact (Hc ltac:(vm_compute; reflexivity))|].
    assert (exists s2, handle_inbound two_allowed demo_inbound repair_packet = Ret s2
      /\ map (generation_of (repair s2)) [1; 2; 3] = [1; 0; 0]) as (s2 & E & M) by (eexists; split; [vm_compute; reflexivity|reflexivity]).
    rewrite E in Hh. injection Hh as <-. exact M.
Defined.
