(* ===== verification/Bridge.v ===== *)
(** * Bridge: packets from the host application

    Models [packet_bridge.rs]: the host copies a packet into a buffer of the
    pool and puts it into one of two bounded queues, one for traffic that must
    survive pressure; the reader of the dispatcher drains both and sleeps until
    it is woken. The first part is one call run alone, with the memory that a
    fresh buffer holds and the clock of the idle mode as arguments; the second
    is the protocol of waking, access by access. The callbacks of the host are
    foreign code. *)

From S2P Require Import Prelude Bytes Scheduler ArrayQueue PacketPool Idle.

Definition UPLINK_CAPACITY : Z := 1024.
Definition UPLINK_LATENCY_CAPACITY : Z := 256.

(** ** Injecting *)

Section Inject.
Context {Q : Type -> Type} `{ArrayQueue Q}.

(** [UplinkBridge] with the idle mode; the notifier is a permit to wake, as
    tokio's [notify_one] leaves it. *)
Record UplinkBridge : Type := mkBridge {
  pool : @PacketPool Q;
  bulk : Q PacketBuf;
  latency : Q PacketBuf;
  permit : bool;
  cancelled : bool;
  idle : Idle;
}.

Definition new_bridge (p : @PacketPool Q) (i : Idle) : UplinkBridge :=
  mkBridge p (aq_new UPLINK_CAPACITY) (aq_new UPLINK_LATENCY_CAPACITY) false false i.

Definition set_pool (b : UplinkBridge) (p : @PacketPool Q) : UplinkBridge :=
  mkBridge p (bulk b) (latency b) (permit b) (cancelled b) (idle b).
Definition set_queues (b : UplinkBridge) (q l : Q PacketBuf) : UplinkBridge :=
  mkBridge (pool b) q l (permit b) (cancelled b) (idle b).
Definition set_idle (b : UplinkBridge) (i : Idle) : UplinkBridge :=
  mkBridge (pool b) (bulk b) (latency b) (permit b) (cancelled b) i.
Definition notify_one (b : UplinkBridge) : UplinkBridge :=
  mkBridge (pool b) (bulk b) (latency b) true (cancelled b) (idle b).
(** Dropping a buffer gives its storage back. *)
Definition drop_packet (b : UplinkBridge) (p : PacketBuf) : UplinkBridge := set_pool b (release (pool b) (storage p)).

Definition enqueue_uplink (b : UplinkBridge) (packet : PacketBuf) : res (bool * UplinkBridge) :=
  wire ← as_slice packet;
  keep ← keep_under_pressure wire;
  mret (if (keep : bool) then
    match aq_push (latency b) packet with
    | Some l => (true, set_queues b (bulk b) l)
    | None =>
        let '(l, b) := match aq_pop (latency b) with
                       | Some (stale, l) => (l, drop_packet b stale)
                       | None => (latency b, b)
                       end in
        match aq_push l packet with
        | Some l => (true, set_queues b (bulk b) l)
        | None => (false, drop_packet (set_queues b (bulk b) l) packet)
        end
    end
  else
    match aq_push (bulk b) packet with
    | Some q => (true, set_queues b q (latency b))
    | None => (false, drop_packet b packet)
    end).

Definition queued_total (b : UplinkBridge) : Z := aq_len (latency b) + aq_len (bulk b).

(** Copying [data] into a buffer and queueing it; [None] when it does not fit. *)
Definition copy_in (b : UplinkBridge) (fresh data : bytes) : res (option bool * UplinkBridge) :=
  let '(packet, p) := try_acquire (pool b) fresh in
  let b := set_pool b p in
  match packet with
  | None => mret (Some false, b)
  | Some packet =>
      area ← slice (storage packet) PACKET_HEADROOM PACKET_CAPACITY;
      if zlen area <? zlen data then mret (None, drop_packet b packet) else
      packet ← write_read_area packet data;
      match set_read_len packet (zlen data) with
      | Err _ => mret (None, drop_packet b packet)
      | Ok packet =>
          queued ← enqueue_uplink b packet;
          mret (Some (fst queued), snd queued)
      end
  end.

(** [inject_packet] with the bridge that is installed, if one is. *)
Definition inject_packet (slot : option UplinkBridge) (now_ms : Z) (fresh data : bytes) : res (Z * option UplinkBridge) :=
  if (zlen data =? 0) || (PACKET_CAPACITY - PACKET_HEADROOM <? zlen data) then Ret (-3, slot) else
  match slot with
  | None => Ret (-1, None)
  | Some b =>
      if cancelled b then Ret (-1, Some b) else
      i ← note_uplink (idle b) now_ms data;
      queued ← copy_in (set_idle b i) fresh data;
      mret (match queued with
            | (None, b) => (-3, Some b)
            | (Some false, b) => (-2, Some b)
            | (Some true, b) => (0, Some (if queued_total b =? 1 then notify_one b else b))
            end)
  end.

(** The loop of [inject_packets]: how many were queued and how many failed. *)
Fixpoint inject_loop (b : UplinkBridge) (queued failed : Z) (now_ms : nat -> Z) (fresh : nat -> bytes) (packets : list bytes)
    : res (Z * Z * UplinkBridge) :=
  match packets with
  | [] => Ret (queued, failed, b)
  | data :: packets =>
      if zlen data =? 0 then inject_loop b queued failed now_ms fresh packets else
      i ← note_uplink (idle b) (now_ms (length packets)) data;
      result ← copy_in (set_idle b i) (fresh (length packets)) data;
      match result with
      | (Some true, b) => inject_loop b (queued + 1) failed now_ms fresh packets
      | (_, b) => inject_loop b queued (failed + 1) now_ms fresh packets
      end
  end.

Definition inject_packets (slot : option UplinkBridge) (now_ms : nat -> Z) (fresh : nat -> bytes) (packets : list bytes)
    : res (Z * option UplinkBridge) :=
  match packets with
  | [] => Ret (0, slot)
  | _ =>
      match slot with
      | None => Ret (-1, None)
      | Some b =>
          if cancelled b then Ret (-1, Some b) else
          result ← inject_loop b 0 0 now_ms fresh packets;
          let '(queued, failed, b) := result in
          mret (if 0 <? queued then (0, Some (notify_one b)) else if 0 <? failed then (-2, Some b) else (0, Some b))
      end
  end.

(** What the reader takes next. *)
Definition bridge_pop (b : UplinkBridge) : option PacketBuf * UplinkBridge :=
  match aq_pop (latency b) with
  | Some (p, l) => (Some p, set_queues b (bulk b) l)
  | None =>
      match aq_pop (bulk b) with
      | Some (p, q) => (Some p, set_queues b q (latency b))
      | None => (None, b)
      end
  end.

(** ** One packet *)

Definition bridge_ok (b : UplinkBridge) : Prop :=
  pool_lone_ok (pool b) /\ aq_ok (bulk b) /\ aq_ok (latency b) /\ idle_ok (idle b).

(** The storages that are neither in the pool nor in a queue of the bridge. *)
Definition outside (b : UplinkBridge) : Z :=
  allocated (pool b) - zlen (items (queue (pool b))) - queued_total b.

(** The packets of a queue after a push that evicts the oldest when it is full. *)
Definition evicting_push (q : Q PacketBuf) (p : PacketBuf) : list PacketBuf :=
  (if zlen (items q) =? aq_capacity q then drop 1 (items q) else items q) ++ [p].

Lemma drop_packet_facts b p :
  bridge_ok b -> bridge_ok (drop_packet b p) /\ outside (drop_packet b p) = outside b - 1
  /\ bulk (drop_packet b p) = bulk b /\ latency (drop_packet b p) = latency b.
Proof.
  intros (Hp & Hq & Hl & Hi). destruct (release_balance (pool b) (storage p) Hp) as [Hp' Hbal].
  conjs; try done. unfold outside, drop_packet, queued_total in *. cbn [pool bulk latency set_pool] in *. lia.
Qed.

Lemma set_queues_facts b q l :
  bridge_ok b -> aq_ok q -> aq_ok l -> bridge_ok (set_queues b q l)
  /\ outside (set_queues b q l) = outside b + queued_total b - aq_len q - aq_len l.
Proof.
  intros (Hp & Hq & Hl & Hi) Hq' Hl'. split; [done|].
  unfold outside, queued_total. cbn [pool bulk latency set_queues]. lia.
Qed.

Lemma enqueue_uplink_spec b p data keep :
  bridge_ok b -> as_slice p = Ret data -> keep_under_pressure data = Ret keep ->
  exists queued b', enqueue_uplink b p = Ret (queued, b') /\ bridge_ok b' /\ outside b' = outside b - 1 /\
    if queued : bool
    then (if keep then items (latency b') = evicting_push (latency b) p /\ bulk b' = bulk b
          else items (bulk b') = items (bulk b) ++ [p] /\ latency b' = latency b)
    else keep = false /\ zlen (items (bulk b)) = aq_capacity (bulk b)
         /\ bulk b' = bulk b /\ latency b' = latency b.
Proof.
  intros Hb Hs Hk. unfold enqueue_uplink. rewrite Hs. rbind. rewrite Hk. rbind.
  pose proof Hb as (_ & Hq & Hl & _). unfold evicting_push. destruct keep.
  - destruct (aq_push_cases (latency b) p Hl) as [[Hfull ->]|(l & -> & Hi & Hc & Hok)].
    + destruct (aq_pop_cases (latency b) Hl) as [[Hnil _]|(x & l & -> & Hi & Hc & Hok)].
      { destruct Hl as [Hpos _]. rewrite Hnil, zlen_nil in Hfull. lia. }
      cbv beta iota zeta. destruct (aq_push_cases l p Hok) as [[Hfull' _]|(l' & -> & Hi' & Hc' & Hok')].
      { rewrite Hi, zlen_cons in Hfull. lia. }
      destruct (drop_packet_facts b x Hb) as (Hd & Ho & Eq & El).
      destruct (set_queues_facts (drop_packet b x) (bulk (drop_packet b x)) l' Hd) as [Hs' Hout]; [by rewrite Eq|done|].
      eexists true, _. split; [reflexivity|]. split; [done|]. split.
      * rewrite Hout, Ho. unfold queued_total, aq_len. rewrite Eq, El, Hi', Hi, zlen_app, zlen_cons, zlen_cons, zlen_nil. lia.
      * rewrite Hfull, Z.eqb_refl, Hi. by cbn [latency set_queues bulk drop].
    + destruct (set_queues_facts b (bulk b) l Hb Hq Hok) as [Hs' Hout].
      eexists true, _. split; [reflexivity|]. split; [done|]. split.
      * rewrite Hout. unfold queued_total, aq_len. rewrite Hi, zlen_app, zlen_cons, zlen_nil. lia.
      * destruct Hok as [_ Hlen]. rewrite Hi, Hc, zlen_app, zlen_cons, zlen_nil in Hlen.
        destruct (Z.eqb_spec (zlen (items (latency b))) (aq_capacity (latency b))); [lia|]. by cbn [latency set_queues bulk].
  - destruct (aq_push_cases (bulk b) p Hq) as [[Hfull ->]|(q & -> & Hi & Hc & Hok)].
    + destruct (drop_packet_facts b p Hb) as (Hd & Ho & Eq & El).
      eexists false, _. split; [reflexivity|]. by conjs.
    + destruct (set_queues_facts b q (latency b) Hb Hok Hl) as [Hs' Hout].
      eexists true, _. split; [reflexivity|]. split; [done|]. split; [|done].
      rewrite Hout. unfold queued_total, aq_len. rewrite Hi, zlen_app, zlen_cons, zlen_nil. lia.
Qed.

(** What [try_acquire] leaves of the bridge. *)
Lemma acquire_facts b fresh :
  bridge_ok b -> zlen fresh = PACKET_CAPACITY ->
  let '(p, pl) := try_acquire (pool b) fresh in
  bridge_ok (set_pool b pl) /\
  match p with
  | None => pl = pool b /\ items (queue (pool b)) = [] /\ allocation_limit (pool b) <= allocated (pool b)
  | Some p => buf_ok p /\ outside (set_pool b pl) = outside b + 1
  end.
Proof.
  intros (Hp & Hq & Hl & Hi) Hf. pose proof (try_acquire_ok (pool b) fresh Hp Hf) as Hacq.
  destruct (try_acquire (pool b) fresh) as [[p|] pl]; destruct Hacq as (Hok & _ & Hrest); split; try done.
  destruct Hrest as (Hb & _ & Hbal). split; [done|].
  unfold outside, queued_total. cbn [pool bulk latency set_pool] in *. lia.
Qed.

(** Why a packet of class [keep] is refused: the pool is exhausted, or it is
    bulk traffic and its queue is full. *)
Definition refused_for (b : UplinkBridge) (keep : bool) : Prop :=
  (items (queue (pool b)) = [] /\ allocation_limit (pool b) <= allocated (pool b))
  \/ (keep = false /\ zlen (items (bulk b)) = aq_capacity (bulk b)).

(** [b'] is [b] after a packet with the bytes [data] was queued. *)
Definition queued_as (b b' : UplinkBridge) (keep : bool) (data : bytes) : Prop :=
  exists p, as_slice p = Ret data /\
    if keep then items (latency b') = evicting_push (latency b) p /\ bulk b' = bulk b
    else items (bulk b') = items (bulk b) ++ [p] /\ latency b' = latency b.

Lemma copy_in_spec b fresh data keep :
  bridge_ok b -> zlen fresh = PACKET_CAPACITY -> zlen data <= 2240 -> keep_under_pressure data = Ret keep ->
  exists queued b', copy_in b fresh data = Ret (Some queued, b') /\ bridge_ok b' /\ outside b' = outside b /\
    if queued : bool then queued_as b b' keep data
    else refused_for b keep /\ bulk b' = bulk b /\ latency b' = latency b.
Proof.
  intros Hb Hf Hd Hk. unfold copy_in. pose proof (acquire_facts b fresh Hb Hf) as Hacq.
  destruct (try_acquire (pool b) fresh) as [[p|] pl]; destruct Hacq as (Hb1 & Hrest).
  2:{ destruct Hrest as (-> & He & Ha). eexists false, _. split; [reflexivity|].
      conjs; try done. by left. }
  destruct Hrest as (Hp & Ho). destruct (read_area_length p Hp) as (area & -> & Ha). rbind.
  rewrite Ha. destruct (Z.ltb_spec 2240 (zlen data)); [lia|].
  destruct (fill_read_area p data Hp) as (p1 & p2 & -> & Hset & Hs & _); [lia|]. rbind. rewrite Hset.
  destruct (enqueue_uplink_spec (set_pool b pl) p2 data keep Hb1 Hs Hk) as (queued & b' & -> & Hb' & Ho' & Hq).
  rbind. eexists queued, b'. split; [reflexivity|]. split; [done|]. split; [lia|].
  destruct queued; [exists p2; by split|]. destruct Hq as (-> & Hfull & Eb & El). conjs; try done. by right.
Qed.

Lemma queued_total_mono b b' keep data :
  aq_ok (latency b) -> queued_as b b' keep data -> queued_total b' <= queued_total b + 1 /\ 1 <= queued_total b'.
Proof.
  intros [Hc Hl] (p & _ & Hq). unfold queued_total, aq_len, evicting_push in *.
  pose proof (zlen_nonneg (items (bulk b))). pose proof (zlen_nonneg (items (latency b))).
  destruct keep; destruct Hq as [Hi ->]; rewrite Hi, zlen_app, zlen_cons, zlen_nil; [|lia].
  destruct (Z.eqb_spec (zlen (items (latency b))) (aq_capacity (latency b))); rewrite ?zlen_drop_list; lia.
Qed.

(** C29: a packet that the host injects alone into a running bridge never makes
    the call panic. The call answers 0 exactly when a buffer holding exactly
    the packet's bytes is at the tail of the queue of its class: the latency
    queue, which gives up only its oldest packet and only when it is full, for
    DNS, NTP, TCP control and the like, else the bulk queue, the other queue
    being untouched; the reader is woken when the queues were empty. It answers
    -2 and leaves both queues alone only when the pool is exhausted or the
    packet is bulk and the bulk queue full, so that an upload that fills its
    queue never refuses the traffic kept under pressure. No buffer leaks. *)
Theorem inject_keeps_latency b now fresh data :
  bridge_ok b -> cancelled b = false -> zlen fresh = PACKET_CAPACITY -> 0 < zlen data <= 2240 ->
  exists keep code b', keep_under_pressure data = Ret keep
    /\ inject_packet (Some b) now fresh data = Ret (code, Some b') /\ bridge_ok b' /\ outside b' = outside b
    /\ ((code = 0 /\ queued_as b b' keep data /\ (queued_total b = 0 -> permit b' = true))
        \/ (code = -2 /\ refused_for b keep /\ bulk b' = bulk b /\ latency b' = latency b)).
Proof.
  intros Hb Hc Hf Hd. assert (valid_slice data) as Hv by (unfold valid_slice, isize_max; lia).
  destruct (keep_under_pressure_total data Hv) as [keep Hk]. exists keep.
  pose proof Hb as (Hp & Hq & Hl & Hi). unfold inject_packet.
  destruct (Z.eqb_spec (zlen data) 0); [lia|].
  destruct (Z.ltb_spec (PACKET_CAPACITY - PACKET_HEADROOM) (zlen data)) as [Hbig|_];
    [unfold PACKET_CAPACITY, PACKET_HEADROOM in Hbig; lia|]. cbn [orb]. rewrite Hc.
  destruct (note_uplink_ok (idle b) now data Hv Hi) as (i & -> & Hi'). rbind.
  destruct (copy_in_spec (set_idle b i) fresh data keep) as (queued & b' & -> & Hb' & Ho & Hcase); try done; try lia.
  rbind. destruct queued.
  - eexists 0, _. split; [done|]. split; [reflexivity|].
    assert (queued_as b b' keep data) as Has by exact Hcase.
    split; [by destruct (_ =? _)|]. split; [by destruct (_ =? _)|]. left. split; [done|].
    split; [by destruct (_ =? _)|]. intros Hz. destruct (queued_total_mono b b' keep data Hl Has).
    by replace (queued_total b' =? 1) with true by lia.
  - destruct Hcase as (Hr & Eb & El). eexists (-2), b'. split; [done|]. split; [reflexivity|]. conjs; try done.
    right. by conjs.
Qed.
End Inject.

Definition blank_bridge : @UplinkBridge ListQueue := new_bridge (new_pool 4) initial.

Lemma inject_keeps_latency_witness :
  exists code b', inject_packet (Some blank_bridge) 5 blank [1; 2; 3] = Ret (code, Some b').
Proof.
  destruct (inject_keeps_latency blank_bridge 5 blank [1; 2; 3]) as (_ & code & b' & _ & H & _).
  - split; [split; [split; [reflexivity|vm_compute; discriminate]|constructor]|].
    split; [split; [reflexivity|vm_compute; discriminate]|].
    split; [split; [reflexivity|vm_compute; discriminate]|]. split; [reflexivity|split; reflexivity].
  - reflexivity.
  - reflexivity.
  - by vm_compute.
  - by exists code, b'.
Defined.

(** ** Waking the reader

    Threads that inject at once share the two queues, of which only the
    lengths matter here, and the permit. A single injection has found its
    packet to be bulk or not, pushes it, evicting first where its queue is the
    latency queue and full, loads both lengths one after the other, and wakes
    the reader when the sum is one; a burst pushes what it can and wakes the
    reader whenever it pushed. [read_bridge] pops the latency queue, then the
    bulk queue, and sleeps when both pops failed. *)

Module Wake.
#[local] Open Scope nat_scope.

Inductive Injector : Type :=
| Ready
| Evicted            (** the latency queue was full and its oldest packet is gone *)
| Pushed
| Counted (n : nat)  (** the length of the latency queue is loaded *)
| Waking
| Burst (queued : nat).

Inductive Reader : Type := AtLatency | AtBulk | Asleep.

Record Wakes : Type := mkWakes {
  lat : nat;
  blk : nat;
  permit : bool;
  reader : Reader;
  injectors : list Injector;
}.

(** One access of an injector. *)
Inductive inject_move : Injector -> nat -> nat -> bool -> Injector -> nat -> nat -> bool -> Prop :=
| move_push_latency l b n : inject_move Ready l b n Pushed (S l) b n
| move_push_bulk l b n : inject_move Ready l b n Pushed l (S b) n
| move_refused l b n : inject_move Ready l b n Ready l b n
| move_evict l b n : inject_move Ready l b n Evicted (pred l) b n
| move_evicted l b n : inject_move Evicted l b n Pushed (S l) b n
| move_overtaken l b n : inject_move Evicted l b n Ready l b n
| move_count l b n : inject_move Pushed l b n (Counted l) l b n
| move_first c l b n : c + b = 1 -> inject_move (Counted c) l b n Waking l b n
| move_later c l b n : c + b <> 1 -> inject_move (Counted c) l b n Ready l b n
| move_wake l b n : inject_move Waking l b n Ready l b true.

(** One access of a burst; an eviction inside a burst is one access here. *)
Inductive burst_move : Injector -> nat -> nat -> bool -> Injector -> nat -> nat -> bool -> Prop :=
| burst_start l b n : burst_move Ready l b n (Burst 0) l b n
| burst_latency q l b n : burst_move (Burst q) l b n (Burst (S q)) (S l) b n
| burst_replace q l b n : burst_move (Burst q) l b n (Burst (S q)) l b n
| burst_bulk q l b n : burst_move (Burst q) l b n (Burst (S q)) l (S b) n
| burst_queued q l b n : 0 < q -> burst_move (Burst q) l b n Waking l b n
| burst_nothing l b n : burst_move (Burst 0) l b n Ready l b n.

Inductive read_move : Reader -> nat -> nat -> bool -> Reader -> nat -> nat -> bool -> Prop :=
| read_latency l b n : read_move AtLatency (S l) b n AtLatency l b n
| read_no_latency b n : read_move AtLatency 0 b n AtBulk 0 b n
| read_bulk l b n : read_move AtBulk l (S b) n AtLatency l b n
| read_no_bulk l n : read_move AtBulk l 0 n Asleep l 0 n
| read_woken l b : read_move Asleep l b true AtLatency l b false.

Inductive reader_step : Wakes -> Wakes -> Prop :=
| reader_moves l b n r l' b' n' r' threads : read_move r l b n r' l' b' n' ->
    reader_step (mkWakes l b n r threads) (mkWakes l' b' n' r' threads).

Inductive single_step : Wakes -> Wakes -> Prop :=
| single_moves l b n r i l' b' n' i' is1 is2 : inject_move i l b n i' l' b' n' ->
    single_step (mkWakes l b n r (is1 ++ i :: is2)) (mkWakes l' b' n' r (is1 ++ i' :: is2)).

Inductive burst_step : Wakes -> Wakes -> Prop :=
| burst_moves l b n r i l' b' n' i' is1 is2 : burst_move i l b n i' l' b' n' ->
    burst_step (mkWakes l b n r (is1 ++ i :: is2)) (mkWakes l' b' n' r (is1 ++ i' :: is2)).

Inductive wake_step : Wakes -> Wakes -> Prop :=
| wake_reader s s' : reader_step s s' -> wake_step s s'
| wake_single s s' : single_step s s' -> wake_step s s'
| wake_burst s s' : burst_step s s' -> wake_step s s'.

(** The bridge before [threads] threads inject. *)
Definition start (threads : nat) : Wakes := mkWakes 0 0 false AtLatency (replicate threads Ready).

(** A sleeping reader that nothing will wake although packets wait. *)
Definition stranded (s : Wakes) : Prop :=
  reader s = Asleep /\ permit s = false /\ Forall (eq Ready) (injectors s) /\ 0 < lat s + blk s.

(** ** One thread *)

(** Packets that wait are or will be seen: the reader is about to look, or the
    only injector is about to wake it. *)
Definition covered (l b : nat) (n : bool) (r : Reader) (i : Injector) : Prop :=
  n = true \/ i = Waking \/ (exists q, i = Burst (S q)) \/
  match r with
  | AtLatency => True
  | AtBulk => 0 < b \/ l = 0 \/ (l = 1 /\ (i = Pushed \/ i = Counted 1))
  | Asleep => l + b = 0 \/ (l + b = 1 /\ (i = Pushed \/ i = Counted l))
  end.

Ltac cover := unfold covered in *; naive_solver lia.

Lemma inject_covered l b n r i l' b' n' i' :
  covered l b n r i -> inject_move i l b n i' l' b' n' -> covered l' b' n' r i'.
Proof. intros Hc Hm. destruct Hm, r; cover. Qed.

Lemma burst_covered l b n r i l' b' n' i' :
  covered l b n r i -> burst_move i l b n i' l' b' n' -> covered l' b' n' r i'.
Proof.
  intros Hc Hm. destruct Hm as [| | | |q l b n Hq|]; [destruct r; cover|cover..| |destruct r; cover].
  right. by left.
Qed.

Lemma read_covered l b n r i l' b' n' r' :
  covered l b n r i -> read_move r l b n r' l' b' n' -> covered l' b' n' r' i.
Proof. intros Hc Hm. destruct Hm; cover. Qed.

Definition single_covered (s : Wakes) : Prop :=
  exists i, injectors s = [i] /\ covered (lat s) (blk s) (permit s) (reader s) i.

Lemma single_list {A} (l1 l2 : list A) x y : l1 ++ x :: l2 = [y] -> l1 = [] /\ l2 = [] /\ x = y.
Proof. destruct l1 as [|z [|]]; naive_solver. Qed.

Lemma wake_step_covered s s' : single_covered s -> wake_step s s' -> single_covered s'.
Proof.
  intros (i & Hi & Hc) Hw. inversion Hw as [? ? Hs|? ? Hs|? ? Hs]; inversion Hs; subst; cbn [injectors lat blk permit reader] in *; subst.
  - eexists. split; [reflexivity|]. by eapply read_covered.
  - apply single_list in Hi as (-> & -> & ->). eexists. split; [reflexivity|]. by eapply inject_covered.
  - apply single_list in Hi as (-> & -> & ->). eexists. split; [reflexivity|]. by eapply burst_covered.
Qed.

(** ** Many threads *)

(** The states of an injector that is not about to wake anybody when at least
    two packets stay in the bulk queue. *)
Definition silent (i : Injector) : Prop :=
  match i with Ready | Evicted | Pushed | Counted _ => True | Waking | Burst _ => False end.

Definition stuck (s : Wakes) : Prop :=
  reader s = Asleep /\ permit s = false /\ 2 <= blk s /\ Forall silent (injectors s).

Lemma stuck_step s s' : stuck s -> reader_step s s' \/ single_step s s' -> stuck s'.
Proof.
  unfold stuck. intros (Hr & Hp & Hb & Hf) [Hs|Hs]; inversion Hs; subst;
    cbn [injectors lat blk permit reader] in *; subst.
  - by match goal with Hm : read_move _ _ _ _ _ _ _ _ |- _ => inversion Hm end.
  - match goal with Hm : inject_move _ _ _ _ _ _ _ _ |- _ => rename Hm into Hmove end.
    rewrite Forall_app, Forall_cons in *. destruct Hf as (H1 & Hi & H2).
    destruct Hmove; cbn [silent] in *; naive_solver lia.
Qed.

Lemma stuck_forever s s' : stuck s -> rtc (fun s s' => reader_step s s' \/ single_step s s') s s' -> stuck s'.
Proof. intros Hs Hr. induction Hr; eauto using stuck_step. Qed.

Lemma two_at_once : exists s, rtc single_step (mkWakes 0 0 false Asleep [Ready; Ready]) s /\ s = mkWakes 0 2 false Asleep [Ready; Ready].
Proof.
  eexists. split; [|reflexivity].
  eapply rtc_l; [eapply (single_moves _ _ _ _ _ _ _ _ _ [] [Ready]); apply move_push_bulk|].
  eapply rtc_l; [eapply (single_moves _ _ _ _ _ _ _ _ _ [Pushed] []); apply move_push_bulk|].
  eapply rtc_l; [eapply (single_moves _ _ _ _ _ _ _ _ _ [] [Pushed]); apply move_count|].
  eapply rtc_l; [eapply (single_moves _ _ _ _ _ _ _ _ _ [Counted 0] []); apply move_count|].
  eapply rtc_l; [eapply (single_moves _ _ _ _ _ _ _ _ _ [] [Counted 0]); apply move_later; lia|].
  eapply rtc_l; [eapply (single_moves _ _ _ _ _ _ _ _ _ [Ready] []); apply move_later; lia|].
  apply rtc_refl.
Qed.

(** As long as one thread injects, packet by packet or in bursts, the reader
    never sleeps on a packet: in every reachable state in which it sleeps with
    no permit and the thread is between two calls, both queues are empty. With
    two threads that inject one packet each it can: both push before either
    counts, both count two packets, and neither wakes the reader. From then on,
    whatever single packets these threads inject, and as long as none comes in
    a burst, the reader never wakes again. *)
Lemma reader_woken :
  (forall s, rtc wake_step (start 1) s -> ~ stranded s)
  /\ (exists s, rtc wake_step (start 2) s /\ stranded s /\ blk s = 2
      /\ forall s', rtc (fun s s' => reader_step s s' \/ single_step s s') s s' ->
           reader s' = Asleep /\ permit s' = false /\ 2 <= blk s').
Proof.
  split.
  - intros s Hr. assert (single_covered s) as (i & Hi & Hc).
    { assert (single_covered (start 1)) as Hw by (exists Ready; split; [done|do 3 right; done]).
      revert Hw. induction Hr; eauto using wake_step_covered. }
    unfold stranded. rewrite Hi, Forall_cons. intros (Ha & Hn & [<- _] & Hpos). rewrite Ha, Hn in Hc. cover.
  - destruct two_at_once as (s & Hr & Hs). exists s. split.
    { eapply rtc_l; [eapply wake_reader, reader_moves, read_no_latency|].
      eapply rtc_l; [eapply wake_reader, reader_moves, read_no_bulk|].
      eapply (rtc_subrel single_step); [apply wake_single|exact Hr]. }
    subst s. split; [split_and!; simpl; try done; [repeat constructor|lia]|]. split; [done|].
    intros s' (Ha & Hn & Hb & _)%stuck_forever; [done|]. split_and!; simpl; try done. repeat constructor.
Qed.
End Wake.
