(* ===== verification/Rebind.v ===== *)
(** * Rebind: noticing that the network or the phone was away

    Models [rebind.rs] and [wake.rs]: the detector of a stalled uplink, the
    detector of a suspended process, the epoch with the gap that a wake
    publishes and the driver reads, and the waiting for an epoch to move. Times
    are milliseconds; the clocks and byte counters that are read are arguments. *)

From S2P Require Import Prelude.

(** ** The stall detector *)

Definition STALL_POLL : Z := 2000.
Definition STALL_POLLS : Z := 3.
Definition STALL_MIN_UPLINK_DELTA : Z := 4096.
Definition PROBE_MIN_GAP : Z := 20000.

(** [i64::saturating_sub] *)
Definition saturating_sub_i64 (a b : Z) : Z := Z.max (- 2 ^ 63) (Z.min (a - b) (2 ^ 63 - 1)).

Record StallDetector : Type := mkDetector {
  last_up : Z;
  last_down : Z;
  stalled_polls : Z;
  last_probe : option Z;
}.

Definition new_detector (up down : Z) : StallDetector := mkDetector up down 0 None.

(** One poll: the two counters and the time. *)
Record Poll : Type := mkPoll { up : Z; down : Z; at_ms : Z }.

Definition observe (d : StallDetector) (p : Poll) : bool * StallDetector :=
  let up_moved := STALL_MIN_UPLINK_DELTA <=? saturating_sub_i64 (up p) (last_up d) in
  let down_moved := negb (down p =? last_down d) in
  if down_moved || negb up_moved then (false, mkDetector (up p) (down p) 0 (last_probe d)) else
  let polls := wrapping_add 32 (stalled_polls d) 1 in
  if polls <? STALL_POLLS then (false, mkDetector (up p) (down p) polls (last_probe d)) else
  if match last_probe d with Some previous => saturating_sub (at_ms p) previous <? PROBE_MIN_GAP | None => false end
  then (false, mkDetector (up p) (down p) polls (last_probe d))
  else (true, mkDetector (up p) (down p) 0 (Some (at_ms p))).

(** The turns of [stall_monitor]: a poll is skipped while no path is ready. The
    result lists the observed polls, newest first, with the answers. *)
Fixpoint stall_monitor (d : StallDetector) (seen : list (Poll * bool)) (polls : list (Z * Poll)) : list (Poll * bool) :=
  match polls with
  | [] => seen
  | (active_paths, p) :: polls =>
      if active_paths <=? 0 then stall_monitor d seen polls else
      let '(probe, d) := observe d p in
      stall_monitor d ((p, probe) :: seen) polls
  end.

(** The uplink advanced between two polls and the downlink stood still. *)
Definition stalled (before p : Poll) : Prop :=
  STALL_MIN_UPLINK_DELTA <= saturating_sub_i64 (up p) (up before) /\ down p = down before.
#[export] Instance stalled_dec before p : Decision (stalled before p) := _.

Definition newest (start : Poll) (seen : list (Poll * bool)) : Poll :=
  match seen with [] => start | (p, _) :: _ => p end.

(** How many stalled polls in a row end the history since the last probe. *)
Fixpoint streak (start : Poll) (seen : list (Poll * bool)) : Z :=
  match seen with
  | [] => 0
  | (p, probe) :: older =>
      if probe : bool then 0 else if decide (stalled (newest start older) p) then 1 + streak start older else 0
  end.

Definition last_probe_in (seen : list (Poll * bool)) : option Z :=
  head (omap (fun '(p, probe) => if probe : bool then Some (at_ms p) else None) seen).

(** When a probe is due after the history [seen]. *)
Definition probe_due (start : Poll) (seen : list (Poll * bool)) (p : Poll) : Prop :=
  stalled (newest start seen) p
  /\ (exists a b older, seen = (a, false) :: (b, false) :: older
      /\ stalled b a /\ stalled (newest start older) b)
  /\ Forall (fun '(q, probe) => probe = true -> at_ms q + PROBE_MIN_GAP <= at_ms p) seen.

Definition detector_at (start : Poll) (seen : list (Poll * bool)) (d : StallDetector) : Prop :=
  last_up d = up (newest start seen) /\ last_down d = down (newest start seen)
  /\ stalled_polls d = streak start seen /\ last_probe d = last_probe_in seen.

(** The answers of a history: each is what was due. *)
Fixpoint answers_due (start : Poll) (seen : list (Poll * bool)) : Prop :=
  match seen with
  | [] => True
  | (p, probe) :: older => (probe = true <-> probe_due start older p) /\ answers_due start older
  end.

Lemma streak_bounds start seen : 0 <= streak start seen <= zlen seen.
Proof.
  induction seen as [|[p probe] older IH]; [by cbn|]. rewrite zlen_cons. cbn [streak].
  destruct probe; [lia|]. destruct (decide _); lia.
Qed.

Lemma streak_two start seen :
  2 <= streak start seen <->
  exists a b older, seen = (a, false) :: (b, false) :: older /\ stalled b a /\ stalled (newest start older) b.
Proof.
  split.
  - destruct seen as [|[a pa] [|[b pb] older]]; cbn [streak newest].
    + lia.
    + destruct pa; [lia|]. destruct (decide _); lia.
    + destruct pa; [lia|]. destruct (decide (stalled b a)); [|lia]. destruct pb; [lia|].
      destruct (decide (stalled (newest start older) b)); [|lia]. intros _. by exists a, b, older.
  - intros (a & b & older & -> & Ha & Hb). cbn [streak newest]. rewrite !decide_True by done.
    pose proof (streak_bounds start older). lia.
Qed.

(** Probes are reported in order of time, so the last one decides. *)
Lemma probes_ordered start seen :
  answers_due start seen ->
  match last_probe_in seen with
  | None => Forall (fun '(q, probe) => probe = false) seen
  | Some t => Forall (fun '(q, probe) => probe = true -> at_ms q <= t) seen
              /\ Exists (fun '(q, probe) => probe = true /\ at_ms q = t) seen
  end.
Proof.
  unfold last_probe_in. induction seen as [|[p probe] older IH]; [by constructor|].
  intros [Hp Ho]. specialize (IH Ho). destruct probe; cbn [omap list_omap head].
  - destruct (proj1 Hp eq_refl) as (_ & _ & Hgap). split; [constructor; [done|]|by constructor].
    eapply Forall_impl; [exact Hgap|]. intros [q pr] Hq Ht. specialize (Hq Ht). unfold PROBE_MIN_GAP in Hq. lia.
  - destruct (head _) as [t|]; [|by constructor]. destruct IH as [H1 H2]. split; [by constructor|by constructor 2].
Qed.

Lemma gap_decides start seen now :
  answers_due start seen ->
  match last_probe_in seen with Some previous => saturating_sub now previous <? PROBE_MIN_GAP | None => false end = false
  <-> Forall (fun '(q, probe) => probe = true -> at_ms q + PROBE_MIN_GAP <= now) seen.
Proof.
  intros Hd%probes_ordered. destruct (last_probe_in seen) as [t|].
  - destruct Hd as [Hall Hex]. rewrite Z.ltb_ge. unfold saturating_sub, PROBE_MIN_GAP. split.
    + intros Hle. eapply Forall_impl; [exact Hall|]. intros [q pr] Hq Ht. specialize (Hq Ht). lia.
    + intros Hf. apply Exists_exists in Hex as ([q pr] & Hin & Hpr & <-).
      pose proof (proj1 (Forall_forall _ _) Hf _ Hin Hpr). lia.
  - split; [|done]. intros _. eapply Forall_impl; [exact Hd|]. by intros [q pr] ->.
Qed.

Lemma observe_due start seen d p :
  detector_at start seen d -> answers_due start seen -> zlen seen < 2 ^ 32 - 1 ->
  let '(probe, d') := observe d p in
  (probe = true <-> probe_due start seen p) /\ detector_at start ((p, probe) :: seen) d'.
Proof.
  intros (Hu & Hd & Hs & Hl) Hdue Hlen. unfold observe. rewrite Hu, Hd, Hs, Hl.
  pose proof (streak_bounds start seen) as Hb. pose proof (gap_decides start seen (at_ms p) Hdue) as Hgap.
  assert (wrapping_add 32 (streak start seen) 1 = 1 + streak start seen) as ->.
  { unfold wrapping_add, wrap. rewrite Z.mod_small; lia. }
  assert (last_probe_in ((p, false) :: seen) = last_probe_in seen) as Hnone by done.
  assert (negb (down p =? down (newest start seen))
          || negb (STALL_MIN_UPLINK_DELTA <=? saturating_sub_i64 (up p) (up (newest start seen))) = false
          <-> stalled (newest start seen) p) as Hst.
  { unfold stalled. rewrite orb_false_iff, !negb_false_iff, Z.eqb_eq, Z.leb_le. tauto. }
  assert (probe_due start seen p <-> stalled (newest start seen) p /\ 2 <= streak start seen
    /\ match last_probe_in seen with Some previous => saturating_sub (at_ms p) previous <? PROBE_MIN_GAP | None => false end = false)
    as Hdp by (unfold probe_due; by rewrite streak_two, Hgap).
  clear Hgap. unfold detector_at. destruct (_ || _).
  { cbn [last_up last_down stalled_polls last_probe newest streak].
    rewrite decide_False by (intros Hn; by apply Hst in Hn). split; [|by conjs].
    rewrite Hdp. split; [done|]. intros [Hn _]. by apply Hst in Hn. }
  assert (stalled (newest start seen) p) as Hsp by tauto.
  unfold STALL_POLLS. destruct (Z.ltb_spec (1 + streak start seen) 3).
  { cbn [last_up last_down stalled_polls last_probe newest streak]. rewrite decide_True by done.
    split; [rewrite Hdp; split; [done|lia]|by conjs]. }
  destruct (match last_probe_in seen with Some _ => _ | None => _ end);
    cbn [last_up last_down stalled_polls last_probe newest streak]; rewrite ?decide_True by done;
    (split; [rewrite Hdp; split; [intros ?; conjs; done || lia|by intros (_ & _ & ?)]|by conjs]).
Qed.

Lemma stall_monitor_due start d seen polls :
  detector_at start seen d -> answers_due start seen -> zlen seen + zlen polls < 2 ^ 32 ->
  answers_due start (stall_monitor d seen polls).
Proof.
  revert d seen. induction polls as [|[paths p] polls IH]; intros d seen Hd Hdue Hlen; [done|].
  rewrite zlen_cons in Hlen. pose proof (zlen_nonneg polls). cbn [stall_monitor]. destruct (_ <=? 0); [apply IH; done || lia|].
  pose proof (observe_due start seen d p Hd Hdue ltac:(lia)) as Ho. destruct (observe d p) as [probe d'].
  destruct Ho as [Hp Hd']. apply IH; [done|by split|]. rewrite zlen_cons. lia.
Qed.

(** The detector asks for a probe at exactly the polls it should: the
    uplink advanced by at least 4096 bytes on this poll and on the two observed
    before it while the downlink stood still, neither of those two asked, and
    every earlier probe is at least twenty seconds old. Hence probes are never
    closer than that, and a stall that lasts is always reported. The polls that
    are skipped because no path is ready neither count nor break the row. *)
Lemma probe_exact first down0 polls :
  let start := mkPoll first down0 0 in
  zlen polls < 2 ^ 32 ->
  answers_due start (stall_monitor (new_detector first down0) [] polls).
Proof.
  intros start Hlen. apply stall_monitor_due; [|done|by rewrite Z.add_0_l].
  by unfold detector_at, new_detector, start.
Qed.

Lemma probe_exact_witness :
  map snd (stall_monitor (new_detector 0 0) []
    [(1, mkPoll 4096 0 2000); (1, mkPoll 8192 0 4000); (0, mkPoll 0 0 6000); (1, mkPoll 12288 0 8000)]) = [true; false; false]
  /\ answers_due (mkPoll 0 0 0) (stall_monitor (new_detector 0 0) []
    [(1, mkPoll 4096 0 2000); (1, mkPoll 8192 0 4000); (0, mkPoll 0 0 6000); (1, mkPoll 12288 0 8000)]).
Proof. split; [reflexivity|]. apply (probe_exact 0 0). by vm_compute. Defined.

(** The polls of the test [downlink_or_silence_resets_the_streak] after its
    reset: their steps of a hundred bytes are below the threshold, and the
    fifth poll, for which the test expects a probe, gets none. *)
Lemma small_steps_never_probe :
  map snd (stall_monitor (new_detector 0 0) []
    (map (fun '(u, d) => (1, mkPoll u d 0)) [(100, 0); (200, 50); (300, 50); (400, 50); (500, 50)]))
  = replicate 5 false.
Proof. reflexivity. Qed.

(** ** The detector of a suspended process *)

Definition WAKE_POLL : Z := 3000.
Definition SUSPEND_THRESHOLD : Z := 20000.

Definition suspend_gap (mono_elapsed boot_elapsed : Z) : Z := saturating_sub boot_elapsed mono_elapsed.

(** The turns of [monitor], from the samples of the two clocks: the gaps that
    are signalled, in order. *)
Fixpoint monitor (mono boot : Z) (samples : list (Z * Z)) : list Z :=
  match samples with
  | [] => []
  | (now_mono, now_boot) :: samples =>
      let gap := suspend_gap (saturating_sub now_mono mono) (saturating_sub now_boot boot) in
      (if SUSPEND_THRESHOLD <=? gap then [gap] else []) ++ monitor now_mono now_boot samples
  end.

(** The samples of clocks that both run while awake for [awake] milliseconds
    between two polls, and of which only one runs while suspended. *)
Fixpoint clock_samples (mono boot : Z) (turns : list (Z * Z)) : list (Z * Z) :=
  match turns with
  | [] => []
  | (awake, asleep) :: turns =>
      let mono := mono + awake in
      let boot := boot + awake + asleep in
      (mono, boot) :: clock_samples mono boot turns
  end.

(** The monitor signals exactly the sleeps of at least twenty seconds between
    two polls, each with its length: being awake for long never counts, and
    shorter sleeps are not added up. *)
Lemma monitor_exact mono boot turns :
  Forall (fun '(awake, asleep) => 0 <= awake /\ 0 <= asleep) turns ->
  monitor mono boot (clock_samples mono boot turns)
  = List.filter (fun gap => SUSPEND_THRESHOLD <=? gap) (map snd turns).
Proof.
  intros Hf. revert mono boot. induction Hf as [|[awake asleep] turns [Ha Hs] _ IH]; intros mono boot; [done|].
  cbn [clock_samples monitor map List.filter snd]. cbv zeta. rewrite IH.
  replace (suspend_gap _ _) with asleep by (unfold suspend_gap, saturating_sub; lia). by destruct (_ <=? _).
Qed.

(** ** The wake that is published *)

(** The cells [EPOCH] and [LAST_GAP_MS]. *)
Record WakeCell : Type := mkWakeCell { epoch : Z; last_gap : Z }.

(** The two accesses of [signal], and the look of a driver ([observe_wake]) in
    its two accesses: the epoch it has seen, then the gap it takes. *)
Definition store_gap (c : WakeCell) (gap : Z) : WakeCell := mkWakeCell (epoch c) (Z.min gap (2 ^ 64 - 1)).
Definition bump (c : WakeCell) : WakeCell := mkWakeCell (wrapping_add 64 (epoch c) 1) (last_gap c).

Inductive DriverPhase : Type := Watching | Taking.

(** [storing] are the signals between their two accesses, [published] the
    gaps of those that are over and [taken] those that the driver took, both
    newest first. *)
Record WakeSystem : Type := mkWakeSystem {
  cell : WakeCell;
  storing : list Z;
  published : list Z;
  seen : Z;
  phase : DriverPhase;
  taken : list Z;
}.

Inductive wake_step : WakeSystem -> WakeSystem -> Prop :=
| signal_store c st p s ph t gap : 0 <= gap ->
    wake_step (mkWakeSystem c st p s ph t) (mkWakeSystem (store_gap c gap) (gap :: st) p s ph t)
| signal_bump c l1 gap l2 p s ph t :
    wake_step (mkWakeSystem c (l1 ++ gap :: l2) p s ph t) (mkWakeSystem (bump c) (l1 ++ l2) (gap :: p) s ph t)
| look_same c st p s t : epoch c = s ->
    wake_step (mkWakeSystem c st p s Watching t) (mkWakeSystem c st p s Watching t)
| look_new c st p s t : epoch c <> s ->
    wake_step (mkWakeSystem c st p s Watching t) (mkWakeSystem c st p (epoch c) Taking t)
| look_take c st p s t :
    wake_step (mkWakeSystem c st p s Taking t) (mkWakeSystem c st p s Watching (last_gap c :: t)).

Definition wake_start : WakeSystem := mkWakeSystem (mkWakeCell 0 0) [] [] 0 Watching [].

(** Both are at rest: no signal is between its accesses and the driver has
    seen the last epoch and taken its gap. *)
Definition at_rest (s : WakeSystem) : Prop := storing s = [] /\ phase s = Watching /\ epoch (cell s) = seen s.

(** A signal that begins when both are at rest and that the driver looks at
    before the next one. *)
Definition signal_then_look (gap : Z) (s : WakeSystem) : WakeSystem :=
  let c := bump (store_gap (cell s) gap) in
  mkWakeSystem c [] (gap :: published s) (epoch c) Watching (last_gap c :: taken s).

Lemma signal_then_look_steps gap s :
  at_rest s -> is_u 64 (seen s) -> 0 <= gap -> rtc wake_step s (signal_then_look gap s).
Proof.
  destruct s as [c st p s ph t]. unfold at_rest. cbn [storing phase cell seen]. intros (-> & -> & He) Hu Hg.
  eapply rtc_l; [by apply (signal_store _ _ _ _ _ _ gap)|].
  eapply rtc_l; [apply (signal_bump _ [] gap [])|].
  eapply rtc_l; [apply look_new; rewrite <- He in *; by apply wrapping_succ_neq|].
  eapply rtc_l; [apply look_take|]. apply rtc_refl.
Qed.

Definition signals_then_looks (gaps : list Z) : WakeSystem := fold_left (fun s gap => signal_then_look gap s) gaps wake_start.

Lemma signals_then_looks_facts gaps :
  Forall (is_u 64) gaps ->
  let s := signals_then_looks gaps in
  rtc wake_step wake_start s /\ at_rest s /\ is_u 64 (seen s) /\ published s = rev gaps /\ taken s = rev gaps.
Proof.
  unfold signals_then_looks. induction gaps as [|gap gaps IH] using rev_ind; intros Hf.
  { unfold is_u. cbn. split; [apply rtc_refl|]. split; [done|]. split; [lia|done]. }
  rewrite Forall_app, Forall_singleton in Hf. destruct Hf as [Hf Hg]. rewrite fold_left_app, rev_app_distr.
  destruct (IH Hf) as (Hr & Hrest & Hu & Hp & Ht). cbn [fold_left rev app]. cbv zeta.
  revert Hr Hrest Hu Hp Ht. generalize (fold_left (fun s gap => signal_then_look gap s) gaps wake_start). intros s Hr Hrest Hu Hp Ht.
  split; [etrans; [exact Hr|]; apply signal_then_look_steps; unfold is_u in *; done || lia|].
  split; [by unfold at_rest|]. unfold signal_then_look.
  cbn [seen epoch last_gap bump store_gap published taken]. rewrite Hp, Ht. split; [|split; [done|]].
  - unfold wrapping_add, wrap, is_u. by apply Z.mod_pos_bound.
  - f_equal. unfold is_u in Hg. lia.
Qed.

(** As long as every signal ends and is looked at before the next begins, a
    driver takes the gap of every wake exactly once, in order, and ends having
    seen the last epoch. When signals overlap or come faster than the driver
    looks it need not: a nudge right after a wake hides the time asleep, so that
    the expiry of the allocation is not moved; and a nudge right before makes
    the driver take the same gap twice. *)
Lemma gaps_taken gaps :
  Forall (is_u 64) gaps ->
  (rtc wake_step wake_start (signals_then_looks gaps) /\ at_rest (signals_then_looks gaps)
   /\ taken (signals_then_looks gaps) = published (signals_then_looks gaps)
   /\ published (signals_then_looks gaps) = rev gaps)
  /\ (forall gap, is_u 64 gap ->
       (exists s, rtc wake_step wake_start s /\ at_rest s /\ published s = [0; gap] /\ taken s = [0])
       /\ (exists s, rtc wake_step wake_start s /\ at_rest s /\ published s = [gap; 0] /\ taken s = [gap; gap])).
Proof.
  intros Hf. split.
  { destruct (signals_then_looks_facts gaps Hf) as (Hr & Hrest & _ & Hp & Ht). by rewrite Hp, Ht. }
  intros gap [Hg Hg']. assert (Z.min gap (2 ^ 64 - 1) = gap) as Hmin by lia. split.
  - eexists. split.
    { eapply rtc_l; [by apply (signal_store _ _ _ _ _ _ gap)|].
      eapply rtc_l; [apply (signal_bump _ [] gap [])|].
      eapply rtc_l; [by apply (signal_store _ _ _ _ _ _ 0)|].
      eapply rtc_l; [apply (signal_bump _ [] 0 [])|].
      eapply rtc_l; [by apply look_new|]. eapply rtc_l; [apply look_take|]. apply rtc_refl. }
    by unfold at_rest.
  - eexists. split.
    { eapply rtc_l; [by apply (signal_store _ _ _ _ _ _ 0)|].
      eapply rtc_l; [apply (signal_bump _ [] 0 [])|].
      eapply rtc_l; [by apply (signal_store _ _ _ _ _ _ gap)|].
      eapply rtc_l; [by apply look_new|]. eapply rtc_l; [apply look_take|].
      eapply rtc_l; [apply (signal_bump _ [] gap [])|].
      eapply rtc_l; [by apply look_new|]. eapply rtc_l; [apply look_take|]. apply rtc_refl. }
    unfold at_rest. cbn [storing phase cell seen published taken last_gap store_gap bump epoch]. rewrite !Hmin. done.
Qed.

Lemma gaps_taken_witness : taken (signals_then_looks [600000; 0; 30000]) = [30000; 0; 600000].
Proof.
  destruct (gaps_taken [600000; 0; 30000]) as [(_ & _ & Ht & Hp) _]; [repeat constructor; by vm_compute|].
  rewrite Ht. exact Hp.
Defined.

(** ** Waiting for an epoch to move *)

Module Waiting.

(** A waiter that compares an epoch with the one it has seen and sleeps on a
    notifier. [notify_waiters] wakes the futures that exist; [registered] says
    whether the waiter's exists and whether it was woken. *)
Inductive Waiter : Type := Looking | Looked | Sleeping | Done.

Record WaitSystem : Type := mkWaitSystem {
  current : Z;
  bumping : nat;              (** requests between moving the epoch and notifying *)
  waiter : Waiter;
  registered : option bool;
  seen_epoch : Z;
}.

(** The requests. *)
Inductive request_step : WaitSystem -> WaitSystem -> Prop :=
| request_bump e n w r s :
    request_step (mkWaitSystem e n w r s) (mkWaitSystem (wrapping_add 64 e 1) (S n) w r s)
| request_notify e n w r s :
    request_step (mkWaitSystem e (S n) w r s) (mkWaitSystem e n w (match r with Some _ => Some true | None => None end) s).

(** [requested], [parked] and [announce_changed]: make the future, compare,
    then sleep. *)
Inductive register_first_step : WaitSystem -> WaitSystem -> Prop :=
| first_request s s' : request_step s s' -> register_first_step s s'
| first_register e n r s : register_first_step (mkWaitSystem e n Looking r s) (mkWaitSystem e n Looked (Some false) s)
| first_moved e n r s : e <> s -> register_first_step (mkWaitSystem e n Looked r s) (mkWaitSystem e n Done r s)
| first_sleep e n r s : e = s -> register_first_step (mkWaitSystem e n Looked r s) (mkWaitSystem e n Sleeping r s)
| first_woken e n s : register_first_step (mkWaitSystem e n Sleeping (Some true) s) (mkWaitSystem e n Looking None s).

(** The loop of the TURN driver with [wake::notified]: compare and adopt, then
    make the future and sleep. *)
Inductive look_first_step : WaitSystem -> WaitSystem -> Prop :=
| look_request s s' : request_step s s' -> look_first_step s s'
| look_epoch e n r s : look_first_step (mkWaitSystem e n Looking r s) (mkWaitSystem e n Looked r e)
| look_sleep e n r s : look_first_step (mkWaitSystem e n Looked r s) (mkWaitSystem e n Sleeping (Some false) s)
| look_woken e n s : look_first_step (mkWaitSystem e n Sleeping (Some true) s) (mkWaitSystem e n Looking None s).

(** [StreamRepair::changed]: compare, then make the future and sleep. *)
Inductive compare_first_step : WaitSystem -> WaitSystem -> Prop :=
| compare_request s s' : request_step s s' -> compare_first_step s s'
| compare_moved e n r s : e <> s -> compare_first_step (mkWaitSystem e n Looking r s) (mkWaitSystem e n Done r s)
| compare_same e n r s : e = s -> compare_first_step (mkWaitSystem e n Looking r s) (mkWaitSystem e n Looked r s)
| compare_sleep e n r s : compare_first_step (mkWaitSystem e n Looked r s) (mkWaitSystem e n Sleeping (Some false) s)
| compare_woken e n s : compare_first_step (mkWaitSystem e n Sleeping (Some true) s) (mkWaitSystem e n Looking None s).

Definition wait_start (e : Z) : WaitSystem := mkWaitSystem e 0 Looking None e.

(** The waiter sleeps, nothing will wake it, and the epoch has moved. *)
Definition overslept (s : WaitSystem) : Prop :=
  waiter s = Sleeping /\ bumping s = 0%nat /\ registered s <> Some true /\ current s <> seen_epoch s.

Definition alert (s : WaitSystem) : Prop :=
  match waiter s with
  | Looked => is_Some (registered s)
  | Sleeping => registered s = Some true
      \/ (registered s = Some false /\ (current s = seen_epoch s \/ (0 < bumping s)%nat))
  | _ => True
  end.

Lemma request_alert s s' : alert s -> request_step s s' -> alert s'.
Proof.
  intros Ha Hs. inversion Hs; subst; unfold alert in *; cbn [waiter registered current seen_epoch bumping] in *.
  - destruct w; try done. destruct Ha as [?|[? _]]; [by left|right; split; [done|right; lia]].
  - destruct w; try done; [destruct r; [by eexists|by destruct Ha]|]. destruct r as [b|]; [by left|]. by destruct Ha as [|[? _]].
Qed.

Lemma register_first_alert s s' : alert s -> register_first_step s s' -> alert s'.
Proof.
  intros Ha Hs. inversion Hs as [? ? Hr| | | |]; subst; [by eapply request_alert|..];
    unfold alert in *; cbn [waiter registered current seen_epoch bumping] in *; try done.
  destruct Ha as [[|] ->]; [by left|]. right. split; [done|]. by left.
Qed.

Ltac oversleeps :=
  unfold overslept; cbn [waiter registered current seen_epoch bumping]; conjs; try done; by apply wrapping_succ_neq.

(** A task that makes its future before it compares the epoch never sleeps
    through a request: once every request is over, it sleeps only if the epoch
    is the one it has seen. [StreamRepair::changed] and the TURN driver compare
    first and make the future afterwards, and they can: a request between the
    two finds no future. *)
Lemma register_first_wakes :
  (forall e s, rtc register_first_step (wait_start e) s -> ~ overslept s)
  /\ (forall e, is_u 64 e ->
       (exists s, rtc compare_first_step (wait_start e) s /\ overslept s)
       /\ (exists s, rtc look_first_step (wait_start e) s /\ overslept s)).
Proof.
  split.
  - intros e s Hr. assert (alert s) as Ha.
    { assert (alert (wait_start e)) as Hw by done. revert Hw. induction Hr; eauto using register_first_alert. }
    unfold overslept. intros (Hw & Hb & Hn & Hc). unfold alert in Ha. rewrite Hw in Ha.
    destruct Ha as [?|[_ [?|?]]]; [done..|lia].
  - intros e He. split; eexists; split.
    + eapply rtc_l; [by apply compare_same|]. eapply rtc_l; [apply compare_request, request_bump|].
      eapply rtc_l; [apply compare_request, request_notify|]. eapply rtc_l; [apply compare_sleep|]. apply rtc_refl.
    + by oversleeps.
    + eapply rtc_l; [apply look_epoch|]. eapply rtc_l; [apply look_request, request_bump|].
      eapply rtc_l; [apply look_request, request_notify|]. eapply rtc_l; [apply look_sleep|]. apply rtc_refl.
    + by oversleeps.
Qed.
End Waiting.
