(* ===== verification/SessionRun.v ===== *)
(** * SessionRun: the life of a session and its end

    Models [run_session], [await_session_task] and the loop of
    [run_allocated_session] in [session.rs], from what their awaits meet, and
    the handing over of the packets that a finished session leaves behind to
    the workers that go on. The moving of the network epoch against the phases
    of a session is a step relation. *)

From Stdlib Require Import Strings.String.
From stdpp Require Import functions.
From S2P Require Import Prelude Bytes Text Scheduler ArrayQueue PacketPool PacketQueue Idle TurnEndpoint Dispatcher WorkerErrors Worker Session.

(** ** From connecting to releasing *)

(** What the connect meets: an allocation, a failure, the cancellation of the
    engine, with whether the allocation came within the grace, or a change of
    the network. *)
Inductive ConnectEnd : Type :=
| Connected
| ConnectFailed (e : Error)
| ConnectCancelled (late : bool)
| ConnectRebound.

Inductive BindEnd : Type := Bound | BindFailed (e : Error) | BindCancelled.

(** How the task of the session ends, and whether it did before the engine was
    cancelled; [None] when it outlives the grace and is aborted. *)
Inductive JoinEnd : Type := Returned (r : result bool Error) | Panicked (shown : text) | Stopped (shown : text).
Inductive TaskEnd : Type := Alone (e : JoinEnd) | AfterCancel (e : option JoinEnd).

Definition PANIC_ISOLATED : text :=
  [0x43f; 0x430; 0x43d; 0x438; 0x43a; 0x430; 0x20; 0x441; 0x435; 0x441; 0x441; 0x438; 0x438; 0x20; 0x438; 0x437; 0x43e;
   0x43b; 0x438; 0x440; 0x43e; 0x432; 0x430; 0x43d; 0x430].
Definition TASK_CRASHED : text :=
  [0x437; 0x430; 0x434; 0x430; 0x447; 0x430; 0x20; 0x441; 0x435; 0x441; 0x441; 0x438; 0x438; 0x20; 0x437; 0x430; 0x432;
   0x435; 0x440; 0x448; 0x435; 0x43d; 0x430; 0x20; 0x430; 0x432; 0x430; 0x440; 0x438; 0x439; 0x43d; 0x43e].

Definition await_session_task (t : TaskEnd) : result bool Error :=
  match t with
  | Alone (Returned r) => r
  | Alone (Panicked shown) => Err (anyhow (PANIC_ISOLATED ++ ascii ": " ++ shown))
  | Alone (Stopped shown) => Err (anyhow (TASK_CRASHED ++ ascii ": " ++ shown))
  | AfterCancel (Some (Returned r)) => r
  | AfterCancel (Some (Panicked shown)) => Err (anyhow (ascii "session panicked during graceful shutdown: " ++ shown))
  | AfterCancel (Some (Stopped shown)) => Err (anyhow (ascii "session stopped during graceful shutdown: " ++ shown))
  | AfterCancel None => Ok false
  end.

(** What a session does to the relay: it asks for an allocation, tells its
    worker that it has one, and gives it back. *)
Inductive RelayEffect : Type := Asked | Allocated | Deallocated.

(** [run_session] once the address is chosen. *)
Definition run_allocation (connect : ConnectEnd) (bind : BindEnd) (task : TaskEnd) : list RelayEffect * result bool Error :=
  match connect with
  | ConnectFailed e => ([Asked], Err (turn_allocate_error e))
  | ConnectCancelled late => ([Asked] ++ (if late : bool then [Deallocated] else []), Ok false)
  | ConnectRebound => ([Asked], Err (anyhow (ascii "NET_REBIND")))
  | Connected =>
      match bind with
      | BindCancelled => ([Asked; Allocated; Deallocated], Ok false)
      | BindFailed e => ([Asked; Allocated; Deallocated], Err (context BIND_CONTEXT e))
      | Bound =>
          let result := await_session_task task in
          let rebinding := match result with Err e => contains (display e) (ascii "NET_REBIND") | Ok _ => false end in
          ([Asked; Allocated] ++ (if rebinding then [] else [Deallocated]), result)
      end
  end.

Section Run.
Variables (turn_host turn_port : option text) (mode : TurnTransportMode).

(** The errors of the choice are those of their own functions. *)
Inductive NoAddress : Type := NoTurnUrl | NoneUsable | NoPathKey (e : option EndpointError).

Definition run_session (addresses : list text) (id cursor : Z) (connect : ConnectEnd) (bind : BindEnd) (task : TaskEnd)
    : res (list RelayEffect * result (result bool Error) NoAddress) :=
  if zlen addresses =? 0 then Ret ([], Err NoTurnUrl) else
  chosen ← select_turn_address turn_host turn_port mode addresses id cursor;
  mret (match chosen with
        | None => ([], Err NoneUsable)
        | Some address =>
            match turn_path_key turn_host turn_port mode address with
            | Err e => ([], Err (NoPathKey e))
            | Ok _ => let '(effects, r) := run_allocation connect bind task in (effects, Ok r)
            end
        end).
End Run.

(** What the worker that started the session is told. *)
Definition started (effects : list RelayEffect) : bool :=
  existsb (fun e => match e with Asked => true | _ => false end) effects.
Definition allocated (effects : list RelayEffect) : bool :=
  existsb (fun e => match e with Allocated => true | _ => false end) effects.

(** ** The loop of a session that runs *)

(** What ends or serves a session, in the order in which the loop meets it; a
    registration carries the reads of the idle mode it was built from. *)
Inductive SessionEvent : Type :=
| EngineCancelled
| NetworkMoved
| WorkerParked
| EpochAnnounced (r : Registration) (delivered : bool)
| RepairRequested
| WriterEnded (r : result unit Error)
| ReaderEnded (r : result unit Error).

(** What the loop does to the idle mode, and the result with the task that had
    ended (0 for none), or [None] as long as it goes on. *)
Fixpoint session_loop (id : Z) (events : list SessionEvent) : list IdleOp * option (result unit Error * Z) :=
  match events with
  | [] => ([], None)
  | EngineCancelled :: _ => ([], Some (Ok tt, 0))
  | NetworkMoved :: _ => ([], Some (Err (anyhow (ascii "NET_REBIND")), 0))
  | WorkerParked :: _ => ([], Some (Err (anyhow (ascii "IDLE_PARK")), 0))
  | EpochAnnounced r delivered :: events =>
      let '(ops, e) := session_loop id events in
      ((if delivered : bool then [OpJoined id (returned_offset r)] else []) ++ ops, e)
  | RepairRequested :: _ => ([], Some (Err (anyhow (ascii "TARGET_REPAIR")), 0))
  | WriterEnded r :: _ => ([], Some (r, 1))
  | ReaderEnded r :: _ => ([], Some (r, 2))
  end.

(** The loss of the path, after the loop. *)
Definition note_end (id : Z) (r : result unit Error) : list IdleOp :=
  match r with Err e => if should_note_path_lost e then [OpLost id] else [] | Ok _ => [] end.

(** The tasks that [stop_session_tasks] aborts: the writer and the reader. *)
Definition stop_session_tasks (completed : Z) : bool * bool :=
  if completed =? 0 then (true, true) else if completed =? 1 then (false, true) else (true, false).

(** ** What the worker leaves behind *)

Section HandOver.
Context {Q : Type -> Type} `{ArrayQueue Q}.

(** The last lines of [run_allocated_session]; the worker is marked unhealthy
    before its tasks stop, and other tasks may use the queues meanwhile. *)
Definition hand_over (h : @Store Q) (ws : list WorkerChannels) (w : WorkerChannels) : res Store :=
  let '(packets, h) := drain_uplink h w in
  redispatch_all h ws packets.

Definition end_session (h : @Store Q) (meanwhile : @Store Q -> @Store Q) (ws : list WorkerChannels) (w : WorkerChannels)
    : res Store :=
  hand_over (meanwhile (mark_unhealthy h w)) ws w.

(** The queues of a worker, in the order in which they are drained. *)
Definition queues_of (w : WorkerChannels) : list nat := [latency w; priority w; bulk w].

Definition waiting (h : @Store Q) (w : WorkerChannels) : list PacketBuf :=
  concat (map (fun k => map packet (items (queue (queues h k)))) (queues_of w)).

(** A finished worker whose queues nobody else reads, next to healthy workers
    whose queues accept packets. *)
Definition ended (h : @Store Q) (ws : list WorkerChannels) (w : WorkerChannels) : Prop :=
  (forall class, live h ws class) /\ NoDup (queues_of w)
  /\ Forall (fun k => aq_ok (queue (queues h k))) (queues_of w)
  /\ Forall (fun w' => is_healthy h w' = true -> forall class, queue_for_class w' class ∉ queues_of w) ws.

(** Each packet is placed with a healthy worker, one after the other. *)
Inductive placed_each (ws : list WorkerChannels) : @Store Q -> list PacketBuf -> @Store Q -> Prop :=
| placed_nil h : placed_each ws h [] h
| placed_cons h h1 h2 wire class p ps :
    as_slice p = Ret wire -> packet_class wire = Ret class -> placed h h1 ws class p -> placed_each ws h1 ps h2 ->
    placed_each ws h (p :: ps) h2.

Lemma set_queue_same (h : @Store Q) k q : queues (set_store_queue h k q) k = q.
Proof. apply fn_lookup_insert. Qed.
Lemma set_queue_other (h : @Store Q) k q j : k <> j -> queues (set_store_queue h k q) j = queues h j.
Proof. intros Hne. by apply fn_lookup_insert_ne. Qed.

Lemma live_set_queue (h : @Store Q) ws class k q :
  live h ws class -> send_load q = send_load (queues h k) -> aq_ok (queue q) -> live (set_store_queue h k q) ws class.
Proof.
  intros Hl Hs Hq. eapply Forall_impl; [exact Hl|]. intros w Hw Hh. specialize (Hw Hh).
  destruct (decide (k = queue_for_class w class)) as [->|Hne].
  - rewrite set_queue_same, Hs. by destruct Hw.
  - by rewrite set_queue_other.
Qed.

Lemma ended_set_queue (h : @Store Q) ws w k q :
  ended h ws w -> send_load q = send_load (queues h k) -> aq_ok (queue q) -> ended (set_store_queue h k q) ws w.
Proof.
  intros (Hl & Hnd & Hok & Hown) Hs Hq. split; [intros class; by apply live_set_queue|]. split; [done|]. split; [|done].
  eapply Forall_impl; [exact Hok|]. intros j Hj.
  destruct (decide (k = j)) as [->|Hne]; [by rewrite set_queue_same|by rewrite set_queue_other].
Qed.

Lemma steal_at_spec (h : @Store Q) ws w k :
  ended h ws w -> k ∈ queues_of w ->
  exists h', steal_at h k = (map packet (items (queue (queues h k))), h') /\ ended h' ws w
    /\ (forall j, j <> k -> queues h' j = queues h j) /\ items (queue (queues h' k)) = [] /\ flags h' = flags h.
Proof.
  intros He Hk. pose proof He as (_ & _ & Hok & _). pose proof (proj1 (Forall_forall _ _) Hok k Hk) as Hq.
  unfold steal_at. destruct (steal_spec (queues h k) Hq) as (q & -> & Hi & Hok').
  eexists. split; [reflexivity|]. split; [by apply ended_set_queue|]. split; [intros j Hj; by apply set_queue_other|].
  by rewrite set_queue_same.
Qed.

Lemma drain_uplink_spec (h : @Store Q) ws w :
  ended h ws w ->
  exists h', drain_uplink h w = (waiting h w, h') /\ ended h' ws w /\ waiting h' w = []
    /\ (forall j, j ∉ queues_of w -> queues h' j = queues h j) /\ flags h' = flags h.
Proof.
  intros He. pose proof He as (_ & Hnd & _). unfold drain_uplink, waiting, queues_of in *.
  apply NoDup_cons in Hnd as [Hn1 Hnd]. apply NoDup_cons in Hnd as [Hn2 _]. rewrite !elem_of_cons in *.
  assert (latency w <> priority w /\ latency w <> bulk w /\ priority w <> bulk w) as (H12 & H13 & H23) by tauto.
  destruct (steal_at_spec h ws w (latency w) He) as (h1 & -> & He1 & Ho1 & Hi1 & Hf1); [set_solver|].
  destruct (steal_at_spec h1 ws w (priority w) He1) as (h2 & -> & He2 & Ho2 & Hi2 & Hf2); [set_solver|].
  destruct (steal_at_spec h2 ws w (bulk w) He2) as (h3 & -> & He3 & Ho3 & Hi3 & Hf3); [set_solver|].
  exists h3. split; [|split; [done|]].
  - cbn [map concat]. rewrite app_nil_r. rewrite (Ho2 (bulk w)), (Ho1 (bulk w)), (Ho1 (priority w)) by congruence. done.
  - split; [|split; [|congruence]].
    + cbn [map concat]. rewrite Hi3, (Ho3 (priority w)), Hi2, (Ho3 (latency w)), (Ho2 (latency w)), Hi1 by congruence.
      done.
    + intros j Hj. rewrite !elem_of_cons in Hj.
      rewrite Ho3, Ho2, Ho1 by (intros ->; tauto). done.
Qed.

Lemma placed_ended (h h' : @Store Q) ws w class p :
  placed h h' ws class p -> ended h ws w ->
  ended h' ws w /\ flags h' = flags h /\ forall k, k ∈ queues_of w -> queues h' k = queues h k.
Proof.
  intros (w' & e & q & kept & Hin & Hh & _ & -> & Hq & _) He.
  split; [by apply ended_set_queue|]. split; [done|]. intros k Hk. apply set_queue_other. intros Heq.
  destruct He as (_ & _ & _ & Hown). apply (proj1 (Forall_forall _ _) Hown w' Hin Hh class). by rewrite Heq.
Qed.

Lemma redispatch_all_spec (h : @Store Q) ws w healthy_one packets :
  ended h ws w -> healthy_one ∈ ws -> is_healthy h healthy_one = true -> Forall buf_ok packets ->
  exists h', redispatch_all h ws packets = Ret h' /\ placed_each ws h packets h' /\ ended h' ws w /\ flags h' = flags h
    /\ forall k, k ∈ queues_of w -> queues h' k = queues h k.
Proof.
  intros He Hin Hh Hp. revert h He Hh. induction Hp as [|p packets Hp _ IH]; intros h He Hh.
  { exists h. split; [done|]. split; [constructor|done]. }
  cbn [redispatch_all]. unfold redispatch. destruct (Z.eqb_spec (zlen ws) 0) as [Hz|_].
  { destruct ws; [by apply not_elem_of_nil in Hin|]. rewrite zlen_cons in Hz. pose proof (zlen_nonneg ws). lia. }
  destruct Hp as (Hst & Hs & Hend). destruct (returns_slice (storage p) (range_start p) (range_end p)) as [wire Hw]; [lia..|].
  pose proof (slice_length _ _ _ _ Hw) as Hlen.
  unfold as_slice at 1. rewrite Hw. rbind.
  destruct (packet_class_total wire) as [class Hc]; [unfold valid_slice, isize_max, PACKET_CAPACITY in *; lia|]. rewrite Hc. rbind.
  destruct (place_placed h ws (mkDispatchTicket 0 class) p healthy_one (proj1 He class) Hin Hh) as (h1 & -> & Hpl). rbind.
  destruct (placed_ended h h1 ws w _ p Hpl He) as (He1 & Hf1 & Hk1).
  destruct (IH h1 He1) as (h2 & -> & Hpe & He2 & Hf2 & Hk2); [by unfold is_healthy in *; rewrite Hf1|].
  exists h2. split; [done|]. split; [by eapply placed_cons|]. split; [done|]. split; [congruence|].
  intros k Hk. by rewrite Hk2, Hk1.
Qed.

(** C16: when a session ends and another worker is healthy, every packet that
    still waits in the queues of the ended worker, those of its latency queue
    first, is appended to the queue of its class of a healthy worker: each
    exactly once and in order, none stays behind, and nothing panics. A packet
    is lost only where every healthy worker's queue of a class is full, and then
    it is the oldest of a shortest one. *)
Theorem hand_over_complete (h : @Store Q) ws w healthy_one :
  ended h ws w -> healthy_one ∈ ws -> is_healthy h healthy_one = true -> Forall buf_ok (waiting h w) ->
  exists h1 h2, drain_uplink h w = (waiting h w, h1) /\ hand_over h ws w = Ret h2
    /\ (forall k, k ∉ queues_of w -> queues h1 k = queues h k)
    /\ placed_each ws h1 (waiting h w) h2 /\ waiting h2 w = [] /\ flags h2 = flags h.
Proof.
  intros He Hin Hh Hp. unfold hand_over. destruct (drain_uplink_spec h ws w He) as (h1 & Hd & He1 & Hemp & Ho & Hf). rewrite Hd.
  destruct (redispatch_all_spec h1 ws w healthy_one (waiting h w) He1 Hin) as (h2 & Hr & Hpe & _ & Hf2 & Hk);
    [by unfold is_healthy in *; rewrite Hf|done|].
  exists h1, h2. split; [done|]. split; [done|]. split; [done|]. split; [done|]. split; [|congruence].
  rewrite <- Hemp. unfold waiting. f_equal. apply map_ext_in. intros k Hin'. by rewrite Hk by (by apply list_elem_of_In).
Qed.
End HandOver.

(** Two workers, of which the first has ended with a packet in each queue. *)
Definition left_behind (k : nat) : @PacketQueue ListQueue :=
  if decide (k < 3)%nat then fst (try_send (packet_channel 2 true) (mkPacketBuf blank 64 (64 + Z.of_nat k)))
  else packet_channel 1 true.
Definition ended_store : @Store ListQueue := mkStore left_behind (fun k => negb (k =? 0)%nat).
Definition two_workers : list WorkerChannels := [mkWorker 1 1 [97] 0 1 2 0; mkWorker 2 1 [98] 3 4 5 1].

Lemma hand_over_complete_witness :
  exists h1 h2, drain_uplink ended_store (mkWorker 1 1 [97] 0 1 2 0) = (waiting ended_store (mkWorker 1 1 [97] 0 1 2 0), h1)
    /\ placed_each two_workers h1 (waiting ended_store (mkWorker 1 1 [97] 0 1 2 0)) h2.
Proof.
  destruct (hand_over_complete ended_store two_workers (mkWorker 1 1 [97] 0 1 2 0) (mkWorker 2 1 [98] 3 4 5 1))
    as (h1 & h2 & Hd & _ & _ & Hp & _).
  - assert (forall k, is_Some (send_load (left_behind k)) /\ aq_ok (queue (left_behind k))) as Hk.
    { intros k. unfold left_behind. destruct (decide (k < 3)%nat) as [Hlt|]; [|split; [by eexists|split; vm_compute; try reflexivity; discriminate]].
      split; [by eexists|split; vm_compute; try reflexivity; discriminate]. }
    split; [intros class; repeat (apply List.Forall_cons; [intros _; apply Hk|]); apply List.Forall_nil|].
    split; [apply (bool_decide_unpack _); reflexivity|].
    split; [repeat (apply List.Forall_cons; [apply Hk|]); apply List.Forall_nil|].
    apply List.Forall_cons; [discriminate|]. apply List.Forall_cons; [|apply List.Forall_nil].
    intros _ class. by destruct class; apply (bool_decide_unpack _).
  - right. left.
  - reflexivity.
  - assert (waiting ended_store (mkWorker 1 1 [97] 0 1 2 0)
      = [mkPacketBuf blank 64 64; mkPacketBuf blank 64 65; mkPacketBuf blank 64 66]) as -> by reflexivity.
    repeat (apply List.Forall_cons; [split; [reflexivity|vm_compute; repeat split; discriminate]|]). apply List.Forall_nil.
  - by exists h1, h2.
Defined.

(** ** The relay *)

Definition session_end (effects : list RelayEffect) (r : result bool Error) (ready : bool) : SessionEnd :=
  mkSessionEnd r ready (started effects) (allocated effects).

Definition times_deallocated (effects : list RelayEffect) : nat :=
  length (List.filter (fun e => match e with Deallocated => true | _ => false end) effects).

(** Whatever the awaits of a session meet, its worker is told that the relay
    was asked, and of an allocation exactly when the connect gave one in time;
    an allocation that was obtained is given back exactly once, and none is
    given back that was not obtained, except that a session that ends because
    the network moved leaves its allocation to expire. *)
Lemma allocation_given_back connect bind task :
  let '(effects, r) := run_allocation connect bind task in
  started effects = true
  /\ (allocated effects = true <-> connect = Connected)
  /\ times_deallocated effects =
       match connect with
       | ConnectFailed _ | ConnectRebound => 0%nat
       | ConnectCancelled late => if late : bool then 1%nat else 0%nat
       | Connected =>
           match bind, await_session_task task with
           | Bound, Err e => if contains (display e) (ascii "NET_REBIND") then 0%nat else 1%nat
           | _, _ => 1%nat
           end
       end.
Proof.
  destruct connect as [|e|[|]|]; cbn [run_allocation]; [|by split; [|split]..].
  destruct bind as [|e|]; [|by split; [|split]..].
  destruct (await_session_task task) as [b|e]; [by split; [|split]|]. destruct (contains _ _); by split; [|split].
Qed.

(** ** The network epoch *)

Module Network.

(** The phases of a session: connecting with the epoch that it watches, binding
    its channel and asking for the configuration, where it watches none, and
    serving with the epoch that it read when that began. [sockets] is the epoch
    in which its sockets were made. *)
Inductive Phase : Type :=
| Connecting (watched : Z)
| Binding (sockets : Z)
| Shaking (sockets : Z)
| Serving (sockets watched : Z)
| Rebinding.

Record System : Type := mkSystem { network : Z; session : Phase; unseen : bool }.

(** [unseen] records that the network moved while nothing watched, or as the
    connect succeeded, whose result is looked at first. *)
Inductive net_step : System -> System -> Prop :=
| net_moves e p u : net_step (mkSystem e p u)
    (mkSystem (wrapping_add 64 e 1) p (match p with Binding _ | Shaking _ => true | _ => u end))
| net_connected e w u : net_step (mkSystem e (Connecting w) u) (mkSystem e (Binding w) (u || negb (e =? w)))
| net_abandoned e w u : e <> w -> net_step (mkSystem e (Connecting w) u) (mkSystem e Rebinding u)
| net_bound e s u : net_step (mkSystem e (Binding s) u) (mkSystem e (Shaking s) u)
| net_joined e s u : net_step (mkSystem e (Shaking s) u) (mkSystem e (Serving s e) u)
| net_rebound e s w u : e <> w -> net_step (mkSystem e (Serving s w) u) (mkSystem e Rebinding u).

Definition net_start (e : Z) : System := mkSystem e (Connecting e) false.

Definition watchful (s : System) : Prop :=
  unseen s = true \/
  match session s with
  | Binding sockets | Shaking sockets => sockets = network s
  | Serving sockets watched => sockets = watched
  | _ => True
  end.

Lemma net_step_watchful s s' : watchful s -> net_step s s' -> watchful s'.
Proof.
  unfold watchful. intros Hs Hstep.
  destruct Hstep as [e p u|e w u|e w u Hne|e sk u|e sk u|e sk w u Hne]; cbn [session unseen network] in *.
  - destruct Hs as [->|Hs]; [left; by destruct p|]. destruct p; auto.
  - destruct Hs as [->|_]; [by left|]. destruct (Z.eqb_spec e w) as [->|]; [by right|left; apply orb_true_r].
  - tauto.
  - tauto.
  - tauto.
  - tauto.
Qed.

(** A session whose network moved while it connected or served can always
    end for that, and unless the network moved while it bound its channel or
    asked for its configuration, a session that serves has the sockets of the
    network that it watches, so that none stays on a network that is gone. If
    the network did move in between, the session goes on to serve with the old
    sockets, and only another move of the network ends it for that. *)
Lemma network_watched e :
  (forall s, rtc net_step (net_start e) s -> unseen s = false ->
     match session s with
     | Connecting watched => network s <> watched -> net_step s (mkSystem (network s) Rebinding false)
     | Serving sockets watched =>
         sockets = watched /\ (network s <> sockets -> net_step s (mkSystem (network s) Rebinding false))
     | _ => True
     end)
  /\ (is_u 64 e -> exists s sockets, rtc net_step (net_start e) s /\ session s = Serving sockets (network s)
        /\ sockets <> network s /\ forall s', net_step s s' -> network s' <> network s).
Proof.
  split.
  - intros s Hr Hu. assert (watchful s) as Hw.
    { assert (watchful (net_start e)) as H0 by by right. revert H0. clear Hu. induction Hr; eauto using net_step_watchful. }
    unfold watchful in Hw. rewrite Hu in Hw. destruct Hw as [?|Hw]; [done|].
    destruct s as [n p u]. cbn [session unseen network] in *. subst u. destruct p; try done.
    + intros Hne. by apply net_abandoned.
    + subst. split; [done|]. intros Hne. by apply net_rebound.
  - intros He. assert (wrapping_add 64 e 1 <> e) as Hne by (apply wrapping_succ_neq; [lia|done]).
    eexists _, e. split.
    { eapply rtc_l; [apply net_connected|]. eapply rtc_l; [apply net_moves|].
      eapply rtc_l; [apply net_bound|]. eapply rtc_l; [apply net_joined|]. apply rtc_refl. }
    cbn [session network]. split; [done|]. split; [done|]. intros s' Hs. inversion Hs; subst; cbn [network]; [|done].
    apply wrapping_succ_neq; [lia|]. unfold wrapping_add, wrap, is_u. by apply Z.mod_pos_bound.
Qed.
End Network.
