(* ===== verification/Dns.v ===== *)
(** * Dns: the resolver of relay and peer names

    Models [dns.rs]: the query that is built for a name, the reading of an
    answer, the two servers that are asked, and the cache. Sockets and clocks
    are arguments, and so is the resolver of the system. *)

From Stdlib Require Import Strings.String.
From S2P Require Import Prelude Bytes Text.

Inductive IpAddr : Type := Ipv4 (octets : bytes) | Ipv6 (octets : bytes).
#[export] Instance ip_addr_eq_dec : EqDecision IpAddr.
Proof. solve_decision. Defined.

Definition DNS_A_RECORD : Z := 1.
Definition DNS_AAAA_RECORD : Z := 28.

(** ** The query *)

Inductive DnsError : Type :=
| InvalidName | InvalidLabel (label : bytes)
| TooShort | ForeignId | NoResponseFlag | NeedsTcp | Status (code : Z)
| BrokenQuestion | BrokenAnswer | BrokenRecord | BrokenName | BrokenPointer | IllegalName | NameOverflow | CutName | CutHeader.

Fixpoint push_labels (query : bytes) (labels : list bytes) : result bytes DnsError :=
  match labels with
  | [] => Ok query
  | label :: labels =>
      if (zlen label =? 0) || (63 <? zlen label) || negb (forallb (fun c => c <? 128) label) then Err (InvalidLabel label)
      else push_labels (query ++ [wrap 8 (zlen label)] ++ label) labels
  end.

Definition dot : Z := 0x2e.
(** [trim_end_matches('.')] *)
Definition trim_end_dots (host : bytes) : bytes := rev (trim_start_matches [dot] (rev host)).

(** A name is given by its UTF-8 bytes. *)
Definition build_query (host : bytes) (query_id record_type : Z) : result bytes DnsError :=
  let host := trim_end_dots host in
  if (zlen host =? 0) || (253 <? zlen host) then Err InvalidName else
  let query := to_be 2 query_id ++ to_be 2 0x0100 ++ to_be 2 1 ++ to_be 2 0 ++ to_be 2 0 ++ to_be 2 0 in
  match push_labels query (split dot host) with
  | Err e => Err e
  | Ok query => Ok (query ++ [0] ++ to_be 2 record_type ++ to_be 2 1)
  end.

(** ** The answer *)

Definition read_u16 (message : bytes) (offset : Z) : result Z DnsError :=
  match get_range message offset (offset + 2) with Some s => Ok (of_be s) | None => Err CutHeader end.

(** [checked_add(n).filter(|value| *value <= len)] *)
Definition advance (message : bytes) (offset n : Z) : option Z :=
  match checked_add 64 offset n with Some v => if v <=? zlen message then Some v else None | None => None end.

(** The loop of [skip_name]; a turn moves on by at least one byte, so one turn
    per byte is enough. *)
Fixpoint skip_name (fuel : nat) (message : bytes) (offset : Z) : result Z DnsError :=
  match fuel with
  | O => Err BrokenName
  | S fuel =>
      match message !! Z.to_nat offset with
      | None => Err BrokenName
      | Some length =>
          if Z.land length 0xc0 =? 0xc0 then
            match advance message offset 2 with Some v => Ok v | None => Err BrokenPointer end
          else if negb (Z.land length 0xc0 =? 0) then Err IllegalName else
          match checked_add 64 offset 1 with
          | None => Err NameOverflow
          | Some offset =>
              if length =? 0 then Ok offset else
              match advance message offset length with Some v => skip_name fuel message v | None => Err CutName end
          end
      end
  end.

Definition name_fuel (message : bytes) : nat := S (length message).

Fixpoint skip_questions (message : bytes) (questions : nat) (offset : Z) : result Z DnsError :=
  match questions with
  | O => Ok offset
  | S questions =>
      match skip_name (name_fuel message) message offset with
      | Err e => Err e
      | Ok offset =>
          match advance message offset 4 with
          | None => Err BrokenQuestion
          | Some offset => skip_questions message questions offset
          end
      end
  end.

Definition push_new (address : IpAddr) (addresses : list IpAddr) : list IpAddr :=
  if bool_decide (address ∈ addresses) then addresses else addresses ++ [address].

(** The head of a record: its type, class, data and what follows. *)
Definition read_record (message : bytes) (offset : Z) : result (Z * Z * Z * Z) DnsError :=
  match read_u16 message offset, read_u16 message (offset + 2), read_u16 message (offset + 8) with
  | Ok record_type, Ok record_class, Ok data_length =>
      match advance message offset 10 with
      | None => Err BrokenAnswer
      | Some data_offset =>
          match advance message data_offset data_length with
          | None => Err BrokenRecord
          | Some next_offset => Ok (record_type, record_class, data_offset, next_offset)
          end
      end
  | Err e, _, _ | _, Err e, _ | _, _, Err e => Err e
  end.

(** What a record adds; indexing and [copy_from_slice] would panic. *)
Definition read_address (message : bytes) (record_type record_class data_offset next_offset : Z) (addresses : list IpAddr)
    : res (list IpAddr) :=
  let data_length := next_offset - data_offset in
  addresses ←
    (if (record_class =? 1) && (record_type =? DNS_A_RECORD) && (data_length =? 4) then
       a ← index message data_offset;
       b ← index message (data_offset + 1);
       c ← index message (data_offset + 2);
       d ← index message (data_offset + 3);
       mret (push_new (Ipv4 [a; b; c; d]) addresses)
     else Ret addresses);
  if (record_class =? 1) && (record_type =? DNS_AAAA_RECORD) && (data_length =? 16) then
    octets ← slice message data_offset next_offset;
    octets ← blit (replicate 16 0) 0 octets;
    mret (push_new (Ipv6 octets) addresses)
  else Ret addresses.

Fixpoint read_answers (message : bytes) (answers : nat) (offset : Z) (addresses : list IpAddr)
    : res (result (list IpAddr) DnsError) :=
  match answers with
  | O => Ret (Ok addresses)
  | S answers =>
      match skip_name (name_fuel message) message offset with
      | Err e => Ret (Err e)
      | Ok offset =>
          match read_record message offset with
          | Err e => Ret (Err e)
          | Ok (record_type, record_class, data_offset, next_offset) =>
              addresses ← read_address message record_type record_class data_offset next_offset addresses;
              read_answers message answers next_offset addresses
          end
      end
  end.

Definition read_body (response : bytes) : res (result (list IpAddr) DnsError) :=
  match read_u16 response 4, read_u16 response 6 with
  | Ok questions, Ok answers =>
      match skip_questions response (Z.to_nat questions) 12 with
      | Err e => Ret (Err e)
      | Ok offset => read_answers response (Z.to_nat answers) offset []
      end
  | Err e, _ | _, Err e => Ret (Err e)
  end.

Definition parse_response (response : bytes) (query_id : Z) : res (result (list IpAddr) DnsError) :=
  if zlen response <? 12 then Ret (Err TooShort) else
  match read_u16 response 0, read_u16 response 2 with
  | Ok id, Ok flags =>
      if negb (id =? query_id) then Ret (Err ForeignId) else
      if Z.land flags 0x8000 =? 0 then Ret (Err NoResponseFlag) else
      if negb (Z.land flags 0x0200 =? 0) then Ret (Err NeedsTcp) else
      let status := Z.land flags 0x000f in
      if negb (status =? 0) then Ret (Err (Status status)) else read_body response
  | Err e, _ | _, Err e => Ret (Err e)
  end.

Example compressed_answer :
  parse_response
    [0x12; 0x34; 0x81; 0x80; 0; 1; 0; 1; 0; 0; 0; 0; 2; 0x76; 0x6b; 2; 0x72; 0x75; 0; 0; 1; 0; 1; 0xc0; 0x0c; 0; 1; 0; 1;
     0; 0; 0; 0x3c; 0; 4; 77; 88; 8; 8] 0x1234 = Ret (Ok [Ipv4 [77; 88; 8; 8]]).
Proof. reflexivity. Qed.

(** ** What an answer is *)

(** A name: labels, ended by a zero or by a pointer. *)
Inductive encoded_name : bytes -> Prop :=
| name_end : encoded_name [0]
| name_pointer a b : 0xc0 <= a -> encoded_name [a; b]
| name_label label rest : 0 < zlen label < 64 -> encoded_name rest -> encoded_name (zlen label :: label ++ rest).

Record Rr : Type := mkRr { owner : bytes; rr_type : Z; rr_class : Z; rr_ttl : bytes; rdata : bytes }.

Definition rr_ok (r : Rr) : Prop :=
  encoded_name (owner r) /\ is_u 16 (rr_type r) /\ is_u 16 (rr_class r) /\ zlen (rr_ttl r) = 4 /\ is_u 16 (zlen (rdata r)).

Definition record_head (r : Rr) : bytes := to_be 2 (rr_type r) ++ to_be 2 (rr_class r) ++ rr_ttl r ++ to_be 2 (zlen (rdata r)).
Definition encode_rr (r : Rr) : bytes := owner r ++ record_head r ++ rdata r.

Definition rr_address (r : Rr) : option IpAddr :=
  if negb (rr_class r =? 1) then None
  else if (rr_type r =? DNS_A_RECORD) && (zlen (rdata r) =? 4) then Some (Ipv4 (rdata r))
  else if (rr_type r =? DNS_AAAA_RECORD) && (zlen (rdata r) =? 16) then Some (Ipv6 (rdata r))
  else None.

Definition collect (addresses : list IpAddr) (records : list Rr) : list IpAddr :=
  fold_left (fun acc r => match rr_address r with Some a => push_new a acc | None => acc end) records addresses.

(** The question of a response: a name and four bytes. *)
Definition encode_question (q : bytes * bytes) : bytes := fst q ++ snd q.
Definition question_ok (q : bytes * bytes) : Prop := encoded_name (fst q) /\ zlen (snd q) = 4.

(** A response that is accepted: no error, not truncated, with the questions
    and answers that it counts. *)
Definition response_of (response : bytes) (query_id : Z) (questions : list (bytes * bytes)) (records : list Rr) : Prop :=
  exists flags counts rest,
    response = to_be 2 query_id ++ to_be 2 flags ++ to_be 2 (zlen questions) ++ to_be 2 (zlen records) ++ counts
               ++ concat (map encode_question questions) ++ concat (map encode_rr records) ++ rest
    /\ is_u 16 query_id /\ is_u 16 flags /\ zlen counts = 4 /\ is_u 16 (zlen questions) /\ is_u 16 (zlen records)
    /\ Z.land flags 0x8000 <> 0 /\ Z.land flags 0x0200 = 0 /\ Z.land flags 0x000f = 0
    /\ Forall question_ok questions /\ Forall rr_ok records.

(** ** Reading at an offset *)

Lemma byte_check (f : Z -> bool) b : forallb f (seqZ 0 256) = true -> is_byte b -> f b = true.
Proof. rewrite forallb_forall. intros Hf Hb. apply Hf, list_elem_of_In, elem_of_seqZ. done. Qed.

Lemma label_kinds b :
  is_byte b -> (Z.land b 0xc0 =? 0xc0) = (0xc0 <=? b) /\ (Z.land b 0xc0 =? 0) = (b <? 64).
Proof.
  intros Hb.
  pose proof (byte_check (fun b => eqb (Z.land b 0xc0 =? 0xc0) (0xc0 <=? b) && eqb (Z.land b 0xc0 =? 0) (b <? 64)) b eq_refl Hb) as H.
  apply andb_true_iff in H as [H1 H2]. by apply eqb_prop in H1, H2.
Qed.

Lemma lookup_here (pre rest : bytes) : (pre ++ rest) !! Z.to_nat (zlen pre) = head rest.
Proof. unfold zlen. rewrite Nat2Z.id, lookup_app_r, Nat.sub_diag by lia. by destruct rest. Qed.

Lemma get_range_here (pre x rest : bytes) n :
  n = zlen x -> get_range (pre ++ x ++ rest) (zlen pre) (zlen pre + n) = Some x.
Proof. intros ->. apply slice_inv, slice_app_mid; done. Qed.

Lemma get_range_here_inv (pre rest s : bytes) n :
  0 <= n -> get_range (pre ++ rest) (zlen pre) (zlen pre + n) = Some s -> exists r, rest = s ++ r /\ zlen s = n.
Proof.
  intros Hn Hg. pose proof (get_range_length _ _ _ _ Hg) as Hl. apply get_range_inv in Hg as (_ & _ & _ & ->).
  exists (drop (Z.to_nat n) rest). split; [|lia]. unfold zlen. rewrite Nat2Z.id, drop_app_length.
  replace (Z.of_nat (length pre) + n - Z.of_nat (length pre)) with n by lia. by rewrite take_drop.
Qed.

Lemma advance_here pre rest n :
  valid_slice (pre ++ rest) -> 0 <= n ->
  advance (pre ++ rest) (zlen pre) n = if n <=? zlen rest then Some (zlen pre + n) else None.
Proof.
  unfold valid_slice, isize_max, advance, checked_add. rewrite zlen_app. intros Hv Hn. pose proof (zlen_nonneg pre).
  pose proof (zlen_nonneg rest).
  destruct (Z.ltb_spec (zlen pre + n) (2 ^ 64)); [|by destruct (Z.leb_spec n (zlen rest)); [lia|]].
  destruct (Z.leb_spec (zlen pre + n) (zlen pre + zlen rest)), (Z.leb_spec n (zlen rest)); done || lia.
Qed.

Lemma read_u16_here pre z rest : is_u 16 z -> read_u16 (pre ++ to_be 2 z ++ rest) (zlen pre) = Ok z.
Proof.
  intros Hz. unfold read_u16. rewrite get_range_here by done. f_equal. apply of_be_to_be_small. by unfold is_u in Hz.
Qed.

Lemma read_u16_inv pre rest z :
  is_bytes rest -> read_u16 (pre ++ rest) (zlen pre) = Ok z -> exists r, rest = to_be 2 z ++ r /\ is_u 16 z.
Proof.
  intros Hb. unfold read_u16. destruct (get_range _ _ _) as [s|] eqn:Hg; [|done]. intros [= <-].
  apply get_range_here_inv in Hg as (r & -> & Hl); [|lia]. apply is_bytes_app in Hb as [Hs _].
  exists r. rewrite to_be_of_be_n by done. split; [done|]. pose proof (of_be_bound s Hs) as Hbd. rewrite Hl in Hbd. done.
Qed.

(** ** Names *)

Lemma skip_name_complete name :
  encoded_name name -> is_bytes name -> forall fuel pre rest,
  (length name <= fuel)%nat -> valid_slice (pre ++ name ++ rest) ->
  skip_name fuel (pre ++ name ++ rest) (zlen pre) = Ok (zlen pre + zlen name).
Proof.
  induction 1 as [|a b Ha|label name Hl Hn IH]; intros Hb [|fuel] pre rest Hf Hv; cbn [length] in Hf; try lia;
    cbn [skip_name]; rewrite lookup_here; cbn [head app].
  - change (Z.land 0 0xc0 =? 0xc0) with false. change (Z.land 0 0xc0 =? 0) with true. cbv iota. cbn [negb].
    unfold checked_add. unfold valid_slice, isize_max in Hv. rewrite zlen_app in Hv. pose proof (zlen_nonneg ([0] ++ rest)).
    destruct (Z.ltb_spec (zlen pre + 1) (2 ^ 64)); [done|lia].
  - apply Forall_cons in Hb as [Hba _]. destruct (label_kinds a Hba) as [-> _]. destruct (Z.leb_spec 0xc0 a); [|lia].
    rewrite (advance_here pre ([a; b] ++ rest)) by done || lia. rewrite zlen_app.
    change (zlen [a; b]) with 2. pose proof (zlen_nonneg rest). destruct (Z.leb_spec 2 (2 + zlen rest)); [done|lia].
  - assert (is_byte (zlen label)) as Hbl by (unfold is_byte; lia). destruct (label_kinds _ Hbl) as [-> ->].
    destruct (Z.leb_spec 0xc0 (zlen label)); [lia|]. destruct (Z.ltb_spec (zlen label) 64); [|lia]. cbn [negb].
    unfold checked_add. pose proof (zlen_nonneg pre). pose proof (zlen_nonneg name). pose proof (zlen_nonneg rest).
    assert (zlen pre + (1 + zlen label + zlen name + zlen rest) <= isize_max) as Hv'.
    { unfold valid_slice in Hv. rewrite !zlen_app, zlen_cons, zlen_app in Hv. lia. }
    unfold isize_max in Hv'. destruct (Z.ltb_spec (zlen pre + 1) (2 ^ 64)); [|lia].
    destruct (Z.eqb_spec (zlen label) 0); [lia|].
    assert (pre ++ zlen label :: (label ++ name) ++ rest = (pre ++ [zlen label]) ++ label ++ name ++ rest) as ->.
    { by rewrite <- !app_assoc. }
    assert (zlen pre + 1 = zlen (pre ++ [zlen label])) as -> by (by rewrite zlen_snoc).
    rewrite advance_here; [|unfold valid_slice, isize_max; rewrite !zlen_app; change (zlen [zlen label]) with 1; lia|lia].
    rewrite zlen_app. destruct (Z.leb_spec (zlen label) (zlen label + zlen (name ++ rest))) as [_|Hbad];
      [|pose proof (zlen_nonneg (name ++ rest)); lia].
    rewrite (app_assoc _ label), <- zlen_app. apply Forall_cons in Hb as [_ Hb]. apply is_bytes_app in Hb as [_ Hb].
    rewrite IH; [|done|rewrite length_app in Hf; lia|unfold valid_slice, isize_max; rewrite !zlen_app; change (zlen [zlen label]) with 1; lia].
    f_equal. rewrite !zlen_app, !zlen_cons, zlen_app, zlen_nil. lia.
Qed.

Lemma skip_name_inv fuel : forall pre rest o,
  is_bytes rest -> valid_slice (pre ++ rest) -> skip_name fuel (pre ++ rest) (zlen pre) = Ok o ->
  exists name r, rest = name ++ r /\ encoded_name name /\ o = zlen (pre ++ name).
Proof.
  induction fuel as [|fuel IH]; intros pre rest o Hb Hv; cbn [skip_name]; [done|]. rewrite lookup_here.
  destruct rest as [|a rest]; cbn [head]; [done|]. pose proof Hb as [Hba Hbr]%Forall_cons.
  destruct (label_kinds a Hba) as [-> ->]. destruct (Z.leb_spec 0xc0 a) as [Ha|_].
  { rewrite advance_here by done || lia. rewrite zlen_cons. destruct (Z.leb_spec 2 (1 + zlen rest)); [|done].
    intros [= <-]. destruct rest as [|b rest]; [rewrite zlen_nil in *; lia|].
    exists [a; b], rest. split; [done|]. split; [by apply name_pointer|]. by rewrite zlen_app. }
  destruct (Z.ltb_spec a 64) as [Ha|]; cbn [negb]; [|done].
  destruct (checked_add 64 (zlen pre) 1) as [o1|] eqn:Ho1; [|done]. apply checked_add_Some in Ho1 as [-> _].
  destruct (Z.eqb_spec a 0) as [->|Hn].
  { intros [= <-]. exists [0], rest. split; [done|]. split; [constructor|]. by rewrite zlen_snoc. }
  assert (pre ++ a :: rest = (pre ++ [a]) ++ rest) as Heq by (by rewrite <- app_assoc). rewrite Heq in *.
  rewrite <- (zlen_snoc pre a). unfold is_byte in Hba. rewrite advance_here by done || lia.
  destruct (Z.leb_spec a (zlen rest)) as [Hfit|]; [|done].
  destruct (split_at_z rest a) as (label & r & -> & Hl); [lia|]. subst a. rewrite <- zlen_app, (app_assoc _ label).
  intros Hs. apply IH in Hs as (name & r' & -> & Hn' & ->); [|by apply is_bytes_app in Hbr as [_ ?]|by rewrite <- (app_assoc _ label)].
  exists (zlen label :: label ++ name), r'. split; [by rewrite app_comm_cons, app_assoc|]. split; [apply name_label; [lia|done]|].
  f_equal. by rewrite <- !app_assoc.
Qed.

(** ** Questions and records *)

Lemma fuel_enough (pre name rest : bytes) : (length name <= name_fuel (pre ++ name ++ rest))%nat.
Proof. unfold name_fuel. rewrite !length_app. lia. Qed.

Lemma skip_questions_complete questions : forall pre rest,
  is_bytes (concat (map encode_question questions)) -> Forall question_ok questions ->
  valid_slice (pre ++ concat (map encode_question questions) ++ rest) ->
  skip_questions (pre ++ concat (map encode_question questions) ++ rest) (length questions) (zlen pre)
  = Ok (zlen (pre ++ concat (map encode_question questions))).
Proof.
  induction questions as [|[name kind] questions IH]; intros pre rest Hb Hq Hv; cbn [map concat length skip_questions] in *.
  { by rewrite app_nil_r. }
  apply Forall_cons in Hq as [[Hn Hk] Hq]. cbn [fst snd] in *.
  change (encode_question (name, kind)) with (name ++ kind) in *. rewrite !is_bytes_app in Hb. destruct Hb as [[Hbn _] Hb].
  rewrite <- !app_assoc in *. rewrite skip_name_complete by (done || apply fuel_enough).
  rewrite (app_assoc pre), <- zlen_app in *. rewrite advance_here by done || lia.
  rewrite zlen_app, Hk. pose proof (zlen_nonneg (concat (map encode_question questions) ++ rest)) as Hpos.
  destruct (Z.leb_spec 4 (4 + zlen (concat (map encode_question questions) ++ rest))); [|lia].
  rewrite <- Hk, <- zlen_app, (app_assoc _ kind) in *. rewrite IH by done. by rewrite <- !app_assoc.
Qed.

Lemma skip_questions_inv k : forall pre rest o,
  is_bytes rest -> valid_slice (pre ++ rest) -> skip_questions (pre ++ rest) k (zlen pre) = Ok o ->
  exists questions r, rest = concat (map encode_question questions) ++ r /\ length questions = k
    /\ Forall question_ok questions /\ o = zlen (pre ++ concat (map encode_question questions)).
Proof.
  induction k as [|k IH]; intros pre rest o Hb Hv; cbn [skip_questions].
  { intros [= <-]. exists [], rest. rewrite app_nil_r. by repeat split. }
  destruct (skip_name _ _ _) as [o1|e] eqn:Hs; [|done].
  apply skip_name_inv in Hs as (name & r1 & -> & Hn & ->); [|done..]. rewrite (app_assoc pre) in *.
  rewrite advance_here by done || lia. apply is_bytes_app in Hb as [_ Hb]. destruct (Z.leb_spec 4 (zlen r1)) as [Hfit|]; [|done].
  destruct (split_at_z r1 4) as (kind & r2 & -> & Hk); [lia|]. rewrite <- Hk, <- zlen_app, (app_assoc _ kind) in *.
  apply is_bytes_app in Hb as [_ Hb]. intros (qs & r & -> & Hl & Hqs & ->)%IH; [|done..].
  exists ((name, kind) :: qs), r. cbn [map concat length].
  change (encode_question (name, kind)) with (name ++ kind). rewrite <- !app_assoc.
  split; [done|]. split; [by f_equal|]. split; [by constructor|done].
Qed.

Lemma record_head_length r : zlen (rr_ttl r) = 4 -> zlen (record_head r) = 10.
Proof. intros Ht. unfold record_head. by rewrite !zlen_app, !zlen_to_be, Ht. Qed.

Lemma record_head_reads pre r rest :
  rr_ok r ->
  read_u16 (pre ++ record_head r ++ rest) (zlen pre) = Ok (rr_type r)
  /\ read_u16 (pre ++ record_head r ++ rest) (zlen pre + 2) = Ok (rr_class r)
  /\ read_u16 (pre ++ record_head r ++ rest) (zlen pre + 8) = Ok (zlen (rdata r)).
Proof.
  intros (_ & Ht & Hc & Httl & Hd). unfold record_head. rewrite <- !app_assoc.
  split; [by apply read_u16_here|]. rewrite (app_assoc pre).
  replace (zlen pre + 2) with (zlen (pre ++ to_be 2 (rr_type r))) by (by rewrite zlen_app, zlen_to_be).
  split; [by apply read_u16_here|]. rewrite (app_assoc _ (to_be 2 (rr_class r))), (app_assoc _ (rr_ttl r)).
  replace (zlen pre + 8) with (zlen (((pre ++ to_be 2 (rr_type r)) ++ to_be 2 (rr_class r)) ++ rr_ttl r))
    by (rewrite !zlen_app, !zlen_to_be, Httl; lia).
  by apply read_u16_here.
Qed.

Lemma read_record_complete pre r rest :
  rr_ok r -> valid_slice (pre ++ record_head r ++ rdata r ++ rest) ->
  read_record (pre ++ record_head r ++ rdata r ++ rest) (zlen pre)
  = Ok (rr_type r, rr_class r, zlen (pre ++ record_head r), zlen (pre ++ record_head r ++ rdata r)).
Proof.
  intros Hr Hv. unfold read_record. destruct (record_head_reads pre r (rdata r ++ rest) Hr) as (-> & -> & ->).
  destruct Hr as (_ & _ & _ & Httl & Hd). pose proof (record_head_length r Httl) as Hhead.
  rewrite advance_here, zlen_app, Hhead by done || lia. pose proof (zlen_nonneg (rdata r ++ rest)).
  destruct (Z.leb_spec 10 (10 + zlen (rdata r ++ rest))); [|lia].
  rewrite (app_assoc pre) in Hv |- *. replace (zlen pre + 10) with (zlen (pre ++ record_head r)) by (rewrite zlen_app; lia).
  rewrite advance_here by (done || unfold is_u in Hd; lia). rewrite (zlen_app (rdata r)). pose proof (zlen_nonneg rest).
  destruct (Z.leb_spec (zlen (rdata r)) (zlen (rdata r) + zlen rest)); [|lia].
  by rewrite <- zlen_app, <- app_assoc.
Qed.

Lemma read_record_inv pre rest t c d n :
  is_bytes rest -> valid_slice (pre ++ rest) -> read_record (pre ++ rest) (zlen pre) = Ok (t, c, d, n) ->
  exists ttl data r, rest = record_head (mkRr [] t c ttl data) ++ data ++ r /\ is_u 16 t /\ is_u 16 c /\ zlen ttl = 4
    /\ is_u 16 (zlen data).
Proof.
  intros Hb Hv. unfold read_record. destruct (read_u16 _ (zlen pre)) as [t'|] eqn:Ht; [|done].
  destruct (read_u16 _ (zlen pre + 2)) as [c'|] eqn:Hc; [|done]. destruct (read_u16 _ (zlen pre + 8)) as [l|] eqn:Hl; [|done].
  rewrite advance_here by done || lia. destruct (Z.leb_spec 10 (zlen rest)) as [Hfit|]; [|done].
  apply read_u16_inv in Ht as (r1 & -> & Hu1); [|done]. apply is_bytes_app in Hb as [_ Hb].
  rewrite (app_assoc pre) in *. replace (zlen pre + 2) with (zlen (pre ++ to_be 2 t')) in Hc by (by rewrite zlen_app, zlen_to_be).
  apply read_u16_inv in Hc as (r2 & -> & Hu2); [|done]. apply is_bytes_app in Hb as [_ Hb]. rewrite (app_assoc _ (to_be 2 c')) in *.
  rewrite !zlen_app, !zlen_to_be in Hfit. destruct (split_at_z r2 4) as (ttl & r3 & -> & Httl); [lia|].
  apply is_bytes_app in Hb as [_ Hb]. rewrite (app_assoc _ ttl) in *.
  replace (zlen pre + 8) with (zlen (((pre ++ to_be 2 t') ++ to_be 2 c') ++ ttl)) in Hl by (rewrite !zlen_app, !zlen_to_be, Httl; lia).
  apply read_u16_inv in Hl as (r4 & -> & Hu3); [|done]. apply is_bytes_app in Hb as [_ Hb]. rewrite (app_assoc _ (to_be 2 l)) in *.
  replace (zlen pre + 10) with (zlen ((((pre ++ to_be 2 t') ++ to_be 2 c') ++ ttl) ++ to_be 2 l))
    by (rewrite !zlen_app, !zlen_to_be, Httl; lia).
  rewrite advance_here by (done || unfold is_u in Hu3; lia). destruct (Z.leb_spec l (zlen r4)) as [Hd|]; [|done].
  intros [= <- <- _ _]. unfold is_u in Hu3. destruct (split_at_z r4 l) as (data & r & -> & Hdl); [lia|].
  exists ttl, data, r. unfold record_head. cbn [rr_type rr_class rr_ttl rdata]. rewrite Hdl, <- !app_assoc. by conjs.
Qed.

Lemma read_address_spec pre data rest t c o l acc :
  read_address (pre ++ data ++ rest) t c (zlen pre) (zlen (pre ++ data)) acc
  = Ret (match rr_address (mkRr o t c l data) with Some a => push_new a acc | None => acc end).
Proof.
  unfold read_address, rr_address. cbn [rr_class rr_type rdata]. rewrite zlen_app.
  replace (zlen pre + zlen data - zlen pre) with (zlen data) by lia.
  destruct (c =? 1); cbn [negb andb]; [|by rbind].
  destruct (Z.eqb_spec t DNS_A_RECORD) as [->|Ht]; cbn [andb].
  - change (DNS_A_RECORD =? DNS_AAAA_RECORD) with false. cbn [andb].
    destruct (Z.eqb_spec (zlen data) 4) as [H4|]; [|by rbind].
    destruct data as [|x1 [|x2 [|x3 [|x4 [|x5 data]]]]]; try (unfold zlen in H4; cbn [length] in H4; lia).
    pose proof (index_inside pre [x1; x2; x3; x4] rest) as Hi. rewrite <- (Z.add_0_r (zlen pre)) at 1.
    rewrite !Hi by (cbn; lia). by rbind.
  - destruct (Z.eqb_spec t DNS_AAAA_RECORD) as [->|]; cbn [andb]; [|by rbind].
    destruct (Z.eqb_spec (zlen data) 16) as [H16|]; [|by rbind]. rbind.
    rewrite slice_app_mid by lia. rbind.
    assert (blit (replicate 16 0) 0 data = Ret data) as ->; [|by rbind].
    pose proof (blit_app [] (replicate 16 0) [] 0 data eq_refl H16) as Hb. by rewrite !app_nil_r in Hb.
Qed.

Lemma read_answers_complete records : forall pre rest acc,
  is_bytes (concat (map encode_rr records)) -> Forall rr_ok records ->
  valid_slice (pre ++ concat (map encode_rr records) ++ rest) ->
  read_answers (pre ++ concat (map encode_rr records) ++ rest) (length records) (zlen pre) acc = Ret (Ok (collect acc records)).
Proof.
  induction records as [|r records IH]; intros pre rest acc Hb Hr Hv; cbn [map concat length read_answers] in *; [done|].
  apply Forall_cons in Hr as [Hr Hrs]. unfold encode_rr at 1 in Hb. unfold encode_rr at 1 in Hv. unfold encode_rr at 1.
  rewrite !is_bytes_app in Hb. destruct Hb as [(Hbn & _) Hb]. rewrite <- !app_assoc in *.
  assert (encode_rr r ++ concat (map encode_rr records) ++ rest
          = owner r ++ record_head r ++ rdata r ++ concat (map encode_rr records) ++ rest) as -> by (unfold encode_rr; by rewrite <- !app_assoc).
  rewrite skip_name_complete by (done || apply fuel_enough || apply Hr). rewrite (app_assoc pre), <- zlen_app in *.
  rewrite read_record_complete by done. cbv iota. rewrite (app_assoc (pre ++ owner r)), (app_assoc _ (record_head r)) in *.
  rewrite (read_address_spec _ _ _ _ _ (owner r) (rr_ttl r)). rbind.
  rewrite (app_assoc _ (rdata r)) in *. rewrite IH by done. destruct r. by cbn [rr_type rr_class rdata owner rr_ttl].
Qed.

Lemma read_answers_inv k : forall pre rest acc,
  is_bytes rest -> valid_slice (pre ++ rest) ->
  exists out, read_answers (pre ++ rest) k (zlen pre) acc = Ret out /\
    forall l, out = Ok l ->
      exists records r, rest = concat (map encode_rr records) ++ r /\ length records = k /\ Forall rr_ok records
        /\ l = collect acc records.
Proof.
  induction k as [|k IH]; intros pre rest acc Hb Hv; cbn [read_answers].
  { eexists. split; [reflexivity|]. intros l [= <-]. by exists [], rest. }
  destruct (skip_name _ _ _) as [o|e] eqn:Hs; [|by eexists; split].
  apply skip_name_inv in Hs as (name & r1 & -> & Hn & ->); [|done..]. rewrite (app_assoc pre) in *.
  apply is_bytes_app in Hb as [_ Hb]. destruct (read_record _ _) as [[[[t c] d] n]|e] eqn:Hr; [|by eexists; split].
  pose proof (read_record_inv _ _ _ _ _ _ Hb Hv Hr) as (ttl & data & r & -> & Ht & Hc & Httl & Hd).
  assert (rr_ok (mkRr name t c ttl data)) as Hok by by conjs.
  change (record_head (mkRr [] t c ttl data)) with (record_head (mkRr name t c ttl data)) in *.
  pose proof (read_record_complete (pre ++ name) (mkRr name t c ttl data) r Hok Hv) as Hr'. cbn [rdata rr_type rr_class] in Hr'.
  rewrite Hr in Hr'.
  assert (d = zlen ((pre ++ name) ++ record_head (mkRr name t c ttl data))) as -> by congruence.
  assert (n = zlen ((pre ++ name) ++ record_head (mkRr name t c ttl data) ++ data)) as -> by congruence. clear Hr Hr'.
  rewrite !is_bytes_app in Hb. destruct Hb as (_ & _ & Hb).
  rewrite (app_assoc (pre ++ name)) in *. rewrite (app_assoc _ data) in Hv.
  rewrite (app_assoc (pre ++ name) _ data), (read_address_spec _ _ _ _ _ name ttl). rbind. rewrite (app_assoc _ data).
  destruct (IH ((((pre ++ name) ++ record_head (mkRr name t c ttl data)) ++ data)) r
    (match rr_address (mkRr name t c ttl data) with Some a => push_new a acc | None => acc end) Hb Hv) as (out & Ho & Hinv).
  rewrite <- (app_assoc (pre ++ name)) in Ho |- *. rewrite Ho.
  exists out. split; [done|]. intros l (records & r' & -> & <- & Hrs & ->)%Hinv.
  exists (mkRr name t c ttl data :: records), r'. cbn [map concat length]. unfold encode_rr at 2. cbn [owner rdata].
  rewrite <- !app_assoc. by conjs; [..|constructor|].
Qed.

(** ** The response *)

Lemma read_prefix_u16 (pre rest : bytes) o z : o = zlen pre -> is_u 16 z -> read_u16 (pre ++ to_be 2 z ++ rest) o = Ok z.
Proof. intros ->. apply read_u16_here. Qed.

Lemma dns_header_split (response : bytes) :
  is_bytes response -> 12 <= zlen response ->
  exists id flags questions answers counts rest,
    response = to_be 2 id ++ to_be 2 flags ++ to_be 2 questions ++ to_be 2 answers ++ counts ++ rest
    /\ is_u 16 id /\ is_u 16 flags /\ is_u 16 questions /\ is_u 16 answers /\ zlen counts = 4 /\ is_bytes rest.
Proof.
  intros Hb Hl.
  assert (forall p : bytes, is_bytes p -> 2 <= zlen p -> exists z r, p = to_be 2 z ++ r /\ is_u 16 z /\ is_bytes r) as Htake.
  { intros p Hp Hlp. destruct (split_at_z p 2) as (a & r & -> & Ha); [lia|]. apply is_bytes_app in Hp as [Hpa Hpr].
    exists (of_be a), r. rewrite to_be_of_be_n by done. split; [done|]. split; [|done].
    pose proof (of_be_bound a Hpa) as Hbd. by rewrite Ha in Hbd. }
  destruct (Htake response Hb) as (id & r1 & -> & H1 & Hr1); [lia|]. rewrite zlen_app, zlen_to_be in Hl.
  destruct (Htake r1 Hr1) as (flags & r2 & -> & H2 & Hr2); [lia|]. rewrite zlen_app, zlen_to_be in Hl.
  destruct (Htake r2 Hr2) as (questions & r3 & -> & H3 & Hr3); [lia|]. rewrite zlen_app, zlen_to_be in Hl.
  destruct (Htake r3 Hr3) as (answers & r4 & -> & H4 & Hr4); [lia|]. rewrite zlen_app, zlen_to_be in Hl.
  destruct (split_at_z r4 4) as (counts & rest & -> & Hc); [lia|]. apply is_bytes_app in Hr4 as [_ Hr].
  by exists id, flags, questions, answers, counts, rest.
Qed.

Section Header.
Variables (id flags questions answers : Z) (counts rest : bytes).
Hypotheses (Hid : is_u 16 id) (Hflags : is_u 16 flags) (Hq : is_u 16 questions) (Ha : is_u 16 answers) (Hc : zlen counts = 4).

Definition header : bytes := to_be 2 id ++ to_be 2 flags ++ to_be 2 questions ++ to_be 2 answers ++ counts.

Lemma header_length : zlen header = 12.
Proof. unfold header. by rewrite !zlen_app, !zlen_to_be, Hc. Qed.

Lemma header_fields :
  read_u16 (header ++ rest) 0 = Ok id /\ read_u16 (header ++ rest) 2 = Ok flags
  /\ read_u16 (header ++ rest) 4 = Ok questions /\ read_u16 (header ++ rest) 6 = Ok answers.
Proof.
  unfold header. rewrite <- !app_assoc. split; [by apply (read_prefix_u16 [])|].
  split; [by apply read_prefix_u16|]. rewrite (app_assoc (to_be 2 id)).
  split; [by apply read_prefix_u16; rewrite ?zlen_app, ?zlen_to_be|]. rewrite (app_assoc _ (to_be 2 questions)).
  by apply read_prefix_u16; rewrite ?zlen_app, ?zlen_to_be.
Qed.

Lemma parse_header query_id :
  parse_response (header ++ rest) query_id =
    if negb (id =? query_id) then Ret (Err ForeignId) else
    if Z.land flags 0x8000 =? 0 then Ret (Err NoResponseFlag) else
    if negb (Z.land flags 0x0200 =? 0) then Ret (Err NeedsTcp) else
    if negb (Z.land flags 0x000f =? 0) then Ret (Err (Status (Z.land flags 0x000f))) else
    match skip_questions (header ++ rest) (Z.to_nat questions) (zlen header) with
    | Err e => Ret (Err e)
    | Ok offset => read_answers (header ++ rest) (Z.to_nat answers) offset []
    end.
Proof.
  unfold parse_response, read_body. rewrite zlen_app, header_length. pose proof (zlen_nonneg rest).
  destruct (Z.ltb_spec (12 + zlen rest) 12); [lia|]. by destruct header_fields as (-> & -> & -> & ->).
Qed.
End Header.

(** C24: whatever arrives from the network, reading a DNS response never panics;
    it is accepted exactly when it is a response to the query with its
    identifier, neither truncated nor an error, whose questions and answer
    records are all there, and then it gives the addresses of its IN A and AAAA
    records, each once and in order. *)
Theorem parse_response_exact response query_id :
  is_bytes response -> valid_slice response ->
  exists out, parse_response response query_id = Ret out /\
    forall l, out = Ok l <->
      exists questions records, response_of response query_id questions records /\ l = collect [] records.
Proof.
  intros Hb Hv. destruct (Z.ltb_spec (zlen response) 12) as [Hshort|Hlong].
  { exists (Err TooShort). split; [unfold parse_response; by destruct (Z.ltb_spec (zlen response) 12); [|lia]|].
    intros l. split; [done|]. intros (qs & rrs & (flags & counts & rest & -> & _ & _ & Hc & _) & _).
    rewrite !zlen_app, !zlen_to_be, Hc in Hshort. pose proof (zlen_nonneg rest).
    pose proof (zlen_nonneg (concat (map encode_question qs))). pose proof (zlen_nonneg (concat (map encode_rr rrs))). lia. }
  assert (forall qs rrs, response_of response query_id qs rrs -> parse_response response query_id = Ret (Ok (collect [] rrs))) as Hcomp.
  { intros qs rrs (flags & counts & rest & -> & Hi & Hf & Hc & Hlq & Hlr & Hresp & Htc & Hst & Hqs & Hrs).
    assert (forall a b c d e r : bytes, a ++ b ++ c ++ d ++ e ++ r = (a ++ b ++ c ++ d ++ e) ++ r) as Hassoc by (intros; by rewrite <- !app_assoc).
    rewrite Hassoc in *. change (to_be 2 query_id ++ to_be 2 flags ++ to_be 2 (zlen qs) ++ to_be 2 (zlen rrs) ++ counts)
      with (header query_id flags (zlen qs) (zlen rrs) counts) in *.
    rewrite parse_header, Z.eqb_refl by done. cbn [negb]. destruct (Z.eqb_spec (Z.land flags 0x8000) 0); [done|].
    rewrite Htc, Hst. cbn [Z.eqb negb]. rewrite !is_bytes_app in Hb. destruct Hb as (_ & Hbq & Hbr & _).
    replace (Z.to_nat (zlen qs)) with (length qs) by (unfold zlen; lia).
    replace (Z.to_nat (zlen rrs)) with (length rrs) by (unfold zlen; lia). rewrite skip_questions_complete by done.
    rewrite (app_assoc (header _ _ _ _ _)) in *. by apply read_answers_complete. }
  destruct (dns_header_split response Hb Hlong) as (id & flags & questions & answers & counts & rest & Heq & Hi & Hf & Hq & Ha & Hc & Hr).
  assert (response = header id flags questions answers counts ++ rest) as Heq' by (rewrite Heq; unfold header; by rewrite <- !app_assoc).
  assert (exists out, parse_response response query_id = Ret out /\ forall l, out = Ok l ->
      exists qs rrs, response_of response query_id qs rrs /\ l = collect [] rrs) as (out & Hout & Hinv).
  2:{ exists out. split; [done|]. intros l. split; [apply Hinv|]. intros (qs & rrs & Hresp & ->). apply Hcomp in Hresp. congruence. }
  clear Hcomp. rewrite Heq' in Hv |- *. rewrite parse_header by done.
  destruct (Z.eqb_spec id query_id) as [<-|]; [|by eexists; split]. cbn [negb].
  destruct (Z.eqb_spec (Z.land flags 0x8000) 0) as [|Hresp]; [by eexists; split|].
  destruct (Z.eqb_spec (Z.land flags 0x0200) 0) as [Htc|]; [|by eexists; split]. cbn [negb].
  destruct (Z.eqb_spec (Z.land flags 0x000f) 0) as [Hst|]; [|by eexists; split]. cbn [negb].
  destruct (skip_questions _ _ _) as [o|e] eqn:Hs; [|by eexists; split].
  apply skip_questions_inv in Hs as (qs & r & -> & Hlq & Hqs & ->); [|done..]. apply is_bytes_app in Hr as [_ Hr].
  rewrite (app_assoc (header _ _ _ _ _)) in *.
  destruct (read_answers_inv (Z.to_nat answers) _ r [] Hr Hv) as (out & -> & Hinv). exists out. split; [done|].
  intros l (rrs & rest' & -> & Hlr & Hrs & ->)%Hinv. exists qs, rrs. split; [|done].
  unfold is_u in Hq, Ha. assert (questions = zlen qs) as -> by (unfold zlen; lia). assert (answers = zlen rrs) as -> by (unfold zlen; lia).
  exists flags, counts, rest'. unfold header. rewrite <- !app_assoc. by conjs.
Qed.

Definition sample_response : bytes :=
  [0x12; 0x34; 0x81; 0x80; 0; 1; 0; 1; 0; 0; 0; 0; 2; 0x76; 0x6b; 2; 0x72; 0x75; 0; 0; 1; 0; 1; 0xc0; 0x0c; 0; 1; 0; 1;
   0; 0; 0; 0x3c; 0; 4; 77; 88; 8; 8].

Lemma parse_response_exact_witness :
  exists questions records, response_of sample_response 0x1234 questions records /\ [Ipv4 [77; 88; 8; 8]] = collect [] records.
Proof.
  destruct (parse_response_exact sample_response 0x1234) as (out & Hout & Hiff).
  - by apply is_bytes_check.
  - by vm_compute.
  - apply Hiff. change (parse_response sample_response 0x1234) with (@Ret (result (list IpAddr) DnsError) (Ok [Ipv4 [77; 88; 8; 8]])) in Hout.
    by injection Hout.
Defined.

(** ** What is asked is what is answered *)

Definition encode_labels (labels : list bytes) : bytes := concat (map (fun l => zlen l :: l) labels).

Lemma push_labels_spec labels : forall query q,
  push_labels query labels = Ok q ->
  q = query ++ encode_labels labels /\ Forall (fun l => 0 < zlen l < 64 /\ forallb (fun c => c <? 128) l = true) labels.
Proof.
  induction labels as [|l labels IH]; intros query q; cbn [push_labels].
  { intros [= <-]. unfold encode_labels. by rewrite app_nil_r. }
  destruct (_ || _) eqn:E; [done|]. bool_to_prop. pose proof (zlen_nonneg l). intros (-> & Hf)%IH.
  unfold encode_labels. cbn [map concat]. rewrite wrap_small by (unfold is_u; lia). split; [by rewrite <- !app_assoc|].
  constructor; [|done]. split; [lia|]. by destruct (forallb _ l).
Qed.

Lemma encoded_labels labels : Forall (fun l => 0 < zlen l < 64) labels -> encoded_name (encode_labels labels ++ [0]).
Proof.
  induction 1 as [|l labels Hl _ IH]; [by constructor|]. unfold encode_labels. cbn [map concat].
  change (encoded_name (zlen l :: (l ++ encode_labels labels) ++ [0])). rewrite <- app_assoc. by apply name_label.
Qed.

Lemma split_length c s : zlen (encode_labels (split c s)) = zlen s + 1.
Proof.
  induction s as [|x s IH]; [done|]. cbn [split]. destruct (split c s) as [|part parts] eqn:E; [unfold encode_labels in IH; cbn in IH; pose proof (zlen_nonneg s); rewrite zlen_nil in IH; lia|].
  unfold encode_labels in *. cbn [map concat] in IH. destruct (x =? c); cbn [map concat] in *;
    rewrite ?zlen_app, ?zlen_cons, ?zlen_app, ?zlen_cons in *; rewrite ?zlen_nil; lia.
Qed.

Lemma split_bytes c s : is_bytes s -> Forall is_bytes (split c s).
Proof.
  induction s as [|x s IH]; intros Hb; [by repeat constructor|]. apply Forall_cons in Hb as [Hx Hs]. specialize (IH Hs). cbn [split].
  destruct (split c s) as [|part parts]; [do 2 (constructor; [|constructor]); done|]. apply Forall_cons in IH as [Hpart Hparts].
  by destruct (x =? c); constructor; try apply Forall_nil_2; try constructor.
Qed.

Lemma encode_labels_bytes labels : Forall is_bytes labels -> Forall (fun l => 0 < zlen l < 64) labels -> is_bytes (encode_labels labels).
Proof.
  induction 1 as [|l labels Hl _ IH]; intros Hf; [constructor|]. apply Forall_cons in Hf as [Hl' Hf].
  unfold encode_labels. cbn [map concat]. change (is_bytes ((zlen l :: l) ++ encode_labels labels)).
  apply is_bytes_app. split; [constructor; [unfold is_byte; lia|done]|auto].
Qed.

Lemma trim_bytes host : is_bytes host -> is_bytes (trim_end_dots host).
Proof.
  intros Hb. unfold trim_end_dots. apply Forall_rev. apply Forall_rev in Hb. induction Hb as [|c l Hc Hl IH]; cbn [trim_start_matches]; [done|].
  destruct (existsb _ _); [done|by constructor].
Qed.

Lemma build_query_spec host query_id record_type q :
  is_bytes host -> build_query host query_id record_type = Ok q ->
  exists name, q = to_be 2 query_id ++ to_be 2 0x0100 ++ to_be 2 1 ++ to_be 2 0 ++ to_be 2 0 ++ to_be 2 0
                   ++ name ++ to_be 2 record_type ++ to_be 2 1
    /\ encoded_name name /\ is_bytes name /\ zlen name <= 255.
Proof.
  intros Hb. unfold build_query. destruct (_ || _) eqn:E; [done|]. bool_to_prop.
  destruct (push_labels _ _) as [q1|] eqn:Hp; [|done]. intros [= <-]. apply push_labels_spec in Hp as (-> & Hf).
  assert (Forall (fun l => 0 < zlen l < 64) (split dot (trim_end_dots host))) as Hl by (eapply Forall_impl; [exact Hf|by intros l []]).
  exists (encode_labels (split dot (trim_end_dots host)) ++ [0]). split; [by rewrite <- !app_assoc|].
  split; [by apply encoded_labels|]. split.
  - apply is_bytes_app. split; [|by apply is_bytes_check]. apply encode_labels_bytes; [|done]. by apply split_bytes, trim_bytes.
  - rewrite zlen_snoc, split_length. lia.
Qed.

(** An answer to a query: its question as it was sent, and the records. *)
Definition answer_to (q : bytes) (records : list Rr) : bytes :=
  take 2 q ++ to_be 2 0x8180 ++ to_be 2 1 ++ to_be 2 (zlen records) ++ to_be 4 0 ++ drop 12 q ++ concat (map encode_rr records).

(** For every name that a query can be built for, the query fits the
    classic limit of DNS over UDP, and the answer that echoes its question is
    read as the addresses of its records, each once and in order. *)
Lemma query_answered host query_id record_type q records :
  is_bytes host -> is_u 16 query_id -> build_query host query_id record_type = Ok q ->
  Forall rr_ok records -> is_u 16 (zlen records) -> is_bytes (concat (map encode_rr records)) ->
  zlen (concat (map encode_rr records)) <= 65535 ->
  zlen q <= 512 /\ parse_response (answer_to q records) query_id = Ret (Ok (collect [] records)).
Proof.
  intros Hb Hi Hq Hrs Hlr Hrb Hlen. apply build_query_spec in Hq as (name & -> & Hn & Hnb & Hnl); [|done].
  split; [rewrite !zlen_app, !zlen_to_be; lia|]. unfold answer_to.
  replace (take 2 _) with (to_be 2 query_id) by done.
  replace (drop 12 _) with (name ++ to_be 2 record_type ++ to_be 2 1) by done.
  assert (question_ok (name, to_be 2 record_type ++ to_be 2 1)) as Hqo.
  { split; [done|]. cbn [snd]. by rewrite zlen_app, !zlen_to_be. }
  assert (is_bytes (name ++ to_be 2 record_type ++ to_be 2 1)) as Hqb.
  { rewrite !is_bytes_app. conjs; [done|apply to_be_bytes..]. }
  pose proof (zlen_nonneg name). pose proof (zlen_nonneg (concat (map encode_rr records))).
  assert (forall a b c d e r : bytes, a ++ b ++ c ++ d ++ e ++ r = (a ++ b ++ c ++ d ++ e) ++ r) as Hassoc by (intros; by rewrite <- !app_assoc).
  rewrite Hassoc. change (to_be 2 query_id ++ to_be 2 0x8180 ++ to_be 2 1 ++ to_be 2 (zlen records) ++ to_be 4 0)
    with (header query_id 0x8180 1 (zlen records) (to_be 4 0)).
  assert (valid_slice (header query_id 0x8180 1 (zlen records) (to_be 4 0) ++
    (name ++ to_be 2 record_type ++ to_be 2 1) ++ concat (map encode_rr records))) as Hv.
  { unfold valid_slice, isize_max. rewrite zlen_app, header_length, !zlen_app, !zlen_to_be by done. lia. }
  rewrite parse_header, Z.eqb_refl by (done || unfold is_u; lia). cbn [negb].
  pose proof (skip_questions_complete [(name, to_be 2 record_type ++ to_be 2 1)]
    (header query_id 0x8180 1 (zlen records) (to_be 4 0)) (concat (map encode_rr records))) as Hs.
  cbn [map concat length] in Hs. change (encode_question (name, to_be 2 record_type ++ to_be 2 1))
    with (name ++ to_be 2 record_type ++ to_be 2 1) in Hs. rewrite app_nil_r in Hs.
  change (Z.land 0x8180 0x8000 =? 0) with false. change (Z.land 0x8180 0x0200 =? 0) with true.
  change (Z.land 0x8180 0x000f =? 0) with true. cbn [negb]. change (Z.to_nat 1) with 1%nat. rewrite Hs by (done || by constructor).
  replace (Z.to_nat (zlen records)) with (length records) by (unfold zlen; lia).
  rewrite (app_assoc (header _ _ _ _ _)) in *.
  pose proof (read_answers_complete records (header query_id 0x8180 1 (zlen records) (to_be 4 0) ++ name ++ to_be 2 record_type ++ to_be 2 1) [] []) as Ha.
  rewrite app_nil_r in Ha. by apply Ha.
Qed.

Lemma query_answered_witness :
  let r := mkRr [0xc0; 12] 1 1 [0; 0; 0; 60] [1; 2; 3; 4] in
  exists q, build_query (ascii "vk.ru.") 7 1 = Ok q /\ parse_response (answer_to q [r; r]) 7 = Ret (Ok [Ipv4 [1; 2; 3; 4]]).
Proof.
  eexists. split; [vm_compute; reflexivity|].
  refine (proj2 (query_answered (ascii "vk.ru.") 7 1 _ _ _ _ _ _ _ _ _)).
  - by apply is_bytes_check.
  - done.
  - reflexivity.
  - repeat (apply List.Forall_cons; [split; [by apply name_pointer|by conjs]|]). apply List.Forall_nil.
  - done.
  - by apply is_bytes_check.
  - by vm_compute.
Defined.

(** ** The servers *)

Definition DNS_TIMEOUT : Z := 5000.
Definition DNS_CACHE_FRESH : Z := 60 * 1000.
Definition DNS_CACHE_STALE_MAX : Z := 6 * 60 * 60 * 1000.
Definition DNS_CACHE_MAX : Z := 64.

(** An error of a socket or of the parser, for one server or for both. *)
Inductive QueryError : Type := SocketFailed | Unreadable (e : DnsError) | BothRefused (first second : QueryError).
Inductive YandexDnsError : Type := TimedOut | Failed (e : QueryError).

(** When and how [query_dns_server] ends, if it does. *)
Definition ServerEnd : Type := option (Z * result (list IpAddr) QueryError).

(** The race of the two servers; [primary_first] decides it when both end at
    the same time, as [select] does at random. *)
Definition query_yandex (primary secondary : ServerEnd) (primary_first : bool) : result (list IpAddr) YandexDnsError :=
  let in_time (e : ServerEnd) := match e with Some (t, r) => if t <=? DNS_TIMEOUT then Some (t, r) else None | None => None end in
  match in_time primary, in_time secondary with
  | None, None => Err TimedOut
  | Some (_, r), None | None, Some (_, r) => match r with Ok addresses => Ok addresses | Err _ => Err TimedOut end
  | Some (t1, r1), Some (t2, r2) =>
      let '(first, second) := if (t1 <? t2) || ((t1 =? t2) && primary_first) then (r1, r2) else (r2, r1) in
      match first with
      | Ok addresses => Ok addresses
      | Err first_error =>
          match second with
          | Ok addresses => Ok addresses
          | Err second_error => Err (Failed (BothRefused first_error second_error))
          end
      end
  end.

(** What the servers do with a query is an argument. *)
Definition yandex_lookup (ask : bytes -> Z -> result (list IpAddr) YandexDnsError) (host : bytes) (query_id : Z)
    : result (list IpAddr) YandexDnsError :=
  match build_query host query_id DNS_A_RECORD with
  | Err e => Err (Failed (Unreadable e))
  | Ok a_query =>
      match ask a_query query_id with
      | Err e => Err e
      | Ok (address :: addresses) => Ok (address :: addresses)
      | Ok [] =>
          let aaaa_id := wrapping_add 16 query_id 1 in
          match build_query host aaaa_id DNS_AAAA_RECORD with
          | Err e => Err (Failed (Unreadable e))
          | Ok aaaa_query => ask aaaa_query aaaa_id
          end
      end
  end.

Inductive LookupError : Type := EmptyAnswer | NoAnswerInTime | YandexFailed (e : QueryError) | SystemFailed | SystemEmpty.

(** [system_lookup], for the addresses that the system gives, if it gives any. *)
Definition system_lookup (found : option (list IpAddr)) : result (list IpAddr) LookupError :=
  match found with
  | None => Err SystemFailed
  | Some l =>
      match fold_left (fun acc a => push_new a acc) l [] with
      | [] => Err SystemEmpty
      | addresses => Ok addresses
      end
  end.

Definition lookup_uncached (answer : result (list IpAddr) YandexDnsError) (tunnel_active : bool) (system : option (list IpAddr))
    : result (list IpAddr) LookupError :=
  match answer with
  | Ok (address :: addresses) => Ok (address :: addresses)
  | Ok [] => Err EmptyAnswer
  | Err TimedOut => if tunnel_active then Err NoAnswerInTime else system_lookup system
  | Err (Failed e) => Err (YandexFailed e)
  end.

(** ** The cache *)

Record CacheEntry : Type := mkEntry { addresses : list IpAddr; resolved_at : Z }.

(** The map, in the order in which it would be iterated. *)
Definition Cache : Type := list (bytes * CacheEntry).

Definition entry (c : Cache) (host : bytes) : option CacheEntry :=
  match List.find (fun e => bytes_eqb (fst e) host) c with Some (_, e) => Some e | None => None end.

Definition cached (c : Cache) (host : bytes) (max_age now : Z) : option (list IpAddr) :=
  match entry c host with
  | Some e => if saturating_sub now (resolved_at e) <=? max_age then Some (addresses e) else None
  | None => None
  end.

Definition forget (c : Cache) (host : bytes) : Cache := List.filter (fun e => negb (bytes_eqb (fst e) host)) c.

Definition make_room (c : Cache) (host : bytes) : Cache :=
  if (DNS_CACHE_MAX <=? zlen c) && match entry c host with Some _ => false | None => true end then
    match min_by_key (fun e => resolved_at (snd e)) c with
    | Some (key, _) => forget c key
    | None => c
    end
  else c.

Definition remember (c : Cache) (host : bytes) (l : list IpAddr) (now : Z) : Cache :=
  forget (make_room c host) host ++ [(host, mkEntry l now)].

Section Lookup.
(** [str::parse::<IpAddr>] *)
Variable parse_ip : bytes -> option IpAddr.

(** [lookup]; [now] is the time of the first look into the cache and [later]
    that after the resolving. *)
Definition lookup (c : Cache) (host : bytes) (now later : Z) (uncached : result (list IpAddr) LookupError)
    : result (list IpAddr) LookupError * Cache :=
  match parse_ip host with
  | Some address => (Ok [address], c)
  | None =>
      match cached c host DNS_CACHE_FRESH now with
      | Some l => (Ok l, c)
      | None =>
          match uncached with
          | Ok l => (Ok l, remember c host l later)
          | Err e =>
              match cached c host DNS_CACHE_STALE_MAX later with
              | Some l => (Ok l, c)
              | None => (Err e, c)
              end
          end
      end
  end.

(** The cache holds each name once, at most 64 names, and no empty answer. *)
Definition cache_ok (c : Cache) : Prop :=
  NoDup (map fst c) /\ zlen c <= DNS_CACHE_MAX /\ Forall (fun e => addresses (snd e) <> []) c.

Lemma entry_In c host e : entry c host = Some e -> In (host, e) c.
Proof.
  unfold entry. destruct (List.find _ c) as [[h x]|] eqn:E; [|done]. intros [= ->]. apply find_some in E as [Hin Heq].
  cbn [fst] in Heq. by apply bytes_eqb_eq in Heq as ->.
Qed.

Lemma entry_forget c host h : entry (forget c host) h = if bytes_eqb host h then None else entry c h.
Proof.
  unfold entry, forget. induction c as [|[k e] c IH]; cbn [List.filter List.find fst]; [by destruct (bytes_eqb host h)|].
  destruct (bytes_eqb k host) eqn:Ek; cbn [negb List.find fst].
  - apply bytes_eqb_eq in Ek as ->. rewrite IH. destruct (bytes_eqb host h) eqn:E; [done|]. done.
  - destruct (bytes_eqb k h) eqn:Eh; [|exact IH]. apply bytes_eqb_eq in Eh as ->. by rewrite (proj2 (bytes_eqb_neq host h)) by
      (intros ->; by rewrite (proj2 (bytes_eqb_eq h h) eq_refl) in Ek).
Qed.

Lemma entry_snoc c host e h :
  entry (c ++ [(host, e)]) h = match entry c h with Some x => Some x | None => if bytes_eqb host h then Some e else None end.
Proof.
  unfold entry. induction c as [|[k x] c IH]; cbn [app List.find fst]; [by destruct (bytes_eqb host h)|].
  by destruct (bytes_eqb k h).
Qed.

Lemma forget_sub c host e : e ∈ forget c host -> e ∈ c /\ fst e <> host.
Proof.
  unfold forget. rewrite !list_elem_of_In, filter_In, negb_true_iff, bytes_eqb_neq. done.
Qed.

Lemma forget_length c host : zlen (forget c host) <= zlen c.
Proof. unfold forget, zlen. pose proof (filter_length_le (fun e : bytes * CacheEntry => negb (bytes_eqb (fst e) host)) c). lia. Qed.

Lemma forget_shrinks c host e : In (host, e) c -> zlen (forget c host) < zlen c.
Proof.
  intros (l1 & l2 & ->)%in_split. unfold forget. rewrite List.filter_app. cbn [List.filter fst].
  rewrite (proj2 (bytes_eqb_eq host host) eq_refl). cbn [negb]. fold (forget l1 host) (forget l2 host).
  rewrite !zlen_app, zlen_cons. pose proof (forget_length l1 host). pose proof (forget_length l2 host). lia.
Qed.

Lemma forget_ok c host : cache_ok c -> cache_ok (forget c host).
Proof.
  intros (Hn & Hl & Hf). split; [|split].
  - unfold forget. clear Hl Hf. induction c as [|[k e] c IH]; cbn [List.filter map fst] in *; [done|].
    apply NoDup_cons in Hn as [Hk Hn]. destruct (negb _); [|auto]. cbn [map fst]. apply NoDup_cons. split; [|auto].
    intros (x & Hx & Hin)%list_elem_of_fmap. apply Hk. apply list_elem_of_fmap. exists x. split; [done|].
    by apply (forget_sub c host).
  - pose proof (forget_length c host). lia.
  - apply Forall_forall. intros e [Hin _]%forget_sub. by apply (proj1 (Forall_forall _ _) Hf).
Qed.

Lemma make_room_ok c host :
  cache_ok c -> cache_ok (make_room c host) /\ zlen (forget (make_room c host) host) < DNS_CACHE_MAX.
Proof.
  intros Hc. pose proof Hc as (_ & Hl & _). unfold make_room. destruct (Z.leb_spec DNS_CACHE_MAX (zlen c)) as [Hfull|Hroom]; cbn [andb].
  2:{ split; [done|]. pose proof (forget_length c host). lia. }
  destruct (entry c host) as [e|] eqn:He.
  { split; [done|]. apply entry_In in He. pose proof (forget_shrinks c host e He). lia. }
  destruct (min_by_key _ c) as [[k e]|] eqn:Em.
  2:{ apply min_by_key_None in Em as ->. split; [done|]. done. }
  apply min_by_key_Some in Em as [Hin%list_elem_of_In _]. split; [by apply forget_ok|].
  pose proof (forget_shrinks c k e Hin). pose proof (forget_length (forget c k) host). lia.
Qed.

Lemma remember_ok c host l now : cache_ok c -> l <> [] -> cache_ok (remember c host l now).
Proof.
  intros Hc Hl. destruct (make_room_ok c host Hc) as [Hok Hlen]. unfold remember.
  destruct (forget_ok _ host Hok) as (Hn & _ & Hf). split; [|split].
  - rewrite map_app. apply NoDup_app. split; [done|]. split; [|apply NoDup_singleton].
    intros h Hh Hs. apply list_elem_of_singleton in Hs as ->. apply list_elem_of_fmap in Hh as (x & Hx & Hin). by apply forget_sub in Hin as [_ ?].
  - rewrite zlen_snoc. lia.
  - apply Forall_app. split; [done|]. by apply Forall_singleton.
Qed.

Lemma lookup_uncached_some answer tunnel system l : lookup_uncached answer tunnel system = Ok l -> l <> [].
Proof.
  unfold lookup_uncached, system_lookup. destruct answer as [[|a t]|[|e]]; try done; [by intros [= <-]|].
  destruct tunnel; [done|]. destruct system as [found|]; [|done]. destruct (fold_left _ _ _); [done|]. by intros [= <-].
Qed.

Lemma cached_inv c host max_age now l :
  cached c host max_age now = Some l -> exists e, entry c host = Some e /\ addresses e = l /\ saturating_sub now (resolved_at e) <= max_age.
Proof.
  unfold cached. destruct (entry c host) as [e|]; [|done]. destruct (Z.leb_spec (saturating_sub now (resolved_at e)) max_age); [|done].
  intros [= <-]. by exists e.
Qed.

(** C39: a lookup keeps the cache within 64 names without an empty answer. It
    answers with at least one address: the literal address, an answer at most
    a minute old without asking anybody, what the servers gave, which is then
    remembered for this name, or, only when they failed, an answer at most six
    hours old. It fails only when the servers failed and no such answer is left.
    Other names stay remembered, but for the one that was resolved first, and
    that only when the cache was full. *)
Theorem lookup_exact c host now later answer tunnel system :
  cache_ok c ->
  let uncached := lookup_uncached answer tunnel system in
  let '(r, c') := lookup c host now later uncached in
  cache_ok c' /\
  match r with
  | Ok l => l <> [] /\
      (parse_ip host = Some (default (Ipv4 []) (head l)) /\ zlen l = 1 /\ c' = c
       \/ parse_ip host = None /\
          (c' = c /\ (exists e, entry c host = Some e /\ addresses e = l /\
             (saturating_sub now (resolved_at e) <= DNS_CACHE_FRESH
              \/ (exists e', uncached = Err e') /\ saturating_sub later (resolved_at e) <= DNS_CACHE_STALE_MAX))
           \/ uncached = Ok l /\ entry c' host = Some (mkEntry l later)
              /\ (forall h e, h <> host -> entry c h = Some e -> entry c' h = Some e
                    \/ (entry c' h = None /\ DNS_CACHE_MAX <= zlen c /\ forall h' e', entry c h' = Some e' -> resolved_at e <= resolved_at e'))))
  | Err e => uncached = Err e /\ c' = c /\ cached c host DNS_CACHE_STALE_MAX later = None
  end.
Proof.
  intros Hc uncached. unfold lookup. destruct (parse_ip host) as [a|]; [by split; [|split; [|left]]|].
  assert (forall age time l, cached c host age time = Some l -> l <> []) as Hne.
  { intros age time l (e & He & <- & _)%cached_inv. apply entry_In in He. destruct Hc as (_ & _ & Hf).
    rewrite Forall_forall in Hf. apply (Hf (host, e)). by apply list_elem_of_In. }
  destruct (cached c host DNS_CACHE_FRESH now) as [l|] eqn:Hfresh.
  { split; [done|]. split; [by eapply Hne|]. right. split; [done|]. left. split; [done|].
    apply cached_inv in Hfresh as (e & He & Hl & Hage). exists e. by conjs; [..|left]. }
  destruct uncached as [l|e] eqn:Hun.
  - pose proof (lookup_uncached_some _ _ _ _ Hun) as Hl. split; [by apply remember_ok|]. split; [done|]. right. split; [done|]. right.
    split; [done|]. unfold remember. split.
    + rewrite entry_snoc, entry_forget, (proj2 (bytes_eqb_eq host host) eq_refl). done.
    + intros h e Hh He. rewrite entry_snoc, entry_forget, (proj2 (bytes_eqb_neq host h)) by done.
      unfold make_room. destruct (Z.leb_spec DNS_CACHE_MAX (zlen c)) as [Hfull|]; cbn [andb]; [|left; by rewrite He].
      destruct (entry c host); [left; by rewrite He|]. destruct (min_by_key _ c) as [[k x]|] eqn:Em; [|left; by rewrite He].
      rewrite entry_forget. destruct (bytes_eqb k h) eqn:Ek; [|left; by rewrite He]. apply bytes_eqb_eq in Ek as ->. right.
      apply min_by_key_Some in Em as [Hin Hmin]. split; [done|]. split; [done|]. intros h' e' He'%entry_In.
      destruct Hc as (Hn & _ & _). assert (x = e) as ->.
      { apply list_elem_of_In in Hin. apply entry_In in He. clear -Hn Hin He. apply list_elem_of_In in Hin, He.
        apply list_elem_of_lookup in Hin as [i Hi], He as [j Hj].
        assert (i = j) as ->.
        { eapply NoDup_lookup; [exact Hn|..]; [rewrite list_lookup_fmap, Hi|rewrite list_lookup_fmap, Hj]; done. }
        congruence. }
      apply (Hmin (h', e')). by apply list_elem_of_In.
  - destruct (cached c host DNS_CACHE_STALE_MAX later) as [l|] eqn:Hstale; [|done].
    split; [done|]. split; [by eapply Hne|]. right. split; [done|]. left. split; [done|].
    apply cached_inv in Hstale as (e' & He & Hl & Hage). exists e'. conjs; try done. right. split; [by eexists|done].
Qed.
End Lookup.

Lemma lookup_exact_witness : cache_ok (snd (lookup (fun _ => None) [] [97] 0 10 (Ok [Ipv4 [1; 2; 3; 4]]))).
Proof.
  pose proof (lookup_exact (fun _ => None) [] [97] 0 10 (Ok [Ipv4 [1; 2; 3; 4]]) true None) as H.
  cbn [lookup_uncached] in H. cbv zeta in H. destruct (lookup _ _ _ _ _ _) as [r c']. apply H.
  split; [apply NoDup_nil_2|]. split; [by vm_compute|constructor].
Defined.
