(* ===== verification/Logger.v ===== *)
(** * Logger: the two log queues and their writer

    Models [logging.rs]: the line that is cut at 4096 bytes, the two bounded
    queues that give up their oldest line, the turns of the writer thread, and
    the shutdown, access by access, with any number of threads that log. The
    sinks and the formatting of a message are arguments. *)

From stdpp Require Import functions.
From S2P Require Import Prelude Bytes ArrayQueue.

Definition PROTOCOL_CAPACITY : Z := 128.
Definition DIAGNOSTIC_CAPACITY : Z := 512.
Definition MAX_LINE_BYTES : Z := 4096.
Definition PROTOCOL_BURST : Z := 32.
Definition COALESCE_BATCH : Z := 64.

(** ** A line *)

Record BoundedLine : Type := mkLine { value : bytes; full : bool }.
Definition new_line : BoundedLine := mkLine [] false.

(** [str::is_char_boundary], on UTF-8 bytes. *)
Definition is_char_boundary (s : bytes) (i : Z) : bool :=
  if i =? 0 then true else
  match s !! Z.to_nat i with
  | Some b => negb ((0x80 <=? b) && (b <? 0xc0))
  | None => i =? zlen s
  end.

(** [while !value.is_char_boundary(end) { end -= 1 }], for as many turns as
    there are bytes before [end]. *)
Fixpoint boundary_below (s : bytes) (i : nat) : nat :=
  match i with
  | O => O
  | S j => if is_char_boundary s (Z.of_nat i) then i else boundary_below s j
  end.

Definition write_str (line : BoundedLine) (s : bytes) : BoundedLine :=
  if full line then line else
  let left := saturating_sub MAX_LINE_BYTES (zlen (value line)) in
  if zlen s <=? left then mkLine (value line ++ s) false
  else mkLine (value line ++ take (boundary_below s (Z.to_nat (Z.min left (zlen s)))) s) true.

(** [fmt::write] hands the pieces of a message over one after the other. *)
Definition format_line (pieces : list bytes) : bytes := value (fold_left write_str pieces new_line).

Lemma boundary_below_spec s i :
  (boundary_below s i <= i)%nat /\ is_char_boundary s (Z.of_nat (boundary_below s i)) = true
  /\ forall j, (boundary_below s i < j <= i)%nat -> is_char_boundary s (Z.of_nat j) = false.
Proof.
  induction i as [|i (IH1 & IH2 & IH3)]; cbn [boundary_below]; [split; [lia|]; split; [done|lia]|].
  destruct (is_char_boundary s (Z.of_nat (S i))) eqn:E; [split; [lia|]; split; [done|lia]|].
  split; [lia|]. split; [done|]. intros j Hj. destruct (decide (j = S i)) as [->|]; [done|]. apply IH3. lia.
Qed.

Lemma write_str_prefix line s :
  exists n, value (write_str line s) = value line ++ take n s /\ (full (write_str line s) = false -> take n s = s /\ full line = false).
Proof.
  unfold write_str. destruct (full line) eqn:Ef.
  { exists O. split; [by rewrite app_nil_r|by rewrite Ef]. }
  destruct (Z.leb_spec (zlen s) (saturating_sub MAX_LINE_BYTES (zlen (value line)))).
  - exists (length s). by rewrite firstn_all.
  - eexists. split; [reflexivity|done].
Qed.

(** A logged line is the beginning of the message, at most 4096 bytes long. It
    is the whole message when that fits, and otherwise stops where a character
    begins in the piece that does not fit, before the last such place. *)
Lemma format_line_bounded pieces :
  zlen (format_line pieces) <= MAX_LINE_BYTES
  /\ (exists rest, concat pieces = format_line pieces ++ rest)
  /\ (zlen (concat pieces) <= MAX_LINE_BYTES -> format_line pieces = concat pieces).
Proof.
  unfold format_line.
  assert (forall line done_, value line = done_ \/ (full line = true /\ exists rest, done_ = value line ++ rest) ->
    zlen (value line) <= MAX_LINE_BYTES ->
    let line' := fold_left write_str pieces line in
    zlen (value line') <= MAX_LINE_BYTES /\ (exists rest, done_ ++ concat pieces = value line' ++ rest)
    /\ (full line = false -> zlen (done_ ++ concat pieces) <= MAX_LINE_BYTES -> value line' = done_ ++ concat pieces)) as H.
  { induction pieces as [|s pieces IH]; intros line done_ Hd Hl; cbn [fold_left concat].
    - split; [done|]. rewrite app_nil_r. destruct Hd as [<-|[Hf [rest ->]]].
      + split; [exists []; by rewrite app_nil_r|done].
      + split; [by exists rest|]. intros Hn. by rewrite Hn in Hf.
    - assert (zlen (value (write_str line s)) <= MAX_LINE_BYTES) as Hl'.
      { unfold write_str. destruct (full line); [done|]. unfold saturating_sub.
        destruct (Z.leb_spec (zlen s) (Z.max (MAX_LINE_BYTES - zlen (value line)) 0)) as [Hfit|Hbig]; cbn [value]; rewrite zlen_app; [lia|].
        pose proof (boundary_below_spec s (Z.to_nat (Z.min (Z.max (MAX_LINE_BYTES - zlen (value line)) 0) (zlen s)))) as [Hle _].
        unfold zlen in *. rewrite length_take. lia. }
      assert (value (write_str line s) = done_ ++ s
              \/ (full (write_str line s) = true /\ exists rest, done_ ++ s = value (write_str line s) ++ rest)) as Hd'.
      { destruct (write_str_prefix line s) as (n & Hv & Hn). destruct Hd as [<-|[Hf [rest ->]]].
        - destruct (full (write_str line s)) eqn:Ef; [right|left].
          + split; [done|]. exists (drop n s). by rewrite Hv, <- app_assoc, take_drop.
          + destruct Hn as [Hn _]; [done|]. by rewrite Hv, Hn.
        - right. unfold write_str. rewrite Hf. split; [done|]. exists (rest ++ s). by rewrite app_assoc. }
      destruct (IH (write_str line s) (done_ ++ s) Hd' Hl') as (H1 & H2 & H3). rewrite app_assoc.
      split; [done|]. split; [done|]. intros Hn Hfit. apply H3; [|done].
      destruct Hd as [<-|[Hf _]]; [|by rewrite Hn in Hf]. unfold write_str. rewrite Hn.
      rewrite !zlen_app in Hfit. pose proof (zlen_nonneg (concat pieces)). unfold saturating_sub.
      destruct (Z.leb_spec (zlen s) (Z.max (MAX_LINE_BYTES - zlen (value line)) 0)); [done|lia]. }
  destruct (H new_line []) as (H1 & H2 & H3); [by left|done|]. split; [done|]. split; [done|]. by apply H3.
Qed.

(** ** The turns of the writer *)

(** What one turn of [writer_loop] finds; the queues are given by their lines. *)
Record WriterState : Type := mkWriter {
  protocol : list bytes;
  diagnostic : list bytes;
  protocol_burst : Z;
  pending_diagnostic : option bytes;
}.

Inductive Output : Type := Stdout (line : bytes) | Stderr (line : bytes) (repetitions : Z).

(** The inner loop, which pops lines equal to [line]; [turns] are those left. *)
Fixpoint coalesce (turns : nat) (line : bytes) (repetitions : Z) (waiting : list bytes) : Z * option bytes * list bytes :=
  match turns, waiting with
  | O, _ | _, [] => (repetitions, None, waiting)
  | S turns, next :: waiting =>
      if bytes_eqb next line then coalesce turns line (repetitions + 1) waiting else (repetitions, Some next, waiting)
  end.

Definition writer_turn (s : WriterState) : option (Output * WriterState) :=
  let diagnose s :=
    match pending_diagnostic s, diagnostic s with
    | Some line, waiting | None, line :: waiting =>
        let '(repetitions, pending, waiting) := coalesce (Z.to_nat (COALESCE_BATCH - 1)) line 1 waiting in
        Some (Stderr line repetitions, mkWriter (protocol s) waiting 0 pending)
    | None, [] =>
        match protocol s with
        | line :: p => Some (Stdout line, mkWriter p [] 1 None)
        | [] => None
        end
    end in
  if protocol_burst s <? PROTOCOL_BURST then
    match protocol s with
    | line :: p => Some (Stdout line, mkWriter p (diagnostic s) (protocol_burst s + 1) (pending_diagnostic s))
    | [] => diagnose s
    end
  else diagnose s.

(** The turns until nothing is left; each writes at least one line. *)
Fixpoint drain (turns : nat) (s : WriterState) : list Output * WriterState :=
  match turns with
  | O => ([], s)
  | S turns =>
      match writer_turn s with
      | None => ([], s)
      | Some (o, s) => let '(out, s) := drain turns s in (o :: out, s)
      end
  end.

Definition to_stdout (out : list Output) : list bytes := omap (fun o => match o with Stdout l => Some l | Stderr _ _ => None end) out.
Definition to_stderr (out : list Output) : list bytes :=
  concat (map (fun o => match o with Stderr l n => replicate (Z.to_nat n) l | Stdout _ => [] end) out).

(** The diagnostics that wait, the one set aside first. *)
Definition diagnostics (s : WriterState) : list bytes := option_list (pending_diagnostic s) ++ diagnostic s.

Definition lines_left (s : WriterState) : nat := length (protocol s) + length (diagnostics s).

Definition output_ok (o : Output) : Prop := match o with Stderr _ n => 1 <= n <= COALESCE_BATCH | Stdout _ => True end.

Lemma coalesce_spec turns line n waiting :
  let '(reps, pending, rest) := coalesce turns line n waiting in
  n <= reps <= n + Z.of_nat turns /\ waiting = replicate (Z.to_nat (reps - n)) line ++ option_list pending ++ rest.
Proof.
  revert n waiting. induction turns as [|turns IH]; intros n waiting; cbn [coalesce].
  { rewrite Z.sub_diag. split; [lia|]. by destruct waiting. }
  destruct waiting as [|next waiting]; [rewrite Z.sub_diag; split; [lia|done]|].
  destruct (bytes_eqb next line) eqn:E; [|rewrite Z.sub_diag; split; [lia|done]].
  apply bytes_eqb_eq in E as ->. specialize (IH (n + 1) waiting). destruct (coalesce turns line (n + 1) waiting) as [[reps pending] rest].
  destruct IH as [Hr ->]. split; [lia|]. by replace (Z.to_nat (reps - n)) with (S (Z.to_nat (reps - (n + 1)))) by lia.
Qed.

(** A turn takes the first line of a queue, and whatever repeats it. *)
Lemma writer_turn_spec s :
  match writer_turn s with
  | None => protocol s = [] /\ diagnostics s = []
  | Some (o, s') =>
      protocol s = to_stdout [o] ++ protocol s' /\ diagnostics s = to_stderr [o] ++ diagnostics s'
      /\ output_ok o /\ (lines_left s' < lines_left s)%nat
  end.
Proof.
  destruct s as [p d burst pending]. unfold writer_turn, lines_left, diagnostics. cbn [protocol diagnostic protocol_burst pending_diagnostic].
  assert (forall line waiting, let '(reps, pending', rest) := coalesce (Z.to_nat (COALESCE_BATCH - 1)) line 1 waiting in
    line :: waiting = (replicate (Z.to_nat reps) line ++ []) ++ option_list pending' ++ rest /\ 1 <= reps <= COALESCE_BATCH
    /\ (length (option_list pending' ++ rest) < length (line :: waiting))%nat) as Hc.
  { intros line waiting. pose proof (coalesce_spec (Z.to_nat (COALESCE_BATCH - 1)) line 1 waiting) as H.
    destruct (coalesce _ _ _ _) as [[reps pending'] rest]. unfold COALESCE_BATCH in *. destruct H as [Hr ->].
    replace (Z.to_nat reps) with (S (Z.to_nat (reps - 1))) by lia. rewrite app_nil_r. cbn [replicate app].
    split; [done|]. split; [lia|]. cbn [length]. rewrite (length_app (replicate _ _)). lia. }
  assert (forall line waiting, line :: waiting = option_list pending ++ d ->
    match (let '(reps, pending', rest) := coalesce (Z.to_nat (COALESCE_BATCH - 1)) line 1 waiting in
           Some (Stderr line reps, mkWriter p rest 0 pending')) with
    | Some (o, s') => p = to_stdout [o] ++ protocol s' /\ option_list pending ++ d = to_stderr [o] ++ option_list (pending_diagnostic s') ++ diagnostic s'
        /\ output_ok o /\ (length (protocol s') + length (option_list (pending_diagnostic s') ++ diagnostic s') < length p + length (option_list pending ++ d))%nat
    | None => p = [] /\ option_list pending ++ d = []
    end) as Hd.
  { intros line waiting <-. specialize (Hc line waiting). destruct (coalesce _ _ _ _) as [[reps pending'] rest].
    destruct Hc as (Hw & Hr & Hl). cbn [protocol diagnostic pending_diagnostic]. split; [done|]. split; [exact Hw|]. split; [exact Hr|]. lia. }
  destruct (burst <? PROTOCOL_BURST).
  - destruct p as [|line p]; [|cbn; split_and!; done || lia].
    destruct pending as [line|]; [by apply (Hd line d)|]. destruct d as [|line d]; [done|]. by apply (Hd line d).
  - destruct pending as [line|]; [by apply (Hd line d)|]. destruct d as [|line d]; [|by apply (Hd line d)].
    destruct p as [|line p]; [done|]. cbn. split_and!; done || lia.
Qed.

Lemma drain_S n s :
  drain (S n) s = match writer_turn s with None => ([], s) | Some (o, s) => let '(out, s) := drain n s in (o :: out, s) end.
Proof. done. Qed.

(** How many turns at most until a waiting diagnostic is written. *)
Definition patience (s : WriterState) : nat := Z.to_nat (PROTOCOL_BURST - protocol_burst s).

Lemma diagnostic_served s n :
  diagnostics s <> [] -> (patience s <= n)%nat -> exists o, Stderr (default [] (head (diagnostics s))) o ∈ fst (drain (S n) s).
Proof.
  revert s. induction n as [|n IH]; intros s Hd Hp; unfold patience, PROTOCOL_BURST in Hp.
  - cbn [drain]. destruct s as [p d burst pending]. unfold writer_turn, diagnostics in *. cbn [protocol diagnostic protocol_burst pending_diagnostic] in *.
    unfold PROTOCOL_BURST. destruct (Z.ltb_spec burst 32); [lia|]. destruct pending as [line|]; [|destruct d as [|line d]; [done|]];
      destruct (coalesce _ _ _ _) as [[reps pending'] rest]; exists reps; by left.
  - rewrite drain_S. destruct s as [p d burst pending]. unfold writer_turn, diagnostics, PROTOCOL_BURST in *.
    cbn [protocol diagnostic protocol_burst pending_diagnostic] in *.
    assert (exists line waiting, option_list pending ++ d = line :: waiting /\
      match pending, d with Some line, waiting | None, line :: waiting =>
        let '(reps, pending', rest) := coalesce (Z.to_nat (COALESCE_BATCH - 1)) line 1 waiting in
        Some (Stderr line reps, mkWriter p rest 0 pending') | None, [] => match p with line :: p => Some (Stdout line, mkWriter p [] 1 None) | [] => None end end
      = let '(reps, pending', rest) := coalesce (Z.to_nat (COALESCE_BATCH - 1)) line 1 waiting in
        Some (Stderr line reps, mkWriter p rest 0 pending')) as (line & waiting & Hl & Heq).
    { destruct pending as [line|]; [by exists line, d|]. destruct d as [|line d]; [done|]. by exists line, d. }
    destruct (Z.ltb_spec burst 32); [destruct p as [|first p]|].
    + rewrite Heq, Hl. destruct (coalesce _ _ _ _) as [[reps pending'] rest]. exists reps.
      destruct (drain (S n) _) as [out s']. by left.
    + specialize (IH (mkWriter p d (burst + 1) pending) Hd). unfold patience, PROTOCOL_BURST in IH. cbn [protocol_burst] in IH.
      destruct IH as [o Ho]; [lia|]. unfold diagnostics in Ho. cbn [pending_diagnostic diagnostic] in Ho. exists o.
      destruct (drain (S n) (mkWriter p d (burst + 1) pending)) as [out s'] eqn:E. by right.
    + rewrite Heq, Hl. destruct (coalesce _ _ _ _) as [[reps pending'] rest]. exists reps.
      destruct (drain (S n) _) as [out s']. by left.
Qed.

(** Left alone with what is queued, the writer writes it all within one
    turn per line: the protocol lines to the standard output in order, and the
    diagnostics, once repetitions are written out, to the standard error in
    order, at most 64 at a time. A waiting diagnostic is written after at most
    32 protocol lines. *)
Lemma writer_drains s :
  let '(out, s') := drain (lines_left s) s in
  to_stdout out = protocol s /\ to_stderr out = diagnostics s /\ writer_turn s' = None /\ Forall output_ok out
  /\ (diagnostics s <> [] -> 0 <= protocol_burst s ->
      exists n, Stderr (default [] (head (diagnostics s))) n ∈ fst (drain 33 s)).
Proof.
  assert (forall n s, (lines_left s <= n)%nat -> let '(out, s') := drain n s in
    to_stdout out = protocol s /\ to_stderr out = diagnostics s /\ writer_turn s' = None /\ Forall output_ok out) as H.
  { clear s. induction n as [|n IH]; intros s Hl; cbn [drain]; pose proof (writer_turn_spec s) as Ht.
    - destruct (writer_turn s) as [[o s']|] eqn:E; [lia|]. destruct Ht as [-> ->]. by conjs.
    - destruct (writer_turn s) as [[o s']|] eqn:E; [|destruct Ht as [-> ->]; by conjs].
      destruct Ht as (Hp & Hd & Ho & Hlt). specialize (IH s' ltac:(lia)). destruct (drain n s') as [out s''].
      destruct IH as (H1 & H2 & H3 & H4). rewrite Hp, Hd, <- H1, <- H2. unfold to_stdout, to_stderr. cbn [map concat omap list_omap].
      split; [by destruct o|]. split; [by rewrite app_nil_r|]. split; [done|by constructor]. }
  specialize (H (lines_left s) s (le_n _)). destruct (drain (lines_left s) s) as [out s']. destruct H as (H1 & H2 & H3 & H4).
  conjs; try done. intros Hd Hb. apply diagnostic_served; [done|]. unfold patience, PROTOCOL_BURST. lia.
Qed.

(** ** Logging and shutting down at once *)

Module Threads.

Inductive Kind : Type := Protocol | Diagnostic.
#[export] Instance kind_eq_dec : EqDecision Kind.
Proof. solve_decision. Defined.

(** A queue with its counters, and the lines that the writer has popped: those
    it still counts as outstanding, the repetitions that it does not, and the
    written ones it still has to subtract. [offered] counts the lines that were
    handed to [replace_oldest]. *)
Record Lane : Type := mkLane {
  capacity : Z;
  queued : Z;
  outstanding : Z;
  dropped : Z;
  popped : Z;
  repeats : Z;
  unsubtracted : Z;
  written : Z;
  offered : Z;
}.

(** A thread that logs: in [begin_producer], formatting, in [replace_oldest]
    with the pushes that are left to try, and in [finish_producer]. *)
Inductive Place : Type :=
| Trying (left : nat)      (** about to push *)
| Refused (left : nat)     (** the queue was full, about to pop *)
| Replaced (left : nat)    (** popped, about to subtract it *)
| Counting (left : nat)    (** subtracted, about to count it as dropped *)
| Failing                  (** out of tries, about to subtract *)
| Losing.                  (** subtracted, about to count the own line *)
Inductive Producer : Type :=
| Outside
| Accepted                 (** read that lines are accepted *)
| Entered                  (** counted as a producer *)
| Inside                   (** read it again *)
| Leaving                  (** read the second time that they are not *)
| Placing (k : Kind) (p : Place)
| Placed.

(** What the writer has read of [idle] and of the shutdown. *)
Inductive WriterPhase : Type := Working | SawProtocol | SawDiagnostic | SawIdle | Returned.

Record System : Type := mkSystem {
  lanes : Kind -> Lane;
  threads : list Producer;
  producers : Z;
  accepting : bool;
  shutdown : bool;
  writer : WriterPhase;
  quiet : bool;  (** nobody was logging when the writer began to read [idle] *)
}.

Definition lane_push (l : Lane) : Lane :=
  mkLane (capacity l) (queued l + 1) (outstanding l) (dropped l) (popped l) (repeats l) (unsubtracted l) (written l) (offered l).
Definition lane_offer (l : Lane) : Lane :=
  mkLane (capacity l) (queued l) (outstanding l + 1) (dropped l) (popped l) (repeats l) (unsubtracted l) (written l) (offered l + 1).
Definition lane_evict (l : Lane) : Lane :=
  mkLane (capacity l) (queued l - 1) (outstanding l) (dropped l) (popped l) (repeats l) (unsubtracted l) (written l) (offered l).
Definition lane_subtract (l : Lane) : Lane :=
  mkLane (capacity l) (queued l) (outstanding l - 1) (dropped l) (popped l) (repeats l) (unsubtracted l) (written l) (offered l).
Definition lane_drop (l : Lane) : Lane :=
  mkLane (capacity l) (queued l) (outstanding l) (dropped l + 1) (popped l) (repeats l) (unsubtracted l) (written l) (offered l).
Definition lane_pop (l : Lane) : Lane :=
  mkLane (capacity l) (queued l - 1) (outstanding l) (dropped l) (popped l + 1) (repeats l) (unsubtracted l) (written l) (offered l).
Definition lane_repeat (l : Lane) : Lane :=
  mkLane (capacity l) (queued l) (outstanding l - 1) (dropped l) (popped l - 1) (repeats l + 1) (unsubtracted l) (written l) (offered l).
Definition lane_write (l : Lane) : Lane :=
  mkLane (capacity l) (queued l) (outstanding l) (dropped l) (popped l - 1) 0 (unsubtracted l + 1) (written l + 1 + repeats l) (offered l).
Definition lane_settle (l : Lane) : Lane :=
  mkLane (capacity l) (queued l) (outstanding l - 1) (dropped l) (popped l) (repeats l) (unsubtracted l - 1) (written l) (offered l).

(** One access of [replace_oldest] on its lane. *)
Inductive place_step : Lane -> Place -> Lane -> option Place -> Prop :=
| place_pushed l n : queued l < capacity l -> place_step l (Trying (S n)) (lane_push l) None
| place_full l n : queued l = capacity l -> place_step l (Trying (S n)) l (Some (Refused n))
| place_popped l n : 0 < queued l -> place_step l (Refused n) (lane_evict l) (Some (Replaced n))
| place_empty l n : queued l = 0 -> place_step l (Refused n) l (Some (Trying n))
| place_subtracted l n : place_step l (Replaced n) (lane_subtract l) (Some (Counting n))
| place_counted l n : place_step l (Counting n) (lane_drop l) (Some (Trying n))
| place_out l : place_step l (Trying 0) l (Some Failing)
| place_failed l : place_step l Failing (lane_subtract l) (Some Losing)
| place_lost l : place_step l Losing (lane_drop l) None.

Inductive producer_step : System -> Producer -> System -> Producer -> Prop :=
| producer_accepted s : accepting s = true -> producer_step s Outside s Accepted
| producer_turned_away s : accepting s = false -> producer_step s Outside s Outside
| producer_entered s : producer_step s Accepted
    (mkSystem (lanes s) (threads s) (producers s + 1) (accepting s) (shutdown s) (writer s) (quiet s)) Entered
| producer_inside s : accepting s = true -> producer_step s Entered s Inside
| producer_leaving s : accepting s = false -> producer_step s Entered s Leaving
| producer_unformatted s : producer_step s Inside s Placed
| producer_offers s k : producer_step s Inside
    (mkSystem (<[k := lane_offer (lanes s k)]> (lanes s)) (threads s) (producers s) (accepting s) (shutdown s) (writer s) (quiet s))
    (Placing k (Trying 4))
| producer_places s k p l p' : place_step (lanes s k) p l p' -> producer_step s (Placing k p)
    (mkSystem (<[k := l]> (lanes s)) (threads s) (producers s) (accepting s) (shutdown s) (writer s) (quiet s))
    (match p' with Some p' => Placing k p' | None => Placed end)
| producer_finished s p : p = Placed \/ p = Leaving -> producer_step s p
    (mkSystem (lanes s) (threads s) (producers s - 1) (accepting s) (shutdown s) (writer s) (quiet s)) Outside.

Definition set_threads (s : System) (l : list Producer) : System :=
  mkSystem (lanes s) l (producers s) (accepting s) (shutdown s) (writer s) (quiet s).
Definition set_lane (s : System) (k : Kind) (l : Lane) : System :=
  mkSystem (<[k := l]> (lanes s)) (threads s) (producers s) (accepting s) (shutdown s) (writer s) (quiet s).
Definition set_writer (s : System) (w : WriterPhase) (q : bool) : System :=
  mkSystem (lanes s) (threads s) (producers s) (accepting s) (shutdown s) w q.

Definition outside (p : Producer) : bool := match p with Outside | Accepted | Entered | Leaving => true | _ => false end.

(** One access of the writer thread. *)
Inductive writer_step : System -> System -> Prop :=
| writer_pops s k : writer s = Working -> 0 < queued (lanes s k) -> writer_step s (set_lane s k (lane_pop (lanes s k)))
| writer_repeats s k : writer s = Working -> 1 < popped (lanes s k) -> writer_step s (set_lane s k (lane_repeat (lanes s k)))
| writer_writes s k : writer s = Working -> 0 < popped (lanes s k) -> writer_step s (set_lane s k (lane_write (lanes s k)))
| writer_settles s k : writer s = Working -> 0 < unsubtracted (lanes s k) -> writer_step s (set_lane s k (lane_settle (lanes s k)))
| writer_saw_protocol s : writer s = Working -> outstanding (lanes s Protocol) = 0 ->
    writer_step s (set_writer s SawProtocol (negb (accepting s) && forallb outside (threads s)))
| writer_saw_diagnostic s : writer s = SawProtocol -> outstanding (lanes s Diagnostic) = 0 ->
    writer_step s (set_writer s SawDiagnostic (quiet s))
| writer_saw_producers s : writer s = SawDiagnostic -> producers s = 0 -> writer_step s (set_writer s SawIdle (quiet s))
| writer_goes_on s : writer s <> Returned -> writer_step s (set_writer s Working false)
| writer_returns s : writer s = SawIdle -> shutdown s = true -> writer_step s (set_writer s Returned (quiet s)).

Inductive log_step : System -> System -> Prop :=
| log_producer s s' l1 p p' l2 : threads s = l1 ++ p :: l2 -> producer_step s p s' p' ->
    log_step s (set_threads s' (l1 ++ p' :: l2))
| log_writer s s' : writer_step s s' -> log_step s s'
| log_refuse s : log_step s (mkSystem (lanes s) (threads s) (producers s) false (shutdown s) (writer s) (quiet s))
| log_shutdown s : accepting s = false ->
    log_step s (mkSystem (lanes s) (threads s) (producers s) (accepting s) true (writer s) (quiet s)).

Definition empty_lane (capacity : Z) : Lane := mkLane (Z.max capacity 1) 0 0 0 0 0 0 0 0.
Definition log_start (n : nat) : System :=
  mkSystem (fun k => empty_lane (match k with Protocol => PROTOCOL_CAPACITY | Diagnostic => DIAGNOSTIC_CAPACITY end))
    (replicate n Outside) 0 true false Working false.

(** What a thread holds of a lane: lines counted as outstanding, and lines that
    are neither queued nor dropped yet. *)
Definition weights (q : Place) : Z * Z :=
  match q with
  | Trying _ | Refused _ | Failing => (1, 1)
  | Replaced _ => (2, 2)
  | Counting _ => (1, 2)
  | Losing => (0, 1)
  end.
Definition holds (k : Kind) (p : Producer) : Z * Z :=
  match p with Placing k' q => if decide (k = k') then weights q else (0, 0) | _ => (0, 0) end.
Definition held (k : Kind) (p : Producer) : Z := fst (holds k p).
Definition carried (k : Kind) (p : Producer) : Z := snd (holds k p).

Fixpoint sum_of (f : Producer -> Z) (l : list Producer) : Z := match l with [] => 0 | p :: l => f p + sum_of f l end.

(** A lane, with what the threads hold and carry of it. *)
Definition lane_facts (l : Lane) (h c : Z) : Prop :=
  0 <= queued l <= capacity l /\ 0 <= popped l /\ 0 <= unsubtracted l /\ 0 <= repeats l /\ (0 < repeats l -> 0 < popped l)
  /\ outstanding l = queued l + popped l + unsubtracted l + h
  /\ offered l = queued l + popped l + repeats l + written l + dropped l + c.

Definition lane_ok (k : Kind) (s : System) : Prop :=
  lane_facts (lanes s k) (sum_of (held k) (threads s)) (sum_of (carried k) (threads s)).

Definition counted (p : Producer) : Z := match p with Outside | Accepted => 0 | _ => 1 end.

Definition log_ok (s : System) : Prop :=
  (forall k, lane_ok k s) /\ producers s = sum_of counted (threads s).

Lemma sum_of_mid f l1 p l2 : sum_of f (l1 ++ p :: l2) = sum_of f l1 + f p + sum_of f l2.
Proof. induction l1 as [|q l1 IH]; cbn [app sum_of]; lia. Qed.

Lemma sum_of_zero f l : Forall (fun p => f p = 0) l -> sum_of f l = 0.
Proof. induction 1; cbn [sum_of]; lia. Qed.

Lemma sum_of_nonneg f l : (forall p, 0 <= f p) -> 0 <= sum_of f l.
Proof. intros Hf. induction l as [|p l IH]; cbn [sum_of]; [done|]. specialize (Hf p). lia. Qed.

Lemma held_nonneg k p : 0 <= held k p.
Proof. unfold held, holds. destruct p; cbn; try lia. destruct (decide _); [|done]. destruct p; cbn; lia. Qed.

Definition lane_fields := (capacity, queued, outstanding, dropped, popped, repeats, unsubtracted, written, offered).

Lemma place_facts l p l' p' h c :
  place_step l p l' p' -> lane_facts l (h + fst (weights p)) (c + snd (weights p)) ->
  lane_facts l' (h + match p' with Some p' => fst (weights p') | None => 0 end)
    (c + match p' with Some p' => snd (weights p') | None => 0 end).
Proof.
  intros Hs. unfold lane_facts. destruct Hs; destruct l; cbn in *; lia.
Qed.

Lemma set_threads_ok s l1 p p' l2 l :
  threads s = l1 ++ p :: l2 -> log_ok s ->
  (forall k h c, lane_facts (lanes s k) (h + held k p) (c + carried k p) -> lane_facts (l k) (h + held k p') (c + carried k p')) ->
  forall pr a sd w q, pr = producers s + counted p' - counted p ->
  log_ok (mkSystem l (l1 ++ p' :: l2) pr a sd w q).
Proof.
  intros Ht [Hl Hp] Hstep pr a sd w q ->. split; [|cbn [threads producers]; rewrite Hp, Ht, !sum_of_mid; lia].
  intros k. specialize (Hl k). unfold lane_ok in *. cbn [threads lanes]. rewrite Ht in Hl. rewrite !sum_of_mid in *.
  replace (sum_of (held k) l1 + held k p' + sum_of (held k) l2) with (sum_of (held k) l1 + sum_of (held k) l2 + held k p') by lia.
  replace (sum_of (carried k) l1 + carried k p' + sum_of (carried k) l2) with (sum_of (carried k) l1 + sum_of (carried k) l2 + carried k p') by lia.
  apply Hstep. eapply (eq_ind_r (fun x => lane_facts _ x _)); [eapply (eq_ind_r (fun x => lane_facts _ _ x)); [exact Hl|lia]|lia].
Qed.

Lemma producer_step_ok s p s' p' l1 l2 :
  threads s = l1 ++ p :: l2 -> producer_step s p s' p' -> log_ok s -> log_ok (set_threads s' (l1 ++ p' :: l2)).
Proof.
  intros Ht Hs. revert Ht. unfold set_threads.
  destruct Hs as [s Ha|s Ha|s|s Ha|s Ha|s|s k|s k q l q' Hpl|s q Hq]; intros Ht Hok;
    cbn [lanes threads producers accepting shutdown writer quiet];
    (eapply (set_threads_ok s l1 _ _ l2); [exact Ht|exact Hok| |]); try (cbn [counted]; lia);
    try (intros k h c; exact id).
  - intros k' h c Hf. unfold held, carried, holds in *. destruct (decide (k' = k)) as [->|Hne].
    + rewrite fn_lookup_insert. unfold lane_facts in *. destruct (lanes s k). cbn in *. lia.
    + by rewrite fn_lookup_insert_ne by done.
  - intros k' h c Hf. destruct (decide (k = k')) as [<-|Hne].
    + rewrite fn_lookup_insert. unfold held, carried, holds in *. rewrite decide_True in Hf by done.
      pose proof (place_facts _ _ _ _ h c Hpl Hf) as Hf'. destruct q' as [q'|]; [by rewrite decide_True|done].
    + rewrite fn_lookup_insert_ne by done. unfold held, carried, holds in *. rewrite decide_False in Hf by done.
      destruct q' as [q'|]; [by rewrite decide_False by done|done].
  - destruct q'; cbn [counted]; lia.
  - intros k h c. destruct Hq as [-> | ->]; exact id.
  - destruct Hq as [-> | ->]; cbn [counted]; lia.
Qed.

Lemma writer_step_ok s s' : writer_step s s' -> log_ok s -> log_ok s'.
Proof.
  assert (forall k l, (lane_ok k s -> forall h c, lane_facts (lanes s k) h c -> lane_facts l h c) -> log_ok s -> log_ok (set_lane s k l)) as Hset.
  { intros k l Hl [Hlanes Hp]. split; [|done]. intros k'. specialize (Hlanes k'). unfold lane_ok, set_lane in *. cbn [lanes threads].
    destruct (decide (k = k')) as [<-|Hne]; [rewrite fn_lookup_insert; by apply Hl|by rewrite fn_lookup_insert_ne]. }
  intros Hs Hok. destruct Hs as [s k Hw Hq|s k Hw Hq|s k Hw Hq|s k Hw Hq| | | | |]; try done; apply Hset; try done;
    intros _ h c; unfold lane_facts; destruct (lanes s k); cbn in *; lia.
Qed.

Lemma log_step_ok s s' : log_ok s -> log_step s s' -> log_ok s'.
Proof.
  intros Hok Hs. destruct Hs as [s s' l1 p p' l2 Ht Hp|s s' Hw|s|s _]; [by eapply producer_step_ok|by eapply writer_step_ok|done..].
Qed.

Lemma log_start_ok n : log_ok (log_start n).
Proof.
  assert (forall f, f Outside = 0 -> sum_of f (replicate n Outside) = 0) as Hz.
  { intros f Hf. apply sum_of_zero. apply Forall_forall. by intros p [-> _]%elem_of_replicate. }
  split; [|unfold log_start; cbn [producers threads]; by rewrite Hz]. intros k. unfold lane_ok, log_start. cbn [lanes threads].
  rewrite !Hz by done. unfold lane_facts, empty_lane. cbn. lia.
Qed.

(** After a quiet look nobody can offer a line any more. *)
Definition quiet_ok (s : System) : Prop :=
  quiet s = true ->
  accepting s = false /\ Forall (fun p => outside p = true) (threads s) /\ writer s <> Working
  /\ outstanding (lanes s Protocol) = 0 /\ (writer s <> SawProtocol -> outstanding (lanes s Diagnostic) = 0).

Lemma quiet_step s s' : quiet_ok s -> log_step s s' -> quiet_ok s'.
Proof.
  unfold quiet_ok. intros Hq Hs. inversion Hs as [s0 s1 l1 p p' l2 Ht Hp|s0 s1 Hw|s0|s0 Hacc]; subst.
  - assert (quiet (set_threads s1 (l1 ++ p' :: l2)) = quiet s) as -> by by inversion Hp.
    intros Hquiet. destruct (Hq Hquiet) as (Ha & Hf & Hw & Hp0 & Hd0). rewrite Ht, Forall_app, Forall_cons in Hf.
    destruct Hf as (H1 & Hpo & H2).
    inversion Hp as [| | | | | | | |s2 q Hor]; subst; cbn [set_threads accepting threads lanes writer]; try congruence; try done;
      (split; [done|split; [|done]]); by rewrite Forall_app, Forall_cons.
  - inversion Hw as [s2 k Hwk| | | |s2 Hwk Ho|s2 Hwk Ho|s2 Hwk Hpr|s2 Hwk|s2 Hwk Hsd]; subst;
      cbn [set_lane set_writer quiet accepting threads writer lanes]; try done; intros Hquiet;
      try (destruct (Hq Hquiet) as (Ha & Hf & Hnw & Hp0 & Hd0); congruence).
    + apply andb_true_iff in Hquiet as [Ha Hf]. split; [by destruct (accepting s)|]. split; [|by split_and!].
      apply Forall_forall. intros p Hin. rewrite forallb_forall in Hf. by apply Hf, list_elem_of_In.
    + destruct (Hq Hquiet) as (Ha & Hf & Hnw & Hp0 & Hd0). by split_and!.
    + destruct (Hq Hquiet) as (Ha & Hf & Hnw & Hp0 & Hd0). split_and!; try done. intros _. apply Hd0. by rewrite Hwk.
    + destruct (Hq Hquiet) as (Ha & Hf & Hnw & Hp0 & Hd0). split_and!; try done. intros _. apply Hd0. by rewrite Hwk.
  - cbn [quiet accepting threads writer lanes]. intros Hquiet. destruct (Hq Hquiet) as (Ha & Hf & Hw & Hp0 & Hd0). by split_and!.
  - cbn [quiet accepting threads writer lanes]. intros Hquiet. destruct (Hq Hquiet) as (Ha & Hf & Hw & Hp0 & Hd0). by split_and!.
Qed.

Lemma sum_of_outside k l : Forall (fun p => outside p = true) l -> sum_of (held k) l = 0 /\ sum_of (carried k) l = 0.
Proof. intros Hf. split; apply sum_of_zero; (eapply Forall_impl; [exact Hf|]); by intros []. Qed.

(** A line of [lane] is neither queued nor in the hands of the writer, and all
    that were offered are written or counted as dropped. *)
Definition settled (l : Lane) : Prop := queued l = 0 /\ popped l = 0 /\ offered l = written l + dropped l.

Ltac tidy := cbn [lanes threads producers accepting shutdown writer quiet set_threads set_writer set_lane app].
Ltac thread_steps tac := eapply rtc_l; [eapply (log_producer _ _ [] _ _ _); [reflexivity|tac]|tidy].
Ltac writer_steps tac := eapply rtc_l; [apply log_writer; tac|tidy].

(** However threads log, the writer writes and the logger is shut down, a
    queue never exceeds its capacity, and every line that was offered is
    queued, with the writer, written, dropped and counted, or still with its
    thread. When the writer returns and nobody was logging and lines were
    refused as it began to look whether it is idle, every line is written or
    counted as dropped. But it reads the outstanding lines before it reads the
    producers and the shutdown: a line that a thread has logged, and finished
    logging while lines were still accepted, can be left in its queue when the
    writer returns. *)
Lemma lines_accounted n :
  (forall s, rtc log_step (log_start n) s ->
     (forall k, lane_ok k s) /\ producers s = sum_of counted (threads s)
     /\ (writer s = Returned -> quiet s = true -> forall k, settled (lanes s k)))
  /\ ((0 < n)%nat -> exists s s', rtc log_step (log_start n) s /\ accepting s = true /\ Forall (eq Outside) (threads s)
        /\ queued (lanes s Protocol) = 1
        /\ rtc log_step s s' /\ writer s' = Returned /\ queued (lanes s' Protocol) = 1 /\ threads s' = threads s).
Proof.
  split.
  - intros s Hr. assert (log_ok s /\ quiet_ok s) as [[Hl Hp] Hq].
    { assert (log_ok (log_start n) /\ quiet_ok (log_start n)) as Hw by (split; [apply log_start_ok|done]).
      revert Hw. induction Hr as [|x y z Hxy _ IH]; [done|]. intros [Hok Hqo]. apply IH. split; [by eapply log_step_ok|by eapply quiet_step]. }
    split; [done|]. split; [done|]. intros Hw Hquiet k. destruct (Hq Hquiet) as (_ & Hf & _ & Hp0 & Hd0).
    specialize (Hl k). unfold lane_ok in Hl. destruct (sum_of_outside k _ Hf) as [Hh Hc]. rewrite Hh, Hc in Hl.
    assert (outstanding (lanes s k) = 0) as Ho by (destruct k; [done|apply Hd0; by rewrite Hw]).
    unfold lane_facts, settled in *. lia.
  - intros Hn. destruct n as [|n]; [lia|]. eexists _, _. split.
    { writer_steps ltac:(by apply writer_saw_protocol).
      thread_steps ltac:(by apply producer_accepted). thread_steps ltac:(by apply producer_entered).
      thread_steps ltac:(by apply producer_inside). thread_steps ltac:(by apply (producer_offers _ Protocol)).
      thread_steps ltac:(by apply producer_places; apply place_pushed).
      thread_steps ltac:(by apply producer_finished; left). apply rtc_refl. }
    split; [done|]. split.
    { constructor; [done|]. apply Forall_forall. by intros p [-> _]%elem_of_replicate. }
    split; [done|]. split.
    { writer_steps ltac:(apply writer_saw_diagnostic; reflexivity). writer_steps ltac:(apply writer_saw_producers; reflexivity).
      eapply rtc_l; [apply log_refuse|tidy]. eapply rtc_l; [apply log_shutdown; reflexivity|tidy].
      writer_steps ltac:(apply writer_returns; reflexivity). apply rtc_refl. }
    split; [reflexivity|]. split; reflexivity.
Qed.
End Threads.
