(* ===== verification/Engine.v ===== *)
(** * Engine: starting the engine and speaking with its host

    Models the decisions of [lib.rs]: how many workers and threads run, the
    arguments that are rewritten, the resolving of the peer, the commands of the
    host and the configurations of the server; the seeded credentials of
    [turn_seed.rs]; the ticks of [stats.rs]; and the events of [events.rs] that
    are rationed. *)

From Stdlib Require Import Strings.String.
From S2P Require Import Prelude Bytes Text PacketPool Idle TurnCore Credentials Groups.

(** ** How much runs *)

Definition GROUPS_PER_VK_HASH : Z := 3.
Definition MAX_VK_HASHES : Z := 6.
Definition MAX_WORKERS : Z := 126.
Definition STREAMS_PER_RUNTIME_WORKER : Z := 12.
Definition MAX_RUNTIME_WORKER_THREADS : Z := 4.

Definition clamp (z low high : Z) : Z := Z.max low (Z.min z high).
Definition div_ceil (a b : Z) : Z := a / b + (if a mod b =? 0 then 0 else 1).

Definition normalize_worker_count (requested : Z) : Z :=
  clamp requested WORKERS_PER_GROUP MAX_WORKERS / WORKERS_PER_GROUP * WORKERS_PER_GROUP.

Definition normalize_worker_count_for_hashes (requested hash_count : Z) (allow_hash_redistribution : bool) : Z :=
  if allow_hash_redistribution then normalize_worker_count requested else
  let maximum := clamp hash_count 1 MAX_VK_HASHES * GROUPS_PER_VK_HASH * WORKERS_PER_GROUP in
  Z.min (normalize_worker_count requested) maximum.

Definition runtime_worker_threads (requested : Z) : Z :=
  clamp (div_ceil (normalize_worker_count requested) STREAMS_PER_RUNTIME_WORKER) 1 MAX_RUNTIME_WORKER_THREADS.

Definition required_js_ready_bots (groups : Z) : Z := clamp (div_ceil groups GROUPS_PER_CREDENTIAL) 1 2.

(** The calls, the workers and the groups of a run, as [run] makes them of its
    arguments. *)
Definition run_size (raw : text) (requested : Z) (allow : bool) : list text * Z * Z :=
  let hashes := take (Z.to_nat MAX_VK_HASHES) (parse_hashes raw) in
  let workers := normalize_worker_count_for_hashes requested (zlen hashes) allow in
  (hashes, workers, workers / WORKERS_PER_GROUP).

(** The groups below [k] that have the call with index [h]. *)
Definition groups_of_call (calls k h : nat) : list nat := List.filter (fun g => (group_hash_index g calls =? h)%nat) (seq 0 k).

Lemma normalize_bounds requested :
  exists groups, normalize_worker_count requested = groups * 9 /\ 1 <= groups <= 14 /\ (9 <= requested -> groups * 9 <= requested).
Proof.
  unfold normalize_worker_count, clamp, WORKERS_PER_GROUP, MAX_WORKERS.
  exists (Z.max 9 (Z.min requested 126) / 9). split; [done|].
  pose proof (Z.div_mod (Z.max 9 (Z.min requested 126)) 9 ltac:(lia)).
  pose proof (Z.mod_pos_bound (Z.max 9 (Z.min requested 126)) 9 ltac:(lia)). lia.
Qed.

Lemma groups_of_call_count calls k h : (h < calls)%nat -> length (groups_of_call calls k h) = earlier calls k h.
Proof.
  intros Hh. unfold groups_of_call. induction k as [|k IH].
  { cbn. unfold earlier. symmetry. apply Nat.div_small. lia. }
  rewrite seq_S, List.filter_app, length_app, IH, earlier_step by done. cbn [List.filter plus]. unfold group_hash_index.
  destruct (Nat.eqb_spec (k mod calls) h) as [Heq|Hne]; [by rewrite decide_True|rewrite decide_False by done; done].
Qed.

(** Whatever number of workers is asked for, the engine runs whole groups of
    nine, at least one and at most fourteen, and no more than asked for if that
    is a group or more; their ids have a place in the tables of the idle mode,
    and the pool has its share of buffers for each without saturating. Unless
    groups may be moved to other calls, no call gets more than three groups. *)
Lemma run_size_bounded raw requested allow :
  let '(hashes, workers, groups) := run_size raw requested allow in
  hashes <> [] ->
  workers = groups * 9 /\ 1 <= groups <= 14 /\ (9 <= requested -> workers <= requested)
  /\ zlen hashes <= 6 /\ NoDup hashes
  /\ (forall g id, 1 <= g <= groups -> id ∈ group_worker_ids g -> 1 <= id <= workers /\ id < JOINED_SLOTS)
  /\ packet_pool_size workers = workers * PACKET_POOL_PER_WORKER + PACKET_POOL_SHARED
  /\ (allow = false -> forall h, (h < length hashes)%nat -> (length (groups_of_call (length hashes) (Z.to_nat groups) h) <= 3)%nat).
Proof.
  unfold run_size. set (hashes := take (Z.to_nat MAX_VK_HASHES) (parse_hashes raw)). intros Hne.
  assert (NoDup hashes) as Hnd.
  { destruct (hashes_clean raw) as [Hn _]. rewrite <- (take_drop (Z.to_nat MAX_VK_HASHES) (parse_hashes raw)) in Hn. by apply NoDup_app in Hn as [? _]. }
  assert (1 <= zlen hashes <= 6) as Hlen.
  { split; [destruct hashes; [done|]; rewrite zlen_cons; pose proof (zlen_nonneg hashes); lia|].
    unfold hashes, zlen, MAX_VK_HASHES. rewrite length_take. lia. }
  clearbody hashes. destruct (normalize_bounds requested) as (n & Hn & Hn14 & Hreq).
  assert (exists groups, normalize_worker_count_for_hashes requested (zlen hashes) allow = groups * 9 /\ 1 <= groups <= n
    /\ (allow = false -> groups <= 3 * zlen hashes)) as (groups & Hw & Hg & Hcap).
  { unfold normalize_worker_count_for_hashes. destruct allow; [exists n; split; [done|]; split; [lia|done]|].
    unfold clamp, MAX_VK_HASHES, GROUPS_PER_VK_HASH, WORKERS_PER_GROUP.
    replace (Z.max 1 (Z.min (zlen hashes) 6)) with (zlen hashes) by lia. rewrite Hn. exists (Z.min n (3 * zlen hashes)). lia. }
  rewrite Hw. unfold WORKERS_PER_GROUP. rewrite Z.div_mul by lia. split; [done|]. split; [lia|]. split; [lia|]. split; [lia|].
  split; [done|]. split; [|split].
  - intros g id Hgg (k & -> & Hk)%list_elem_of_fmap. rewrite list_elem_of_In, in_seq in Hk.
    unfold WORKERS_PER_GROUP, JOINED_SLOTS in *. lia.
  - unfold packet_pool_size, saturating_add, saturating_mul, PACKET_POOL_PER_WORKER, PACKET_POOL_SHARED. lia.
  - intros Hallow h Hh. rewrite groups_of_call_count by done. unfold earlier. specialize (Hcap Hallow).
    apply Nat.lt_succ_r. apply Nat.Div0.div_lt_upper_bound. unfold zlen in *. lia.
Qed.

Lemma run_size_bounded_witness :
  let '(hashes, workers, groups) := run_size (ascii "a,b") 200 false in
  workers = groups * 9 /\ 1 <= groups <= 14.
Proof.
  pose proof (run_size_bounded (ascii "a,b") 200 false) as H. destruct (run_size _ _ _) as [[hashes workers] groups] eqn:E.
  destruct H as (H1 & H2 & _); [intros Hn; rewrite Hn in E; vm_compute in E; discriminate|by split].
Defined.

(** ** The arguments *)

Definition FLAGS : list text :=
  map ascii ["turn"; "port"; "listen"; "vk"; "vk-hash-mode"; "peer"; "device-id"; "password"; "vk-auth-mode"; "captcha-mode";
             "fingerprint"; "client-ids"; "obfs"; "turn-transport"; "gen"; "salt"; "tun-uds"; "allow-hash-redistribution";
             "validate-vk-hashes"]%string.

Definition normalize_cli_argument (argument : text) : text :=
  match strip_prefix [0x2d] argument with
  | Some value =>
      let name := default value (head (split 0x3d value)) in
      if negb (starts_with value [0x2d]) && existsb (bytes_eqb name) FLAGS then 0x2d :: argument else argument
  | None => argument
  end.

(** Only an argument that is one dash and a flag, with its value or not, is
    rewritten, and then to two dashes; doing it again changes nothing. *)
Lemma normalize_cli_once argument :
  (normalize_cli_argument argument = argument
   \/ (normalize_cli_argument argument = 0x2d :: argument
       /\ exists value, argument = 0x2d :: value /\ (exists name, name ∈ FLAGS /\ head (split 0x3d value) = Some name)))
  /\ normalize_cli_argument (normalize_cli_argument argument) = normalize_cli_argument argument.
Proof.
  assert (forall v, normalize_cli_argument (0x2d :: 0x2d :: v) = 0x2d :: 0x2d :: v) as Hdd by done.
  unfold normalize_cli_argument at 1 2 4 5. destruct (strip_prefix [0x2d] argument) as [value|] eqn:Es.
  2:{ split; [by left|]. unfold normalize_cli_argument. by rewrite Es. }
  apply strip_prefix_Some in Es as ->. cbn [app]. destruct (_ && _) eqn:E.
  - split; [|apply Hdd]. right. split; [done|]. exists value. split; [done|]. apply andb_true_iff in E as [_ E].
    apply existsb_exists in E as (name & Hin & Heq%bytes_eqb_eq). exists name. split; [by apply list_elem_of_In|].
    destruct (split 0x3d value) as [|part parts] eqn:Ep; [|by rewrite <- Heq].
    exfalso. clear -Ep. destruct value as [|x value]; cbn [split] in Ep; [done|]. destruct (split 0x3d value); [done|]. by destruct (x =? 0x3d).
  - split; [by left|]. unfold normalize_cli_argument. cbn [strip_prefix]. change (0x2d =? 0x2d) with true. cbv iota. by rewrite E.
Qed.

(** ** The peer *)

Definition PEER_ATTEMPTS : Z := 15.

(** [resolve_peer]: [answers] are what the resolver would give at each attempt,
    and the cache holds the last peer with its address. The result counts the
    attempts that were made. *)
Section Peer.
Context {A E : Type}.

Definition cached_peer (cache : option (text * A)) (peer : text) : option A :=
  match cache with Some (p, a) => if bytes_eqb p peer then Some a else None | None => None end.

Fixpoint peer_attempts (peer : text) (cache : option (text * A)) (answer : nat -> result A E) (attempt : nat) (tries : nat)
    (last_error : option E) : result A (option E) * option (text * A) * nat :=
  match tries with
  | O =>
      match cached_peer cache peer with
      | Some a => (Ok a, cache, attempt)
      | None => (Err last_error, cache, attempt)
      end
  | S tries =>
      match answer attempt with
      | Ok a => (Ok a, Some (peer, a), S attempt)
      | Err e =>
          match (if (1 <=? attempt)%nat then cached_peer cache peer else None) with
          | Some a => (Ok a, cache, S attempt)
          | None => peer_attempts peer cache answer (S attempt) tries (Some e)
          end
      end
  end.

Definition resolve_peer (peer : text) (cache : option (text * A)) (answer : nat -> result A E)
    : result A (option E) * option (text * A) * nat :=
  peer_attempts peer cache answer 0 (Z.to_nat PEER_ATTEMPTS) None.

Lemma peer_attempts_spec peer cache answer tries attempt e0 :
  let '(r, cache', n) := peer_attempts peer cache answer attempt tries e0 in
  (attempt <= n <= attempt + tries)%nat
  /\ match r with
     | Ok a => (exists k, (attempt <= k < n)%nat /\ answer k = Ok a /\ cache' = Some (peer, a)
                  /\ forall j, (attempt <= j < k)%nat -> exists e, answer j = Err e)
               \/ (cached_peer cache peer = Some a /\ cache' = cache /\ forall j, (attempt <= j < n)%nat -> exists e, answer j = Err e)
     | Err _ => cached_peer cache peer = None /\ cache' = cache /\ n = (attempt + tries)%nat
                /\ forall j, (attempt <= j < n)%nat -> exists e, answer j = Err e
     end.
Proof.
  revert attempt e0. induction tries as [|tries IH]; intros attempt e0; cbn [peer_attempts].
  { destruct (cached_peer cache peer) eqn:Ec; [split; [lia|]; right; split_and!; try done; lia|].
    split; [lia|]. split_and!; try done; lia. }
  destruct (answer attempt) as [a|e] eqn:Ea.
  { split; [lia|]. left. exists attempt. split; [lia|]. split_and!; try done; lia. }
  destruct (if (1 <=? attempt)%nat then cached_peer cache peer else None) as [a|] eqn:Ec.
  { split; [lia|]. right. destruct (1 <=? attempt)%nat; [|done]. split_and!; try done.
    intros j Hj. replace j with attempt by lia. by exists e. }
  specialize (IH (S attempt) (Some e)). destruct (peer_attempts _ _ _ _ _ _) as [[r cache'] n]. destruct IH as [Hn Hr].
  assert (forall j, (attempt <= j)%nat -> (S attempt <= j)%nat \/ j = attempt) as Hsplit by lia.
  split; [lia|]. destruct r as [a|e'].
  - destruct Hr as [(k & Hk & Hak & Hc & Hall)|(Hc & Hc' & Hall)].
    + left. exists k. split; [lia|]. split_and!; try done. intros j Hj. destruct (Hsplit j) as [Hs| ->]; [lia| |by exists e]. apply Hall. lia.
    + right. split_and!; try done. intros j Hj. destruct (Hsplit j) as [Hs| ->]; [lia| |by exists e]. apply Hall. lia.
  - destruct Hr as (Hc & Hc' & -> & Hall). split_and!; try done; [lia|]. intros j Hj. destruct (Hsplit j) as [Hs| ->]; [lia| |by exists e].
    apply Hall. lia.
Qed.

(** Resolving the peer asks at most fifteen times, and at most twice when the
    peer was resolved before. It gives the first answer, which it remembers,
    or the remembered address of the same peer when every attempt until then
    had failed, and fails only after fifteen failures without one. *)
Lemma resolve_peer_spec peer cache answer :
  let '(r, cache', n) := resolve_peer peer cache answer in
  (n <= 15)%nat /\ (is_Some (cached_peer cache peer) -> (n <= 2)%nat)
  /\ match r with
     | Ok a => (exists k, (k < n)%nat /\ answer k = Ok a /\ cache' = Some (peer, a) /\ forall j, (j < k)%nat -> exists e, answer j = Err e)
               \/ (cached_peer cache peer = Some a /\ cache' = cache /\ forall j, (j < n)%nat -> exists e, answer j = Err e)
     | Err _ => cached_peer cache peer = None /\ cache' = cache /\ n = 15%nat /\ forall j, (j < 15)%nat -> exists e, answer j = Err e
     end.
Proof.
  unfold resolve_peer. pose proof (peer_attempts_spec peer cache answer (Z.to_nat PEER_ATTEMPTS) 0 None) as H.
  assert (is_Some (cached_peer cache peer) -> let '(_, _, n) := peer_attempts peer cache answer 0 (Z.to_nat PEER_ATTEMPTS) None in (n <= 2)%nat) as H2.
  { intros [a Ha]. change (Z.to_nat PEER_ATTEMPTS) with 15%nat. cbn [peer_attempts]. destruct (answer 0%nat); [lia|].
    change (1 <=? 0)%nat with false. cbv iota. destruct (answer 1%nat); [lia|]. change (1 <=? 1)%nat with true. cbv iota. rewrite Ha. lia. }
  destruct (peer_attempts _ _ _ _ _ _) as [[r cache'] n]. change (Z.to_nat PEER_ATTEMPTS) with 15%nat in H. destruct H as [Hn Hr].
  split; [lia|]. split; [done|]. destruct r as [a|e].
  - destruct Hr as [(k & Hk & Hr)|(Hc & Hc' & Hall)]; [left; exists k|right].
    + split; [lia|]. destruct Hr as (H1 & H3 & Hall). split_and!; try done. intros j Hj. apply Hall. lia.
    + split_and!; try done. intros j Hj. apply Hall. lia.
  - destruct Hr as (Hc & Hc' & -> & Hall). split_and!; try done. intros j Hj. apply Hall. lia.
Qed.
End Peer.

(** ** Commands of the host *)

(** What a line of the host may change; the captcha solver has room for one
    result, which [try_send] refuses when it is taken. *)
Record Control : Type := mkControl {
  paused : bool;
  finish_js_calls : bool;
  cancelled : bool;
  captcha_result : option text;
}.

Inductive ControlInput : Type := Line (line : text) | Closed | ReadFailed.

(** One turn of [start_control_input]: whether it goes on, and the new state. *)
Definition control_turn (events_enabled : bool) (s : Control) (input : ControlInput) : bool * Control :=
  let cancel s := mkControl (paused s) (finish_js_calls s) true (captcha_result s) in
  match input with
  | Closed | ReadFailed => (false, if events_enabled then cancel s else s)
  | Line line =>
      let line := trim line in
      if bytes_eqb line (ascii "PAUSE") then (true, mkControl true (finish_js_calls s) (cancelled s) (captcha_result s))
      else if bytes_eqb line (ascii "RESUME") then (true, mkControl false (finish_js_calls s) (cancelled s) (captcha_result s))
      else if bytes_eqb line (ascii "FINISH_VK_CALLS") then (true, mkControl (paused s) true (cancelled s) (captcha_result s))
      else if bytes_eqb line (ascii "STOP") then (false, cancel s)
      else match strip_prefix (ascii "CAPTCHA_RESULT|") line with
           | Some result =>
               (true, match captcha_result s with
                      | None => mkControl (paused s) (finish_js_calls s) (cancelled s) (Some result)
                      | Some _ => s
                      end)
           | None => (true, s)
           end
  end.

Fixpoint control_input (events_enabled : bool) (s : Control) (inputs : list ControlInput) : Control :=
  match inputs with
  | [] => s
  | i :: inputs => let '(goes_on, s) := control_turn events_enabled s i in
      if goes_on : bool then control_input events_enabled s inputs else s
  end.

(** ** Configurations of the server *)

Record TunnelConfig : Type := mkTunnel { tun_ip : text; tun_dns : text; tunnel_active : bool; passed_on : list text }.

(** The fields of [splitn(3, ':')]. *)
Definition config_fields (value : text) : text * text :=
  match split_once 0x3a value with
  | None => (value, [])
  | Some (ip, rest) => (ip, match split_once 0x3a rest with Some (dns, _) => dns | None => rest end)
  end.

(** The loop of the configuration task; [last] is the last one that it passed
    on to the host. *)
Fixpoint config_loop (last : option text) (s : TunnelConfig) (configs : list text) : TunnelConfig :=
  match configs with
  | [] => s
  | config :: configs =>
      if bool_decide (last = Some config) then config_loop last s configs else
      let s := match strip_prefix (ascii "TUNCONF:") config with
               | Some value => mkTunnel (fst (config_fields value)) (snd (config_fields value)) true (passed_on s)
               | None => s
               end in
      config_loop (Some config) (mkTunnel (tun_ip s) (tun_dns s) (tunnel_active s) (passed_on s ++ [config])) configs
  end.

(** [l] without the elements that repeat the one before. *)
Fixpoint without_repeats (last : option text) (l : list text) : list text :=
  match l with
  | [] => []
  | x :: l => if bool_decide (last = Some x) then without_repeats last l else x :: without_repeats (Some x) l
  end.

(** The host is passed every configuration in order, but for repetitions, and
    the tunnel is active as soon as one of them was for it. *)
Lemma config_loop_spec last s configs :
  passed_on (config_loop last s configs) = passed_on s ++ without_repeats last configs
  /\ (tunnel_active (config_loop last s configs) = true <->
      tunnel_active s = true \/ exists c, c ∈ without_repeats last configs /\ starts_with c (ascii "TUNCONF:") = true).
Proof.
  revert last s. induction configs as [|config configs IH]; intros last s; cbn [config_loop without_repeats].
  { rewrite app_nil_r. split; [done|]. split; [by left|]. intros [?|(c & Hc & _)]; [done|by apply not_elem_of_nil in Hc]. }
  case_bool_decide as Hl; [apply IH|].
  set (s' := match strip_prefix (ascii "TUNCONF:") config with Some _ => _ | None => _ end).
  assert (passed_on s' = passed_on s) as Hp by (unfold s'; by destruct (strip_prefix _ _)).
  assert (tunnel_active s' = true <-> tunnel_active s = true \/ starts_with config (ascii "TUNCONF:") = true) as Ht.
  { unfold s', starts_with. destruct (strip_prefix _ _); cbn [tunnel_active]; naive_solver. }
  destruct (IH (Some config) (mkTunnel (tun_ip s') (tun_dns s') (tunnel_active s') (passed_on s' ++ [config]))) as [H1 H2].
  rewrite H1, H2. cbn [passed_on tunnel_active]. rewrite Hp, <- app_assoc, Ht. split; [done|]. setoid_rewrite elem_of_cons. naive_solver.
Qed.

(** ** Seeded credentials *)

(** The seeds that the host installs are a map by call. *)
Definition install (seeds : gmap text TurnCredentials) (hash username password : text) (urls : list text) : gmap text TurnCredentials :=
  let hash := trim hash in
  if (zlen hash =? 0) || (zlen username =? 0) || (zlen password =? 0) || (zlen urls =? 0) then seeds
  else <[hash := mkCredentials username password urls]> seeds.
Definition clear (seeds : gmap text TurnCredentials) : gmap text TurnCredentials := ∅.
Definition lookup_seed (seeds : gmap text TurnCredentials) (hash : text) : option TurnCredentials := seeds !! trim hash.

(** A seed that is found can be used: it names a user, a password and a relay. *)
Lemma seeds_usable seeds hash username password urls :
  (forall h c, lookup_seed seeds h = Some c -> tc_username c <> [] /\ tc_password c <> [] /\ tc_server_addresses c <> []) ->
  forall h c, lookup_seed (install seeds hash username password urls) h = Some c ->
    (tc_username c <> [] /\ tc_password c <> [] /\ tc_server_addresses c <> [])
    /\ (trim h = trim hash -> lookup_seed seeds h = Some c \/ c = mkCredentials username password urls)
    /\ (trim h <> trim hash -> lookup_seed seeds h = Some c).
Proof.
  intros Hs h c. unfold install, lookup_seed in *. destruct (_ || _) eqn:E; [intros Hc; split; [by apply (Hs h)|by split; [left|]]|].
  rewrite !orb_false_iff, !Z.eqb_neq in E. destruct E as (((_ & Hu) & Hp) & Ha).
  destruct (decide (trim h = trim hash)) as [Heq|Hne].
  - rewrite Heq, lookup_insert_eq. intros [= <-]. cbn [tc_username tc_password tc_server_addresses].
    split; [by split_and!; intros ->|]. split; [by right|done].
  - rewrite lookup_insert_ne by done. intros Hc. split; [by apply (Hs h)|]. by split.
Qed.

(** ** The statistics *)

Record StatsTask : Type := mkStatsTask { last_up : Z; last_down : Z; last_active : Z; quiet_ticks : Z }.

(** A tick: whether it reports, from the counters that it loads. *)
Definition stats_tick (s : StatsTask) (active up down : Z) : bool * StatsTask :=
  let unchanged := (active =? last_active s) && (up =? last_up s) && (down =? last_down s) in
  if unchanged && (active =? 0) then
    let quiet := saturating_add 32 (quiet_ticks s) 1 in
    (quiet mod 10 =? 0, mkStatsTask up down active quiet)
  else (true, mkStatsTask up down active 0).

(** ** Rationed events *)

Definition NETWORK_TIMEOUT_BURST_WINDOW : Z := 15000.

Record Events : Type := mkEvents {
  panel_restart_emitted : bool;
  network_suspect_emitted : bool;
  network_timeouts : Z;
  window_started : option Z;
  unavailable_hashes : list text;
}.

Definition new_events : Events := mkEvents false false 0 None [].

(** Each gives whether the event is emitted. *)
Definition panel_restart (s : Events) : bool * Events :=
  (negb (panel_restart_emitted s),
   mkEvents true (network_suspect_emitted s) (network_timeouts s) (window_started s) (unavailable_hashes s)).

Definition network_timeout (s : Events) (now : Z) : bool * Events :=
  let s := if match window_started s with
              | None => true
              | Some started => NETWORK_TIMEOUT_BURST_WINDOW <? saturating_sub now started
              end
           then mkEvents (panel_restart_emitted s) false 0 (Some now) (unavailable_hashes s) else s in
  let count := wrapping_add 64 (network_timeouts s) 1 in
  let should_emit := (6 <=? count) && negb (network_suspect_emitted s) in
  (should_emit, mkEvents (panel_restart_emitted s) (network_suspect_emitted s || (6 <=? count)) count (window_started s) (unavailable_hashes s)).

Definition network_recovered (s : Events) : Events :=
  mkEvents (panel_restart_emitted s) false 0 None (unavailable_hashes s).

Definition call_unavailable (s : Events) (hash : text) : bool * Events :=
  if bool_decide (hash ∈ unavailable_hashes s) then (false, s)
  else (true, mkEvents (panel_restart_emitted s) (network_suspect_emitted s) (network_timeouts s) (window_started s)
                (hash :: unavailable_hashes s)).

(** A history of timeouts, at their times, and recoveries, with whether the
    network became suspect at each. *)
Inductive NetworkNotice : Type := TimedOutAt (now : Z) | Recovered.

Definition network_notice (s : Events) (n : NetworkNotice) : bool * Events :=
  match n with TimedOutAt now => network_timeout s now | Recovered => (false, network_recovered s) end.

Fixpoint suspects (s : Events) (l : list NetworkNotice) : list bool :=
  match l with [] => [] | n :: l => let '(b, s) := network_notice s n in b :: suspects s l end.

(** The specification: the start of the open burst and the timeouts in it. *)
Definition burst (open : option (Z * Z)) (n : NetworkNotice) : option (Z * Z) :=
  match n with
  | Recovered => None
  | TimedOutAt now =>
      match open with
      | Some (started, count) =>
          if now - started <=? NETWORK_TIMEOUT_BURST_WINDOW then Some (started, count + 1) else Some (now, 1)
      | None => Some (now, 1)
      end
  end.
Fixpoint sixths (open : option (Z * Z)) (l : list NetworkNotice) : list bool :=
  match l with
  | [] => []
  | n :: l => let open := burst open n in
      match n, open with TimedOutAt _, Some (_, count) => count =? 6 | _, _ => false end :: sixths open l
  end.

Definition events_at (open : option (Z * Z)) (s : Events) : Prop :=
  match open with
  | None => window_started s = None
  | Some (started, count) => window_started s = Some started /\ network_timeouts s = count /\ 1 <= count
      /\ network_suspect_emitted s = (6 <=? count)
  end.

(** The network becomes suspect exactly at the sixth timeout of a burst, where
    a burst is the timeouts of fifteen seconds from its first one, and ends
    with a recovery; so it does once per burst. *)
Lemma suspect_at_sixth l : zlen l < 2 ^ 64 - 1 -> suspects new_events l = sixths None l.
Proof.
  intros Hlen. assert (forall open s, events_at open s -> match open with Some (_, c) => c | None => 0 end + zlen l < 2 ^ 64 - 1 ->
    suspects s l = sixths open l) as H; [|by apply H].
  clear Hlen. induction l as [|n l IH]; intros open s Hs Hlen; [done|]. rewrite zlen_cons in Hlen. pose proof (zlen_nonneg l).
  cbn [suspects sixths]. destruct n as [now|]; cbn [network_notice burst].
  2:{ f_equal. apply IH; [done|]. destruct open as [[? ?]|]; [destruct Hs as (_ & _ & ? & _)|]; lia. }
  unfold network_timeout. destruct open as [[started count]|]; cbn [events_at] in Hs.
  - destruct Hs as (Hw & Hc & Hpos & He). rewrite Hw. unfold saturating_sub, NETWORK_TIMEOUT_BURST_WINDOW in *.
    destruct (Z.ltb_spec 15000 (Z.max (now - started) 0)), (Z.leb_spec (now - started) 15000); try lia;
      cbn [network_timeouts network_suspect_emitted window_started negb orb andb]; rewrite ?Hc, ?He, ?Hw;
      unfold wrapping_add, wrap; rewrite Z.mod_small by lia.
    + f_equal. apply IH; [|lia]. cbn [events_at window_started network_timeouts network_suspect_emitted]. split_and!; done || lia.
    + f_equal; [destruct (Z.leb_spec 6 (count + 1)), (Z.leb_spec 6 count), (Z.eqb_spec (count + 1) 6); done || lia|].
      apply IH; [|lia]. cbn [events_at window_started network_timeouts network_suspect_emitted]. split_and!; try done; try lia.
  - rewrite Hs. cbn [network_timeouts network_suspect_emitted window_started negb orb andb]. f_equal.
    apply IH; [|lia]. cbn [events_at window_started network_timeouts network_suspect_emitted]. by split_and!.
Qed.
