(* ===== verification/UdpBatch.v ===== *)
(** * UdpBatch: datagrams in kernel batches

    Models [udp_batch.rs]: the adaptive size of a batch, the sending and
    receiving of a batch by one system call with its fallback to a call per
    datagram, and the loop that sends a batch to its end. A socket is what has
    arrived on it or was given to it, with a script of how the kernel answers
    its next calls. *)

From S2P Require Import Prelude Bytes PacketPool StunCodec Digests TurnMessage.

Definition MIN_DATAGRAMS : Z := 16.
Definition MAX_DATAGRAMS : Z := 128.

Definition adapt_batch_limit (current received : Z) : Z :=
  if (current <=? received) && (current <? MAX_DATAGRAMS) then
    if current <=? MIN_DATAGRAMS then 32 else if current <=? 32 then 64 else MAX_DATAGRAMS
  else if (received =? 0) || (saturating_mul 64 received 4 <=? current) then
    if 65 <=? current then 64 else if 33 <=? current then 32 else MIN_DATAGRAMS
  else current.

(** A limit stays a size that the batches are made for; full batches double it
    up to the largest, and quiet ones halve it down to the smallest. *)
Lemma adapt_batch_limit_sizes current received :
  current ∈ [16; 32; 64; 128] -> is_u 64 received ->
  let l := adapt_batch_limit current received in
  l ∈ [16; 32; 64; 128]
  /\ (current <= received -> l = Z.min 128 (2 * current))
  /\ (received * 4 <= current -> l = Z.max 16 (current / 2))
  /\ (received < current < received * 4 -> l = current).
Proof.
  intros Hc [Hr Hr']. unfold adapt_batch_limit, saturating_mul, MAX_DATAGRAMS, MIN_DATAGRAMS.
  rewrite !elem_of_cons, elem_of_nil in *. cbv zeta.
  destruct Hc as [->|[->|[->|[->|[]]]]]; cbn [Z.ltb Z.leb Z.compare Pos.compare Pos.compare_cont];
    repeat (match goal with |- context [?a <=? ?b] => destruct (Z.leb_spec a b) | |- context [?a =? ?b] => destruct (Z.eqb_spec a b) end;
            cbn [andb orb]); conjs; try (intros; vm_compute; done); try lia; auto.
Qed.

(** ** Errors *)

Inductive ErrorKind : Type := WouldBlock | Interrupted | InvalidInput | InvalidData | WriteZero | OtherKind.
#[export] Instance error_kind_eq_dec : EqDecision ErrorKind.
Proof. solve_decision. Defined.

Record IoError : Type := mkIo { kind : ErrorKind; raw_os_error : option Z }.

Definition would_block : IoError := mkIo WouldBlock None.
Definition invalid_data : IoError := mkIo InvalidData None.
Definition short_datagram_send : IoError := mkIo WriteZero None.

Definition ENOSYS : Z := 38.
Definition EPERM : Z := 1.
Definition EOPNOTSUPP : Z := 95.

Definition mmsg_unavailable (e : IoError) : bool :=
  match raw_os_error e with
  | Some code => (code =? ENOSYS) || (code =? EPERM) || (code =? EOPNOTSUPP)
  | None => false
  end.

Definition validate_batch_len (length : Z) : result unit IoError :=
  if length <=? MAX_DATAGRAMS then Ok tt else Err (mkIo InvalidInput None).
Definition validate_receive_batch (packet_count source_count : Z) : result unit IoError :=
  match validate_batch_len packet_count with
  | Err e => Err e
  | Ok _ => if packet_count =? source_count then Ok tt else Err (mkIo InvalidInput None)
  end.

(** ** Sending *)

(** How the kernel answers a call: it takes up to so many datagrams, only the
    first bytes of one, or fails. A call that it is not ready for would block;
    so does every call after the script. *)
Inductive SendAnswer : Type := Takes (n : Z) | TakesPart (bytes : Z) | SendFails (e : IoError).

(** A socket: the datagrams that the kernel took, and the script. The switch
    [SEND_MMSG_ENABLED] is shared by all sockets. *)
Record SendSide : Type := mkSend { wire : list bytes; answers : list SendAnswer; mmsg_enabled : bool }.

Definition take_datagrams (s : SendSide) (rest : list SendAnswer) (l : list bytes) : SendSide :=
  mkSend (wire s ++ l) rest (mmsg_enabled s).

(** [sendmmsg] until it is not interrupted; a return of zero would block. *)
Fixpoint send_mmsg_loop (datagrams : list bytes) (s : SendSide) (script : list SendAnswer) : result Z IoError * SendSide :=
  match script with
  | [] => (Err would_block, take_datagrams s [] [])
  | SendFails e :: rest =>
      if bool_decide (kind e = Interrupted) then send_mmsg_loop datagrams s rest
      else (Err e, take_datagrams s rest [])
  | Takes n :: rest =>
      let sent := take (Z.to_nat n) datagrams in
      if zlen sent =? 0 then (Err would_block, take_datagrams s rest []) else (Ok (zlen sent), take_datagrams s rest sent)
  | TakesPart n :: rest =>
      match datagrams with
      | [] => (Err would_block, take_datagrams s rest [])
      | d :: _ => (Ok 1, take_datagrams s rest [take (Z.to_nat n) d])
      end
  end.

Definition try_send_mmsg (datagrams : list bytes) (s : SendSide) : result Z IoError * SendSide :=
  if zlen datagrams =? 0 then (Ok 0, s) else
  let '(r, s) := send_mmsg_loop datagrams s (answers s) in
  match r with
  | Ok sent => if zlen datagrams <? sent then (Err invalid_data, s) else (Ok sent, s)
  | Err e => (Err e, s)
  end.

(** [UdpSocket::try_send]: how many bytes of the datagram were taken. *)
Definition try_send_one (datagram : bytes) (s : SendSide) : result Z IoError * SendSide :=
  match answers s with
  | [] => (Err would_block, s)
  | SendFails e :: rest => (Err e, take_datagrams s rest [])
  | Takes n :: rest =>
      if n <=? 0 then (Err would_block, take_datagrams s rest [])
      else (Ok (zlen datagram), take_datagrams s rest [datagram])
  | TakesPart n :: rest =>
      (Ok (zlen (take (Z.to_nat n) datagram)), take_datagrams s rest [take (Z.to_nat n) datagram])
  end.

(** [portable::try_send_connected] *)
Fixpoint portable_send (datagrams : list bytes) (sent : Z) (s : SendSide) : result Z IoError * SendSide :=
  match datagrams with
  | [] => (Ok sent, s)
  | d :: datagrams =>
      match try_send_one d s with
      | (Ok length, s) => if length =? zlen d then portable_send datagrams (sent + 1) s else (Err short_datagram_send, s)
      | (Err e, s) =>
          if bool_decide (kind e = WouldBlock) && (0 <? sent) then (Ok sent, s) else (Err e, s)
      end
  end.

Definition platform_send (datagrams : list bytes) (s : SendSide) : result Z IoError * SendSide :=
  if negb (mmsg_enabled s) then portable_send datagrams 0 s else
  match try_send_mmsg datagrams s with
  | (Err e, s) =>
      if mmsg_unavailable e then portable_send datagrams 0 (mkSend (wire s) (answers s) false) else (Err e, s)
  | r => r
  end.

Definition try_send_connected (datagrams : list bytes) (s : SendSide) : result Z IoError * SendSide :=
  match validate_batch_len (zlen datagrams) with
  | Err e => (Err e, s)
  | Ok _ => platform_send datagrams s
  end.

(** The loop of [send_connected], a turn per wait for the socket to be
    writable; [None] as long as it waits for more. *)
Fixpoint send_loop (waits : list (result unit IoError)) (datagrams : list bytes) (sent : Z) (s : SendSide)
    : option (result unit IoError) * SendSide :=
  if zlen datagrams <=? sent then (Some (Ok tt), s) else
  match waits with
  | [] => (None, s)
  | Err e :: _ => (Some (Err e), s)
  | Ok _ :: waits =>
      match try_send_connected (drop (Z.to_nat sent) datagrams) s with
      | (Ok 0, s) => send_loop waits datagrams sent s
      | (Ok count, s) => send_loop waits datagrams (sent + count) s
      | (Err e, s) =>
          if bool_decide (kind e = WouldBlock) then send_loop waits datagrams sent s else (Some (Err e), s)
      end
  end.

Definition send_connected (waits : list (result unit IoError)) (datagrams : list bytes) (s : SendSide)
    : option (result unit IoError) * SendSide :=
  match validate_batch_len (zlen datagrams) with
  | Err e => (Some (Err e), s)
  | Ok _ => send_loop waits datagrams 0 s
  end.

(** A datagram socket takes datagrams whole. *)
Definition atomic (script : list SendAnswer) : Prop := Forall (fun a => match a with TakesPart _ => False | _ => True end) script.

(** What a try leaves: the first [k] datagrams were taken; it says so, or it
    fails, and then with none taken if it would block. *)
Definition sends (datagrams : list bytes) (s s' : SendSide) (before : Z) (r : result Z IoError) : Prop :=
  exists k, (k <= length datagrams)%nat /\ wire s' = wire s ++ take k datagrams /\ atomic (answers s')
    /\ (mmsg_enabled s' = true -> mmsg_enabled s = true)
    /\ match r with
       | Ok n => n = before + Z.of_nat k
       | Err e => (k < length datagrams)%nat /\ (kind e = WouldBlock -> k = 0%nat /\ before = 0)
       end.

Lemma portable_send_spec datagrams before s :
  0 <= before -> atomic (answers s) ->
  let '(r, s') := portable_send datagrams before s in
  sends datagrams s s' before r /\ (forall n, r = Ok n -> datagrams <> [] -> before < n \/ 0 < before).
Proof.
  revert before s. induction datagrams as [|d ds IH]; intros before s Hb Ha; cbn [portable_send].
  { split; [exists 0%nat|done]. rewrite app_nil_r, Z.add_0_r. by conjs. }
  destruct (try_send_one d s) as [r s1] eqn:E.
  assert (atomic (answers s1) /\ mmsg_enabled s1 = mmsg_enabled s
          /\ match r with Ok n => n = zlen d /\ wire s1 = wire s ++ [d] | Err _ => wire s1 = wire s end) as (Ha1 & Hm1 & Hr).
  { unfold try_send_one in E. destruct (answers s) as [|a rest] eqn:Es.
    - simplify_eq/=. by rewrite Es.
    - apply Forall_cons in Ha as [Hh Ha]. destruct a as [n| |e]; [destruct (n <=? 0)|done|]; simplify_eq/=; by rewrite ?app_nil_r. }
  destruct r as [n|e].
  - destruct Hr as [-> Hw]. rewrite Z.eqb_refl. specialize (IH (before + 1) s1 ltac:(lia) Ha1).
    destruct (portable_send ds (before + 1) s1) as [r s2]. destruct IH as [(k & Hk & Hwk & Hak & Hmk & Hrk) _].
    split; [|intros n -> _; lia]. exists (S k). cbn [length take].
    split; [lia|]. split; [by rewrite Hwk, Hw, <- app_assoc|]. split; [done|]. split; [by rewrite <- Hm1|].
    destruct r as [n|e]; [lia|]. destruct Hrk as [Hlt Hwb]. split; [lia|]. intros He. destruct (Hwb He). lia.
  - assert (forall r', (match r' with Ok n => n = before | Err e => kind e = WouldBlock -> before = 0 end) ->
      sends (d :: ds) s s1 before r') as Hs.
    { intros r' Hr'. exists 0%nat. rewrite Hr, Hm1, app_nil_r, Z.add_0_r. cbn [length]. conjs; try done; try lia.
      destruct r'; [done|]. split; [lia|]. auto. }
    case_bool_decide as Hwb; cbn [andb].
    + destruct (Z.ltb_spec 0 before); (split; [apply Hs; try done; lia|]); [right; done|done].
    + split; [by apply Hs|done].
Qed.

(** One call for all: it takes a first part, or nothing when it fails. *)
Lemma try_send_mmsg_spec datagrams s :
  datagrams <> [] -> atomic (answers s) ->
  let '(r, s') := try_send_mmsg datagrams s in
  sends datagrams s s' 0 r /\ mmsg_enabled s' = mmsg_enabled s
  /\ match r with Ok n => 0 < n | Err _ => wire s' = wire s end.
Proof.
  intros Hne. assert (0 < length datagrams)%nat as Hlen by (destruct datagrams; [done|cbn; lia]).
  unfold try_send_mmsg. destruct (Z.eqb_spec (zlen datagrams) 0) as [Hz%zlen_zero|_]; [done|].
  assert (forall e s', wire s' = wire s -> atomic (answers s') -> mmsg_enabled s' = mmsg_enabled s ->
    sends datagrams s s' 0 (Err e) /\ mmsg_enabled s' = mmsg_enabled s /\ wire s' = wire s) as Hfail.
  { intros e s' Hw Ha Hm. split; [|done]. exists 0%nat. rewrite Hw, Hm, app_nil_r. conjs; try done; lia. }
  induction (answers s) as [|a script IH]; intros Ha; cbn [send_mmsg_loop].
  { apply Hfail; [apply app_nil_r|by constructor|done]. }
  apply Forall_cons in Ha as [Hh Ha]. destruct a as [n| |e]; [|done|].
  - destruct (Z.eqb_spec (zlen (take (Z.to_nat n) datagrams)) 0) as [Hz|Hz]; [apply Hfail; [apply app_nil_r|done|done]|].
    set (k := length (take (Z.to_nat n) datagrams)). assert (k <= length datagrams)%nat as Hk by (unfold k; rewrite length_take; lia).
    change (zlen (take (Z.to_nat n) datagrams)) with (Z.of_nat k) in *.
    destruct (Z.ltb_spec (zlen datagrams) (Z.of_nat k)) as [Hlt|_]; [unfold zlen in Hlt; lia|].
    split; [|split; [done|lia]]. exists k. conjs; try done; try lia. cbn [take_datagrams wire]. f_equal.
    unfold k. rewrite length_take. destruct (Nat.le_gt_cases (Z.to_nat n) (length datagrams)).
    + by rewrite Nat.min_l.
    + rewrite Nat.min_r by lia. by rewrite !take_ge by lia.
  - case_bool_decide; [by apply IH|apply Hfail; [apply app_nil_r|done|done]].
Qed.

Lemma platform_send_spec datagrams s :
  datagrams <> [] -> atomic (answers s) ->
  let '(r, s') := platform_send datagrams s in
  sends datagrams s s' 0 r /\ forall n, r = Ok n -> 0 < n.
Proof.
  intros Hne Ha. unfold platform_send. destruct (mmsg_enabled s) eqn:Hm; cbn [negb].
  2:{ pose proof (portable_send_spec datagrams 0 s (Z.le_refl 0) Ha) as Hp. destruct (portable_send datagrams 0 s) as [r s'].
      destruct Hp as [Hs Hp]. split; [done|]. intros n Hn. destruct (Hp n Hn Hne); lia. }
  pose proof (try_send_mmsg_spec datagrams s Hne Ha) as Ht. destruct (try_send_mmsg datagrams s) as [[n|e] s1].
  { destruct Ht as (Hs & _ & Hn). split; [done|]. by intros ? [= <-]. }
  destruct Ht as ((k & _ & _ & Ha1 & _) & Hm1 & Hw). destruct (mmsg_unavailable e).
  2:{ split; [|done]. exists 0%nat. rewrite Hw, app_nil_r. destruct datagrams; [done|]. cbn [length]. conjs; try done; lia. }
  pose proof (portable_send_spec datagrams 0 (mkSend (wire s1) (answers s1) false) (Z.le_refl 0) Ha1) as Hp.
  destruct (portable_send datagrams 0 _) as [r s2]. destruct Hp as [(k2 & Hk2 & Hw2 & Ha2 & Hm2 & Hr2) Hp].
  split; [|intros n Hn; destruct (Hp n Hn Hne); lia]. exists k2. cbn [wire mmsg_enabled] in *. rewrite Hw2, Hw. by conjs.
Qed.

Lemma send_loop_spec waits datagrams k s :
  (k <= length datagrams)%nat -> zlen datagrams <= MAX_DATAGRAMS -> atomic (answers s) ->
  let '(r, s') := send_loop waits datagrams (Z.of_nat k) s in
  exists j, (k <= j <= length datagrams)%nat /\ wire s' = wire s ++ take (j - k) (drop k datagrams) /\ atomic (answers s')
    /\ (mmsg_enabled s' = true -> mmsg_enabled s = true) /\ (r = Some (Ok tt) <-> j = length datagrams).
Proof.
  revert k s. induction waits as [|w waits IH]; intros k s Hk Hmax Ha; cbn [send_loop].
  all: assert (forall s', wire s' = wire s -> atomic (answers s') -> (mmsg_enabled s' = true -> mmsg_enabled s = true) ->
    forall r : option (result unit IoError), (r = Some (Ok tt) <-> k = length datagrams) -> exists j, (k <= j <= length datagrams)%nat
      /\ wire s' = wire s ++ take (j - k) (drop k datagrams) /\ atomic (answers s')
      /\ (mmsg_enabled s' = true -> mmsg_enabled s = true) /\ (r = Some (Ok tt) <-> j = length datagrams)) as Hstop
    by (intros s' Hw Ha' Hm' r Hr; exists k; rewrite Nat.sub_diag, Hw, app_nil_r; by conjs).
  all: destruct (Z.leb_spec (zlen datagrams) (Z.of_nat k)) as [Hge|Hlt]; [apply Hstop; try done; split; [unfold zlen in Hge; lia|done]|].
  all: unfold zlen in Hlt.
  { apply Hstop; try done. split; [done|lia]. }
  destruct w as [[]|e]; [|apply Hstop; try done; split; [done|lia]]. rewrite Nat2Z.id.
  unfold try_send_connected, validate_batch_len. rewrite zlen_drop_list.
  destruct (Z.leb_spec (Z.max 0 (zlen datagrams - Z.of_nat k)) MAX_DATAGRAMS) as [_|Hbig]; [|pose proof (zlen_nonneg datagrams); unfold MAX_DATAGRAMS in *; lia].
  assert (drop k datagrams <> []) as Hne by (intros Hd%(f_equal length); rewrite length_drop in Hd; cbn in Hd; lia).
  pose proof (platform_send_spec (drop k datagrams) s Hne Ha) as Hp. destruct (platform_send (drop k datagrams) s) as [r s1].
  destruct Hp as [(n & Hn & Hw & Ha1 & Hm1 & Hr) Hpos]. rewrite length_drop in Hn, Hr.
  destruct r as [count|e].
  - specialize (Hpos _ eq_refl). rewrite Z.add_0_l in Hr. subst count.
    specialize (IH (k + n)%nat s1 ltac:(lia) Hmax Ha1). rewrite Nat2Z.inj_add in IH.
    destruct (Z.of_nat n) eqn:En; [lia| |lia]. rewrite <- En in *.
    destruct (send_loop waits datagrams _ s1) as [r s2]. destruct IH as (j & Hj & Hwj & Haj & Hmj & Hrj). exists j.
    split; [lia|]. split; [|split; [done|split; [by auto|done]]].
    rewrite Hwj, Hw, <- app_assoc. f_equal. rewrite <- drop_drop, take_take_drop. f_equal. lia.
  - destruct Hr as [Hlt' Hwb]. case_bool_decide as Hkind.
    + destruct (Hwb Hkind) as [-> _]. rewrite take_0, app_nil_r in Hw. specialize (IH k s1 Hk Hmax Ha1).
      destruct (send_loop waits datagrams _ s1) as [r s2]. destruct IH as (j & Hj & Hwj & Haj & Hmj & Hrj). exists j. rewrite Hwj, Hw. by eauto 10.
    + exists (k + n)%nat. replace (k + n - k)%nat with n by lia. conjs; try done; try lia. split; [done|lia].
Qed.

(** Whatever the kernel answers, in whatever pieces, [send_connected] hands
    it the datagrams of a batch in order and each at most once, also when it
    gives the batch call up on the way and goes on datagram by datagram; it
    reports success exactly when the kernel has taken them all. A batch that is
    too long is refused and nothing of it is sent. *)
Lemma batch_sent_once waits datagrams s :
  atomic (answers s) ->
  let '(r, s') := send_connected waits datagrams s in
  exists k, (k <= length datagrams)%nat /\ wire s' = wire s ++ take k datagrams
    /\ (r = Some (Ok tt) <-> k = length datagrams /\ zlen datagrams <= 128)
    /\ (128 < zlen datagrams -> k = 0%nat /\ r = Some (Err (mkIo InvalidInput None))).
Proof.
  intros Ha. unfold send_connected, validate_batch_len. destruct (Z.leb_spec (zlen datagrams) MAX_DATAGRAMS) as [Hle|Hgt].
  - pose proof (send_loop_spec waits datagrams 0 s (Nat.le_0_l _) Hle Ha) as Hs. change (Z.of_nat 0) with 0 in Hs.
    destruct (send_loop waits datagrams 0 s) as [r s']. destruct Hs as (j & Hj & Hw & _ & _ & Hr).
    exists j. rewrite Nat.sub_0_r, drop_0 in Hw. unfold MAX_DATAGRAMS in Hle. split; [lia|]. split; [done|]. split; [tauto|lia].
  - exists 0%nat. unfold MAX_DATAGRAMS in Hgt. rewrite app_nil_r. split; [lia|]. split; [done|]. split; [|done]. split; [done|lia].
Qed.

(** Four datagrams: the kernel takes two, is busy, refuses the batch call for
    good, and takes the others one by one. *)
Definition busy_kernel : list SendAnswer := [Takes 2; Takes 0; SendFails (mkIo OtherKind (Some ENOSYS)); Takes 1; Takes 1].

Lemma batch_sent_once_witness :
  send_connected (replicate 3 (Ok tt)) [[1]; [2]; [3]; [4]] (mkSend [] busy_kernel true)
    = (Some (Ok tt), mkSend [[1]; [2]; [3]; [4]] [] false)
  /\ exists k, [[1]; [2]; [3]; [4]] = @nil bytes ++ take k [[1]; [2]; [3]; [4]].
Proof.
  split; [reflexivity|].
  pose proof (batch_sent_once (replicate 3 (Ok tt)) [[1]; [2]; [3]; [4]] (mkSend [] busy_kernel true)) as H.
  destruct (send_connected _ _ _) as [r s'] eqn:E. vm_compute in E. injection E as <- <-.
  destruct H as (k & _ & H & _); [by repeat constructor|by exists k].
Defined.

(** ** Sending to a destination *)

(** A socket without a peer: what the kernel took goes with its destination. The
    code of these functions is that of the connected ones, with the destination in
    every call and a switch of its own ([SEND_TO_MMSG_ENABLED]). *)
Record SendToSide : Type := mkSendTo { sent_to : list (SocketAddr * bytes); to_answers : list SendAnswer; to_mmsg_enabled : bool }.

Definition to_destination {R} (destination : SocketAddr) (send : SendSide -> R * SendSide) (s : SendToSide) : R * SendToSide :=
  let '(r, c) := send (mkSend [] (to_answers s) (to_mmsg_enabled s)) in
  (r, mkSendTo (sent_to s ++ map (pair destination) (wire c)) (answers c) (mmsg_enabled c)).

Definition try_sendto_mmsg (destination : SocketAddr) (datagrams : list bytes) : SendToSide -> result Z IoError * SendToSide :=
  to_destination destination (try_send_mmsg datagrams).
Definition portable_send_to (destination : SocketAddr) (datagrams : list bytes) : SendToSide -> result Z IoError * SendToSide :=
  to_destination destination (portable_send datagrams 0).
Definition platform_send_to (destination : SocketAddr) (datagrams : list bytes) (s : SendToSide) : result Z IoError * SendToSide :=
  if negb (to_mmsg_enabled s) then portable_send_to destination datagrams s else
  match try_sendto_mmsg destination datagrams s with
  | (Err e, s) =>
      if mmsg_unavailable e then portable_send_to destination datagrams (mkSendTo (sent_to s) (to_answers s) false) else (Err e, s)
  | r => r
  end.
Definition try_send_to (destination : SocketAddr) (datagrams : list bytes) (s : SendToSide) : result Z IoError * SendToSide :=
  match validate_batch_len (zlen datagrams) with
  | Err e => (Err e, s)
  | Ok _ => platform_send_to destination datagrams s
  end.

Fixpoint send_to_loop (waits : list (result unit IoError)) (destination : SocketAddr) (datagrams : list bytes) (sent : Z) (s : SendToSide)
    : option (result unit IoError) * SendToSide :=
  if zlen datagrams <=? sent then (Some (Ok tt), s) else
  match waits with
  | [] => (None, s)
  | Err e :: _ => (Some (Err e), s)
  | Ok _ :: waits =>
      match try_send_to destination (drop (Z.to_nat sent) datagrams) s with
      | (Ok 0, s) => send_to_loop waits destination datagrams sent s
      | (Ok count, s) => send_to_loop waits destination datagrams (sent + count) s
      | (Err e, s) =>
          if bool_decide (kind e = WouldBlock) then send_to_loop waits destination datagrams sent s else (Some (Err e), s)
      end
  end.

Definition send_to (waits : list (result unit IoError)) (destination : SocketAddr) (datagrams : list bytes) (s : SendToSide)
    : option (result unit IoError) * SendToSide :=
  match validate_batch_len (zlen datagrams) with
  | Err e => (Some (Err e), s)
  | Ok _ => send_to_loop waits destination datagrams 0 s
  end.

(** What was taken before does not matter to a send. *)
Definition carried {R} (send : SendSide -> R * SendSide) : Prop := forall w a m,
  send (mkSend w a m) = let '(r, c) := send (mkSend [] a m) in (r, mkSend (w ++ wire c) (answers c) (mmsg_enabled c)).

Lemma try_send_one_carried d : carried (try_send_one d).
Proof.
  intros w a m. unfold try_send_one. cbn [answers]. destruct a as [|[n|n|e] rest]; cbn [take_datagrams wire answers mmsg_enabled];
    [by rewrite app_nil_r| |done|].
  - destruct (n <=? 0); cbn [take_datagrams wire answers mmsg_enabled app]; reflexivity.
  - reflexivity.
Qed.

Lemma portable_send_carried datagrams sent : carried (portable_send datagrams sent).
Proof.
  revert sent. induction datagrams as [|d ds IH]; intros sent w a m; cbn [portable_send wire answers mmsg_enabled]; [by rewrite app_nil_r|].
  rewrite (try_send_one_carried d w a m). destruct (try_send_one d (mkSend [] a m)) as [[n|e] [w1 a1 m1]]; cbn [wire answers mmsg_enabled].
  - destruct (n =? zlen d); [|done]. rewrite (IH _ (w ++ w1)), (IH _ w1). destruct (portable_send ds _ _) as [r c]. cbn. by rewrite app_assoc.
  - by destruct (_ && _).
Qed.

Lemma send_mmsg_loop_carried datagrams script w a m :
  send_mmsg_loop datagrams (mkSend w a m) script
  = let '(r, c) := send_mmsg_loop datagrams (mkSend [] a m) script in (r, mkSend (w ++ wire c) (answers c) (mmsg_enabled c)).
Proof.
  induction script as [|[n|n|e] rest IH]; cbn [send_mmsg_loop]; try reflexivity.
  - by destruct (_ =? 0).
  - by destruct datagrams.
  - by destruct (bool_decide _).
Qed.

Lemma try_send_mmsg_carried datagrams : carried (try_send_mmsg datagrams).
Proof.
  intros w a m. unfold try_send_mmsg. destruct (_ =? 0); [cbn; by rewrite app_nil_r|]. cbn [answers]. rewrite send_mmsg_loop_carried.
  destruct (send_mmsg_loop datagrams (mkSend [] a m) a) as [[n|e] c]; [by destruct (_ <? n)|done].
Qed.

Lemma platform_send_carried datagrams : carried (platform_send datagrams).
Proof.
  intros w a m. unfold platform_send. cbn [mmsg_enabled]. destruct m; cbn [negb]; [|apply portable_send_carried].
  rewrite try_send_mmsg_carried. destruct (try_send_mmsg datagrams (mkSend [] a true)) as [[n|e] [w1 a1 m1]]; cbn [wire answers mmsg_enabled]; [done|].
  destruct (mmsg_unavailable e); [|done]. rewrite (portable_send_carried _ _ (w ++ w1)), (portable_send_carried _ _ w1).
  destruct (portable_send datagrams 0 _) as [r c]. cbn. by rewrite app_assoc.
Qed.

Lemma platform_send_to_paired destination datagrams s :
  platform_send_to destination datagrams s = to_destination destination (platform_send datagrams) s.
Proof.
  unfold platform_send_to, portable_send_to, try_sendto_mmsg, to_destination, platform_send. cbn [mmsg_enabled].
  destruct (to_mmsg_enabled s) ; cbn [negb]; [|done].
  destruct (try_send_mmsg datagrams _) as [[n|e] [w1 a1 m1]]; cbn [wire answers mmsg_enabled sent_to to_answers to_mmsg_enabled]; [done|].
  destruct (mmsg_unavailable e); [|done]. rewrite (portable_send_carried _ _ w1). destruct (portable_send datagrams 0 _) as [r c]. cbn.
  by rewrite map_app, app_assoc.
Qed.

Lemma send_loop_carried waits datagrams sent : carried (send_loop waits datagrams sent).
Proof.
  revert sent. induction waits as [|[[]|e] waits IH]; intros sent w a m; cbn [send_loop wire answers mmsg_enabled];
    destruct (zlen datagrams <=? sent); cbn [wire answers mmsg_enabled]; try by rewrite app_nil_r.
  unfold try_send_connected. destruct (validate_batch_len _) as [?|e]; [|case_bool_decide; [apply IH|cbn; by rewrite app_nil_r]].
  rewrite platform_send_carried. destruct (platform_send _ (mkSend [] a m)) as [[n|e] [w1 a1 m1]]; cbn [wire answers mmsg_enabled].
  - destruct n; rewrite (IH _ (w ++ w1)), (IH _ w1); destruct (send_loop waits _ _ _) as [r c]; cbn; by rewrite app_assoc.
  - case_bool_decide; [|done]. rewrite (IH _ (w ++ w1)), (IH _ w1); destruct (send_loop waits _ _ _) as [r c]; cbn; by rewrite app_assoc.
Qed.

(** Sending to a destination is the connected send, with the destination on every
    datagram. *)
Lemma send_to_paired waits destination datagrams s :
  send_to waits destination datagrams s = to_destination destination (send_connected waits datagrams) s.
Proof.
  unfold send_to, send_connected. destruct (validate_batch_len (zlen datagrams)) eqn:Ev;
    [|unfold to_destination; cbn; rewrite app_nil_r; by destruct s]. generalize 0. clear Ev. revert s.
  assert (forall s : SendToSide, s = mkSendTo (sent_to s ++ []) (to_answers s) (to_mmsg_enabled s)) as Hs by (intros []; cbn; by rewrite app_nil_r).
  induction waits as [|[[]|e] waits IH]; intros s sent; cbn [send_to_loop];
    (destruct (zlen datagrams <=? sent) eqn:E; [unfold to_destination; destruct_or?; cbn [send_loop]; rewrite E; cbn; by rewrite <- Hs|]).
  all: unfold to_destination; cbn [send_loop]; rewrite E; try (cbn; by rewrite <- Hs).
  unfold try_send_to, try_send_connected. destruct (validate_batch_len _) as [?|e].
  - rewrite platform_send_to_paired. unfold to_destination at 1.
    destruct (platform_send _ _) as [[n|e] [w1 a1 m1]]; cbn [wire answers mmsg_enabled].
    + destruct n; rewrite IH; unfold to_destination; cbn [sent_to to_answers to_mmsg_enabled]; rewrite (send_loop_carried _ _ _ w1);
        destruct (send_loop waits _ _ _) as [r c]; cbn; by rewrite map_app, app_assoc.
    + case_bool_decide; [|done]. rewrite IH; unfold to_destination; cbn [sent_to to_answers to_mmsg_enabled]; rewrite (send_loop_carried _ _ _ w1);
        destruct (send_loop waits _ _ _) as [r c]; cbn; by rewrite map_app, app_assoc.
  - case_bool_decide; [apply IH|cbn; by rewrite <- Hs].
Qed.

(** ** Receiving *)

(** The address that the kernel stores with a datagram: its length, its family
    and what [SockAddr::as_socket] reads from it. *)
Record SockStorage : Type := mkSockStorage { name_len : Z; family : Z; as_socket : option SocketAddr }.

Inductive RecvAnswer : Type := Gives (n : Z) | RecvFails (e : IoError).

(** What has arrived, and how the kernel answers the next calls. *)
Record RecvSide : Type := mkRecv { inbox : list (bytes * SockStorage); recv_answers : list RecvAnswer; recv_enabled : bool }.

Definition READ_AREA : Z := PACKET_CAPACITY - PACKET_HEADROOM.

(** A buffer takes the first bytes of a datagram; the rest is cut off, which
    only [recvmmsg] tells. *)
Definition received_part (datagram : bytes) : bytes := take (Z.to_nat READ_AREA) datagram.
Definition cut_off (datagram : bytes) : bool := READ_AREA <? zlen datagram.

Fixpoint recv_mmsg_loop (slots : nat) (s : RecvSide) (script : list RecvAnswer) : result (list (bytes * SockStorage)) IoError * RecvSide :=
  match script with
  | [] => (Err would_block, mkRecv (inbox s) [] (recv_enabled s))
  | RecvFails e :: rest =>
      if bool_decide (kind e = Interrupted) then recv_mmsg_loop slots s rest
      else (Err e, mkRecv (inbox s) rest (recv_enabled s))
  | Gives n :: rest =>
      let got := take (Nat.min (Z.to_nat n) slots) (inbox s) in
      if zlen got =? 0 then (Err would_block, mkRecv (inbox s) rest (recv_enabled s))
      else (Ok got, mkRecv (drop (length got) (inbox s)) rest (recv_enabled s))
  end.

(** The kernel writes into the buffers. *)
Fixpoint fill_batch (packets : list PacketBuf) (got : list bytes) : res (list PacketBuf) :=
  match packets, got with
  | p :: packets, d :: got =>
      p ← write_read_area p (received_part d);
      rest ← fill_batch packets got;
      Ret (p :: rest)
  | _, _ => Ret packets
  end.

Fixpoint check_messages (got : list bytes) : result unit IoError :=
  match got with
  | [] => Ok tt
  | d :: got =>
      if cut_off d then Err invalid_data
      else if READ_AREA <? zlen (received_part d) then Err invalid_data
      else check_messages got
  end.

Fixpoint set_lens (packets : list PacketBuf) (got : list bytes) : list PacketBuf * result unit IoError :=
  match packets, got with
  | p :: packets, d :: got =>
      match set_read_len p (zlen (received_part d)) with
      | Ok p => let '(rest, r) := set_lens packets got in (p :: rest, r)
      | Err _ => (p :: packets, Err invalid_data)
      end
  | _, _ => (packets, Ok tt)
  end.

Definition try_recv_mmsg (packets : list PacketBuf) (s : RecvSide) : res (list PacketBuf * result Z IoError * RecvSide) :=
  if zlen packets =? 0 then Ret (packets, Ok 0, s) else
  match recv_mmsg_loop (length packets) s (recv_answers s) with
  | (Err e, s) => Ret (packets, Err e, s)
  | (Ok messages, s) =>
      let got := map fst messages in
      packets ← fill_batch packets got;
      if zlen packets <? zlen got then Ret (packets, Err invalid_data, s) else
      match check_messages got with
      | Err e => Ret (packets, Err e, s)
      | Ok _ =>
          let '(packets, r) := set_lens packets got in
          Ret (packets, match r with Ok _ => Ok (zlen got) | Err e => Err e end, s)
      end
  end.

(** [UdpSocket::try_recv] into one buffer, and [set_read_len]. *)
Definition try_recv_one (s : RecvSide) : result (bytes * SockStorage) IoError * RecvSide :=
  match recv_answers s with
  | [] => (Err would_block, s)
  | RecvFails e :: rest => (Err e, mkRecv (inbox s) rest (recv_enabled s))
  | Gives n :: rest =>
      match inbox s with
      | d :: waiting =>
          if n <=? 0 then (Err would_block, mkRecv (inbox s) rest (recv_enabled s))
          else (Ok d, mkRecv waiting rest (recv_enabled s))
      | [] => (Err would_block, mkRecv (inbox s) rest (recv_enabled s))
      end
  end.

Fixpoint portable_recv (packets : list PacketBuf) (received : Z) (s : RecvSide) : res (list PacketBuf * result Z IoError * RecvSide) :=
  match packets with
  | [] => Ret ([], Ok received, s)
  | p :: packets =>
      match try_recv_one s with
      | (Ok (d, _), s) =>
          p ← write_read_area p (received_part d);
          match set_read_len p (zlen (received_part d)) with
          | Ok p =>
              r ← portable_recv packets (received + 1) s;
              let '(rest, r, s) := r in Ret (p :: rest, r, s)
          | Err _ => Ret (p :: packets, Err invalid_data, s)
          end
      | (Err e, s) =>
          Ret (p :: packets, if bool_decide (kind e = WouldBlock) && (0 <? received) then Ok received else Err e, s)
      end
  end.

Definition platform_recv (packets : list PacketBuf) (s : RecvSide) : res (list PacketBuf * result Z IoError * RecvSide) :=
  if negb (recv_enabled s) then portable_recv packets 0 s else
  r ← try_recv_mmsg packets s;
  match r with
  | (packets, Err e, s) =>
      if mmsg_unavailable e then portable_recv packets 0 (mkRecv (inbox s) (recv_answers s) false) else Ret (packets, Err e, s)
  | r => Ret r
  end.

Definition try_recv_connected (packets : list PacketBuf) (s : RecvSide) : res (list PacketBuf * result Z IoError * RecvSide) :=
  match validate_batch_len (zlen packets) with
  | Err e => Ret (packets, Err e, s)
  | Ok _ => platform_recv packets s
  end.

(** The loop of [recv_connected]. *)
Fixpoint recv_loop (waits : list (result unit IoError)) (packets : list PacketBuf) (s : RecvSide)
    : res (list PacketBuf * option (result Z IoError) * RecvSide) :=
  match waits with
  | [] => Ret (packets, None, s)
  | Err e :: _ => Ret (packets, Some (Err e), s)
  | Ok _ :: waits =>
      r ← try_recv_connected packets s;
      match r with
      | (packets, Err e, s) =>
          if bool_decide (kind e = WouldBlock) then recv_loop waits packets s else Ret (packets, Some (Err e), s)
      | (packets, Ok n, s) => Ret (packets, Some (Ok n), s)
      end
  end.

Definition recv_connected (waits : list (result unit IoError)) (packets : list PacketBuf) (s : RecvSide)
    : res (list PacketBuf * option (result Z IoError) * RecvSide) :=
  match validate_batch_len (zlen packets) with
  | Err e => Ret (packets, Some (Err e), s)
  | Ok _ => if zlen packets =? 0 then Ret (packets, Some (Ok 0), s) else recv_loop waits packets s
  end.

(** [socket_addr_from_storage], with the sizes of the socket address types. *)
Definition AF_INET_FAMILY : Z := 2.
Definition AF_INET6_FAMILY : Z := 10.

Definition socket_addr_from_storage (x : SockStorage) : result SocketAddr IoError :=
  if (name_len x <? 2) || (128 <? name_len x) then Err invalid_data else
  let minimum_length :=
    if family x =? AF_INET_FAMILY then Some 16 else if family x =? AF_INET6_FAMILY then Some 28 else None in
  match minimum_length with
  | None => Err invalid_data
  | Some minimum_length =>
      if name_len x <? minimum_length then Err invalid_data
      else match as_socket x with Some a => Ok a | None => Err invalid_data end
  end.

Lemma zlen_received_part d : zlen (received_part d) = Z.min 2240 (zlen d).
Proof. unfold received_part, zlen. rewrite length_take. change (Z.to_nat READ_AREA) with 2240%nat. lia. Qed.

(** A buffer that has been written and then got its length holds the bytes. *)
Definition holds (p : PacketBuf) (d : bytes) : Prop :=
  exists p', set_read_len p (zlen (received_part d)) = Ok p' /\ buf_ok p' /\ as_slice p' = Ret (received_part d).

Lemma write_read_ok p d :
  buf_ok p -> exists p', write_read_area p (received_part d) = Ret p' /\ buf_ok p' /\ holds p' d.
Proof.
  intros Hp. pose proof (zlen_received_part d). pose proof (zlen_nonneg d).
  destruct (fill_read_area p (received_part d) Hp ltac:(lia)) as (p1 & p2 & Hw & Hs & Hsl & Hok). exists p1. split; [done|].
  split; [|by exists p2]. unfold write_read_area in Hw. destruct (blit _ _ _) as [st|] eqn:E; [|done]. apply blit_length in E. simplify_eq/=.
  destruct Hp as (H1 & H2 & H3). split; [cbn [storage]; congruence|]. done.
Qed.

Lemma fill_batch_ok packets got :
  Forall buf_ok packets -> (length got <= length packets)%nat ->
  exists packets', fill_batch packets got = Ret packets' /\ Forall buf_ok packets' /\ length packets' = length packets
    /\ Forall2 holds (take (length got) packets') got.
Proof.
  revert got. induction packets as [|p packets IH]; intros [|d got] Hp Hl; cbn [fill_batch length take] in *.
  1,3: by eexists; split; [done|]; split; [done|]; split; [done|]; constructor.
  { lia. }
  apply Forall_cons in Hp as [Hp Hps]. destruct (write_read_ok p d Hp) as (p' & -> & Hok & Hh). rbind.
  destruct (IH got Hps ltac:(lia)) as (ps' & -> & Hoks & Hlen & Hhs). rbind. eexists. split; [done|]. cbn [length take].
  conjs; [by constructor|lia|by constructor].
Qed.

Lemma set_lens_ok packets got :
  Forall buf_ok packets -> (length got <= length packets)%nat -> Forall2 holds (take (length got) packets) got ->
  exists packets', set_lens packets got = (packets', Ok tt) /\ Forall buf_ok packets' /\ length packets' = length packets
    /\ Forall2 (fun p d => as_slice p = Ret (received_part d)) (take (length got) packets') got.
Proof.
  revert got. induction packets as [|p packets IH]; intros [|d got] Hp Hl Hh; cbn [set_lens length take] in *.
  1,3: by eexists; split; [done|]; split; [done|]; split; [done|]; constructor.
  { lia. }
  apply Forall_cons in Hp as [Hp Hps]. apply Forall2_cons in Hh as [(p' & -> & Hok & Hs) Hh].
  destruct (IH got Hps ltac:(lia) Hh) as (ps' & -> & Hoks & Hlen & Hss). eexists. split; [done|]. cbn [length take].
  conjs; [by constructor|lia|by constructor].
Qed.

Lemma check_messages_ok got :
  match check_messages got with
  | Ok _ => Forall (fun d => cut_off d = false) got
  | Err e => e = invalid_data /\ Exists (fun d => cut_off d = true) got
  end.
Proof.
  induction got as [|d got IH]; cbn [check_messages]; [by constructor|]. destruct (cut_off d) eqn:E; [by split; [|constructor]|].
  rewrite zlen_received_part. destruct (Z.ltb_spec READ_AREA (Z.min 2240 (zlen d))) as [Hlt|_]; [unfold READ_AREA, PACKET_CAPACITY, PACKET_HEADROOM in Hlt; lia|].
  destruct (check_messages got); [by constructor|]. destruct IH. by split; [|apply Exists_cons_tl].
Qed.

(** What a receive leaves: the packets that it took from the socket, in order,
    are in the buffers; or it failed, and if it would block it took none. *)
Definition receives (packets packets' : list PacketBuf) (s s' : RecvSide) (before : Z) (r : result Z IoError) : Prop :=
  Forall buf_ok packets' /\ length packets' = length packets /\ (recv_enabled s' = true -> recv_enabled s = true)
  /\ exists got, inbox s = got ++ inbox s' /\ (length got <= length packets)%nat /\
     match r with
     | Ok n => n = before + zlen got
         /\ Forall2 (fun p d => as_slice p = Ret (received_part d)) (take (length got) packets') (map fst got)
     | Err e => kind e = WouldBlock -> got = [] /\ before = 0
     end.

Lemma portable_recv_spec packets before s :
  0 <= before -> Forall buf_ok packets ->
  exists packets' r s', portable_recv packets before s = Ret (packets', r, s') /\ receives packets packets' s s' before r
    /\ (forall n, r = Ok n -> packets <> [] -> before < n \/ 0 < before).
Proof.
  revert before s. induction packets as [|p packets IH]; intros before s Hb Hp; cbn [portable_recv].
  { eexists _, _, _. split; [done|]. split; [|done]. split; [done|]. split; [done|]. split; [done|]. exists []. split; [done|].
    split; [done|]. split; [by rewrite Z.add_0_r|constructor]. }
  apply Forall_cons in Hp as [Hp Hps].
  assert (forall s1 r', inbox s1 = inbox s -> (recv_enabled s1 = recv_enabled s) ->
     match r' with Ok n => n = before | Err e => kind e = WouldBlock -> before = 0 end ->
     receives (p :: packets) (p :: packets) s s1 before r') as Hnone.
  { intros s1 r' Hi Hen Hr. split; [by constructor|]. split; [done|]. split; [by rewrite Hen|]. exists []. rewrite Hi.
    split; [done|]. split; [cbn; lia|]. destruct r'; [split; [by rewrite Z.add_0_r|constructor]|auto]. }
  destruct (try_recv_one s) as [r1 s1] eqn:E.
  assert (recv_enabled s1 = recv_enabled s /\ match r1 with Ok d => inbox s = d :: inbox s1 | Err _ => inbox s1 = inbox s end) as [Hen Hi].
  { unfold try_recv_one in E. destruct (recv_answers s) as [|[n|e] rest]; [by simplify_eq/=| |by simplify_eq/=].
    destruct (inbox s) as [|d waiting] eqn:Ei; [by simplify_eq/=|]. destruct (n <=? 0); by simplify_eq/=. }
  destruct r1 as [[d src]|e].
  - destruct (write_read_ok p d Hp) as (p1 & -> & _ & (p2 & Hset & Hok & Hs)). rbind. rewrite Hset.
    destruct (IH (before + 1) s1 ltac:(lia) Hps) as (ps' & r & s2 & -> & (Hoks & Hlen & Hen2 & got & Hi2 & Hl & Hr) & _). rbind.
    eexists _, _, _. split; [done|]. split; [|intros n -> _; destruct Hr as [-> _]; pose proof (zlen_nonneg got); lia].
    split; [by constructor|]. split; [cbn; lia|]. split; [by rewrite <- Hen|]. exists ((d, src) :: got). cbn [length take map fst].
    split; [by rewrite Hi, Hi2|]. split; [lia|]. destruct r as [n|e].
    + destruct Hr as [-> Hf]. rewrite zlen_cons. split; [lia|by constructor].
    + intros He. destruct (Hr He). lia.
  - eexists _, _, _. split; [done|]. case_bool_decide as Hwb; cbn [andb].
    + destruct (Z.ltb_spec 0 before); (split; [apply Hnone; try done; lia|]); [by right|done].
    + split; [by apply Hnone|done].
Qed.

Lemma take_drop_length {A} n (l : list A) : l = take n l ++ drop (length (take n l)) l.
Proof.
  rewrite length_take. destruct (Nat.le_gt_cases n (length l)).
  - by rewrite Nat.min_l, take_drop.
  - by rewrite Nat.min_r, take_ge, drop_all, app_nil_r by lia.
Qed.

(** One call for the whole batch. A batch with a datagram that was cut off
    fails, and all of it is gone. *)
Lemma try_recv_mmsg_spec packets s :
  packets <> [] -> Forall buf_ok packets ->
  exists packets' r s', try_recv_mmsg packets s = Ret (packets', r, s') /\ receives packets packets' s s' 0 r
    /\ (forall n, r = Ok n -> 0 < n)
    /\ (forall got, inbox s = got ++ inbox s' -> if is_ok r then Forall (fun d => cut_off (fst d) = false) got
          else got = [] \/ Exists (fun d => cut_off (fst d) = true) got)
    /\ (is_ok r = false -> inbox s' = inbox s \/ r = Err invalid_data).
Proof.
  intros Hne Hp. unfold try_recv_mmsg. destruct (Z.eqb_spec (zlen packets) 0) as [Hz%zlen_zero|_]; [done|].
  assert (0 < length packets)%nat as Hlen by (destruct packets; [done|cbn; lia]).
  assert (forall rest e, exists packets' r s', Ret (packets, @Err Z _ e, mkRecv (inbox s) rest (recv_enabled s)) = Ret (packets', r, s')
    /\ receives packets packets' s s' 0 r /\ (forall n, r = Ok n -> 0 < n)
    /\ (forall got, inbox s = got ++ inbox s' -> if is_ok r then Forall (fun d => cut_off (fst d) = false) got
          else got = [] \/ Exists (fun d => cut_off (fst d) = true) got)
    /\ (is_ok r = false -> inbox s' = inbox s \/ r = Err invalid_data)) as Hfail.
  { intros rest e. eexists _, _, _. split; [done|]. cbn [inbox]. split; [|split; [done|split; [|by left]]].
    - split; [done|]. split; [done|]. split; [done|]. exists []. cbn [inbox]. split; [done|]. split; [cbn; lia|done].
    - intros got Hg. left. rewrite <- (app_nil_l (inbox s)) in Hg at 1. by apply app_inv_tail in Hg. }
  induction (recv_answers s) as [|[n|e] script IH]; cbn [recv_mmsg_loop]; [apply Hfail| |case_bool_decide; [apply IH|apply Hfail]].
  set (got := take _ (inbox s)). destruct (Z.eqb_spec (zlen got) 0) as [_|Hgz]; [apply Hfail|].
  assert (length got <= length packets)%nat as Hgl by (unfold got; rewrite length_take; lia).
  pose proof (take_drop_length (Nat.min (Z.to_nat n) (length packets)) (inbox s)) as Hin. fold got in Hin.
  destruct (fill_batch_ok packets (map fst got) Hp) as (ps1 & -> & Hok1 & Hlen1 & Hh1); [by rewrite length_map|]. rbind.
  destruct (Z.ltb_spec (zlen ps1) (zlen (map fst got))) as [Hlt|_]; [unfold zlen in Hlt; rewrite length_map in Hlt; lia|].
  assert (forall got', inbox s = got' ++ drop (length got) (inbox s) -> got' = got) as Hsame.
  { intros got' Hg. rewrite Hin in Hg at 1. by apply app_inv_tail in Hg. }
  pose proof (check_messages_ok (map fst got)) as Hc. destruct (check_messages (map fst got)) as [[]|e].
  - destruct (set_lens_ok ps1 (map fst got) Hok1) as (ps2 & -> & Hok2 & Hlen2 & Hs2); [rewrite length_map; lia|done|].
    eexists _, _, _. split; [done|]. cbn [inbox is_ok]. unfold zlen in *. rewrite length_map in *.
    split; [|split; [intros ? [= <-]; lia|split; [|done]]].
    + split; [done|]. split; [lia|]. split; [done|]. exists got. split; [done|]. split; [done|]. by split.
    + intros got' Hg. apply Hsame in Hg as ->. by rewrite Forall_map in Hc.
  - destruct Hc as [-> Hex]. eexists _, _, _. split; [done|]. cbn [inbox is_ok].
    split; [|split; [done|split; [|by right]]].
    + split; [done|]. split; [done|]. split; [done|]. exists got. by split_and!.
    + intros got' Hg. apply Hsame in Hg as ->. right. apply Exists_exists in Hex as (d & Hd & Hcut); apply list_elem_of_fmap in Hd as (x & -> & Hx); apply Exists_exists; by exists x.
Qed.

Lemma platform_recv_spec packets s :
  packets <> [] -> Forall buf_ok packets ->
  exists packets' r s', platform_recv packets s = Ret (packets', r, s') /\ receives packets packets' s s' 0 r
    /\ (forall n, r = Ok n -> 0 < n).
Proof.
  intros Hne Hp. unfold platform_recv. destruct (recv_enabled s) eqn:Hen; cbn [negb].
  2:{ destruct (portable_recv_spec packets 0 s (Z.le_refl 0) Hp) as (ps & r & s' & -> & Hr & Hpos).
      eexists _, _, _. split; [done|]. split; [done|]. intros n Hn. destruct (Hpos n Hn Hne); lia. }
  destruct (try_recv_mmsg_spec packets s Hne Hp) as (ps1 & r1 & s1 & -> & Hr1 & Hpos1 & _ & Hlost). rbind.
  destruct r1 as [n|e]; [eexists _, _, _; by split|]. destruct (mmsg_unavailable e) eqn:Em; [|eexists _, _, _; by split].
  destruct Hr1 as (Hok1 & Hlen1 & Hen1 & _).
  assert (inbox s1 = inbox s) as Hi by (destruct (Hlost eq_refl); simplify_eq/=; done).
  destruct (portable_recv_spec ps1 0 (mkRecv (inbox s1) (recv_answers s1) false) (Z.le_refl 0) Hok1) as (ps & r & s' & -> & (Hok & Hlen & Hen' & got & Hg & Hl & Hr) & Hpos).
  eexists _, _, _. split; [done|]. cbn [inbox recv_enabled] in *. split.
  - split; [done|]. split; [congruence|]. split; [by intros|]. exists got. rewrite <- Hi, <- Hlen1. by split_and!.
  - intros n Hn. assert (ps1 <> []) as Hne1 by (intros ->; destruct packets; done). destruct (Hpos n Hn Hne1); lia.
Qed.

(** Whatever the kernel answers, a receive into well-formed buffers never
    panics, and while it says how many datagrams it took these are the next ones
    of the socket, in order and none twice, each in its buffer and cut off only
    where it is longer than the buffer. A receive that would block takes
    nothing. It takes at least one datagram when it succeeds, so that the loops
    around it end. *)
Lemma batch_received packets s :
  Forall buf_ok packets -> zlen packets <= 128 ->
  exists packets' r s', try_recv_connected packets s = Ret (packets', r, s')
    /\ Forall buf_ok packets' /\ length packets' = length packets
    /\ exists got, inbox s = got ++ inbox s' /\
       match r with
       | Ok n => n = zlen got /\ n <= zlen packets /\ (packets <> [] -> 0 < n)
           /\ Forall2 (fun p d => as_slice p = Ret (received_part d)) (take (length got) packets') (map fst got)
       | Err e => kind e = WouldBlock -> got = []
       end.
Proof.
  intros Hp Hlen. unfold try_recv_connected, validate_batch_len.
  destruct (Z.leb_spec (zlen packets) MAX_DATAGRAMS) as [_|Hbig]; [|unfold MAX_DATAGRAMS in Hbig; lia].
  destruct packets as [|p packets].
  { unfold platform_recv. exists [], (Ok 0), s. split; [by destruct (recv_enabled s)|]. split; [done|]. split; [done|]. exists [].
    split; [done|]. split; [done|]. split; [done|]. split; [done|constructor]. }
  destruct (platform_recv_spec (p :: packets) s ltac:(done) Hp) as (ps & r & s' & -> & (Hok & Hl & _ & got & Hi & Hg & Hr) & Hpos).
  exists ps, r, s'. split; [done|]. split; [done|]. split; [done|]. exists got. split; [done|]. destruct r as [n|e].
  - destruct Hr as [-> Hf]. rewrite Z.add_0_l. unfold zlen. split; [done|]. split; [lia|]. split; [|done].
    intros _. by apply (Hpos (0 + zlen got)).
  - intros He. by destruct (Hr He).
Qed.

Definition blank_packet : PacketBuf := mkPacketBuf (repeat 0 2304) PACKET_HEADROOM PACKET_HEADROOM.
Definition somewhere : SockStorage := mkSockStorage 16 AF_INET_FAMILY (Some (V4 [127; 0; 0; 1] 9)).

Lemma batch_received_witness :
  exists packets', try_recv_connected [blank_packet; blank_packet] (mkRecv [([7; 8], somewhere)] [Gives 64] true)
      = Ret (packets', Ok 1, mkRecv [] [] true)
    /\ match packets' with p :: _ => as_slice p = Ret [7; 8] | [] => False end.
Proof.
  destruct (batch_received [blank_packet; blank_packet] (mkRecv [([7; 8], somewhere)] [Gives 64] true)) as (ps & r & s' & E & _ & _ & H);
    [repeat constructor; done|done|].
  exists ps. vm_compute in E. injection E as <- <- <-. split; [reflexivity|]. destruct H as (got & _ & H). reflexivity.
Defined.

(** A datagram that is longer than a buffer costs the whole batch when the
    batch call is used, also the datagrams before it; without the batch call it
    is cut off, and the others arrive. *)
Example oversized_costs_batch :
  let packets := [blank_packet; blank_packet] in
  let arrived := [([7; 8], somewhere); (repeat 1 2241, somewhere)] in
  (exists packets', try_recv_connected packets (mkRecv arrived [Gives 64] true) = Ret (packets', Err invalid_data, mkRecv [] [] true))
  /\ exists packets', try_recv_connected packets (mkRecv arrived [Gives 1; Gives 1] false) = Ret (packets', Ok 2, mkRecv [] [] false).
Proof. split; eexists; vm_compute; reflexivity. Qed.

(** ** With the sources of the datagrams *)

Fixpoint check_sources (got : list (bytes * SockStorage)) : result (list SocketAddr) IoError :=
  match got with
  | [] => Ok []
  | (d, x) :: got =>
      if cut_off d then Err invalid_data
      else if READ_AREA <? zlen (received_part d) then Err invalid_data
      else match socket_addr_from_storage x with
           | Err e => Err e
           | Ok a => match check_sources got with Ok l => Ok (a :: l) | Err e => Err e end
           end
  end.

Fixpoint set_lens_sources (packets : list PacketBuf) (sources : list SocketAddr) (got : list bytes) (l : list SocketAddr)
    : list PacketBuf * list SocketAddr * result unit IoError :=
  match packets, sources, got, l with
  | p :: packets, x :: sources, d :: got, a :: l =>
      match set_read_len p (zlen (received_part d)) with
      | Ok p => let '(rest, froms, r) := set_lens_sources packets sources got l in (p :: rest, a :: froms, r)
      | Err _ => (p :: packets, x :: sources, Err invalid_data)
      end
  | _, _, _, _ => (packets, sources, Ok tt)
  end.

Definition try_recvfrom_mmsg (packets : list PacketBuf) (sources : list SocketAddr) (s : RecvSide)
    : res (list PacketBuf * list SocketAddr * result Z IoError * RecvSide) :=
  if zlen packets =? 0 then Ret (packets, sources, Ok 0, s) else
  match recv_mmsg_loop (length packets) s (recv_answers s) with
  | (Err e, s) => Ret (packets, sources, Err e, s)
  | (Ok messages, s) =>
      let got := map fst messages in
      packets ← fill_batch packets got;
      if zlen packets <? zlen got then Ret (packets, sources, Err invalid_data, s) else
      match check_sources messages with
      | Err e => Ret (packets, sources, Err e, s)
      | Ok l =>
          let '(packets, sources, r) := set_lens_sources packets sources got l in
          Ret (packets, sources, match r with Ok _ => Ok (zlen got) | Err e => Err e end, s)
      end
  end.

(** [portable::try_recv_from]; tokio gives the address. *)
Fixpoint portable_recv_from (packets : list PacketBuf) (sources : list SocketAddr) (received : Z) (s : RecvSide)
    : res (list PacketBuf * list SocketAddr * result Z IoError * RecvSide) :=
  match packets, sources with
  | p :: packets, x :: sources =>
      match try_recv_one s with
      | (Ok (d, source), s) =>
          p ← write_read_area p (received_part d);
          match as_socket source with
          | None => Ret (p :: packets, x :: sources, Err invalid_data, s)
          | Some a =>
              match set_read_len p (zlen (received_part d)) with
              | Ok p =>
                  r ← portable_recv_from packets sources (received + 1) s;
                  let '(rest, froms, r, s) := r in Ret (p :: rest, a :: froms, r, s)
              | Err _ => Ret (p :: packets, x :: sources, Err invalid_data, s)
              end
          end
      | (Err e, s) =>
          Ret (p :: packets, x :: sources, if bool_decide (kind e = WouldBlock) && (0 <? received) then Ok received else Err e, s)
      end
  | _, _ => Ret (packets, sources, Ok received, s)
  end.

Definition platform_recv_from (packets : list PacketBuf) (sources : list SocketAddr) (s : RecvSide)
    : res (list PacketBuf * list SocketAddr * result Z IoError * RecvSide) :=
  if negb (recv_enabled s) then portable_recv_from packets sources 0 s else
  r ← try_recvfrom_mmsg packets sources s;
  match r with
  | (packets, sources, Err e, s) =>
      if mmsg_unavailable e then portable_recv_from packets sources 0 (mkRecv (inbox s) (recv_answers s) false)
      else Ret (packets, sources, Err e, s)
  | r => Ret r
  end.

Definition try_recv_from (packets : list PacketBuf) (sources : list SocketAddr) (s : RecvSide)
    : res (list PacketBuf * list SocketAddr * result Z IoError * RecvSide) :=
  match validate_receive_batch (zlen packets) (zlen sources) with
  | Err e => Ret (packets, sources, Err e, s)
  | Ok _ => platform_recv_from packets sources s
  end.

(** A source whose storage decodes. *)
Definition has_source (x : bytes * SockStorage) (a : SocketAddr) : Prop :=
  socket_addr_from_storage (snd x) = Ok a /\ as_socket (snd x) = Some a.

Lemma check_sources_ok got l :
  Forall2 has_source got l ->
  check_sources got = match check_messages (map fst got) with Ok _ => Ok l | Err e => Err e end.
Proof.
  induction 1 as [|[d x] a got l [Hx _] _ IH]; [done|]. cbn [check_sources check_messages map fst].
  destruct (cut_off d); [done|]. destruct (READ_AREA <? _); [done|]. cbn [snd] in Hx. rewrite Hx, IH. by destruct (check_messages _).
Qed.

Definition put_sources (sources l : list SocketAddr) : list SocketAddr := l ++ drop (length l) sources.

Lemma set_lens_sources_ok packets sources got l packets' r :
  length packets = length sources -> length got = length l -> (length got <= length packets)%nat ->
  set_lens packets got = (packets', r) ->
  exists sources', set_lens_sources packets sources got l = (packets', sources', r)
    /\ match r with Ok _ => sources' = put_sources sources l | Err e => e = invalid_data end.
Proof.
  revert sources got l packets'. induction packets as [|p packets IH]; intros [|x sources] [|d got] [|a l] packets' Hl1 Hl2 Hl3;
    cbn [set_lens set_lens_sources length] in *; try lia; try (intros; simplify_eq; by eexists).
  destruct (set_read_len p _) as [p'|]; [|intros; simplify_eq; by eexists]. destruct (set_lens packets got) as [ps r'] eqn:E.
  intros. simplify_eq. destruct (IH sources got l ps ltac:(lia) ltac:(lia) ltac:(lia) E) as (srcs & -> & Hs).
  eexists. split; [done|]. destruct r; [by rewrite Hs|done].
Qed.

(** A receive with sources does what the receive without does, and when it
    succeeds the sources are those of the datagrams, in order. *)
Definition adds_sources (inbox : list (bytes * SockStorage)) (froms sources : list SocketAddr) (before : Z)
    (plain : res (list PacketBuf * result Z IoError * RecvSide))
    (full : res (list PacketBuf * list SocketAddr * result Z IoError * RecvSide)) : Prop :=
  forall packets r s, plain = Ret (packets, r, s) -> exists sources', full = Ret (packets, sources', r, s)
    /\ forall n, r = Ok n -> sources' = put_sources sources (take (Z.to_nat (n - before)) froms).

Lemma portable_recv_ge packets before s packets' n s' :
  portable_recv packets before s = Ret (packets', Ok n, s') -> before <= n.
Proof.
  revert before s packets'. induction packets as [|p packets IH]; intros before s packets'; cbn [portable_recv]; [intros; by simplify_eq|].
  destruct (try_recv_one s) as [[[d src]|e] s1].
  - destruct (write_read_area p _) as [p1|]; [|done]. rbind. destruct (set_read_len p1 _) as [p2|]; [|done].
    destruct (portable_recv packets (before + 1) s1) as [[[ps r] s2]|] eqn:Er; [|done]. cbn. intros. simplify_eq.
    apply IH in Er. lia.
  - destruct (_ && _); intros; by simplify_eq.
Qed.

Lemma portable_recv_from_spec packets sources before s froms :
  0 <= before -> length packets = length sources -> Forall2 has_source (inbox s) froms ->
  adds_sources (inbox s) froms sources before (portable_recv packets before s) (portable_recv_from packets sources before s).
Proof.
  revert sources before s froms. induction packets as [|p packets IH]; intros [|x sources] before s froms Hb Hlen Hf; try done;
    unfold adds_sources; cbn [portable_recv portable_recv_from]; intros ps r s' Heq.
  { simplify_eq. eexists. split; [done|]. intros ? [= <-]. rewrite Z.sub_diag. by destruct froms. }
  destruct (try_recv_one s) as [r1 s1] eqn:E.
  assert (match r1 with Ok d => inbox s = d :: inbox s1 | Err _ => True end) as Hi.
  { unfold try_recv_one in E. destruct (recv_answers s) as [|[n|e] rest]; [by simplify_eq/=| |by simplify_eq/=].
    destruct (inbox s) as [|d waiting] eqn:Ei; [by simplify_eq/=|]. destruct (n <=? 0); by simplify_eq/=. }
  destruct r1 as [[d src]|e].
  - rewrite Hi in Hf. apply Forall2_cons_inv_l in Hf as (a & froms' & [_ Ha] & Hf & ->). cbn [snd] in Ha. rewrite Ha.
    destruct (write_read_area p (received_part d)) as [p1|]; [|done]. rbind. cbn [mbind res_bind] in Heq.
    destruct (set_read_len p1 _) as [p2|e]; [|simplify_eq; eexists; by split].
    destruct (portable_recv packets (before + 1) s1) as [[[ps1 r1] s2]|] eqn:Er; [|done]. cbn in Heq. simplify_eq.
    destruct (IH sources (before + 1) s1 froms' ltac:(lia) ltac:(cbn in Hlen; lia) Hf _ _ _ Er) as (srcs & -> & Hs). rbind.
    eexists. split; [done|]. intros n ->. rewrite (Hs n eq_refl). 
    pose proof (portable_recv_ge _ _ _ _ _ _ Er). unfold put_sources.
    replace (Z.to_nat (n - before)) with (S (Z.to_nat (n - (before + 1)))) by lia. reflexivity.
  - simplify_eq. eexists. split; [done|]. intros n Hn. case_bool_decide; destruct (0 <? before); cbn in Hn; try done. simplify_eq.
    rewrite Z.sub_diag. by destruct froms.
Qed.

Lemma fill_batch_length packets got packets' : fill_batch packets got = Ret packets' -> length packets' = length packets.
Proof.
  revert got packets'. induction packets as [|p packets IH]; intros [|d got] packets'; cbn [fill_batch]; [intros; by simplify_eq..|].
  destruct (write_read_area p _); [|done]. rbind. destruct (fill_batch packets got) as [ps|] eqn:E; [|done]. cbn. intros. simplify_eq.
  cbn. f_equal. by eapply IH.
Qed.

Lemma recv_mmsg_loop_inbox slots s script r s' :
  recv_mmsg_loop slots s script = (r, s') ->
  match r with Ok messages => inbox s = messages ++ inbox s' | Err _ => inbox s' = inbox s end.
Proof.
  induction script as [|[n|e] script IH]; cbn [recv_mmsg_loop]; [intros; by simplify_eq| |case_bool_decide; [done|intros; by simplify_eq]].
  destruct (_ =? 0); intros; simplify_eq; [done|]. apply take_drop_length.
Qed.

Lemma recv_from_adds_sources packets sources s froms :
  zlen packets = zlen sources -> Forall2 has_source (inbox s) froms ->
  adds_sources (inbox s) froms sources 0 (try_recv_connected packets s) (try_recv_from packets sources s).
Proof.
  intros Hlen Hf. unfold try_recv_connected, try_recv_from, validate_receive_batch.
  assert (length packets = length sources) as Hlen' by (unfold zlen in Hlen; lia).
  destruct (validate_batch_len (zlen packets)) as [[]|e].
  2:{ intros ps r s' Heq. simplify_eq. eexists. by split. }
  rewrite Hlen, Z.eqb_refl. unfold platform_recv, platform_recv_from. destruct (recv_enabled s) eqn:Hen; cbn [negb].
  2:{ by apply portable_recv_from_spec. }
  unfold try_recv_mmsg, try_recvfrom_mmsg. destruct (Z.eqb_spec (zlen packets) 0) as [Hz%zlen_zero|_].
  { subst packets. destruct sources; [|done]. intros ps r s' Heq. rbind. cbn in Heq. simplify_eq. eexists. split; [done|]. by intros ? [= <-]. }
  assert (forall ps srcs e s1, length ps = length srcs -> inbox s1 = inbox s -> srcs = sources ->
    adds_sources (inbox s) froms sources 0
      (if mmsg_unavailable e then portable_recv ps 0 (mkRecv (inbox s1) (recv_answers s1) false) else Ret (ps, Err e, s1))
      (if mmsg_unavailable e then portable_recv_from ps srcs 0 (mkRecv (inbox s1) (recv_answers s1) false) else Ret (ps, srcs, Err e, s1))) as Hfall.
  { intros ps srcs e s1 Hl Hi ->. destruct (mmsg_unavailable e); [|intros ???; intros; simplify_eq; eexists; by split].
    rewrite <- Hi in Hf |- *. by apply (portable_recv_from_spec ps sources 0 (mkRecv (inbox s1) (recv_answers s1) false)). }
  destruct (recv_mmsg_loop (length packets) s (recv_answers s)) as [[messages|e] s1] eqn:El.
  all: apply recv_mmsg_loop_inbox in El as Hin.
  2:{ rbind. by apply Hfall. }
  destruct (fill_batch packets (map fst messages)) as [ps1|] eqn:Ef; rbind; [|by intros ???].
  destruct (Z.ltb_spec (zlen ps1) (zlen (map fst messages))) as [_|Hle];
    [intros ps r s' Heq; vm_compute in Heq; simplify_eq; eexists; by split|].
  rewrite Hin in Hf. apply Forall2_app_inv_l in Hf as (l & froms' & Hl & _ & ->). rewrite (check_sources_ok _ _ Hl).
  pose proof (check_messages_ok (map fst messages)) as Hc. destruct (check_messages (map fst messages)) as [[]|e].
  2:{ destruct Hc as [-> _]. intros ps r s' Heq. vm_compute in Heq. simplify_eq. eexists. by split. }
  destruct (set_lens ps1 (map fst messages)) as [ps2 r2] eqn:Es. unfold zlen in Hle.
  apply fill_batch_length in Ef. pose proof (Forall2_length _ _ _ Hl) as Hll.
  apply (set_lens_sources_ok _ sources _ l) in Es as (srcs & -> & Hs); [|by rewrite ?length_map in *; lia..]. rbind.
  destruct r2 as [[]|e]; intros ps r s' Heq; subst; cbn in Heq; simplify_eq; eexists; (split; [done|]); [|done].
  intros n [= <-]. rewrite Z.sub_0_r. unfold zlen. by rewrite Nat2Z.id, length_map, Hll, take_app_length.
Qed.
