(* ===== verification/TurnDriver.v ===== *)
(** * TurnDriver: the loops of a TURN driver

    Models [driver_loop_udp] and [driver_loop_stream] of [turn.rs], a turn of the
    loop at a time: the wake, the cleanup, the pump, and what is received or
    waited for. What a turn meets (clocks, the buffers that the pool lends, the
    socket, the event that ends its wait) is an argument. A turn writes down
    when the sleep it arms is over, and says so when it is still in the drain of
    the socket after all that the socket gave it. The effects of a turn on the
    core and the shared state are steps of [driver_run]. *)

From S2P Require Import Prelude Bytes Digests StunCodec TurnMessage TurnCore TurnCoreFacts PacketPool Scheduler ChannelData TurnReceive UdpBatch.

Definition CLEANUP_ERROR_RETRY : Z := millis 100.
Definition A_DAY : Z := secs (24 * 60 * 60).

(** ** The state of a loop *)

Record Loop : Type := mkLoop {
  core : Inner;
  shared : DriverShared;
  cleanup_deadline : option Z;
  cleanup_permit : bool;
  shutdown_requested : bool;
  native_deadline : Z;
  pump_needed : bool;
  receive_batch_limit : Z;
  wake_epoch : Z;
  timer : Z;  (** when the sleep that the last turn armed is over; the turn's own time when it armed none *)
}.

Definition set_core (l : Loop) (c : Inner) (s : DriverShared) : Loop :=
  mkLoop c s (cleanup_deadline l) (cleanup_permit l) (shutdown_requested l) (native_deadline l) (pump_needed l)
    (receive_batch_limit l) (wake_epoch l) (timer l).
Definition set_pump (l : Loop) (b : bool) : Loop :=
  mkLoop (core l) (shared l) (cleanup_deadline l) (cleanup_permit l) (shutdown_requested l) (native_deadline l) b
    (receive_batch_limit l) (wake_epoch l) (timer l).
Definition set_limit (l : Loop) (n : Z) : Loop :=
  mkLoop (core l) (shared l) (cleanup_deadline l) (cleanup_permit l) (shutdown_requested l) (native_deadline l) (pump_needed l)
    n (wake_epoch l) (timer l).
Definition set_timer (l : Loop) (at_ : Z) : Loop :=
  mkLoop (core l) (shared l) (cleanup_deadline l) (cleanup_permit l) (shutdown_requested l) (native_deadline l) (pump_needed l)
    (receive_batch_limit l) (wake_epoch l) at_.
Definition set_shared (l : Loop) (s : DriverShared) : Loop := set_core l (core l) s.

(** The locals before the first turn. *)
Definition start_loop (c : Inner) (s : DriverShared) (now epoch : Z) : Loop :=
  mkLoop c s None false false now true MIN_DATAGRAMS epoch now.

(** ** The head of a turn *)

(** A clock reading and random transactions for each call that a turn makes,
    the wake epoch with its gap, whether a cleanup permit is free, whether the
    socket takes what it is given, and the times at which the turn computes its
    wait and arms its sleep, or starts anew without one. *)
Record TurnEnv : Type := mkTurnEnv {
  wake_env : Env;
  epoch_now : Z;
  gap_now : Z;
  permit_free : bool;
  cleanup_env : Env;
  closing_now : Z;
  pump_env : Env;
  pump_now : Z;
  send : bytes -> bool;
  read_env : Env;
  wait_now : Z;
  armed_now : Z;
}.

(** [Drains] is a turn that has not left the drain of its socket. *)
Inductive Flow : Type := Stays (l : Loop) | Leaves (l : Loop) | Drains (l : Loop).

Section Loops.
Context `{Digests}.

Definition observe_step (t : TurnEnv) (l : Loop) : Loop :=
  let '(c, seen, pump) := observe_wake (wake_env t) (core l) (wake_epoch l) (epoch_now t) (gap_now t) in
  mkLoop c (shared l) (cleanup_deadline l) (cleanup_permit l) (shutdown_requested l) (native_deadline l)
    (pump_needed l || pump) (receive_batch_limit l) seen (timer l).

Definition closing_step (t : TurnEnv) (l : Loop) : res Flow :=
  if negb (closing (shared l)) then Ret (Stays l)
  else if negb (control_sent (shared l)) then Ret (Leaves l)
  else if negb (cleanup_permit l) && negb (permit_free t) then Ret (Leaves l)
  else
    let state := sn_state (snapshot (shared l)) in
    r ← start_driver_cleanup (cleanup_env t) (core l) (cleanup_deadline l) (shutdown_requested l) state;
    let '(c, deadline, started) := r in
    let l := mkLoop c (shared l) (Some deadline) true true (native_deadline l) (pump_needed l || started)
               (receive_batch_limit l) (wake_epoch l) (timer l) in
    Ret (if (STATE_DEALLOCATED <=? state) || (deadline <=? closing_now t) then Leaves l else Stays l).

(** The pump with what its failure does to the loop, and the pause after it. *)
Definition pump_step (t : TurnEnv) (l : Loop) : res Flow :=
  r ← pump_native (pump_env t) (send t) (core l) (shared l);
  let '(c, s, _, r) := r in
  match r with
  | Ok delay =>
      Ret (Stays (mkLoop c s (cleanup_deadline l) (cleanup_permit l) (shutdown_requested l)
                    (pump_now t + default A_DAY delay) false (receive_batch_limit l) (wake_epoch l) (pump_now t)))
  | Err e =>
      let s := request_cleanup (fail s (PumpFailed e)) in
      let l := set_core l c s in
      if negb (control_sent s) then Ret (Leaves l)
      else match cleanup_deadline l with
           | Some deadline =>
               let remaining := saturating_sub deadline (pump_now t) in
               if remaining =? 0 then Ret (Leaves l)
               else Ret (Stays (set_timer (set_pump l true) (pump_now t + Z.min CLEANUP_ERROR_RETRY remaining)))
           | None => Ret (Stays (set_timer (set_pump l true) (pump_now t)))
           end
  end.

Definition wait_time (l : Loop) (now : Z) : Z :=
  let wait_deadline := match cleanup_deadline l with Some d => Z.min d (native_deadline l) | None => native_deadline l end in
  let wait := saturating_sub wait_deadline now in
  if wait =? 0 then millis 1 else wait.

(** Up to the point where a turn receives: [inl] when it starts anew or leaves,
    [inr] with the loop when it goes on. *)
Definition head (t : TurnEnv) (l : Loop) : res (Flow + Loop) :=
  closed ← closing_step t (observe_step t l);
  match closed with
  | Leaves _ | Drains _ => Ret (inl closed)
  | Stays l =>
      if pump_needed l || (native_deadline l <=? closing_now t) then f ← pump_step t l; Ret (inl f)
      else Ret (inr l)
  end.

(** ** Datagrams *)

Inductive DriverEvent : Type :=
| WakeEvent | TimerEvent | OwnerClosedEvent
| PacketEvent (r : result bytes IoError)
| ReadableEvent (r : result unit IoError).

Definition is_pump (a : PacketAction) : bool := match a with Pump => true | _ => false end.

(** A datagram in the buffer that no packet of the pool backs. *)
Definition deficit_step (t : TurnEnv) (l : Loop) (wire : bytes) : res (Loop * PacketAction) :=
  r ← process_deficit_packet (read_env t) (core l) (shared l) wire;
  let '(c, s, a) := r in Ret (set_core l c s, a).

(** The drain of a closing driver, over the answers of the socket: an error
    ends it, and [false] says that none came yet. *)
Fixpoint drain_closing (t : TurnEnv) (l : Loop) (reads : list (result bytes IoError)) : res (Loop * bool) :=
  match reads with
  | [] => Ret (l, false)
  | Err _ :: _ => Ret (l, true)
  | Ok wire :: reads =>
      r ← deficit_step t l (received_part wire);
      let '(l, a) := r in
      drain_closing t (if is_pump a then set_pump l true else l) reads
  end.

(** The event that ends the wait of a closing driver; after a failed receive
    it sleeps once more. *)
Definition closing_event (t : TurnEnv) (l : Loop) (event : DriverEvent) : res Loop :=
  match event with
  | WakeEvent | TimerEvent => Ret (set_pump l true)
  | PacketEvent (Ok wire) =>
      r ← deficit_step t l (received_part wire);
      let '(l, a) := r in Ret (set_pump l (is_pump a))
  | PacketEvent (Err _) =>
      Ret (set_timer (set_pump (set_shared l (fail (shared l) ReceiveFailed)) true) (timer l + CLEANUP_ERROR_RETRY))
  | ReadableEvent _ | OwnerClosedEvent => Ret l
  end.

(** The rest of a turn of a closing driver: it drains the socket, then waits
    for the time that it computed before the drain. *)
Definition closing_rest (t : TurnEnv) (l : Loop) (reads : list (result bytes IoError)) (event : DriverEvent) : res Flow :=
  let wait := wait_time l (wait_now t) in
  r ← drain_closing t l reads;
  let '(l, drained) := r in
  if (drained : bool) then l ← closing_event t (set_timer l (armed_now t + wait)) event; Ret (Stays l)
  else Ret (Drains l).

(** A failure of the socket: the reason, the cleanup and a pump. *)
Definition fails_with (l : Loop) (reason : Reason) : Loop :=
  set_pump (set_shared l (request_cleanup (fail (shared l) reason))) true.

(** The packets of a batch in order, until one finds the owner gone. *)
Fixpoint process_batch (t : TurnEnv) (l : Loop) (packets : list PacketBuf) : res (Loop * bool) :=
  match packets with
  | [] => Ret (l, false)
  | p :: packets =>
      r ← process_packet (read_env t) (core l) (shared l) p;
      let '(c, s, a) := r in
      let l := set_core l c s in
      match a with
      | Wait => process_batch t l packets
      | Pump => process_batch t (set_pump l true) packets
      | OwnerClosed => Ret (l, true)
      end
  end.

Definition MAX_BURST_BATCH : Z := MAX_DATAGRAMS.

(** A turn of the burst loop: [lent] is what the pool lends at this turn, in
    the order of the requests. [inl] goes on with the count, [inr] leaves the
    loop with whether the socket was found empty. *)
Definition burst_turn (t : TurnEnv) (lent : list PacketBuf) (l : Loop) (count : Z) (socket : RecvSide)
    : res ((Loop * Z * RecvSide) + (Loop * Z * bool * RecvSide)) :=
  let wanted := Z.min (MAX_BURST_BATCH - count) (receive_batch_limit l) in
  let batch := take (Z.to_nat wanted) lent in
  if zlen batch =? 0 then
    match try_recv_one socket with
    | (Ok (wire, _), socket) =>
        r ← deficit_step t l (received_part wire);
        let '(l, a) := r in
        Ret (inl (if is_pump a then set_pump l true else l, count + 1, socket))
    | (Err e, socket) =>
        if bool_decide (kind e = WouldBlock) then Ret (inr (l, count, true, socket))
        else Ret (inr (fails_with l ReceiveFailed, count, false, socket))
    end
  else
    r ← try_recv_connected batch socket;
    let '(batch, r, socket) := r in
    match r with
    | Ok received =>
        if received =? 0 then Ret (inr (set_limit l (adapt_batch_limit (receive_batch_limit l) 0), count, true, socket))
        else if received <=? zlen batch then
          let l := if zlen batch =? receive_batch_limit l
                   then set_limit l (adapt_batch_limit (receive_batch_limit l) received) else l in
          r ← process_batch t l (take (Z.to_nat received) batch);
          let '(l, owner_closed) := r in
          Ret (if (owner_closed : bool) then inr (set_shared l (request_cleanup (shared l)), count + received, false, socket)
               else inl (l, count + received, socket))
        else Ret (inr (fails_with l BatchCountInvalid, count, false, socket))
    | Err e =>
        if bool_decide (kind e = WouldBlock)
        then Ret (inr (set_limit l (adapt_batch_limit (receive_batch_limit l) 0), count, true, socket))
        else Ret (inr (fails_with l ReceiveFailed, count, false, socket))
    end.

Fixpoint burst (turns : nat) (t : TurnEnv) (lent : nat -> list PacketBuf) (l : Loop) (count : Z) (socket : RecvSide)
    : res (Loop * Z * bool * RecvSide) :=
  if MAX_BURST_BATCH <=? count then Ret (l, count, false, socket) else
  match turns with
  | O => Panic
  | S turns =>
      r ← burst_turn t (lent turns) l count socket;
      match r with
      | inl (l, count, socket) => burst turns t lent l count socket
      | inr done => Ret done
      end
  end.

(** The event that ends the wait of an open turn. *)
Definition open_event (event : DriverEvent) (l : Loop) : Loop :=
  match event with
  | WakeEvent | TimerEvent => set_pump l true
  | OwnerClosedEvent => set_shared l (request_cleanup (shared l))
  | ReadableEvent (Err _) => fails_with l ReadinessFailed
  | ReadableEvent (Ok _) | PacketEvent _ => l
  end.

(** The rest of a turn of an open driver, and whether it waited for the event. *)
Definition receiving_rest (t : TurnEnv) (lent : nat -> list PacketBuf) (event : DriverEvent) (l : Loop) (socket : RecvSide)
    : res (Loop * bool * RecvSide) :=
  let wait := wait_time l (wait_now t) in
  r ← burst (Z.to_nat MAX_BURST_BATCH) t lent l 0 socket;
  let '(l, count, socket_empty, socket) := r in
  if pump_needed l then Ret (set_timer l (armed_now t), false, socket)
  else if (0 <? count) && negb socket_empty then Ret (set_timer l (armed_now t), false, socket)
  else
    Ret (open_event event (set_timer l (armed_now t + wait)), true, socket).

(** What a turn of the UDP loop meets. *)
Record UdpTurn : Type := mkUdpTurn {
  u_env : TurnEnv;
  u_lent : nat -> list PacketBuf;
  u_reads : list (result bytes IoError);  (** what [try_recv] gives the drain of a closing driver *)
  u_event : DriverEvent;
}.

Definition udp_turn (u : UdpTurn) (l : Loop) (socket : RecvSide) : res (Flow * RecvSide) :=
  h ← head (u_env u) l;
  match h with
  | inl f => Ret (f, socket)
  | inr l =>
      if closing (shared l) then f ← closing_rest (u_env u) l (u_reads u) (u_event u); Ret (f, socket)
      else
        r ← receiving_rest (u_env u) (u_lent u) (u_event u) l socket;
        let '(l, _, socket) := r in Ret (Stays l, socket)
  end.

(** The owner may close its end, take a packet, ask for the cleanup or shut the
    core down between two turns. *)
Inductive OwnerStep : Type :=
| OwnerTakes | OwnerDrops | OwnerCleansUp | OwnerShutsDown (env : Env).

Definition owner_step (l : Loop) (o : OwnerStep) : res Loop :=
  let s := shared l in
  match o with
  | OwnerTakes => Ret (match recv_ready s with Some (_, s) => set_shared l s | None => l end)
  | OwnerDrops =>
      Ret (set_shared l (mkShared (snapshot s) (closing s) (terminal_present s) (control_sent s) (bound_channel s)
             (queue_full_drops s) (pool_deficit_drops s) (protected s) (incoming s) true))
  | OwnerCleansUp => Ret (set_shared l (request_cleanup s))
  | OwnerShutsDown env => r ← graceful_shutdown env (core l); Ret (set_core l (fst r) s)
  end.

Fixpoint owner_steps (l : Loop) (os : list OwnerStep) : res Loop :=
  match os with [] => Ret l | o :: os => l ← owner_step l o; owner_steps l os end.

(** Leaving a loop destroys the core. *)
Definition leave (l : Loop) : Loop := set_core l (force_destroy (core l) 0) (shared l).

(** The loops: turns with what the owner does before each, until one leaves or
    stays in its drain. [S] is what a turn receives from. *)
Fixpoint driver_loop {T S} (turn : T -> Loop -> S -> res (Flow * S)) (turns : list (list OwnerStep * T)) (l : Loop) (socket : S)
    : res (Flow * S) :=
  match turns with
  | [] => Ret (Stays l, socket)
  | (os, u) :: turns =>
      l ← owner_steps l os;
      r ← turn u l socket;
      match r with
      | (Leaves l, socket) => Ret (Leaves (leave l), socket)
      | (Drains l, socket) => Ret (Drains l, socket)
      | (Stays l, socket) => driver_loop turn turns l socket
      end
  end.

Definition driver_loop_udp := driver_loop udp_turn.

(** ** The stream loop *)

Inductive StreamFrame : Type := ControlFrame (frame : bytes) | DataFrame (packet : PacketBuf) | DataDropped.

Inductive StreamDriverEvent : Type :=
| StreamWake | StreamTimer | StreamOwnerClosed
| WriteFailure (reason : option bool)  (** what the writer's failure channel holds when it changed; closed otherwise *)
| Frame (r : result StreamFrame unit).

(** The event that ends the wait of the stream loop. *)
Definition stream_event (t : TurnEnv) (event : StreamDriverEvent) (l : Loop) : res Loop :=
  match event with
  | StreamWake | StreamTimer => Ret (set_pump l true)
  | StreamOwnerClosed => Ret (set_shared l (request_cleanup (shared l)))
  | WriteFailure (Some true) =>
      Ret (if closing (shared l) then l else fails_with l StreamTransmitFailed)
  | WriteFailure _ => Ret l
  | Frame (Ok (ControlFrame frame)) =>
      r ← deficit_step t l frame;
      let '(l, a) := r in Ret (if is_pump a then set_pump l true else l)
  | Frame (Ok (DataFrame packet)) =>
      r ← process_batch t l [packet];
      let '(l, owner_closed) := r in
      Ret (if (owner_closed : bool) then set_shared l (request_cleanup (shared l)) else l)
  | Frame (Ok DataDropped) =>
      let s := shared l in Ret (set_shared l (set_drops (queue_full_drops s) (pool_deficit_drops s + 1) s))
  | Frame (Err _) =>
      let s := if closing (shared l) then shared l else fail (shared l) StreamReceiveFailed in
      Ret (set_pump (set_shared l (request_cleanup s)) true)
  end.

(** The rest of a turn of the stream loop: it waits. *)
Definition stream_rest (t : TurnEnv) (event : StreamDriverEvent) (l : Loop) : res Loop :=
  stream_event t event (set_timer l (armed_now t + wait_time l (wait_now t))).

(** What the stream brings is part of its turn; there is no socket. *)
Definition stream_turn (u : TurnEnv * StreamDriverEvent) (l : Loop) (socket : unit) : res (Flow * unit) :=
  let '(t, event) := u in
  h ← head t l;
  match h with
  | inl f => Ret (f, socket)
  | inr l => l ← stream_rest t event l; Ret (Stays l, socket)
  end.

Definition driver_loop_stream := driver_loop stream_turn.
End Loops.


(** ** What a turn keeps *)

Section TurnFacts.
Context `{Digests}.

(** Only a STUN packet reaches the core, and then the driver is told to pump. *)
Ltac quiet E Ha :=
  repeat first [apply bind_ret_inv in E as (? & ? & E) | case_match]; simplify_eq/=; done.

Lemma quiet_packet env c s p c' s' a :
  process_packet env c s p = Ret (c', s', a) -> is_pump a = false -> c' = c.
Proof. unfold process_packet. intros E Ha. quiet E Ha. Qed.

Lemma quiet_deficit env c s wire c' s' a :
  process_deficit_packet env c s wire = Ret (c', s', a) -> is_pump a = false -> c' = c.
Proof. unfold process_deficit_packet. intros E Ha. quiet E Ha. Qed.

(** What the handling of datagrams keeps: while no pump is due, the core is the
    one from before. *)
Record kept (l l' : Loop) : Prop := {
  kept_core : core_wf (core l');
  kept_shared : evolves (shared l) (shared l');
  kept_cleanup : cleanup_deadline l' = cleanup_deadline l /\ cleanup_permit l' = cleanup_permit l
                 /\ shutdown_requested l' = shutdown_requested l /\ native_deadline l' = native_deadline l;
  kept_quiet : pump_needed l' = false -> core l' = core l /\ pump_needed l = false;
}.

Lemma kept_refl l : core_wf (core l) -> kept l l.
Proof. by constructor; [|apply evolves_refl| |]. Qed.

Lemma kept_trans l1 l2 l3 : kept l1 l2 -> kept l2 l3 -> kept l1 l3.
Proof.
  intros [Hc1 Hs1 Hd1 Hq1] [Hc2 Hs2 Hd2 Hq2]. constructor; [done|by eapply evolves_trans| |].
  - destruct_and!. split_and!; congruence.
  - intros Hp. destruct (Hq2 Hp) as [-> Hp2]. by apply Hq1.
Qed.

(** A change of the shared state alone, with a pump or not. *)
Lemma kept_evolves l s : core_wf (core l) -> evolves (shared l) s -> kept l (set_shared l s).
Proof. by constructor. Qed.

Lemma kept_pump l : core_wf (core l) -> kept l (set_pump l true).
Proof. by constructor; [|apply evolves_refl| |]. Qed.

Lemma kept_timer l n : core_wf (core l) -> kept l (set_timer l n).
Proof. by constructor; [|apply evolves_refl| |]. Qed.

Lemma kept_limit l n : core_wf (core l) -> kept l (set_limit l n).
Proof. by constructor; [|apply evolves_refl| |]. Qed.

Lemma failed_evolves s r : evolves s (request_cleanup (fail s r)).
Proof. eapply evolves_trans; [apply fail_evolves|apply request_cleanup_evolves]. Qed.

Lemma fails_kept l r : core_wf (core l) -> kept l (fails_with l r).
Proof. intros Hw. constructor; [done|apply failed_evolves|done|done]. Qed.

(** One datagram, with the flag that its action sets. *)
Lemma deficit_kept t l wire :
  core_wf (core l) -> env_ok (read_env t) -> is_bytes wire ->
  exists l' a, deficit_step t l wire = Ret (l', a) /\ kept l (if is_pump a then set_pump l' true else l')
    /\ core_wf (core l').
Proof.
  intros Hw He Hb. unfold deficit_step.
  destruct (process_deficit_ok (read_env t) (core l) (shared l) wire Hw He Hb) as (c & s & a & E & Hw' & Hev).
  rewrite E. rbind. exists (set_core l c s), a. split; [done|]. split; [|done].
  destruct (is_pump a) eqn:Ea; constructor; try done.
  intros Hp. split; [|done]. by apply (quiet_deficit _ _ _ _ _ _ _ E).
Qed.

(** An answer of the socket: bytes, or an error. *)
Definition read_ok (r : result bytes IoError) : Prop := match r with Ok wire => is_bytes wire | Err _ => True end.

(** The drain ends with the first error that the socket gives. *)
Lemma drain_closing_kept t l reads :
  core_wf (core l) -> env_ok (read_env t) -> Forall read_ok reads ->
  exists l' drained, drain_closing t l reads = Ret (l', drained) /\ kept l l'
    /\ (Exists (fun r => exists e, r = Err e) reads -> drained = true).
Proof.
  intros Hw He Hr. revert l Hw. induction Hr as [|r reads Hb _ IH]; intros l Hw; cbn [drain_closing].
  { eexists _, _. split; [done|]. split; [by apply kept_refl|]. intros Hx. by apply Exists_nil in Hx. }
  destruct r as [wire|e]; [|eexists _, _; split; [done|]; split; [by apply kept_refl|done]].
  destruct (deficit_kept t l (received_part wire) Hw He) as (l1 & a & -> & Hk & _); [by apply Forall_take|]. rbind.
  destruct (IH _ (kept_core _ _ Hk)) as (l' & d & -> & Hk' & Hd). exists l', d. split; [done|]. split; [by eapply kept_trans|].
  intros Hx. apply Hd. apply Exists_cons in Hx as [[e E]|Hx]; done.
Qed.

Lemma process_batch_kept t l packets :
  core_wf (core l) -> env_ok (read_env t) -> Forall buf_ok packets ->
  Forall (fun p => forall wire, as_slice p = Ret wire -> is_bytes wire) packets ->
  exists l' gone, process_batch t l packets = Ret (l', gone) /\ kept l l'.
Proof.
  intros Hw He Hp. revert l Hw. induction Hp as [|p packets Hok _ IH]; intros l Hw Hb; cbn [process_batch].
  { eexists _, _. split; [done|]. by apply kept_refl. }
  apply Forall_cons in Hb as [Hb Hbs].
  destruct (process_packet_ok (read_env t) (core l) (shared l) p Hw He Hok Hb) as (c & s & a & E & Hw' & Hev).
  rewrite E. rbind. assert (kept l (if is_pump a then set_pump (set_core l c s) true else set_core l c s)) as Hk.
  { destruct (is_pump a) eqn:Ea; constructor; try done.
    intros Hq. split; [|done]. by apply (quiet_packet _ _ _ _ _ _ _ E). }
  destruct a; cbn [is_pump] in Hk.
  1, 2: destruct (IH _ (kept_core _ _ Hk) Hbs) as (l' & gone & -> & Hk'); exists l', gone;
    (split; [done|]); by eapply kept_trans.
  eexists _, _. split; [done|]. done.
Qed.

Definition socket_ok (socket : RecvSide) : Prop := Forall (fun d => is_bytes (fst d)) (inbox socket).

Lemma recv_one_ok socket : socket_ok socket ->
  match try_recv_one socket with
  | (Ok (wire, _), socket') => is_bytes wire /\ socket_ok socket'
  | (Err _, socket') => socket_ok socket'
  end.
Proof.
  unfold socket_ok, try_recv_one. intros Hs. repeat case_match; simplify_eq/=; try done. by apply Forall_cons in Hs.
Qed.

Lemma received_bytes packets datagrams :
  Forall2 (fun p d => as_slice p = Ret (received_part d)) packets datagrams -> Forall is_bytes datagrams ->
  Forall (fun p => forall wire, as_slice p = Ret wire -> is_bytes wire) packets.
Proof.
  intros Hf. induction Hf as [|p d ps ds Hp _ IH]; intros Hd; [constructor|]. apply Forall_cons in Hd as [Hd Hds].
  constructor; [|by apply IH]. intros wire Hw. rewrite Hp in Hw. injection Hw as <-. by apply Forall_take.
Qed.

(** A receive into lent buffers, as the burst uses it. *)
Lemma recv_batch_ok batch socket :
  batch <> [] -> Forall buf_ok batch -> zlen batch <= MAX_DATAGRAMS -> socket_ok socket ->
  exists batch' r socket', try_recv_connected batch socket = Ret (batch', r, socket') /\ socket_ok socket'
    /\ zlen batch' = zlen batch
    /\ forall n, r = Ok n -> 0 < n /\ n <= zlen batch /\ Forall buf_ok (take (Z.to_nat n) batch')
         /\ Forall (fun p => forall wire, as_slice p = Ret wire -> is_bytes wire) (take (Z.to_nat n) batch').
Proof.
  intros Hne Hb Hl Hs. unfold try_recv_connected, validate_batch_len.
  destruct (Z.leb_spec (zlen batch) MAX_DATAGRAMS); [|lia].
  destruct (platform_recv_spec batch socket Hne Hb) as (b & r & s & -> & (Hok & Hlen & _ & got & Hi & Hg & Hr) & Hpos).
  exists b, r, s. assert (Forall (fun d => is_bytes (fst d)) got /\ socket_ok s) as [Hgot Hso]
    by (unfold socket_ok in *; rewrite Hi in Hs; by apply Forall_app in Hs).
  split; [done|]. split; [done|]. split; [unfold zlen; by rewrite Hlen|]. intros n ->.
  specialize (Hpos n eq_refl). destruct Hr as [Hn Hf]. rewrite Z.add_0_l in Hn. unfold zlen in *.
  split; [done|]. split; [lia|]. split; [by apply Forall_take|]. rewrite Hn, Nat2Z.id in *.
  eapply received_bytes; [exact Hf|]. by rewrite Forall_map.
Qed.

(** A turn of the burst takes at least one datagram when it goes on, and never
    more than the burst has left. *)
Lemma burst_turn_ok t lent l count socket :
  core_wf (core l) -> env_ok (read_env t) -> Forall buf_ok lent -> socket_ok socket -> 0 <= count < MAX_BURST_BATCH ->
  exists r, burst_turn t lent l count socket = Ret r /\
    match r with
    | inl (l', count', socket') => kept l l' /\ count < count' <= MAX_BURST_BATCH /\ socket_ok socket'
    | inr (l', count', _, socket') => kept l l' /\ count <= count' <= MAX_BURST_BATCH /\ socket_ok socket'
    end.
Proof.
  intros Hw He Hl Hs Hc. unfold burst_turn. cbv zeta.
  set (wanted := Z.min (MAX_BURST_BATCH - count) (receive_batch_limit l)). set (batch := take (Z.to_nat wanted) lent).
  assert (zlen batch <= Z.max 0 wanted) as Hwl by (unfold batch, zlen; rewrite length_take; lia).
  assert (zlen batch <= MAX_BURST_BATCH - count) as Hbl by lia.
  assert (Forall buf_ok batch) as Hbo by by apply Forall_take.
  clearbody batch wanted. destruct (Z.eqb_spec (zlen batch) 0) as [|Hne].
  - pose proof (recv_one_ok socket Hs) as Hone. destruct (try_recv_one socket) as [[[wire from]|err] socket'].
    + destruct Hone as [Hb Hs']. destruct (deficit_kept t l (received_part wire) Hw He) as (l1 & a & -> & Hk & _); [by apply Forall_take|].
      rbind. eexists. split; [reflexivity|]. cbn beta iota. split; [done|]. split; [lia|done].
    + case_bool_decide; (eexists; split; [reflexivity|]); cbn beta iota; (split; [|split; [lia|done]]);
        [by apply kept_refl|by apply fails_kept].
  - destruct (recv_batch_ok batch socket) as (b & r & s & -> & Hs' & Hlen & Hr); try done;
      [by intros ->|unfold MAX_BURST_BATCH in *; lia|]. rbind.
    destruct r as [n|err].
    + destruct (Hr n eq_refl) as (Hn & Hle & Hok & Hby). destruct (Z.eqb_spec n 0); [lia|].
      destruct (Z.leb_spec n (zlen b)); [|lia].
      set (l1 := if zlen b =? receive_batch_limit l then _ else l).
      assert (kept l l1) as Hk1 by (unfold l1; destruct (_ =? _); [by apply kept_limit|by apply kept_refl]).
      destruct (process_batch_kept t l1 _ (kept_core _ _ Hk1) He Hok Hby) as (l2 & gone & -> & Hk2). rbind.
      pose proof (kept_trans _ _ _ Hk1 Hk2) as Hk. destruct gone; (eexists; split; [reflexivity|]); cbn beta iota.
      * split; [|split; [lia|done]]. eapply kept_trans; [exact Hk|].
        apply kept_evolves; [by eapply kept_core|apply request_cleanup_evolves].
      * split; [done|]. split; [lia|done].
    + case_bool_decide; (eexists; split; [reflexivity|]); cbn beta iota; (split; [|split; [lia|done]]);
        [by apply kept_limit|by apply fails_kept].
Qed.

(** The burst ends within its turns. *)
Lemma burst_ok turns t lent l count socket :
  core_wf (core l) -> env_ok (read_env t) -> (forall n, Forall buf_ok (lent n)) -> socket_ok socket ->
  0 <= count <= MAX_BURST_BATCH -> MAX_BURST_BATCH - count <= Z.of_nat turns ->
  exists l' count' e socket', burst turns t lent l count socket = Ret (l', count', e, socket')
    /\ kept l l' /\ count <= count' <= MAX_BURST_BATCH /\ socket_ok socket'.
Proof.
  revert l count socket. induction turns as [|turns IH]; intros l count socket Hw He Hl Hs Hc Ht; cbn [burst];
    destruct (Z.leb_spec MAX_BURST_BATCH count); try lia;
    try (eexists l, count, false, socket; split; [done|]; split; [by apply kept_refl|]; split; [lia|done]).
  destruct (burst_turn_ok t (lent turns) l count socket Hw He (Hl turns) Hs) as (r & -> & Hr); [lia|]. rbind.
  destruct r as [[[l1 c1] s1]|[[[l1 c1] e1] s1]]; destruct Hr as (Hk & Hc1 & Hs1).
  - destruct (IH l1 c1 s1 (kept_core _ _ Hk) He Hl Hs1) as (l' & c' & found & s' & -> & Hk' & Hc' & Hs'); [lia..|].
    eexists _, _, _, _. split; [reflexivity|]. split; [by eapply kept_trans|]. split; [lia|done].
  - eexists _, _, _, _. split; [reflexivity|]. split; [done|]. split; [lia|done].
Qed.

(** ** A turn *)

Record turn_ok (t : TurnEnv) : Prop := {
  ok_wake : env_ok (wake_env t);
  ok_cleanup : env_ok (cleanup_env t);
  ok_pump : env_ok (pump_env t);
  ok_read : env_ok (read_env t);
}.

Definition loop_of (f : Flow) : Loop := match f with Stays l | Leaves l | Drains l => l end.

(** The clocks of a turn that takes at most [slack]. *)
Record punctual (slack : Z) (t : TurnEnv) : Prop := {
  on_closing : closing_now t <= now (cleanup_env t) + slack;
  on_pump : closing_now t <= pump_now t <= closing_now t + slack;
  on_wait : closing_now t <= wait_now t <= armed_now t;
  on_armed : armed_now t <= closing_now t + slack;
}.

(** The sleep that a turn arms before its deadline [d] is over soon after [d]. *)
Definition timed (slack : Z) (t : TurnEnv) (l : Loop) : Prop :=
  forall d, cleanup_deadline l = Some d -> punctual slack t -> closing_now t < d ->
  closing_now t <= timer l <= d + slack + CLEANUP_ERROR_RETRY + millis 1.

(** What every turn does: the core stays well-formed, the shared state evolves,
    and a turn of a closing driver that does not leave has a deadline ahead, at
    most [CLEANUP_TIMEOUT] away and no later than the one before. *)
Record moves (t : TurnEnv) (l : Loop) (f : Flow) : Prop := {
  moves_core : core_wf (core (loop_of f));
  moves_shared : evolves (shared l) (shared (loop_of f));
  moves_deadline : closing (shared l) = true -> forall l', f = Stays l' ->
    exists d, cleanup_deadline l' = Some d /\ closing_now t < d /\ d <= now (cleanup_env t) + CLEANUP_TIMEOUT
      /\ forall d0, cleanup_deadline l = Some d0 -> d <= d0;
}.

(** What a turn leaves to the next one: its sleep is timed, and it is in its
    drain only when the drain has no end. *)
Definition arms (ended : Prop) (t : TurnEnv) (f : Flow) : Prop :=
  match f with
  | Stays l => forall slack, timed slack t l
  | Leaves _ => True
  | Drains _ => ~ ended
  end.

(** A wait that a turn computes ends by the deadline of the cleanup, or after
    the shortest wait. *)
Lemma wait_timed slack t l l' extra :
  cleanup_deadline l' = cleanup_deadline l -> timer l' = armed_now t + wait_time l (wait_now t) + extra ->
  0 <= extra <= CLEANUP_ERROR_RETRY -> timed slack t l'.
Proof.
  unfold timed, wait_time. cbv zeta. intros Hd -> He d E [Hc Hp Hw Ha] Hlt. rewrite Hd in E. rewrite E.
  assert (0 < millis 1) by done. assert (0 <= saturating_sub (d `min` native_deadline l) (wait_now t) <= Z.max 0 (d - wait_now t))
    by (unfold saturating_sub; lia).
  destruct (_ =? 0); lia.
Qed.

(** A turn that starts anew without a sleep. *)
Lemma anew_timed slack t l : timer l = armed_now t \/ timer l = pump_now t -> timed slack t l.
Proof.
  unfold timed. intros E d _ [Hc Hp Hw Ha] Hlt. assert (0 < millis 1 /\ 0 <= CLEANUP_ERROR_RETRY) by done. lia.
Qed.

(** More changes in the same turn that leave the deadline alone. *)
Lemma moves_on t l l1 f :
  moves t l (Stays l1) -> core_wf (core (loop_of f)) -> evolves (shared l1) (shared (loop_of f)) ->
  cleanup_deadline (loop_of f) = cleanup_deadline l1 -> moves t l f.
Proof.
  intros [Hc He Hd] Hw Hev Hs. constructor; [done|by eapply evolves_trans|].
  intros Hcl l' ->. cbn [loop_of] in Hs. rewrite Hs. by apply Hd.
Qed.

Lemma observe_step_ok t l :
  core_wf (core l) -> core_wf (core (observe_step t l)) /\ shared (observe_step t l) = shared l
  /\ cleanup_deadline (observe_step t l) = cleanup_deadline l.
Proof. intros Hw. unfold observe_step, observe_wake. destruct (_ =? _); (split; [|done]); [done|by apply resync_ok]. Qed.

Lemma start_cleanup_ok env c deadline requested st :
  core_wf c -> env_ok env ->
  exists c' d b, start_driver_cleanup env c deadline requested st = Ret (c', d, b) /\ core_wf c'
    /\ d <= now env + CLEANUP_TIMEOUT /\ forall d0, deadline = Some d0 -> d <= d0.
Proof.
  intros Hw He. unfold start_driver_cleanup. cbv zeta.
  set (timeout := if _ <=? _ then _ else _). set (stored := default _ _). set (d := if _ <? _ then _ else _).
  assert (d <= now env + CLEANUP_TIMEOUT /\ forall d0, deadline = Some d0 -> d <= d0) as Hd.
  { assert (timeout <= CLEANUP_TIMEOUT) by (unfold timeout; destruct (_ <=? _); done).
    assert (forall d0, deadline = Some d0 -> stored = d0) as Hst by (intros d0 ->; reflexivity).
    clearbody timeout stored. subst d. destruct (Z.ltb_spec (now env + timeout) stored);
      (split; [lia|]); intros d0 E; rewrite <- (Hst d0 E); lia. }
  clearbody d. destruct requested; [by eexists _, _, _|].
  destruct (graceful_shutdown_ok env c Hw He) as (c' & r & -> & Hw'). rbind. by eexists _, _, _.
Qed.

Lemma closing_step_ok t l :
  core_wf (core l) -> turn_ok t -> exists f, closing_step t l = Ret f /\ moves t l f /\ match f with Drains _ => False | _ => True end.
Proof.
  intros Hw Ht. unfold closing_step.
  assert (forall f, loop_of f = l -> (closing (shared l) = true -> forall l', f <> Stays l') -> moves t l f) as Hsame.
  { intros f Hf Hno. constructor; rewrite ?Hf; [done|apply evolves_refl|]. intros Hc l' E. by destruct (Hno Hc l'). }
  destruct (closing (shared l)) eqn:Ec; cbn [negb]; [|eexists; split; [done|]; split; [by apply Hsame|done]].
  destruct (negb (control_sent _)); [eexists; split; [done|]; split; [by apply Hsame|done]|].
  destruct (_ && _); [eexists; split; [done|]; split; [by apply Hsame|done]|]. cbv zeta.
  destruct (start_cleanup_ok (cleanup_env t) (core l) (cleanup_deadline l) (shutdown_requested l)
    (sn_state (snapshot (shared l))) Hw (ok_cleanup t Ht)) as (c & d & started & -> & Hw' & Hd & Hd0). rbind.
  destruct (_ || _) eqn:Eo; (eexists; split; [reflexivity|]); (split; [|done]); constructor; cbn [loop_of core shared]; try done;
    try apply evolves_refl.
  intros _ l' [= <-]. exists d. bool_to_prop. by split_and!.
Qed.

Lemma pump_step_ok t l :
  core_wf (core l) -> turn_ok t ->
  exists f, pump_step t l = Ret f /\ core_wf (core (loop_of f)) /\ evolves (shared l) (shared (loop_of f))
    /\ cleanup_deadline (loop_of f) = cleanup_deadline l /\ arms True t f.
Proof.
  intros Hw Ht. unfold pump_step.
  destruct (pump_native_ok (pump_env t) (send t) (core l) (shared l) Hw (ok_pump t Ht))
    as (c1 & polled & c & s & sent & r & _ & -> & Hw' & He & _). rbind.
  destruct r as [delay|err].
  { eexists. split; [reflexivity|]. split; [done|]. split; [done|]. split; [done|]. intros slack. apply anew_timed. by right. }
  cbv zeta. pose proof (evolves_trans _ _ _ He (failed_evolves s (PumpFailed err))) as He'.
  destruct (negb _); [by eexists|].
  change (cleanup_deadline (set_core l c (request_cleanup (fail s (PumpFailed err))))) with (cleanup_deadline l).
  destruct (cleanup_deadline l) as [d|] eqn:Ed; [destruct (Z.eqb_spec (saturating_sub d (pump_now t)) 0)|];
    (eexists; split; [reflexivity|]); split_and!; try done; intros slack; [|apply anew_timed; by right].
  intros d' E [Hc Hp Ha Hr] Hlt. cbn [timer set_timer cleanup_deadline set_pump set_core] in *. simplify_eq.
  assert (0 < millis 1 /\ 0 < CLEANUP_ERROR_RETRY) by done. unfold saturating_sub in *. lia.
Qed.

Lemma head_ok t l :
  core_wf (core l) -> turn_ok t ->
  exists h, head t l = Ret h /\ match h with inl f => moves t l f /\ arms True t f | inr l' => moves t l (Stays l') end.
Proof.
  intros Hw Ht. unfold head. destruct (observe_step_ok t l Hw) as (Hw0 & Hs0 & Hd0).
  destruct (closing_step_ok t _ Hw0 Ht) as (f & -> & [Hc He Hd] & Hf). rbind. rewrite Hs0, Hd0 in *.
  assert (moves t l f) as Hm by by constructor. destruct f as [l1|l1|l1]; [|eexists; by split|done].
  destruct (_ || _); [|eexists; by split].
  destruct (pump_step_ok t l1 Hc Ht) as (f & -> & Hw2 & He2 & Hd2 & Ha). rbind. eexists. split; [done|].
  split; [by eapply moves_on|done].
Qed.

Lemma deficit_timer t l wire l' a : deficit_step t l wire = Ret (l', a) -> timer l' = timer l.
Proof. unfold deficit_step. destruct (process_deficit_packet _ _ _ _) as [[[? ?] ?]|]; cbn; [|done]. by intros [= <- _]. Qed.

Lemma closing_event_ok t l event :
  core_wf (core l) -> env_ok (read_env t) -> (forall wire, event = PacketEvent (Ok wire) -> is_bytes wire) ->
  exists l', closing_event t l event = Ret l' /\ core_wf (core l') /\ evolves (shared l) (shared l')
    /\ cleanup_deadline l' = cleanup_deadline l
    /\ exists extra, 0 <= extra <= CLEANUP_ERROR_RETRY /\ timer l' = timer l + extra.
Proof.
  intros Hw He Hev. unfold closing_event.
  assert (0 <= 0 <= CLEANUP_ERROR_RETRY /\ timer l = timer l + 0) as Hz by (split; [done|lia]).
  destruct event as [| | |[wire|err]|r]; try (eexists; split; [reflexivity|]; split_and!; try done; by exists 0).
  - destruct (deficit_kept t l (received_part wire) Hw He) as (l2 & a & E & [Hw2 Hs2 (Hd2 & _) _] & _);
      [apply Forall_take; by apply Hev|]. rewrite E. rbind. eexists. split; [done|].
    apply deficit_timer in E as Htm.
    destruct (is_pump a); cbn [set_pump core shared cleanup_deadline timer] in *; rewrite Htm; (split; [done|]);
      (split; [done|]); (split; [done|]); by exists 0.
  - eexists. split; [reflexivity|]. split; [done|]. split; [apply fail_evolves|]. split; [done|].
    exists CLEANUP_ERROR_RETRY. by split.
Qed.

Lemma closing_rest_ok t l reads event :
  core_wf (core l) -> env_ok (read_env t) -> Forall read_ok reads ->
  (forall wire, event = PacketEvent (Ok wire) -> is_bytes wire) ->
  exists f, closing_rest t l reads event = Ret f /\ core_wf (core (loop_of f)) /\ evolves (shared l) (shared (loop_of f))
    /\ cleanup_deadline (loop_of f) = cleanup_deadline l /\ arms (Exists (fun r => exists e, r = Err e) reads) t f.
Proof.
  intros Hw He Hr Hev. unfold closing_rest. cbv zeta.
  destruct (drain_closing_kept t l reads Hw He Hr) as (l1 & drained & -> & [Hw1 Hs1 (Hd1 & _) _] & Hend). rbind.
  destruct drained; [|eexists; split; [done|]; split_and!; try done; intros Hx; by specialize (Hend Hx)].
  destruct (closing_event_ok t (set_timer l1 (armed_now t + wait_time l (wait_now t))) event Hw1 He Hev)
    as (l2 & -> & Hw2 & Hs2 & Hd2 & extra & Hx & Htm). rbind. eexists. split; [done|]. cbn [loop_of].
  cbn [set_timer timer shared cleanup_deadline] in *. split; [done|]. split; [by eapply evolves_trans|].
  split; [congruence|]. intros slack. eapply wait_timed; [by rewrite Hd2|exact Htm|exact Hx].
Qed.

Lemma open_event_ok event l :
  core_wf (core l) -> kept l (open_event event l) /\ core (open_event event l) = core l /\ timer (open_event event l) = timer l.
Proof.
  intros Hw. destruct event as [| | |r|[[]|err]]; cbn [open_event]; (split; [|done]);
    [by apply kept_pump|by apply kept_pump| |by apply kept_refl|by apply kept_refl|by apply fails_kept].
  apply kept_evolves; [done|apply request_cleanup_evolves].
Qed.

(** The waiting at the end of an open turn. *)
Lemma receiving_rest_ok t lent event l socket :
  core_wf (core l) -> env_ok (read_env t) -> (forall n, Forall buf_ok (lent n)) -> socket_ok socket ->
  exists l' waited socket', receiving_rest t lent event l socket = Ret (l', waited, socket')
    /\ kept l l' /\ socket_ok socket' /\ (forall slack, timed slack t l')
    /\ (waited = true -> core l' = core l) /\ (core l' <> core l -> pump_needed l' = true).
Proof.
  intros Hw He Hl Hs. unfold receiving_rest. cbv zeta.
  destruct (burst_ok (Z.to_nat MAX_BURST_BATCH) t lent l 0 socket Hw He Hl Hs) as (l1 & n & e & s1 & -> & Hk & _ & Hs1); [done|done|].
  rbind. assert (pump_needed l1 = false -> core l1 = core l) as Hq by (intros Hp; by apply (kept_quiet _ _ Hk)).
  assert (core_wf (core l1)) as Hw1 by by eapply kept_core.
  assert (kept l (set_timer l1 (armed_now t))) as Hka by (eapply kept_trans; [exact Hk|by apply kept_timer]).
  destruct (pump_needed l1) eqn:Ep; [eexists _, _, _; split; [reflexivity|]; split_and!; try done; intros slack; by apply anew_timed; left|].
  specialize (Hq eq_refl).
  destruct (_ && _); [eexists _, _, _; split; [reflexivity|]; split_and!; try done; intros slack; by apply anew_timed; left|].
  set (l2 := set_timer l1 (armed_now t + wait_time l (wait_now t))).
  destruct (open_event_ok event l2 Hw1) as (Hk2 & Hc2 & Ht2).
  eexists _, _, _. split; [reflexivity|].
  assert (kept l (open_event event l2)) as Hkl by (eapply kept_trans; [exact Hk|]; eapply kept_trans; [by apply kept_timer|exact Hk2]).
  split; [done|]. split; [done|]. split.
  - intros slack. apply (wait_timed slack t l _ 0); [apply (kept_cleanup _ _ Hkl)|rewrite Ht2; cbn [l2 set_timer timer]; lia|done].
  - rewrite Hc2. cbn [l2 set_timer core]. by rewrite Hq.
Qed.

(** ** Turns and loops *)

Record udp_turn_ok (u : UdpTurn) : Prop := {
  ok_env : turn_ok (u_env u);
  ok_lent : forall n, Forall buf_ok (u_lent u n);
  ok_reads : Forall read_ok (u_reads u);
  ok_event : forall wire, u_event u = PacketEvent (Ok wire) -> is_bytes wire;
}.

(** The drain of the turn ends: the socket gives an error. *)
Definition drain_ends (u : UdpTurn) : Prop := Exists (fun r => exists e, r = Err e) (u_reads u).

Lemma arms_weaken (P : Prop) t f : arms True t f -> arms P t f.
Proof. destruct f; cbn; tauto. Qed.

Lemma udp_turn_moves u l socket :
  core_wf (core l) -> udp_turn_ok u -> socket_ok socket ->
  exists f socket', udp_turn u l socket = Ret (f, socket') /\ moves (u_env u) l f /\ socket_ok socket'
    /\ arms (drain_ends u) (u_env u) f.
Proof.
  intros Hw [Ht Hl Hr Hev] Hs. unfold udp_turn.
  destruct (head_ok (u_env u) l Hw Ht) as (h & -> & Hh). rbind.
  destruct h as [f|l1]; [destruct Hh as [Hm Ha]; eexists _, _; split_and!; try done; by apply arms_weaken|].
  pose proof (moves_core _ _ _ Hh) as Hw1. cbn [loop_of] in Hw1. destruct (closing (shared l1)).
  - destruct (closing_rest_ok (u_env u) l1 (u_reads u) (u_event u) Hw1 (ok_read _ Ht) Hr Hev) as (f & -> & Hw2 & He2 & Hd2 & Ha).
    rbind. eexists _, _. split; [reflexivity|]. split; [by eapply moves_on|done].
  - destruct (receiving_rest_ok (u_env u) (u_lent u) (u_event u) l1 socket Hw1 (ok_read _ Ht) Hl Hs)
      as (l2 & waited & s2 & -> & [Hw2 He2 (Hd2 & _) _] & Hs2 & Ha & _).
    rbind. eexists _, _. split; [reflexivity|]. split; [by eapply moves_on|done].
Qed.

(** A frame of the stream in a buffer, or on its own. *)
Definition stream_event_ok (event : StreamDriverEvent) : Prop :=
  match event with
  | Frame (Ok (ControlFrame frame)) => is_bytes frame
  | Frame (Ok (DataFrame packet)) => buf_ok packet /\ is_bytes (storage packet)
  | _ => True
  end.

Lemma process_batch_timer t packets l l' gone : process_batch t l packets = Ret (l', gone) -> timer l' = timer l.
Proof.
  revert l. induction packets as [|p packets IH]; intros l E; cbn [process_batch] in E; [by simplify_eq|].
  apply bind_ret_inv in E as ([[c s] a] & _ & E). destruct a; [by rewrite (IH _ E)..|by simplify_eq].
Qed.

Lemma stream_event_moves t event l :
  core_wf (core l) -> env_ok (read_env t) -> stream_event_ok event ->
  exists l', stream_event t event l = Ret l' /\ core_wf (core l') /\ evolves (shared l) (shared l')
    /\ cleanup_deadline l' = cleanup_deadline l /\ timer l' = timer l.
Proof.
  intros Hw He Hev. unfold stream_event.
  destruct event as [| | |[[]|]|[[frame|packet|]|err]]; cbn [stream_event_ok] in Hev.
  1-2, 4-5: eexists; (split; [reflexivity|]); try destruct (closing _); (split; [done|]); (split; [|done]);
    first [apply evolves_refl|apply failed_evolves].
  - eexists. split; [reflexivity|]. split; [done|]. split; [apply request_cleanup_evolves|done].
  - eexists. split; [reflexivity|]. split; [done|]. split; [apply evolves_refl|done].
  - destruct (deficit_kept t l frame Hw He Hev) as (l1 & a & E & [Hw1 He1 (Hd1 & _) _] & _).
    apply deficit_timer in E as Htm. rewrite E. rbind. eexists. split; [reflexivity|]. by destruct (is_pump a).
  - destruct Hev as [Hok Hb].
    destruct (process_batch_kept t l [packet] Hw He) as (l1 & gone & E & [Hw1 He1 (Hd1 & _) _]);
      [by apply Forall_singleton|apply Forall_singleton; intros wire; by apply slice_bytes|].
    apply process_batch_timer in E as Htm. rewrite E. rbind.
    eexists. split; [reflexivity|]. destruct gone; [|done]. split; [done|]. split; [|done].
    eapply evolves_trans; [exact He1|apply request_cleanup_evolves].
  - eexists. split; [reflexivity|]. split; [done|]. split; [|done]. evolves_fields.
  - eexists. split; [reflexivity|]. split; [done|]. split; [|done].
    destruct (closing _); [apply request_cleanup_evolves|apply failed_evolves].
Qed.

Definition stream_turn_ok (u : TurnEnv * StreamDriverEvent) : Prop := turn_ok (fst u) /\ stream_event_ok (snd u).

Lemma stream_turn_moves u l socket :
  core_wf (core l) -> stream_turn_ok u ->
  exists f, stream_turn u l socket = Ret (f, tt) /\ moves (fst u) l f /\ arms True (fst u) f.
Proof.
  destruct u as [t event], socket. intros Hw [Ht Hev]. cbn [fst snd] in *. unfold stream_turn.
  destruct (head_ok t l Hw Ht) as (h & -> & Hh). rbind. destruct h as [f|l1]; [by eexists|]. unfold stream_rest.
  destruct (stream_event_moves t event (set_timer l1 (armed_now t + wait_time l1 (wait_now t))) (moves_core _ _ _ Hh) (ok_read _ Ht) Hev)
    as (l2 & -> & Hw2 & He2 & Hd2 & Htm). rbind.
  eexists. split; [reflexivity|]. split; [by eapply moves_on|]. intros slack.
  apply (wait_timed slack t l1 _ 0); [done|rewrite Htm; cbn [set_timer timer]; lia|done].
Qed.

Definition owner_step_ok (o : OwnerStep) : Prop := match o with OwnerShutsDown env => env_ok env | _ => True end.

Lemma owner_steps_ok l os :
  core_wf (core l) -> Forall owner_step_ok os ->
  exists l', owner_steps l os = Ret l' /\ core_wf (core l') /\ evolves (shared l) (shared l')
    /\ cleanup_deadline l' = cleanup_deadline l.
Proof.
  intros Hw Hos. revert l Hw. induction Hos as [|o os Ho _ IH]; intros l Hw; cbn [owner_steps].
  { eexists. split; [reflexivity|]. split; [done|]. split; [apply evolves_refl|done]. }
  assert (exists l1, owner_step l o = Ret l1 /\ core_wf (core l1) /\ evolves (shared l) (shared l1)
    /\ cleanup_deadline l1 = cleanup_deadline l) as (l1 & -> & Hw1 & He1 & Hd1).
  { destruct o as [| | |env]; cbn [owner_step owner_step_ok] in *.
    - destruct (recv_ready _) as [[r s]|] eqn:E; (eexists; split; [reflexivity|]); (split; [done|]); (split; [|done]);
        [by eapply recv_ready_evolves|apply evolves_refl].
    - eexists. split; [reflexivity|]. split; [done|]. split; [|done]. evolves_fields.
    - eexists. split; [reflexivity|]. split; [done|]. split; [apply request_cleanup_evolves|done].
    - destruct (graceful_shutdown_ok env (core l) Hw Ho) as (c & r & -> & Hw'). rbind.
      eexists. split; [reflexivity|]. split; [done|]. split; [apply evolves_refl|done]. }
  rbind. destruct (IH l1 Hw1) as (l2 & -> & Hw2 & He2 & Hd2). exists l2. split; [done|]. split; [done|].
  split; [by eapply evolves_trans|congruence].
Qed.

Lemma leave_ok l : core_wf (core l) -> core_wf (core (leave l)) /\ destroyed (core (leave l)) = true.
Proof.
  apply force_destroyed.
Qed.

(** What a loop needs of its turns; [ends] says that the drain of a turn has
    an end. *)
Definition turns_move {T S} (turn : T -> Loop -> S -> res (Flow * S)) (env : T -> TurnEnv) (ok ends : T -> Prop) (sok : S -> Prop) : Prop :=
  forall u l socket, core_wf (core l) -> ok u -> sok socket ->
  exists f socket', turn u l socket = Ret (f, socket') /\ moves (env u) l f /\ sok socket' /\ arms (ends u) (env u) f.

Lemma udp_turns_move : turns_move udp_turn u_env udp_turn_ok drain_ends socket_ok.
Proof. exact udp_turn_moves. Qed.

Lemma stream_turns_move : turns_move stream_turn fst stream_turn_ok (fun _ => True) (fun _ : unit => True).
Proof. intros u l socket Hw Hu _. destruct (stream_turn_moves u l socket Hw Hu) as (f & E & Hm & Ha). by exists f, tt. Qed.

Section AnyLoop.
Context {T S : Type} (turn : T -> Loop -> S -> res (Flow * S)) (env : T -> TurnEnv) (ok ends : T -> Prop) (sok : S -> Prop).

Definition all_ok (turns : list (list OwnerStep * T)) : Prop := Forall (fun x => Forall owner_step_ok (fst x) /\ ok (snd x)) turns.

(** A schedule without an end, for a loop that takes at most [slack] over what
    a turn does and over waking up: the readings of a turn are close together,
    a turn comes once the sleep of the one before is over, time goes on, and
    the drain of every turn ends. *)
Record runs (slack : Z) (turns : nat -> list OwnerStep * T) (l : Loop) (socket : S) : Prop := {
  runs_ok : forall n, Forall owner_step_ok (fst (turns n)) /\ ok (snd (turns n));
  runs_punctual : forall n, punctual slack (env (snd (turns n)));
  runs_wake : forall n l' socket', driver_loop turn (map turns (seq 0 (Datatypes.S n))) l socket = Ret (Stays l', socket') ->
    closing_now (env (snd (turns (Datatypes.S n)))) <= timer l' + slack;
  runs_on : forall b, exists n, b <= closing_now (env (snd (turns n)));
  runs_drains : forall n, ends (snd (turns n));
}.

(** A loop that is left in one of its turns, at [limit] at the latest, and
    leaves a destroyed core behind. *)
Definition left_by (limit : Z) (turns : nat -> list OwnerStep * T) (l : Loop) (socket : S) : Prop :=
  exists n l' socket', driver_loop turn (map turns (seq 0 (Datatypes.S n))) l socket = Ret (Leaves l', socket')
    /\ destroyed (core l') = true /\ closing_now (env (snd (turns n))) <= limit.

Hypothesis turn_moves : turns_move turn env ok ends sok.

Lemma loop_safe turns l socket :
  core_wf (core l) -> all_ok turns -> sok socket ->
  exists f socket', driver_loop turn turns l socket = Ret (f, socket')
    /\ core_wf (core (loop_of f)) /\ evolves (shared l) (shared (loop_of f))
    /\ forall l', f = Leaves l' -> destroyed (core l') = true.
Proof.
  intros Hw Hts. revert l socket Hw. induction Hts as [|[os u] turns [Hos Hu] _ IH]; intros l socket Hw Hs; cbn [driver_loop].
  { eexists _, _. split; [reflexivity|]. split; [done|]. split; [apply evolves_refl|done]. }
  destruct (owner_steps_ok l os Hw Hos) as (l1 & -> & Hw1 & He1 & _). rbind.
  destruct (turn_moves u l1 socket Hw1 Hu Hs) as (f & s1 & -> & [Hw2 He2 _] & Hs1 & _). rbind.
  pose proof (evolves_trans _ _ _ He1 He2) as He. destruct f as [l2|l2|l2]; cbn [loop_of] in *.
  - destruct (IH l2 s1 Hw2 Hs1) as (f & s2 & -> & Hw3 & He3 & Hd). eexists _, _. split; [reflexivity|]. split; [done|].
    split; [by eapply evolves_trans|done].
  - destruct (leave_ok l2 Hw2) as [Hw3 Hd]. eexists _, _. split; [reflexivity|]. split; [done|]. split; [done|]. by intros l' [= <-].
  - eexists _, _. split; [reflexivity|]. by split_and!.
Qed.

(** Turns after turns, for a loop that stays in the first ones. *)
Lemma loop_app turns rest l socket :
  driver_loop turn (turns ++ rest) l socket
  = r ← driver_loop turn turns l socket;
    match r with (Stays l1, s1) => driver_loop turn rest l1 s1 | r => Ret r end.
Proof.
  revert l socket. induction turns as [|[os u] turns IH]; intros l socket; cbn [driver_loop app]; [done|].
  destruct (owner_steps l os) as [l2|]; [|done]. rbind. destruct (turn u l2 socket) as [[[l3|l3|l3] s3]|]; [apply IH|done..].
Qed.

Lemma upto_snoc {A} (turns : nat -> A) n : map turns (seq 0 (Datatypes.S n)) = map turns (seq 0 n) ++ [turns n].
Proof. by rewrite seq_S, map_app. Qed.

(** A closing loop with a deadline, after turns that it stayed in. *)
Record closes (limit last : Z) (l : Loop) : Prop := {
  closes_core : core_wf (core l);
  closes_shared : shared_ok (shared l);
  closes_closing : closing (shared l) = true;
  closes_deadline : exists d, cleanup_deadline l = Some d /\ last < d <= limit;
}.

Lemma turn_closes (x : list OwnerStep * T) l socket :
  let u := snd x in
  core_wf (core l) -> shared_ok (shared l) -> closing (shared l) = true -> sok socket -> Forall owner_step_ok (fst x) -> ok u -> ends u ->
  exists f socket', driver_loop turn [x] l socket = Ret (f, socket') /\ sok socket' /\
    match f with
    | Stays l' => (forall slack, timed slack (env u) l')
        /\ forall limit, (exists d, cleanup_deadline l = Some d /\ d <= limit) \/ now (cleanup_env (env u)) + CLEANUP_TIMEOUT <= limit ->
           closes limit (closing_now (env u)) l'
    | Leaves l' => destroyed (core l') = true
    | Drains _ => False
    end.
Proof.
  destruct x as [os u]. cbn [fst snd]. intros Hw Hsh Hc Hs Hos Hu Hends. cbn [driver_loop].
  destruct (owner_steps_ok l os Hw Hos) as (l1 & -> & Hw1 & He1 & Hd1). rbind.
  destruct (He1 Hsh) as (Hsh1 & Hc1 & _). destruct (Hc1 Hc) as [Hcl1 _].
  destruct (turn_moves u l1 socket Hw1 Hu Hs) as (f & s1 & -> & [Hw2 He2 Hdl] & Hs1 & Ha). rbind.
  destruct (He2 Hsh1) as (Hsh2 & Hc2 & _).
  destruct f as [l2|l2|l2]; cbn [loop_of arms] in *; (eexists _, _; split; [reflexivity|]); (split; [done|]);
    [|by apply leave_ok|by apply Ha].
  split; [done|]. intros limit Hlim. destruct (Hdl Hcl1 l2 eq_refl) as (d & Hd2 & Hlt & Hle & Hmin). rewrite Hd1 in Hmin.
  constructor; [done|done|by apply Hc2|]. exists d. split; [done|]. split; [done|].
  destruct Hlim as [(d0 & E & Hd0)|Hlim]; [specialize (Hmin d0 E); lia|lia].
Qed.

(** What a loop that is still there has: a deadline ahead of it and a timed sleep. *)
Lemma stays_closes turns l socket n l' s' :
  core_wf (core l) -> shared_ok (shared l) -> closing (shared l) = true -> sok socket ->
  (forall n, Forall owner_step_ok (fst (turns n)) /\ ok (snd (turns n))) -> (forall n, ends (snd (turns n))) ->
  driver_loop turn (map turns (seq 0 (Datatypes.S n))) l socket = Ret (Stays l', s') ->
  sok s' /\ closes (now (cleanup_env (env (snd (turns O)))) + CLEANUP_TIMEOUT) (closing_now (env (snd (turns n)))) l'
  /\ forall slack, timed slack (env (snd (turns n))) l'.
Proof.
  intros Hw Hsh Hc Hs Hok Hends. revert l' s'. induction n as [|n IH]; intros l' s' E.
  - destruct (turn_closes (turns O) l socket Hw Hsh Hc Hs) as (f & s2 & E' & Hs2 & Hf); [apply Hok..|apply Hends|].
    change (map turns (seq 0 1)) with [turns O] in E. rewrite E' in E. simplify_eq. destruct Hf as [Ha Hd].
    split; [done|]. split; [|done]. apply Hd. right. apply Z.le_refl.
  - rewrite upto_snoc, loop_app in E. apply bind_ret_inv in E as ([[l1|l1|l1] s1] & E1 & E); [|done|done].
    destruct (IH l1 s1 E1) as (Hs1 & [Hw1 Hsh1 Hc1 (d & Ed & Hd1)] & _).
    destruct (turn_closes (turns (Datatypes.S n)) l1 s1 Hw1 Hsh1 Hc1 Hs1) as (f & s2 & E' & Hs2 & Hf); [apply Hok..|apply Hends|].
    rewrite E' in E. simplify_eq. destruct Hf as [Ha Hd]. split; [done|]. split; [|done]. apply Hd. left. exists d. split; [done|lia].
Qed.

(** The turns up to any one leave in time, or stay. *)
Lemma runs_stays slack turns l socket n :
  core_wf (core l) -> shared_ok (shared l) -> closing (shared l) = true -> sok socket -> runs slack turns l socket ->
  left_by (now (cleanup_env (env (snd (turns O)))) + CLEANUP_TIMEOUT + CLEANUP_ERROR_RETRY + millis 1 + 2 * slack) turns l socket
  \/ exists l' socket', driver_loop turn (map turns (seq 0 (Datatypes.S n))) l socket = Ret (Stays l', socket').
Proof.
  intros Hw Hsh Hc Hs [Hok Hp Hwake _ Hends].
  assert (0 < CLEANUP_TIMEOUT /\ 0 < CLEANUP_ERROR_RETRY /\ 0 < millis 1) as (Ht & Hr0 & Hm) by done.
  induction n as [|n [IH|(l1 & s1 & E1)]]; [|by left|].
  - destruct (turn_closes (turns O) l socket Hw Hsh Hc Hs) as (f & s2 & E & Hs2 & Hf); [apply Hok..|apply Hends|].
    destruct f as [l2|l2|l2]; [right; by exists l2, s2| |done].
    left. exists O, l2, s2. split; [done|]. split; [done|]. destruct (Hp O) as [H1 H2 H3 H4]. lia.
  - destruct (stays_closes turns l socket n l1 s1 Hw Hsh Hc Hs Hok Hends E1) as (Hs1 & [Hw1 Hsh1 Hc1 (d & Ed & Hd)] & Ha).
    specialize (Hwake n l1 s1 E1). specialize (Ha slack d Ed (Hp n)).
    destruct (turn_closes (turns (Datatypes.S n)) l1 s1 Hw1 Hsh1 Hc1 Hs1) as (f & s2 & E & Hs2 & Hf); [apply Hok..|apply Hends|].
    assert (driver_loop turn (map turns (seq 0 (Datatypes.S (Datatypes.S n)))) l socket = Ret (f, s2)) as E2
      by (rewrite (upto_snoc turns (Datatypes.S n)), loop_app, E1; exact E).
    destruct f as [l2|l2|l2]; [right; by exists l2, s2| |done].
    left. exists (Datatypes.S n), l2, s2. split; [done|]. split; [done|]. lia.
Qed.

Lemma runs_end slack turns l socket :
  core_wf (core l) -> shared_ok (shared l) -> closing (shared l) = true -> sok socket -> runs slack turns l socket ->
  left_by (now (cleanup_env (env (snd (turns O)))) + CLEANUP_TIMEOUT + CLEANUP_ERROR_RETRY + millis 1 + 2 * slack) turns l socket.
Proof.
  intros Hw Hsh Hc Hs Hr. destruct (runs_on _ _ _ _ Hr (now (cleanup_env (env (snd (turns O)))) + CLEANUP_TIMEOUT)) as [n Hn].
  destruct (runs_stays slack turns l socket n Hw Hsh Hc Hs Hr) as [Hl|(l' & s' & E)]; [done|].
  destruct (stays_closes turns l socket n l' s' Hw Hsh Hc Hs (runs_ok _ _ _ _ Hr) (runs_drains _ _ _ _ Hr) E) as (_ & [_ _ _ (d & _ & Hd)] & _).
  lia.
Qed.
End AnyLoop.

(** C6: in every schedule of turns and of what the owner does between them,
    neither loop of a driver panics, whatever the kernel, the pool, the peer and
    the clocks give it; a burst ends after at most 128 turns; the core keeps its
    invariant and the shared state its own; the first terminal reason stays, a
    closing driver stays closing and is given no reason; and a loop that is left
    leaves a destroyed core behind. *)
Theorem driver_loops_safe l socket udp_turns stream_turns :
  core_wf (core l) -> shared_ok (shared l) -> socket_ok socket ->
  all_ok udp_turn_ok udp_turns -> all_ok stream_turn_ok stream_turns ->
  let safe f := core_wf (core (loop_of f)) /\ shared_ok (shared (loop_of f))
    /\ (closing (shared l) = true -> closing (shared (loop_of f)) = true /\ terminal_of (shared (loop_of f)) = terminal_of (shared l))
    /\ (forall r, terminal_of (shared l) = Some r -> terminal_of (shared (loop_of f)) = Some r)
    /\ (forall l', f = Leaves l' -> destroyed (core l') = true) in
  (exists f socket', driver_loop_udp udp_turns l socket = Ret (f, socket') /\ safe f)
  /\ (exists f, driver_loop_stream stream_turns l tt = Ret (f, tt) /\ safe f).
Proof.
  intros Hw Hsh Hs Hu Ht safe. split.
  - destruct (loop_safe udp_turn u_env udp_turn_ok drain_ends socket_ok udp_turns_move udp_turns l socket Hw Hu Hs)
      as (f & s' & E & Hw' & He & Hd). exists f, s'. split; [done|]. split; [done|]. destruct (He Hsh) as (? & ? & ?). by split_and!.
  - destruct (loop_safe stream_turn fst stream_turn_ok (fun _ => True) (fun _ => True) stream_turns_move stream_turns l tt Hw Ht I)
      as (f & [] & E & Hw' & He & Hd). exists f. split; [done|]. split; [done|]. destruct (He Hsh) as (? & ? & ?). by split_and!.
Qed.

(** C3: a driver that is closing ends: whatever the server, the sockets, the
    pool and the owner do at each turn, either loop is left, with its core
    destroyed, by a turn that begins at most 35.101 s and twice [slack] after the
    cleanup of its first turn as a closing driver. The driver brings this about
    itself: no turn is assumed to come before the sleep that the turn before
    armed is over, however long the driver made that sleep (an event may end it
    earlier at any time). The schedules considered ([runs]) are those of a host
    that is at most [slack] late: the clocks of one turn are at most [slack]
    apart, so that a pump and a drain take no longer, a turn comes at most
    [slack] after that sleep is over, time goes on, and the drain of each turn of
    the UDP loop ends (it need not: [flooded_never_leaves]). *)
Theorem cleanup_ends slack l socket udp_turns stream_turns :
  core_wf (core l) -> shared_ok (shared l) -> closing (shared l) = true -> socket_ok socket ->
  runs udp_turn u_env udp_turn_ok drain_ends slack udp_turns l socket ->
  runs stream_turn fst stream_turn_ok (fun _ => True) slack stream_turns l tt ->
  let limit t := now (cleanup_env t) + CLEANUP_TIMEOUT + CLEANUP_ERROR_RETRY + millis 1 + 2 * slack in
  left_by udp_turn u_env (limit (u_env (snd (udp_turns O)))) udp_turns l socket
  /\ left_by stream_turn fst (limit (fst (snd (stream_turns O)))) stream_turns l tt.
Proof.
  intros Hw Hsh Hc Hs Hu Ht limit. split.
  - by apply (runs_end udp_turn u_env udp_turn_ok drain_ends socket_ok udp_turns_move).
  - by apply (runs_end stream_turn fst stream_turn_ok (fun _ => True) (fun _ => True) stream_turns_move).
Qed.

(** A closing driver whose socket always has a datagram stays in its drain,
    whatever the clocks say: the drain looks at no deadline. *)
Lemma flooded_never_leaves u l l1 socket :
  core_wf (core l) -> udp_turn_ok u -> head (u_env u) l = Ret (inr l1) -> closing (shared l1) = true ->
  Forall (fun r => exists wire, r = Ok wire) (u_reads u) ->
  exists l', udp_turn u l socket = Ret (Drains l', socket).
Proof.
  intros Hw [Ht _ Hr _] E Hc Hall. unfold udp_turn. rewrite E. rbind. rewrite Hc. unfold closing_rest. cbv zeta.
  destruct (head_ok (u_env u) l Hw Ht) as (h & E' & Hh). rewrite E in E'. injection E' as <-. apply moves_core in Hh. cbn in Hh.
  generalize (wait_time l1 (wait_now (u_env u))) as wait. clear E Hc. revert l1 Hh.
  induction Hall as [|r reads [wire ->] _ IH]; intros l1 Hw1 wait; cbn [drain_closing]; [rbind; by eexists|].
  apply Forall_cons in Hr as [Hb Hr].
  destruct (deficit_kept (u_env u) l1 (received_part wire) Hw1 (ok_read _ Ht)) as (l2 & a & -> & Hk & _); [by apply Forall_take|].
  rbind. apply (IH Hr _ (kept_core _ _ Hk) wait).
Qed.

(** What a datagram did to the core of an open driver is pumped before the
    driver waits again: the turn that changed the core has not waited, and the
    next turn pumps the core before it receives anything. *)
Lemma answers_pumped t lent event l socket :
  core_wf (core l) -> env_ok (read_env t) -> (forall n, Forall buf_ok (lent n)) -> socket_ok socket ->
  exists l' waited socket', receiving_rest t lent event l socket = Ret (l', waited, socket')
    /\ (core l' <> core l -> waited = false
        /\ forall t', closing (shared l') = false ->
             head t' l' = (f ← pump_step t' (observe_step t' l'); Ret (inl f))).
Proof.
  intros Hw He Hl Hs.
  destruct (receiving_rest_ok t lent event l socket Hw He Hl Hs) as (l' & waited & s' & E & _ & _ & _ & Hwait & Hpump).
  exists l', waited, s'. split; [done|]. intros Hne. split; [destruct waited; [by destruct (Hne (Hwait eq_refl))|done]|].
  intros t' Hopen. specialize (Hpump Hne). unfold head.
  assert (closing (shared (observe_step t' l')) = false /\ pump_needed (observe_step t' l') = true) as [Hc Hp]
    by (unfold observe_step; destruct (observe_wake _ _ _ _ _) as [[c seen] pump]; cbn; by rewrite Hpump).
  unfold closing_step. rewrite Hc. cbn [negb]. rbind. by rewrite Hp.
Qed.

(** A closing driver forgets the pump that an answer in its socket asked for
    when the datagram that ends its wait is data. *)
Lemma closing_forgets_pump t l reads wire channel n l' :
  channel_data_header (received_part wire) = Ret (Some (channel, n)) ->
  closing_rest t l reads (PacketEvent (Ok wire)) = Ret (Stays l') -> pump_needed l' = false.
Proof.
  intros Hh E. unfold closing_rest in E. apply bind_ret_inv in E as ([l1 []] & _ & E); [|done].
  apply bind_ret_inv in E as (l2 & E & [= <-]). unfold closing_event, deficit_step, process_deficit_packet in E. rewrite Hh in E. revert E. rbind.
  cbn [set_timer shared core]. destruct (channel =? bound_channel (shared l1)); intros [= <-]; reflexivity.
Qed.
End TurnFacts.

(** ** Evaluated turns *)

Definition example_turn (at_ : Z) : TurnEnv :=
  mkTurnEnv (example_env at_ 1) 0 0 true (example_env at_ 2) at_ (example_env at_ 3) at_ always_sends (example_env at_ 4) at_ at_.

Lemma example_turn_ok at_ : turn_ok (example_turn at_).
Proof. constructor; intros o; reflexivity. Qed.

Definition example_udp_turn (at_ : Z) (event : DriverEvent) : UdpTurn :=
  mkUdpTurn (example_turn at_) (fun _ => [blank_packet]) [Err would_block] event.

Lemma example_udp_turn_ok at_ event :
  (forall wire, event = PacketEvent (Ok wire) -> is_bytes wire) -> udp_turn_ok (example_udp_turn at_ event).
Proof. intros He. constructor; [apply example_turn_ok| |by repeat constructor|done]. intros n. by repeat constructor. Qed.

(** A frame of the bound channel, in the socket of a driver. *)
Definition example_socket : RecvSide := mkRecv [(channel_frame 0x4000 (replicate 12 7), somewhere)] [Gives 64] true.

Lemma example_socket_ok : socket_ok example_socket.
Proof. constructor; [|constructor]. apply is_bytes_check. vm_compute. reflexivity. Qed.

Definition example_loop : Loop := start_loop (after_calls 1) bound_shared 0 0.

Lemma bound_shared_ok : shared_ok bound_shared.
Proof. constructor; simpl; done. Qed.

(** Two turns that pump and receive, then the owner is gone and the cleanup starts. *)
Definition example_turns : list (list OwnerStep * UdpTurn) :=
  [([], example_udp_turn 1 TimerEvent); ([OwnerTakes], example_udp_turn 2 (ReadableEvent (Ok tt)));
   ([OwnerDrops], example_udp_turn 3 OwnerClosedEvent); ([OwnerCleansUp], example_udp_turn 4 WakeEvent)].

Lemma example_turns_ok : all_ok udp_turn_ok example_turns.
Proof.
  repeat (apply Forall_cons; split; [split; [by repeat constructor|by apply example_udp_turn_ok]|]). constructor.
Qed.

Lemma driver_loops_safe_witness :
  (exists f socket', driver_loop_udp example_turns example_loop example_socket = Ret (f, socket') /\ core_wf (core (loop_of f)))
  /\ exists f, driver_loop_stream [([], (example_turn 1, Frame (Ok DataDropped)))] example_loop tt = Ret (f, tt)
       /\ shared_ok (shared (loop_of f)).
Proof.
  destruct (driver_loops_safe example_loop example_socket example_turns [([], (example_turn 1, Frame (Ok DataDropped)))]
    (after_calls_wf 1) bound_shared_ok example_socket_ok example_turns_ok) as [Hu Hs].
  - constructor; [|constructor]. split; [constructor|]. split; [apply example_turn_ok|exact I].
  - destruct Hu as (f & s & E & Hw & _), Hs as (f' & E' & _ & Hs & _). split.
    + exists f, s. split; [exact E|exact Hw].
    + exists f'. split; [exact E'|exact Hs].
Defined.

(** A loop that has pumped, and whose timer is not due. *)
Definition pumped_loop : Loop := mkLoop (after_calls 1) bound_shared None false false 100 false MIN_DATAGRAMS 0 1.

(** The payload of the frame in the socket reaches the owner's queue. *)
Example receiving_example :
  match driver_loop_udp [([], example_udp_turn 1 (ReadableEvent (Ok tt)))] pumped_loop example_socket with
  | Ret (Stays l, socket) => map as_slice (incoming (shared l)) = [Ret (replicate 12 7)] /\ inbox socket = []
  | _ => False
  end.
Proof. vm_compute. split; reflexivity. Qed.

(** The same loop, closing, after its request was sent. *)
Definition closing_loop : Loop := set_shared example_loop (request_cleanup (set_control_sent true bound_shared)).

Lemma closing_loop_ok : shared_ok (shared closing_loop).
Proof. constructor; simpl; done. Qed.

(** A turn each half second, ended by a wake-up. *)
Definition tick (n : nat) : Z := millis (500 * Z.of_nat n).
Definition ticks (n : nat) : list OwnerStep * UdpTurn := ([], example_udp_turn (tick n) WakeEvent).
Definition stream_ticks (n : nat) : list OwnerStep * (TurnEnv * StreamDriverEvent) := ([], (example_turn (tick n), StreamWake)).

Lemma punctual_example at_ : punctual (secs 1) (example_turn at_).
Proof. assert (0 < secs 1) by done. constructor; cbn; lia. Qed.

Lemma ticks_on b : exists n, b <= tick n.
Proof. exists (Z.to_nat b). unfold tick, millis. lia. Qed.

(** Turns that come half a second apart come before the sleep is over by a second. *)
Lemma ticks_run {T S} turn env ok ends sok (turns : nat -> list OwnerStep * T) l (socket : S) :
  turns_move turn env ok ends sok -> core_wf (core l) -> shared_ok (shared l) -> closing (shared l) = true -> sok socket ->
  (forall n, Forall owner_step_ok (fst (turns n)) /\ ok (snd (turns n))) -> (forall n, ends (snd (turns n))) ->
  (forall n, env (snd (turns n)) = example_turn (tick n)) ->
  runs turn env ok ends (secs 1) turns l socket.
Proof.
  intros Hm Hw Hsh Hc Hs Hok Hends Henv. constructor; try done.
  - intros n. rewrite Henv. apply punctual_example.
  - intros n l' s' E.
    destruct (stays_closes turn env ok ends sok Hm turns l socket n l' s' Hw Hsh Hc Hs Hok Hends E) as (_ & [_ _ _ (d & Ed & Hd)] & Ha).
    specialize (Ha (secs 1) d Ed). rewrite !Henv in *. cbn [example_turn closing_now] in *.
    specialize (Ha (punctual_example _)). unfold tick, millis, secs in *. lia.
  - intros b. destruct (ticks_on b) as [n Hn]. exists n. by rewrite Henv.
Qed.

Lemma cleanup_ends_witness :
  let limit := CLEANUP_TIMEOUT + CLEANUP_ERROR_RETRY + millis 1 + 2 * secs 1 in
  left_by udp_turn u_env limit ticks closing_loop example_socket /\ left_by stream_turn fst limit stream_ticks closing_loop tt.
Proof.
  apply (cleanup_ends (secs 1) closing_loop example_socket ticks stream_ticks (after_calls_wf 1) closing_loop_ok eq_refl example_socket_ok).
  - apply (ticks_run udp_turn u_env udp_turn_ok drain_ends socket_ok ticks closing_loop example_socket udp_turns_move (after_calls_wf 1) closing_loop_ok eq_refl example_socket_ok).
    + intros n. split; [apply List.Forall_nil|apply example_udp_turn_ok; discriminate].
    + intros n. apply Exists_cons_hd. exists would_block. reflexivity.
    + reflexivity.
  - apply (ticks_run stream_turn fst stream_turn_ok (fun _ => True) (fun _ => True) stream_ticks closing_loop tt stream_turns_move (after_calls_wf 1) closing_loop_ok eq_refl I).
    + intros n. split; [apply List.Forall_nil|]. split; [apply example_turn_ok|exact I].
    + intros n. exact I.
    + reflexivity.
Defined.

(** The UDP loop above, evaluated: no answer comes, the core gives its request
    up 10 s after the first turn, and the next turn leaves the loop. *)
Example ticks_example :
  match driver_loop_udp (map ticks (seq 0 21)) closing_loop example_socket, driver_loop_udp (map ticks (seq 0 22)) closing_loop example_socket with
  | Ret (Stays _, _), Ret (Leaves _, _) => True
  | _, _ => False
  end.
Proof. vm_compute. exact I. Qed.

Lemma answers_pumped_witness :
  exists l' waited socket',
    receiving_rest (example_turn 5) (fun _ => [blank_packet]) TimerEvent example_loop example_socket = Ret (l', waited, socket')
    /\ (core l' <> core example_loop -> waited = false).
Proof.
  destruct (answers_pumped (example_turn 5) (fun _ => [blank_packet]) TimerEvent example_loop example_socket
    (after_calls_wf 1)) as (l' & waited & s' & E & H).
  - intros o. reflexivity.
  - exact (ok_lent _ (example_udp_turn_ok 5 TimerEvent ltac:(discriminate))).
  - exact example_socket_ok.
  - exists l', waited, s'. split; [exact E|]. intros Hne. apply (H Hne).
Defined.
