(* ===== verification/TurnApi.v ===== *)
(** * TurnApi: what a session asks of a TURN allocation

    Models the methods of [TurnAllocation] in [turn.rs] and [connect_transport]:
    opening an allocation, binding its channel, sending with and without a
    duplicate and in batches, and giving it up. The snapshots of the driver
    that an awaiting method sees are an argument, and so are the answers of the
    kernel. *)

From Stdlib Require Import Strings.String.
From S2P Require Import Prelude Bytes Text Digests TurnMessage TurnCore TurnCoreFacts PacketPool Scheduler ChannelData TurnReceive TurnEndpoint UdpBatch.

Definition CONTROL_TIMEOUT : Z := secs 12.
Definition ALLOCATION_TIMEOUT : Z := secs 25.

(** How waiting for a snapshot ends when none that was seen decides it. *)
Inductive WaitEnd : Type := TimesOut | StateClosed.

Inductive ApiError : Type :=
| UsernameTooLong | PasswordTooLong
| BadEndpoint (e : EndpointError)
| NoTransport (failures : list TurnEndpoint)
| CoreRefused (e : TurnError)
| NotOpen (e : OpenError)
| RequestRejected (method status stun_code : Z)
| Ended (reason : Reason)
| WaitTimeout | StateChannelClosed
| AllocateOverdue
| ReceiverTaken
| ChannelRequired
| NotEncodable (e : ChannelError)
| SendIo (e : IoError)
| StreamQueueClosed.

(** ** The allocation *)

Record Allocation : Type := mkAllocation {
  a_core : Inner;
  a_shared : DriverShared;
  a_relay : SocketAddr;
  receiver_taken : bool;
  driver_held : bool;
  deallocated : bool;
}.

Definition set_a_core (c : Inner) (s : DriverShared) (a : Allocation) : Allocation :=
  mkAllocation c s (a_relay a) (receiver_taken a) (driver_held a) (deallocated a).

(** ** Waiting for the driver *)

(** The loop around [borrow] and [changed]: the first snapshot that decides. *)
Fixpoint wait_on {A} (check : CoreSnapshot -> option (result A ApiError)) (seen : list CoreSnapshot) (e : WaitEnd) : result A ApiError :=
  match seen with
  | [] => Err (match e with TimesOut => WaitTimeout | StateClosed => StateChannelClosed end)
  | s :: seen => match check s with Some r => r | None => wait_on check seen e end
  end.

Definition completion_sequence (s : DriverShared) (method : Z) : Z := sequence (completion (snapshot s) method).

Definition completed (method baseline : Z) (s : CoreSnapshot) : option (result unit ApiError) :=
  let c := completion s method in
  if baseline <? sequence c then
    Some (if (status c =? 0) && (stun_code c =? 0) then Ok tt else Err (RequestRejected method (status c) (stun_code c)))
  else match terminal s with Some reason => Some (Err (Ended reason)) | None => None end.

Definition wait_for_completion (method baseline : Z) (seen : list CoreSnapshot) (e : WaitEnd) : result unit ApiError :=
  wait_on (completed method baseline) seen e.

Definition allocated (s : CoreSnapshot) : option (result SocketAddr ApiError) :=
  match terminal s with
  | Some reason => Some (Err (Ended reason))
  | None =>
      match (if sn_state s =? STATE_READY then sn_relay s else None) with
      | Some relay => Some (Ok relay)
      | None => None
      end
  end.

(** [wait_for_allocation] under the hard deadline of [connect]: [late] when the
    deadline passed before it was over. *)
Definition wait_for_allocation (baseline : Z) (seen : list CoreSnapshot) (e : WaitEnd) (later : list CoreSnapshot) (e' : WaitEnd)
    : result SocketAddr ApiError :=
  match wait_for_completion METHOD_ALLOCATE baseline seen e with
  | Err x => Err x
  | Ok _ => wait_on allocated later e'
  end.

Definition bound (s : CoreSnapshot) : option (result unit ApiError) :=
  match terminal s with
  | Some reason => Some (Err (Ended reason))
  | None => match sn_channel s with Some _ => Some (Ok tt) | None => None end
  end.

(** ** Connecting *)

(** The first endpoint that connects; [attempt] is what it gives. *)
Fixpoint connect_transport {A} (attempt : TurnEndpoint -> option A) (endpoints failures : list TurnEndpoint) : result A ApiError :=
  match endpoints with
  | [] => Err (NoTransport failures)
  | endpoint :: endpoints =>
      match attempt endpoint with
      | Some value => Ok value
      | None => connect_transport attempt endpoints (failures ++ [endpoint])
      end
  end.

Definition control_transport (t : TurnWireTransport) : TurnControlTransport :=
  match t with WireUdp => Datagram | WireTcp | WireTls => Stream end.

(** What [connect] meets while it waits. *)
Record ConnectWait : Type := mkConnectWait {
  seen : list CoreSnapshot;
  seen_end : WaitEnd;
  later : list CoreSnapshot;
  later_end : WaitEnd;
  overdue : bool;  (** the hard deadline passed first *)
}.

Section Calls.
Context `{Digests}.

(** [TurnAllocation::connect] after the endpoints are known. The second
    component is the allocation that is dropped with an error. *)
Definition open_allocation (env : Env) (server : SocketAddr) (wire : TurnWireTransport) (username password : bytes) (peer : SocketAddr)
    (w : ConnectWait) : res (result Allocation ApiError * option Allocation) :=
  match create server username password peer PJNATH_COMPAT (control_transport wire) with
  | Err e => Ret (Err (CoreRefused e), None)
  | Ok core =>
      let unspecified := match server with V4 ip _ => V4 ip 0 | V6 ip _ => V6 ip 0 end in
      let a := mkAllocation core new_shared unspecified false true false in
      let baseline := completion_sequence (a_shared a) METHOD_ALLOCATE in
      r ← start_allocation env core;
      match r with
      | (core, Err e) => Ret (Err (CoreRefused e), Some (set_a_core core (fail (a_shared a) (CallFailed e)) a))
      | (core, Ok _) =>
          let a := set_a_core core (a_shared a) a in
          if overdue w then Ret (Err AllocateOverdue, Some (set_a_core core (fail (a_shared a) AllocateDeadline) a)) else
          match wait_for_allocation baseline (seen w) (seen_end w) (later w) (later_end w) with
          | Err e => Ret (Err e, Some a)
          | Ok relay => Ret (Ok (mkAllocation core (a_shared a) relay false true false), None)
          end
      end
  end.

Definition connect (env : Env) (attempt : TurnEndpoint -> option SocketAddr) (address : text) (override_host override_port : option text)
    (mode : TurnTransportMode) (username password : bytes) (peer : SocketAddr) (w : ConnectWait)
    : res (result Allocation ApiError * option Allocation) :=
  if 512 <? zlen username then Ret (Err UsernameTooLong, None)
  else if 512 <? zlen password then Ret (Err PasswordTooLong, None)
  else match resolve_turn_endpoints address override_host override_port mode with
  | Err e => Ret (Err (BadEndpoint e), None)
  | Ok endpoints =>
      match connect_transport (fun e => match attempt e with Some server => Some (server, transport e) | None => None end) endpoints [] with
      | Err e => Ret (Err e, None)
      | Ok (server, wire) => open_allocation env server wire username password peer w
      end
  end.

Definition take_receiver (a : Allocation) : result Allocation ApiError :=
  if receiver_taken a then Err ReceiverTaken
  else Ok (mkAllocation (a_core a) (a_shared a) (a_relay a) true (driver_held a) (deallocated a)).

(** [bind_channel]: the core's two calls, then the two waits. *)
Definition bind_channel (env : Env) (a : Allocation) (w : ConnectWait) : res (Allocation * result unit ApiError) :=
  let baseline := completion_sequence (a_shared a) METHOD_CHANNEL_BIND in
  r ← start_permission env (a_core a);
  match r with
  | (core, Err e) => Ret (set_a_core core (fail (a_shared a) (CallFailed e)) a, Err (CoreRefused e))
  | (core, Ok _) =>
      r ← start_channel env core;
      match r with
      | (core, Err e) => Ret (set_a_core core (fail (a_shared a) (CallFailed e)) a, Err (CoreRefused e))
      | (core, Ok _) =>
          let a := set_a_core core (a_shared a) a in
          match wait_for_completion METHOD_CHANNEL_BIND baseline (seen w) (seen_end w) with
          | Err e => Ret (a, Err e)
          | Ok _ => Ret (a, wait_on bound (later w) (later_end w))
          end
      end
  end.

Definition prepare_channel (env : Env) (a : Allocation) (w : ConnectWait) : res (Allocation * result unit ApiError) :=
  match ensure_open (a_shared a) with
  | Err e => Ret (a, Err (NotOpen e))
  | Ok _ => if negb (bound_channel (a_shared a) =? 0) then Ret (a, Ok tt) else bind_channel env a w
  end.
End Calls.

(** ** Sending *)

(** Where an allocation sends: a connected socket, or the data queue of a
    stream, which takes so many packets more before its writer is gone. *)
Inductive TurnOutbound : Type :=
| UdpOut (s : SendSide)
| StreamOut (queued : list PacketBuf) (room : option nat).

(** [TurnStreamWriter::write_data], which waits for a place. *)
Definition write_data (packet : PacketBuf) (queued : list PacketBuf) (room : option nat) : result unit ApiError * TurnOutbound :=
  match room with
  | Some O => (Err StreamQueueClosed, StreamOut queued room)
  | Some (S n) => (Ok tt, StreamOut (queued ++ [packet]) (Some n))
  | None => (Ok tt, StreamOut (queued ++ [packet]) None)
  end.

(** [UdpSocket::send]: a try per time the socket is writable. *)
Fixpoint udp_send (waits : list (result unit IoError)) (datagram : bytes) (s : SendSide) : option (result unit IoError) * SendSide :=
  match waits with
  | [] => (None, s)
  | Err e :: _ => (Some (Err e), s)
  | Ok _ :: waits =>
      match try_send_one datagram s with
      | (Ok _, s) => (Some (Ok tt), s)
      | (Err e, s) => if bool_decide (kind e = WouldBlock) then udp_send waits datagram s else (Some (Err e), s)
      end
  end.

Definition send_result (r : option (result unit IoError)) : option (result unit ApiError) :=
  match r with None => None | Some (Ok _) => Some (Ok tt) | Some (Err e) => Some (Err (SendIo e)) end.

(** [None] as long as it waits for the socket. *)
Definition send_with_duplicate (s : DriverShared) (packet : PacketBuf) (duplicate : bool) (waits : list (result unit IoError))
    (out : TurnOutbound) : res (option (result unit ApiError) * TurnOutbound) :=
  match ensure_open s with
  | Err e => Ret (Some (Err (NotOpen e)), out)
  | Ok _ =>
      let channel := bound_channel s in
      if channel =? 0 then Ret (Some (Err ChannelRequired), out) else
      encoded ← encode_channel_data packet channel;
      match encoded with
      | Err e => Ret (Some (Err (NotEncodable e)), out)
      | Ok packet =>
          match out with
          | UdpOut socket =>
              datagram ← as_slice packet;
              let '(r, socket) := udp_send waits datagram socket in
              match r with
              | Some (Ok _) =>
                  Ret (Some (Ok tt), UdpOut (if duplicate then snd (try_send_one datagram socket) else socket))
              | r => Ret (send_result r, UdpOut socket)
              end
          | StreamOut queued room => let '(r, out) := write_data packet queued room in Ret (Some r, out)
          end
      end
  end.

Fixpoint validate_all (packets : list PacketBuf) (channel : Z) : result unit ChannelError :=
  match packets with
  | [] => Ok tt
  | p :: packets => match channel_data_padding p channel with Err e => Err e | Ok _ => validate_all packets channel end
  end.

(** Encoding in place, up to the first packet that fails. *)
Fixpoint encode_all (packets : list PacketBuf) (channel : Z) : res (list PacketBuf * result unit ChannelError) :=
  match packets with
  | [] => Ret ([], Ok tt)
  | p :: packets =>
      encoded ← encode_channel_data p channel;
      match encoded with
      | Err e => Ret (p :: packets, Err e)
      | Ok p => r ← encode_all packets channel; Ret (p :: fst r, snd r)
      end
  end.

(** [packets.chunks(MAX_DATAGRAMS)] *)
Fixpoint chunks {A} (turns n : nat) (l : list A) : list (list A) :=
  match turns, l with
  | S turns, _ :: _ => take n l :: chunks turns n (drop n l)
  | _, _ => []
  end.

(** Each chunk through [send_connected], with the waits of each. *)
Fixpoint send_chunks (waits : nat -> list (result unit IoError)) (chunks : list (list bytes)) (s : SendSide)
    : option (result unit IoError) * SendSide :=
  match chunks with
  | [] => (Some (Ok tt), s)
  | c :: chunks =>
      match send_connected (waits (length chunks)) c s with
      | (Some (Ok _), s) => send_chunks waits chunks s
      | r => r
      end
  end.

(** [packets.drain(..)] into the stream: what is left is dropped with an error. *)
Fixpoint drain_into (packets : list PacketBuf) (queued : list PacketBuf) (room : option nat) : result unit ApiError * TurnOutbound :=
  match packets with
  | [] => (Ok tt, StreamOut queued room)
  | p :: packets =>
      match write_data p queued room with
      | (Ok _, StreamOut queued room) => drain_into packets queued room
      | r => r
      end
  end.

Fixpoint slices (packets : list PacketBuf) : res (list bytes) :=
  match packets with
  | [] => Ret []
  | p :: packets => d ← as_slice p; ds ← slices packets; Ret (d :: ds)
  end.

Definition send_data_batch (s : DriverShared) (packets : list PacketBuf) (waits : nat -> list (result unit IoError))
    (out : TurnOutbound) : res (list PacketBuf * option (result unit ApiError) * TurnOutbound) :=
  if zlen packets =? 0 then Ret (packets, Some (Ok tt), out) else
  match ensure_open s with
  | Err e => Ret (packets, Some (Err (NotOpen e)), out)
  | Ok _ =>
      let channel := bound_channel s in
      if channel =? 0 then Ret (packets, Some (Err ChannelRequired), out) else
      match validate_all packets channel with
      | Err e => Ret (packets, Some (Err (NotEncodable e)), out)
      | Ok _ =>
          r ← encode_all packets channel;
          let '(packets, r) := r in
          match r with
          | Err e => Ret (packets, Some (Err (NotEncodable e)), out)
          | Ok _ =>
              match out with
              | UdpOut socket =>
                  datagrams ← slices packets;
                  let '(r, socket) := send_chunks waits (chunks (length datagrams) (Z.to_nat MAX_DATAGRAMS) datagrams) socket in
                  Ret (packets, send_result r, UdpOut socket)
              | StreamOut queued room =>
                  let '(r, out) := drain_into packets queued room in
                  Ret ([], Some r, out)
              end
          end
      end
  end.

(** ** Giving up *)

Section GivingUp.
Context `{Digests}.

(** [deallocate]: [joined] is whether the driver ended by itself within
    [CLEANUP_TIMEOUT] and a second. *)
Definition deallocate (env : Env) (joined : bool) (a : Allocation) : res Allocation :=
  if deallocated a then Ret a else
  r ← graceful_shutdown env (a_core a);
  let core := if driver_held a && negb joined then force_destroy (fst r) 0 else fst r in
  Ret (mkAllocation core (request_cleanup (a_shared a)) (a_relay a) (receiver_taken a) false true).

Definition drop_allocation (env : Env) (a : Allocation) : res Allocation :=
  r ← graceful_shutdown env (a_core a);
  Ret (mkAllocation (fst r) (request_cleanup (a_shared a)) (a_relay a) (receiver_taken a) false (deallocated a)).
End GivingUp.

(** ** Sending is all or nothing until the socket *)

Lemma padding_encodable p channel : buf_ok p -> is_ok (channel_data_padding p channel) = true <-> encodable p channel.
Proof.
  intros Hok. pose proof (len_ok p Hok) as Hlen. destruct Hok as (Hst & Hs & He).
  pose proof (padding_bound (len p)) as [Hpad _]. unfold channel_data_padding, encodable, checked_add, u16_max, PACKET_CAPACITY in *.
  destruct (channel_in_range channel); cbn [negb]; [|split; [done|by intros (? & _)]].
  destruct (Z.ltb_spec (2 ^ 16 - 1) (len p)) as [Hbig|_]; [lia|].
  destruct (Z.ltb_spec (range_end p + (4 - len p mod 4) mod 4) (2 ^ 64)); [|lia].
  destruct (Z.ltb_spec (range_start p) 4); cbn [orb]; [split; [done|lia]|].
  destruct (Z.ltb_spec 2304 (range_end p + (4 - len p mod 4) mod 4)); split; try done; lia.
Qed.

(** A packet and the bytes that it holds. *)
Definition carries (p : PacketBuf) (payload : bytes) : Prop := buf_ok p /\ as_slice p = Ret payload.

Lemma validate_all_ok packets payloads channel :
  Forall2 carries packets payloads ->
  validate_all packets channel = Ok tt <-> Forall (fun p => encodable p channel) packets.
Proof.
  intros Hf. induction Hf as [|p d ps ds [Hok _] _ IH]; cbn [validate_all]; [by split|].
  rewrite Forall_cons, <- IH, <- (padding_encodable p channel Hok).
  destruct (channel_data_padding p channel); cbn [is_ok]; naive_solver.
Qed.

Lemma encode_all_ok packets payloads channel :
  Forall2 carries packets payloads -> Forall (fun p => encodable p channel) packets ->
  exists packets', encode_all packets channel = Ret (packets', Ok tt)
    /\ Forall2 carries packets' (map (channel_frame channel) payloads).
Proof.
  intros Hf. induction Hf as [|p d ps ds [Hok Hd] _ IH]; intros He; cbn [encode_all].
  { exists []. by split; [|constructor]. }
  apply Forall_cons in He as [Hp He]. destruct (IH He) as (ps' & Eps & Hf').
  destruct (encode_channel_data_roundtrip p channel d Hok Hd) as [(_ & q & _ & _ & -> & Hokq & Hq & _)|[Hn _]]; [|done].
  rbind. rewrite Eps. rbind. eexists. split; [reflexivity|]. by constructor.
Qed.

Lemma slices_ok packets payloads : Forall2 carries packets payloads -> slices packets = Ret payloads.
Proof. intros Hf. induction Hf as [|p d ps ds [_ Hd] _ IH]; cbn [slices]; [done|]. rewrite Hd. rbind. by rewrite IH. Qed.

Lemma chunks_concat {A} turns n (l : list A) : (0 < n)%nat -> (length l <= turns)%nat ->
  concat (chunks turns n l) = l /\ Forall (fun c => zlen c <= Z.of_nat n) (chunks turns n l).
Proof.
  intros Hn. revert l. induction turns as [|turns IH]; intros l Hl; cbn [chunks].
  { destruct l; [by split|cbn in Hl; lia]. }
  destruct l as [|x l]; [by split|]. destruct (IH (drop n (x :: l))) as [Hc Hf]; [rewrite length_drop; cbn in *; lia|].
  split.
  - cbn [concat]. rewrite Hc. apply take_drop.
  - constructor; [|done]. unfold zlen. rewrite length_take. lia.
Qed.

(** The chunks reach the kernel in order, as far as they get. *)
Lemma send_chunks_ok waits cs s :
  atomic (answers s) -> Forall (fun c => zlen c <= MAX_DATAGRAMS) cs ->
  let '(r, s') := send_chunks waits cs s in
  exists k, (k <= length (concat cs))%nat /\ wire s' = wire s ++ take k (concat cs)
    /\ (r = Some (Ok tt) <-> k = length (concat cs)).
Proof.
  revert s. induction cs as [|c cs IH]; intros s Ha Hf; cbn [send_chunks concat].
  { exists 0%nat. rewrite app_nil_r. split; [done|]. by split. }
  apply Forall_cons in Hf as [Hc Hf]. unfold send_connected, validate_batch_len.
  destruct (Z.leb_spec (zlen c) MAX_DATAGRAMS); [|lia].
  pose proof (send_loop_spec (waits (length cs)) c 0 s (Nat.le_0_l _) Hc Ha) as Hs. change (Z.of_nat 0) with 0 in Hs.
  destruct (send_loop (waits (length cs)) c 0 s) as [r s1].
  destruct Hs as (j & Hj & Hw & Ha1 & _ & Hr). rewrite Nat.sub_0_r, drop_0 in Hw.
  assert (r <> Some (Ok tt) -> exists k, (k <= length (c ++ concat cs))%nat /\ wire s1 = wire s ++ take k (c ++ concat cs)
    /\ (r = Some (Ok tt) <-> k = length (c ++ concat cs))) as Hstop.
  { intros Hne. assert (j <> length c) by tauto. exists j. rewrite length_app, take_app_le by lia. split; [lia|].
    split; [done|]. split; [done|lia]. }
  destruct r as [[[]|e]|]; try by apply Hstop.
  assert (j = length c) as -> by tauto. rewrite take_ge in Hw by lia.
  specialize (IH s1 Ha1 Hf). destruct (send_chunks waits cs s1) as [r s2]. destruct IH as (k & Hk & Hw2 & Hr2).
  exists (length c + k)%nat. rewrite length_app. split; [lia|]. rewrite Hw2, Hw, <- app_assoc. split; [by rewrite take_app_add|].
  rewrite Hr2. lia.
Qed.

(** What a batch needs to be sent. *)
Definition sendable (s : DriverShared) (packets : list PacketBuf) : Prop :=
  ensure_open s = Ok tt /\ bound_channel s <> 0 /\ Forall (fun p => encodable p (bound_channel s)) packets.

(** C10: a batch of an open allocation with a bound channel, every packet of
    which can be encoded, reaches the kernel as the ChannelData frames of its
    payloads, in order, each at most once, and success is reported exactly when
    all of them have; in any other case it is refused with an error before a
    byte of any packet is changed or sent. *)
Theorem batch_sent_or_refused s packets payloads waits socket :
  Forall2 carries packets payloads -> packets <> [] -> atomic (answers socket) ->
  let frames := map (channel_frame (bound_channel s)) payloads in
  exists packets' r socket', send_data_batch s packets waits (UdpOut socket) = Ret (packets', r, UdpOut socket')
    /\ (sendable s packets -> exists k, (k <= length frames)%nat /\ wire socket' = wire socket ++ take k frames
          /\ (r = Some (Ok tt) <-> k = length frames))
    /\ (~ sendable s packets -> packets' = packets /\ socket' = socket /\ exists e, r = Some (Err e)).
Proof.
  intros Hf Hne Ha frames. unfold send_data_batch, sendable.
  destruct (Z.eqb_spec (zlen packets) 0) as [Hz%zlen_zero|_]; [done|].
  destruct (ensure_open s) as [[]|e]; [|eexists _, _, _; split; [reflexivity|]; naive_solver].
  destruct (Z.eqb_spec (bound_channel s) 0) as [H0|H0]; [eexists _, _, _; split; [reflexivity|]; naive_solver|].
  pose proof (validate_all_ok packets payloads (bound_channel s) Hf) as Hv.
  destruct (validate_all packets (bound_channel s)) as [[]|e]; [|eexists _, _, _; split; [reflexivity|]; naive_solver].
  destruct (encode_all_ok packets payloads (bound_channel s) Hf) as (ps & -> & Hps); [by apply Hv|]. rbind.
  rewrite (slices_ok _ _ Hps). rbind. fold frames.
  destruct (chunks_concat (length frames) (Z.to_nat MAX_DATAGRAMS) frames) as [Hc Hcf]; [unfold MAX_DATAGRAMS; lia|done|].
  pose proof (send_chunks_ok waits (chunks (length frames) (Z.to_nat MAX_DATAGRAMS) frames) socket Ha Hcf) as Hs.
  rewrite Hc in Hs. destruct (send_chunks waits _ socket) as [r s']. destruct Hs as (k & Hk & Hw & Hr).
  eexists ps, _, s'. split; [reflexivity|]. split.
  - intros _. exists k. split; [done|]. split; [done|]. rewrite <- Hr. by destruct r as [[[]|e]|].
  - intros Hn. exfalso. apply Hn. split; [done|]. split; [done|]. by apply Hv.
Qed.

(** One packet, with its duplicate: the frame leaves once, or a second time
    when it was asked for and the socket was ready, and never before the first. *)
Lemma duplicate_after_frame s packet payload duplicate waits socket :
  carries packet payload -> sendable s [packet] -> atomic (answers socket) ->
  let frame := channel_frame (bound_channel s) payload in
  exists r socket', send_with_duplicate s packet duplicate waits (UdpOut socket) = Ret (r, UdpOut socket')
    /\ exists n, wire socket' = wire socket ++ replicate n frame /\ (n <= if duplicate then 2 else 1)%nat
         /\ (r = Some (Ok tt) <-> (0 < n)%nat).
Proof.
  intros [Hok Hd] (Ho & Hb & He) Ha frame. apply Forall_cons in He as [He _]. unfold send_with_duplicate. rewrite Ho.
  destruct (Z.eqb_spec (bound_channel s) 0) as [|_]; [done|].
  destruct (encode_channel_data_roundtrip packet (bound_channel s) payload Hok Hd) as [(_ & q & _ & _ & -> & _ & Hq & _)|[Hn _]]; [|by destruct (Hn He)].
  rbind. rewrite Hq. rbind. fold frame.
  assert (forall s0, atomic (answers s0) -> let '(r, s1) := try_send_one frame s0 in
    match r with Ok _ => wire s1 = wire s0 ++ [frame] | Err _ => wire s1 = wire s0 end /\ atomic (answers s1)) as Hone.
  { intros s0 H0. unfold try_send_one. destruct (answers s0) as [|a rest] eqn:Ea; [by rewrite Ea|].
    apply Forall_cons in H0 as [Hh H0]. destruct a as [n| |e]; [destruct (n <=? 0)|done|]; cbn [wire answers take_datagrams];
      by rewrite ?app_nil_r. }
  assert (let '(r, s1) := udp_send waits frame socket in
    match r with Some (Ok _) => wire s1 = wire socket ++ [frame] | _ => wire s1 = wire socket end /\ atomic (answers s1)) as Hsend.
  { revert socket Ha. induction waits as [|w waits IH]; intros socket Ha; cbn [udp_send]; [done|].
    destruct w as [[]|e]; [|done]. specialize (Hone socket Ha). destruct (try_send_one frame socket) as [[n|e] s1]; [done|].
    destruct Hone as [Hw H1]. case_bool_decide; [|done]. specialize (IH s1 H1). rewrite Hw in IH. exact IH. }
  destruct (udp_send waits frame socket) as [r s1]. destruct Hsend as [Hw H1].
  destruct r as [[[]|e]|].
  - specialize (Hone s1 H1). destruct duplicate; [|eexists _, s1; split; [reflexivity|]; exists 1%nat; split; [exact Hw|]; split; [lia|]; split; [lia|done]].
    destruct (try_send_one frame s1) as [[n2|e] s2]; destruct Hone as [Hw2 _]; cbn [snd]; eexists _, s2; (split; [reflexivity|]).
    + exists 2%nat. rewrite Hw2, Hw, <- app_assoc. split; [done|]. split; [lia|]. split; [lia|done].
    + exists 1%nat. rewrite Hw2, Hw. split; [done|]. split; [lia|]. split; [lia|done].
  - eexists _, s1. split; [reflexivity|]. exists 0%nat. rewrite Hw, app_nil_r. split; [done|]. split; [lia|]. split; [done|lia].
  - eexists _, s1. split; [reflexivity|]. exists 0%nat. rewrite Hw, app_nil_r. split; [done|]. split; [lia|]. split; [done|lia].
Qed.

(** ** Opening *)

(** Waiting gives what the first snapshot says that decides, and its own end
    when none does. *)
Lemma wait_on_first {A} (check : CoreSnapshot -> option (result A ApiError)) seen e :
  (exists before s after, seen = before ++ s :: after /\ Forall (fun x => check x = None) before /\ check s = Some (wait_on check seen e))
  \/ (Forall (fun x => check x = None) seen
      /\ wait_on check seen e = Err (match e with TimesOut => WaitTimeout | StateClosed => StateChannelClosed end)).
Proof.
  induction seen as [|s seen IH]; cbn [wait_on]; [by right|].
  destruct (check s) as [r|] eqn:E; [left; by exists [], s, seen|].
  destruct IH as [(before & x & after & -> & Hb & Hx)|[Hf Hr]]; [left|right; by split; [constructor|]].
  exists (s :: before), x, after. split; [done|]. split; [by constructor|done].
Qed.

Lemma connect_transport_first {A} (attempt : TurnEndpoint -> option A) endpoints failures :
  match connect_transport attempt endpoints failures with
  | Ok value => exists before e after, endpoints = before ++ e :: after /\ Forall (fun x => attempt x = None) before /\ attempt e = Some value
  | Err x => x = NoTransport (failures ++ endpoints) /\ Forall (fun x => attempt x = None) endpoints
  end.
Proof.
  revert failures. induction endpoints as [|e endpoints IH]; intros failures; cbn [connect_transport]; [by rewrite app_nil_r|].
  destruct (attempt e) as [value|] eqn:E; [by exists [], e, endpoints|].
  specialize (IH (failures ++ [e])). destruct (connect_transport attempt endpoints (failures ++ [e])) as [value|x].
  - destruct IH as (before & y & after & -> & Hb & Hy). exists (e :: before), y, after. split; [done|]. by split; [constructor|].
  - destruct IH as [-> Hf]. rewrite <- app_assoc. by split; [|constructor].
Qed.

Section Opening.
Context `{Digests}.

(** An allocation that [connect] gives is over the first endpoint that
    connects, with credentials of at most 512 bytes; a snapshot of its driver
    showed that its Allocate was answered with success, before any showed that
    the driver had ended or that the request had failed; and its relay is the
    one of the first later snapshot in the ready state that has one. The
    deadline had not passed. *)
Lemma connected_is_allocated env attempt address oh op mode username password peer w a d :
  connect env attempt address oh op mode username password peer w = Ret (Ok a, d) ->
  zlen username <= 512 /\ zlen password <= 512 /\ overdue w = false
  /\ (exists before e after server, resolve_turn_endpoints address oh op mode = Ok (before ++ e :: after)
        /\ Forall (fun x => attempt x = None) before /\ attempt e = Some server)
  /\ (exists before s after, seen w = before ++ s :: after
        /\ Forall (fun x => sequence (allocate x) <= 0 /\ terminal x = None) before
        /\ 0 < sequence (allocate s) /\ status (allocate s) = 0 /\ stun_code (allocate s) = 0)
  /\ (exists before s after, later w = before ++ s :: after
        /\ Forall (fun x => terminal x = None /\ (sn_state x = STATE_READY -> sn_relay x = None)) before
        /\ terminal s = None /\ sn_state s = STATE_READY /\ sn_relay s = Some (a_relay a))
  /\ ensure_open (a_shared a) = Ok tt /\ receiver_taken a = false /\ deallocated a = false.
Proof.
  unfold connect. destruct (Z.ltb_spec 512 (zlen username)); [done|]. destruct (Z.ltb_spec 512 (zlen password)); [done|].
  destruct (resolve_turn_endpoints address oh op mode) as [endpoints|]; [|done]. set (try := fun e => _).
  pose proof (connect_transport_first try endpoints []) as Ht.
  destruct (connect_transport try endpoints []) as [[server wire]|]; [|done]. destruct Ht as (b & e & af & -> & Hb & He).
  unfold open_allocation. destruct (create _ _ _ _ _ _) as [core|]; [|done]. cbv zeta. intros E.
  apply bind_ret_inv in E as ([core' [[]|]] & _ & E); [|done]. destruct (overdue w) eqn:Hover; [done|].
  unfold wait_for_allocation in E. change (completion_sequence _ METHOD_ALLOCATE) with 0 in E.
  pose proof (wait_on_first (completed METHOD_ALLOCATE 0) (seen w) (seen_end w)) as Hs. fold (wait_for_completion METHOD_ALLOCATE 0 (seen w) (seen_end w)) in Hs.
  destruct (wait_for_completion METHOD_ALLOCATE 0 (seen w) (seen_end w)) as [[]|x]; [|done].
  destruct Hs as [(b1 & s1 & a1 & E1 & Hb1 & Hs1)|[_ Hx]]; [|done].
  pose proof (wait_on_first allocated (later w) (later_end w)) as Hl.
  destruct (wait_on allocated (later w) (later_end w)) as [relay|x]; [|done].
  destruct Hl as [(b2 & s2 & a2 & E2 & Hb2 & Hs2)|[_ Hx]]; [|by destruct (later_end w)].
  injection E as <- _. split; [done|]. split; [done|]. split; [done|]. split; [|split; [|split]].
  - exists b, e, af, server. split; [done|]. unfold try in *. split.
    + eapply Forall_impl; [exact Hb|]. intros x Hx. cbn beta in Hx. destruct (attempt x); [discriminate Hx|done].
    + destruct (attempt e); [|done]. by simplify_eq.
  - exists b1, s1, a1. split; [done|]. change (completed METHOD_ALLOCATE 0) with (fun x : CoreSnapshot =>
      if 0 <? sequence (allocate x) then Some (if (status (allocate x) =? 0) && (stun_code (allocate x) =? 0) then Ok tt
        else Err (RequestRejected METHOD_ALLOCATE (status (allocate x)) (stun_code (allocate x))))
      else match terminal x with Some reason => Some (Err (Ended reason)) | None => None end) in *. cbn beta in *.
    split.
    + eapply Forall_impl; [exact Hb1|]. intros x Hx. cbn beta in Hx. destruct (Z.ltb_spec 0 (sequence (allocate x))); [done|].
      by destruct (terminal x).
    + destruct (Z.ltb_spec 0 (sequence (allocate s1))); [|by destruct (terminal s1)]. split; [done|].
      destruct (_ && _) eqn:Eok; [by bool_to_prop|done].
  - exists b2, s2, a2. split; [done|]. unfold allocated in *. split.
    + eapply Forall_impl; [exact Hb2|]. intros x Hx. cbn beta in Hx. destruct (terminal x); [done|]. split; [done|]. intros Hr.
      rewrite Hr, Z.eqb_refl in Hx. by destruct (sn_relay x).
    + destruct (terminal s2); [done|]. destruct (Z.eqb_spec (sn_state s2) STATE_READY); [|done]. by destruct (sn_relay s2); simplify_eq/=.
  - by cbn.
Qed.

(** Binding is refused or needs the core: a bound channel needs no request. *)
Lemma prepare_bound env a w :
  ensure_open (a_shared a) = Ok tt -> bound_channel (a_shared a) <> 0 -> prepare_channel env a w = Ret (a, Ok tt).
Proof. intros Ho Hb. unfold prepare_channel. rewrite Ho. by destruct (Z.eqb_spec (bound_channel (a_shared a)) 0). Qed.

(** An allocation that was given up stays given up: whatever its driver does
    afterwards, it is never open again, nothing is sent through it, and giving
    it up again changes nothing; a driver that has not ended in time leaves a
    destroyed core. *)
Lemma given_up_for_good env joined a ds :
  core_wf (a_core a) -> shared_ok (a_shared a) -> env_ok env -> Forall driver_step_ok ds -> deallocated a = false ->
  exists a' core' s', deallocate env joined a = Ret a' /\ driver_run (a_core a', a_shared a') ds = Ret (core', s')
    /\ ensure_open s' = Err AllocationClosing
    /\ (forall packets waits out, packets <> [] ->
          send_data_batch s' packets waits out = Ret (packets, Some (Err (NotOpen AllocationClosing)), out))
    /\ (forall packet duplicate waits out,
          send_with_duplicate s' packet duplicate waits out = Ret (Some (Err (NotOpen AllocationClosing)), out))
    /\ (forall env' joined', deallocate env' joined' a' = Ret a')
    /\ (driver_held a = true -> joined = false -> destroyed (a_core a') = true).
Proof.
  intros Hw Hs He Hds Hd. unfold deallocate. rewrite Hd.
  destruct (graceful_shutdown_ok env (a_core a) Hw He) as (c & r & -> & Hwc). rbind. cbn [fst].
  set (c' := if _ && _ then _ else c).
  assert (core_wf c') as Hw' by (unfold c'; destruct (_ && _); [by apply force_destroy_ok|done]).
  destruct (driver_run_evolves c' (request_cleanup (a_shared a)) ds Hw' Hds) as (core' & s' & Hrun & _ & Hev).
  destruct (request_cleanup_evolves (a_shared a) Hs) as (Hs1 & _). destruct (Hev Hs1) as (_ & Hc & _). destruct (Hc eq_refl) as [Hcl _].
  assert (ensure_open s' = Err AllocationClosing) as Ho by (unfold ensure_open; by rewrite Hcl).
  eexists _, core', s'. split; [reflexivity|]. split; [exact Hrun|]. split; [done|]. split; [|split; [|split; [done|]]].
  - intros packets waits out Hne. unfold send_data_batch. destruct (Z.eqb_spec (zlen packets) 0) as [Hz%zlen_zero|_]; [done|]. by rewrite Ho.
  - intros packet duplicate waits out. unfold send_with_duplicate. by rewrite Ho.
  - intros Hh ->. cbn [a_core]. unfold c'. rewrite Hh. cbn [andb negb].
    destruct (force_destroyed c 0 Hwc) as [_ Hx]. exact Hx.
Qed.
End Opening.

(** ** Evaluated calls *)

Definition example_socket : SendSide := mkSend [] [Takes 64; Takes 64] true.
Definition example_packet : PacketBuf := mkPacketBuf (replicate 2304 0) 64 70.

Lemma example_packet_ok : carries example_packet (replicate 6 0).
Proof. split; [|vm_compute; reflexivity]. unfold buf_ok, PACKET_CAPACITY. split; [vm_compute; reflexivity|simpl; lia]. Qed.

Lemma bound_sendable : sendable bound_shared [example_packet; example_packet].
Proof.
  assert (encodable example_packet (bound_channel bound_shared)) as He.
  { unfold encodable, PACKET_CAPACITY. split; [reflexivity|]. vm_compute. split; discriminate. }
  split; [reflexivity|]. split; [discriminate|]. constructor; [exact He|]. constructor; [exact He|]. constructor.
Qed.

Lemma batch_sent_or_refused_witness :
  exists packets' r socket',
    send_data_batch bound_shared [example_packet; example_packet] (fun _ => [Ok tt]) (UdpOut example_socket)
      = Ret (packets', r, UdpOut socket')
    /\ wire socket' = [channel_frame 0x4000 (replicate 6 0); channel_frame 0x4000 (replicate 6 0)] /\ r = Some (Ok tt).
Proof.
  destruct (batch_sent_or_refused bound_shared [example_packet; example_packet] [replicate 6 0; replicate 6 0] (fun _ => [Ok tt]) example_socket)
    as (ps & r & s & E & Hs & _).
  - constructor; [exact example_packet_ok|]. constructor; [exact example_packet_ok|]. constructor.
  - discriminate.
  - repeat constructor.
  - exists ps, r, s. split; [exact E|]. clear Hs. vm_compute in E. injection E as <- <- <-. split; reflexivity.
Defined.

(** A driver whose snapshots show an Allocate in flight, answered, and ready. *)
Definition waiting_snapshot : CoreSnapshot := with_state default_snapshot STATE_ALLOCATING.
Definition answered_snapshot : CoreSnapshot :=
  mkSnapshot STATE_ALLOCATING None None (mkCompletion 1 0 0) default_completion default_completion default_completion None.
Definition ready_snapshot : CoreSnapshot := with_relay (with_state answered_snapshot STATE_READY) (V4 [203; 0; 113; 9] 50000).
Definition example_wait : ConnectWait :=
  mkConnectWait [waiting_snapshot; answered_snapshot] StateClosed [answered_snapshot; ready_snapshot] TimesOut false.

Lemma connected_is_allocated_witness :
  match connect (example_env 1 1) (fun _ => Some (V4 [198; 51; 100; 4] 3478)) (ascii "turn:198.51.100.4:3478") None None ModeUdp [117] [112]
    example_peer example_wait with
  | Ret (Ok a, _) => a_relay a = V4 [203; 0; 113; 9] 50000 /\ ensure_open (a_shared a) = Ok tt
  | _ => False
  end.
Proof.
  pose proof (connected_is_allocated (example_env 1 1) (fun _ => Some (V4 [198; 51; 100; 4] 3478)) (ascii "turn:198.51.100.4:3478") None None
    ModeUdp [117] [112] example_peer example_wait) as H.
  destruct (connect _ _ _ _ _ _ _ _ _ _) as [[[a|] d]|] eqn:E; try (vm_compute in E; discriminate E).
  destruct (H a d eq_refl) as (_ & _ & _ & _ & _ & _ & Ho & _). split; [|exact Ho].
  vm_compute in E. injection E as <- _. reflexivity.
Defined.

Definition example_allocation : Allocation := mkAllocation (after_calls 3) bound_shared (V4 [203; 0; 113; 9] 50000) true true false.

Lemma given_up_for_good_witness :
  exists a' core' s', deallocate (example_env 20 6) false example_allocation = Ret a'
    /\ driver_run (a_core a', a_shared a') [Pumped (example_env 21 7) always_sends; OwnerReceives] = Ret (core', s')
    /\ ensure_open s' = Err AllocationClosing /\ destroyed (a_core a') = true.
Proof.
  destruct (given_up_for_good (example_env 20 6) false example_allocation [Pumped (example_env 21 7) always_sends; OwnerReceives]
    (after_calls_wf 3)) as (a' & core' & s' & E & Hrun & Ho & _ & _ & _ & Hd).
  - constructor; simpl; done.
  - intros o. reflexivity.
  - apply List.Forall_cons; [intros o; reflexivity|]. apply List.Forall_cons; [exact I|]. apply List.Forall_nil.
  - reflexivity.
  - exists a', core', s'. split; [exact E|]. split; [exact Hrun|]. split; [exact Ho|]. apply Hd; reflexivity.
Defined.
