(* ===== verification/Web.v ===== *)
(** * Web: what the HTTP clients of the engine are written with

    UTF-8 and the escaping of queries and forms, byte for byte ([query_escape] of
    [auth.rs], [encode_form] of [captcha.rs]); JSON values and header maps; and
    the programs of the clients: a tree of calls to the outside, each with a
    continuation for every answer. The crates behind the calls are classes:
    [serde_json]'s values are seen through [Json], [http]'s check of a header
    value through [Headers]. *)

From Stdlib Require Import Strings.String.
From S2P Require Import Prelude Bytes Text.

(** ** UTF-8 *)

(** The bytes of a character. *)
Definition utf8_char (c : Z) : bytes :=
  if c <? 0x80 then [c]
  else if c <? 0x800 then [0xc0 + c / 64; 0x80 + c mod 64]
  else if c <? 0x10000 then [0xe0 + c / 4096; 0x80 + c / 64 mod 64; 0x80 + c mod 64]
  else [0xf0 + c / 262144; 0x80 + c / 4096 mod 64; 0x80 + c / 64 mod 64; 0x80 + c mod 64].

Definition utf8 (s : text) : bytes := concat (map utf8_char s).

(** A [char]: a code point that is no surrogate. *)
Definition is_char (c : Z) : Prop := 0 <= c <= 0x10ffff /\ ~ (0xd800 <= c <= 0xdfff).

(** [String::from_utf8_lossy]: each maximal part of a broken sequence is one
    replacement character. *)
Definition between (lo hi b : Z) : bool := (lo <=? b) && (b <=? hi).
Definition byte_at (b : bytes) (i : nat) : Z := nth i b 0.

(** The character that bytes begin with and how many it takes. *)
Definition next_char (b : bytes) : Z * nat :=
  let b0 := byte_at b 0 in
  let b1 := byte_at b 1 in
  let b2 := byte_at b 2 in
  let b3 := byte_at b 3 in
  let tail := between 0x80 0xbf in
  if b0 <? 0x80 then (b0, 1%nat)
  else if between 0xc2 0xdf b0 then
    if tail b1 then ((b0 - 0xc0) * 64 + (b1 - 0x80), 2%nat) else (0xfffd, 1%nat)
  else if between 0xe0 0xef b0 then
    if negb (if b0 =? 0xe0 then between 0xa0 0xbf b1 else if b0 =? 0xed then between 0x80 0x9f b1 else tail b1) then (0xfffd, 1%nat)
    else if tail b2 then ((b0 - 0xe0) * 4096 + (b1 - 0x80) * 64 + (b2 - 0x80), 3%nat) else (0xfffd, 2%nat)
  else if between 0xf0 0xf4 b0 then
    if negb (if b0 =? 0xf0 then between 0x90 0xbf b1 else if b0 =? 0xf4 then between 0x80 0x8f b1 else tail b1) then (0xfffd, 1%nat)
    else if negb (tail b2) then (0xfffd, 2%nat)
    else if tail b3 then ((b0 - 0xf0) * 262144 + (b1 - 0x80) * 4096 + (b2 - 0x80) * 64 + (b3 - 0x80), 4%nat)
    else (0xfffd, 3%nat)
  else (0xfffd, 1%nat).

Fixpoint lossy (turns : nat) (b : bytes) : text :=
  match turns, b with
  | S turns, _ :: _ => let '(c, n) := next_char b in c :: lossy turns (drop n b)
  | _, _ => []
  end.
Definition from_utf8_lossy (b : bytes) : text := lossy (length b) b.

Definition eq_ignore_ascii_case (a b : text) : bool := bytes_eqb (to_ascii_lowercase a) (to_ascii_lowercase b).

(** ** Escaping *)

Definition HEX : bytes := ascii "0123456789ABCDEF".

(** The characters that are left as they are. *)
Definition unreserved (b : Z) : bool :=
  between 0x61 0x7a b || between 0x41 0x5a b || between 0x30 0x39 b
  || (b =? 0x2d) || (b =? 0x5f) || (b =? 0x2e) || (b =? 0x7e).

Definition escape_byte (b : Z) : text :=
  if b =? 0x20 then [0x2b]
  else if unreserved b then [b]
  else [0x25; nth (Z.to_nat (b / 16)) HEX 0x30; nth (Z.to_nat (b mod 16)) HEX 0x30].

(** [query_escape] and [encode_component] *)
Definition query_escape (value : text) : text := concat (map escape_byte (utf8 value)).

(** [encode_form] *)
Definition encode_pair (kv : text * text) : text := query_escape (fst kv) ++ ascii "=" ++ query_escape (snd kv).
Fixpoint encode_form (values : list (text * text)) : text :=
  match values with
  | [] => []
  | [kv] => encode_pair kv
  | kv :: values => encode_pair kv ++ ascii "&" ++ encode_form values
  end.

(** *** Reading it back *)

Definition hex_digit (c : Z) : option Z :=
  if between 0x30 0x39 c then Some (c - 0x30)
  else if between 0x41 0x46 c then Some (c - 0x41 + 10)
  else if between 0x61 0x66 c then Some (c - 0x61 + 10) else None.

(** [application/x-www-form-urlencoded]: a plus is a space, and a percent sign
    announces two hexadecimal digits. *)
Fixpoint unescape (s : text) : option bytes :=
  match s with
  | [] => Some []
  | c :: t =>
      if c =? 0x2b then match unescape t with Some b => Some (0x20 :: b) | None => None end
      else if c =? 0x25 then
        match t with
        | h :: l :: t =>
            match hex_digit h, hex_digit l, unescape t with
            | Some h, Some l, Some b => Some (16 * h + l :: b)
            | _, _, _ => None
            end
        | _ => None
        end
      else match unescape t with Some b => Some (c :: b) | None => None end
  end.

Definition decode_pair (s : text) : option (bytes * bytes) :=
  match split_once 0x3d s with
  | Some (k, v) => match unescape k, unescape v with Some k, Some v => Some (k, v) | _, _ => None end
  | None => None
  end.

Fixpoint all_some {A} (l : list (option A)) : option (list A) :=
  match l with
  | [] => Some []
  | Some x :: l => match all_some l with Some l => Some (x :: l) | None => None end
  | None :: _ => None
  end.
Definition decode_form (s : text) : option (list (bytes * bytes)) := all_some (map decode_pair (split 0x26 s)).

Lemma utf8_bytes s : Forall is_char s -> is_bytes (utf8 s).
Proof.
  intros Hs. unfold utf8. induction Hs as [|c s [Hc _] _ IH]; cbn [map concat]; [constructor|].
  apply Forall_app. split; [|done]. unfold utf8_char, is_byte.
  destruct (Z.ltb_spec c 0x80); [repeat constructor; lia|].
  destruct (Z.ltb_spec c 0x800); [repeat constructor; Z.to_euclidean_division_equations; lia|].
  destruct (Z.ltb_spec c 0x10000); repeat constructor; Z.to_euclidean_division_equations; lia.
Qed.

(** A check of a property of all bytes by computing it. *)
Lemma all_bytes (P : Z -> bool) : forallb (fun n => P (Z.of_nat n)) (seq 0 256) = true -> forall b, is_byte b -> P b = true.
Proof.
  intros Hall b [Hlo Hhi]. rewrite forallb_forall in Hall. specialize (Hall (Z.to_nat b)). rewrite Z2Nat.id in Hall by lia.
  apply Hall, in_seq. lia.
Qed.

Definition separator (c : Z) : bool := (c =? 0x26) || (c =? 0x3d) || (c =? 0x23) || (c =? 0x3f) || (c =? 0x2f) || (c =? 0x20).

(** Escaped text holds printable ASCII and none of the characters that separate
    the parts of a query or a form. *)
Definition harmless (c : Z) : bool := unreserved c || (c =? 0x2b) || (c =? 0x25).

Lemma escape_byte_harmless b : is_byte b -> forallb harmless (escape_byte b) = true.
Proof. intros Hb. apply (all_bytes (fun b => forallb harmless (escape_byte b))); [vm_compute; reflexivity|done]. Qed.

Lemma harmless_no_separator c : harmless c = true -> separator c = false.
Proof. unfold harmless, unreserved, separator, between. intros Hc. repeat (apply orb_true_iff in Hc as [Hc|Hc]); bool_to_prop; lia. Qed.

Lemma query_escape_harmless s : Forall is_char s -> Forall (fun c => harmless c = true) (query_escape s).
Proof.
  intros Hs%utf8_bytes. unfold query_escape. induction Hs as [|b l Hb _ IH]; cbn [map concat]; [constructor|].
  apply Forall_app. split; [|done]. apply Forall_forall. intros c Hc.
  pose proof (escape_byte_harmless b Hb) as Hf. rewrite forallb_forall in Hf. apply Hf. by apply list_elem_of_In.
Qed.

Lemma unescape_escape b rest : is_byte b -> unescape (escape_byte b ++ rest) = match unescape rest with Some l => Some (b :: l) | None => None end.
Proof.
  intros Hb. assert (match escape_byte b with
    | [c] => (c = 0x2b /\ b = 0x20) \/ (c <> 0x2b /\ c <> 0x25 /\ c = b)
    | [p; h; l] => p = 0x25 /\ exists x y, hex_digit h = Some x /\ hex_digit l = Some y /\ 16 * x + y = b
    | _ => False
    end) as He.
  { pose proof (all_bytes (fun b => match escape_byte b with
      | [c] => ((c =? 0x2b) && (b =? 0x20)) || (negb (c =? 0x2b) && negb (c =? 0x25) && (c =? b))
      | [p; h; l] => (p =? 0x25) && match hex_digit h, hex_digit l with Some x, Some y => 16 * x + y =? b | _, _ => false end
      | _ => false end) ltac:(vm_compute; reflexivity) b Hb) as Hc.
    cbn beta in Hc. destruct (escape_byte b) as [|p [|h [|l [|]]]]; try done.
    - apply orb_true_iff in Hc as [Hc|Hc]; bool_to_prop; [by left|right; lia].
    - apply andb_true_iff in Hc as [Hp Hc]. destruct (hex_digit h) as [x|]; [|done]. destruct (hex_digit l) as [y|]; [|done].
      bool_to_prop. split; [done|]. by exists x, y. }
  destruct (escape_byte b) as [|p [|h [|l [|]]]]; try done.
  - cbn [app unescape]. destruct He as [[-> ->]|(H1 & H2 & ->)]; [done|].
    destruct (Z.eqb_spec b 0x2b); [done|]. destruct (Z.eqb_spec b 0x25); done.
  - destruct He as (-> & x & y & Hx & Hy & <-). cbn [app unescape]. change (0x25 =? 0x2b) with false. change (0x25 =? 0x25) with true.
    cbn match. by rewrite Hx, Hy.
Qed.

Lemma query_escape_roundtrip s : Forall is_char s -> unescape (query_escape s) = Some (utf8 s).
Proof.
  intros Hs%utf8_bytes. unfold query_escape. induction Hs as [|b l Hb _ IH]; cbn [map concat]; [done|].
  rewrite unescape_escape by done. by rewrite IH.
Qed.

Lemma split_once_first c a b : Forall (fun x => x <> c) a -> split_once c (a ++ c :: b) = Some (a, b).
Proof.
  intros Ha. induction Ha as [|x a Hx _ IH]; cbn [app split_once]; [by rewrite Z.eqb_refl|].
  destruct (Z.eqb_spec x c); [done|]. by rewrite IH.
Qed.

Lemma split_none c a : Forall (fun x => x <> c) a -> split c a = [a].
Proof.
  intros Ha. induction Ha as [|x a Hx _ IH]; cbn [split]; [done|]. rewrite IH. by destruct (Z.eqb_spec x c).
Qed.

Lemma split_first c a b : Forall (fun x => x <> c) a -> split c (a ++ c :: b) = a :: split c b.
Proof.
  intros Ha. induction Ha as [|x a Hx _ IH]; cbn [app split].
  - rewrite Z.eqb_refl. destruct (split c b) eqn:E; [|done]. destruct b; [done|]. cbn [split] in E.
    destruct (split c b); [done|]. destruct (_ =? _); done.
  - rewrite IH. by destruct (Z.eqb_spec x c).
Qed.

Lemma escaped_not c s : Forall is_char s -> separator c = true -> Forall (fun x => x <> c) (query_escape s).
Proof.
  intros Hs Hc. eapply Forall_impl; [by apply query_escape_harmless|]. intros x Hx%harmless_no_separator ->. congruence.
Qed.

Definition pair_ok (kv : text * text) : Prop := Forall is_char (fst kv) /\ Forall is_char (snd kv).

Lemma decode_pair_ok kv : pair_ok kv -> decode_pair (encode_pair kv) = Some (utf8 (fst kv), utf8 (snd kv)).
Proof.
  intros [Hk Hv]. unfold decode_pair, encode_pair. change (ascii "=" ++ ?x) with (0x3d :: x).
  rewrite split_once_first by by apply escaped_not. by rewrite !query_escape_roundtrip.
Qed.

(** A form that was encoded is read back pair by pair, whatever the keys and
    the values hold: no value can end its field, add another or change one. *)
Lemma form_roundtrip values :
  values <> [] -> Forall pair_ok values ->
  decode_form (encode_form values) = Some (map (fun kv => (utf8 (fst kv), utf8 (snd kv))) values).
Proof.
  intros Hne Hv. unfold decode_form.
  assert (forall kv, pair_ok kv -> Forall (fun x => x <> 0x26) (encode_pair kv)) as Hsep.
  { intros kv [Hk Hw]. unfold encode_pair. apply Forall_app. split; [by apply escaped_not|].
    apply Forall_app. split; [by repeat constructor|by apply escaped_not]. }
  induction Hv as [|kv values Hkv Hv IH]; [done|]. destruct values as [|kv' values].
  - cbn [encode_form]. rewrite split_none by by apply Hsep. cbn [map all_some]. by rewrite decode_pair_ok.
  - specialize (IH ltac:(done)). remember (kv' :: values) as rest eqn:E.
    assert (encode_form (kv :: rest) = encode_pair kv ++ 0x26 :: encode_form rest) as -> by by rewrite E.
    rewrite split_first by by apply Hsep. cbn [map all_some]. rewrite decode_pair_ok by done. by rewrite IH.
Qed.

Lemma form_roundtrip_witness :
  decode_form (encode_form [(ascii "answer", ascii "a&b=c d%"); ([0x44f], [])])
    = Some [(ascii "answer", ascii "a&b=c d%"); ([0xd1; 0x8f], [])].
Proof.
  rewrite (form_roundtrip [(ascii "answer", ascii "a&b=c d%"); ([0x44f], [])]); [reflexivity|discriminate|].
  repeat (apply List.Forall_cons || apply List.Forall_nil || split); unfold is_char; cbn; lia.
Defined.
