(* ===== verification/Profiles.v ===== *)
(** * Profiles: the browser a client pretends to be

    Models [profiles.rs]: the weighted pools of browser versions and operating
    systems, the draw from a pool and the profile it gives. *)

From Stdlib Require Import Strings.String.
From S2P Require Import Prelude Bytes Text.

Inductive Browser : Type := Chrome | Firefox | Safari | Edge | Opera.
#[export] Instance browser_eq_dec : EqDecision Browser.
Proof. solve_decision. Defined.

(** A variant of [Impersonate]: a browser with its version ([ChromeV148] is
    [Chrome, 148]; Safari's 18.5, 26 and 26.3 are 185, 260 and 263). *)
Record Impersonate : Type := mkImpersonate { browser : Browser; version : Z }.
Inductive ImpersonateOS : Type := Android | Windows | MacOS | Linux | IOS.
#[export] Instance os_eq_dec : EqDecision ImpersonateOS.
Proof. solve_decision. Defined.

Record Profile : Type := mkProfile {
  impersonate : Impersonate;
  os : ImpersonateOS;
  user_agent : text;
  sec_ch_ua : text;
  sec_ch_ua_mobile : text;
  sec_ch_ua_platform : text;
}.

Record WeightedProfile : Type := mkWeighted { wp_impersonate : Impersonate; wp_os : ImpersonateOS; weight : Z }.

Definition total_weight (pool : list WeightedProfile) : Z := foldr (fun e n => weight e + n) 0 pool.

(** The loop of [pick_weighted] for a roll, and the last entry after it. *)
Fixpoint pick_loop (pool : list WeightedProfile) (roll : Z) : option WeightedProfile :=
  match pool with
  | [] => None
  | entry :: pool => if roll <? weight entry then Some entry else pick_loop pool (roll - weight entry)
  end.
Definition pick_weighted (pool : list WeightedProfile) (roll : Z) : res (Impersonate * ImpersonateOS) :=
  match pick_loop pool roll with
  | Some e => Ret (wp_impersonate e, wp_os e)
  | None => match last pool with Some e => Ret (wp_impersonate e, wp_os e) | None => Panic end
  end.

(** [weighted_browser_pool], the products in [u32]. *)
Definition weighted_browser_pool (versions : list (Impersonate * Z)) (systems : list (ImpersonateOS * Z)) : list WeightedProfile :=
  flat_map (fun v => map (fun s => mkWeighted (fst v) (fst s) (wrapping_mul 32 (snd v) (snd s))) systems) versions.

Definition versions_of (b : Browser) (l : list (Z * Z)) : list (Impersonate * Z) := map (fun x => (mkImpersonate b (fst x), snd x)) l.

Definition chrome_pool : list WeightedProfile :=
  weighted_browser_pool (versions_of Chrome [(148, 35); (147, 25); (146, 18); (145, 12); (144, 10)])
    [(Android, 55); (Windows, 20); (MacOS, 10); (Linux, 10); (IOS, 5)].
Definition firefox_pool : list WeightedProfile :=
  weighted_browser_pool (versions_of Firefox [(148, 40); (147, 28); (146, 20); (140, 12)])
    [(Android, 55); (Windows, 20); (MacOS, 10); (Linux, 10); (IOS, 5)].
Definition safari_pool : list WeightedProfile :=
  weighted_browser_pool (versions_of Safari [(263, 40); (260, 35); (185, 25)]) [(IOS, 70); (MacOS, 30)].
Definition edge_pool : list WeightedProfile :=
  weighted_browser_pool (versions_of Edge [(148, 35); (147, 25); (146, 18); (145, 12); (144, 10)])
    [(Android, 60); (Windows, 20); (MacOS, 8); (Linux, 7); (IOS, 5)].
Definition opera_pool : list WeightedProfile :=
  weighted_browser_pool (versions_of Opera [(131, 30); (130, 24); (129, 18); (128, 13); (127, 9); (126, 6)])
    [(Android, 60); (Windows, 20); (MacOS, 8); (Linux, 7); (IOS, 5)].

Definition pool_of (fingerprint : text) : list WeightedProfile :=
  if bytes_eqb fingerprint (ascii "safari") then safari_pool
  else if bytes_eqb fingerprint (ascii "firefox") then firefox_pool
  else if bytes_eqb fingerprint (ascii "edge") then edge_pool
  else if bytes_eqb fingerprint (ascii "opera") then opera_pool
  else chrome_pool.

(** [random_profile], for a roll below the pool's total weight. *)
Definition random_profile (fingerprint : text) (roll : Z) : res Profile :=
  r ← pick_weighted (pool_of fingerprint) roll;
  Ret (mkProfile (fst r) (snd r) [] [] [] []).

(** ** The draw is the one the weights say *)

(** The rolls that pick the entry at an index. *)
Definition rolls_before (pool : list WeightedProfile) (i : nat) : Z := total_weight (take i pool).

Lemma total_weight_nonneg pool : Forall (fun e => 0 <= weight e) pool -> 0 <= total_weight pool.
Proof. unfold total_weight. induction 1; cbn [foldr]; lia. Qed.

Lemma pick_loop_exact pool i e roll :
  Forall (fun e => 0 <= weight e) pool -> pool !! i = Some e ->
  rolls_before pool i <= roll < rolls_before pool i + weight e -> pick_loop pool roll = Some e.
Proof.
  intros Hp. revert i roll. unfold rolls_before. induction Hp as [|x pool Hx Hp IH]; intros i roll Hi Hr; [done|].
  cbn [pick_loop]. destruct i as [|i]; cbn in Hi.
  - injection Hi as ->. cbn in Hr. by destruct (Z.ltb_spec roll (weight e)); [|lia].
  - cbn [take total_weight foldr] in Hr. change (foldr _ 0 (take i pool)) with (total_weight (take i pool)) in Hr.
    assert (0 <= total_weight (take i pool)).
    { by apply total_weight_nonneg, Forall_take. }
    destruct (Z.ltb_spec roll (weight x)); [lia|]. apply (IH i); [done|lia].
Qed.

Lemma total_weight_lookup pool i e :
  Forall (fun e => 0 <= weight e) pool -> pool !! i = Some e -> total_weight (take i pool) + weight e <= total_weight pool.
Proof.
  intros Hp. revert i. induction Hp as [|x pool Hx Hp IH]; intros [|i] Hi; cbn in Hi; try done.
  - injection Hi as ->. pose proof (total_weight_nonneg pool Hp). unfold total_weight in *. cbn [take foldr]. lia.
  - specialize (IH i Hi). unfold total_weight in *. cbn [take foldr]. lia.
Qed.

(** Every roll below a pool's total weight picks exactly one entry, an entry
    of weight [w] is picked by [w] rolls, and none of the products of weights
    wraps: every browser and system of the pools is drawn with its share. *)
Lemma weighted_exactly fingerprint i e roll :
  pool_of fingerprint !! i = Some e ->
  rolls_before (pool_of fingerprint) i <= roll < rolls_before (pool_of fingerprint) i + weight e ->
  0 < weight e /\ roll < total_weight (pool_of fingerprint)
  /\ exists p, random_profile fingerprint roll = Ret p /\ impersonate p = wp_impersonate e /\ os p = wp_os e.
Proof.
  intros Hi Hr.
  assert (Forall (fun e => 0 < weight e) (pool_of fingerprint)) as Hpos.
  { unfold pool_of. repeat case_match; apply Forall_forall; intros x Hx; apply Z.ltb_lt;
      revert x Hx; apply Forall_forall; vm_compute; repeat constructor. }
  assert (Forall (fun e => 0 <= weight e) (pool_of fingerprint)) as Hnn by (eapply Forall_impl; [exact Hpos|]; cbn; lia).
  split; [by eapply Forall_lookup_1 in Hpos|]. split.
  - pose proof (total_weight_lookup _ i e Hnn Hi). unfold rolls_before in Hr. lia.
  - unfold random_profile, pick_weighted. rewrite (pick_loop_exact _ i e roll Hnn Hi Hr). rbind. by eexists.
Qed.

Lemma weighted_exactly_witness :
  exists p, random_profile (ascii "safari") 6999 = Ret p /\ impersonate p = mkImpersonate Safari 260 /\ os p = MacOS.
Proof.
  destruct (weighted_exactly (ascii "safari") 3 (mkWeighted (mkImpersonate Safari 260) MacOS 1050) 6999) as (_ & _ & H).
  - reflexivity.
  - vm_compute. split; [discriminate|reflexivity].
  - exact H.
Defined.
