(* ===== verification/WebClient.v ===== *)
(** * WebClient: programs that talk to web services

    JSON values and header maps as the clients of [auth.rs], [captcha.rs] and
    [vk_js_calls.rs] use them, and a client's code as a tree of calls to the
    outside ([prog]): [run] answers them one after another and keeps the requests
    that were sent, [wp] is the reasoning principle for all answers at once, with
    a budget of requests. *)

From Stdlib Require Import Strings.String.
From S2P Require Import Prelude Bytes Text Web.

(** ** JSON *)

(** A number is seen as an [i64], a [u64], or as a float cast to [i64]. *)
Record Number : Type := mkNumber { as_i64 : option Z; as_u64 : option Z; as_f64_i64 : option Z }.

Inductive JsonView (V : Type) : Type :=
| JNull | JBool (b : bool) | JNumber (n : Number) | JString (s : text) | JArray (l : list V) | JObject (get : text -> option V).
Arguments JNull {V}. Arguments JBool {V} _. Arguments JNumber {V} _. Arguments JString {V} _. Arguments JArray {V} _. Arguments JObject {V} _.

(** [serde_json]: its values, its parser and its printer. *)
Class Json : Type := {
  value : Type;
  view : value -> JsonView value;
  parse_json : bytes -> option value;
  show_json : value -> text;
}.

(** The text of an object that [json!] writes down, and of a form that
    [form_urlencoded] puts together. *)
Inductive Literal : Type := LBool (b : bool) | LInt (z : Z) | LText (t : text).
Class Serializers : Type := {
  object_text : list (text * Literal) -> text;
  form_urlencoded : list (text * text) -> text;
}.

(** [http]: which texts a header may hold. *)
Class Headers : Type := { header_value_ok : text -> bool; header_name_ok : text -> bool }.

Section JsonValues.
Context `{Json}.

Definition jget (v : value) (key : text) : option value := match view v with JObject get => get key | _ => None end.
Definition as_str (v : value) : option text := match view v with JString s => Some s | _ => None end.
Definition as_array (v : value) : option (list value) := match view v with JArray l => Some l | _ => None end.
Definition is_object (v : value) : bool := match view v with JObject _ => true | _ => false end.
Definition bind_opt {A B} (x : option A) (f : A -> option B) : option B := match x with Some a => f a | None => None end.
End JsonValues.

(** ** Header maps *)

Definition HeaderMap : Type := list (text * text).

(** [HeaderMap::insert]: a name has one value. *)
Fixpoint insert_static (m : HeaderMap) (name content : text) : HeaderMap :=
  match m with
  | [] => [(name, content)]
  | (n, v) :: m => if bytes_eqb n name then (n, content) :: m else (n, v) :: insert_static m name content
  end.

(** With [HeaderValue::from_str], which may refuse the value. *)
Definition insert_text `{Headers} (m : HeaderMap) (name content : text) : option HeaderMap :=
  if header_value_ok content then Some (insert_static m name content) else None.

(** ** Programs *)

Inductive Method : Type := GET | POST.
Record Request : Type := mkRequest { method : Method; url : text; headers : HeaderMap; body : option text }.
Record Response : Type := mkResponse { status : Z; content : bytes }.
Definition is_success (r : Response) : bool := (200 <=? status r) && (status r <? 300).

Record SavedProfile : Type := mkSaved { sp_user_agent : text; device_json : text; browser_fp : text }.

(** How waiting for the WebView ends. *)
Inductive WebViewAnswer : Type := ViewCancelled | ViewTimedOut | ViewClosed | ViewResult (result : text).

(** The calls to the outside: a request, which may fail with the text of an
    error; a pause of so many milliseconds, and whether it was cancelled; what is
    drawn at random; a new HTTP client, which may fail with an error; whether the
    time of a [timeout] is over; the nonce at which a long computation sees that
    it was cancelled; the host's WebView; the clock and the shared memory of [VkAuth] and of the
    credential broker. *)
Inductive Call : Type -> Type :=
| Send (r : Request) : Call (result Response text)
| Pause (lo hi : Z) : Call bool
| NewClient : Call (option text)
| TimeOver : Call bool
| NewUuid : Call text
| NewName : Call text
| RandomHex : Call text
| NewCursor (index count : Z) : Call text
| CancelSeen : Call (option Z)
| ShowWebView (mode uri token : text) (timeout : Z) : Call WebViewAnswer
| LoadProfile : Call (option SavedProfile)
| UnixSeconds : Call Z
| LoadLockout : Call Z
| StoreLockout (until : Z) : Call unit
| IssueOnce (fingerprint : bytes) : Call bool.

Inductive prog (A : Type) : Type :=
| Done (a : A)
| Do {T : Type} (c : Call T) (k : T -> prog A).
Arguments Done {A} _. Arguments Do {A T} _ _.

Fixpoint bind {A B} (p : prog A) (f : A -> prog B) : prog B :=
  match p with Done a => f a | Do c k => Do c (fun t => bind (k t) f) end.
Definition call {T} (c : Call T) : prog T := Do c Done.

Declare Scope prog_scope.
Delimit Scope prog_scope with prog.
Notation "x <- p ;; q" := (bind p (fun x => q)) (at level 100, p at next level, right associativity) : prog_scope.
(** [?]: an error ends the program with it. *)
Notation "x <-? p ;; q" := (bind p (fun r => match r with Ok x => q | Err e => Done (Err e) end))
  (at level 100, p at next level, right associativity) : prog_scope.
Open Scope prog_scope.

(** A pure step that may fail. *)
Definition ensure {A E} (x : option A) (e : E) : prog (result A E) := Done (match x with Some a => Ok a | None => Err e end).

(** [tokio::time::timeout]: the program is dropped at a call during which the time
    runs out; a request may have been sent by then. *)
Fixpoint within {A} (p : prog A) : prog (option A) :=
  match p with
  | Done a => Done (Some a)
  | Do c k => Do c (fun t => Do TimeOver (fun over : bool => if over then Done None else within (k t)))
  end.

(** What the outside may answer: the clock is after 1970. *)
Definition answer_ok {T} (c : Call T) : T -> Prop :=
  match c in Call T return T -> Prop with UnixSeconds => fun z => 0 <= z | _ => fun _ => True end.

Definition sent_by {T} (c : Call T) : option Request := match c with Send r => Some r | _ => None end.

(** An oracle answers the calls by their number. *)
Definition Oracle : Type := nat -> forall T, Call T -> T.
Definition oracle_ok (o : Oracle) : Prop := forall n T (c : Call T), answer_ok c (o n T c).

Fixpoint run {A} (o : Oracle) (n : nat) (p : prog A) : A * list Request :=
  match p with
  | Done a => (a, [])
  | Do c k =>
      let '(a, sent) := run o (S n) (k (o n _ c)) in
      (a, match sent_by c with Some r => r :: sent | None => sent end)
  end.

(** ** Reasoning about all answers *)

(** Whatever is answered, every request satisfies [P], at most [n] are sent, and
    the result satisfies [Q] with what is left of the budget. *)
Fixpoint wp {A} (P : Request -> Prop) (Q : nat -> A -> Prop) (n : nat) (p : prog A) : Prop :=
  match p with
  | Done a => Q n a
  | Do c k =>
      match sent_by c with
      | Some r => P r /\ match n with O => False | S n => forall t, answer_ok c t -> wp P Q n (k t) end
      | None => forall t, answer_ok c t -> wp P Q n (k t)
      end
  end.

Lemma wp_sound {A} P Q n (p : prog A) o m :
  oracle_ok o -> wp P Q n p ->
  let '(a, sent) := run o m p in
  Forall P sent /\ (length sent <= n)%nat /\ Q (n - length sent)%nat a.
Proof.
  intros Ho. revert n m. induction p as [a|T c k IH]; intros n m Hp; cbn [run wp] in *.
  { split; [constructor|]. split; [cbn; lia|]. by rewrite Nat.sub_0_r. }
  destruct (sent_by c) as [r|].
  - destruct Hp as [Hr Hp]. destruct n as [|n]; [done|].
    specialize (IH (o m T c) n (S m) (Hp _ (Ho m T c))). destruct (run o (S m) (k (o m T c))) as [a sent].
    destruct IH as (Hf & Hl & Hq). split; [by constructor|]. split; [cbn; lia|done].
  - specialize (IH (o m T c) n (S m) (Hp _ (Ho m T c))). by destruct (run o (S m) (k (o m T c))) as [a sent].
Qed.

(** What is done after a part of a program, whatever it is. *)
Lemma run_bind {A} o n (p : prog A) :
  exists m, forall B (f : A -> prog B),
    run o n (bind p f) = let '(a, sent) := run o n p in let '(b, rest) := run o m (f a) in (b, sent ++ rest).
Proof.
  revert n. induction p as [a|T c k IH]; intros n; [exists n; intros B f; cbn; by destruct (run o n (f a))|].
  destruct (IH (o n T c) (S n)) as [m Hm]. exists m. intros B f. cbn [bind run]. rewrite Hm.
  destruct (run o (S n) (k _)) as [a sent]. destruct (run o m (f a)) as [b rest]. by destruct (sent_by c).
Qed.

Lemma wp_bind {A B} P (Q : nat -> B -> Prop) n (p : prog A) (f : A -> prog B) :
  wp P (fun m a => wp P Q m (f a)) n p -> wp P Q n (bind p f).
Proof.
  revert n. induction p as [a|T c k IH]; intros n Hp; cbn [bind wp] in *; [done|].
  destruct (sent_by c) as [r|]; [|by auto]. destruct Hp as [Hr Hp]. split; [done|]. destruct n; [done|]. by auto.
Qed.

Lemma wp_mono {A} (P P' : Request -> Prop) (Q Q' : nat -> A -> Prop) n p :
  (forall r, P r -> P' r) -> (forall m a, Q m a -> Q' m a) -> wp P Q n p -> wp P' Q' n p.
Proof.
  intros HP HQ. revert n. induction p as [a|T c k IH]; intros n Hp; cbn [wp] in *; [by auto|].
  destruct (sent_by c) as [r|]; [|by auto]. destruct Hp as [Hr Hp]. split; [by auto|]. destruct n; [done|]. by auto.
Qed.

(** More budget does no harm. *)
Lemma wp_more {A} P (Q : nat -> A -> Prop) n k p :
  wp P (fun m a => Q (m + k)%nat a) n p -> wp P Q (n + k) p.
Proof.
  revert n. induction p as [a|T c f IH]; intros n Hp; cbn [wp] in *; [done|].
  destruct (sent_by c) as [r|]; [|by auto]. destruct Hp as [Hr Hp]. split; [done|]. destruct n as [|n]; [done|]. cbn [plus]. by auto.
Qed.

(** A program that needs [n] requests, within a budget of at least as many. *)
Lemma wp_within {A} P (Q : A -> Prop) (Q' : nat -> A -> Prop) n m p :
  wp P (fun _ => Q) n p -> (n <= m)%nat -> (forall a k, (m - n <= k <= m)%nat -> Q a -> Q' k a) -> wp P Q' m p.
Proof.
  intros Hp Hle HQ.
  assert (wp P (fun k a => (k <= n)%nat /\ Q a) n p) as Hp'.
  { clear Hle HQ m Q'. revert n Hp. induction p as [a|T c f IH]; intros n Hp; cbn [wp] in *; [done|].
    destruct (sent_by c) as [r|].
    - destruct Hp as [Hr Hp]. split; [done|]. destruct n as [|n]; [done|]. intros t Ht.
      eapply wp_mono; [done| |by apply IH, Hp]. cbn. intros k a [Hk Ha]. split; [lia|done].
    - intros t Ht. by apply IH, Hp. }
  replace m with (n + (m - n))%nat by lia. apply wp_more. eapply wp_mono; [done| |exact Hp'].
  cbn. intros k a [Hk Ha]. apply HQ; [lia|done].
Qed.

(** One part of a program, with its own budget. *)
Lemma wp_then {A B} P (R : A -> Prop) (Q : nat -> B -> Prop) k n (p : prog A) (f : A -> prog B) :
  wp P (fun _ => R) k p -> (k <= n)%nat -> (forall a m, (n - k <= m)%nat -> R a -> wp P Q m (f a)) -> wp P Q n (bind p f).
Proof. intros Hp Hk Hf. apply wp_bind. eapply wp_within; [exact Hp|exact Hk|]. intros a m Hm Ha. apply Hf; [lia|done]. Qed.

(** Without a budget, for programs whose number of requests an answer decides. *)
Fixpoint always {A} (P : Request -> Prop) (Q : A -> Prop) (p : prog A) : Prop :=
  match p with
  | Done a => Q a
  | Do c k => match sent_by c with Some r => P r | None => True end /\ forall t, answer_ok c t -> always P Q (k t)
  end.

Lemma always_sound {A} P (Q : A -> Prop) (p : prog A) o m :
  oracle_ok o -> always P Q p -> let '(a, sent) := run o m p in Forall P sent /\ Q a.
Proof.
  intros Ho. revert m. induction p as [a|T c k IH]; intros m Hp; cbn [run always] in *; [by split|].
  destruct Hp as [Hr Hp]. specialize (IH (o m T c) (S m) (Hp _ (Ho m T c))).
  destruct (run o (S m) (k (o m T c))) as [a sent]. destruct IH as [Hf Hq]. split; [|done].
  destruct (sent_by c); [by constructor|done].
Qed.

Lemma always_bind {A B} P (Q : B -> Prop) (p : prog A) (f : A -> prog B) :
  always P (fun a => always P Q (f a)) p -> always P Q (bind p f).
Proof. induction p as [a|T c k IH]; intros Hp; cbn [bind always] in *; [done|]. destruct Hp as [Hr Hp]. split; [done|]. auto. Qed.

Lemma always_mono {A} (P P' : Request -> Prop) (Q Q' : A -> Prop) p :
  (forall r, P r -> P' r) -> (forall a, Q a -> Q' a) -> always P Q p -> always P' Q' p.
Proof.
  intros HP HQ. induction p as [a|T c k IH]; intros Hp; cbn [always] in *; [by auto|]. destruct Hp as [Hr Hp].
  split; [destruct (sent_by c); auto|auto].
Qed.

Lemma wp_always {A} P (Q : A -> Prop) n (p : prog A) : wp P (fun _ => Q) n p -> always P Q p.
Proof.
  revert n. induction p as [a|T c k IH]; intros n Hp; cbn [wp always] in *; [done|]. destruct (sent_by c) as [r|].
  - destruct Hp as [Hr Hp]. destruct n as [|n]; [done|]. split; [done|]. intros t Ht. by eapply IH, Hp.
  - split; [done|]. intros t Ht. by eapply IH, Hp.
Qed.

(** ** Requests and what was answered before them *)

Definition Exchange : Type := Request * result Response text.
Definition exchanged {T} (c : Call T) : T -> option Exchange :=
  match c in Call T return T -> option Exchange with Send r => fun answer => Some (r, answer) | _ => fun _ => None end.

(** [run] with the answers to the requests. *)
Fixpoint run_log {A} (o : Oracle) (n : nat) (p : prog A) : A * list Exchange :=
  match p with
  | Done a => (a, [])
  | Do c k => let '(a, log) := run_log o (S n) (k (o n _ c)) in (a, option_list (exchanged c (o n _ c)) ++ log)
  end.

Lemma run_log_run {A} o n (p : prog A) : run o n p = (fst (run_log o n p), map fst (snd (run_log o n p))).
Proof.
  revert n. induction p as [a|T c k IH]; intros n; cbn [run run_log]; [done|]. rewrite (IH _ (S n)).
  destruct (run_log o (S n) (k (o n T c))) as [a log]. cbn [fst snd]. rewrite map_app. by destruct c.
Qed.

(** Whatever is answered, every request satisfies [P] with the exchanges before
    it, and the result [Q] with all of them. *)
Fixpoint traced {A} (P : list Exchange -> Request -> Prop) (Q : list Exchange -> A -> Prop) (h : list Exchange) (p : prog A) : Prop :=
  match p with
  | Done a => Q h a
  | Do c k => match sent_by c with Some r => P h r | None => True end
      /\ forall t, answer_ok c t -> traced P Q (h ++ option_list (exchanged c t)) (k t)
  end.

Lemma traced_sound {A} P Q (p : prog A) o m h :
  oracle_ok o -> traced P Q h p ->
  let '(a, log) := run_log o m p in
  Q (h ++ log) a /\ forall before r answer after, log = before ++ (r, answer) :: after -> P (h ++ before) r.
Proof.
  intros Ho. revert m h. induction p as [a|T c k IH]; intros m h Hp; cbn [run_log traced] in *.
  { rewrite app_nil_r. split; [done|]. intros before r answer after Hl. by destruct before. }
  destruct Hp as [Hr Hp]. specialize (IH (o m T c) (S m) _ (Hp _ (Ho m T c))).
  destruct (run_log o (S m) (k (o m T c))) as [a log]. destruct IH as [Hq Hl]. rewrite <- app_assoc in Hq. split; [done|].
  intros before r answer after Hlog.
  destruct (exchanged c (o m T c)) as [e|] eqn:Ee; cbn [option_list app] in Hlog.
  - destruct before as [|e' before]; simplify_eq/=.
    + rewrite app_nil_r. destruct c; simplify_eq/=. done.
    + specialize (Hl before r answer after eq_refl). by rewrite <- app_assoc in Hl.
  - specialize (Hl before r answer after Hlog). by rewrite app_nil_r in Hl.
Qed.

Lemma traced_then {A B} P Q1 (Q : list Exchange -> B -> Prop) h (p : prog A) (f : A -> prog B) :
  traced P Q1 h p -> (forall h' a, Q1 h' a -> traced P Q h' (f a)) -> traced P Q h (bind p f).
Proof.
  intros Hp Hf. revert h Hp. induction p as [a|T c k IH]; intros h Hp; cbn [bind traced] in *; [by apply Hf|].
  destruct Hp as [Hr Hp]. split; [done|]. intros t Ht. by apply IH, Hp.
Qed.

Lemma traced_mono {A} P (Q Q' : list Exchange -> A -> Prop) h p :
  (forall h' a, Q h' a -> Q' h' a) -> traced P Q h p -> traced P Q' h p.
Proof.
  intros HQ. revert h. induction p as [a|T c k IH]; intros h Hp; cbn [traced] in *; [by apply HQ|].
  destruct Hp as [Hr Hp]. split; [done|]. intros t Ht. by apply IH, Hp.
Qed.

(** What holds without a look at the answers holds from any point on. *)
Lemma always_traced {A} (P0 : Request -> Prop) (Q0 : A -> Prop) P h p :
  always P0 Q0 p -> (forall h' r, h `prefix_of` h' -> P0 r -> P h' r) ->
  traced P (fun h' a => h `prefix_of` h' /\ Q0 a) h p.
Proof.
  intros Hp HP. assert (Hg : forall h0, h `prefix_of` h0 -> traced P (fun h' a => h `prefix_of` h' /\ Q0 a) h0 p); [|by apply Hg].
  induction p as [a|T c k IH]; intros h0 Hh; cbn [traced always] in *; [done|]. destruct Hp as [Hr Hp].
  split; [destruct (sent_by c); auto|]. intros t Ht. apply IH; [by apply Hp|]. by apply prefix_app_r.
Qed.

(** [retry]: the first success of so many attempts, with a growing pause between
    them. *)
Fixpoint retry {A E} (attempts : nat) (done : Z) (request : prog (result A E)) : prog (result A (option E)) :=
  match attempts with
  | O => Done (Err None)
  | S rest =>
      r <- request ;;
      match r with
      | Ok value => Done (Ok value)
      | Err e =>
          match rest with
          | O => Done (Err (Some e))
          | S _ =>
              _ <- call (Pause (250 * (done + 1)) (250 * (done + 1) + 1)) ;;
              retry rest (done + 1) request
          end
      end
  end.

Lemma wp_retry {A E} P (Q : A -> Prop) attempts k d (request : prog (result A E)) :
  wp P (fun _ r => match r with Ok a => Q a | Err _ => True end) k request ->
  wp P (fun _ r => match r with Ok a => Q a | Err _ => True end) (attempts * k) (retry attempts d request).
Proof.
  intros Hr. revert d. induction attempts as [|rest IH]; intros d; cbn [retry]; [done|]. apply wp_bind.
  replace (S rest * k)%nat with (k + rest * k)%nat by lia.
  eapply wp_within; [exact Hr|lia|]. cbn beta. intros [a|e] m Hm Ha; [done|]. destruct rest as [|rest]; [done|].
  change (wp P (fun _ r => match r with Ok a => Q a | Err _ => True end) m
    (bind (call (Pause (250 * (d + 1)) (250 * (d + 1) + 1))) (fun _ => retry (S rest) (d + 1) request))).
  apply wp_bind. cbn [call wp sent_by]. intros _ _. eapply wp_within; [apply IH|lia|]. done.
Qed.

Lemma wp_timeout {A} P (Q : nat -> option A -> Prop) n (p : prog A) :
  (forall m, (m <= n)%nat -> Q m None) -> wp P (fun m a => Q m (Some a)) n p -> wp P Q n (within p).
Proof.
  revert n. induction p as [a|T c k IH]; intros n HN Hp; cbn [within wp] in *; [done|].
  destruct (sent_by c) as [r|].
  - destruct Hp as [Hr Hp]. split; [done|]. destruct n as [|n]; [done|]. intros t Ht. cbn [wp sent_by]. intros [] _; [apply HN; lia|].
    apply IH; [intros; apply HN; lia|by apply Hp].
  - intros t Ht. cbn [wp sent_by]. intros [] _; [apply HN; lia|]. apply IH; [done|by apply Hp].
Qed.

(** ** Two programs that differ in a secret *)

(** They make the same calls, up to requests that are related, whatever is
    answered to both. *)
Inductive alike {A B} (R : Request -> Request -> Prop) (Q : A -> B -> Prop) : prog A -> prog B -> Prop :=
| alike_done a b : Q a b -> alike R Q (Done a) (Done b)
| alike_call T (c : Call T) k1 k2 : sent_by c = None -> (forall t, alike R Q (k1 t) (k2 t)) -> alike R Q (Do c k1) (Do c k2)
| alike_send r1 r2 k1 k2 : R r1 r2 -> (forall t, alike R Q (k1 t) (k2 t)) -> alike R Q (Do (Send r1) k1) (Do (Send r2) k2).

(** Answers that do not depend on the requests: a script. *)
Definition scripted (o : Oracle) : Prop := forall n r1 r2, o n _ (Send r1) = o n _ (Send r2).

Lemma alike_sound {A B} R Q (p : prog A) (q : prog B) o n :
  scripted o -> alike R Q p q ->
  let '(a, sent1) := run o n p in let '(b, sent2) := run o n q in Q a b /\ Forall2 R sent1 sent2.
Proof.
  intros Ho Hpq. revert n. induction Hpq as [a b Hab|T c k1 k2 Hc _ IH|r1 r2 k1 k2 Hr _ IH]; intros n; cbn [run].
  - by split; [|constructor].
  - rewrite Hc. specialize (IH (o n T c) (S n)). destruct (run o (S n) (k1 _)), (run o (S n) (k2 _)). done.
  - rewrite (Ho n r1 r2). specialize (IH (o n _ (Send r2)) (S n)). cbn [sent_by].
    destruct (run o (S n) (k1 _)), (run o (S n) (k2 _)). destruct IH as [HQ HR]. split; [done|by constructor].
Qed.

Lemma alike_bind {A B A' B'} R (Q : A -> B -> Prop) (Q' : A' -> B' -> Prop) p q f g :
  alike R Q p q -> (forall a b, Q a b -> alike R Q' (f a) (g b)) -> alike R Q' (bind p f) (bind q g).
Proof. intros Hpq Hf. induction Hpq; cbn [bind]; [by apply Hf|by constructor|by constructor]. Qed.

Lemma alike_refl {A} (R : Request -> Request -> Prop) (p : prog A) : (forall r, R r r) -> alike R eq p p.
Proof.
  intros HR. induction p as [a|T c k IH]; [by constructor|].
  destruct c; first [apply alike_send; [apply HR|exact IH] | apply alike_call; [reflexivity|exact IH]].
Qed.

Lemma alike_timeout {A B} R (Q : A -> B -> Prop) (Q' : option A -> option B -> Prop) p q :
  Q' None None -> (forall a b, Q a b -> Q' (Some a) (Some b)) -> alike R Q p q -> alike R Q' (within p) (within q).
Proof.
  intros HN HQ Hpq. induction Hpq as [a b Hab|T c k1 k2 Hc _ IH|r1 r2 k1 k2 Hr _ IH]; cbn [within]; [constructor; auto| |].
  - apply alike_call; [done|]. intros t. apply alike_call; [done|]. intros []; [by constructor|apply IH].
  - apply alike_send; [done|]. intros t. apply alike_call; [done|]. intros []; [by constructor|apply IH].
Qed.

Lemma alike_retry {A E} R attempts d (p q : prog (result A E)) :
  alike R eq p q -> alike R eq (retry attempts d p) (retry attempts d q).
Proof.
  intros Hpq. revert d. induction attempts as [|rest IH]; intros d; cbn [retry]; [by constructor|].
  eapply alike_bind; [exact Hpq|]. intros a ? <-. destruct a as [a|e]; [by constructor|]. destruct rest as [|rest]; [by constructor|].
  apply (alike_bind _ eq); [by apply alike_call; [|constructor]|]. intros _ _ _. apply IH.
Qed.

(** ** Instances to evaluate with *)

(** Documents, and a parser that knows some texts by heart. *)
Inductive Doc : Type :=
| DNull | DBool (b : bool) | DNumber (n : Z) | DString (s : text) | DArray (l : list Doc) | DObject (l : list (text * Doc)).

Definition doc_view (d : Doc) : JsonView Doc :=
  match d with
  | DNull => JNull
  | DBool b => JBool b
  | DNumber n => JNumber (mkNumber (Some n) (Some n) (Some n))
  | DString s => JString s
  | DArray l => JArray l
  | DObject l => JObject (fun key => match List.find (fun kv => bytes_eqb (fst kv) key) l with Some kv => Some (snd kv) | None => None end)
  end.
Definition doc_json (known : bytes -> option Doc) : Json := {| view := doc_view; parse_json := known; show_json _ := [] |}.

Definition all_headers : Headers := {| header_value_ok _ := true; header_name_ok _ := true |}.

(** A quiet outside: requests are answered by their address, the host's view with
    a result, and nothing is cancelled. *)
Definition quiet (answer : Request -> result Response text) (view_result : text) : Oracle :=
  fun _ T c => match c in Call T return T with
  | Send r => answer r
  | Pause _ _ => false
  | NewClient => None
  | TimeOver => false
  | NewUuid => ascii "uuid"
  | NewName => ascii "name"
  | RandomHex => ascii "hex"
  | NewCursor _ _ => ascii "[]"
  | CancelSeen => None
  | ShowWebView _ _ _ _ => ViewResult view_result
  | LoadProfile => None
  | UnixSeconds => 1000
  | LoadLockout => 0
  | StoreLockout _ => tt
  | IssueOnce _ => true
  end.

Lemma quiet_ok answer view_result : oracle_ok (quiet answer view_result).
Proof. intros n T c. destruct c; cbn; try exact I. lia. Qed.
