(* ===== verification/CaptchaPage.v ===== *)
(** * CaptchaPage: what the captcha's page and its errors hold

    Models the pure parts of [captcha.rs]: the error that asks for a captcha, the
    proof of work, the JSON that a page assigns to [window.init], and the settings
    that [parse_page] puts together. SHA-256, the regular expressions, [Url] and
    the derived deserializer are classes. *)

From Stdlib Require Import Strings.String.
From S2P Require Import Prelude Bytes Text Web WebClient.

(** ** The crates behind the page *)

Class Sha256 : Type := {
  sha256 : bytes -> bytes;
  sha256_length b : zlen (sha256 b) = 32;
  sha256_bytes b : is_bytes (sha256 b);
}.

Record CaptchaSetting : Type := mkSetting { kind : text; settings : text; settings_key : text }.
Record CaptchaInit : Type := mkInit { show_captcha_type : text; captcha_settings : list CaptchaSetting }.

(** The first captures of the regular expressions, and [serde]'s reading of the
    init object. *)
Class PageScan : Type := {
  pow_input_re : text -> option text;
  pow_difficulty_re : text -> option text;
  pow_obfuscated_re : text -> option (text * text);
  script_source_re : text -> option text;
  debug_uuid_re : text -> option text;
  window_init_re : text -> option text;
  read_init : text -> option CaptchaInit;
}.

(** [url]: the query of an address, and an address relative to another. *)
Class Urls : Type := {
  query_pairs : text -> option (list (text * text));
  join_url : text -> text -> option (option text);
}.

(** ** The error *)

Record VkCaptchaError : Type := mkVkCaptcha {
  error_code : Z;
  error_msg : text;
  captcha_sid : text;
  captcha_img : text;
  redirect_uri : text;
  session_token : text;
  captcha_timestamp : text;
  captcha_attempt : text;
}.

(** [str::parse::<i64>]: an optional sign and decimal digits, in range. *)
Fixpoint decimal (acc : Z) (s : text) : option Z :=
  match s with [] => Some acc | c :: s => if is_digit c then decimal (10 * acc + (c - 0x30)) s else None end.
Definition parse_i64 (s : text) : option Z :=
  let '(sign, digits) := match s with
    | c :: t => if c =? 0x2b then (1, t) else if c =? 0x2d then (-1, t) else (1, s)
    | [] => (1, [])
    end in
  match digits with
  | [] => None
  | _ => match decimal 0 digits with
         | Some n => if between (- 2 ^ 63) (2 ^ 63 - 1) (sign * n) then Some (sign * n) else None
         | None => None
         end
  end.

(** [str::parse::<usize>] *)
Definition parse_usize (s : text) : option Z :=
  let digits := match s with c :: t => if c =? 0x2b then t else s | [] => [] end in
  match digits with
  | [] => None
  | _ => match decimal 0 digits with Some n => if n <=? usize_max then Some n else None | None => None end
  end.

Section Errors.
Context `{Json} `{Urls}.

Definition string_value (v : option value) : text :=
  match v with
  | None => []
  | Some v => match view v with JNull => [] | JString s => s | _ => show_json v end
  end.

Definition find_key (key : text) (pairs : list (text * text)) : option text :=
  match List.find (fun kv => bytes_eqb (fst kv) key) pairs with Some kv => Some (snd kv) | None => None end.

Definition captcha_code (v : option value) : Z :=
  match v with
  | None => 0
  | Some v =>
      match view v with
      | JNumber n => match as_i64 n with Some z => z | None => default 0 (as_f64_i64 n) end
      | JString s => default 0 (parse_i64 s)
      | _ => 0
      end
  end.

(** [VkCaptchaError::from_json] *)
Definition from_json (raw : value) : option VkCaptchaError :=
  if negb (is_object raw) then None else
  let uri := string_value (jget raw (ascii "redirect_uri")) in
  let token := default [] (bind_opt (query_pairs uri) (find_key (ascii "session_token"))) in
  Some (mkVkCaptcha (captcha_code (jget raw (ascii "error_code"))) (string_value (jget raw (ascii "error_msg")))
    (string_value (jget raw (ascii "captcha_sid"))) (string_value (jget raw (ascii "captcha_img"))) uri token
    (string_value (jget raw (ascii "captcha_ts"))) (string_value (jget raw (ascii "captcha_attempt")))).
End Errors.

(** ** The proof of work *)

Definition MAX_POW_DIFFICULTY : Z := 8.
Definition POW_NONCES : Z := 10000000.

Definition hash_meets_target (digest : bytes) (difficulty : Z) : res bool :=
  let full_bytes := difficulty / 2 in
  prefix ← slice digest 0 full_bytes;
  if existsb (fun b => negb (b =? 0)) prefix then Ret false
  else if difficulty mod 2 =? 0 then Ret true
  else b ← index digest full_bytes; Ret (Z.land b 0xf0 =? 0).

(** [hex::encode] *)
Definition hex_lower : bytes := ascii "0123456789abcdef".
Definition hex_encode (b : bytes) : text :=
  concat (map (fun b => [nth (Z.to_nat (b / 16)) hex_lower 0; nth (Z.to_nat (b mod 16)) hex_lower 0]) b).

Inductive PowError : Type := PowFailed | PowTooHard | PowCancelled.

Section Pow.
Context `{Sha256}.

Definition pow_digest (input : text) (nonce : Z) : bytes := sha256 (utf8 input ++ to_string nonce).

(** The loop over the nonces: [cancelled] is the nonce from which on the token
    is seen as cancelled, which the loop looks at every 4096 nonces. *)
Fixpoint pow_search (turns : nat) (input : text) (difficulty : Z) (cancelled : option Z) (nonce : Z) : res (result text PowError) :=
  match turns with
  | O => Ret (Err PowFailed)
  | S turns =>
      if (nonce mod 4096 =? 0) && (match cancelled with Some at_ => at_ <=? nonce | None => false end) then Ret (Err PowCancelled)
      else
        let digest := pow_digest input nonce in
        met ← hash_meets_target digest difficulty;
        if (met : bool) then Ret (Ok (hex_encode digest)) else pow_search turns input difficulty cancelled (nonce + 1)
  end.

Definition solve_pow (input : text) (difficulty : Z) (cancelled : option Z) : res (result text PowError) :=
  if (zlen input =? 0) || (difficulty =? 0) then Ret (Err PowFailed)
  else if MAX_POW_DIFFICULTY <? difficulty then Ret (Err PowTooHard)
  else pow_search (Z.to_nat (POW_NONCES + 1)) input difficulty cancelled 0.
End Pow.

(** ** [window.init] *)

(** The loop over the characters from the first brace on: how many there are up
    to the brace that closes it. *)
Fixpoint close_brace (s : text) (depth : Z) (in_string escaped : bool) : option nat :=
  match s with
  | [] => None
  | c :: s =>
      let rest depth in_string escaped := match close_brace s depth in_string escaped with Some n => Some (S n) | None => None end in
      if in_string then
        if escaped then rest depth true false
        else if c =? 0x5c then rest depth true true
        else rest depth (negb (c =? 0x22)) false
      else if c =? 0x22 then rest depth true false
      else if c =? 0x7b then rest (wrapping_add 64 depth 1) false false
      else if c =? 0x7d then
        let depth := wrapping_sub 64 depth 1 in
        if depth =? 0 then Some 1%nat else rest depth false false
      else rest depth false false
  end.

Definition extract_window_init (html : text) : option text :=
  match find_text (ascii "window.init") html with
  | None => None
  | Some token =>
      let rest := drop (token + 11) html in
      match find_text (ascii "{") rest with
      | None => None
      | Some offset =>
          let json := drop offset rest in
          match close_brace json 0 false false with Some n => Some (take n json) | None => None end
      end
  end.

(** ** The page *)

Record CaptchaPage : Type := mkPage {
  pow_input : text;
  pow_difficulty : Z;
  script_url : text;
  init : option CaptchaInit;
  debug_info : text;
}.

Definition nonempty (s : text) : bool := negb (zlen s =? 0).

Section Page.
Context `{PageScan}.

(** [None] when the object that was found is not the init object. *)
Definition page_init (html : text) : option (option CaptchaInit) :=
  match extract_window_init html with
  | Some raw => match read_init raw with Some i => Some (Some i) | None => None end
  | None => Some (bind_opt (window_init_re html) read_init)
  end.

Definition parse_page (html : text) : option CaptchaPage :=
  match page_init html with
  | None => None
  | Some init =>
      let debug_info := default [] (debug_uuid_re html) in
      let script_url := default (ascii "https://id.vk.com/js/api/oauth.js") (script_source_re html) in
      let input := default [] (pow_input_re html) in
      let difficulty := default 0 (bind_opt (pow_difficulty_re html) parse_usize) in
      let '(input, difficulty) :=
        match (if nonempty input then None else pow_obfuscated_re html) with
        | Some (input, difficulty) => (input, default 4 (parse_usize difficulty))
        | None => (input, difficulty)
        end in
      let input :=
        match (if nonempty input then None else bind_opt init (fun i => List.find (fun s => bytes_eqb (kind s) (ascii "pow")) (captcha_settings i))) with
        | Some s => if nonempty (settings s) then settings s else settings_key s
        | None => input
        end in
      let difficulty := if nonempty input && (difficulty =? 0) then 4 else difficulty in
      Some (mkPage input difficulty script_url init debug_info)
  end.

Definition initial_captcha_state (init : option CaptchaInit) : text * text :=
  match init with
  | None => ([], [])
  | Some i =>
      (show_captcha_type i,
       foldl (fun slider s => if bytes_eqb (kind s) (ascii "slider") then settings s else slider) [] (captcha_settings i))
  end.
End Page.

(** ** The proof of work is the first nonce that meets the target *)

Definition zeros (n : nat) : text := replicate n 0x30.

(** The two characters of a byte. *)
Definition hex_high (b : Z) : Z := nth (Z.to_nat (b / 16)) hex_lower 0.
Definition hex_low (b : Z) : Z := nth (Z.to_nat (b mod 16)) hex_lower 0.

Lemma hex_cons b l : hex_encode (b :: l) = hex_high b :: hex_low b :: hex_encode l.
Proof. reflexivity. Qed.

Lemma hex_byte b : is_byte b ->
  (b =? 0) = (hex_high b =? 0x30) && (hex_low b =? 0x30) /\ (Z.land b 0xf0 =? 0) = (hex_high b =? 0x30).
Proof.
  intros Hb.
  pose proof (all_bytes (fun b => Bool.eqb (b =? 0) ((hex_high b =? 0x30) && (hex_low b =? 0x30))
    && Bool.eqb (Z.land b 0xf0 =? 0) (hex_high b =? 0x30)) ltac:(vm_compute; reflexivity) b Hb) as Hc.
  cbn beta in Hc. apply andb_true_iff in Hc as [H1%eqb_prop H2%eqb_prop]. done.
Qed.

(** The target is so many leading zeros of the digest in hexadecimal. *)
Lemma hash_meets_hex digest (d : nat) :
  is_bytes digest -> (d <= 2 * length digest)%nat ->
  hash_meets_target digest (Z.of_nat d) = Ret (bool_decide (take d (hex_encode digest) = zeros d)).
Proof.
  intros Hb Hd. unfold hash_meets_target, slice, get_range, index, zlen.
  assert (Z.of_nat d / 2 = Z.of_nat (d / 2)) as -> by (by rewrite Nat2Z.inj_div).
  assert (Z.of_nat d mod 2 = Z.of_nat (d mod 2)) as -> by (by rewrite Nat2Z.inj_mod).
  pose proof (Nat.div_mod_eq d 2) as Hdm. pose proof (Nat.mod_upper_bound d 2 ltac:(lia)) as Hm.
  set (k := (d / 2)%nat) in *. set (m := (d mod 2)%nat) in *. clearbody k m. subst d.
  destruct (Z.leb_spec (Z.of_nat k) (Z.of_nat (length digest))); [|lia].
  destruct (Z.leb_spec 0 (Z.of_nat k)); [|lia]. change (0 <=? 0) with true. cbn [andb]. rewrite Z.sub_0_r, !Nat2Z.id. change (Z.to_nat 0) with 0%nat. rewrite drop_0. rbind.
  destruct (Z.ltb_spec (Z.of_nat k) 0); [lia|]. clear H H0 H1. revert k Hd.
  induction Hb as [|b digest Hbyte Hb IH]; intros k Hd.
  { assert (k = 0%nat) as -> by (cbn in Hd; lia). assert (m = 0%nat) as -> by (cbn in Hd; lia). reflexivity. }
  destruct k as [|k].
  - cbn [take existsb]. destruct m as [|[|m]]; [reflexivity| |lia].
    change (Z.of_nat 1 =? 0) with false. cbn match. change ((b :: digest) !! 0%nat) with (Some b). rbind.
    destruct (hex_byte b Hbyte) as [_ ->]. rewrite hex_cons. change (2 * 0 + 1)%nat with 1%nat. cbn [take zeros replicate].
    f_equal. symmetry. destruct (Z.eqb_spec (hex_high b) 0x30); [apply bool_decide_eq_true|apply bool_decide_eq_false]; congruence.
  - rewrite hex_cons. replace (2 * S k + m)%nat with (S (S (2 * k + m))) by lia. cbn [take zeros replicate].
    cbn [take existsb]. destruct (hex_byte b Hbyte) as [Hz _]. rewrite Hz.
    specialize (IH k ltac:(cbn in Hd; lia)). change ((b :: digest) !! S k) with (digest !! k).
    destruct (Z.eqb_spec (hex_high b) 0x30) as [H1|H1], (Z.eqb_spec (hex_low b) 0x30) as [H2|H2]; cbn [andb negb orb];
      try (f_equal; symmetry; apply bool_decide_eq_false; congruence).
    rewrite IH. f_equal. apply bool_decide_ext. rewrite H1, H2. unfold zeros. split; [by intros ->|congruence].
Qed.

Section PowFacts.
Context `{Sha256}.

Definition solves (input : text) (difficulty : nat) (nonce : Z) : Prop :=
  take difficulty (hex_encode (pow_digest input nonce)) = zeros difficulty.

#[global] Instance solves_dec input d nonce : Decision (solves input d nonce).
Proof. unfold solves. apply _. Defined.

Lemma pow_digest_meets input (d : nat) nonce : (d <= 8)%nat ->
  hash_meets_target (pow_digest input nonce) (Z.of_nat d) = Ret (bool_decide (solves input d nonce)).
Proof.
  intros Hd. apply hash_meets_hex; [apply sha256_bytes|].
  assert (zlen (pow_digest input nonce) = 32) by apply sha256_length. unfold zlen in *. lia.
Qed.

(** How a search of [turns] nonces from [nonce] on ends. *)
Definition pow_outcome (input : text) (d : nat) (cancelled : option Z) (first last : Z) (r : result text PowError) : Prop :=
  match r with
  | Ok h => exists n, first <= n <= last /\ solves input d n /\ (forall m, first <= m < n -> ~ solves input d m)
              /\ h = hex_encode (pow_digest input n)
  | Err PowCancelled => exists n at_, first <= n <= last /\ cancelled = Some at_ /\ at_ <= n
              /\ forall m, first <= m < n -> ~ solves input d m
  | Err PowFailed => forall m, first <= m <= last -> ~ solves input d m
  | Err PowTooHard => False
  end.

Lemma pow_search_outcome turns input (d : nat) cancelled nonce : (d <= 8)%nat ->
  exists r, pow_search turns input (Z.of_nat d) cancelled nonce = Ret r
    /\ pow_outcome input d cancelled nonce (nonce + Z.of_nat turns - 1) r.
Proof.
  intros Hd. revert nonce. induction turns as [|turns IH]; intros nonce; cbn [pow_search].
  { eexists. split; [reflexivity|]. intros m Hm. lia. }
  destruct (_ && _) eqn:Ec.
  { apply andb_true_iff in Ec as [_ Ec]. destruct cancelled as [at_|]; [|done]. bool_to_prop. eexists. split; [reflexivity|].
    exists nonce, at_. split; [lia|]. split; [done|]. split; [done|]. lia. }
  rewrite (pow_digest_meets input d nonce Hd). rbind. case_bool_decide as Hs.
  { eexists. split; [reflexivity|]. exists nonce. split; [lia|]. split; [done|]. split; [lia|done]. }
  destruct (IH (nonce + 1)) as (r & -> & Hr). exists r. split; [done|].
  replace (nonce + 1 + Z.of_nat turns - 1) with (nonce + Z.of_nat (S turns) - 1) in Hr by lia.
  assert (forall n, (forall m, nonce + 1 <= m < n -> ~ solves input d m) -> forall m, nonce <= m < n -> ~ solves input d m) as Hext.
  { intros n Hn m Hm. destruct (Z.eq_dec m nonce) as [->|]; [done|]. apply Hn. lia. }
  destruct r as [h|[| |]]; cbn [pow_outcome] in *; try done.
  - destruct Hr as (n & Hn & Hsn & Hb & ->). exists n. split; [lia|]. split; [done|]. split; [by apply Hext|done].
  - intros m Hm. destruct (Z.eq_dec m nonce) as [->|]; [done|]. apply Hr. lia.
  - destruct Hr as (n & at_ & Hn & Hat & Hle & Hb). exists n, at_. split; [lia|]. split; [done|]. split; [done|]. by apply Hext.
Qed.

(** For a difficulty of one to eight the proof of work never indexes out of
    the digest and ends with the hexadecimal digest of the first nonce, of the ten
    million and one that it tries, whose digest starts with so many zeros; it
    fails exactly when no nonce does, unless it is cancelled first. Any other
    difficulty, or no input, is refused without a search. *)
Lemma pow_first_nonce input difficulty cancelled :
  0 <= difficulty ->
  exists r, solve_pow input difficulty cancelled = Ret r /\
    if nonempty input && (1 <=? difficulty) && (difficulty <=? 8)
    then pow_outcome input (Z.to_nat difficulty) cancelled 0 POW_NONCES r
    else exists e, r = Err e.
Proof.
  intros Hd. unfold solve_pow, nonempty, MAX_POW_DIFFICULTY.
  destruct (Z.eqb_spec (zlen input) 0); [by eexists; split; [reflexivity|eexists]|].
  destruct (Z.eqb_spec difficulty 0) as [->|]; [by eexists; split; [reflexivity|eexists]|].
  destruct (Z.leb_spec 1 difficulty); [|lia]. destruct (Z.ltb_spec 8 difficulty), (Z.leb_spec difficulty 8); try lia; cbn [orb andb negb].
  { by eexists; split; [reflexivity|eexists]. }
  destruct (pow_search_outcome (Z.to_nat (POW_NONCES + 1)) input (Z.to_nat difficulty) cancelled 0) as (r & E & Hr); [lia|].
  rewrite Z2Nat.id in E by lia. exists r. split; [exact E|]. rewrite Z2Nat.id in Hr by (unfold POW_NONCES; lia).
  replace (0 + (POW_NONCES + 1) - 1) with POW_NONCES in Hr by lia. exact Hr.
Qed.
End PowFacts.

(** ** The object assigned to [window.init] *)

(** The rest of a string of JSON, with its closing quote. *)
Inductive quoted : text -> Prop :=
| quoted_end : quoted [0x22]
| quoted_escape c s : quoted s -> quoted (0x5c :: c :: s)
| quoted_char c s : c <> 0x22 -> c <> 0x5c -> quoted s -> quoted (c :: s).

(** What may stand between two braces: braces are balanced outside of strings. *)
Inductive items : text -> Prop :=
| items_nil : items []
| items_char c s : c <> 0x22 -> c <> 0x7b -> c <> 0x7d -> items s -> items (c :: s)
| items_string q s : quoted q -> items s -> items (0x22 :: q ++ s)
| items_block b s : items b -> items s -> items (0x7b :: b ++ 0x7d :: s).

Lemma items_app a b : items a -> items b -> items (a ++ b).
Proof.
  intros Ha Hb. induction Ha; cbn [app]; [done|by apply items_char| |]; rewrite <- app_assoc.
  - by apply items_string.
  - by apply items_block.
Qed.

Definition further (k : nat) (n : option nat) : option nat := match n with Some n => Some (k + n)%nat | None => None end.

Lemma further_further a b n : further a (further b n) = further (a + b) n.
Proof. destruct n; cbn; [f_equal; lia|done]. Qed.

Lemma further_S n : further 1 n = match n with Some n => Some (S n) | None => None end.
Proof. by destruct n. Qed.

Lemma close_quoted q rest depth : quoted q ->
  close_brace (q ++ rest) depth true false = further (length q) (close_brace rest depth false false).
Proof.
  intros Hq. induction Hq as [|c s _ IH|c s H1 H2 _ IH]; cbn [app close_brace length].
  - by rewrite further_S.
  - change (0x5c =? 0x5c) with true. cbn match. rewrite IH. destruct (close_brace rest depth false false); done.
  - destruct (Z.eqb_spec c 0x5c); [done|]. destruct (Z.eqb_spec c 0x22); [done|]. cbn [negb]. rewrite IH.
    destruct (close_brace rest depth false false); done.
Qed.

Lemma close_items s rest depth : items s -> 1 <= depth -> depth + zlen s < 2 ^ 64 ->
  close_brace (s ++ rest) depth false false = further (length s) (close_brace rest depth false false).
Proof.
  intros Hs. revert rest depth. induction Hs as [|c s H1 H2 H3 _ IH|q s Hq _ IH|b s Hb IHb _ IH]; intros rest depth Hd Hl.
  - cbn. by destruct (close_brace rest depth false false).
  - rewrite zlen_cons in Hl. cbn [app close_brace length]. destruct (Z.eqb_spec c 0x22); [done|].
    destruct (Z.eqb_spec c 0x7b); [done|]. destruct (Z.eqb_spec c 0x7d); [done|]. rewrite IH by lia.
    by destruct (close_brace rest depth false false).
  - rewrite zlen_cons, zlen_app in Hl. pose proof (zlen_nonneg q). cbn [app close_brace length]. change (0x22 =? 0x22) with true. cbn match.
    rewrite <- app_assoc, close_quoted by done. rewrite IH by lia. rewrite length_app.
    destruct (close_brace rest depth false false); cbn; [f_equal; lia|done].
  - rewrite zlen_cons, zlen_app, zlen_cons in Hl. pose proof (zlen_nonneg b). pose proof (zlen_nonneg s).
    cbn [app close_brace length]. change (0x7b =? 0x22) with false. change (0x7b =? 0x7b) with true. cbn match.
    rewrite <- app_assoc. cbn [app]. unfold wrapping_add at 1. rewrite wrap_small by (unfold is_u; lia).
    rewrite IHb by lia. cbn [close_brace]. change (0x7d =? 0x22) with false. change (0x7d =? 0x7b) with false. change (0x7d =? 0x7d) with true.
    cbn match. unfold wrapping_sub at 1 2. rewrite !wrap_small by (unfold is_u; lia). replace (depth + 1 - 1) with depth by lia.
    destruct (Z.eqb_spec depth 0); [lia|]. rewrite IH by lia. rewrite length_app. cbn [length].
    destruct (close_brace rest depth false false); cbn; [f_equal; lia|done].
Qed.

(** What closes [S d] open braces. *)
Inductive closing : nat -> text -> Prop :=
| closing_last s : items s -> closing 0 (s ++ [0x7d])
| closing_more d s t : items s -> closing d t -> closing (S d) (s ++ 0x7d :: t).

Lemma closing_app d a t : items a -> closing d t -> closing d (a ++ t).
Proof.
  intros Ha Ht. destruct Ht as [s Hs|d s t Hs Ht]; rewrite app_assoc; constructor; try done; by apply items_app.
Qed.

Lemma closing_open d t : closing (S d) t -> closing d (0x7b :: t).
Proof.
  intros Ht. inversion Ht as [|d' s t' Hs Ht']; subst.
  assert (0x7b :: s ++ 0x7d :: t' = (0x7b :: s ++ [0x7d]) ++ t') as -> by (cbn; by rewrite <- app_assoc).
  apply closing_app; [|done]. apply items_block; [done|constructor].
Qed.

Lemma close_brace_sound s : forall d n, zlen s + Z.of_nat (S d) < 2 ^ 64 ->
  (close_brace s (Z.of_nat (S d)) false false = Some n -> closing d (take n s))
  /\ (close_brace s (Z.of_nat (S d)) true false = Some n -> exists q t, take n s = q ++ t /\ quoted q /\ closing d t)
  /\ (close_brace s (Z.of_nat (S d)) true true = Some n -> exists c q t, take n s = c :: q ++ t /\ quoted q /\ closing d t).
Proof.
  induction s as [|c s IH]; intros d n Hl; [done|]. rewrite zlen_cons in Hl. pose proof (zlen_nonneg s) as Hnn.
  assert (forall d' esc str (m : nat), zlen s + Z.of_nat (S d') < 2 ^ 64 ->
    match close_brace s (Z.of_nat (S d')) str esc with Some m => Some (S m) | None => None end = Some n ->
    exists k, n = S k /\ close_brace s (Z.of_nat (S d')) str esc = Some k /\ take n (c :: s) = c :: take k s) as Hstep.
  { intros d' esc str _ _ E. destruct (close_brace s (Z.of_nat (S d')) str esc) as [k|]; [|done]. injection E as <-. by exists k. }
  cbn [close_brace]. split; [|split]; intros E.
  - destruct (Z.eqb_spec c 0x22) as [->|Hq].
    { destruct (Hstep d false true 0%nat ltac:(lia) E) as (k & -> & Ek & ->).
      destruct (IH d k ltac:(lia)) as (_ & IHq & _). destruct (IHq Ek) as (q & t & -> & Hq & Ht).
      change (0x22 :: q ++ t) with ((0x22 :: q) ++ t). apply closing_app; [|done]. rewrite <- (app_nil_r (0x22 :: q)).
      by apply items_string; [|constructor]. }
    destruct (Z.eqb_spec c 0x7b) as [->|Hob].
    { unfold wrapping_add in E. rewrite wrap_small in E by (unfold is_u; lia). replace (Z.of_nat (S d) + 1) with (Z.of_nat (S (S d))) in E by lia.
      destruct (Hstep (S d) false false 0%nat ltac:(lia) E) as (k & -> & Ek & ->). apply closing_open. by apply IH; [lia|]. }
    destruct (Z.eqb_spec c 0x7d) as [->|Hcb].
    { unfold wrapping_sub in E. rewrite wrap_small in E by (unfold is_u; lia). replace (Z.of_nat (S d) - 1) with (Z.of_nat d) in E by lia.
      destruct (Z.eqb_spec (Z.of_nat d) 0) as [Hz|Hz].
      - injection E as <-. assert (d = 0%nat) as -> by lia. cbn [take]. rewrite take_0. apply (closing_last []). constructor.
      - destruct d as [|d]; [lia|]. destruct (Hstep d false false 0%nat ltac:(lia) E) as (k & -> & Ek & ->).
        apply (closing_more d []); [constructor|]. by apply IH; [lia|]. }
    destruct (Hstep d false false 0%nat ltac:(lia) E) as (k & -> & Ek & ->).
    apply (closing_app d [c]); [|by apply IH; [lia|]]. by apply items_char; [..|constructor].
  - destruct (Z.eqb_spec c 0x5c) as [->|Hb].
    { destruct (Hstep d true true 0%nat ltac:(lia) E) as (k & -> & Ek & ->).
      destruct (IH d k ltac:(lia)) as (_ & _ & IHe). destruct (IHe Ek) as (x & q & t & -> & Hq & Ht).
      exists (0x5c :: x :: q), t. split; [done|]. by split; [constructor|]. }
    destruct (Z.eqb_spec c 0x22) as [->|Hq]; cbn [negb] in E.
    + destruct (Hstep d false false 0%nat ltac:(lia) E) as (k & -> & Ek & ->). exists [0x22], (take k s).
      split; [done|]. split; [constructor|]. by apply IH; [lia|].
    + destruct (Hstep d false true 0%nat ltac:(lia) E) as (k & -> & Ek & ->).
      destruct (IH d k ltac:(lia)) as (_ & IHq & _). destruct (IHq Ek) as (q & t & -> & Hqq & Ht).
      exists (c :: q), t. split; [done|]. by split; [constructor|].
  - destruct (Hstep d false true 0%nat ltac:(lia) E) as (k & -> & Ek & ->).
    destruct (IH d k ltac:(lia)) as (_ & IHq & _). destruct (IHq Ek) as (q & t & -> & Hqq & Ht). by exists c, q, t.
Qed.

Lemma find_char c s k : find_text [c] s = Some k <-> exists l r, s = l ++ c :: r /\ length l = k /\ Forall (fun x => x <> c) l.
Proof.
  revert k. induction s as [|x s IH]; intros k; cbn [find_text].
  - cbn. split; [done|]. by intros ([|] & r & Hx & _).
  - unfold starts_with. cbn [strip_prefix]. destruct (Z.eqb_spec c x) as [<-|Hne].
    + split.
      * intros [= <-]. exists [], s. by split_and!.
      * intros ([|y l] & r & E & <- & Hf); [done|]. cbn in E. injection E as <- _. by apply Forall_cons in Hf as [].
    + split.
      * destruct (find_text [c] s) as [j|]; [|done]. intros [= <-]. destruct (proj1 (IH j) eq_refl) as (l & r & -> & <- & Hf).
        exists (x :: l), r. split; [done|]. split; [done|]. by constructor.
      * intros ([|y l] & r & E & <- & Hf); cbn in E; injection E as <- E; [done|]. apply Forall_cons in Hf as [_ Hf].
        rewrite (proj2 (IH (length l))) by by exists l, r. done.
Qed.

(** The JSON that is cut out of a page is the object that follows the first
    [window.init]: it begins with the first brace after it and ends with the brace
    that closes it, braces in strings and escaped quotes left alone; a page
    without such an object gives none. The depth neither wraps nor is exceeded. *)
Lemma window_init_exact html json :
  zlen html <= isize_max ->
  extract_window_init html = Some json <->
  exists before between_ b rest, html = before ++ ascii "window.init" ++ between_ ++ json ++ rest
    /\ find_text (ascii "window.init") html = Some (length before)
    /\ Forall (fun c => c <> 0x7b) between_ /\ json = 0x7b :: b ++ [0x7d] /\ items b.
Proof.
  intros Hl. unfold extract_window_init. split.
  - destruct (find_text (ascii "window.init") html) as [token|] eqn:Ht; [|done].
    destruct (find_text_here _ _ _ Ht) as (before & r & -> & Hlen). rewrite <- Hlen.
    assert (drop (length before + 11) (before ++ ascii "window.init" ++ r) = r) as ->
      by (rewrite <- drop_drop, drop_app_length; reflexivity).
    change (ascii "{") with [0x7b] in *. destruct (find_text [0x7b] r) as [offset|] eqn:Ho; [|done]. apply find_char in Ho as (mid & s & -> & Hm & Hf).
    rewrite <- Hm, drop_app_length. destruct (close_brace (0x7b :: s) 0 false false) as [n|] eqn:Ec; [|done]. intros [= <-].
    cbn [close_brace] in Ec. change (0x7b =? 0x22) with false in Ec. change (0x7b =? 0x7b) with true in Ec. cbn match in Ec.
    change (wrapping_add 64 0 1) with (Z.of_nat 1) in Ec. destruct (close_brace s (Z.of_nat 1) false false) as [k|] eqn:Ek; [|done].
    injection Ec as <-. rewrite !zlen_app, zlen_cons in Hl. pose proof (zlen_nonneg before). pose proof (zlen_nonneg mid).
    destruct (close_brace_sound s 0 k) as [Hc _]; [unfold isize_max in Hl; pose proof (zlen_nonneg (ascii "window.init")); lia|].
    assert (exists b, take k s = b ++ [0x7d] /\ items b) as (b & Eb & Hb) by (specialize (Hc Ek); inversion Hc; eauto).
    exists before, mid, b, (drop k s). cbn [take]. rewrite Eb. split; [|done].
    do 3 f_equal. cbn [app]. f_equal. rewrite <- Eb. symmetry. apply take_drop.
  - intros (before & mid & b & rest & -> & Ht & Hf & -> & Hb). rewrite Ht.
    assert (drop (length before + 11) (before ++ ascii "window.init" ++ mid ++ (0x7b :: b ++ [0x7d]) ++ rest)
      = mid ++ 0x7b :: (b ++ [0x7d]) ++ rest) as -> by (rewrite <- drop_drop, drop_app_length; reflexivity).
    rewrite (proj2 (find_char 0x7b _ (length mid))) by by exists mid, ((b ++ [0x7d]) ++ rest).
    rewrite drop_app_length, <- app_assoc. rewrite !zlen_app, zlen_cons, zlen_app in Hl.
    pose proof (zlen_nonneg before). pose proof (zlen_nonneg mid). pose proof (zlen_nonneg rest). pose proof (zlen_nonneg (ascii "window.init")).
    cbn [close_brace]. change (0x7b =? 0x22) with false. change (0x7b =? 0x7b) with true. cbn match.
    change (wrapping_add 64 0 1) with 1. rewrite close_items by (try done; unfold isize_max in Hl; change (zlen [0x7d]) with 1 in Hl; lia).
    cbn [app close_brace]. change (0x7d =? 0x22) with false. change (0x7d =? 0x7b) with false. change (0x7d =? 0x7d) with true. cbn match.
    change (wrapping_sub 64 1 1) with 0. cbn [further]. change (0 =? 0) with true. cbn match. cbn [further]. f_equal.
    assert (S (length b + 1) = length (0x7b :: b ++ [0x7d])) as -> by (cbn; rewrite length_app; cbn; lia).
    change (0x7b :: b ++ 0x7d :: rest) with ((0x7b :: b) ++ 0x7d :: rest).
    assert ((0x7b :: b) ++ 0x7d :: rest = (0x7b :: b ++ [0x7d]) ++ rest) as -> by (cbn; by rewrite <- app_assoc).
    by rewrite take_app_length.
Qed.

(** ** Evaluated pages *)

Definition quote : text := [0x22].
Definition example_json : text := ascii "{" ++ quote ++ ascii "a}" ++ quote ++ ascii ":{}}".

Lemma window_init_exact_witness :
  let html := ascii "x window.init = " ++ example_json ++ ascii ";}" in
  extract_window_init html = Some example_json
  /\ exists before between_ b rest, html = before ++ ascii "window.init" ++ between_ ++ example_json ++ rest
    /\ example_json = 0x7b :: b ++ [0x7d] /\ items b.
Proof.
  intros html. assert (extract_window_init html = Some example_json) as He by (vm_compute; reflexivity). split; [exact He|].
  apply (window_init_exact html example_json) in He; [|vm_compute; discriminate].
  destruct He as (before & mid & b & rest & E & _ & _ & Ej & Hb). exists before, mid, b, rest. split; [exact E|]. split; [exact Ej|exact Hb].
Defined.

(** A digest whose first byte counts the last digit of its input. *)
#[export] Instance toy_sha256 : Sha256.
Proof.
  refine {| sha256 b := (default 0 (last b) - 51) mod 256 :: replicate 31 7 |}.
  - intros b. reflexivity.
  - intros b. constructor; [apply Z.mod_pos_bound; lia|]. apply Forall_replicate. unfold is_byte. lia.
Defined.

(** The input [a] with difficulty two: the nonce three is the first whose digest
    starts with a zero byte. *)
Lemma pow_first_nonce_witness :
  exists r, solve_pow (ascii "a") 2 (Some 5) = Ret r /\ pow_outcome (ascii "a") 2 (Some 5) 0 POW_NONCES r.
Proof.
  destruct (pow_first_nonce (ascii "a") 2 (Some 5)) as (r & E & Hr); [lia|]. exists r. split; [exact E|exact Hr].
Defined.

Example pow_search_example :
  pow_search 5 (ascii "a") 2 (Some 5) 0 = Ret (Ok (hex_encode (pow_digest (ascii "a") 3))).
Proof. reflexivity. Qed.
