(* ===== verification/CaptchaClient.v ===== *)
(** * CaptchaClient: the requests that solve a captcha

    Models [CaptchaSession] of [captcha.rs] as far as the check: the requests with
    their headers and forms, [perform_check] and [solve_checkbox]. *)

From Stdlib Require Import Strings.String.
From S2P Require Import Prelude Bytes Text Protocol Web Profiles WebClient CaptchaPage.

Definition API_VERSION : text := ascii "5.131".
Definition SCRIPT_VERSION : text := ascii "1.1.1370".

(** Why a captcha is not solved. The four that the code tells apart come first. *)
Inductive CaptchaFailure : Type :=
| RateLimit | BotChallenge | ShowTypeMismatch (show : text)
| OnlyPrintUrl | NoSessionToken
| HeaderRefused | SendFailed (error : text) | NotUtf8 | NotJson
| BadInit | NoPowSettings | PowFails (e : PowError)
| UnsupportedType (show : text)
| CheckInvalid | StatusMissing | Rejected (status : text) | TokenMissing
| SliderContent | SliderNumbers | SliderImage | NoAttempts | GuessesExhausted
| Panics
| OutOfTurns  (** a loop of the model that ran out of its turns; never a result, see [captcha_ends] *)
| Exhausted
| Cancelled
| ViewIncomplete | ViewTimeout | ViewChannelClosed | ViewEmpty | ViewFailed (result : text).

(** [serde_json]'s text of the device of a browser. *)
Class Device : Type := { DEVICE_INFO : text }.

(** [base64]'s standard alphabet. *)
Class Base64 : Type := { base64_encode : text -> text; base64_decode : text -> option bytes }.

Record Session : Type := mkSession { profile : Profile; saved_profile : option SavedProfile }.

Definition fields : Type := list (text * text).

Section Client.
Context `{Json} `{Headers} `{Device} `{Base64}.

(** ** Requests *)

(** A header of the profile, when it has one. *)
Definition insert_known (m : HeaderMap) (name content : text) : option HeaderMap :=
  if nonempty content then insert_text m name content else Some m.

Definition insert_header (m : HeaderMap) (name content : text) : option HeaderMap :=
  if header_name_ok name then insert_text m name content else None.

Fixpoint insert_headers (m : HeaderMap) (extra : fields) : option HeaderMap :=
  match extra with
  | [] => Some m
  | (name, content) :: extra => bind_opt (insert_header m name content) (fun m => insert_headers m extra)
  end.

(** The headers that [raw] always sends. *)
Definition fixed_headers : fields :=
  [(ascii "accept", ascii "*/*"); (ascii "accept-language", ascii "ru-RU,ru;q=0.9,en-US;q=0.8,en;q=0.7"); (ascii "dnt", ascii "1");
   (ascii "sec-fetch-site", ascii "same-site"); (ascii "sec-fetch-mode", ascii "cors"); (ascii "sec-fetch-dest", ascii "empty");
   (ascii "origin", ascii "https://vk.com"); (ascii "referer", ascii "https://vk.com/")].

Definition raw_headers (s : Session) (extra : fields) : option HeaderMap :=
  let p := profile s in
  bind_opt (insert_known [] (ascii "user-agent") (user_agent p)) (fun m =>
  bind_opt (insert_known m (ascii "sec-ch-ua") (sec_ch_ua p)) (fun m =>
  bind_opt (insert_known m (ascii "sec-ch-ua-mobile") (sec_ch_ua_mobile p)) (fun m =>
  bind_opt (insert_known m (ascii "sec-ch-ua-platform") (sec_ch_ua_platform p)) (fun m =>
  insert_headers (foldl (fun m kv => insert_static m (fst kv) (snd kv)) m fixed_headers) extra)))).

(** [raw]; the form sets its content type on top. *)
Definition raw (s : Session) (m : Method) (endpoint : text) (form : option fields) (extra : fields) : prog (result bytes CaptchaFailure) :=
  match raw_headers s extra with
  | None => Done (Err HeaderRefused)
  | Some h =>
      let r := match form with
        | Some values => mkRequest m endpoint (insert_static h (ascii "content-type") (ascii "application/x-www-form-urlencoded")) (Some (encode_form values))
        | None => mkRequest m endpoint h None
        end in
      a <- call (Send r) ;;
      Done (match a with Ok response => Ok (content response) | Err e => Err (SendFailed e) end)
  end.

Definition fetch_html (s : Session) (endpoint : text) : prog (result text CaptchaFailure) :=
  b <-? raw s GET endpoint None
    [(ascii "accept", ascii "text/html,application/xhtml+xml,application/xml;q=0.9,*/*;q=0.8"); (ascii "sec-fetch-dest", ascii "document");
     (ascii "sec-fetch-mode", ascii "navigate"); (ascii "sec-fetch-site", ascii "cross-site")] ;;
  Done (if utf8_valid b then Ok (from_utf8_lossy b) else Err NotUtf8).

Definition method_url (name : text) : text := ascii "https://api.vk.ru/method/" ++ name ++ ascii "?v=" ++ API_VERSION.

Definition request (s : Session) (name : text) (values : fields) : prog (result value CaptchaFailure) :=
  b <-? raw s POST (method_url name) (Some values)
    [(ascii "origin", ascii "https://id.vk.com"); (ascii "referer", ascii "https://id.vk.com/"); (ascii "priority", ascii "u=1, i")] ;;
  ensure (parse_json b) NotJson.

Definition base_values (token : text) : fields :=
  [(ascii "session_token", token); (ascii "domain", ascii "vk.com"); (ascii "adFp", []); (ascii "access_token", [])].

(** ** The check *)

Record CaptchaCheck : Type := mkCheck { c_status : text; success_token : text; show_type : text }.

Definition perform_check (s : Session) (token fp hash answer cursor debug_info : text) : prog (result CaptchaCheck CaptchaFailure) :=
  response <-? request s (ascii "captchaNotRobot.check")
    [(ascii "session_token", token); (ascii "domain", ascii "vk.com"); (ascii "adFp", []); (ascii "accelerometer", ascii "[]");
     (ascii "gyroscope", ascii "[]"); (ascii "motion", ascii "[]"); (ascii "cursor", cursor); (ascii "taps", ascii "[]");
     (ascii "connectionRtt", ascii "[]"); (ascii "connectionDownlink", ascii "[]"); (ascii "browser_fp", fp); (ascii "hash", hash);
     (ascii "answer", base64_encode answer); (ascii "debug_info", debug_info); (ascii "access_token", [])] ;;
  Done (match jget response (ascii "response") with
    | None => Err CheckInvalid
    | Some raw =>
        let check := mkCheck (string_value (jget raw (ascii "status"))) (string_value (jget raw (ascii "success_token")))
          (string_value (jget raw (ascii "show_captcha_type"))) in
        if nonempty (c_status check) then Ok check else Err StatusMissing
    end).

(** [device_info], and the same choice in [solve_checkbox]. *)
Definition device_info (saved : option SavedProfile) : text :=
  match saved with
  | Some p => if nonempty (trim (device_json p)) then device_json p else DEVICE_INFO
  | None => DEVICE_INFO
  end.

(** What a checkbox makes of its check. *)
Definition checkbox_outcome (c : CaptchaCheck) : result text CaptchaFailure :=
  if nonempty (show_type c) && negb (eq_ignore_ascii_case (show_type c) (ascii "checkbox")) then Err (ShowTypeMismatch (show_type c))
  else if eq_ignore_ascii_case (c_status c) (ascii "error_limit") then Err RateLimit
  else if eq_ignore_ascii_case (c_status c) (ascii "bot") then Err BotChallenge
  else if negb (eq_ignore_ascii_case (c_status c) (ascii "ok")) then Err (Rejected (c_status c))
  else if nonempty (success_token c) then Ok (success_token c) else Err TokenMissing.

Definition solve_checkbox (s : Session) (token fp hash debug_info : text) : prog (result text CaptchaFailure) :=
  _ <-? request s (ascii "captchaNotRobot.componentDone")
    [(ascii "session_token", token); (ascii "domain", ascii "vk.com"); (ascii "adFp", []); (ascii "browser_fp", fp);
     (ascii "device", device_info (saved_profile s)); (ascii "access_token", [])] ;;
  cancelled <- call (Pause 400 650) ;;
  if (cancelled : bool) then Done (Err Cancelled) else
  check <-? perform_check s token fp hash (ascii "{}") (ascii "[]") debug_info ;;
  Done (checkbox_outcome check).

(** ** What these requests are *)

(** A request of [request]: a form to a method of [api.vk.ru]. *)
Definition method_request (names : list text) (r : Request) : Prop :=
  method r = POST /\ exists name values, name ∈ names /\ url r = method_url name /\ body r = Some (encode_form values).

Definition any_result {A} (_ : nat) (_ : A) : Prop := True.

Lemma wp_raw P (Q : nat -> result bytes CaptchaFailure -> Prop) n s m endpoint form extra :
  (forall h, P (match form with
      | Some values => mkRequest m endpoint h (Some (encode_form values))
      | None => mkRequest m endpoint h None
      end)) ->
  (forall r, Q n r) -> (forall e, Q (S n) (Err e)) -> wp P Q (S n) (raw s m endpoint form extra).
Proof.
  intros HP HQ Hq. unfold raw. destruct (raw_headers s extra) as [h|]; [|apply Hq]. cbn [bind call wp sent_by].
  split; [destruct form; apply HP|]. intros [response|e] _; apply HQ.
Qed.

Lemma wp_request P (Q : nat -> result value CaptchaFailure -> Prop) n s name values :
  (forall r, method_request [name] r -> P r) -> (forall r, Q n r) -> (forall e, Q (S n) (Err e)) ->
  wp P Q (S n) (request s name values).
Proof.
  intros HP HQ Hq. unfold request. apply wp_bind, wp_raw.
  - intros h. apply HP. split; [done|]. exists name, values. split; [by left|done].
  - intros [b|e]; [|apply HQ]. cbn [ensure wp]. apply HQ.
  - intros e. apply Hq.
Qed.

Lemma wp_perform_check P (Q : nat -> result CaptchaCheck CaptchaFailure -> Prop) n s token fp hash answer cursor debug_info :
  (forall r, method_request [ascii "captchaNotRobot.check"] r -> P r) ->
  (forall r, match r with Ok c => nonempty (c_status c) = true | Err _ => True end -> Q n r) -> (forall e, Q (S n) (Err e)) ->
  wp P Q (S n) (perform_check s token fp hash answer cursor debug_info).
Proof.
  intros HP HQ Hq. unfold perform_check. apply wp_bind, wp_request; [done| |done].
  intros [response|e]; [|by apply HQ]. cbn [wp]. destruct (jget response (ascii "response")) as [raw_|]; [|by apply HQ].
  cbv zeta. destruct (nonempty _) eqn:E; [|by apply HQ]. by apply HQ.
Qed.

(** The same without a budget. *)
Lemma always_request P (Q : result value CaptchaFailure -> Prop) s name values :
  (forall r, method_request [name] r -> P r) -> (forall r, Q r) -> always P Q (request s name values).
Proof. intros HP HQ. by apply (wp_always P Q 1), wp_request. Qed.

Lemma always_perform_check P (Q : result CaptchaCheck CaptchaFailure -> Prop) s token fp hash answer cursor debug_info :
  (forall r, method_request [ascii "captchaNotRobot.check"] r -> P r) ->
  (forall r, match r with Ok c => nonempty (c_status c) = true | Err _ => True end -> Q r) ->
  always P Q (perform_check s token fp hash answer cursor debug_info).
Proof. intros HP HQ. apply (wp_always P Q 1), wp_perform_check; [done|done|]. intros e. by apply HQ. Qed.

(** A checkbox asks for two things at most and ends in a token, which is not
    empty, or a failure. *)
Lemma wp_solve_checkbox s token fp hash debug_info :
  wp (method_request [ascii "captchaNotRobot.componentDone"; ascii "captchaNotRobot.check"])
    (fun _ r => match r with Ok t => nonempty t = true | Err _ => True end) 2 (solve_checkbox s token fp hash debug_info).
Proof.
  assert (forall l name, name ∈ l -> forall r, method_request [name] r -> method_request l r) as Hin.
  { intros l name Hn r (Hm & n & values & Hx & Hu & Hb). apply list_elem_of_singleton in Hx as ->. split; [done|]. by exists name, values. }
  unfold solve_checkbox. apply wp_bind, wp_request; [apply Hin; by left| |done].
  intros [v|e]; [|done]. apply wp_bind. cbn [call wp sent_by]. intros [] _; [done|].
  apply wp_bind, wp_perform_check; [apply Hin; right; by left| |done].
  intros [c|e] _; [|done]. cbn [wp]. unfold checkbox_outcome. repeat case_match; simplify_eq/=; done.
Qed.
End Client.
