(* ===== verification/CaptchaSlider.v ===== *)
(** * CaptchaSlider: putting a shuffled picture back together

    Models [captcha_slider.rs]: the numbers of a puzzle, the swaps of tiles, the
    rectangles and samples of a picture, the seam scores and the ranking of the
    guesses, and the attempts. A picture is its size and its pixels; the
    floating-point score of [seam_score_rgb_text] is a class, and the path of the
    cursor, which [build_cursor] draws at random, a call to the outside. *)

From Stdlib Require Import Strings.String Sorting.Sorted.
From S2P Require Import Prelude Bytes Text Web Profiles WebClient CaptchaPage CaptchaClient.

Definition MAX_SLIDER_GRID : Z := 16.

(** ** The numbers *)

Definition pop_last (l : list Z) : option Z * list Z := (last l, take (length l - 1) l).

(** The grid's size, the swaps and the attempts. *)
Definition split_steps (steps : list Z) : option (Z * list Z * Z) :=
  if zlen steps <? 3 then None else
  match steps with
  | [] => None
  | size :: tail =>
      if (size =? 0) || (MAX_SLIDER_GRID <? size) then None else
      let '(attempts, tail) :=
        if negb (zlen tail mod 2 =? 0) then let '(x, tail) := pop_last tail in (default 4 x, tail) else (4, tail) in
      let attempts := if attempts =? 0 then 4 else attempts in
      if (zlen tail =? 0) || negb (zlen tail mod 2 =? 0) then None else Some (size, tail, attempts)
  end.

(** [mapping.swap(a, b)], which panics out of range. *)
Definition swap_at (l : list Z) (a b : Z) : res (list Z) :=
  match l !! Z.to_nat a, l !! Z.to_nat b with
  | Some x, Some y => Ret (<[Z.to_nat b := x]> (<[Z.to_nat a := y]> l))
  | _, _ => Panic
  end.

Fixpoint swap_all (tile_count : Z) (swaps mapping : list Z) : res (option (list Z)) :=
  match swaps with
  | a :: b :: swaps =>
      if (tile_count <=? a) || (tile_count <=? b) then Ret None
      else mapping ← swap_at mapping a b; swap_all tile_count swaps mapping
  | _ => Ret (Some mapping)
  end.

Definition identity (n : Z) : list Z := map Z.of_nat (seq 0 (Z.to_nat n)).

Definition apply_swaps (grid_size : Z) (swaps : list Z) : res (option (list Z)) :=
  match checked_mul 64 grid_size grid_size with
  | None => Ret None
  | Some tile_count =>
      if tile_count =? 0 then Ret None
      else if negb (zlen swaps mod 2 =? 0) then Ret None
      else swap_all tile_count swaps (identity tile_count)
  end.

(** ** Pictures *)

Record Pixel : Type := mkPixel { red : Z; green : Z; blue : Z }.

(** A picture; [get_pixel] panics outside of it. *)
Record Image : Type := mkImage { width : Z; height : Z; pixel_at : Z -> Z -> Pixel }.
Definition get_pixel (image : Image) (x y : Z) : res Pixel :=
  if between 0 (width image - 1) x && between 0 (height image - 1) y then Ret (pixel_at image x y) else Panic.

Definition image_ok (image : Image) : Prop :=
  is_u 32 (width image) /\ is_u 32 (height image)
  /\ forall x y, is_byte (red (pixel_at image x y)) /\ is_byte (green (pixel_at image x y)) /\ is_byte (blue (pixel_at image x y)).

(** Arithmetic of [u32] wraps, as in a release build. *)
Definition add32 := wrapping_add 32.
Definition sub32 := wrapping_sub 32.
Definition mul32 := wrapping_mul 32.

Record Rect : Type := mkRect { min_x : Z; min_y : Z; max_x : Z; max_y : Z }.
Definition rect_width (r : Rect) : Z := sub32 (max_x r) (min_x r).
Definition rect_height (r : Rect) : Z := sub32 (max_y r) (min_y r).

Definition tile_rect (image : Image) (grid_size index : Z) : Rect :=
  let column := index mod grid_size in
  let row := index / grid_size in
  mkRect (mul32 column (width image) / grid_size) (mul32 row (height image) / grid_size)
    (mul32 (add32 column 1) (width image) / grid_size) (mul32 (add32 row 1) (height image) / grid_size).

Definition sample (image : Image) (destination source : Rect) (x y : Z) : res Pixel :=
  let w := Z.max (rect_width destination) 1 in
  let h := Z.max (rect_height destination) 1 in
  let source_x := Z.min (add32 (min_x source) (mul32 (sub32 x (min_x destination)) (rect_width source) / w)) (saturating_sub (width image) 1) in
  let source_y := Z.min (add32 (min_y source) (mul32 (sub32 y (min_y destination)) (rect_height source) / h)) (saturating_sub (height image) 1) in
  get_pixel image source_x source_y.

Definition luma (p : Pixel) : Z := (299 * red p + 587 * green p + 114 * blue p) / 1000.
Definition abs_diff (a b : Z) : Z := Z.abs (a - b).
Definition pixel_diff (l r : Pixel) : Z := abs_diff (red l) (red r) + abs_diff (green l) (green r) + abs_diff (blue l) (blue r).

(** ** Scores *)

(** [mapping[index]], and the fold over a range whose body may panic. *)
Definition tile_of (mapping : list Z) (i : Z) : res Z := match mapping !! Z.to_nat i with Some t => Ret t | None => Panic end.

Fixpoint fold_upto {A} (n : nat) (from : Z) (f : A -> Z -> res A) (a : A) : res A :=
  match n with O => Ret a | S n => a ← f a from; fold_upto n (from + 1) f a end.
Definition for_range {A} (n : Z) (f : A -> Z -> res A) (a : A) : res A := fold_upto (Z.to_nat n) 0 f a.

(** The two loops over the seams, which both scores share: every pair of
    samples on the two sides of a seam, with the row of a vertical seam. *)
Inductive SeamSide : Type := Vertical (y : Z) | Horizontal.

Definition vertical_seam {A} (image : Image) (grid_size : Z) (mapping : list Z) (f : A -> SeamSide -> Pixel -> Pixel -> A)
    (row column : Z) (a : A) : res A :=
  let left_index := row * grid_size + column in
  let right_index := left_index + 1 in
  let left_destination := tile_rect image grid_size left_index in
  let right_destination := tile_rect image grid_size right_index in
  left_tile ← tile_of mapping left_index;
  right_tile ← tile_of mapping right_index;
  let left_source := tile_rect image grid_size left_tile in
  let right_source := tile_rect image grid_size right_tile in
  for_range (Z.min (rect_height left_destination) (rect_height right_destination)) (fun a offset =>
    let y := add32 (min_y left_destination) offset in
    l ← sample image left_destination left_source (sub32 (max_x left_destination) 1) y;
    r ← sample image right_destination right_source (min_x right_destination) y;
    Ret (f a (Vertical y) l r)) a.

Definition horizontal_seam {A} (image : Image) (grid_size : Z) (mapping : list Z) (f : A -> SeamSide -> Pixel -> Pixel -> A)
    (row column : Z) (a : A) : res A :=
  let top_index := row * grid_size + column in
  let bottom_index := (row + 1) * grid_size + column in
  let top_destination := tile_rect image grid_size top_index in
  let bottom_destination := tile_rect image grid_size bottom_index in
  top_tile ← tile_of mapping top_index;
  bottom_tile ← tile_of mapping bottom_index;
  let top_source := tile_rect image grid_size top_tile in
  let bottom_source := tile_rect image grid_size bottom_tile in
  for_range (Z.min (rect_width top_destination) (rect_width bottom_destination)) (fun a offset =>
    let x := add32 (min_x top_destination) offset in
    t ← sample image top_destination top_source x (sub32 (max_y top_destination) 1);
    b ← sample image bottom_destination bottom_source x (min_y bottom_destination);
    Ret (f a Horizontal t b)) a.

Definition seams {A} (image : Image) (grid_size : Z) (mapping : list Z) (f : A -> SeamSide -> Pixel -> Pixel -> A) (a : A) : res A :=
  a ← for_range grid_size (fun a row =>
        for_range (saturating_sub grid_size 1) (fun a column => vertical_seam image grid_size mapping f row column a) a) a;
  for_range (saturating_sub grid_size 1) (fun a row =>
    for_range grid_size (fun a column => horizontal_seam image grid_size mapping f row column a) a) a.

Definition seam_score_luma (image : Image) (grid_size : Z) (mapping : list Z) : res Z :=
  seams image grid_size mapping (fun score _ l r => wrapping_add 64 score (abs_diff (luma l) (luma r))) 0.

(** The floating-point part: a score with its start, the two additions (for a
    row, or not, of a difference in blue) and its order, which no two scores need
    have. *)
Class Floats : Type := {
  score : Type;
  zero_score : score;
  add_vertical : Z -> score -> Z -> Z -> score;
  add_horizontal : score -> Z -> score;
  partial_cmp : score -> score -> option comparison;
}.

Section Scores.
Context `{Floats}.

Definition seam_score_rgb_text (image : Image) (grid_size : Z) (mapping : list Z) : res (Z * score) :=
  seams image grid_size mapping (fun s side l r =>
    (wrapping_add 64 (fst s) (pixel_diff l r),
     match side with
     | Vertical y => add_vertical (height image) (snd s) y (abs_diff (blue l) (blue r))
     | Horizontal => add_horizontal (snd s) (abs_diff (blue l) (blue r))
     end)) (0, zero_score).

(** ** Ranking *)

Record SliderGuess : Type := mkGuess {
  index : Z;
  g_swaps : list Z;
  score_luma : Z;
  score_rgb : Z;
  score_text : score;
  consensus_rank : Z;
}.
Definition set_scores (rgb : Z) (t : score) (g : SliderGuess) : SliderGuess :=
  mkGuess (index g) (g_swaps g) (score_luma g) rgb t (consensus_rank g).
Definition set_rank (r : Z) (g : SliderGuess) : SliderGuess :=
  mkGuess (index g) (g_swaps g) (score_luma g) (score_rgb g) (score_text g) r.

(** A stable sort: an element goes behind those it is not less than. *)
Section Sorting.
Context {A : Type} (less : A -> A -> bool).
Fixpoint insert_sorted (x : A) (l : list A) : list A :=
  match l with [] => [x] | y :: l => if less x y then x :: y :: l else y :: insert_sorted x l end.
Definition sort_by (l : list A) : list A := foldl (fun sorted x => insert_sorted x sorted) [] l.
End Sorting.

Definition lex (c : comparison) (d : comparison) : comparison := match c with Eq => d | c => c end.
Definition is_lt (c : comparison) : bool := match c with Lt => true | _ => false end.

Definition luma_less (l r : SliderGuess) : bool := is_lt (lex (score_luma l ?= score_luma r) (index l ?= index r)).
Definition rgb_less (l r : SliderGuess) : bool := is_lt (lex (score_rgb l ?= score_rgb r) (index l ?= index r)).
Definition text_less (l r : SliderGuess) : bool :=
  is_lt (lex (default Eq (partial_cmp (score_text l) (score_text r))) (index l ?= index r)).
Definition final_less (l r : SliderGuess) : bool :=
  is_lt (lex (consensus_rank l ?= consensus_rank r) (lex (score_luma l ?= score_luma r) (index l ?= index r))).

(** The place of a guess in an order, zero for one that has none. *)
Definition rank_in (order : list SliderGuess) (g : SliderGuess) : option Z :=
  match position (fun o => index o =? index g) order with Some i => Some (Z.of_nat i) | None => None end.

Fixpoint first_stage (image : Image) (grid_size : Z) (swaps : list Z) (n : nat) (i : Z) : res (option (list SliderGuess)) :=
  match n with
  | O => Ret (Some [])
  | S n =>
      let active := take (Z.to_nat (Z.min (2 * i) (zlen swaps))) swaps in
      mapping ← apply_swaps grid_size active;
      match mapping with
      | None => Ret None
      | Some mapping =>
          luma ← seam_score_luma image grid_size mapping;
          rest ← first_stage image grid_size swaps n (i + 1);
          Ret (match rest with Some rest => Some (mkGuess i active luma 0 zero_score 0 :: rest) | None => None end)
      end
  end.

Fixpoint second_stage (image : Image) (grid_size : Z) (chosen : list SliderGuess) : res (option (list SliderGuess)) :=
  match chosen with
  | [] => Ret (Some [])
  | g :: chosen =>
      mapping ← apply_swaps grid_size (g_swaps g);
      match mapping with
      | None => Ret None
      | Some mapping =>
          s ← seam_score_rgb_text image grid_size mapping;
          rest ← second_stage image grid_size chosen;
          Ret (match rest with Some rest => Some (set_scores (fst s) (snd s) g :: rest) | None => None end)
      end
  end.

(** The guess with its scores of the second stage, when it was in it. *)
Definition rescored (chosen : list SliderGuess) (g : SliderGuess) : SliderGuess :=
  default g (List.find (fun c => index c =? index g) chosen).

Definition consensus (count : Z) (luma_order rgb_order text_order : list SliderGuess) (g : SliderGuess) : SliderGuess :=
  let base := default 0 (rank_in luma_order g) in
  set_rank (match rank_in rgb_order g with
            | Some r => base + (r + default 0 (rank_in text_order g))
            | None => base + count
            end) g.

Definition rank_guesses (image : Image) (grid_size : Z) (swaps : list Z) : res (option (list SliderGuess)) :=
  let count := zlen swaps / 2 in
  if count =? 0 then Ret None else
  first ← first_stage image grid_size swaps (Z.to_nat count) 1;
  match first with
  | None => Ret None
  | Some guesses =>
      let luma_order := sort_by luma_less guesses in
      second ← second_stage image grid_size (take (Z.to_nat (Z.min count 12)) luma_order);
      match second with
      | None => Ret None
      | Some chosen =>
          let rgb_order := sort_by rgb_less chosen in
          let text_order := sort_by text_less chosen in
          Ret (Some (sort_by final_less (map (fun g => consensus count luma_order rgb_order text_order (rescored chosen g)) guesses)))
      end
  end.
End Scores.

(** ** The attempts *)

(** [image]'s decoder. *)
Class Pictures : Type := { load_image : bytes -> option Image; swaps_json : list Z -> text }.

Record SliderPuzzle : Type := mkPuzzle { p_image : Image; size : Z; p_swaps : list Z; attempts : Z }.

Section Slider.
Context `{Json} `{Headers} `{Device} `{Base64} `{Floats} `{Pictures}.

Definition parse_number (v : value) : option Z :=
  match view v with
  | JNumber n => as_u64 n
  | JString s => parse_usize (trim s)
  | _ => None
  end.

(** [response_object] and [parse_puzzle] *)
Definition parse_puzzle (raw : value) : result SliderPuzzle CaptchaFailure :=
  match jget raw (ascii "response") with
  | None => Err SliderContent
  | Some response =>
      if negb (is_object response) then Err SliderContent else
      let status := string_value (jget response (ascii "status")) in
      if negb (eq_ignore_ascii_case status (ascii "ok")) then Err (Rejected status) else
      let raw_image := string_value (jget response (ascii "image")) in
      if negb (nonempty raw_image) then Err SliderImage else
      match bind_opt (jget response (ascii "steps")) as_array with
      | None => Err SliderNumbers
      | Some raw_steps =>
          match bind_opt (all_some (map parse_number raw_steps)) split_steps with
          | None => Err SliderNumbers
          | Some (size, swaps, attempts) =>
              match bind_opt (base64_decode raw_image) load_image with
              | None => Err SliderImage
              | Some image => Ok (mkPuzzle image size swaps attempts)
              end
          end
      end
  end.

(** The answer of an attempt: a token, an end, or the next guess. *)
Definition attempt_outcome (c : CaptchaCheck) : option (result text CaptchaFailure) :=
  if eq_ignore_ascii_case (c_status c) (ascii "ok") then Some (if nonempty (success_token c) then Ok (success_token c) else Err TokenMissing)
  else if eq_ignore_ascii_case (c_status c) (ascii "error_limit") then Some (Err RateLimit)
  else None.

Fixpoint try_guesses (s : Session) (token fp hash debug_info : text) (total : Z) (guesses : list SliderGuess)
    : prog (result text CaptchaFailure) :=
  match guesses with
  | [] => Done (Err GuessesExhausted)
  | guess :: guesses =>
      cursor <- call (NewCursor (index guess) total) ;;
      check <-? perform_check s token fp hash (swaps_json (g_swaps guess)) cursor debug_info ;;
      match attempt_outcome check with
      | Some r => Done r
      | None => try_guesses s token fp hash debug_info total guesses
      end
  end.

Definition solve_slider (s : Session) (token fp hash settings debug_info : text) : prog (result text CaptchaFailure) :=
  response <-? request s (ascii "captchaNotRobot.getContent")
    [(ascii "session_token", token); (ascii "domain", ascii "vk.com"); (ascii "adFp", []); (ascii "access_token", []);
     (ascii "captcha_settings", settings)] ;;
  puzzle <-? Done (parse_puzzle response) ;;
  match rank_guesses (p_image puzzle) (size puzzle) (p_swaps puzzle) with
  | Panic => Done (Err Panics)
  | Ret None => Done (Err SliderNumbers)
  | Ret (Some guesses) =>
      let limit := Z.min (attempts puzzle) (zlen guesses) in
      if limit =? 0 then Done (Err NoAttempts) else
      _ <-? request s (ascii "captchaNotRobot.componentDone")
        [(ascii "session_token", token); (ascii "domain", ascii "vk.com"); (ascii "adFp", []); (ascii "access_token", []);
         (ascii "browser_fp", fp); (ascii "device", device_info (saved_profile s))] ;;
      try_guesses s token fp hash debug_info (zlen guesses) (take (Z.to_nat limit) guesses)
  end.
End Slider.

(** ** Swapping tiles permutes them *)

Lemma swap_at_ok l a b : 0 <= a < zlen l -> 0 <= b < zlen l -> exists l', swap_at l a b = Ret l' /\ Permutation l' l.
Proof.
  intros Ha Hb. unfold swap_at, zlen in *.
  destruct (lookup_lt_is_Some_2 l (Z.to_nat a) ltac:(lia)) as [x Hx]. destruct (lookup_lt_is_Some_2 l (Z.to_nat b) ltac:(lia)) as [y Hy].
  rewrite Hx, Hy. eexists. split; [reflexivity|].
  destruct (decide (Z.to_nat a = Z.to_nat b)) as [E|Hne].
  - rewrite E in *. rewrite list_insert_insert_eq, list_insert_id; [done|congruence].
  - set (l1 := <[Z.to_nat a:=y]> l). assert (l1 !! Z.to_nat b = Some y) as Hy1 by (unfold l1; by rewrite list_lookup_insert_ne).
    assert (Permutation (y :: <[Z.to_nat b:=x]> l1) (x :: l1)) as H1.
    { rewrite <- (take_drop_middle l1 _ _ Hy1). rewrite insert_app_r_alt by (rewrite length_take; lia).
      rewrite length_take_le by (apply lookup_lt_Some in Hy1; lia). rewrite Nat.sub_diag. cbn [insert list_insert].
      rewrite <- !Permutation_middle. apply perm_swap. }
    assert (Permutation (x :: l1) (y :: l)) as H2.
    { unfold l1. rewrite <- (take_drop_middle l _ _ Hx). rewrite insert_app_r_alt by (rewrite length_take; lia).
      rewrite length_take_le by (apply lookup_lt_Some in Hx; lia). rewrite Nat.sub_diag. cbn [insert list_insert].
      rewrite <- !Permutation_middle. apply perm_swap. }
    apply Permutation_cons_inv with y. by rewrite H1.
Qed.

(** A list of pairs of tiles. *)
Definition in_grid (tile_count : Z) (swaps : list Z) : Prop := Forall (fun x => x < tile_count) swaps.

Lemma swap_all_ok tile_count swaps : forall mapping,
  Forall (fun x => 0 <= x) swaps -> zlen mapping = tile_count -> zlen swaps mod 2 = 0 ->
  exists r, swap_all tile_count swaps mapping = Ret r
    /\ (in_grid tile_count swaps -> exists m, r = Some m /\ Permutation m mapping)
    /\ (~ in_grid tile_count swaps -> r = None).
Proof.
  unfold in_grid. remember (length swaps) as n eqn:En. revert swaps En.
  induction n as [n IH] using lt_wf_ind. intros swaps -> mapping Hp Hm He.
  destruct swaps as [|a [|b swaps]]; cbn [swap_all].
  - eexists. split; [reflexivity|]. split; [by eexists|]. intros Hn. destruct Hn. constructor.
  - exfalso. vm_compute in He. discriminate.
  - apply Forall_cons in Hp as [Ha Hp]. apply Forall_cons in Hp as [Hb Hp].
    destruct (Z.leb_spec tile_count a); cbn [orb].
    { eexists. split; [reflexivity|]. split; [|done]. intros Hf. apply Forall_cons in Hf as [? _]. lia. }
    destruct (Z.leb_spec tile_count b).
    { eexists. split; [reflexivity|]. split; [|done]. intros Hf. apply Forall_cons in Hf as [_ Hf]. apply Forall_cons in Hf as [? _]. lia. }
    destruct (swap_at_ok mapping a b) as (m & -> & Hperm); [lia..|]. rbind.
    destruct (IH (length swaps) ltac:(cbn; lia) swaps eq_refl m Hp) as (r & -> & Hy & Hn).
    { unfold zlen in *. by rewrite Hperm. }
    { rewrite !zlen_cons in He. replace (1 + (1 + zlen swaps)) with (zlen swaps + 1 * 2) in He by lia. by rewrite Z_mod_plus_full in He. }
    exists r. split; [done|]. rewrite !Forall_cons. split.
    + intros (_ & _ & Hf). destruct (Hy Hf) as (m' & -> & Hm'). exists m'. split; [done|]. by rewrite Hm', Hperm.
    + intros Hf. apply Hn. intros Hg. by apply Hf.
Qed.

Lemma length_identity n : length (identity n) = Z.to_nat n.
Proof. unfold identity. by rewrite length_map, length_seq. Qed.

(** For any grid of 1 to 16 tiles a side and any even list of numbers,
    applying the swaps never indexes out of the mapping; it fails exactly when a
    number is no tile of the grid, and otherwise every tile has one place. *)
Lemma apply_swaps_ok grid_size swaps :
  1 <= grid_size <= MAX_SLIDER_GRID -> Forall (fun x => 0 <= x) swaps -> zlen swaps mod 2 = 0 ->
  exists r, apply_swaps grid_size swaps = Ret r
    /\ (in_grid (grid_size * grid_size) swaps -> exists m, r = Some m /\ Permutation m (identity (grid_size * grid_size)))
    /\ (~ in_grid (grid_size * grid_size) swaps -> r = None).
Proof.
  unfold MAX_SLIDER_GRID. intros Hg Hp He. unfold apply_swaps, checked_mul.
  destruct (Z.ltb_spec (grid_size * grid_size) (2 ^ 64)); [|nia].
  destruct (Z.eqb_spec (grid_size * grid_size) 0); [nia|]. rewrite He. change (negb (0 =? 0)) with false. cbn match.
  apply swap_all_ok; [done| |done]. unfold zlen. rewrite length_identity. nia.
Qed.

Example swaps_example : apply_swaps 2 [0; 3; 1; 2] = Ret (Some [3; 2; 1; 0]).
Proof. reflexivity. Qed.

(** ** Scores are read within the picture *)

Definition has_pixels (image : Image) : Prop := 1 <= width image /\ 1 <= height image.

Lemma sample_returns image destination source x y : has_pixels image -> returns (sample image destination source x y).
Proof.
  intros [Hw Hh]. unfold sample, get_pixel, between, saturating_sub. cbv zeta.
  set (a := add32 (min_x source) _). set (b := add32 (min_y source) _).
  assert (0 <= a /\ 0 <= b) as [Ha Hb] by (split; apply wrap_is_u; done).
  destruct (Z.leb_spec 0 (Z.min a (Z.max (width image - 1) 0))); [|lia].
  destruct (Z.leb_spec (Z.min a (Z.max (width image - 1) 0)) (width image - 1)); [|lia].
  destruct (Z.leb_spec 0 (Z.min b (Z.max (height image - 1) 0))); [|lia].
  destruct (Z.leb_spec (Z.min b (Z.max (height image - 1) 0)) (height image - 1)); [|lia]. by eexists.
Qed.

Lemma fold_upto_returns {A} n from (f : A -> Z -> res A) a :
  (forall a i, from <= i < from + Z.of_nat n -> returns (f a i)) -> returns (fold_upto n from f a).
Proof.
  revert from a. induction n as [|n IH]; intros from a Hf; cbn [fold_upto]; [by eexists|].
  destruct (Hf a from ltac:(lia)) as [a' ->]. rbind. apply IH. intros b i Hi. apply Hf. lia.
Qed.

Lemma for_range_returns {A} n (f : A -> Z -> res A) a : (forall a i, 0 <= i < n -> returns (f a i)) -> returns (for_range n f a).
Proof. intros Hf. apply fold_upto_returns. intros b i Hi. apply Hf. lia. Qed.

Lemma tile_of_returns mapping i : 0 <= i < zlen mapping -> returns (tile_of mapping i).
Proof. intros Hi. unfold tile_of, zlen in *. destruct (lookup_lt_is_Some_2 mapping (Z.to_nat i) ltac:(lia)) as [t ->]. by eexists. Qed.

Ltac step_returns := match goal with
  | |- returns (mbind _ ?m) => let H := fresh in assert (returns m) as [? H]; [|rewrite H; rbind]
  end.

Lemma seams_return {A} image grid_size mapping (f : A -> SeamSide -> Pixel -> Pixel -> A) a :
  has_pixels image -> 1 <= grid_size -> zlen mapping = grid_size * grid_size -> returns (seams image grid_size mapping f a).
Proof.
  intros Hi Hg Hm. unfold seams, saturating_sub. step_returns.
  - apply for_range_returns. intros b row Hr. apply for_range_returns. intros c column Hc. unfold vertical_seam.
    step_returns; [apply tile_of_returns; nia|]. step_returns; [apply tile_of_returns; nia|].
    apply for_range_returns. intros d o _. step_returns; [by apply sample_returns|]. step_returns; [by apply sample_returns|]. by eexists.
  - apply for_range_returns. intros b row Hr. apply for_range_returns. intros c column Hc. unfold horizontal_seam.
    step_returns; [apply tile_of_returns; nia|]. step_returns; [apply tile_of_returns; nia|].
    apply for_range_returns. intros d o _. step_returns; [by apply sample_returns|]. step_returns; [by apply sample_returns|]. by eexists.
Qed.

(** ** Ranking keeps every guess *)

Section SortFacts.
Context {A : Type} (less : A -> A -> bool).

Lemma insert_sorted_perm x l : Permutation (insert_sorted less x l) (x :: l).
Proof.
  induction l as [|y l IH]; cbn [insert_sorted]; [done|]. destruct (less x y); [done|]. rewrite IH. apply perm_swap.
Qed.

Lemma sort_by_perm l : Permutation (sort_by less l) l.
Proof.
  unfold sort_by. assert (forall acc, Permutation (foldl (fun sorted x => insert_sorted less x sorted) acc l) (l ++ acc)) as Hf.
  { induction l as [|x l IH]; intros acc; cbn [foldl app]; [done|]. rewrite IH, insert_sorted_perm. by rewrite <- Permutation_middle. }
  rewrite Hf. by rewrite app_nil_r.
Qed.

(** For an order that is total and transitive, the result is in order. *)
Hypothesis asym : forall x y, less x y = true -> less y x = false.
Hypothesis trans : forall x y z, less y x = false -> less z y = false -> less z x = false.

Definition ordered : list A -> Prop := StronglySorted (fun x y => less y x = false).

Lemma insert_ordered x l : ordered l -> ordered (insert_sorted less x l).
Proof.
  intros Hl. induction Hl as [|y l Hl IH Hy]; cbn [insert_sorted]; [repeat constructor|].
  destruct (less x y) eqn:E.
  - constructor; [by constructor|]. constructor; [by apply asym|]. eapply Forall_impl; [exact Hy|].
    intros z Hz. eapply trans; [by apply asym|exact Hz].
  - constructor; [exact IH|]. rewrite insert_sorted_perm. by constructor.
Qed.

Lemma sort_by_ordered l : ordered (sort_by less l).
Proof.
  unfold sort_by. assert (forall acc, ordered acc -> ordered (foldl (fun sorted x => insert_sorted less x sorted) acc l)) as Hf.
  { induction l as [|x l IH]; intros acc Ha; cbn [foldl]; [done|]. apply IH. by apply insert_ordered. }
  apply Hf. constructor.
Qed.
End SortFacts.

Section RankFacts.
Context `{Floats}.

Lemma final_less_spec l r : final_less l r = true <->
  consensus_rank l < consensus_rank r \/ (consensus_rank l = consensus_rank r
    /\ (score_luma l < score_luma r \/ (score_luma l = score_luma r /\ index l < index r))).
Proof.
  unfold final_less, lex, is_lt.
  destruct (Z.compare_spec (consensus_rank l) (consensus_rank r)); try (split; [done|lia]); try (split; [lia|done]).
  destruct (Z.compare_spec (score_luma l) (score_luma r)); try (split; [done|lia]); try (split; [lia|done]).
  destruct (Z.compare_spec (index l) (index r)); split; (done || lia).
Qed.

Lemma final_less_false l r : final_less l r = false <->
  ~ (consensus_rank l < consensus_rank r \/ (consensus_rank l = consensus_rank r
    /\ (score_luma l < score_luma r \/ (score_luma l = score_luma r /\ index l < index r)))).
Proof. rewrite <- final_less_spec. by destruct (final_less l r). Qed.

(** What a guess says: so many pairs of swaps from the front. *)
Definition says (swaps : list Z) (g : SliderGuess) : Prop := g_swaps g = take (Z.to_nat (2 * index g)) swaps.

Lemma first_stage_ok image grid_size swaps n i :
  has_pixels image -> 1 <= grid_size <= MAX_SLIDER_GRID -> Forall (fun x => 0 <= x) swaps -> 0 <= i -> 2 * (i + Z.of_nat n - 1) <= zlen swaps ->
  exists r, first_stage image grid_size swaps n i = Ret r /\
    match r with
    | Some gs => map index gs = map (fun k => i + Z.of_nat k) (seq 0 n) /\ Forall (says swaps) gs
        /\ Forall (fun g => in_grid (grid_size * grid_size) (g_swaps g)) gs
    | None => ~ in_grid (grid_size * grid_size) swaps
    end.
Proof.
  intros Hi Hg Hp. revert i. induction n as [|n IH]; intros i Hi0 Hl; cbn [first_stage].
  { eexists. split; [reflexivity|]. by repeat constructor. }
  rewrite Z.min_l by lia. set (active := take (Z.to_nat (2 * i)) swaps).
  assert (zlen active = 2 * i) as Hla by (unfold active, zlen in *; rewrite length_take; lia).
  destruct (apply_swaps_ok grid_size active) as (r & -> & Hy & Hn); [done|by apply Forall_take| |].
  { rewrite Hla. rewrite Z.mul_comm. apply Z.mod_mul. lia. }
  rbind. destruct r as [mapping|].
  2:{ eexists. split; [reflexivity|]. intros Hall. destruct (Hy (Forall_take _ _ _ Hall)) as (m & E & _). discriminate. }
  destruct (decide (in_grid (grid_size * grid_size) active)) as [Hin|Hno]; [|by specialize (Hn Hno)].
  destruct (Hy Hin) as (m & [= <-] & Hperm).
  destruct (seams_return image grid_size mapping (fun score _ l r => wrapping_add 64 score (abs_diff (luma l) (luma r))) 0 Hi) as [lum Hlum];
    [lia|unfold zlen; rewrite Hperm, length_identity; lia|]. unfold seam_score_luma. rewrite Hlum. rbind.
  destruct (IH (i + 1) ltac:(lia) ltac:(lia)) as (r & -> & Hr). rbind. eexists. split; [reflexivity|]. destruct r as [gs|]; [|done].
  destruct Hr as (Hm & Hs & Hgr). split; [|split; by constructor].
  cbn [map seq index]. rewrite Z.add_0_r. f_equal. rewrite Hm, <- seq_shift, map_map. apply map_ext. intros k. lia.
Qed.

Lemma second_stage_ok image grid_size swaps chosen :
  has_pixels image -> 1 <= grid_size <= MAX_SLIDER_GRID -> Forall (fun x => 0 <= x) swaps ->
  Forall (says swaps) chosen -> Forall (fun g => 0 <= index g /\ 2 * index g <= zlen swaps) chosen ->
  Forall (fun g => in_grid (grid_size * grid_size) (g_swaps g)) chosen ->
  exists gs, second_stage image grid_size chosen = Ret (Some gs) /\ map index gs = map index chosen /\ Forall (says swaps) gs.
Proof.
  intros Hi Hg Hp Hs Hx Hgr. induction chosen as [|g chosen IH]; cbn [second_stage]; [eexists; split; [reflexivity|]; by repeat constructor|].
  apply Forall_cons in Hs as [Hsg Hs], Hx as [[Hx0 Hxl] Hx], Hgr as [Hgg Hgr].
  assert (zlen (g_swaps g) = 2 * index g) as Hlen by (rewrite Hsg; unfold zlen in *; rewrite length_take; lia).
  destruct (apply_swaps_ok grid_size (g_swaps g)) as (r & -> & Hy & _); [done|rewrite Hsg; by apply Forall_take| |].
  { rewrite Hlen, Z.mul_comm. apply Z.mod_mul. lia. }
  rbind. destruct (Hy Hgg) as (mapping & -> & Hperm). unfold seam_score_rgb_text.
  match goal with |- context [seams image grid_size mapping ?f ?a] =>
    destruct (seams_return image grid_size mapping f a Hi) as [sc ->]; [lia|unfold zlen; rewrite Hperm, length_identity; lia|] end.
  rbind. destruct (IH Hs Hx Hgr) as (gs & -> & Hm & Hsg'). rbind. eexists. split; [reflexivity|].
  cbn [map index set_scores]. split; [by rewrite Hm|]. by constructor.
Qed.

(** The scores and the rank of a guess change, and what it says does not. *)
Lemma rescored_ok swaps chosen g : Forall (says swaps) chosen -> says swaps g ->
  index (rescored chosen g) = index g /\ g_swaps (rescored chosen g) = g_swaps g.
Proof.
  intros Hc Hg. unfold rescored. destruct (List.find _ chosen) as [c|] eqn:E; [|done]. cbn [default].
  apply List.find_some in E as [Hin Hx]. apply Z.eqb_eq in Hx. split; [done|].
  rewrite Forall_forall in Hc. rewrite (Hc c), Hg by by apply list_elem_of_In. by rewrite Hx.
Qed.

Lemma split_steps_ok steps grid_size swaps attempts :
  split_steps steps = Some (grid_size, swaps, attempts) -> Forall (fun x => 0 <= x) steps ->
  1 <= grid_size <= MAX_SLIDER_GRID /\ Forall (fun x => 0 <= x) swaps /\ zlen swaps mod 2 = 0 /\ 2 <= zlen swaps /\ 1 <= attempts.
Proof.
  unfold split_steps. destruct (_ <? 3); [done|]. destruct steps as [|size tail]; [done|]. intros E Hp. apply Forall_cons in Hp as [Hsz Ht].
  destruct (Z.eqb_spec size 0); cbn [orb] in E; [done|]. destruct (Z.ltb_spec MAX_SLIDER_GRID size); [done|].
  set (x := if negb (zlen tail mod 2 =? 0) then _ else _) in E.
  assert (Forall (fun x => 0 <= x) (snd x) /\ 0 <= fst x) as [Hs Ha].
  { unfold x, pop_last. destruct (negb _); cbn [fst snd]; [|split; [done|lia]]. split; [by apply Forall_take|].
    destruct (last tail) as [y|] eqn:Ey; cbn [default]; [|lia]. apply last_Some_elem_of in Ey. rewrite Forall_forall in Ht. by apply Ht. }
  destruct x as [a t]. cbn [fst snd] in *. destruct (Z.eqb_spec (zlen t) 0); cbn [orb] in E; [done|].
  destruct (Z.eqb_spec (zlen t mod 2) 0) as [Hev|]; cbn [negb] in E; [|done]. injection E as <- <- <-.
  split; [lia|]. split; [done|]. split; [done|]. pose proof (zlen_nonneg t).
  split; [apply Z.div_exact in Hev; lia|]. destruct (Z.eqb_spec a 0); lia.
Qed.

(** For every puzzle that [split_steps] accepts and any picture with pixels,
    ranking never panics: no tile is looked up outside the grid and no pixel
    outside the picture, also where the grid is finer than the picture or its
    rectangles wrap. It fails exactly when a swap names no tile of the grid.
    Otherwise the guesses are one for every number of swaps from the front, each
    once and none else, in the order of their consensus rank. *)
Lemma guesses_ranked image steps grid_size swaps attempts :
  has_pixels image -> Forall (fun x => 0 <= x) steps -> split_steps steps = Some (grid_size, swaps, attempts) ->
  exists r, rank_guesses image grid_size swaps = Ret r /\
    match r with
    | None => ~ in_grid (grid_size * grid_size) swaps
    | Some guesses => in_grid (grid_size * grid_size) swaps
        /\ Permutation (map index guesses) (map (fun k => 1 + Z.of_nat k) (seq 0 (Z.to_nat (zlen swaps / 2))))
        /\ Forall (says swaps) guesses /\ StronglySorted (fun l r => final_less r l = false) guesses
    end.
Proof.
  intros Hi Hp Hsplit. destruct (split_steps_ok _ _ _ _ Hsplit Hp) as (Hg & Hps & Hev & Hl2 & _).
  unfold rank_guesses. set (count := zlen swaps / 2).
  assert (zlen swaps = 2 * count) as Hcount by (apply Z.div_exact in Hev; lia).
  destruct (Z.eqb_spec count 0); [lia|].
  destruct (first_stage_ok image grid_size swaps (Z.to_nat count) 1 Hi Hg Hps) as (r & -> & Hr); [lia|lia|]. rbind.
  destruct r as [guesses|]; [|by eexists]. destruct Hr as (Hm & Hs & Hgr).
  set (luma_order := sort_by luma_less guesses). set (picked := take (Z.to_nat (Z.min count 12)) luma_order).
  assert (forall Pr : SliderGuess -> Prop, Forall Pr guesses -> Forall Pr picked) as Hpicked.
  { intros Pr Hf. apply Forall_take. unfold luma_order. by rewrite (sort_by_perm luma_less guesses). }
  assert (Forall (fun g => 1 <= index g <= count) guesses) as Hx.
  { apply Forall_forall. intros g Hin. apply (list_elem_of_fmap_2 index) in Hin. change (index <$> guesses) with (map index guesses) in Hin.
    rewrite Hm in Hin. apply list_elem_of_fmap in Hin as (k & -> & Hk). apply elem_of_seq in Hk. lia. }
  destruct (second_stage_ok image grid_size swaps picked Hi Hg Hps (Hpicked _ Hs)) as (chosen & -> & Hmc & Hsc).
  { apply Hpicked. eapply Forall_impl; [exact Hx|]. cbn. intros g Hx'. lia. }
  { by apply Hpicked. }
  rbind. eexists. split; [reflexivity|].
  set (f := fun g => _). assert (forall g, says swaps g -> index (f g) = index g /\ g_swaps (f g) = g_swaps g) as Hf.
  { intros g Hsg. destruct (rescored_ok swaps chosen g Hsc Hsg). unfold f, consensus, set_rank. by cbn [index g_swaps]. }
  assert (in_grid (grid_size * grid_size) swaps) as Hin.
  { assert (exists g, g ∈ guesses /\ index g = count) as (g & Hg1 & Hg2).
    { assert (count ∈ map index guesses) as Hc.
      { rewrite Hm. apply list_elem_of_fmap. exists (Z.to_nat count - 1)%nat. split; [lia|]. apply elem_of_seq. lia. }
      apply list_elem_of_fmap in Hc as (g & -> & Hin). by exists g. }
    rewrite Forall_forall in Hs, Hgr. specialize (Hgr g Hg1). rewrite (Hs g Hg1), Hg2, take_ge in Hgr; [done|unfold zlen in *; lia]. }
  split; [done|]. split; [|split].
  - rewrite (Permutation_map index (sort_by_perm final_less _)), map_map. rewrite <- Hm. apply Permutation_refl', map_ext_in.
    intros g Hgin. apply Hf. rewrite Forall_forall in Hs. apply Hs. by apply list_elem_of_In.
  - rewrite (sort_by_perm final_less (map f guesses)). apply Forall_fmap. eapply Forall_impl; [exact Hs|]. intros g Hsg. cbn.
    destruct (Hf g Hsg) as [H1 H2]. unfold says. rewrite H1, H2. exact Hsg.
  - apply sort_by_ordered.
    + intros x y Hxy. apply final_less_spec in Hxy. apply final_less_false. lia.
    + intros x y z. rewrite !final_less_false. lia.
Qed.
End RankFacts.

(** ** The attempts at a slider *)

Section SliderFacts.
Context `{Json} `{Headers} `{Device} `{Base64} `{Floats} `{Pictures}.

(** A failure that the loop over the kinds of captcha does not act on. *)
Definition final_failure (e : CaptchaFailure) : Prop :=
  match e with BotChallenge | ShowTypeMismatch _ | OutOfTurns => False | _ => True end.

Definition slider_result (r : result text CaptchaFailure) : Prop :=
  match r with Ok t => nonempty t = true | Err e => final_failure e end.

Definition slider_methods : list text :=
  [ascii "captchaNotRobot.getContent"; ascii "captchaNotRobot.componentDone"; ascii "captchaNotRobot.check"].

Lemma method_request_in l name r : name ∈ l -> method_request [name] r -> method_request l r.
Proof. intros Hn (Hm & n & values & Hx & Hu & Hb). apply list_elem_of_singleton in Hx as ->. split; [done|]. by exists name, values. Qed.

(** The failures of requests and checks are final. *)
Lemma always_request_final l s name values (Q : result value CaptchaFailure -> Prop) :
  name ∈ l -> (forall v, Q (Ok v)) -> (forall e, final_failure e -> Q (Err e)) -> always (method_request l) Q (request s name values).
Proof.
  intros Hn HQ Hq. unfold request. apply always_bind. unfold raw. destruct (raw_headers s _) as [h|]; [|by apply Hq].
  cbn [bind call always sent_by]. split; [split; [done|by exists name, values]|]. intros [response|e] _; cbn [always]; [|by apply Hq].
  unfold ensure. destruct (parse_json _); [apply HQ|by apply Hq].
Qed.

Lemma always_check_final l s token fp hash answer cursor debug (Q : result CaptchaCheck CaptchaFailure -> Prop) :
  ascii "captchaNotRobot.check" ∈ l -> (forall c, Q (Ok c)) -> (forall e, final_failure e -> Q (Err e)) ->
  always (method_request l) Q (perform_check s token fp hash answer cursor debug).
Proof.
  intros Hn HQ Hq. unfold perform_check. apply always_bind, always_request_final; [done| |intros e He; by apply Hq].
  intros response. cbn [always]. destruct (jget response _); [|by apply Hq]. cbv zeta. destruct (nonempty _); [apply HQ|by apply Hq].
Qed.

Lemma parse_puzzle_final v e : parse_puzzle v = Err e -> final_failure e.
Proof. unfold parse_puzzle. intros E. repeat case_match; simplify_eq/=; done. Qed.

Lemma always_try_guesses s token fp hash debug total guesses :
  always (method_request slider_methods) slider_result (try_guesses s token fp hash debug total guesses).
Proof.
  induction guesses as [|g guesses IH]; cbn [try_guesses]; [done|]. cbn [bind call always sent_by]. split; [done|]. intros cursor _.
  apply always_bind, always_check_final; [set_solver| |done].
  intros c. unfold attempt_outcome. destruct (eq_ignore_ascii_case _ (ascii "ok")).
  - cbn [always slider_result]. destruct (nonempty _) eqn:E; done.
  - destruct (eq_ignore_ascii_case _ _); [done|exact IH].
Qed.

Lemma always_solve_slider s token fp hash settings debug :
  always (method_request slider_methods) slider_result (solve_slider s token fp hash settings debug).
Proof.
  unfold solve_slider. apply always_bind, always_request_final; [set_solver| |done]. intros response. cbn [bind].
  destruct (parse_puzzle response) as [puzzle|e] eqn:Ep; [|by apply (parse_puzzle_final response)].
  destruct (rank_guesses _ _ _) as [[guesses|]|]; try done. cbv zeta. destruct (_ =? 0); [done|].
  apply always_bind, always_request_final; [set_solver| |done]. intros _. apply always_try_guesses.
Qed.

(** As many checks as the puzzle allows attempts, at most. *)
Lemma wp_try_guesses s token fp hash debug total guesses :
  wp (fun _ => True) (fun _ _ => True) (length guesses) (try_guesses s token fp hash debug total guesses).
Proof.
  induction guesses as [|g guesses IH]; cbn [try_guesses]; [done|]. cbn [bind call wp sent_by length]. intros cursor _.
  apply wp_bind, wp_perform_check; [done| |done]. intros [c|e] _; [|done]. destruct (attempt_outcome c); [done|exact IH].
Qed.
End SliderFacts.

(** ** An evaluated puzzle *)

Definition grey_image : Image := mkImage 3 1 (fun x y => mkPixel (40 * x) y 9).
#[local] Instance blue_scores : Floats :=
  {| score := Z; zero_score := 0; add_vertical _ s _ d := s + d; add_horizontal s d := s + d; partial_cmp a b := Some (a ?= b) |}.

Lemma guesses_ranked_witness :
  exists guesses, rank_guesses grey_image 2 [0; 3; 1; 2] = Ret (Some guesses) /\ Permutation (map index guesses) [1; 2].
Proof.
  destruct (guesses_ranked grey_image [2; 0; 3; 1; 2] 2 [0; 3; 1; 2] 4) as (r & E & Hr).
  - split; vm_compute; discriminate.
  - repeat constructor; discriminate.
  - reflexivity.
  - destruct r as [guesses|].
    + exists guesses. split; [exact E|]. destruct Hr as (_ & Hp & _). exact Hp.
    + exfalso. apply Hr. repeat constructor.
Defined.
