(* ===== verification/CaptchaFlow.v ===== *)
(** * CaptchaFlow: solving a captcha

    Models [solve_once], [solve_attempts] and [CaptchaSolver] of [captcha.rs]: a
    page, its proof of work and its checkbox or slider; attempts with pauses; and
    the chains of the three modes, with the host's WebView. *)

From Stdlib Require Import Strings.String.
From S2P Require Import Prelude Bytes Text TurnCore Web Profiles WebClient CaptchaPage CaptchaClient CaptchaSlider.

Section Flow.
Context `{Json} `{Headers} `{Device} `{Base64} `{Floats} `{Pictures} `{Urls} `{PageScan} `{Sha256}.

(** ** Once *)

(** The address of the script: as it is, or relative to the page. *)
Definition absolute_script (redirect script : text) : text :=
  if starts_with script (ascii "http://") || starts_with script (ascii "https://") then script
  else match join_url redirect script with
       | Some (Some joined) => joined
       | _ => ascii "https://id.vk.com" ++ script
       end.

Definition chosen_fp (saved : option SavedProfile) : prog text :=
  match saved with
  | Some p => if nonempty (trim (browser_fp p)) then Done (browser_fp p) else call RandomHex
  | None => call RandomHex
  end.

(** The settings in the answer to [initSession]: the last slider's. *)
Definition slider_setting (slider : text) (setting : value) : text :=
  if bytes_eqb (string_value (jget setting (ascii "type"))) (ascii "slider") then
    let s := string_value (jget setting (ascii "settings")) in
    if nonempty s then s else string_value (jget setting (ascii "settings_key"))
  else slider.

Definition init_session (s : Session) (captcha : VkCaptchaError) (slider : text) : prog (text * text) :=
  let domain :=
    match bind_opt (query_pairs (redirect_uri captcha)) (find_key (ascii "domain")) with
    | Some d => if nonempty (trim d) then d else ascii "vk.com"
    | None => ascii "vk.com"
    end in
  r <- request s (ascii "captchaNotRobot.initSession")
    [(ascii "session_token", session_token captcha); (ascii "domain", domain); (ascii "lang", ascii "0")] ;;
  Done (match r with
    | Ok v =>
        match jget v (ascii "response") with
        | Some response =>
            (string_value (jget response (ascii "show_captcha_type")),
             foldl slider_setting slider (default [] (bind_opt (jget response (ascii "content_settings")) as_array)))
        | None => ([], slider)
        end
    | Err _ => ([], slider)
    end).

Definition end_session (s : Session) (captcha : VkCaptchaError) (token : text) : prog (result text CaptchaFailure) :=
  _ <- request s (ascii "captchaNotRobot.endSession") (base_values (session_token captcha)) ;;
  Done (Ok token).

(** The loop over the kinds of captcha: a turn solves one, and its failure may
    name another. *)
Fixpoint show_loop (turns : nat) (s : Session) (captcha : VkCaptchaError) (fp hash debug slider show : text) : prog (result text CaptchaFailure) :=
  match turns with
  | O => Done (Err OutOfTurns)
  | S turns =>
      let solved :=
        if bytes_eqb show (ascii "slider") then Some (solve_slider s (session_token captcha) fp hash slider debug)
        else if bytes_eqb show (ascii "checkbox") || negb (nonempty show) then Some (solve_checkbox s (session_token captcha) fp hash debug)
        else None in
      match solved with
      | None => Done (Err (UnsupportedType show))
      | Some solved =>
          r <- solved ;;
          match r with
          | Ok token => end_session s captcha token
          | Err e =>
              if match e with BotChallenge => negb (bytes_eqb show (ascii "slider")) && nonempty slider | _ => false end
              then show_loop turns s captcha fp hash debug slider (ascii "slider")
              else match e with
                   | ShowTypeMismatch other =>
                       if nonempty other then show_loop turns s captcha fp hash debug slider other else Done (Err e)
                   | _ => Done (Err e)
                   end
          end
      end
  end.

(** Two turns are enough: see [captcha_ends]. *)
Definition SHOW_TURNS : nat := 2.

Definition solve_once (only_print : bool) (s : Session) (captcha : VkCaptchaError) : prog (result text CaptchaFailure) :=
  if only_print then Done (Err OnlyPrintUrl) else
  html <-? fetch_html s (redirect_uri captcha) ;;
  page <-? ensure (parse_page html) BadInit ;;
  if negb (nonempty (pow_input page)) then Done (Err NoPowSettings) else
  seen <- call CancelSeen ;;
  match solve_pow (pow_input page) (pow_difficulty page) seen with
  | Panic => Done (Err Panics)
  | Ret (Err e) => Done (Err (PowFails e))
  | Ret (Ok hash) =>
      _ <-? request s (ascii "captchaNotRobot.settings") (base_values (session_token captcha)) ;;
      fp <- chosen_fp (saved_profile s) ;;
      debug <- (if nonempty (debug_info page) then Done (debug_info page) else call NewUuid) ;;
      let '(show, slider) := initial_captcha_state (init page) in
      state <- (if nonempty show then Done (show, slider) else init_session s captcha slider) ;;
      show_loop SHOW_TURNS s captcha fp hash debug (snd state) (fst state)
  end.

(** ** Attempts *)

Fixpoint attempt_loop (n : nat) (only_print : bool) (s : Session) (captcha : VkCaptchaError) (last_error : option CaptchaFailure)
    : prog (result text CaptchaFailure) :=
  match n with
  | O => Done (Err (default Exhausted last_error))
  | S n =>
      r <- solve_once only_print s captcha ;;
      match r with
      | Ok token => Done (Ok token)
      | Err e =>
          cancelled <- call (match e with RateLimit => Pause 5000 5001 | _ => Pause 1500 2700 end) ;;
          if (cancelled : bool) then Done (Err Cancelled) else attempt_loop n only_print s captcha (Some e)
      end
  end.

Definition solve_attempts (only_print : bool) (s : Session) (captcha : VkCaptchaError) (attempts : nat) : prog (result text CaptchaFailure) :=
  if nonempty (session_token captcha) then attempt_loop attempts only_print s captcha None else Done (Err NoSessionToken).

(** ** The WebView and the chains *)

Definition webview (captcha : VkCaptchaError) (mode : text) (timeout : Z) : prog (result text CaptchaFailure) :=
  if negb (nonempty (redirect_uri captcha)) || negb (nonempty (session_token captcha)) then Done (Err ViewIncomplete) else
  answer <- call (ShowWebView mode (redirect_uri captcha) (session_token captcha) timeout) ;;
  Done (match answer with
    | ViewCancelled => Err Cancelled
    | ViewTimedOut => Err ViewTimeout
    | ViewClosed => Err ViewChannelClosed
    | ViewResult result =>
        let result := trim result in
        let lower := to_ascii_lowercase result in
        if negb (nonempty result) then Err ViewEmpty
        else if bytes_eqb lower (ascii "error:timeout") then Err ViewTimeout
        else if starts_with lower (ascii "error:") then Err (ViewFailed result)
        else Ok result
    end).

Fixpoint auto_views (n : nat) (captcha : VkCaptchaError) : prog (result text (option CaptchaFailure)) :=
  match n with
  | O => Done (Err None)
  | S n =>
      r <- webview captcha (ascii "auto") (secs 10) ;;
      match r with
      | Ok token => Done (Ok token)
      | Err _ =>
          cancelled <- call (Pause 250 500) ;;
          if (cancelled : bool) then Done (Err (Some Cancelled)) else auto_views n captcha
      end
  end.

Definition solve_auto (only_print : bool) (s : Session) (captcha : VkCaptchaError) : prog (result text CaptchaFailure) :=
  r <- solve_attempts only_print s captcha 2 ;;
  match r with
  | Ok token => Done (Ok token)
  | Err _ =>
      r <- auto_views 2 captcha ;;
      match r with
      | Ok token => Done (Ok token)
      | Err (Some e) => Done (Err e)
      | Err None =>
          r <- solve_attempts only_print s captcha 1 ;;
          match r with
          | Ok token => Done (Ok token)
          | Err _ => webview captcha (ascii "manual") (secs 60)
          end
      end
  end.

Inductive SolverMode : Type := WebViewMode | RustMode | AutoMode.

(** [CaptchaSolver::new] *)
Definition solver_mode (mode : text) : SolverMode :=
  let mode := to_ascii_lowercase (trim mode) in
  if bytes_eqb mode (ascii "wv") then WebViewMode else if bytes_eqb mode (ascii "rjs") then RustMode else AutoMode.

Definition solve (mode : SolverMode) (only_print : bool) (s : Session) (captcha : VkCaptchaError) : prog (result text CaptchaFailure) :=
  match mode with
  | WebViewMode => webview captcha (ascii "selected") (secs 120)
  | RustMode =>
      r <- solve_attempts only_print s captcha 2 ;;
      match r with Ok token => Done (Ok token) | Err _ => webview captcha (ascii "auto") (secs 10) end
  | AutoMode => solve_auto only_print s captcha
  end.
End Flow.

(** ** Solving ends, and asks only where it should *)

Section FlowFacts.
Context `{Json} `{Headers} `{Device} `{Base64} `{Floats} `{Pictures} `{Urls} `{PageScan} `{Sha256}.

Definition captcha_methods : list text :=
  [ascii "captchaNotRobot.settings"; ascii "captchaNotRobot.initSession"; ascii "captchaNotRobot.endSession";
   ascii "captchaNotRobot.getContent"; ascii "captchaNotRobot.componentDone"; ascii "captchaNotRobot.check"].

(** The page of the captcha, or a method of the service. *)
Definition captcha_request (captcha : VkCaptchaError) (r : Request) : Prop :=
  (method r = GET /\ url r = redirect_uri captcha /\ body r = None) \/ method_request captcha_methods r.

(** What solving ends in: a token that is not empty, or a failure. *)
Definition captcha_result (r : result text CaptchaFailure) : Prop :=
  match r with Ok t => nonempty t = true | Err e => e <> OutOfTurns end.

Lemma final_not_out e : final_failure e -> e <> OutOfTurns.
Proof. by intros He ->. Qed.

Lemma always_api s name values (Q : result value CaptchaFailure -> Prop) captcha :
  name ∈ captcha_methods -> (forall v, Q (Ok v)) -> (forall e, final_failure e -> Q (Err e)) ->
  always (captcha_request captcha) Q (request s name values).
Proof.
  intros Hn HQ Hq. eapply (always_mono (method_request captcha_methods)); [by right|done|]. by apply always_request_final.
Qed.

Lemma always_end_session s captcha token : nonempty token = true ->
  always (captcha_request captcha) captcha_result (end_session s captcha token).
Proof. intros Ht. unfold end_session. apply always_bind, always_api; [set_solver|done|done]. Qed.

Lemma always_slider s captcha fp hash slider debug :
  always (captcha_request captcha) slider_result (solve_slider s (session_token captcha) fp hash slider debug).
Proof.
  eapply always_mono; [|done|apply always_solve_slider]. intros r (Hm & n & values & Hn & Hx). right.
  split; [done|]. exists n, values. split; [|done]. unfold slider_methods, captcha_methods in *. set_solver.
Qed.

(** What a checkbox fails with: never the end of a loop, and a mismatch names
    another kind than the checkbox, and one at all. *)
Definition checkbox_result (r : result text CaptchaFailure) : Prop :=
  match r with
  | Ok t => nonempty t = true
  | Err (ShowTypeMismatch other) => nonempty other = true /\ other <> ascii "checkbox"
  | Err e => e <> OutOfTurns
  end.

Lemma always_checkbox s captcha fp hash debug :
  always (captcha_request captcha) checkbox_result (solve_checkbox s (session_token captcha) fp hash debug).
Proof.
  unfold solve_checkbox. apply always_bind, always_api; [set_solver| |].
  2:{ intros e He. cbn [always checkbox_result]. by destruct e. }
  intros _. cbn [bind call always sent_by]. split; [done|]. intros [] _; [done|].
  apply always_bind. eapply always_mono; [by right|intros r Hr; exact Hr|].
  apply always_check_final; [set_solver| |].
  - intros c. cbn [always]. unfold checkbox_outcome.
    destruct (nonempty (show_type c)) eqn:En; cbn [andb].
    2:{ repeat case_match; simplify_eq/=; done. }
    destruct (eq_ignore_ascii_case (show_type c) (ascii "checkbox")) eqn:Ei; cbn [negb]; [repeat case_match; simplify_eq/=; done|].
    split; [done|]. intros E. rewrite E in Ei. vm_compute in Ei. discriminate.
  - intros e He. cbn [always checkbox_result]. by destruct e.
Qed.

(** The second kind is always the last. *)
Lemma always_last_turn n s captcha fp hash debug slider show :
  nonempty show = true -> show <> ascii "checkbox" ->
  always (captcha_request captcha) captcha_result (show_loop (S n) s captcha fp hash debug slider show).
Proof.
  intros Hne Hnc. cbn [show_loop]. cbv zeta. destruct (bytes_eqb show (ascii "slider")) eqn:Es.
  - apply always_bind. eapply always_mono; [done| |apply always_slider]. intros [t|e] Hr; [by apply always_end_session|].
    cbn [slider_result] in Hr. by destruct e.
  - destruct (bytes_eqb show (ascii "checkbox")) eqn:Ec; [by apply bytes_eqb_eq in Ec|]. by rewrite Hne.
Qed.

Lemma always_show_loop s captcha fp hash debug slider show :
  always (captcha_request captcha) captcha_result (show_loop SHOW_TURNS s captcha fp hash debug slider show).
Proof.
  destruct (bytes_eqb show (ascii "slider")) eqn:Es.
  { apply bytes_eqb_eq in Es as ->. by apply always_last_turn. }
  unfold SHOW_TURNS. remember 1%nat as one eqn:E1. cbn [show_loop]. cbv zeta. rewrite Es. destruct (_ || _); [|done].
  apply always_bind. eapply always_mono; [done| |apply always_checkbox]. intros [t|e] Hr; [by apply always_end_session|].
  subst one. cbn [checkbox_result] in Hr. destruct e; try done.
  - cbn [negb andb]. destruct (nonempty slider); [by apply always_last_turn|done].
  - destruct Hr as [Hn Hc]. rewrite Hn. by apply always_last_turn.
Qed.

Lemma always_solve_once only_print s captcha :
  always (captcha_request captcha) captcha_result (solve_once only_print s captcha).
Proof.
  unfold solve_once. destruct only_print; [done|]. apply always_bind. unfold fetch_html. apply always_bind. unfold raw.
  destruct (raw_headers s _); [|done]. cbn [bind call always sent_by]. split; [by left|]. intros [response|e] _; [|done].
  cbn [always]. destruct (Protocol.utf8_valid _); [|done]. cbn [bind ensure]. destruct (parse_page _) as [page|]; [|done].
  destruct (negb (nonempty (pow_input page))); [done|]. cbn [bind call always sent_by]. split; [done|]. intros seen _.
  destruct (solve_pow _ _ _) as [[hash|e']|]; [|done|done]. apply always_bind, always_api; [set_solver| |intros e He; by apply final_not_out].
  intros _. apply always_bind.
  assert (forall Q : text -> Prop, (forall t, Q t) -> always (captcha_request captcha) Q (chosen_fp (saved_profile s))) as Hfp.
  { intros Q HQ. unfold chosen_fp. destruct (saved_profile s) as [p|]; [destruct (nonempty _)|]; cbn; auto. }
  apply Hfp. intros fp. apply always_bind.
  assert (forall Q : text -> Prop, (forall t, Q t) ->
    always (captcha_request captcha) Q (if nonempty (debug_info page) then Done (debug_info page) else call NewUuid)) as Hdebug.
  { intros Q HQ. destruct (nonempty _); cbn; auto. }
  apply Hdebug. intros debug. destruct (initial_captcha_state (init page)) as [show slider].
  apply always_bind. destruct (nonempty show); [apply always_show_loop|]. unfold init_session.
  apply always_bind, always_api; [set_solver| |]; intros; apply always_show_loop.
Qed.

Lemma always_solve_attempts only_print s captcha n :
  always (captcha_request captcha) captcha_result (solve_attempts only_print s captcha n).
Proof.
  unfold solve_attempts. destruct (nonempty _); [|done].
  assert (forall last, match last with Some e => e <> OutOfTurns | None => True end ->
    always (captcha_request captcha) captcha_result (attempt_loop n only_print s captcha last)) as Hl; [|by apply Hl].
  induction n as [|n IH]; intros last_error Hlast; cbn [attempt_loop].
  { cbn [always captcha_result]. by destruct last_error. }
  apply always_bind. eapply always_mono; [done| |apply always_solve_once]. intros [t|e] Hr; [done|]. cbn [captcha_result] in Hr.
  assert (forall lo hi, always (captcha_request captcha) captcha_result
    (cancelled <- call (Pause lo hi) ;; if (cancelled : bool) then Done (Err Cancelled) else attempt_loop n only_print s captcha (Some e))) as Hp.
  { intros lo hi. cbn [bind call always sent_by]. split; [done|]. intros [] _; [done|by apply IH]. }
  destruct e; apply Hp.
Qed.

Lemma always_webview captcha mode timeout : always (captcha_request captcha) captcha_result (webview captcha mode timeout).
Proof.
  unfold webview. destruct (_ || _); [done|]. cbn [bind call always sent_by]. split; [done|]. intros [| | |result] _; try done.
  cbv zeta. destruct (nonempty (trim result)) eqn:E; cbn [negb captcha_result]; [|done]. destruct (bytes_eqb _ _); [done|].
  by destruct (starts_with _ _).
Qed.

Lemma always_solve mode only_print s captcha :
  always (captcha_request captcha) captcha_result (solve mode only_print s captcha).
Proof.
  destruct mode; cbn [solve]; [apply always_webview| |].
  - apply always_bind. eapply always_mono; [done| |apply always_solve_attempts]. intros [t|e] Hr; [done|apply always_webview].
  - unfold solve_auto. apply always_bind. eapply always_mono; [done| |apply always_solve_attempts]. intros [t|e] Hr; [done|].
    apply always_bind.
    assert (forall n, always (captcha_request captcha) (fun r => match r with Ok t => nonempty t = true | Err (Some e) => e <> OutOfTurns | Err None => True end)
      (auto_views n captcha)) as Hviews.
    { clear. intros n. induction n as [|n IH]; cbn [auto_views]; [done|]. apply always_bind.
      eapply always_mono; [done| |apply always_webview]. intros [t|e] Hr; [done|]. cbn [bind call always sent_by].
      split; [done|]. intros [] _; [done|exact IH]. }
    eapply always_mono; [done| |apply Hviews]. intros [t'|[e'|]] Hr'; [done|done|]. apply always_bind.
    eapply always_mono; [done| |apply always_solve_attempts]. intros [t''|e''] Hr''; [done|apply always_webview].
Qed.

(** C27: solving a captcha ends whatever the service, the page and the host
    answer, in a token that is not empty, or in a failure that is a real one: none
    of its loops runs out of the turns it has. Every request is the one for the page
    whose address VK gave, without a form (that address carries the session's token
    in its query), or a form to one of six methods on [api.vk.ru]. *)
Theorem captcha_ends mode only_print s captcha o n :
  oracle_ok o ->
  let '(r, sent) := run o n (solve mode only_print s captcha) in
  Forall (captcha_request captcha) sent /\ captcha_result r.
Proof. intros Ho. apply always_sound, always_solve. done. Qed.
End FlowFacts.

(** ** Evaluated solving *)

Definition example_captcha : VkCaptchaError :=
  mkVkCaptcha 14 [] (ascii "1") [] (ascii "https://id.vk.com/not_robot_captcha?session_token=t") (ascii "t") [] [].
Definition example_session : Session := mkSession (mkProfile (mkImpersonate Chrome 148) Android [] [] [] []) None.

(** A service that accepts the checkbox. *)
Definition accepting (b : bytes) : option Doc :=
  Some (DObject [(ascii "response", DObject [(ascii "status", DString (ascii "OK")); (ascii "success_token", DString (ascii "token"))])]).
Definition example_pictures : Pictures := {| load_image _ := None; swaps_json _ := [] |}.
Definition example_floats : Floats :=
  {| score := Z; zero_score := 0; add_vertical _ s _ d := s + d; add_horizontal s d := s + d; partial_cmp a b := Some (a ?= b) |}.
Definition example_scan : PageScan :=
  {| pow_input_re _ := Some (ascii "a"); pow_difficulty_re _ := Some (ascii "2"); pow_obfuscated_re _ := None; script_source_re _ := None;
     debug_uuid_re _ := None; window_init_re _ := None; read_init _ := None |}.
Definition example_urls : Urls := {| query_pairs _ := None; join_url _ _ := None |}.
Definition example_base64 : Base64 := {| base64_encode s := s; base64_decode s := Some s |}.
Definition example_device : Device := {| DEVICE_INFO := ascii "{}" |}.

Definition example_oracle : Oracle := quiet (fun _ => Ok (mkResponse 200 (ascii "page"))) (ascii " token ").


Lemma captcha_ends_witness :
  let solver mode := @run _ example_oracle 0 (@solve (doc_json accepting) all_headers example_device example_base64 example_floats
    example_pictures example_urls example_scan toy_sha256 mode false example_session example_captcha) in
  (let '(r, sent) := solver AutoMode in Forall (captcha_request example_captcha) sent /\ captcha_result r)
  /\ solver WebViewMode = (Ok (ascii "token"), []).
Proof.
  split; [|vm_compute; reflexivity].
  apply (@captcha_ends (doc_json accepting) all_headers example_device example_base64 example_floats example_pictures example_urls
    example_scan toy_sha256 AutoMode false example_session example_captcha example_oracle 0). apply quiet_ok.
Defined.
