(* ===== verification/VkResponses.v ===== *)
(** * VkResponses: reading the answers of VK

    Models the pure functions of [auth.rs]: error codes and messages, which errors
    mean that a call is gone, the credentials in an answer, and the client ids. *)

From Stdlib Require Import Strings.String.
From S2P Require Import Prelude Bytes Text Credentials TurnEndpoint Web WebClient CaptchaPage.

(** What a client of VK fails with. *)
Inductive AuthError : Type :=
| CallIsUnavailable (code : Z) (message : text)
| CaptchaRequired (e : VkCaptchaError)
| CaptchaWait  (** the text begins with [CAPTCHA_WAIT_REQUIRED] *)
| Message (t : text)
| WithContext (t : text) (cause : AuthError)  (** [context]: the text is shown, the cause kept *)
| BothFailed (auto_js auto : AuthError).  (** a new message made of two texts: neither cause is kept *)

(** The text of [Unavailable] is the error's. *)
Inductive VkHashCheck : Type := Valid | Invalid (code : Z) (message : text) | Unavailable (e : AuthError).

(** [downcast_ref::<CallUnavailable>()], which looks through contexts. *)
Fixpoint is_unavailable (e : AuthError) : bool :=
  match e with CallIsUnavailable _ _ => true | WithContext _ e => is_unavailable e | _ => false end.

Section Responses.
Context `{Json} `{Urls}.

(** [json_string] and [json_number], for the path of an answer; the latter after
    the cast of the [f64] to [i64]. *)
Fixpoint at_path (v : value) (path : list text) : result value AuthError :=
  match path with
  | [] => Ok v
  | key :: path => match jget v key with Some v => at_path v path | None => Err (Message (ascii "missing key " ++ key)) end
  end.
Definition json_string (v : value) (path : list text) : result text AuthError :=
  match at_path v path with
  | Ok v => match as_str v with Some t => Ok t | None => Err (Message (ascii "expected string")) end
  | Err e => Err e
  end.
Definition json_number (v : value) (path : list text) : result Z AuthError :=
  match at_path v path with
  | Ok v =>
      match match view v with JNumber n => as_f64_i64 n | _ => None end with
      | Some z => Ok z
      | None => Err (Message (ascii "expected number"))
      end
  | Err e => Err e
  end.

(** ** Errors *)

Definition error_code (v : option value) : Z :=
  match v with
  | Some v =>
      match view v with
      | JNumber n =>
          match as_i64 n with
          | Some z => z
          | None =>
              match bind_opt (as_u64 n) (fun u => if u <=? 2 ^ 63 - 1 then Some u else None) with
              | Some z => z
              | None => default 0 (as_f64_i64 n)
              end
          end
      | JString s => default 0 (parse_i64 s)
      | _ => 0
      end
  | None => 0
  end.

Definition vk_error_message (error : value) : text :=
  let v := match jget error (ascii "error_msg") with Some v => Some v | None => jget error (ascii "message") end in
  default [] (bind_opt v as_str).

Definition is_fatal_call_code (code : Z) : bool := (code =? 951) || (code =? 954) || ((9000 <=? code) && (code <=? 9999)).

Definition is_fatal_call_error (code : Z) (message : text) : bool :=
  let normalized := to_ascii_lowercase (trim message) in
  is_fatal_call_code code || contains normalized (ascii "call not found") || contains normalized (ascii "invalid call join link").

Definition check_fatal_call (response : value) : result unit AuthError :=
  match jget response (ascii "error") with
  | None => Ok tt
  | Some error =>
      let code := error_code (jget error (ascii "error_code")) in
      let message := vk_error_message error in
      if is_fatal_call_error code message then Err (CallIsUnavailable code message) else Ok tt
  end.

Definition api_error (code : Z) (message : text) : AuthError :=
  Message (ascii "VK API error: error_code=" ++ i32_to_string code ++ ascii " " ++ message).

Definition check_vk_error (response : value) : result unit AuthError :=
  match jget response (ascii "error") with
  | None => Ok tt
  | Some error =>
      match check_fatal_call response with
      | Err e => Err e
      | Ok _ =>
          let code := error_code (jget error (ascii "error_code")) in
          if code =? 14 then
            Err (match from_json error with
                 | Some e => CaptchaRequired e
                 | None => Message (ascii "invalid VK captcha response: " ++ show_json error)
                 end)
          else Err (api_error code (default [] (bind_opt (jget error (ascii "error_msg")) as_str)))
      end
  end.

Definition check_ok_error (response : value) : result unit AuthError :=
  let code := error_code (jget response (ascii "error_code")) in
  if code =? 0 then Ok tt else
  let message := vk_error_message response in
  if is_fatal_call_error code message then Err (CallIsUnavailable code message)
  else Err (Message (ascii "OK CDN API error: error_code=" ++ i32_to_string code ++ ascii " " ++ message)).

Definition classify_vk_hash_error (response : value) : result (option VkHashCheck) AuthError :=
  match jget response (ascii "error") with
  | None => Ok None
  | Some error =>
      let code := error_code (jget error (ascii "error_code")) in
      let message := vk_error_message error in
      if is_fatal_call_error code message then Ok (Some (Invalid code message))
      else if code =? 14 then Ok (Some Valid)
      else Err (api_error code message)
  end.

(** ** Credentials *)

Fixpoint filter_map {A B} (f : A -> option B) (l : list A) : list B :=
  match l with [] => [] | x :: l => match f x with Some y => y :: filter_map f l | None => filter_map f l end end.

Definition turn_addresses (urls : list value) : list text :=
  List.filter is_supported_turn_uri (map trim (filter_map as_str urls)).

Definition parse_turn_credentials (response : value) : result TurnCredentials AuthError :=
  match jget response (ascii "turn_server") with
  | None => Err (Message (ascii "missing turn_server in response"))
  | Some turn =>
      match bind_opt (jget turn (ascii "username")) as_str with
      | None => Err (Message (ascii "missing username in turn_server"))
      | Some username =>
          match bind_opt (jget turn (ascii "credential")) as_str with
          | None => Err (Message (ascii "missing credential in turn_server"))
          | Some password =>
              match bind_opt (jget turn (ascii "urls")) as_array with
              | None => Err (Message (ascii "missing or empty urls in turn_server"))
              | Some urls =>
                  let addresses := turn_addresses urls in
                  if zlen addresses =? 0 then Err (Message (ascii "no valid TURN addresses found"))
                  else Ok (mkCredentials username password addresses)
              end
          end
      end
  end.

(** ** What the readings agree on *)

(** The two ways of looking at an answer find the same calls gone. *)
Lemma fatal_agree response code message :
  check_fatal_call response = Err (CallIsUnavailable code message) <->
  classify_vk_hash_error response = Ok (Some (Invalid code message)).
Proof.
  unfold check_fatal_call, classify_vk_hash_error. destruct (jget response (ascii "error")) as [error|]; [|done]. cbv zeta.
  destruct (is_fatal_call_error _ _); [split; by intros [= <- <-]|]. destruct (_ =? 14); done.
Qed.

Lemma filter_map_spec {A B} (f : A -> option B) l y : y ∈ filter_map f l <-> exists x, x ∈ l /\ f x = Some y.
Proof.
  induction l as [|a l IH]; cbn [filter_map]; [split; [by intros ?%elem_of_nil|by intros (x & ?%elem_of_nil & _)]|].
  destruct (f a) as [b|] eqn:E; rewrite ?elem_of_cons, IH; setoid_rewrite elem_of_cons; naive_solver.
Qed.

Lemma parsed_usable response c : parse_turn_credentials response = Ok c ->
  tc_server_addresses c <> [] /\ Forall (fun a => is_supported_turn_uri a = true) (tc_server_addresses c).
Proof.
  unfold parse_turn_credentials. destruct (jget response _) as [turn|]; [|done]. destruct (bind_opt _ as_str) as [u|]; [|done].
  destruct (bind_opt (jget turn (ascii "credential")) as_str) as [p|]; [|done]. destruct (bind_opt _ as_array) as [urls|]; [|done]. cbv zeta.
  destruct (Z.eqb_spec (zlen (turn_addresses urls)) 0) as [|Hne]; [done|]. intros [= <-]. cbn [tc_server_addresses].
  split; [intros E; by rewrite E in Hne|]. apply List.Forall_forall. intros a Ha. by apply List.filter_In in Ha as [_ Ha].
Qed.

(** Credentials are read from an answer exactly when it names a user, a
    credential and at least one address that the engine can use, and the addresses
    are those of the answer, trimmed, that are TURN URIs; no other can be returned. *)
Lemma credentials_exact response c :
  parse_turn_credentials response = Ok c <->
  exists turn urls, jget response (ascii "turn_server") = Some turn
    /\ bind_opt (jget turn (ascii "username")) as_str = Some (tc_username c)
    /\ bind_opt (jget turn (ascii "credential")) as_str = Some (tc_password c)
    /\ bind_opt (jget turn (ascii "urls")) as_array = Some urls
    /\ tc_server_addresses c = turn_addresses urls /\ tc_server_addresses c <> []
    /\ (forall a, a ∈ tc_server_addresses c <-> is_supported_turn_uri a = true /\ exists v s, v ∈ urls /\ as_str v = Some s /\ a = trim s).
Proof.
  unfold parse_turn_credentials.
  assert (forall urls a, a ∈ turn_addresses urls <-> is_supported_turn_uri a = true /\ exists v s, v ∈ urls /\ as_str v = Some s /\ a = trim s) as Hin.
  { intros urls a. unfold turn_addresses. rewrite list_elem_of_In, List.filter_In, <- list_elem_of_In.
    rewrite (list_elem_of_fmap trim (filter_map as_str urls) a). setoid_rewrite filter_map_spec. naive_solver. }
  split.
  - destruct (jget response (ascii "turn_server")) as [turn|]; [|done].
    destruct (bind_opt (jget turn (ascii "username")) as_str) as [u|] eqn:Eu; [|done].
    destruct (bind_opt (jget turn (ascii "credential")) as_str) as [p|] eqn:Ep; [|done].
    destruct (bind_opt (jget turn (ascii "urls")) as_array) as [urls|] eqn:Eurls; [|done]. cbv zeta.
    destruct (Z.eqb_spec (zlen (turn_addresses urls)) 0) as [|Hne]; [done|]. intros [= <-]. exists turn, urls.
    cbn [tc_username tc_password tc_server_addresses]. split_and!; try done. intros E. rewrite E in Hne. done.
  - intros (turn & urls & -> & -> & -> & -> & Ha & Hne & _). cbv zeta. rewrite <- Ha.
    destruct (Z.eqb_spec (zlen (tc_server_addresses c)) 0) as [Hz%zlen_zero|]; [done|]. by destruct c.
Qed.
End Responses.
