(* ===== verification/VkCalls.v ===== *)
(** * VkCalls: calls of an account

    Models [vk_js_calls.rs]: a session of the account at the call service, the
    call that a start creates and that its end leaves, and the broker that asks for
    the credentials of a further session. *)

From Stdlib Require Import Strings.String.
From S2P Require Import Prelude Bytes Text Credentials TurnEndpoint Web WebClient CaptchaPage VkResponses.

(** A text outside ASCII, from its UTF-8 bytes. *)
Definition russian (s : string) : text := from_utf8_lossy (ascii s).

Definition VK_API_VERSION : text := ascii "5.285".
Definition VK_CLIENT_ID : text := ascii "6287487".
Definition OK_APPLICATION_KEY : text := ascii "CGMMEJLGDIHBABABA".
Definition DEFAULT_OK_API : text := ascii "https://calls.okcdn.ru/fb.do".
Definition MAX_RESPONSE_BYTES : Z := 512 * 1024.
Definition MAX_ACCOUNT_CREDENTIALS : Z := 9.

Record ActiveCalls : Type := mkActive { ac_api_url : text; ac_access_token : text; ac_session_key : text; conversation_ids : list text }.
(** The set of issued credentials is behind the call [IssueOnce]. *)
Record CredentialBroker : Type := mkBroker { b_access_token : text; b_conversation_id : text }.
Record StartedCalls : Type := mkStarted { hashes : list text; active : ActiveCalls; credential_broker : CredentialBroker }.
Record ApiSession : Type := mkApi { api_url : text; session_key : text }.
Inductive RequestSite : Type := SiteVk | SiteOk.

(** [url]: a parsed address, its parts and its text. *)
Class ParsedUrls : Type := {
  Url : Type;
  parse_url : text -> option Url;
  scheme : Url -> text;
  host_str : Url -> option text;
  path : Url -> text;
  username : Url -> text;
  password : Url -> option text;
  port_or_known_default : Url -> option Z;
  fragment : Url -> option text;
  query : Url -> option text;
  set_path : Url -> text -> Url;
  url_text : Url -> text;
}.

(** ** Addresses *)

Section Addresses.
Context `{ParsedUrls}.

Definition allowed_host (host : text) : bool :=
  bytes_eqb host (ascii "api.ok.ru") || bytes_eqb host (ascii "okcdn.ru") || ends_with host (ascii ".okcdn.ru").
Definition allowed_path (p : text) : bool := bytes_eqb p [] || bytes_eqb p (ascii "/") || bytes_eqb p (ascii "/fb.do").
Definition absent {A} (x : option A) : bool := match x with Some _ => false | None => true end.

Definition validated_api_url (address : text) : result text AuthError :=
  match parse_url address with
  | None => Err (Message (russian "некорректный api_base_url"))
  | Some parsed =>
      let host := default [] (host_str parsed) in
      if negb (bytes_eqb (scheme parsed) (ascii "https")) || negb (allowed_host host) || negb (allowed_path (path parsed))
         || negb (bytes_eqb (username parsed) []) || negb (absent (password parsed))
         || negb (match port_or_known_default parsed with Some port => port =? 443 | None => false end)
         || negb (absent (fragment parsed)) || negb (absent (query parsed))
      then Err (Message (russian "небезопасный api_base_url: host=" ++ host ++ ascii ", path=" ++ path parsed))
      else Ok (url_text (set_path parsed (ascii "/fb.do")))
  end.

(** The slashes are code points 0x2f. *)
Definition join_hash (link : text) : option text :=
  let trimmed := trim_end_matches 0x2f (trim link) in
  if zlen trimmed =? 0 then None else Some (last_part 0x2f trimmed).
End Addresses.

(** ** Answers *)

Section Answers.
Context `{Json}.

Definition json_scalar_string (v : value) : option text :=
  match view v with
  | JString s => Some s
  | JNumber n => match as_i64 n with Some z => Some (i32_to_string z) | None => option_map to_string (as_u64 n) end
  | _ => None
  end.

Definition or_else {A} (x y : option A) : option A := match x with Some _ => x | None => y end.

Definition api_failure (code message : text) : AuthError := Message (ascii "API " ++ code ++ ascii ": " ++ message).

Definition check_api_error (v : value) : result unit AuthError :=
  let second :=
    match bind_opt (jget v (ascii "error_code")) json_scalar_string with
    | Some code =>
        if bytes_eqb code (ascii "0") then Ok tt
        else Err (api_failure code (default (ascii "API error") (bind_opt (jget v (ascii "error_msg")) as_str)))
    | None => Ok tt
    end in
  match jget v (ascii "error") with
  | None => second
  | Some error =>
      match view error with
      | JNull | JBool false => second
      | _ =>
          let code := default (ascii "unknown")
            (bind_opt (or_else (jget error (ascii "error_code")) (jget error (ascii "code"))) json_scalar_string) in
          let message := default (ascii "API error")
            (bind_opt (or_else (jget error (ascii "error_msg")) (jget error (ascii "message"))) as_str) in
          Err (api_failure code message)
      end
  end.

Definition required_string (v : value) (key : text) : result text AuthError :=
  match bind_opt (jget v key) as_str with
  | Some s => if zlen s =? 0 then Err (Message (russian "нет поля " ++ key)) else Ok s
  | None => Err (Message (russian "нет поля " ++ key))
  end.
End Answers.

(** ** Requests *)

Definition site_headers (site : RequestSite) : HeaderMap :=
  foldl (fun m kv => insert_static m (fst kv) (snd kv)) []
    [(ascii "accept", ascii "*/*"); (ascii "accept-encoding", ascii "gzip, deflate, br, zstd");
     (ascii "accept-language", ascii "ru,en;q=0.9,en-GB;q=0.8,en-US;q=0.7");
     (ascii "content-type", ascii "application/x-www-form-urlencoded"); (ascii "origin", ascii "https://vk.ru");
     (ascii "referer", ascii "https://vk.ru/"); (ascii "sec-fetch-mode", ascii "cors"); (ascii "sec-fetch-dest", ascii "empty");
     (ascii "priority", ascii "u=1, i");
     (ascii "sec-fetch-site", match site with SiteVk => ascii "same-site" | SiteOk => ascii "cross-site" end)].

Definition with_context {A} (t : text) (r : result A AuthError) : result A AuthError :=
  match r with Ok a => Ok a | Err e => Err (WithContext t e) end.

(** The last error of [retry]. *)
Definition retried {A} (r : result A (option AuthError)) : result A AuthError :=
  match r with Ok a => Ok a | Err (Some e) => Err e | Err None => Err (Message (russian "запрос не выполнен")) end.

Section Calls.
Context `{Json} `{Urls} `{Serializers} `{ParsedUrls} `{Sha256}.

(** A request that fails, and an answer that cannot be read to its end, come as
    the error of [Send], with its text; the words after the number of an HTTP
    status are left out. *)
Definition post_form (endpoint : text) (fields : list (text * text)) (site : RequestSite) : prog (result value AuthError) :=
  a <- call (Send (mkRequest POST endpoint (site_headers site) (Some (form_urlencoded fields)))) ;;
  Done (match a with
    | Err e => Err (Message e)
    | Ok response =>
        if MAX_RESPONSE_BYTES <? zlen (content response) then Err (Message (russian "слишком большой HTTP-ответ"))
        else if negb (is_success response) then Err (Message (ascii "HTTP " ++ to_string (status response)))
        else match parse_json (content response) with
             | Some v => Ok v
             | None => Err (Message (russian "некорректный JSON-ответ"))
             end
    end).

(** [post_form(..).await?] and [check_api_error(&value)?], as three of the
    retried requests end. *)
Definition checked (p : prog (result value AuthError)) : prog (result value AuthError) :=
  v <-? p ;; _ <-? Done (check_api_error v) ;; Done (Ok v).

Definition vk_method (name : text) : text :=
  ascii "https://api.vk.ru/method/" ++ name ++ ascii "?v=" ++ VK_API_VERSION ++ ascii "&client_id=" ++ VK_CLIENT_ID.

Definition retry_form (attempts : nat) (request : prog (result value AuthError)) : prog (result value AuthError) :=
  r <- retry attempts 0 request ;; Done (retried r).

(** ** A session of the account *)

Definition token_fields (access_token : text) : list (text * text) := [(ascii "env", ascii "production"); (ascii "access_token", access_token)].

Definition login_fields (session_data device_id : text) : list (text * text) :=
  [(ascii "session_data", session_data); (ascii "device_id", device_id); (ascii "verification_supported", ascii "true");
   (ascii "verification_supported_v", ascii "1"); (ascii "client", ascii "test"); (ascii "gen_token", ascii "true");
   (ascii "method", ascii "auth.anonymLogin"); (ascii "format", ascii "JSON"); (ascii "application_key", OK_APPLICATION_KEY)].

Definition open_account_session (access_token device_id : text) : prog (result ApiSession AuthError) :=
  r <- retry_form 3 (post_form (vk_method (ascii "messages.getCallToken")) (token_fields access_token) SiteVk) ;;
  token_response <-? Done (with_context (ascii "messages.getCallToken") r) ;;
  _ <-? Done (check_api_error token_response) ;;
  response <-? ensure (jget token_response (ascii "response")) (Message (russian "messages.getCallToken: нет response")) ;;
  call_token <-? Done (required_string response (ascii "token")) ;;
  url <-? Done (validated_api_url (default DEFAULT_OK_API (bind_opt (jget response (ascii "api_base_url")) as_str))) ;;
  let session_data := object_text
    [(ascii "auth_token", LText call_token); (ascii "version", LInt 3); (ascii "device_id", LText device_id);
     (ascii "client_version", LText (ascii "1.0.1"))] in
  r <- retry_form 3 (post_form url (login_fields session_data device_id) SiteOk) ;;
  login <-? Done (with_context (ascii "auth.anonymLogin") r) ;;
  _ <-? Done (check_api_error login) ;;
  key <-? Done (required_string login (ascii "session_key")) ;;
  Done (Ok (mkApi url key)).

(** ** Leaving a call *)

Definition method_fields (name key : text) : list (text * text) :=
  [(ascii "method", name); (ascii "format", ascii "JSON"); (ascii "application_key", OK_APPLICATION_KEY); (ascii "session_key", key)].

(** The tasks of [leave_creator] and [finish], one for each call. Every
    [ActiveCalls] holds one, so that their order is not looked at; how many were
    left is only logged. *)
Fixpoint for_each_call (ids : list text) (leave : text -> prog (result value AuthError)) (finished : nat) : prog nat :=
  match ids with
  | [] => Done finished
  | id :: ids =>
      r <- retry_form 3 (leave id) ;;
      for_each_call ids leave (match r with Ok _ => S finished | Err _ => finished end)
  end.

Definition leave_creator (c : ActiveCalls) : prog nat :=
  for_each_call (conversation_ids c) (fun id =>
    checked (post_form (ac_api_url c)
      ((ascii "conversationId", id) :: (ascii "reason", ascii "HUNGUP") :: method_fields (ascii "vchat.hangupConversation") (ac_session_key c))
      SiteOk)) 0.

(** With a limit of two seconds. *)
Definition finish (c : ActiveCalls) : prog nat :=
  r <- within (for_each_call (conversation_ids c) (fun id =>
    checked (post_form (vk_method (ascii "calls.forceFinish")) [(ascii "call_id", id); (ascii "access_token", ac_access_token c)] SiteVk)) 0) ;;
  Done (default 0%nat r).

(** ** Starting a call *)

Definition call_payload : text := object_text
  [(ascii "is_video", LBool true); (ascii "with_join_link", LBool true); (ascii "join_by_link", LBool true);
   (ascii "community_user_id", LInt 0); (ascii "caller_app_id", LInt 6287487)].

Definition conversation_fields (conversation_id protocol_version key : text) : list (text * text) :=
  [(ascii "conversationId", conversation_id); (ascii "isVideo", ascii "true"); (ascii "protocolVersion", protocol_version);
   (ascii "createJoinLink", ascii "true"); (ascii "payload", call_payload); (ascii "onlyAdminCanShareMovie", ascii "false");
   (ascii "externalIds", [])] ++ method_fields (ascii "vchat.startConversation") key.

(** The hash of the link in the answer to the new call. *)
Definition started_hash (r : result value AuthError) : result text AuthError :=
  match r with
  | Err e => Err e
  | Ok answer =>
      match check_api_error answer with
      | Err e => Err e
      | Ok _ =>
          match bind_opt (bind_opt (jget answer (ascii "join_link")) as_str) join_hash with
          | Some hash => Ok hash
          | None => Err (Message (russian "нет join_link"))
          end
      end
  end.

Definition start (token device_id : text) (multiple_devices : bool) : prog (result StartedCalls AuthError) :=
  if zlen (trim token) =? 0 then Done (Err (Message (russian "VK access token отсутствует"))) else
  failed <- call NewClient ;;
  match failed with
  | Some e => Done (Err (WithContext (russian "инициализация браузерного HTTP-клиента") (Message e)))
  | None =>
      session <-? open_account_session token device_id ;;
      r <- post_form (api_url session) (method_fields (ascii "system.getInfo") (session_key session)) SiteOk ;;
      info <-? Done (with_context (ascii "system.getInfo") r) ;;
      _ <-? Done (check_api_error info) ;;
      _ <-? ensure (jget info (ascii "serverTime")) (Message (russian "system.getInfo: нет serverTime")) ;;
      conversation_id <- call NewUuid ;;
      let protocol_version := if multiple_devices then ascii "6" else ascii "5" in
      r <- retry_form 3 (post_form (api_url session) (conversation_fields conversation_id protocol_version (session_key session)) SiteOk) ;;
      let active := mkActive (api_url session) token (session_key session) [conversation_id] in
      match started_hash r with
      | Ok hash => Done (Ok (mkStarted [hash] active (mkBroker token conversation_id)))
      | Err e => _ <- within (leave_creator active) ;; Done (Err (WithContext (ascii "vchat.startConversation") e))
      end
  end.

(** ** Credentials of a further session *)

(** What is hashed is written as one text of bytes. *)
Definition credential_fingerprint (c : TurnCredentials) : bytes :=
  sha256 (utf8 (tc_username c) ++ [0] ++ utf8 (tc_password c) ++ concat (map (fun a => 0 :: utf8 a) (tc_server_addresses c))).

Definition conversation_params_fields (conversation_id key : text) : list (text * text) :=
  (ascii "conversationId", conversation_id) :: method_fields (ascii "vchat.getConversationParams") key.

Definition numbered (t : text) (credential_id : Z) : text := t ++ ascii " #" ++ to_string credential_id.

Definition broker_credentials (b : CredentialBroker) (credential_id : Z) : prog (result TurnCredentials AuthError) :=
  if negb (between 1 MAX_ACCOUNT_CREDENTIALS credential_id)
  then Done (Err (Message (russian "Auto JS credential id вне диапазона: " ++ to_string credential_id))) else
  device_id <- call NewUuid ;;
  r <- open_account_session (b_access_token b) device_id ;;
  session <-? Done (with_context (numbered (ascii "Auto JS session") credential_id) r) ;;
  r <- retry_form 3 (checked
    (post_form (api_url session) (conversation_params_fields (b_conversation_id b) (session_key session)) SiteOk)) ;;
  params <-? Done (with_context (numbered (ascii "vchat.getConversationParams") credential_id) r) ;;
  credentials <-? Done (parse_turn_credentials params) ;;
  new <- call (IssueOnce (credential_fingerprint credentials)) ;;
  if new : bool then Done (Ok credentials)
  else Done (Err (Message (russian "Auto JS вернул повторный TURN-набор для сессии #" ++ to_string credential_id))).
End Calls.

(** ** Where the requests go *)

Section CallFacts.
Context `{Json} `{Urls} `{Serializers} `{ParsedUrls} `{Sha256}.

(** The text of an address without credentials, query and fragment and with the
    port of its scheme, once its path is set. *)
Definition serializes : Prop := forall u h p,
  scheme u = ascii "https" -> host_str u = Some h -> username u = [] -> password u = None ->
  port_or_known_default u = Some 443 -> fragment u = None -> query u = None ->
  url_text (set_path u p) = ascii "https://" ++ h ++ p.

(** A method of VK, or the one path of a host of the call service. *)
Definition vk_request (r : Request) : Prop :=
  url r = vk_method (ascii "messages.getCallToken") \/ url r = vk_method (ascii "calls.forceFinish").
Definition api_address (u : text) : Prop := exists host, allowed_host host = true /\ u = ascii "https://" ++ host ++ ascii "/fb.do".
Definition call_request (r : Request) : Prop := method r = POST /\ (vk_request r \/ api_address (url r)).

Lemma validated_address t u : serializes -> validated_api_url t = Ok u -> api_address u.
Proof.
  intros Hs. unfold validated_api_url. destruct (parse_url t) as [p|]; [|done]. cbv zeta. destruct (_ || _) eqn:E; [done|].
  intros [= <-]. repeat (apply orb_false_iff in E as [E ?]). rewrite ?negb_false_iff in *. bool_to_prop.
  destruct (host_str p) as [h|] eqn:Eh; [|by vm_compute in *].
  exists h. split; [done|]. apply Hs; try done.
  - by apply bytes_eqb_eq.
  - by apply bytes_eqb_eq.
  - by destruct (password p).
  - destruct (port_or_known_default p) as [port|]; [|done]. f_equal. lia.
  - by destruct (fragment p).
  - by destruct (query p).
Qed.

(** A request to an address of these. *)
Definition goes_to (u : text) : Prop := vk_request (mkRequest POST u [] None) \/ api_address u.

Lemma wp_post u f site : goes_to u -> wp call_request (fun _ _ => True) 1 (post_form u f site).
Proof. intros Hu. cbn [post_form bind call wp sent_by]. split; [by split|done]. Qed.

Lemma wp_checked u f site : goes_to u -> wp call_request (fun _ _ => True) 1 (checked (post_form u f site)).
Proof.
  intros Hu. apply wp_bind. eapply wp_mono; [done| |by apply wp_post]. intros m [v|e] _; [|done]. cbn [bind].
  by destruct (check_api_error v).
Qed.

Lemma wp_retry_form request : wp call_request (fun _ _ => True) 1 request -> wp call_request (fun _ _ => True) 3 (retry_form 3 request).
Proof.
  intros Hr. apply wp_bind. eapply wp_mono; [done| |apply (wp_retry _ (fun _ => True) 3 1); eapply wp_mono; [done| |exact Hr]]; [done|].
  by intros m [a|e] _.
Qed.

Lemma wp_open token device_id : serializes ->
  wp call_request (fun _ r => match r with Ok session => api_address (api_url session) | Err _ => True end) 6
    (open_account_session token device_id).
Proof.
  intros Hs. unfold open_account_session. eapply wp_then; [apply wp_retry_form, wp_post; left; by left|lia|].
  intros r m Hm _. destruct r as [v|e]; [|done]. cbn [with_context bind]. destruct (check_api_error v); [|done]. cbn [bind ensure].
  destruct (jget v _) as [response|]; [|done]. cbn [bind]. destruct (required_string response _) as [call_token|]; [|done]. cbn [bind].
  destruct (validated_api_url _) as [u|] eqn:Eu; [|done]. apply validated_address in Eu; [|done]. cbn [bind]. cbv zeta.
  eapply wp_then; [apply wp_retry_form, wp_post; by right|lia|]. intros [login|e] k Hk _; [|done]. cbn [with_context bind].
  destruct (check_api_error login); [|done]. cbn [bind]. by destruct (required_string login _).
Qed.

Lemma wp_for_each ids leave finished :
  (forall id, wp call_request (fun _ _ => True) 1 (leave id)) ->
  wp call_request (fun _ _ => True) (length ids * 3) (for_each_call ids leave finished).
Proof.
  intros Hl. revert finished. induction ids as [|id ids IH]; intros finished; [done|]. cbn [for_each_call length].
  eapply wp_then; [by apply wp_retry_form|lia|]. intros r m Hm _. eapply wp_within; [apply IH|lia|done].
Qed.

(** The hash of a link is a part of it that is not empty and holds no slash. *)
Lemma join_hash_part link h : join_hash link = Some h -> h <> [] /\ 0x2f ∉ h.
Proof.
  unfold join_hash. cbv zeta. destruct (Z.eqb_spec (zlen (trim_end_matches 0x2f (trim link))) 0) as [|Hne]; [done|]. intros [= <-].
  destruct (last_part_spec 0x2f (trim_end_matches 0x2f (trim link))) as [Hn (l & Hl & Hor)]. split; [|done]. intros E. rewrite E, app_nil_r in Hl.
  destruct Hor as [->|[l' ->]]; [by rewrite Hl in Hne|by apply trim_end_matches_last in Hl].
Qed.

Lemma wp_start token device_id multiple : serializes ->
  wp call_request (fun _ r => match r with
    | Ok s => (exists h, hashes s = [h] /\ h <> [] /\ 0x2f ∉ h) /\ length (conversation_ids (active s)) = 1%nat
    | Err _ => True
    end) 13 (start token device_id multiple).
Proof.
  intros Hs. unfold start. destruct (_ =? 0); [done|]. cbn [bind call wp sent_by]. intros [e|] _; [done|].
  eapply wp_then; [by apply wp_open|lia|]. intros [session|e] m Hm Hu; [|done].
  eapply wp_then; [apply wp_post; by right|lia|]. intros [info|e] k Hk _; [|done]. cbn [with_context bind].
  destruct (check_api_error info); [|done]. cbn [bind ensure]. destruct (jget info _) as [time|]; [|done]. cbn [bind call wp sent_by]. intros id _. cbv zeta.
  eapply wp_then; [apply wp_retry_form, wp_post; by right|lia|]. intros r l Hl _.
  destruct (started_hash r) as [hash|e] eqn:Eh.
  { cbn [wp hashes active conversation_ids]. split; [|done]. exists hash. split; [done|]. unfold started_hash in Eh. destruct r as [v|]; [|done].
    destruct (check_api_error v); [|done]. destruct (bind_opt _ join_hash) as [h|] eqn:Ej; [|done]. injection Eh as ->.
    destruct (bind_opt _ as_str) as [link|]; [|done]. by eapply join_hash_part. }
  eapply (wp_then _ (fun _ => True) _ 3); [|lia|done]. apply wp_timeout; [done|]. unfold leave_creator. cbn [conversation_ids].
  apply (wp_for_each [id]). intros id'. apply wp_checked. by right.
Qed.

Lemma wp_finish c : length (conversation_ids c) = 1%nat -> wp call_request (fun _ _ => True) 3 (finish c).
Proof.
  intros Hc. apply wp_bind. eapply wp_timeout; [done|].
  replace 3%nat with (length (conversation_ids c) * 3)%nat by (rewrite Hc; lia).
  apply wp_for_each. intros id. apply wp_checked. left. by right.
Qed.

Lemma wp_broker b credential_id : serializes ->
  wp call_request (fun _ r => match r with
    | Ok c => 1 <= credential_id <= 9 /\ tc_server_addresses c <> [] /\ Forall (fun a => is_supported_turn_uri a = true) (tc_server_addresses c)
    | Err _ => True
    end) 9 (broker_credentials b credential_id).
Proof.
  intros Hs. unfold broker_credentials. destruct (between _ _ _) eqn:Eb; [|done].
  assert (1 <= credential_id <= 9) as Hid by (unfold between, MAX_ACCOUNT_CREDENTIALS in Eb; lia).
  cbn [negb bind call wp sent_by]. intros device _.
  eapply wp_then; [by apply wp_open|lia|]. intros [session|e] m Hm Hu; [|done]. cbn [with_context bind].
  eapply wp_then; [apply wp_retry_form, wp_checked; by right|lia|]. intros [params|e] k Hk _; [|done]. cbn [with_context bind].
  destruct (parse_turn_credentials params) as [c|] eqn:Ec; [|done]. apply parsed_usable in Ec. cbn [bind call wp sent_by].
  by intros [] _.
Qed.

(** Starting a call takes at most thirteen requests, asking for the
    credentials of a further session at most nine, and ending a call at most three,
    whatever is answered. Each goes to one of the two methods at VK or to the path
    fb.do of a host of the call service, over https and port 443, even though the
    address of the service comes from an answer; a start gives the hash of one
    link, not empty and without a slash, and credentials name an address that the
    engine can use. *)
Lemma calls_confined token device_id multiple broker credential_id o n :
  serializes -> oracle_ok o ->
  (let '(r, sent) := run o n (start token device_id multiple) in
   Forall call_request sent /\ (length sent <= 13)%nat /\
   match r with
   | Ok s => (exists h, hashes s = [h] /\ h <> [] /\ 0x2f ∉ h) /\
       let '(_, ended) := run o n (finish (active s)) in Forall call_request ended /\ (length ended <= 3)%nat
   | Err _ => True
   end) /\
  (let '(r, sent) := run o n (broker_credentials broker credential_id) in
   Forall call_request sent /\ (length sent <= 9)%nat /\
   match r with
   | Ok c => 1 <= credential_id <= 9 /\ tc_server_addresses c <> [] /\ Forall (fun a => is_supported_turn_uri a = true) (tc_server_addresses c)
   | Err _ => True
   end).
Proof.
  intros Hs Ho. split.
  - pose proof (wp_sound _ _ _ _ o n Ho (wp_start token device_id multiple Hs)) as Hw.
    destruct (run o n _) as [r sent]. destruct Hw as (Hf & Hl & Hr). split; [done|]. split; [done|]. destruct r as [s|]; [|done].
    destruct Hr as [Hh Hc]. split; [done|]. pose proof (wp_sound _ _ _ _ o n Ho (wp_finish _ Hc)) as Hw.
    destruct (run o n (finish _)). by destruct Hw as (? & ? & _).
  - pose proof (wp_sound _ _ _ _ o n Ho (wp_broker broker credential_id Hs)) as Hw.
    by destruct (run o n _).
Qed.

(** ** Who sees the token of the account *)

(** Requests that are the same, or the same up to their bodies and sent to VK. *)
Definition same_to_others (r1 r2 : Request) : Prop :=
  r1 = r2 \/ (vk_request r1 /\ method r1 = method r2 /\ url r1 = url r2 /\ headers r1 = headers r2).

Lemma same_refl r : same_to_others r r.
Proof. by left. Qed.

Lemma alike_open t1 t2 device_id : alike same_to_others eq (open_account_session t1 device_id) (open_account_session t2 device_id).
Proof.
  unfold open_account_session. apply (alike_bind _ eq); [|intros r ? <-; apply alike_refl, same_refl].
  apply (alike_bind _ eq); [|intros r ? <-; by constructor]. apply alike_retry.
  apply (alike_bind _ eq); [|intros r ? <-; by constructor]. apply alike_send; [|by constructor]. right.
  split; [by left|done].
Qed.

Definition same_started (r1 r2 : result StartedCalls AuthError) : Prop :=
  match r1, r2 with
  | Ok s1, Ok s2 =>
      hashes s1 = hashes s2 /\ b_conversation_id (credential_broker s1) = b_conversation_id (credential_broker s2)
      /\ ac_api_url (active s1) = ac_api_url (active s2) /\ ac_session_key (active s1) = ac_session_key (active s2)
      /\ conversation_ids (active s1) = conversation_ids (active s2)
  | Err e1, Err e2 => e1 = e2
  | _, _ => False
  end.

Lemma alike_start t1 t2 device_id multiple : zlen (trim t1) <> 0 -> zlen (trim t2) <> 0 ->
  alike same_to_others same_started (start t1 device_id multiple) (start t2 device_id multiple).
Proof.
  intros Ht1 Ht2. unfold start. apply Z.eqb_neq in Ht1, Ht2. rewrite Ht1, Ht2. cbn [bind call].
  apply alike_call; [done|]. intros [e|]; [by constructor|].
  apply (alike_bind _ eq); [apply alike_open|]. intros [session|e] ? <-; [|by constructor].
  apply (alike_bind _ eq); [apply alike_refl, same_refl|]. intros [info|e] ? <-; [|by constructor]. cbn [with_context bind].
  destruct (check_api_error info); [|by constructor]. cbn [bind ensure]. destruct (jget info _); [|by constructor]. cbn [bind call].
  apply alike_call; [done|]. intros id. cbv zeta.
  apply (alike_bind _ eq); [apply alike_refl, same_refl|]. intros r ? <-. destruct (started_hash r); [by constructor|].
  apply (alike_bind _ eq); [apply (alike_timeout _ eq); [done|congruence|apply alike_refl, same_refl]|]. intros _ _ _. by constructor.
Qed.

Lemma alike_broker t1 t2 conversation credential_id :
  alike same_to_others eq (broker_credentials (mkBroker t1 conversation) credential_id) (broker_credentials (mkBroker t2 conversation) credential_id).
Proof.
  unfold broker_credentials. destruct (negb _); [by constructor|]. apply alike_call; [done|]. intros device. cbn [bind b_access_token].
  apply (alike_bind _ eq); [apply alike_open|]. intros r ? <-. apply alike_refl, same_refl.
Qed.

Lemma alike_finish url key ids t1 t2 :
  alike same_to_others eq (finish (mkActive url t1 key ids)) (finish (mkActive url t2 key ids)).
Proof.
  apply (alike_bind _ eq); [|intros r ? <-; by constructor]. apply (alike_timeout _ eq); [done|congruence|]. cbn [conversation_ids ac_access_token].
  generalize 0%nat. induction ids as [|id ids IH]; intros finished; cbn [for_each_call]; [by constructor|].
  apply (alike_bind _ eq); [|intros r ? <-; apply IH]. apply (alike_bind _ eq); [|intros r ? <-; by constructor]. apply alike_retry.
  apply (alike_bind _ eq); [|intros r ? <-; apply alike_refl, same_refl].
  apply (alike_bind _ eq); [|intros r ? <-; by constructor]. apply alike_send; [|by constructor]. right. split; [by right|done].
Qed.

(** C19: the access token of the account goes to VK only. Two runs with different
    tokens that are given the same answers send the same requests in the same
    order, up to the bodies of those to the two methods of VK, and end in the
    same: what the call service is told, over addresses that VK named, and what
    is reported as an error do not depend on the token. *)
Theorem token_confined t1 t2 device_id multiple conversation credential_id url key ids o n :
  zlen (trim t1) <> 0 -> zlen (trim t2) <> 0 -> scripted o ->
  (let '(r1, sent1) := run o n (start t1 device_id multiple) in let '(r2, sent2) := run o n (start t2 device_id multiple) in
   same_started r1 r2 /\ Forall2 same_to_others sent1 sent2) /\
  (let '(r1, sent1) := run o n (broker_credentials (mkBroker t1 conversation) credential_id) in
   let '(r2, sent2) := run o n (broker_credentials (mkBroker t2 conversation) credential_id) in
   r1 = r2 /\ Forall2 same_to_others sent1 sent2) /\
  (let '(r1, sent1) := run o n (finish (mkActive url t1 key ids)) in let '(r2, sent2) := run o n (finish (mkActive url t2 key ids)) in
   r1 = r2 /\ Forall2 same_to_others sent1 sent2).
Proof.
  intros Ht1 Ht2 Ho. split_and!.
  - by apply alike_sound, alike_start.
  - by apply alike_sound, alike_broker.
  - by apply alike_sound, alike_finish.
Qed.
End CallFacts.

(** ** Evaluated calls *)

(** Addresses over https without a port. *)
#[export] Instance plain_urls : ParsedUrls := {|
  Url := text * text;
  parse_url t :=
    match strip_prefix (ascii "https://") t with
    | Some rest => match split_once 0x2f rest with Some (h, p) => Some (h, 0x2f :: p) | None => Some (rest, [0x2f]) end
    | None => None
    end;
  scheme _ := ascii "https"; host_str u := Some (fst u); path := snd; username _ := []; password _ := None;
  port_or_known_default _ := Some 443; fragment _ := None; query _ := None;
  set_path u p := (fst u, p);
  url_text u := ascii "https://" ++ fst u ++ snd u;
|}.

Lemma plain_urls_serialize : serializes.
Proof. by intros u h p _ [= <-] _ _ _ _ _. Qed.

#[export] Instance plain_texts : Serializers := {|
  object_text _ := ascii "{}";
  form_urlencoded f := concat (map (fun kv => fst kv ++ ascii "=" ++ snd kv ++ ascii "&") f);
|}.

(** One answer that serves for every request. *)
Definition str (s : string) : Doc := DString (ascii s).
Definition example_answer (b : bytes) : option Doc :=
  Some (DObject [(ascii "response", DObject [(ascii "token", str "call"); (ascii "api_base_url", str "https://api.ok.ru/")]);
    (ascii "session_key", str "key"); (ascii "serverTime", DNumber 1); (ascii "join_link", str "https://vk.ru/call/join/hash/");
    (ascii "turn_server", DObject [(ascii "username", str "user"); (ascii "credential", str "secret");
      (ascii "urls", DArray [str " turn:192.0.2.1:3478 "; DNull; str "http://192.0.2.1"])])]).
Definition example_json : Json := doc_json example_answer.
Definition answering : Oracle := quiet (fun _ => Ok (mkResponse 200 [])) [].

Example validated_examples :
  map (fun t => match validated_api_url (ascii t) with Ok u => Some u | Err _ => None end)
    ["https://calls.okcdn.ru"; "https://api.ok.ru/fb.do"; "https://calls.okcdn.ru/other"; "https://okcdn.ru.example/fb.do"; "http://api.ok.ru"]%string
  = [Some (ascii "https://calls.okcdn.ru/fb.do"); Some (ascii "https://api.ok.ru/fb.do"); None; None; None].
Proof. vm_compute. reflexivity. Qed.

Lemma calls_confined_witness :
  let started := @run _ answering 0 (@start example_json plain_texts plain_urls (ascii "token") (ascii "device") true) in
  let issued := @run _ answering 0 (@broker_credentials example_json plain_texts plain_urls toy_sha256 (mkBroker (ascii "token") (ascii "id")) 9) in
  (match fst started with Ok s => hashes s = [ascii "hash"] | Err _ => False end) /\ length (snd started) = 4%nat /\ length (snd issued) = 3%nat
  /\ Forall (@call_request) (snd started) /\ Forall (@call_request) (snd issued).
Proof.
  pose proof (@calls_confined example_json plain_texts plain_urls toy_sha256 (ascii "token") (ascii "device") true
    (mkBroker (ascii "token") (ascii "id")) 9 answering 0 plain_urls_serialize (quiet_ok _ _)) as [Hs Hi].
  cbv zeta. destruct (run answering 0 (start _ _ _)) as [r sent] eqn:Er. destruct (run answering 0 (broker_credentials _ _)) as [r' sent'] eqn:Er'.
  vm_compute in Er. injection Er as <- <-. vm_compute in Er'. injection Er' as <- <-.
  split; [vm_compute; reflexivity|]. split; [reflexivity|]. split; [reflexivity|]. split; [exact (proj1 Hs)|exact (proj1 Hi)].
Defined.

Definition example_started (token : text) : result StartedCalls AuthError * list Request :=
  @run _ answering 0 (@start example_json plain_texts plain_urls token (ascii "device") false).

(** Two tokens and the same answers: four requests each, of which only the first
    differs. *)
Lemma token_confined_witness :
  Forall2 same_to_others (snd (example_started (ascii "one"))) (snd (example_started (ascii "another")))
  /\ length (snd (example_started (ascii "one"))) = 4%nat
  /\ drop 1 (snd (example_started (ascii "one"))) = drop 1 (snd (example_started (ascii "another"))).
Proof.
  assert (scripted answering) as Hs by (intros n r1 r2; reflexivity).
  split; [|split; vm_compute; reflexivity].
  assert (zlen (trim (ascii "one")) <> 0) as H1 by (vm_compute; done). assert (zlen (trim (ascii "another")) <> 0) as H2 by (vm_compute; done).
  pose proof (@token_confined example_json plain_texts plain_urls toy_sha256 (ascii "one") (ascii "another") (ascii "device") false
    [] 1 [] [] [] answering 0 H1 H2 Hs) as [Ht _]. revert Ht. unfold example_started.
  destruct (run answering 0 (start (ascii "one") _ _)), (run answering 0 (start (ascii "another") _ _)). intros Ht. exact (proj2 Ht).
Defined.
