(* ===== verification/VkAuth.v ===== *)
(** * VkAuth: getting the credentials of a call

    Models [VkAuth] of [auth.rs] with the checks of the call's link: the five
    requests of the direct path and its retries, the older path with its captcha,
    the account's broker before them, the lockout after a captcha that is not
    solved, and the list of client ids. *)

From Stdlib Require Import Strings.String.
From S2P Require Import Prelude Bytes Text Credentials TurnEndpoint Engine Web Profiles WebClient CaptchaPage CaptchaClient CaptchaSlider CaptchaFlow VkResponses VkCalls.

Definition VK_CONNECT_CLIENT_ID : text := ascii "8093730".
Definition VK_CALLS_API_HOST : text := ascii "api.vk.me".
Definition VK_CALLS_API_VERSION : text := ascii "5.276".

Record VkCredentials : Type := mkVkCredentials { client_id : text; client_secret : text }.
Inductive AuthMode : Type := AutoJs | Legacy | VkCallsFirst.

(** The lockout is behind the calls [LoadLockout] and [StoreLockout];
    [skip_vk_calls] is whether VK_SKIP_VKCALLS is set to 1. *)
Record VkAuth : Type := mkAuth {
  auth_mode : AuthMode;
  auto_js : option CredentialBroker;
  auth_profile : Profile;
  credentials : list VkCredentials;
  captcha_mode : SolverMode;
  captcha_only_print : bool;
  skip_vk_calls : bool;
}.

(** The mode that [VkAuth::new] keeps. *)
Definition auth_mode_of (mode : text) : AuthMode :=
  if eq_ignore_ascii_case mode (ascii "auto_js") then AutoJs
  else if eq_ignore_ascii_case mode (ascii "legacy") then Legacy else VkCallsFirst.

(** ** Client ids *)

Definition known_secret (id : text) : option text :=
  if bytes_eqb id (ascii "8202606") then Some (ascii "lMRsTiMCyPnp5vfoldmn")
  else if bytes_eqb id (ascii "6287487") then Some (ascii "MuAxFaKDYDOICzGnEOhp") else None.

Definition DEFAULT_CREDENTIALS : list VkCredentials :=
  [mkVkCredentials (ascii "8202606") (ascii "lMRsTiMCyPnp5vfoldmn"); mkVkCredentials (ascii "6287487") (ascii "MuAxFaKDYDOICzGnEOhp")].

(** [variable] is CSQTT_VK_CREDENTIALS. *)
Definition load_credentials (client_ids : list text) (variable : option text) : list VkCredentials :=
  let from_ids := filter_map (fun id => option_map (mkVkCredentials (trim id)) (known_secret (trim id))) client_ids in
  match from_ids with
  | _ :: _ => from_ids
  | [] =>
      let parsed := match variable with
        | None => []
        | Some v =>
            filter_map (fun pair => bind_opt (split_once 0x3a (trim pair)) (fun '(id, secret) =>
              if nonempty (trim id) && nonempty (trim secret) then Some (mkVkCredentials (trim id) (trim secret)) else None))
              (split 0x2c v)
        end in
      match parsed with _ :: _ => parsed | [] => DEFAULT_CREDENTIALS end
  end.

Definition load_vk_auth (mode : text) (profile : Profile) (client_ids : list text) (variable : option text) (captcha : SolverMode)
    (only_print skip : bool) (auto_js : option CredentialBroker) : VkAuth :=
  mkAuth (auth_mode_of mode) auto_js profile (load_credentials client_ids variable) captcha only_print skip.

(** [client_ids] *)
Fixpoint comma_joined (l : list text) : text :=
  match l with [] => [] | [x] => x | x :: l => x ++ ascii ", " ++ comma_joined l end.
Definition client_ids (a : VkAuth) : text := comma_joined (map client_id (credentials a)).

Section Auth.
Context `{Json} `{Headers} `{Device} `{Base64} `{Floats} `{Pictures} `{Urls} `{PageScan} `{Sha256} `{Serializers} `{ParsedUrls}.

(** ** Requests *)

Definition browser_headers (p : Profile) : option HeaderMap :=
  bind_opt (insert_known [] (ascii "user-agent") (user_agent p)) (fun m =>
  bind_opt (insert_known m (ascii "sec-ch-ua") (sec_ch_ua p)) (fun m =>
  bind_opt (insert_known m (ascii "sec-ch-ua-mobile") (sec_ch_ua_mobile p)) (fun m =>
  bind_opt (insert_known m (ascii "sec-ch-ua-platform") (sec_ch_ua_platform p)) (fun m =>
  Some (foldl (fun m kv => insert_static m (fst kv) (snd kv)) m
    [(ascii "accept", ascii "*/*"); (ascii "accept-language", ascii "ru-RU,ru;q=0.9,en-US;q=0.8,en;q=0.7"); (ascii "dnt", ascii "1")]))))).

Definition empty_headers (p : Profile) : option HeaderMap :=
  bind_opt (insert_known [] (ascii "user-agent") (user_agent p)) (fun m =>
  Some (foldl (fun m kv => insert_static m (fst kv) (snd kv)) m
    [(ascii "accept", ascii "*/*"); (ascii "accept-encoding", ascii "gzip, deflate, br, zstd"); (ascii "accept-language", ascii "en-GB,en;q=0.9")])).

Definition form_headers (p : Profile) : option HeaderMap :=
  bind_opt (browser_headers p) (fun m => Some (foldl (fun m kv => insert_static m (fst kv) (snd kv)) m
    [(ascii "content-type", ascii "application/x-www-form-urlencoded"); (ascii "origin", ascii "https://vk.ru"); (ascii "referer", ascii "https://vk.ru/");
     (ascii "sec-fetch-site", ascii "same-site"); (ascii "sec-fetch-mode", ascii "cors"); (ascii "sec-fetch-dest", ascii "empty");
     (ascii "priority", ascii "u=1, i")])).

(** The end of both: the text of the error has the first 200 bytes of an answer
    that is not JSON. *)
Definition read_answer (what : text) (a : result Response text) : result value AuthError :=
  match a with
  | Err e => Err (Message e)
  | Ok response =>
      match parse_json (content response) with
      | Some v => Ok v
      | None => Err (Message (what ++ from_utf8_lossy (firstn 200 (content response))))
      end
  end.

Definition send_post (headers : option HeaderMap) (endpoint : text) (data : option text) (what : text) : prog (result value AuthError) :=
  match headers with
  | None => Done (Err (Message (ascii "failed to parse header value")))
  | Some h => a <- call (Send (mkRequest POST endpoint h data)) ;; Done (read_answer what a)
  end.

Definition post_empty (endpoint : text) (p : Profile) : prog (result value AuthError) :=
  send_post (empty_headers p) endpoint None (ascii "unmarshal JSON: ").
Definition auth_post_form (endpoint data : text) (p : Profile) : prog (result value AuthError) :=
  send_post (form_headers p) endpoint (Some data) (ascii "decode response: ").

Definition new_client : prog (result unit AuthError) :=
  failed <- call NewClient ;;
  Done (match failed with Some e => Err (WithContext (ascii "failed to initialize HTTP client") (Message e)) | None => Ok tt end).

Definition random_delay (lo hi : Z) : prog bool := call (Pause lo (hi + 1)).

(** ** The direct path *)

Definition call_link (link : text) : text := ascii "https://vk.com/call/join/" ++ link.
Definition calls_method (name : text) : text :=
  ascii "https://" ++ VK_CALLS_API_HOST ++ ascii "/method/" ++ name ++ ascii "?v=" ++ VK_CALLS_API_VERSION.
Definition OK_ENDPOINT : text := ascii "https://calls.okcdn.ru/fb.do".
Definition APPLICATION : text := ascii "&format=JSON&application_key=CGMMEJLGDIHBABABA".

Definition anonym_token_url (link_url device_id name : text) : text :=
  calls_method (ascii "auth.getAnonymToken") ++ ascii "&client_id=" ++ VK_CONNECT_CLIENT_ID ++ ascii "&link=" ++ link_url
    ++ ascii "&device_id=" ++ device_id ++ ascii "&anonymName=" ++ name ++ ascii "&lang=en".
Definition preview_url (token device_id link_url : text) : text :=
  calls_method (ascii "messages.getCallPreview") ++ ascii "&anonymous_token=" ++ token ++ ascii "&device_id=" ++ device_id
    ++ ascii "&extended=1&fields=first_name,last_name,photo_200&lang=en&link=" ++ link_url.

(** Quotes, which are code point 0x22, around a text. *)
Definition quoted (t : text) : text := 0x22 :: t ++ [0x22].

(** The JSON that both paths write for the session. *)
Definition session_json (device_id rest : text) : text :=
  0x7b :: quoted (ascii "version") ++ ascii ":2," ++ quoted (ascii "device_id") ++ 0x3a :: quoted device_id ++ rest ++ [0x7d].

Definition vk_calls_path (a : VkAuth) (link : text) : prog (result TurnCredentials AuthError) :=
  if skip_vk_calls a then Done (Err (Message (ascii "step=preflight kind=skipped: disabled by VK_SKIP_VKCALLS=1"))) else
  let profile := auth_profile a in
  _ <-? new_client ;;
  device_id <- call NewUuid ;;
  name <- call NewName ;;
  let link_url := query_escape (call_link link) in
  let name_encoded := query_escape name in
  response1 <-? post_empty (anonym_token_url link_url device_id name_encoded) profile ;;
  anonymous_token <-? Done (json_string response1 [ascii "response"; ascii "token"]) ;;
  let token_encoded := query_escape anonymous_token in
  response2 <-? post_empty (preview_url token_encoded device_id link_url) profile ;;
  _ <-? Done (check_vk_error response2) ;;
  user_id <-? Done (json_number response2 [ascii "response"; ascii "user_id"]) ;;
  secret <-? Done (json_string response2 [ascii "response"; ascii "secret"]) ;;
  response3 <-? post_empty (calls_method (ascii "messages.getAnonymCallToken") ++ ascii "&anonymous_token=" ++ token_encoded
    ++ ascii "&device_id=" ++ device_id ++ ascii "&link=" ++ link_url ++ ascii "&name=" ++ name_encoded
    ++ ascii "&user_id=" ++ i32_to_string user_id ++ ascii "&secret=" ++ query_escape secret ++ ascii "&lang=en") profile ;;
  _ <-? Done (check_vk_error response3) ;;
  ok_token <-? Done (json_string response3 [ascii "response"; ascii "token"]) ;;
  ok_device_id <- call NewUuid ;;
  let session_data := query_escape (session_json ok_device_id (0x2c :: quoted (ascii "client_version") ++ 0x3a :: quoted (ascii "1.0.1"))) in
  response4 <-? post_empty (OK_ENDPOINT ++ ascii "?session_data=" ++ session_data ++ ascii "&method=auth.anonymLogin" ++ APPLICATION) profile ;;
  session_key <-? Done (json_string response4 [ascii "session_key"]) ;;
  response5 <-? post_empty (OK_ENDPOINT ++ ascii "?joinLink=" ++ link ++ ascii "&isVideo=false&protocolVersion=5&anonymToken=" ++ ok_token
    ++ ascii "&method=vchat.joinConversationByLink" ++ APPLICATION ++ ascii "&session_key=" ++ session_key) profile ;;
  _ <-? Done (check_ok_error response5) ;;
  Done (parse_turn_credentials response5).

(** Two attempts, the second after a pause; a call that is gone ends them. *)
Definition vk_calls_with_retries (a : VkAuth) (link : text) : prog (result TurnCredentials AuthError) :=
  r <- vk_calls_path a link ;;
  match r with
  | Ok c => Done (Ok c)
  | Err e =>
      if is_unavailable e then Done (Err e)
      else _ <- random_delay 300 500 ;; vk_calls_path a link
  end.

(** ** The older path *)

Definition login_form (c : VkCredentials) : text :=
  ascii "client_id=" ++ client_id c ++ ascii "&token_type=messages&client_secret=" ++ client_secret c ++ ascii "&version=1&app_id=" ++ client_id c.
Definition LOGIN_URL : text := ascii "https://login.vk.ru/?act=get_anonym_token".
Definition calls_url (name : text) (c : VkCredentials) : text :=
  ascii "https://api.vk.ru/method/calls." ++ name ++ ascii "?v=5.275&client_id=" ++ client_id c.

Definition join_form (link name token : text) (captcha : option (VkCaptchaError * text)) : text :=
  ascii "vk_join_link=" ++ call_link link ++ ascii "&name=" ++ name ++
  match captcha with
  | None => []
  | Some (c, success) =>
      let attempt := if negb (nonempty (captcha_attempt c)) || bytes_eqb (captcha_attempt c) (ascii "0") then ascii "1" else captcha_attempt c in
      ascii "&captcha_key=&captcha_sid=" ++ captcha_sid c ++ ascii "&is_sound_captcha=0&success_token=" ++ query_escape success
        ++ ascii "&captcha_ts=" ++ captcha_timestamp c ++ ascii "&captcha_attempt=" ++ attempt
  end ++ ascii "&access_token=" ++ token.

(** The loop around the captcha: [tries] are the captchas that it still solves. *)
Fixpoint token_loop (tries : nat) (a : VkAuth) (saved : option SavedProfile) (endpoint link name token : text) (data : text)
    : prog (result text AuthError) :=
  response <-? auth_post_form endpoint data (auth_profile a) ;;
  match jget response (ascii "error") with
  | None => Done (json_string response [ascii "response"; ascii "token"])
  | Some error =>
      _ <-? Done (check_fatal_call response) ;;
      captcha <-? ensure (from_json error) (Message (ascii "invalid VK captcha response: " ++ show_json error)) ;;
      if negb (nonempty (redirect_uri captcha)) || negb (nonempty (session_token captcha))
      then Done (Err (Message (ascii "VK API error: " ++ show_json error)))
      else match tries with
        | O => Done (Err CaptchaWait)
        | S tries =>
            r <- solve (captcha_mode a) (captcha_only_print a) (mkSession (auth_profile a) saved) captcha ;;
            match r with
            | Err _ => Done (Err CaptchaWait)
            | Ok success => token_loop tries a saved endpoint link name token (join_form link name token (Some (captcha, success)))
            end
        end
  end.

Definition CAPTCHA_TRIES : nat := 3.

Definition legacy_path (a : VkAuth) (link : text) (c : VkCredentials) (saved : option SavedProfile) : prog (result TurnCredentials AuthError) :=
  let profile := auth_profile a in
  name <- call NewName ;;
  let escaped_name := query_escape name in
  response <-? auth_post_form LOGIN_URL (login_form c) profile ;;
  token1 <-? Done (json_string response [ascii "data"; ascii "access_token"]) ;;
  _ <- random_delay 100 150 ;;
  r <- auth_post_form (calls_url (ascii "getCallPreview") c)
    (ascii "vk_join_link=" ++ call_link link ++ ascii "&fields=photo_200&access_token=" ++ token1) profile ;;
  _ <-? Done (match r with Ok v => check_fatal_call v | Err _ => Ok tt end) ;;
  _ <- random_delay 200 400 ;;
  token2 <-? token_loop CAPTCHA_TRIES a saved (calls_url (ascii "getAnonymousToken") c) link escaped_name token1
    (join_form link escaped_name token1 None) ;;
  _ <- random_delay 100 150 ;;
  device_id <- call NewUuid ;;
  let session_data := session_json device_id
    (0x2c :: quoted (ascii "client_version") ++ ascii ":1.1," ++ quoted (ascii "client_type") ++ 0x3a :: quoted (ascii "SDK_JS")) in
  login <-? auth_post_form OK_ENDPOINT (ascii "session_data=" ++ query_escape session_data ++ ascii "&method=auth.anonymLogin" ++ APPLICATION) profile ;;
  session_key <-? Done (json_string login [ascii "session_key"]) ;;
  _ <- random_delay 100 150 ;;
  response <-? auth_post_form OK_ENDPOINT (ascii "joinLink=" ++ link ++ ascii "&isVideo=false&protocolVersion=5&capabilities=2F7F&anonymToken="
    ++ token2 ++ ascii "&method=vchat.joinConversationByLink" ++ APPLICATION ++ ascii "&session_key=" ++ session_key) profile ;;
  Done (parse_turn_credentials response).

(** [error.to_string().contains(..)], which is asked of the errors of the older path
    and looks at the outermost text. *)
Definition waits_for_captcha (e : AuthError) : bool :=
  match e with
  | CaptchaWait => true
  | Message t | WithContext t _ => contains t (ascii "CAPTCHA_WAIT_REQUIRED")
  | _ => false
  end.

(** The four attempts with the client ids in turn. *)
Fixpoint legacy_attempts (turns attempt : nat) (a : VkAuth) (link : text) (last_error : option AuthError) : prog (result TurnCredentials AuthError) :=
  let ended := Done (Err (default (Message (ascii "all VK credentials failed")) last_error)) in
  match turns with
  | O => ended
  | S turns =>
      let count := length (credentials a) in
      match credentials a !! (attempt mod Nat.max count 1)%nat with
      | None => ended
      | Some c =>
          _ <-? new_client ;;
          _ <-? new_client ;;
          saved <- call LoadProfile ;;
          r <- legacy_path a link c saved ;;
          match r with
          | Ok credentials => Done (Ok credentials)
          | Err e =>
              if is_unavailable e then Done (Err e)
              else if waits_for_captcha e then
                now <- call UnixSeconds ;;
                _ <- call (StoreLockout (now + 60)) ;;
                Done (Err e)
              else if (attempt mod count =? count - 1)%nat && (attempt <? 3)%nat then
                _ <- call (Pause 900 1800) ;;
                legacy_attempts turns (S attempt) a link (Some e)
              else legacy_attempts turns (S attempt) a link (Some e)
          end
      end
  end.

Definition LEGACY_ATTEMPTS : nat := 4.

(** ** Getting credentials *)

Definition from_broker (a : VkAuth) (credential_id : Z) : prog (result TurnCredentials AuthError) :=
  match auto_js a with
  | Some broker => broker_credentials broker credential_id
  | None => Done (Err (Message (russian "Auto JS credential broker отсутствует")))
  end.

Definition get_credentials (a : VkAuth) (seeds : gmap text TurnCredentials) (link : text) (stream_id : Z) : prog (result TurnCredentials AuthError) :=
  match lookup_seed seeds link with
  | Some seeded => Done (Ok seeded)
  | None =>
      match auth_mode a with
      | AutoJs =>
          r <- from_broker a (stream_id / 100) ;;
          match r with
          | Ok c => Done (Ok c)
          | Err auto_js_error =>
              r <- vk_calls_with_retries a link ;;
              Done (match r with Ok c => Ok c | Err auto_error => Err (BothFailed auto_js_error auto_error) end)
          end
      | mode =>
          now <- call UnixSeconds ;;
          until <- call LoadLockout ;;
          if now <? until then Done (Err CaptchaWait) else
          match mode with
          | VkCallsFirst =>
              r <- vk_calls_with_retries a link ;;
              match r with
              | Ok c => Done (Ok c)
              | Err e => if is_unavailable e then Done (Err e) else legacy_attempts LEGACY_ATTEMPTS 0 a link None
              end
          | _ => legacy_attempts LEGACY_ATTEMPTS 0 a link None
          end
      end
  end.

(** ** Checking links *)

Definition check_vk_hash_attempt (profile : Profile) (hash : text) : prog (result VkHashCheck AuthError) :=
  _ <-? new_client ;;
  device_id <- call NewUuid ;;
  name <- call NewName ;;
  let link_url := query_escape (call_link hash) in
  token_response <-? post_empty (anonym_token_url link_url device_id (query_escape name)) profile ;;
  checked <-? Done (classify_vk_hash_error token_response) ;;
  match checked with
  | Some r => Done (Ok r)
  | None =>
      token <-? Done (json_string token_response [ascii "response"; ascii "token"]) ;;
      preview_response <-? post_empty (preview_url (query_escape token) device_id link_url) profile ;;
      checked <-? Done (classify_vk_hash_error preview_response) ;;
      match checked with
      | Some r => Done (Ok r)
      | None =>
          _ <-? Done (json_number preview_response [ascii "response"; ascii "user_id"]) ;;
          _ <-? Done (json_string preview_response [ascii "response"; ascii "secret"]) ;;
          Done (Ok Valid)
      end
  end.

Fixpoint check_attempts (turns : nat) (profile : Profile) (hash : text) (last_error : option AuthError) : prog VkHashCheck :=
  match turns with
  | O => Done (Unavailable (default (Message (ascii "VK client credentials are unavailable")) last_error))
  | S turns =>
      r <- check_vk_hash_attempt profile hash ;;
      match r with
      | Ok checked => Done checked
      | Err e => _ <- random_delay 180 260 ;; check_attempts turns profile hash (Some e)
      end
  end.
Definition check_vk_hash (profile : Profile) (hash : text) : prog VkHashCheck := check_attempts 2 profile hash None.

(** With the profile of the fingerprint. *)
Fixpoint check_vk_hashes (profile : Profile) (hashes : list text) : prog (list (text * VkHashCheck)) :=
  match hashes with
  | [] => Done []
  | hash :: rest =>
      r <- check_vk_hash profile hash ;;
      match rest with
      | [] => Done [(hash, r)]
      | _ => _ <- random_delay 180 260 ;; results <- check_vk_hashes profile rest ;; Done ((hash, r) :: results)
      end
  end.
End Auth.

(** ** Where the requests go, and how many there are *)

Section AuthFacts.
Context `{Json} `{Headers} `{Device} `{Base64} `{Floats} `{Pictures} `{Urls} `{PageScan} `{Sha256} `{Serializers} `{ParsedUrls}.

Definition known_address (u : text) : Prop :=
  (exists rest, u = ascii "https://api.vk.me/method/" ++ rest) \/ (exists rest, u = ascii "https://api.vk.ru/method/calls." ++ rest)
  \/ u = OK_ENDPOINT \/ (exists query, u = OK_ENDPOINT ++ ascii "?" ++ query) \/ u = LOGIN_URL.
Definition auth_request (r : Request) : Prop := method r = POST /\ known_address (url r).
Definition usable (c : TurnCredentials) : Prop :=
  tc_server_addresses c <> [] /\ Forall (fun a => is_supported_turn_uri a = true) (tc_server_addresses c).

Lemma api_me_known name rest : known_address (calls_method name ++ rest).
Proof. left. unfold calls_method, VK_CALLS_API_HOST. eexists. rewrite <- !app_assoc. reflexivity. Qed.

Lemma ok_query_known q : known_address (OK_ENDPOINT ++ ascii "?" ++ q).
Proof. right; right; right; left. by exists q. Qed.

Lemma calls_url_known name c : known_address (calls_url name c).
Proof. right; left. unfold calls_url. eexists. reflexivity. Qed.

Lemma wp_send_post h u d w : known_address u -> wp auth_request (fun _ _ => True) 1 (send_post h u d w).
Proof. intros Hu. unfold send_post. destruct h as [h|]; [|done]. cbn [bind call wp sent_by]. by split. Qed.

Lemma wp_new_client P Q n (k : result unit AuthError -> prog (result TurnCredentials AuthError)) :
  (forall r, wp P Q n (k r)) -> wp P Q n (bind new_client k).
Proof. intros Hk. apply wp_bind. cbn [new_client bind call wp sent_by]. intros [e|] _; apply Hk. Qed.

Ltac step_post := eapply wp_then; [apply wp_send_post|lia|]; [| intros [?v|?e] ?m ?Hm _; [cbn [bind]|done]].
Ltac step_pure := match goal with |- wp _ _ _ (match ?x with Ok _ => _ | Err _ => _ end) => destruct x; [cbn [bind]|done] end.

Lemma wp_vk_calls_path a link :
  wp auth_request (fun _ r => match r with Ok c => usable c | Err _ => True end) 5 (vk_calls_path a link).
Proof.
  unfold vk_calls_path. destruct (skip_vk_calls a); [done|]. cbv zeta. apply wp_new_client. intros [u|e]; [|done].
  cbn [bind call wp sent_by]. intros device _ name _. unfold post_empty.
  step_post; [apply api_me_known|]. step_pure. step_post; [apply api_me_known|]. do 3 step_pure.
  step_post; [apply api_me_known|]. do 2 step_pure. cbn [call wp sent_by]. intros ok_device _.
  step_post; [apply ok_query_known|]. step_pure. step_post; [apply ok_query_known|]. step_pure.
  destruct (parse_turn_credentials _) as [c|] eqn:Ec; [|done]. by apply parsed_usable in Ec.
Qed.

Lemma wp_retries a link :
  wp auth_request (fun _ r => match r with Ok c => usable c | Err _ => True end) 10 (vk_calls_with_retries a link).
Proof.
  eapply wp_then; [apply wp_vk_calls_path|lia|]. intros [c|e] m Hm Hc; [done|]. destruct (is_unavailable e); [done|].
  cbn [bind call wp sent_by random_delay]. intros _ _. eapply wp_within; [apply wp_vk_calls_path|lia|done].
Qed.

(** ** The older path, whose captcha has no bound on its requests *)

(** A request to VK or to the call service. *)
Definition service_request (r : Request) : Prop := auth_request r \/ call_request r.

(** VK has asked for this captcha: it is in the error of an answer that
    [calls.getAnonymousToken] gave. *)
Definition asked_for (h : list Exchange) (captcha : VkCaptchaError) : Prop :=
  exists r response v e, (r, Ok response) ∈ h /\ method r = POST /\ (exists c, url r = calls_url (ascii "getAnonymousToken") c)
    /\ parse_json (content response) = Some v /\ jget v (ascii "error") = Some e /\ from_json e = Some captcha.

(** What may be requested once these exchanges are over. *)
Definition known_after (h : list Exchange) (r : Request) : Prop :=
  service_request r \/ exists captcha, asked_for h captcha /\ captcha_request captcha r.

Lemma asked_for_prefix h h' captcha : h `prefix_of` h' -> asked_for h captcha -> asked_for h' captcha.
Proof. intros [k ->] (r & response & v & e & Hin & ?). exists r, response, v, e. split; [|done]. apply elem_of_app. by left. Qed.

Definition outcome (r : result TurnCredentials AuthError) : Prop := match r with Ok c => usable c | Err _ => True end.

(** What an answer says, and that it is there. *)
Definition answered (u : text) (h : list Exchange) (r : result value AuthError) : Prop :=
  match r with
  | Ok v => exists request response, (request, Ok response) ∈ h /\ method request = POST /\ url request = u
      /\ parse_json (content response) = Some v
  | Err _ => True
  end.

Lemma traced_post h u data profile : known_address u -> traced known_after (answered u) h (auth_post_form u data profile).
Proof.
  intros Hu. unfold auth_post_form, send_post. destruct (form_headers profile) as [m|]; [|done].
  cbn [bind call traced sent_by]. split; [by left; left|]. intros [response|e] _; [|done]. cbn [read_answer exchanged option_list].
  destruct (parse_json (content response)) as [v|] eqn:Ev; [|done]. exists (mkRequest POST u m (Some data)), response.
  split; [|done]. apply elem_of_app. right. by apply list_elem_of_singleton.
Qed.

Lemma traced_services {A} (Q : A -> Prop) h p : always service_request Q p -> traced known_after (fun _ => Q) h p.
Proof.
  intros Hp. eapply traced_mono; [|eapply always_traced; [exact Hp|]]; [by intros h' a [_ Ha]|]. intros h' r _ Hr. by left.
Qed.

Ltac next_post := eapply traced_then; [apply traced_post|intros ?h [?v|?e] ?Hv; [cbn [bind]|done]].
Ltac next_pure := match goal with |- traced _ _ _ (match ?x with Ok _ => _ | Err _ => _ end) => destruct x; [cbn [bind]|done] end.
Ltac next_call := cbn [bind call traced sent_by random_delay new_client]; split; [done|].

Lemma traced_token_loop tries a saved c link name token : forall h data,
  traced known_after (fun _ _ => True) h (token_loop tries a saved (calls_url (ascii "getAnonymousToken") c) link name token data).
Proof.
  induction tries as [|tries IH]; intros h data; cbn [token_loop]; (next_post; [apply calls_url_known|]);
    (destruct (jget _ _) as [error|] eqn:Ej; [|done]); cbn [bind]; next_pure;
    (destruct (from_json error) as [captcha|] eqn:Ef; [|done]); cbn [bind ensure]; (destruct (_ || _); [done|]); [done|].
  assert (asked_for h0 captcha) as Hasked.
  { destruct Hv as (r & response & Hin & Hm & Hu & Hp). exists r, response, v, error. split; [done|]. split; [done|]. split; [by exists c|done]. }
  eapply traced_then.
  - eapply always_traced; [apply always_solve|]. intros h' r Hh Hr. right. exists captcha. split; [|exact Hr]. by eapply asked_for_prefix.
  - intros h' [success|e] _; [apply IH|done].
Qed.

Lemma traced_legacy_path h a link c saved : traced known_after (fun _ => outcome) h (legacy_path a link c saved).
Proof.
  unfold legacy_path. cbv zeta. next_call. intros name _. next_post; [by repeat right|]. next_pure. next_call. intros ?unit _.
  eapply traced_then; [apply traced_post, calls_url_known|]. intros h1 r _. cbn [bind]. next_pure. next_call. intros ?unit _.
  eapply traced_then; [apply traced_token_loop|]. intros h2 [token2|e] _; [|done].
  next_call. intros ?unit _. next_call. intros device _. next_post; [right; right; by left|]. next_pure. next_call. intros ?unit _.
  next_post; [right; right; by left|]. destruct (parse_turn_credentials _) as [t|] eqn:Et; [|done]. by apply parsed_usable in Et.
Qed.

Lemma traced_legacy_attempts turns : forall h attempt a link last_error,
  traced known_after (fun _ => outcome) h (legacy_attempts turns attempt a link last_error).
Proof.
  induction turns as [|turns IH]; intros h attempt a link last_error; cbn [legacy_attempts]; [done|]. cbv zeta.
  destruct (credentials a !! _) as [c|]; [|done]. next_call. intros [e|] _; [done|]. next_call. intros [e|] _; [done|].
  next_call. intros saved _. eapply traced_then; [apply traced_legacy_path|]. intros h1 [t|e] Ht; [done|].
  destruct (is_unavailable e); [done|]. destruct (waits_for_captcha e).
  { next_call. intros now _. next_call. intros ?unit _. done. }
  destruct (_ && _); [next_call; intros ?unit _|]; apply IH.
Qed.

Lemma wp_from_broker a credential_id : serializes ->
  wp service_request (fun _ r => outcome r) 9 (from_broker a credential_id).
Proof.
  intros Hs. unfold from_broker. destruct (auto_js a) as [broker|]; [|done].
  eapply wp_mono; [| |by apply wp_broker]; [by right|]. intros m [c|e]; [by intros (_ & ?)|done].
Qed.

Lemma wp_auto_js a seeds link stream_id : serializes -> lookup_seed seeds link = None -> auth_mode a = AutoJs ->
  wp service_request (fun _ r => match r with Ok c => usable c | Err e => is_unavailable e = false end) 19 (get_credentials a seeds link stream_id).
Proof.
  intros Hs Hseed Hm. unfold get_credentials. rewrite Hseed, Hm. eapply wp_then; [by apply wp_from_broker|lia|].
  intros [c|js] m Hl Hc; [done|]. eapply (wp_then _ outcome _ 10); [|lia|by intros [c|e] k _ Hc'].
  eapply wp_mono; [| |apply wp_retries]; [by left|done].
Qed.

Lemma traced_get h a seeds link stream_id : serializes -> lookup_seed seeds link = None ->
  traced known_after (fun _ => outcome) h (get_credentials a seeds link stream_id).
Proof.
  intros Hs Hseed. destruct (auth_mode a) eqn:Hm.
  { eapply traced_services, wp_always, wp_mono; [done| |by apply wp_auto_js]. by intros _ [c|e]. }
  all: unfold get_credentials; rewrite Hseed, Hm; next_call; intros now _; next_call; intros limit _; destruct (now <? limit); [done|].
  { apply traced_legacy_attempts. }
  eapply traced_then; [eapply traced_services, (always_mono auth_request service_request); [by left|intros r Hr; exact Hr|eapply wp_always, wp_retries]|].
  intros h1 [c|e] Hc; [done|]. destruct (is_unavailable e); [done|apply traced_legacy_attempts].
Qed.

(** C15: getting the credentials of a call ends whatever is answered, in credentials
    that were seeded for it or that name a usable address, or in an error. Every
    request goes to a method of VK, to the one path of the call service or to a host
    that the call service may have; only once VK has asked for a captcha, in its
    answer to the request for a token, is the page fetched whose address that answer
    gave, and are the forms of that captcha sent to VK. With an account at
    most nineteen requests are sent, and the failure is never known as that of a
    call that is gone. *)
Theorem credentials_confined a seeds link stream_id o n :
  serializes -> oracle_ok o ->
  let '(r, log) := run_log o n (get_credentials a seeds link stream_id) in
  run o n (get_credentials a seeds link stream_id) = (r, map fst log)
  /\ (forall before request answer after, log = before ++ (request, answer) :: after -> known_after before request)
  /\ match r with Ok c => lookup_seed seeds link = Some c \/ (lookup_seed seeds link = None /\ usable c) | Err _ => lookup_seed seeds link = None end
  /\ (auth_mode a = AutoJs ->
        (length log <= 19)%nat /\ Forall (fun e => service_request (fst e)) log
        /\ match r with Err e => is_unavailable e = false | Ok _ => True end).
Proof.
  intros Hs Ho. pose proof (run_log_run o n (get_credentials a seeds link stream_id)) as Hrun.
  destruct (lookup_seed seeds link) as [c|] eqn:Hseed.
  { unfold get_credentials in *. rewrite Hseed in *. cbn [run_log]. split; [done|]. split; [|split; [by left|]].
    - intros before r answer after Hl. by destruct before.
    - intros _. split; [cbn; lia|done]. }
  pose proof (traced_sound _ _ _ o n [] Ho (traced_get [] a seeds link stream_id Hs Hseed)) as Ha.
  pose proof (fun Hm => wp_sound _ _ _ _ o n Ho (wp_auto_js a seeds link stream_id Hs Hseed Hm)) as Hw. rewrite Hrun in Hw |- *.
  destruct (run_log o n _) as [r log]. destruct Ha as [Hr Hl]. cbn [fst snd] in *. split; [done|]. split; [done|].
  split; [by destruct r; [right|]|]. intros Hm. destruct (Hw Hm) as (Hf & Hn & He). rewrite length_map in *.
  split; [done|]. split; [|by destruct r]. rewrite List.Forall_map in Hf. exact Hf.
Qed.

(** ** Failures that end at once *)

(** While the lockout lasts nothing is sent. A call that is gone ends the direct
    path at its first attempt, and with it the whole: neither the second attempt
    nor the older path with its captchas is tried. *)
Lemma dead_calls_end a seeds link stream_id (o : Oracle) :
  lookup_seed seeds link = None -> auth_mode a = VkCallsFirst ->
  (o 0%nat _ UnixSeconds < o 1%nat _ LoadLockout -> run o 0 (get_credentials a seeds link stream_id) = (Err CaptchaWait, []))
  /\ (forall e sent, o 1%nat _ LoadLockout <= o 0%nat _ UnixSeconds ->
        run o 2 (vk_calls_path a link) = (Err e, sent) -> is_unavailable e = true ->
        run o 0 (get_credentials a seeds link stream_id) = (Err e, sent)).
Proof.
  intros Hseed Hm. unfold get_credentials. rewrite Hseed, Hm. cbn [bind call run sent_by]. split.
  - intros Hlt. by destruct (Z.ltb_spec (o 0%nat _ UnixSeconds) (o 1%nat _ LoadLockout)); [|lia].
  - intros e sent Hle Hp He. destruct (Z.ltb_spec (o 0%nat _ UnixSeconds) (o 1%nat _ LoadLockout)); [lia|].
    assert (run o 2 (vk_calls_with_retries a link) = (Err e, sent)) as Hr.
    { unfold vk_calls_with_retries. destruct (run_bind o 2 (vk_calls_path a link)) as [m Hb]. rewrite Hb, Hp, He. cbn [run].
      by rewrite app_nil_r. }
    destruct (run_bind o 2 (vk_calls_with_retries a link)) as [m Hb]. rewrite Hb, Hr, He. cbn [run]. by rewrite app_nil_r.
Qed.

(** ** Checking links *)

Lemma wp_check_attempt profile hash : wp auth_request (fun _ _ => True) 2 (check_vk_hash_attempt profile hash).
Proof.
  unfold check_vk_hash_attempt. cbv zeta. apply wp_bind. cbn [new_client bind call wp sent_by]. intros [e|] _; [done|].
  cbn [bind call wp sent_by]. intros device _ name _. unfold post_empty.
  step_post; [apply api_me_known|]. destruct (classify_vk_hash_error _) as [[c|]|e]; [done| |done]. cbn [bind]. step_pure.
  step_post; [apply api_me_known|]. destruct (classify_vk_hash_error _) as [[c|]|e]; [done| |done]. cbn [bind].
  destruct (json_number _ _); [|done]. cbn [bind]. by destruct (json_string _ _).
Qed.

Lemma wp_check_hash profile hash : wp auth_request (fun _ _ => True) 4 (check_vk_hash profile hash).
Proof.
  unfold check_vk_hash. generalize (@None AuthError). change 4%nat with (2 * 2)%nat. generalize 2%nat at 1 3. intros turns.
  induction turns as [|turns IH]; intros last_error; cbn [check_attempts]; [done|].
  eapply wp_then; [apply wp_check_attempt|lia|]. intros [c|e] m Hm _; [done|]. cbn [bind call wp sent_by random_delay].
  intros _ _. eapply wp_within; [apply IH|lia|done].
Qed.

Lemma wp_check_hashes profile hashes :
  wp auth_request (fun _ r => map fst r = hashes) (4 * length hashes) (check_vk_hashes profile hashes).
Proof.
  induction hashes as [|hash rest IH]; [done|]. cbn [check_vk_hashes].
  eapply wp_then; [apply wp_check_hash|cbn; lia|]. intros r m Hm _. destruct rest as [|h rest]; [done|].
  cbn [bind call wp sent_by random_delay]. intros _ _.
  eapply wp_then; [exact IH|cbn in *; lia|]. intros results k _ Hr. cbn [wp map fst]. by rewrite Hr.
Qed.

(** Checking links gives each of them one verdict, in their order, with at most
    four requests to VK for a link, whatever is answered. *)
Lemma links_checked profile hashes o n :
  oracle_ok o ->
  let '(r, sent) := run o n (check_vk_hashes profile hashes) in
  map fst r = hashes /\ (length sent <= 4 * length hashes)%nat /\ Forall auth_request sent.
Proof.
  intros Ho. pose proof (wp_sound _ _ _ _ o n Ho (wp_check_hashes profile hashes)) as Hw.
  destruct (run o n _) as [r sent]. by destruct Hw as (? & ? & ?).
Qed.

(** ** Client ids *)

Definition complete (c : VkCredentials) : Prop := nonempty (client_id c) = true /\ nonempty (client_secret c) = true.

Lemma known_complete id secret : known_secret (trim id) = Some secret -> complete (mkVkCredentials (trim id) secret).
Proof.
  unfold known_secret, complete. cbn [client_id client_secret].
  destruct (bytes_eqb (trim id) (ascii "8202606")) eqn:E1; [apply bytes_eqb_eq in E1 as ->; intros <-%(inj Some); split; reflexivity|].
  destruct (bytes_eqb (trim id) (ascii "6287487")) eqn:E2; [apply bytes_eqb_eq in E2 as ->; intros <-%(inj Some); split; reflexivity|done].
Qed.

(** There is always a client id to try, with its secret. *)
Lemma loaded_complete client_ids variable :
  load_credentials client_ids variable <> [] /\ Forall complete (load_credentials client_ids variable).
Proof.
  unfold load_credentials. cbv zeta. destruct (filter_map _ client_ids) as [|c l] eqn:E.
  - match goal with |- context [match ?p with [] => DEFAULT_CREDENTIALS | _ :: _ => _ end] => destruct p as [|c l] eqn:Ep end.
    { split; [done|]. by repeat constructor. }
    split; [done|]. destruct variable as [v|]; [|done]. apply List.Forall_forall. intros x Hx. rewrite <- Ep in Hx.
    apply list_elem_of_In, filter_map_spec in Hx as (pair & _ & Hx). destruct (split_once 0x3a (trim pair)) as [[id secret]|]; [|done].
    cbn [bind_opt] in Hx. destruct (_ && _) eqn:En; [|done]. injection Hx as <-. by apply andb_true_iff in En.
  - split; [done|]. apply List.Forall_forall. intros x Hx. rewrite <- E in Hx. apply list_elem_of_In, filter_map_spec in Hx as (id & _ & Hx).
    destruct (known_secret (trim id)) as [secret|] eqn:Ek; [|done]. injection Hx as <-. by apply known_complete.
Qed.
End AuthFacts.

(** ** Evaluated *)

Definition example_auth (mode : AuthMode) : VkAuth :=
  mkAuth mode (Some (mkBroker (ascii "token") (ascii "id"))) (profile example_session) DEFAULT_CREDENTIALS AutoMode false false.

(** An answer for every step of the direct path, and one of a call that is gone. *)
Definition joined_answer (b : bytes) : option Doc :=
  Some (DObject [(ascii "response", DObject [(ascii "token", str "t"); (ascii "user_id", DNumber 7); (ascii "secret", str "s")]);
    (ascii "session_key", str "key");
    (ascii "turn_server", DObject [(ascii "username", str "user"); (ascii "credential", str "secret"); (ascii "urls", DArray [str "turn:192.0.2.1:3478"])])]).
Definition gone_answer (b : bytes) : option Doc :=
  Some (DObject [(ascii "response", DObject [(ascii "token", str "t"); (ascii "user_id", DNumber 7); (ascii "secret", str "s")]);
    (ascii "data", DObject [(ascii "access_token", str "t")]); (ascii "session_key", str "key"); (ascii "error_code", DNumber 951)]).
(** [auth.getAnonymToken] of a call that is gone. *)
Definition refused_answer (b : bytes) : option Doc :=
  Some (DObject [(ascii "error", DObject [(ascii "error_code", DNumber 951); (ascii "error_msg", str "Call not found")])]).

Definition path_run (answers : bytes -> option Doc) (o : Oracle) (n : nat) :=
  @run _ o n (@vk_calls_path (doc_json answers) all_headers example_urls (example_auth VkCallsFirst) (ascii "hash")).
Definition get_run (answers : bytes -> option Doc) (mode : AuthMode) (o : Oracle) (n : nat) :=
  @run _ o n (@get_credentials (doc_json answers) all_headers example_device example_base64 example_floats example_pictures example_urls
    example_scan toy_sha256 plain_texts plain_urls (example_auth mode) ∅ (ascii "hash") 100).

(** The direct path answers a call that is gone at its first step with a missing
    key, where the check of the link says that it is gone. *)
Example first_step_not_read :
  fst (path_run refused_answer answering 0) = Err (Message (ascii "missing key response"))
  /\ fst (@run _ answering 0 (@check_vk_hash (doc_json refused_answer) all_headers (profile example_session) (ascii "hash")))
     = Invalid 951 (ascii "Call not found").
Proof. split; vm_compute; reflexivity. Qed.

(** The older path does not look at the error of the join, so that a call that is
    gone looks like an answer without a server; and with an account the failure is
    only a text, in which the worker cannot see that the call is gone. *)
Example dead_calls_not_seen :
  fst (path_run gone_answer answering 0) = Err (CallIsUnavailable 951 [])
  /\ fst (get_run gone_answer VkCallsFirst answering 0) = Err (CallIsUnavailable 951 [])
  /\ fst (get_run gone_answer Legacy answering 0) = Err (Message (ascii "missing turn_server in response"))
  /\ match fst (get_run gone_answer AutoJs answering 0) with Err (BothFailed _ e) => e = CallIsUnavailable 951 [] | _ => False end.
Proof. split_and!; vm_compute; reflexivity. Qed.

Definition example_credentials : TurnCredentials := mkCredentials (ascii "user") (ascii "secret") [ascii "turn:192.0.2.1:3478"].

(** What is answered to the older path: a token, and a captcha to the request for
    the other one. *)
Definition captcha_answer (b : bytes) : option Doc :=
  Some (DObject [(ascii "data", DObject [(ascii "access_token", str "t")]); (ascii "response", DObject []);
    (ascii "error", DObject [(ascii "error_code", DNumber 14); (ascii "error_msg", str "Captcha needed");
      (ascii "redirect_uri", str "https://id.vk.com/not_robot_captcha"); (ascii "captcha_sid", str "1")])]).
Definition token_urls : Urls := {| query_pairs _ := Some [(ascii "session_token", ascii "t")]; join_url _ _ := None |}.

Definition get_log (answers : bytes -> option Doc) (urls : Urls) (mode : AuthMode) :=
  @run_log _ answering 0 (@get_credentials (doc_json answers) all_headers example_device example_base64 example_floats example_pictures urls
    example_scan toy_sha256 plain_texts plain_urls (example_auth mode) ∅ (ascii "hash") 100).

(** Three requests, and then the page of the captcha that the third one asked for. *)
Lemma credentials_confined_witness :
  (exists before page answer after, snd (get_log captcha_answer token_urls Legacy) = before ++ (page, answer) :: after
     /\ length before = 3%nat /\ method page = GET /\ url page = ascii "https://id.vk.com/not_robot_captcha"
     /\ @known_after (doc_json captcha_answer) token_urls before page)
  /\ Forall (fun e => service_request (fst e)) (snd (get_log joined_answer example_urls AutoJs))
  /\ fst (get_run joined_answer AutoJs answering 0) = Ok example_credentials
  /\ length (snd (get_run joined_answer AutoJs answering 0)) = 3%nat
  /\ length (snd (get_run joined_answer VkCallsFirst answering 0)) = 5%nat.
Proof.
  split; [|split; [|split_and!; vm_compute; reflexivity]].
  - pose proof (@credentials_confined (doc_json captcha_answer) all_headers example_device example_base64 example_floats example_pictures token_urls
      example_scan toy_sha256 plain_texts plain_urls (example_auth Legacy) ∅ (ascii "hash") 100 answering 0 plain_urls_serialize (quiet_ok _ _)) as Hc.
    fold (get_log captcha_answer token_urls Legacy) in Hc.
    destruct (get_log captcha_answer token_urls Legacy) as [r log] eqn:El. destruct Hc as (_ & Hc & _).
    assert (log = snd (get_log captcha_answer token_urls Legacy)) as -> by (rewrite El; reflexivity). cbn [snd].
    destruct (snd (get_log captcha_answer token_urls Legacy)) as [|e1 [|e2 [|e3 [|[page answer] after]]]] eqn:Es;
      try (exfalso; vm_compute in Es; discriminate Es).
    assert (option_map fst (snd (get_log captcha_answer token_urls Legacy) !! 3%nat) = Some page) as Hp by (rewrite Es; reflexivity).
    exists [e1; e2; e3], page, answer, after. split; [reflexivity|]. split; [reflexivity|].
    split; [|split; [|exact (Hc [e1; e2; e3] page answer after eq_refl)]];
      clear - Hp; vm_compute in Hp; injection Hp as <-; reflexivity.
  - pose proof (@credentials_confined (doc_json joined_answer) all_headers example_device example_base64 example_floats example_pictures example_urls
      example_scan toy_sha256 plain_texts plain_urls (example_auth AutoJs) ∅ (ascii "hash") 100 answering 0 plain_urls_serialize (quiet_ok _ _)) as Hc.
    unfold get_log. destruct (run_log answering 0 _) as [r log]. destruct Hc as (_ & _ & _ & Hc). exact (proj1 (proj2 (Hc eq_refl))).
Defined.

Lemma dead_calls_end_witness :
  get_run gone_answer VkCallsFirst answering 0 = (Err (CallIsUnavailable 951 []), snd (path_run gone_answer answering 2))
  /\ length (snd (path_run gone_answer answering 2)) = 5%nat.
Proof.
  split; [|vm_compute; reflexivity].
  apply (@dead_calls_end (doc_json gone_answer) all_headers example_device example_base64 example_floats example_pictures example_urls
    example_scan toy_sha256 plain_texts plain_urls (example_auth VkCallsFirst) ∅ (ascii "hash") 100 answering).
  - vm_compute. reflexivity.
  - reflexivity.
  - vm_compute. discriminate.
  - vm_compute. reflexivity.
  - reflexivity.
Defined.

Lemma links_checked_witness :
  let checked := @run _ answering 0 (@check_vk_hashes (doc_json refused_answer) all_headers (profile example_session) [ascii "one"; ascii "two"]) in
  map fst (fst checked) = [ascii "one"; ascii "two"] /\ length (snd checked) = 2%nat.
Proof.
  pose proof (@links_checked (doc_json refused_answer) all_headers (profile example_session) [ascii "one"; ascii "two"] answering 0 (quiet_ok _ _)) as Hc.
  cbv zeta. split; [|vm_compute; reflexivity]. destruct (run answering 0 _) as [r sent]. exact (proj1 Hc).
Defined.
