(* ===== verification/Downlink.v ===== *)
(** * Downlink: the tasks that write to the interface

    Models the writers of [dispatcher.rs]: waiting for the next packet of the
    return path ([recv_return_packet], [recv_ordered_return_packet]), the writer
    of a TUN interface with its pending packet ([write_tun],
    [try_write_tun_packet]), the writer of the in-process bridge with the
    delivery to the host, and the writer of the UDP port. A writer is a state
    that moves from one await to the next; between two moves the rest of the
    program returns packets, drops senders and cancels. How the kernel answers
    is a script. *)

From stdpp Require Import relations.
From S2P Require Import Prelude Bytes FlowFrame Scheduler ArrayQueue PacketPool PacketQueue Digests StunCodec TurnMessage UdpBatch ReturnPath.

(** ** Errors of a TUN interface *)

Definition EIO : Z := 5.
Definition EBADF : Z := 9.
Definition ENOMEM : Z := 12.
Definition ENODEV : Z := 19.
Definition ENOBUFS : Z := 105.

Definition os_error_in (codes : list Z) (e : IoError) : bool :=
  match raw_os_error e with Some code => bool_decide (code ∈ codes) | None => false end.

Definition is_closed_tun_error (e : IoError) : bool := os_error_in [EIO; EBADF; ENODEV] e.
Definition is_retryable_tun_error (e : IoError) : bool :=
  bool_decide (kind e = Interrupted) || bool_decide (kind e = WouldBlock) || os_error_in [ENOBUFS; ENOMEM] e.

(** ** Writing to the interface *)

Inductive TunWriteState : Type := Complete | Continue | Wait | Backoff | Yield | Closed | Failed.

(** How the interface answers a guarded write: it takes up to so many bytes,
    fails, or is not ready after all; so after the script. *)
Inductive WriteAnswer : Type := Writes (n : Z) | WriteFails (e : IoError) | NotWritable.

(** What each write took, and the script. *)
Record TunSide : Type := mkTun { written_out : list bytes; write_answers : list WriteAnswer }.

Definition guarded_write (remaining : bytes) (d : TunSide) : option (result Z IoError) * TunSide :=
  match write_answers d with
  | [] | NotWritable :: _ => (None, mkTun (written_out d) (drop 1 (write_answers d)))
  | WriteFails e :: rest => (Some (Err e), mkTun (written_out d) rest)
  | Writes n :: rest =>
      let taken := take (Z.to_nat n) remaining in
      (Some (Ok (zlen taken)), mkTun (written_out d ++ [taken]) rest)
  end.

Definition try_write_tun_packet (d : TunSide) (total : Z) (packet : PacketBuf) (written : Z)
    : res (TunWriteState * Z * TunSide * Z) :=
  wire ← as_slice packet;
  remaining ← slice_from wire written;
  let '(result, d) := guarded_write remaining d in
  Ret (match result with
       | Some (Ok length) =>
           if length =? 0 then (Failed, written, d, total) else
           let written := written + length in
           if written =? len packet then (Complete, written, d, fetch_add_i64 total (len packet))
           else (Continue, written, d, total)
       | Some (Err e) =>
           if is_retryable_tun_error e
           then (if os_error_in [ENOBUFS; ENOMEM] e then Backoff else Yield, written, d, total)
           else if is_closed_tun_error e then (Closed, written, d, total) else (Failed, written, d, total)
       | None => (Wait, written, d, total)
       end).

(** ** The next packet of the return path *)

Section Writers.
Context {Q : Type -> Type} `{ArrayQueue Q}.

Inductive Received : Type := Got (p : PacketBuf) | Ended | Waits.

Definition all_closed (s : @Returns Q) : bool := is_closed (r_latency s) && is_closed (r_priority s) && is_closed (r_bulk s).

(** A poll of [recv_return_packet]. A poll that starts it tries the queues
    first; one that resumes its [select!] looks at the cancellation first. *)
Definition recv_return_packet (resumed cancelled : bool) (s : @Returns Q) : Received * @Returns Q :=
  if resumed && cancelled then (Ended, s) else
  match next_return_packet s with
  | (Some packet, s) => (Got packet, s)
  | (None, s) => (if all_closed s || cancelled then Ended else Waits, s)
  end.

Fixpoint receive_turns (turns : nat) (resumed cancelled : bool) (clock : nat -> Z) (r : ReturnReorder) (s : @Returns Q)
    : res (Received * ReturnReorder * @Returns Q) :=
  match turns with
  | O => Panic
  | S turns =>
      match reorder_pop r with
      | Some (packet, r) => Ret (Got packet, r, s)
      | None =>
          match recv_return_packet resumed cancelled s with
          | (Got packet, s) => r ← reorder_push (clock turns) r packet; receive_turns turns false cancelled clock r s
          | (ended, s) => Ret (ended, r, s)
          end
      end
  end.

(** A poll of [recv_ordered_return_packet]. *)
Definition recv_ordered_return_packet (resumed cancelled : bool) (clock : nat -> Z) (r : ReturnReorder) (s : @Returns Q) :=
  receive_turns (S (S (waiting s))) resumed cancelled clock r s.

(** What the writers share with the rest of the program. *)
Record World (D : Type) : Type := mkWorld {
  w_returns : @Returns Q;
  w_device : D;
  w_total_down : Z;
  w_cancelled : bool;
}.
#[global] Arguments mkWorld {D} _ _ _ _.
#[global] Arguments w_returns {D} _.
#[global] Arguments w_device {D} _.
#[global] Arguments w_total_down {D} _.
#[global] Arguments w_cancelled {D} _.

Definition set_returns {D} (w : World D) (s : @Returns Q) : World D := mkWorld s (w_device w) (w_total_down w) (w_cancelled w).
Definition set_device {D} (w : World D) (d : D) (total : Z) : World D := mkWorld (w_returns w) d total (w_cancelled w).

(** ** The writer of a TUN interface *)

(** Where the task is: at [recv_ordered_return_packet], at [writable], in a
    burst, in one of the pauses after a burst, or returned. *)
Inductive TunAt : Type := AtQueues (resumed : bool) | AtDevice | InBurst (burst : Z) | AtSleep | AtYield | TunReturned.

Record TunWriter : Type := mkTunWriter {
  t_reorder : ReturnReorder;
  t_pending : option (PacketBuf * Z);
  t_at : TunAt;
}.

Definition start_tun_writer : TunWriter := mkTunWriter new_reorder None (AtQueues false).

(** The head of the loop. *)
Definition loop_top (pending : option (PacketBuf * Z)) : TunAt :=
  match pending with None => AtQueues false | Some _ => AtDevice end.

(** After the inner loop. *)
Definition after_burst (state : TunWriteState) (pending : option (PacketBuf * Z)) : res TunAt :=
  match state with
  | Complete | Wait => Ret (loop_top pending)
  | Backoff => Ret AtSleep
  | Yield => Ret AtYield
  | Closed | Failed => Ret TunReturned
  | Continue => Panic
  end.

Definition leave_burst (state : TunWriteState) (r : ReturnReorder) (pending : option (PacketBuf * Z)) : res TunWriter :=
  position ← after_burst state pending;
  Ret (mkTunWriter r pending position).

(** One turn of the inner loop. *)
Definition burst_turn (clock : nat -> Z) (burst : Z) (t : TunWriter) (w : World TunSide) : res (TunWriter * World TunSide) :=
  match t_pending t with
  | None => Panic
  | Some (packet, written) =>
      wrote ← try_write_tun_packet (w_device w) (w_total_down w) packet written;
      let '(state, written, d, total) := wrote in
      let w := set_device w d total in
      match state with
      | Complete =>
          let burst := burst + 1 in
          if burst =? 64 then t ← leave_burst Complete (t_reorder t) None; Ret (t, w) else
          next ← next_ordered_return_packet clock (t_reorder t) (w_returns w);
          let '(next, r, s) := next in
          match next with
          | None => t ← leave_burst Complete r None; Ret (t, set_returns w s)
          | Some packet => Ret (mkTunWriter r (Some (packet, 0)) (InBurst burst), set_returns w s)
          end
      | Continue => Ret (mkTunWriter (t_reorder t) (Some (packet, written)) (InBurst burst), w)
      | state => t ← leave_burst state (t_reorder t) (Some (packet, written)); Ret (t, w)
      end
  end.

(** What the task is resumed with. *)
Inductive TunEvent : Type := Polled | Writable (r : result unit IoError) | PauseOver | SeesCancel.

Definition write_tun_turn (clock : nat -> Z) (e : TunEvent) (t : TunWriter) (w : World TunSide) : res (TunWriter * World TunSide) :=
  match t_at t, e with
  | AtQueues resumed, Polled =>
      received ← recv_ordered_return_packet resumed (w_cancelled w) clock (t_reorder t) (w_returns w);
      let '(received, r, s) := received in
      Ret (match received with
           | Got packet => mkTunWriter r (Some (packet, 0)) AtDevice
           | Ended => mkTunWriter r None TunReturned
           | Waits => mkTunWriter r None (AtQueues true)
           end, set_returns w s)
  | AtDevice, Writable (Ok _) => Ret (mkTunWriter (t_reorder t) (t_pending t) (InBurst 0), w)
  | AtDevice, Writable (Err _) => Ret (mkTunWriter (t_reorder t) (t_pending t) TunReturned, w)
  | InBurst burst, _ => burst_turn clock burst t w
  | (AtSleep | AtYield), PauseOver => Ret (mkTunWriter (t_reorder t) (t_pending t) (loop_top (t_pending t)), w)
  | (AtDevice | AtSleep), SeesCancel =>
      Ret (if w_cancelled w then mkTunWriter (t_reorder t) (t_pending t) TunReturned else t, w)
  | _, _ => Ret (t, w)
  end.

(** What the rest of the program does between two moves of a writer: it
    returns a packet, drops a sender of a queue, or cancels. *)
Inductive outside_step {D} : World D -> World D -> Prop :=
| outside_return w p s : good p -> return_packet (w_returns w) p = Ret s -> outside_step w (set_returns w s)
| outside_drop w class :
    outside_step w (set_returns w (set_return_queue (w_returns w) class (drop_sender (return_queue (w_returns w) class))))
| outside_cancel w : outside_step w (mkWorld (w_returns w) (w_device w) (w_total_down w) true).

(** The packets that a move takes out of the return path. *)
Definition taken (t t' : TunWriter) : list PacketBuf :=
  match t_at t, t_at t' with
  | AtQueues _, AtDevice => option_list (fst <$> t_pending t')
  | InBurst burst, InBurst burst' => if burst' =? burst + 1 then option_list (fst <$> t_pending t') else []
  | _, _ => []
  end.

(** A run, with the packets that the writer takes, in order. *)
Inductive tun_run (w0 : World TunSide) : list PacketBuf -> TunWriter -> World TunSide -> Prop :=
| run_start : tun_run w0 [] start_tun_writer w0
| run_outside ps t w w' : tun_run w0 ps t w -> outside_step w w' -> tun_run w0 ps t w'
| run_turn ps t w clock e t' w' : tun_run w0 ps t w -> write_tun_turn clock e t w = Ret (t', w') ->
    tun_run w0 (ps ++ taken t t') t' w'.

(** ** Facts *)

Definition wire_of (p : PacketBuf) : bytes := match as_slice p with Ret b => b | Panic => [] end.

Lemma good_wire p : good p -> as_slice p = Ret (wire_of p) /\ zlen (wire_of p) = len p /\ len p <= PACKET_CAPACITY.
Proof.
  intros Hg. unfold wire_of. destruct (good_slice p Hg) as (b & E & _). rewrite E. split; [done|].
  destruct Hg as [(_ & Hs & He) _]. apply slice_length in E. unfold len. lia.
Qed.

Lemma return_packet_good s p : returns_good s -> good p -> exists s', return_packet s p = Ret s' /\ returns_good s'.
Proof.
  intros (Hl & Hp & Hb) Hg. unfold return_packet. destruct (good_slice p Hg) as (b & -> & _ & Hv). rbind.
  destruct (packet_class_total b Hv) as [class Hc]. rewrite Hc. rbind. eexists. split; [reflexivity|].
  assert (forall q : @PacketQueue Q, queue_good q -> queue_good (fst (force_send q p))) as Hf.
  { intros q [Hq Hall]. unfold force_send, send_inner. destruct (send_load q) as [e|]; [|done]. unfold send_push.
    destruct (aq_force_cases (queue q) (mkQueued p e) Hq) as (out & q' & -> & Hq' & _ & Hi & _). cbn [fst].
    split; [done|]. cbn [queue set_queue]. rewrite Hi. apply Forall_app. split; [|by apply Forall_singleton].
    destruct (_ =? _); [by apply Forall_drop|done]. }
  destruct class; (split; [|split]); by try apply Hf.
Qed.

Lemma outside_good {D} (w w' : World D) :
  outside_step w w' -> returns_good (w_returns w) ->
  returns_good (w_returns w') /\ w_device w' = w_device w /\ w_total_down w' = w_total_down w.
Proof.
  destruct 1 as [w p s Hp Hr|w class|w]; intros Hg; (split; [|done]); [|by destruct Hg as (? & ? & ?), class|done].
  destruct (return_packet_good _ p Hg Hp) as (s' & E & Hs). cbn. congruence.
Qed.

Lemma receive_turns_good turns resumed cancelled clock r s :
  (S (waiting s) < turns)%nat -> reorder_good r -> returns_good s ->
  exists x r' s', receive_turns turns resumed cancelled clock r s = Ret (x, r', s') /\ reorder_good r' /\ returns_good s'
    /\ forall p, x = Got p -> good p.
Proof.
  revert resumed r s. induction turns as [|turns IH]; intros resumed r s Ht Hr Hs; [lia|]. cbn [receive_turns].
  unfold reorder_pop. destruct (ready r) as [|p rest] eqn:Er.
  2:{ destruct Hr as (Hall & Hwf & Hm). rewrite Er in Hall. apply Forall_cons in Hall as [Hp Hall].
      eexists _, _, _. split; [reflexivity|]. split; [done|]. split; [done|]. by intros ? [= <-]. }
  unfold recv_return_packet. destruct (resumed && cancelled); [by eexists _, _, _|].
  pose proof (next_return_spec s Hs) as Hn. destruct (next_return_packet s) as [[p|] s1]; destruct Hn as (Hs1 & _ & Hp).
  - destruct (Hp p eq_refl) as [Hg Hlt]. destruct (reorder_push_good (clock turns) r p Hr Hg) as (r1 & -> & Hr1). rbind.
    apply IH; [lia|done..].
  - destruct (_ || _); by eexists _, _, _.
Qed.

Lemma guarded_write_spec remaining d :
  let '(x, d') := guarded_write remaining d in
  match x with
  | Some (Ok n) => exists took, n = zlen took /\ took = take (Z.to_nat n) remaining /\ n <= zlen remaining
      /\ written_out d' = written_out d ++ [took]
  | _ => written_out d' = written_out d
  end.
Proof.
  unfold guarded_write. destruct (write_answers d) as [|[n|e|] rest]; try done. cbn [written_out].
  exists (take (Z.to_nat n) remaining). unfold zlen. rewrite Nat2Z.id, length_take. split; [done|]. split; [|split; [lia|done]].
  destruct (Nat.le_gt_cases (Z.to_nat n) (length remaining)); [by rewrite Nat.min_l|].
  by rewrite Nat.min_r, !take_ge by lia.
Qed.

(** A write of a packet goes on where the last one stopped, and completes
    exactly at the end of the packet, which it then counts. *)
Lemma try_write_spec d total p n :
  good p -> 0 <= n <= len p ->
  exists state n' d' total', try_write_tun_packet d total p n = Ret (state, n', d', total')
    /\ n <= n' <= len p
    /\ concat (written_out d') = concat (written_out d) ++ take (Z.to_nat (n' - n)) (drop (Z.to_nat n) (wire_of p))
    /\ (state = Continue -> n < n' < len p)
    /\ (state = Complete -> n' = len p /\ total' = fetch_add_i64 total (len p))
    /\ (state <> Complete -> total' = total).
Proof.
  intros Hg Hn. destruct (good_wire p Hg) as (Hw & Hl & _). unfold try_write_tun_packet. rewrite Hw. rbind.
  rewrite slice_from_returns by lia. rbind.
  pose proof (guarded_write_spec (drop (Z.to_nat n) (wire_of p)) d) as Hx.
  destruct (guarded_write _ d) as [[[k|e]|] d'].
  2:{ destruct (is_retryable_tun_error e); [destruct (os_error_in _ e)|destruct (is_closed_tun_error e)];
        eexists _, _, _, _; (split; [reflexivity|]); rewrite Hx, Z.sub_diag, app_nil_r; conjs; try done; lia. }
  2:{ eexists _, _, _, _. split; [reflexivity|]. rewrite Hx, Z.sub_diag, app_nil_r. conjs; try done; lia. }
  destruct Hx as (took & Hk & Htook & Hle & Hout). rewrite zlen_drop_list, Hl in Hle. pose proof (zlen_nonneg took).
  assert (concat (written_out d') = concat (written_out d) ++ took) as Hc by (by rewrite Hout, concat_app; cbn; rewrite app_nil_r).
  destruct (Z.eqb_spec k 0) as [->|Hk0].
  { eexists _, _, _, _. split; [reflexivity|]. rewrite Hc, Htook, Z.sub_diag. conjs; try done; lia. }
  assert (take (Z.to_nat (n + k - n)) (drop (Z.to_nat n) (wire_of p)) = took) as Ht by (by replace (n + k - n) with k by lia).
  destruct (Z.eqb_spec (n + k) (len p)); eexists _, _, _, _; (split; [reflexivity|]); rewrite Ht; conjs; try done; lia.
Qed.

(** ** What the interface gets *)

Definition partial (pending : option (PacketBuf * Z)) : bytes :=
  match pending with Some (p, n) => take (Z.to_nat n) (wire_of p) | None => [] end.

Definition at_hand (t : TunWriter) : list PacketBuf := option_list (fst <$> t_pending t).

(** Of the packets taken, all but the one at hand are written whole, in order
    and counted; of that one as much as the writer remembers. *)
Definition accounts (total0 : Z) (ps : list PacketBuf) (t : TunWriter) (w : World TunSide) : Prop :=
  exists whole, ps = whole ++ at_hand t
    /\ concat (written_out (w_device w)) = concat (map wire_of whole) ++ partial (t_pending t)
    /\ w_total_down w = fold_left fetch_add_i64 (map len whole) total0.

Definition position_ok (t : TunWriter) : Prop :=
  match t_at t with
  | AtQueues _ => t_pending t = None
  | InBurst burst => is_Some (t_pending t) /\ 0 <= burst < 64
  | TunReturned => True
  | _ => is_Some (t_pending t)
  end.

Record tun_ok (t : TunWriter) (w : World TunSide) : Prop := {
  ok_returns : returns_good (w_returns w);
  ok_reorder : reorder_good (t_reorder t);
  ok_pending : forall p n, t_pending t = Some (p, n) -> good p /\ 0 <= n <= len p;
  ok_position : position_ok t;
}.

(** What a turn owes. *)
Definition turn_ok (total0 : Z) (ps : list PacketBuf) (t : TunWriter) (r : res (TunWriter * World TunSide)) : Prop :=
  exists t' w', r = Ret (t', w') /\ tun_ok t' w' /\ accounts total0 (ps ++ taken t t') t' w'.

Lemma accounts_between total0 whole t w :
  t_pending t = None -> concat (written_out (w_device w)) = concat (map wire_of whole) ->
  w_total_down w = fold_left fetch_add_i64 (map len whole) total0 -> accounts total0 whole t w.
Proof. intros Hp Hw Ht. exists whole. unfold at_hand. rewrite Hp. cbn. by rewrite !app_nil_r. Qed.

Lemma tun_burst_turn_ok total0 clock burst ps t w :
  t_at t = InBurst burst -> tun_ok t w -> accounts total0 ps t w -> turn_ok total0 ps t (burst_turn clock burst t w).
Proof.
  intros Hat [Hret Hre Hpend Hpos] (whole & -> & Hout & Htot). unfold turn_ok, burst_turn, taken, at_hand. rewrite Hat.
  unfold position_ok in Hpos. rewrite Hat in Hpos. destruct Hpos as [[[p n] Hp] Hb]. rewrite Hp in Hout |- *.
  destruct (Hpend p n Hp) as [Hg Hn]. cbn [fst fmap option_fmap option_map option_list].
  destruct (try_write_spec (w_device w) (w_total_down w) p n Hg Hn) as (state & n' & d & total & -> & Hn' & Hd & Hcont & Hcomp & Hsame).
  rbind. rewrite Hout in Hd. unfold partial in Hd. rewrite <- app_assoc, take_take_drop in Hd.
  replace (Z.to_nat n + Z.to_nat (n' - n))%nat with (Z.to_nat n') in Hd by lia.
  assert (forall position, (position <> TunReturned -> position_ok (mkTunWriter (t_reorder t) (Some (p, n')) position)) ->
    state <> Complete -> (match position with InBurst b => b =? burst + 1 | _ => false end) = false ->
    let t' := mkTunWriter (t_reorder t) (Some (p, n')) position in
    tun_ok t' (set_device w d total) /\ accounts total0 ((whole ++ [p]) ++ match position with
        InBurst b => if b =? burst + 1 then [p] else [] | _ => [] end) t' (set_device w d total)) as Hkeep.
  { intros position Hok Hs Hnew t'. split.
    - split; cbn; [done|done|intros ?? [= <- <-]; split; [done|lia]|]. unfold t'. destruct position; first [exact I|by apply Hok].
    - exists whole. destruct position; rewrite ?Hnew; cbn; rewrite ?app_nil_r; split_and!; try done; rewrite Hsame by done; done. }
  destruct state; rbind.
  - (* Complete *)
    destruct (Hcomp eq_refl) as [-> ->].
    assert (concat (written_out d) = concat (map wire_of (whole ++ [p]))) as Hd'.
    { rewrite Hd, map_app, concat_app. cbn. destruct (good_wire p Hg) as (_ & Hl & _). unfold zlen in Hl.
      rewrite app_nil_r, take_ge by lia. done. }
    assert (fetch_add_i64 (w_total_down w) (len p) = fold_left fetch_add_i64 (map len (whole ++ [p])) total0) as Ht.
    { by rewrite map_app, fold_left_app, <- Htot. }
    destruct (Z.eqb_spec (burst + 1) 64).
    + rbind. eexists _, _. split; [reflexivity|]. cbn. split.
      * by split.
      * rewrite app_nil_r. by apply accounts_between.
    + unfold next_ordered_return_packet. cbn [w_returns set_device].
      destruct (ordered_turns_good (S (S (waiting (w_returns w)))) clock (t_reorder t) (w_returns w))
        as (o & r' & s' & -> & Hr' & Hs' & Ho); [lia|done..|]. rbind. destruct o as [q|]; rbind.
      * eexists _, _. split; [reflexivity|]. cbn [t_at t_pending fst fmap option_fmap option_map option_list]. rewrite Z.eqb_refl. split.
        -- split; cbn; [done|done|intros ?? [= <- <-]|split; [by eexists|lia]].
           split; [by apply Ho|]. unfold len. lia.
        -- exists (whole ++ [p]). split_and!; try done. cbn. by rewrite app_nil_r.
      * eexists _, _. split; [reflexivity|]. cbn. split.
        -- by split.
        -- rewrite app_nil_r. by apply accounts_between.
  - (* Continue *)
    eexists _, _. split; [reflexivity|]. apply Hkeep; [intros _; split; [by eexists|lia]|done|by apply Z.eqb_neq; lia].
  - eexists _, _. split; [reflexivity|]. apply (Hkeep AtDevice); [intros _; by eexists|done..].
  - eexists _, _. split; [reflexivity|]. apply (Hkeep AtSleep); [intros _; by eexists|done..].
  - eexists _, _. split; [reflexivity|]. apply (Hkeep AtYield); [intros _; by eexists|done..].
  - eexists _, _. split; [reflexivity|]. by apply (Hkeep TunReturned).
  - eexists _, _. split; [reflexivity|]. by apply (Hkeep TunReturned).
Qed.

Lemma idle_turn total0 ps t w : tun_ok t w -> accounts total0 ps t w -> taken t t = [] -> turn_ok total0 ps t (Ret (t, w)).
Proof. intros Hok Ha Ht. exists t, w. rewrite Ht, app_nil_r. by split. Qed.

(** A move that changes only the position. *)
Lemma move_ok total0 ps t w position :
  tun_ok t w -> accounts total0 ps t w -> let t' := mkTunWriter (t_reorder t) (t_pending t) position in
  position_ok t' -> taken t t' = [] -> turn_ok total0 ps t (Ret (t', w)).
Proof. intros [Hret Hre Hpend _] Ha t' Hpos Ht. exists t', w. rewrite Ht, app_nil_r. split; [done|]. split; [by split|done]. Qed.

Lemma write_tun_turn_ok total0 clock e ps t w :
  tun_ok t w -> accounts total0 ps t w -> turn_ok total0 ps t (write_tun_turn clock e t w).
Proof.
  intros Hok Ha. pose proof Hok as [Hret Hre Hpend Hpos]. unfold write_tun_turn. unfold position_ok in Hpos.
  assert (taken t t = []) as Hsame by (unfold taken; destruct (t_at t) as [| |b| | |]; try done; by rewrite (proj2 (Z.eqb_neq b (b + 1))) by lia).
  destruct (t_at t) as [resumed| |burst| | |] eqn:Hat; try by apply idle_turn.
  - destruct e; try by apply idle_turn.
    destruct (receive_turns_good (S (S (waiting (w_returns w)))) resumed (w_cancelled w) clock (t_reorder t) (w_returns w))
      as (x & r' & s' & E & Hr' & Hs' & Hx); [lia|done..|]. unfold recv_ordered_return_packet. rewrite E. rbind.
    destruct Ha as (whole & Hps & Hout & Htot). unfold at_hand in Hps. rewrite Hpos in Hps, Hout. cbn in Hps, Hout. rewrite app_nil_r in Hps, Hout. subst ps.
    destruct x as [p| |]; eexists _, _; (split; [reflexivity|]); unfold taken; rewrite Hat; cbn [t_at t_pending fst fmap option_fmap option_map option_list].
    + split; [|exists whole; by rewrite app_nil_r]. split; cbn; [done|done|intros ?? [= <- <-]|by eexists].
      split; [by apply Hx|]. unfold len. lia.
    + rewrite app_nil_r. split; [by split|by apply accounts_between].
    + rewrite app_nil_r. split; [by split|by apply accounts_between].
  - destruct e as [|[[]|err]| |]; try by apply idle_turn.
    + apply move_ok; [done|done|by split|]. unfold taken. by rewrite Hat.
    + apply move_ok; [done|done|done|]. unfold taken. by rewrite Hat.
    + destruct (w_cancelled w); [|by apply idle_turn]. apply move_ok; [done|done|done|]. unfold taken. by rewrite Hat.
  - by apply tun_burst_turn_ok.
  - destruct e; try by apply idle_turn.
    + apply move_ok; [done|done| |unfold taken; by rewrite Hat]. unfold loop_top. destruct Hpos as [x ->]. by eexists.
    + destruct (w_cancelled w); [|by apply idle_turn]. apply move_ok; [done|done|done|]. unfold taken. by rewrite Hat.
  - destruct e; try by apply idle_turn.
    apply move_ok; [done|done| |unfold taken; by rewrite Hat]. unfold loop_top. destruct Hpos as [x ->]. by eexists.
Qed.

Lemma tun_run_ok w0 ps t w :
  returns_good (w_returns w0) -> written_out (w_device w0) = [] -> tun_run w0 ps t w ->
  tun_ok t w /\ accounts (w_total_down w0) ps t w.
Proof.
  intros Hg Hw. induction 1 as [|ps t w w' _ [Hok Ha] Hs|ps t w clock e t' w' _ [Hok Ha] Ht].
  - split; [split; try done; exact new_reorder_good|]. apply accounts_between; [done|by rewrite Hw|done].
  - destruct Hok as [Hret Hre Hpend Hpos]. destruct (outside_good w w' Hs Hret) as (Hret' & Hd & Hdown).
    split; [by split|]. destruct Ha as (whole & -> & Ha). exists whole. by rewrite Hd, Hdown.
  - destruct (write_tun_turn_ok (w_total_down w0) clock e ps t w Hok Ha) as (t1 & w1 & E & H1). rewrite Ht in E. by simplify_eq.
Qed.

Lemma fold_fetch_add l a : fold_left fetch_add_i64 l (wrap_i64 a) = wrap_i64 (a + foldr Z.add 0 l).
Proof.
  revert a. induction l as [|x l IH]; intros a; cbn [fold_left foldr]; [by rewrite Z.add_0_r|].
  rewrite fetch_add_i64_wrap, IH. by rewrite Z.add_assoc.
Qed.

(** C9: whatever the kernel answers to its writes and whatever the program does
    meanwhile, the TUN writer never panics, and it writes the packets that it
    takes from the return path in the order in which it takes them, each byte
    once: at any moment all packets but the one at hand are on the interface
    whole, of the one at hand exactly as many bytes as the writer remembers,
    and the counter has grown by the lengths of the whole ones. *)
Theorem tun_writes_whole w0 ps t w :
  returns_good (w_returns w0) -> written_out (w_device w0) = [] -> - 2 ^ 63 <= w_total_down w0 < 2 ^ 63 ->
  tun_run w0 ps t w ->
  (exists whole, ps = whole ++ option_list (fst <$> t_pending t)
     /\ concat (written_out (w_device w))
        = concat (map wire_of whole) ++ match t_pending t with Some (p, n) => take (Z.to_nat n) (wire_of p) | None => [] end
     /\ w_total_down w = wrap_i64 (w_total_down w0 + foldr Z.add 0 (map len whole)))
  /\ forall clock e, exists t' w', write_tun_turn clock e t w = Ret (t', w').
Proof.
  intros Hg Hw Hrange Hrun. destruct (tun_run_ok w0 ps t w Hg Hw Hrun) as [Hok Ha]. split.
  - destruct Ha as (whole & Hps & Hout & Htot). exists whole. split; [done|]. split; [done|].
    by rewrite Htot, <- fold_fetch_add, wrap_i64_small.
  - intros clock e. destruct (write_tun_turn_ok _ clock e ps t w Hok Ha) as (t' & w' & E & _). by exists t', w'.
Qed.

(** ** Bursts end *)

(** A burst on its own. *)
Fixpoint run_burst (turns : nat) (clock : nat -> nat -> Z) (t : TunWriter) (w : World TunSide) : res (TunWriter * World TunSide) :=
  match turns, t_at t with
  | S turns, InBurst burst =>
      moved ← burst_turn (clock turns) burst t w;
      run_burst turns clock (fst moved) (snd moved)
  | _, _ => Ret (t, w)
  end.

(** The bytes and packets that a burst may still write. *)
Definition burst_budget (t : TunWriter) : Z :=
  match t_at t, t_pending t with
  | InBurst burst, Some (p, n) => (63 - burst) * (PACKET_CAPACITY + 1) + (len p - n) + 1
  | _, _ => 0
  end.

Lemma burst_turn_budget clock burst t w t' w' :
  t_at t = InBurst burst -> tun_ok t w -> burst_turn clock burst t w = Ret (t', w') ->
  match t_at t' with InBurst _ => burst_budget t' < burst_budget t | _ => True end.
Proof.
  intros Hat [Hret Hre Hpend Hpos]. unfold position_ok in Hpos. rewrite Hat in Hpos. destruct Hpos as [[[p n] Hp] Hb].
  unfold burst_turn, burst_budget. rewrite Hat, Hp. destruct (Hpend p n Hp) as [Hg Hn].
  destruct (try_write_spec (w_device w) (w_total_down w) p n Hg Hn) as (state & n' & d & total & -> & Hn' & _ & Hcont & Hcomp & _). rbind.
  unfold leave_burst, after_burst, loop_top. destruct state; rbind; try (intros; simplify_eq/=; done).
  - destruct (Z.eqb_spec (burst + 1) 64); [rbind; intros; simplify_eq/=; done|].
    unfold next_ordered_return_packet. cbn [w_returns set_device].
    destruct (ordered_turns_good (S (S (waiting (w_returns w)))) clock (t_reorder t) (w_returns w)) as (o & r' & s' & -> & _ & _ & Ho); [lia|done..|].
    rbind. destruct o as [q|]; rbind; intros; simplify_eq; [|done]. cbn [t_at t_pending].
    destruct (good_wire q (Ho q eq_refl)) as (_ & _ & Hq). unfold len, PACKET_CAPACITY in *. lia.
  - intros; simplify_eq. cbn [t_at t_pending]. specialize (Hcont eq_refl). lia.
Qed.

(** A burst of writes ends on its own, whatever the kernel answers: after
    at most one write for each byte and packet that 64 packets can have, the
    task is back at an await or has returned, so that it never starves the
    reader and the cancellation that it is raced against. *)
Lemma burst_ends w0 ps t w clock :
  returns_good (w_returns w0) -> written_out (w_device w0) = [] -> tun_run w0 ps t w ->
  exists t' w', run_burst (Z.to_nat (64 * (PACKET_CAPACITY + 1))) clock t w = Ret (t', w')
    /\ match t_at t' with InBurst _ => False | _ => True end.
Proof.
  intros Hg Hw Hrun. destruct (tun_run_ok w0 ps t w Hg Hw Hrun) as [Hok Ha].
  assert (burst_budget t <= Z.of_nat (Z.to_nat (64 * (PACKET_CAPACITY + 1)))) as Hb.
  { destruct Hok as [_ _ Hpend Hpos]. unfold burst_budget, position_ok in *. destruct (t_at t) as [| |burst| | |]; try (cbn; lia).
    destruct Hpos as [[[p n] Hp] Hb]. rewrite Hp. destruct (Hpend p n Hp) as [Hgp Hn]. destruct (good_wire p Hgp) as (_ & _ & Hlen).
    unfold PACKET_CAPACITY in *. lia. }
  clear Hrun. revert ps t w Hok Ha Hb. induction (Z.to_nat _) as [|turns IH]; intros ps t w Hok Ha Hb; cbn [run_burst].
  { exists t, w. split; [done|]. destruct Hok as [_ _ Hpend Hpos]. unfold burst_budget, position_ok in *. destruct (t_at t) as [| |burst| | |]; try done.
    destruct Hpos as [[[p n] Hp] Hb']. rewrite Hp in Hb. destruct (Hpend p n Hp) as [_ Hn]. unfold PACKET_CAPACITY in *. lia. }
  destruct (t_at t) as [| |burst| | |] eqn:Hat; try (exists t, w; rewrite Hat; by split).
  destruct (tun_burst_turn_ok (w_total_down w0) (clock turns) burst ps t w Hat Hok Ha) as (t1 & w1 & E & Hok1 & Ha1). rewrite E. rbind.
  pose proof (burst_turn_budget _ _ _ _ _ _ Hat Hok E) as Hless. cbn [fst snd].
  apply (IH (ps ++ taken t t1)); [done|done|]. unfold burst_budget in *. destruct (t_at t1); rewrite Hat in *; lia.
Qed.
End Writers.

(** ** A run *)

(** A packet that waits, and an interface that takes it in two parts. *)
Definition one_waiting : @World ListQueue TunSide :=
  mkWorld (match return_packet idle_returns example_outbound with Ret s => s | Panic => idle_returns end)
    (mkTun [] [Writes 20; Writes 100]) 7 false.

Definition after_turns (events : list TunEvent) : option (TunWriter * @World ListQueue TunSide) :=
  foldl (fun x e => x ≫= fun tw => match write_tun_turn (fun _ => 0) e (fst tw) (snd tw) with Ret tw => Some tw | Panic => None end)
    (Some (start_tun_writer, one_waiting)) events.

Example first_packet_written :
  option_map (fun tw => (written_out (w_device (snd tw)), w_total_down (snd tw), t_at (fst tw)))
    (after_turns [Polled; Writable (Ok tt); Polled; Polled])
  = Some ([take 20 example_segment; drop 20 example_segment], 48, AtQueues false).
Proof. vm_compute. reflexivity. Qed.

Lemma after_turns_run events t w : after_turns events = Some (t, w) -> exists ps, tun_run one_waiting ps t w.
Proof.
  revert t w. induction events as [|e events IH] using rev_ind; intros t w; unfold after_turns.
  - intros [= <- <-]. exists []. constructor.
  - rewrite foldl_snoc. fold (after_turns events). destruct (after_turns events) as [[t1 w1]|]; [|done]. cbn [mbind option_bind fst snd].
    destruct (IH t1 w1 eq_refl) as [ps Hrun]. destruct (write_tun_turn _ e t1 w1) as [[t2 w2]|] eqn:E; [|done]. intros [= <- <-].
    eexists. by eapply run_turn.
Qed.

Lemma one_waiting_good : returns_good (w_returns one_waiting).
Proof.
  destruct (return_packet_good idle_returns example_outbound idle_returns_good example_good) as (s & E & Hs).
  unfold one_waiting. cbn [w_returns]. by rewrite E.
Qed.

Lemma tun_writes_whole_witness :
  exists t w ps whole, after_turns [Polled; Writable (Ok tt); Polled] = Some (t, w) /\ ps = whole ++ option_list (fst <$> t_pending t).
Proof.
  destruct (after_turns [Polled; Writable (Ok tt); Polled]) as [[t w]|] eqn:E; [|vm_compute in E; discriminate E].
  destruct (after_turns_run _ t w E) as [ps Hrun].
  destruct (tun_writes_whole one_waiting ps t w one_waiting_good) as [(whole & Hps & _) _]; [reflexivity|split; [discriminate|reflexivity]|exact Hrun|].
  exists t, w, ps, whole. split; [reflexivity|exact Hps].
Defined.

Lemma burst_ends_witness :
  exists t w t' w', after_turns [Polled; Writable (Ok tt)] = Some (t, w)
    /\ run_burst (Z.to_nat (64 * (PACKET_CAPACITY + 1))) (fun _ _ => 0) t w = Ret (t', w').
Proof.
  destruct (after_turns [Polled; Writable (Ok tt)]) as [[t w]|] eqn:E; [|vm_compute in E; discriminate E].
  destruct (after_turns_run _ t w E) as [ps Hrun].
  destruct (burst_ends one_waiting ps t w (fun _ _ => 0) one_waiting_good) as (t' & w' & Hb & _); [reflexivity|exact Hrun|].
  exists t, w, t', w'. split; [reflexivity|exact Hb].
Defined.

(** A frame from the peer that has a header and nothing after it becomes an
    empty packet; an interface that answers a write of nothing with 0 ends the
    writer, and the packets that wait stay unwritten until the interface is
    replaced. *)
Definition bare_header : PacketBuf :=
  mkPacketBuf (replicate 64 0 ++ header_bytes (mkFrameHeader 7 9 0) ++ replicate (2304 - 64 - Z.to_nat FRAME_LEN) 0) 64 (64 + FRAME_LEN).

Example bare_header_is_empty :
  match reorder_push 0 new_reorder bare_header with Ret r => map len (ready r) = [0] | Panic => False end.
Proof. vm_compute. reflexivity. Qed.

Lemma empty_packet_fails d total p n rest :
  good p -> len p = 0 -> write_answers d = Writes n :: rest ->
  exists d', try_write_tun_packet d total p 0 = Ret (Failed, 0, d', total).
Proof.
  intros Hg Hl Hd. destruct (good_wire p Hg) as (Hw & Hlen & _). unfold try_write_tun_packet. rewrite Hw. rbind.
  rewrite Hl in Hlen. apply zlen_zero in Hlen as ->. unfold guarded_write. rewrite Hd. rewrite (slice_from_returns [] 0) by done. rbind.
  rewrite drop_nil, take_nil. by eexists.
Qed.
