(* ===== verification/BatchWriters.v ===== *)
(** * BatchWriters: the writers of the bridge and of the UDP port

    Models the other two writers of [dispatcher.rs], which send the return path
    in batches of one class, [write_bridge] and [write_udp] with
    [write_udp_batch], and the delivery of a batch to the host
    ([deliver_downlink_batch] of [packet_bridge.rs]). The callbacks of the host
    are foreign code: what they are called with is kept in a list. *)

From S2P Require Import Prelude Bytes FlowFrame Scheduler ArrayQueue PacketPool PacketQueue Digests StunCodec TurnMessage UdpBatch ReturnPath Downlink.

(** ** Delivery to the host *)

(** Which callbacks are registered. *)
Record Callbacks : Type := mkCallbacks { packet_out_batch : bool; packet_out : bool }.

Inductive HostCall : Type := OutBatch (packets : list bytes) | Out (packet : bytes).

Definition deliver_downlink (cb : Callbacks) (packet : bytes) : list HostCall :=
  if zlen packet =? 0 then [] else
  if packet_out_batch cb then [OutBatch [packet]]
  else if packet_out cb then [Out packet] else [].

(** The slices of a batch. *)
Fixpoint slices (packets : list PacketBuf) : res (list bytes) :=
  match packets with
  | [] => Ret []
  | packet :: packets => wire ← as_slice packet; rest ← slices packets; Ret (wire :: rest)
  end.

Definition deliver_downlink_batch (cb : Callbacks) (packets : list PacketBuf) : res (list HostCall) :=
  if zlen packets =? 0 then Ret [] else
  if packet_out_batch cb then
    wires ← slices (take 128 packets);
    let given := filter (fun wire => zlen wire <> 0) wires in
    Ret (if 0 <? zlen given then [OutBatch given] else [])
  else
    wires ← slices packets;
    Ret (concat (map (deliver_downlink cb) wires)).

Section Writers.
Context {Q : Type -> Type} `{ArrayQueue Q}.

(** Where a batch writer is: at [recv_ordered_return_packet], at [writable]
    with so much of a batch sent, or returned. *)
Inductive BatchAt : Type :=
| BatchQueues (resumed : bool)
| Sending (address : SocketAddr) (packets : list PacketBuf) (sent : Z)
| BatchReturned.

Record BatchWriter : Type := mkBatchWriter { b_reorder : ReturnReorder; b_at : BatchAt }.

Definition start_batch_writer : BatchWriter := mkBatchWriter new_reorder (BatchQueues false).

(** [recv_ordered_return_packet] and the filling of the batch. *)
Definition next_batch (clock fill_clock : nat -> Z) (resumed : bool) (r : ReturnReorder) {D} (w : @World Q D)
    : res (option (list PacketBuf) * BatchWriter * @World Q D) :=
  received ← recv_ordered_return_packet resumed (w_cancelled w) clock r (w_returns w);
  let '(received, r, s) := received in
  match received with
  | Got packet =>
      batch ← make_batch fill_clock packet r s;
      let '(batch, r, s) := batch in
      Ret (Some batch, mkBatchWriter r (BatchQueues false), set_returns w s)
  | Ended => Ret (None, mkBatchWriter r BatchReturned, set_returns w s)
  | Waits => Ret (None, mkBatchWriter r (BatchQueues true), set_returns w s)
  end.

Definition write_bridge_turn (cb : Callbacks) (clock fill_clock : nat -> Z) (t : BatchWriter) (w : @World Q (list HostCall))
    : res (BatchWriter * @World Q (list HostCall)) :=
  match b_at t with
  | BatchQueues resumed =>
      next ← next_batch clock fill_clock resumed (b_reorder t) w;
      let '(batch, t, w) := next in
      match batch with
      | None => Ret (t, w)
      | Some batch =>
          calls ← deliver_downlink_batch cb batch;
          Ret (t, set_device w (w_device w ++ calls) (fetch_add_i64 (w_total_down w) (foldr Z.add 0 (map len batch))))
      end
  | _ => Ret (t, w)
  end.




(** ** Facts *)

Lemma of_class_wire class p : of_class class p -> as_slice p = Ret (wire_of p) /\ len p = zlen (wire_of p).
Proof.
  intros (wire & E & _). unfold wire_of. rewrite E. split; [done|]. apply slice_length in E. unfold len.
  pose proof (zlen_nonneg wire). lia.
Qed.

Lemma slices_wires class ps : Forall (of_class class) ps -> slices ps = Ret (map wire_of ps).
Proof. induction 1 as [|p ps Hp _ IH]; [done|]. cbn [slices map]. rewrite (proj1 (of_class_wire class p Hp)), IH. by rbind. Qed.

Definition call_packets (c : HostCall) : list bytes := match c with OutBatch l => l | Out b => [b] end.

(** The host gets the packets of a batch that are not empty, in order. *)
Lemma deliver_spec cb class ps :
  Forall (of_class class) ps -> zlen ps <= 128 ->
  exists calls, deliver_downlink_batch cb ps = Ret calls
    /\ concat (map call_packets calls)
       = if packet_out_batch cb || packet_out cb then filter (fun wire => zlen wire <> 0) (map wire_of ps) else [].
Proof.
  intros Hp Hlen. unfold deliver_downlink_batch. destruct (Z.eqb_spec (zlen ps) 0) as [Hz|_].
  { apply zlen_zero in Hz as ->. exists []. split; [done|]. by destruct (_ || _). }
  destruct (packet_out_batch cb) eqn:Hcb; cbn [orb].
  - rewrite take_ge by (unfold zlen in Hlen; lia). rewrite (slices_wires class ps Hp). rbind. eexists. split; [reflexivity|].
    set (given := filter _ _). destruct (Z.ltb_spec 0 (zlen given)) as [_|Hz]; [cbn; by rewrite app_nil_r|].
    pose proof (zlen_nonneg given). assert (given = []) as -> by (apply zlen_zero; lia). done.
  - rewrite (slices_wires class ps Hp). rbind. eexists. split; [reflexivity|]. clear Hp Hlen.
    induction ps as [|p ps IH]; [by destruct (packet_out cb)|]. cbn [map concat]. rewrite map_app, concat_app, IH. clear IH.
    unfold deliver_downlink. rewrite Hcb. destruct (packet_out cb).
    + rewrite filter_cons. destruct (Z.eqb_spec (zlen (wire_of p)) 0); case_decide; done.
    + by destruct (_ =? 0).
Qed.

Lemma next_batch_ok clock fill_clock resumed r {D} (w : @World Q D) :
  reorder_good r -> returns_good (w_returns w) ->
  exists o t' s, next_batch clock fill_clock resumed r w = Ret (o, t', set_returns w s)
    /\ reorder_good (b_reorder t') /\ returns_good s
    /\ match o with
       | None => b_at t' = BatchReturned \/ b_at t' = BatchQueues true
       | Some batch => b_at t' = BatchQueues false /\ batch <> []
           /\ exists class, Forall (of_class class) batch /\ zlen batch <= datagram_batch class
       end.
Proof.
  intros Hr Hs. unfold next_batch, recv_ordered_return_packet.
  destruct (receive_turns_good (S (S (waiting (w_returns w)))) resumed (w_cancelled w) clock r (w_returns w))
    as (x & r1 & s1 & -> & Hr1 & Hs1 & Hx); [lia|done..|]. rbind. destruct x as [p| |].
  - destruct (make_batch_ok fill_clock p r1 s1 (Hx p eq_refl) Hr1 Hs1) as (batch & r2 & s2 & class & -> & Hr2 & Hs2 & Hh & Hf & Hl).
    rbind. eexists _, _, _. split; [reflexivity|]. cbn [b_reorder b_at]. split_and!; try done; [by destruct batch|by exists class].
  - eexists _, _, _. split; [reflexivity|]. cbn. split_and!; try done. by left.
  - eexists _, _, _. split; [reflexivity|]. cbn. split_and!; try done. by right.
Qed.

Lemma class_batch_small class : datagram_batch class <= MAX_DATAGRAMS.
Proof. by destruct class. Qed.

(** A turn of the bridge's writer never panics. It waits, or ends, and
    leaves the host alone; or it takes a batch of packets of one class, at most
    as many as the class allows, hands exactly those that are not empty to the
    registered callback, in order and each once, and counts the bytes of
    all. *)
Lemma bridge_delivers cb clock fill_clock t (w : @World Q (list HostCall)) :
  reorder_good (b_reorder t) -> returns_good (w_returns w) ->
  exists t' w', write_bridge_turn cb clock fill_clock t w = Ret (t', w')
    /\ reorder_good (b_reorder t') /\ returns_good (w_returns w')
    /\ ((w_device w' = w_device w /\ w_total_down w' = w_total_down w)
        \/ exists class batch calls, batch <> [] /\ Forall (of_class class) batch /\ zlen batch <= datagram_batch class
             /\ w_device w' = w_device w ++ calls
             /\ concat (map call_packets calls)
                = (if packet_out_batch cb || packet_out cb then filter (fun wire => zlen wire <> 0) (map wire_of batch) else [])
             /\ w_total_down w' = fetch_add_i64 (w_total_down w) (foldr Z.add 0 (map len batch))).
Proof.
  intros Hr Hs. unfold write_bridge_turn.
  destruct (b_at t) as [resumed|a ps n|]; [|by exists t, w; split_and!; try done; left..].
  destruct (next_batch_ok clock fill_clock resumed (b_reorder t) w Hr Hs) as (o & t' & s & -> & Hr' & Hs' & Ho). rbind.
  destruct o as [batch|].
  - destruct Ho as (_ & Hne & class & Hf & Hl). pose proof (class_batch_small class) as Hm. unfold MAX_DATAGRAMS in Hm.
    destruct (deliver_spec cb class batch Hf ltac:(lia)) as (calls & -> & Hc). rbind.
    eexists _, _. split; [reflexivity|]. split_and!; try done. right. exists class, batch, calls. by split_and!.
  - eexists _, _. split; [reflexivity|]. split_and!; try done. by left.
Qed.
End Writers.

Definition bridge_waiting : @World ListQueue (list HostCall) := mkWorld (w_returns one_waiting) [] 7 false.

Lemma bridge_delivers_witness :
  exists t' w', write_bridge_turn (mkCallbacks true false) (fun _ => 0) (fun _ => 0) start_batch_writer bridge_waiting = Ret (t', w')
    /\ w_device w' = [OutBatch [example_segment]] /\ w_total_down w' = 48.
Proof.
  destruct (bridge_delivers (mkCallbacks true false) (fun _ => 0) (fun _ => 0) start_batch_writer bridge_waiting new_reorder_good one_waiting_good)
    as (t' & w' & E & _).
  exists t', w'. split; [exact E|]. vm_compute in E. injection E as _ <-. split; reflexivity.
Defined.

(** ** The UDP port *)

Section Udp.
Context {Q : Type -> Type} `{ArrayQueue Q}.
























End Udp.

Definition a_client : SocketAddr := V4 [127; 0; 0; 1] 51820.


(** Without the batch call, a try that fails half-way has sent datagrams that it
    does not report: they are gone, and nobody counts them. *)
Example half_sent_uncounted :
  try_send_to a_client [[1]; [2]] (mkSendTo [] [Takes 1; SendFails (mkIo OtherKind None)] false)
  = (Err (mkIo OtherKind None), mkSendTo [(a_client, [1])] [] false).
Proof. reflexivity. Qed.
