(* ===== verification/Uplink.v ===== *)
(** * Uplink: the tasks that read from the interface

    Models the readers of [dispatcher.rs], [read_tun], [read_udp] and
    [read_bridge], with the framing, counting and dispatching that they share,
    the task that gives a TUN interface to its reader and writer and replaces
    it ([run_tun]), and the binding of the UDP port ([bind_udp]). The buffers
    that the pool lends and the copies that it makes are arguments, as is how
    the kernel answers. *)

From stdpp Require Import functions.
From S2P Require Import Prelude Bytes FlowFrame Scheduler SelectiveFec ArrayQueue PacketPool Idle Bridge PacketQueue Dispatcher Digests StunCodec TurnMessage UdpBatch ReturnPath Downlink.

Section Readers.
Context {Q : Type -> Type} `{ArrayQueue Q}.

(** What the readers share with the rest of the program: the queues of the
    workers, the worker table, the tracker of QUIC spares, and a counter. *)
Record Uplink : Type := mkUplink {
  u_store : @Store Q;
  u_table : list WorkerChannels;
  u_tracker : gmap Z Z;
  u_total_up : Z;
}.

(** The locals of a reader. *)
Record Reader : Type := mkReader { r_scheduler : FastPathScheduler; r_sequences : FlowSequencer }.

(** [dispatch_now] with its spare; [copy] is what [try_duplicate] would give. *)
Definition dispatch (copy : option PacketBuf) (s : FastPathScheduler) (packet : PacketBuf) (u : Uplink)
    : res (FastPathScheduler * Uplink) :=
  wire ← as_slice packet;
  begun ← begin s (u_table u) wire;
  match snd begun with
  | None => Ret (fst begun, u)
  | Some _ =>
      spared ← udp_spare (u_tracker u) packet copy;
      dispatched ← dispatch_now (u_store u) s (u_table u) packet (fst spared);
      Ret (snd dispatched, mkUplink (fst dispatched) (u_table u) (snd spared) (u_total_up u))
  end.

(** Framing, counting and dispatching; [counted] is the length to count, when
    it is not that of the framed packet. *)
Definition forward (counted : option Z) (copy : option PacketBuf) (r : Reader) (packet : PacketBuf) (u : Uplink)
    : res (Reader * Uplink) :=
  framed ← frame_outbound_packet (r_sequences r) packet;
  let '(framed, sequences, packet) := framed in
  if negb framed then Ret (mkReader (r_scheduler r) sequences, u) else
  let total := fetch_add_i64 (u_total_up u) (default (len packet) counted) in
  dispatched ← dispatch copy (r_scheduler r) packet (mkUplink (u_store u) (u_table u) (u_tracker u) total);
  Ret (mkReader (fst dispatched) sequences, snd dispatched).

(** ** The TUN interface *)

Inductive ReadAnswer : Type := Reads (data : bytes) | ReadFails (e : IoError) | NotReadable.

Inductive ReaderAt : Type := AtReadable | InReadBurst (burst : Z) | ReaderReturned.

Record TunReader : Type := mkTunReader { tr_reader : Reader; tr_at : ReaderAt }.

Definition start_tun_reader (sender_id : Z) : TunReader :=
  mkTunReader (mkReader new_scheduler (with_sender_id sender_id)) AtReadable.

(** One turn of the inner loop. A read fills the read area at most; an error
    that is not worth a retry ends the task, with one message or another. *)
Definition read_burst_turn (lent : option PacketBuf) (answer : ReadAnswer) (copy : option PacketBuf) (burst : Z)
    (t : TunReader) (u : Uplink) : res (TunReader * Uplink) :=
  let leave position := Ret (mkTunReader (tr_reader t) position, u) in
  if negb (burst <? 32) then leave AtReadable else
  match lent with
  | None => leave AtReadable
  | Some packet =>
      match answer with
      | Reads data =>
          let data := received_part data in
          if zlen data =? 0 then leave ReaderReturned else
          packet ← write_read_area packet data;
          match set_read_len packet (zlen data) with
          | Err _ => leave ReaderReturned
          | Ok packet =>
              sent ← forward (Some (zlen data)) copy (tr_reader t) packet u;
              Ret (mkTunReader (fst sent) (InReadBurst (burst + 1)), snd sent)
          end
      | ReadFails e => leave (if is_retryable_tun_error e then AtReadable else ReaderReturned)
      | NotReadable => leave AtReadable
      end
  end.

Inductive ReadEvent : Type := Readable (r : result unit IoError) | ReaderSeesCancel.

Definition read_tun_turn (e : ReadEvent) (lent : option PacketBuf) (answer : ReadAnswer) (copy : option PacketBuf)
    (t : TunReader) (u : Uplink) : res (TunReader * Uplink) :=
  match tr_at t, e with
  | AtReadable, Readable (Ok _) => Ret (mkTunReader (tr_reader t) (InReadBurst 0), u)
  | AtReadable, _ => Ret (mkTunReader (tr_reader t) ReaderReturned, u)
  | InReadBurst burst, _ => read_burst_turn lent answer copy burst t u
  | ReaderReturned, _ => Ret (t, u)
  end.

(** ** The UDP port *)

(** The loop over what was received; the address of the client is shared with
    the writer. *)
Fixpoint forward_received (copies : nat -> option PacketBuf) (r : Reader) (client : option SocketAddr)
    (packets : list PacketBuf) (sources : list SocketAddr) (u : Uplink) : res (Reader * option SocketAddr * Uplink) :=
  match packets with
  | [] => Ret (r, client, u)
  | packet :: packets =>
      match sources with
      | [] => Panic
      | address :: sources =>
          let client := if bool_decide (client = Some address) then client else Some address in
          sent ← forward None (copies (length packets)) r packet u;
          forward_received copies (fst sent) client packets sources (snd sent)
      end
  end.

(** Where the reader of the port is: at [readable], or in a pause. *)
Inductive UdpReaderAt : Type := UdpReadable | UdpPause (millis : Z) | UdpReturned.

Record UdpReader : Type := mkUdpReader { ur_reader : Reader; ur_sources : list SocketAddr; ur_at : UdpReaderAt }.

Definition start_udp_reader (sender_id : Z) : UdpReader :=
  mkUdpReader (mkReader new_scheduler (with_sender_id sender_id)) (replicate 128 (V4 [0; 0; 0; 0] 0)) UdpReadable.

(** A turn with the buffers that the pool lends one after the other. *)
Definition read_udp_turn (e : ReadEvent) (lent : list PacketBuf) (copies : nat -> option PacketBuf)
    (t : UdpReader) (client : option SocketAddr) (side : RecvSide) (u : Uplink)
    : res (UdpReader * option SocketAddr * RecvSide * Uplink) :=
  let stay position := Ret (mkUdpReader (ur_reader t) (ur_sources t) position, client, side, u) in
  match ur_at t, e with
  | UdpReturned, _ => stay UdpReturned
  | _, ReaderSeesCancel => stay UdpReturned
  | UdpPause _, Readable _ => stay UdpReadable
  | UdpReadable, Readable (Err _) => stay (UdpPause 10)
  | UdpReadable, Readable (Ok _) =>
      let batch := take (Z.to_nat MAX_DATAGRAMS) lent in
      if zlen batch =? 0 then stay (UdpPause 1) else
      if zlen (ur_sources t) <? zlen batch then Panic else
      received ← try_recv_from batch (take (length batch) (ur_sources t)) side;
      let '(packets, froms, result, side) := received in
      let sources := froms ++ drop (length batch) (ur_sources t) in
      match result with
      | Ok n =>
          if zlen packets <? n then Panic else
          sent ← forward_received copies (ur_reader t) client (take (Z.to_nat n) packets) sources u;
          let '(r, client, u) := sent in
          Ret (mkUdpReader r sources UdpReadable, client, side, u)
      | Err e =>
          Ret (mkUdpReader (ur_reader t) sources (if bool_decide (kind e = WouldBlock) then UdpReadable else UdpPause 10), client, side, u)
      end
  end.

(** ** The bridge *)

(** A turn of [read_bridge] that runs until it sleeps; [turns] bounds what it
    takes. Whether it sleeps, and the queues. *)
Fixpoint bridge_turns (turns : nat) (copies : nat -> option PacketBuf) (r : Reader) (b : @UplinkBridge Q) (u : Uplink)
    : res (bool * Reader * @UplinkBridge Q * Uplink) :=
  match turns with
  | O => Ret (false, r, b, u)
  | S turns =>
      match bridge_pop b with
      | (None, b) => Ret (true, r, b, u)
      | (Some packet, b) =>
          sent ← forward None (copies turns) r packet u;
          bridge_turns turns copies (fst sent) b (snd sent)
      end
  end.

Definition read_bridge_turn (copies : nat -> option PacketBuf) (r : Reader) (b : @UplinkBridge Q) (u : Uplink) :=
  bridge_turns (S (length (items (Bridge.latency b)) + length (items (Bridge.bulk b)))) copies r b u.
End Readers.

(** ** Spare copies *)

Lemma ipv4_udp_flow_key_total packet : returns (ipv4_udp_flow_key packet).
Proof.
  unfold ipv4_udp_flow_key. destruct (Z.ltb_spec (zlen packet) 28); [no_panic|].
  apply returns_bind; [apply returns_index; lia|]. intros b0 _. destruct (negb _); [no_panic|].
  apply returns_bind; [apply returns_index; lia|]. intros b9 _. destruct (negb _); [no_panic|]. cbv zeta.
  assert (0 <= Z.land b0 0x0f <= 15) as Hl.
  { pose proof (Z.land_ones b0 4 ltac:(lia)) as Hl. change (Z.ones 4) with 15 in Hl. rewrite Hl. change (2 ^ 4) with 16. pose proof (Z.mod_pos_bound b0 16 ltac:(lia)). lia. }
  unfold saturating_add. destruct (_ || _) eqn:E; [no_panic|]. bool_to_prop. no_panic.
Qed.

(** The tracker of QUIC flows never holds more than its cap. *)
Lemma quic_spare_bounded tracker packet :
  map_len tracker <= QUIC_SPARE_FLOW_CAP ->
  exists allowed tracker', quic_initial_spare_allow tracker packet = Ret (allowed, tracker') /\ map_len tracker' <= QUIC_SPARE_FLOW_CAP.
Proof.
  intros Hb. unfold quic_initial_spare_allow. destruct (ipv4_udp_flow_key_total packet) as [key ->]. rbind.
  destruct key as [key|]; [|by eexists _, _]. set (count := default 0 (tracker !! key)).
  destruct (Z.leb_spec QUIC_SPARE_PER_FLOW count) as [Hc|_]; eexists _, _; (split; [reflexivity|]).
  - unfold map_len. rewrite map_size_insert. destruct (tracker !! key) eqn:E; [by cbn|]. unfold count in Hc. cbn in Hc. unfold QUIC_SPARE_PER_FLOW in Hc. lia.
  - set (m := <[key := saturating_add 8 count 1]> (<[key := count]> tracker)).
    destruct (Z.ltb_spec QUIC_SPARE_FLOW_CAP (map_len m)) as [_|]; [|done].
    destruct (Z.ltb_spec QUIC_SPARE_FLOW_CAP (map_len (filter (fun kv => snd kv < QUIC_SPARE_PER_FLOW) m))) as [_|]; [|done].
    unfold map_len. rewrite map_size_singleton. done.
Qed.

Lemma udp_spare_ok tracker p copy wire :
  as_slice p = Ret wire -> map_len tracker <= QUIC_SPARE_FLOW_CAP ->
  exists spare tracker', udp_spare tracker p copy = Ret (spare, tracker') /\ (spare = None \/ spare = copy)
    /\ map_len tracker' <= QUIC_SPARE_FLOW_CAP.
Proof.
  intros Hw Hb. unfold udp_spare. rewrite Hw. rbind. assert (exists spare tracker', Ret (@None PacketBuf, tracker) = Ret (spare, tracker')
    /\ (spare = None \/ spare = copy) /\ map_len tracker' <= QUIC_SPARE_FLOW_CAP) as Hnone by (eexists _, _; split; [reflexivity|]; split; [by left|done]).
  destruct (Z.ltb_spec (zlen wire) 20); [done|]. destruct (returns_index wire 0) as [b0 ->]; [lia|]. rbind. destruct (negb _); [done|].
  destruct (returns_index wire 9) as [b9 ->]; [lia|]. rbind. destruct (negb _); [done|].
  destruct (fec_tests_total wire) as [[[] ->] [initial Hi]]; rbind; [eexists _, _; split; [reflexivity|]; split; [by right|done]|].
  rewrite Hi. rbind. destruct initial; [|done]. destruct (quic_spare_bounded tracker wire Hb) as ([] & tracker' & -> & Hb'); rbind;
    eexists _, _; (split; [reflexivity|]); (split; [|done]); [by right|by left].
Qed.

(** ** Dispatching *)

Definition scheduler_ok (s : FastPathScheduler) : Prop := worker_count s = zlen (workers s).

Lemma begin_for_class_ok s class :
  scheduler_ok s -> exists t, begin_for_class s (worker_count s) class = t /\ scheduler_ok (fst t) /\ workers (fst t) = workers s
    /\ match snd t with Some ticket => ticket_class ticket = class /\ zlen (workers s) <> 0 | None => zlen (workers s) = 0 end.
Proof.
  intros Hs. eexists. split; [reflexivity|]. unfold begin_for_class. destruct (Z.eqb_spec (worker_count s) 0) as [E|E].
  - cbn. split; [done|]. split; [done|]. by rewrite <- Hs.
  - unfold sync_worker_count. rewrite Z.eqb_refl. cbn. split; [done|]. split; [done|]. split; [done|]. by rewrite <- Hs.
Qed.

Lemma begin_ok s source wire :
  scheduler_ok s -> valid_slice wire ->
  exists s' ticket class, begin s source wire = Ret (s', ticket) /\ packet_class wire = Ret class /\ scheduler_ok s'
    /\ (workers s' = workers s \/ workers s' = source)
    /\ match ticket with Some t => ticket_class t = class /\ zlen (workers s') <> 0 | None => zlen (workers s') = 0 end.
Proof.
  intros Hs Hv. unfold begin. destruct (packet_class_total wire Hv) as [class ->]. rbind.
  set (s1 := if _ =? 0 then _ else s). assert (scheduler_ok s1 /\ (workers s1 = workers s \/ workers s1 = source)) as [Hs1 Hw1].
  { unfold s1. destruct (_ =? 0); [|by split; [|left]]. unfold sync_worker_count. cbn [worker_count workers].
    destruct (Z.eqb_spec (worker_count s) (zlen source)); (split; [by unfold scheduler_ok|by right]). }
  destruct (begin_for_class_ok s1 class Hs1) as (t & -> & Hs2 & Hw2 & Ht). destruct t as [s2 ticket]. cbn [fst snd] in *.
  exists s2, ticket, class. rewrite Hw2. by split_and!.
Qed.

Section Dispatching.
Context {Q : Type -> Type} `{ArrayQueue Q}.

Lemma enqueue_pass_total (h : @Store Q) ws ticket prefer offset count packet :
  zlen ws <> 0 -> exists h' r, enqueue_pass h ws ticket prefer offset count packet = Ret (h', r).
Proof.
  intros Hn. revert offset packet. induction count as [|count IH]; intros offset packet; cbn [enqueue_pass]; [by eexists _, _|].
  destruct (ring_lookup ws (start_slot ticket + offset) Hn) as [w ->]. destruct (negb _); [apply IH|]. destruct (_ && _); [apply IH|].
  destruct (try_send _ packet) as [q [[]|p]]; [by eexists _, _|apply IH].
Qed.

Lemma enqueue_total (h : @Store Q) ws ticket packet : exists h' r, enqueue_selected_worker h ws ticket packet = Ret (h', r).
Proof.
  unfold enqueue_selected_worker. destruct (Z.eqb_spec (zlen ws) 0); [by eexists _, _|].
  destruct (enqueue_pass_total h ws ticket true 0 (Z.to_nat (search_width h ws ticket)) packet) as (h1 & [[]|p] & ->); [done|by eexists _, _|].
  rbind. by apply enqueue_pass_total.
Qed.

Lemma place_total (h : @Store Q) ws ticket packet : exists h', place h ws ticket packet = Ret h'.
Proof.
  unfold place. destruct (enqueue_total h ws ticket packet) as (h1 & [[]|p] & ->); rbind; by eexists.
Qed.

Lemma placed_live (h h' : @Store Q) ws class p : placed h h' ws class p -> live h ws class -> live h' ws class.
Proof.
  intros (w & e & q & kept & Hw & Hh & Hload & -> & Hq & _) Hlive. apply Forall_forall. intros w' Hw' Hh'.
  pose proof (proj1 (Forall_forall _ _) Hlive w' Hw' Hh') as [Hl Hq']. cbn [set_store_queue queues].
  destruct (decide (queue_for_class w class = queue_for_class w' class)) as [E|E].
  - rewrite E, fn_lookup_insert. split; [|done]. rewrite E in Hload. unfold send_load in *. cbn. by eexists.
  - by rewrite fn_lookup_insert_ne.
Qed.

(** A spare copy goes to one queue more or nowhere. *)
Lemma enqueue_placed (h : @Store Q) ws ticket packet :
  zlen ws <> 0 -> live h ws (ticket_class ticket) ->
  exists h' r, enqueue_selected_worker h ws ticket packet = Ret (h', r)
    /\ (h' = h \/ placed h h' ws (ticket_class ticket) packet).
Proof.
  intros Hn Hlive. unfold enqueue_selected_worker. destruct (Z.eqb_spec (zlen ws) 0); [done|].
  destruct (enqueue_pass_spec h ws ticket true 0 (Z.to_nat (search_width h ws ticket)) packet Hn Hlive)
    as (h1 & r1 & -> & [[-> ->]|[-> Hp]]); rbind; [|by eexists _, _; split; [reflexivity|right]].
  destruct (enqueue_pass_spec h ws ticket false 0 (Z.to_nat (search_width h ws ticket)) packet Hn Hlive)
    as (h2 & r2 & -> & [[-> ->]|[-> Hp]]); eexists _, _; (split; [reflexivity|]); [by left|by right].
Qed.

(** Where a dispatched packet and its copy go. *)
Definition dispatched (h h' : @Store Q) (ws : list WorkerChannels) (class : PacketClass) (packet : PacketBuf) (copy : option PacketBuf) : Prop :=
  exists h1, placed h h1 ws class packet /\ (h' = h1 \/ exists c, copy = Some c /\ placed h1 h' ws class c).

Lemma dispatch_ok copy s packet (u : @Uplink Q) wire :
  scheduler_ok s -> as_slice packet = Ret wire -> valid_slice wire -> map_len (u_tracker u) <= QUIC_SPARE_FLOW_CAP ->
  exists s' u' class, dispatch copy s packet u = Ret (s', u') /\ scheduler_ok s' /\ packet_class wire = Ret class
    /\ (workers s' = workers s \/ workers s' = u_table u)
    /\ u_table u' = u_table u /\ u_total_up u' = u_total_up u /\ map_len (u_tracker u') <= QUIC_SPARE_FLOW_CAP
    /\ forall w, live (u_store u) (workers s') class -> w ∈ workers s' -> is_healthy (u_store u) w = true ->
         dispatched (u_store u) (u_store u') (workers s') class packet copy.
Proof.
  intros Hs Hw Hv Hb. unfold dispatch. rewrite Hw. rbind.
  destruct (begin_ok s (u_table u) wire Hs Hv) as (s' & ticket & class & Hbg & Hc & Hs' & Hws & Ht). rewrite Hbg. rbind. cbn [fst snd].
  destruct ticket as [ticket|].
  2:{ exists s', u, class. split_and!; try done. intros w _ Hin _. apply zlen_zero in Ht. rewrite Ht in Hin. by apply not_elem_of_nil in Hin. }
  destruct Ht as [Htc Hn]. destruct (udp_spare_ok (u_tracker u) packet copy wire Hw Hb) as (spare & tracker' & -> & Hspare & Hb'). rbind.
  unfold dispatch_now. rewrite Hw. rbind. rewrite Hbg. rbind.
  destruct (place_total (u_store u) (workers s') ticket packet) as [h1 Hpl]. rewrite Hpl. rbind. cbn [fst snd].
  assert (forall w, live (u_store u) (workers s') class -> w ∈ workers s' -> is_healthy (u_store u) w = true ->
    placed (u_store u) h1 (workers s') class packet) as Hplaced.
  { intros w Hl Hin Hh. rewrite <- Htc in Hl |- *. destruct (place_placed (u_store u) (workers s') ticket packet w Hl Hin Hh) as (h2 & E & Hp).
    rewrite Hpl in E. by simplify_eq. }
  assert (forall h', h' = h1 -> forall w, live (u_store u) (workers s') class -> w ∈ workers s' -> is_healthy (u_store u) w = true ->
    dispatched (u_store u) h' (workers s') class packet copy) as Hplain.
  { intros h' -> w Hl Hin Hh. exists h1. split; [by eapply Hplaced|by left]. }
  destruct spare as [spare|]; [|rbind; eexists _, _, class; split; [reflexivity|]; split_and!; try done; by apply Hplain].
  destruct (1 <? zlen (workers s')); [|rbind; eexists _, _, class; split; [reflexivity|]; split_and!; try done; by apply Hplain].
  set (alt := mkDispatchTicket _ _). destruct (enqueue_total h1 (workers s') alt spare) as (h2 & r & Hen). rewrite Hen. rbind.
  eexists _, _, class. split; [reflexivity|]. split_and!; try done. cbn [fst u_store]. intros w Hl Hin Hh. exists h1. split; [by eapply Hplaced|].
  destruct (enqueue_placed h1 (workers s') alt spare Hn) as (h3 & r3 & Hen' & Hor).
  { cbn [ticket_class alt]. rewrite Htc. eapply placed_live; [by eapply Hplaced|done]. }
  rewrite Hen in Hen'. simplify_eq. destruct Hor as [->|Hp]; [by left|]. right. cbn [ticket_class alt] in Hp. destruct Hspare as [|Hspare]; [done|]. by exists spare.
Qed.

(** ** Forwarding *)

Definition reader_ok (r : Reader) : Prop := scheduler_ok (r_scheduler r) /\ sequencer_ok (r_sequences r).

(** A buffer of the pool with room for a frame header. *)
Definition framable (p : PacketBuf) : Prop := buf_ok p /\ FRAME_LEN <= range_start p.

(** What is sent for a packet: a segment of a tracked TCP flow gets the header
    that the sequencer gives it. *)
Definition framed_wire (s : FlowSequencer) (body : bytes) : bytes :=
  match tcp_flow_id body with Ret (Some flow) => header_bytes (fst (next_for s flow)) ++ body | _ => body end.

(** A packet with these bytes went through: it was counted, and if a worker of
    the table at hand is healthy it is in the queue of one worker. *)
Definition forwarded (counted : option Z) (copy : option PacketBuf) (body : bytes) (r : Reader) (u : @Uplink Q) (r' : Reader) (u' : @Uplink Q)
    : Prop :=
  exists q class, let wire := framed_wire (r_sequences r) body in
    as_slice q = Ret wire /\ packet_class wire = Ret class
    /\ (workers (r_scheduler r') = workers (r_scheduler r) \/ workers (r_scheduler r') = u_table u)
    /\ u_table u' = u_table u /\ u_total_up u' = fetch_add_i64 (u_total_up u) (default (zlen wire) counted)
    /\ forall w, live (u_store u) (workers (r_scheduler r')) class -> w ∈ workers (r_scheduler r') -> is_healthy (u_store u) w = true ->
         dispatched (u_store u) (u_store u') (workers (r_scheduler r')) class q copy.

Definition tracker_ok (u : @Uplink Q) : Prop := map_len (u_tracker u) <= QUIC_SPARE_FLOW_CAP.

Lemma buf_slice_valid q wire : buf_ok q -> as_slice q = Ret wire -> valid_slice wire /\ len q = zlen wire.
Proof.
  intros (Hst & Hs & He) E. apply slice_length in E. unfold valid_slice, isize_max, len, PACKET_CAPACITY in *. lia.
Qed.

Lemma forwarding_ok counted copy r p u body :
  reader_ok r -> tracker_ok u -> framable p -> as_slice p = Ret body ->
  exists r' u', forward counted copy r p u = Ret (r', u') /\ reader_ok r' /\ tracker_ok u' /\ forwarded counted copy body r u r' u'.
Proof.
  intros [Hs Hq] Hb [Hp Hroom] Hbody. unfold forward.
  destruct (frame_survives (r_sequences r) p body Hq Hp Hbody Hroom) as (seqs & q & -> & Hseqs & Hok & Hwire). rbind. cbn [negb].
  assert (as_slice q = Ret (framed_wire (r_sequences r) body)) as Hw.
  { unfold framed_wire. destruct (tcp_flow_id body) as [[flow|]|]; [by destruct Hwire|by destruct Hwire as [-> _]..]. }
  destruct (buf_slice_valid q _ Hok Hw) as [Hv Hlen]. rewrite Hlen. set (wire := framed_wire _ _) in *.
  destruct (dispatch_ok copy (r_scheduler r) q (mkUplink (u_store u) (u_table u) (u_tracker u) (fetch_add_i64 (u_total_up u) (default (zlen wire) counted))) wire Hs Hw Hv Hb)
    as (s' & u' & class & -> & Hs' & Hc & Hws & Ht & Hup & Hb' & Hplaced). rbind. cbn [fst snd] in *.
  exists (mkReader s' seqs), u'. split; [done|]. split; [done|]. split; [done|]. exists q, class. by split_and!.
Qed.

(** A turn of the TUN reader. *)
Lemma read_tun_turn_spec e lent answer copy t u :
  reader_ok (tr_reader t) -> tracker_ok u -> (forall p, lent = Some p -> buf_ok p) ->
  exists t' u', read_tun_turn e lent answer copy t u = Ret (t', u') /\ reader_ok (tr_reader t') /\ tracker_ok u'
    /\ match tr_at t, lent, answer with
       | InReadBurst burst, Some _, Reads data =>
           if negb (burst <? 32) then u' = u /\ tr_at t' = AtReadable
           else if zlen data =? 0 then u' = u /\ tr_at t' = ReaderReturned
           else tr_at t' = InReadBurst (burst + 1)
                /\ forwarded (Some (zlen (received_part data))) copy (received_part data) (tr_reader t) u (tr_reader t') u'
       | _, _, _ => u' = u /\ tr_reader t' = tr_reader t
       end.
Proof.
  intros Hr Hb Hlent. unfold read_tun_turn.
  destruct (tr_at t) as [|burst|]; [destruct e as [[]|]; by eexists _, _| |by exists t, u; destruct lent, answer].
  unfold read_burst_turn. destruct (burst <? 32) eqn:Eb; cbn [negb].
  2:{ destruct lent, answer; eexists _, _; (split; [reflexivity|]); by split_and!. }
  destruct lent as [p|]; [|by eexists _, _; split; [reflexivity|]; split_and!].
  destruct answer as [data|err|]; [|by eexists _, _; split; [reflexivity|]; split_and!..].
  pose proof (zlen_received_part data) as Hl. pose proof (zlen_nonneg data).
  destruct (Z.eqb_spec (zlen (received_part data)) 0) as [Hz|Hz].
  { assert ((zlen data =? 0) = true) as -> by (apply Z.eqb_eq; lia). by eexists _, _; split; [reflexivity|]; split_and!. }
  assert ((zlen data =? 0) = false) as -> by (apply Z.eqb_neq; lia).
  destruct (fill_read_area p (received_part data) (Hlent p eq_refl)) as (p1 & p2 & -> & Hset & Hsl & Hok); [lia|]. rbind. rewrite Hset.
  destruct (forwarding_ok (Some (zlen (received_part data))) copy (tr_reader t) p2 u (received_part data) Hr Hb) as (r' & u' & -> & Hr' & Hb' & Hf); [|done|].
  { split; [done|]. unfold set_read_len in Hset. destruct (PACKET_CAPACITY - PACKET_HEADROOM <? _) in Hset; by simplify_eq. }
  rbind. eexists _, _. split; [reflexivity|]. by split_and!.
Qed.

Lemma read_tun_turn_ok e lent answer copy t u :
  reader_ok (tr_reader t) -> tracker_ok u -> (forall p, lent = Some p -> buf_ok p) ->
  exists t' u', read_tun_turn e lent answer copy t u = Ret (t', u') /\ reader_ok (tr_reader t') /\ tracker_ok u'.
Proof.
  intros Hr Hb Hlent. destruct (read_tun_turn_spec e lent answer copy t u Hr Hb Hlent) as (t' & u' & E & Hr' & Hb' & _). by exists t', u'.
Qed.

(** C14: a turn of the TUN reader never panics, whatever the interface answers.
    Within a burst of at most 32, a packet that is read is cut to the buffer,
    counted by the length that was read, framed if its flow is tracked, and put
    into the queue of its class of a healthy worker if the table has one, with
    at most one copy for another; reading nothing ends the task, an error ends
    it or the burst, and no other turn touches the queues or the counter. *)
Theorem tun_reads_forward e lent answer copy t u :
  reader_ok (tr_reader t) -> tracker_ok u -> (forall p, lent = Some p -> buf_ok p) ->
  exists t' u', read_tun_turn e lent answer copy t u = Ret (t', u') /\ reader_ok (tr_reader t') /\ tracker_ok u'
    /\ match tr_at t, lent, answer with
       | InReadBurst burst, Some _, Reads data =>
           if negb (burst <? 32) then u' = u /\ tr_at t' = AtReadable
           else if zlen data =? 0 then u' = u /\ tr_at t' = ReaderReturned
           else tr_at t' = InReadBurst (burst + 1)
                /\ forwarded (Some (zlen (received_part data))) copy (received_part data) (tr_reader t) u (tr_reader t') u'
       | _, _, _ => u' = u /\ tr_reader t' = tr_reader t
       end.
Proof. apply read_tun_turn_spec. Qed.
End Dispatching.

(** ** What a receive leaves in the buffers *)

Definition at_headroom (p : PacketBuf) : Prop := range_start p = PACKET_HEADROOM.

Lemma set_read_len_start p n q : set_read_len p n = Ok q -> at_headroom q.
Proof. unfold set_read_len. destruct (_ <? _); intros; by simplify_eq. Qed.

Lemma portable_recv_from_shape packets sources before s packets' sources' r s' :
  length packets = length sources -> portable_recv_from packets sources before s = Ret (packets', sources', r, s') ->
  length sources' = length sources
  /\ forall n, r = Ok n -> before <= n /\ Forall at_headroom (take (Z.to_nat (n - before)) packets').
Proof.
  revert sources before s packets' sources' r s'. induction packets as [|p packets IH]; intros [|x sources] before s packets' sources' r s' Hl; try done;
    cbn [portable_recv_from]; intros Heq.
  { simplify_eq. split; [done|]. intros n [= <-]. split; [done|]. rewrite Z.sub_diag. constructor. }
  destruct (try_recv_one s) as [[[d source]|e] s1].
  - destruct (write_read_area p _) as [p1|]; [|done]. cbn in Heq. destruct (as_socket source) as [a|]; [|by simplify_eq].
    destruct (set_read_len p1 _) as [p2|] eqn:Eset; [|by simplify_eq].
    destruct (portable_recv_from packets sources (before + 1) s1) as [[[[ps ss] r1] s2]|] eqn:E; [|done]. cbn in Heq. simplify_eq.
    apply IH in E as [Hlen Hn]; [|cbn in Hl; lia]. split; [cbn; by rewrite Hlen|]. intros n Hr. destruct (Hn n Hr) as [Hge Hf].
    split; [lia|]. replace (Z.to_nat (n - before)) with (S (Z.to_nat (n - (before + 1)))) by lia. cbn [take].
    constructor; [by eapply set_read_len_start|done].
  - simplify_eq. split; [done|]. intros n Hn. case_bool_decide; destruct (0 <? before); cbn in Hn; try done. simplify_eq.
    split; [done|]. rewrite Z.sub_diag. constructor.
Qed.

Lemma set_lens_sources_shape packets sources got l packets' sources' r :
  length packets = length sources -> length got = length l -> (length got <= length packets)%nat ->
  set_lens_sources packets sources got l = (packets', sources', r) ->
  length sources' = length sources /\ length packets' = length packets /\ (r = Ok tt -> Forall at_headroom (take (length got) packets')).
Proof.
  revert sources got l packets' sources' r. induction packets as [|p packets IH]; intros [|x sources] [|d got] [|a l] packets' sources' r Hl1 Hl2 Hl3;
    cbn [set_lens_sources length] in *; try lia; try (intros; simplify_eq; split_and!; [done|done|constructor]).
  destruct (set_read_len p _) as [p2|] eqn:Eset; [|intros; by simplify_eq].
  destruct (set_lens_sources packets sources got l) as [[ps ss] r1] eqn:E. intros. simplify_eq.
  apply IH in E as (Hlen & Hlen' & Hf); [|lia..]. cbn [length]. split_and!; [by rewrite Hlen|by rewrite Hlen'|]. intros Hr. cbn [take].
  constructor; [by eapply set_read_len_start|by apply Hf].
Qed.

Lemma check_sources_length got l : check_sources got = Ok l -> length l = length got.
Proof.
  revert l. induction got as [|[d x] got IH]; intros l; cbn [check_sources]; [by intros [= <-]|].
  destruct (cut_off d); [done|]. destruct (_ <? _); [done|]. destruct (socket_addr_from_storage x); [|done].
  destruct (check_sources got); [|done]. intros [= <-]. cbn. f_equal. by apply IH.
Qed.

Lemma try_recv_from_shape packets sources s packets' sources' r s' :
  length packets = length sources -> try_recv_from packets sources s = Ret (packets', sources', r, s') ->
  length sources' = length sources /\ forall n, r = Ok n -> Forall at_headroom (take (Z.to_nat n) packets').
Proof.
  intros Hl. unfold try_recv_from. destruct (validate_receive_batch _ _) as [_|e]; [|intros; by simplify_eq]. unfold platform_recv_from.
  assert (forall ps ss b s, length ps = length ss -> portable_recv_from ps ss 0 b = Ret (packets', sources', r, s) ->
    length sources' = length ss /\ forall n, r = Ok n -> Forall at_headroom (take (Z.to_nat n) packets')) as Hport.
  { intros ps ss b s2 Hl2 E. apply portable_recv_from_shape in E as [Hlen Hn]; [|done]. split; [done|]. intros n Hr.
    destruct (Hn n Hr) as [_ Hf]. by rewrite Z.sub_0_r in Hf. }
  destruct (negb (recv_enabled s)); [by apply Hport|]. unfold try_recvfrom_mmsg.
  destruct (zlen packets =? 0); [rbind; intros; simplify_eq; split; [done|]; intros n [= <-]; constructor|].
  destruct (recv_mmsg_loop (length packets) s (recv_answers s)) as [[messages|e] s1]; rbind;
    [|destruct (mmsg_unavailable e); [by apply Hport|intros; by simplify_eq]].
  destruct (UdpBatch.fill_batch packets (map fst messages)) as [ps1|] eqn:Ef; rbind; [|done]. apply fill_batch_length in Ef as Hlen1.
  destruct (Z.ltb_spec (zlen ps1) (zlen (map fst messages))) as [_|Hle]; [rbind; intros Heq; cbn in Heq; by simplify_eq|].
  destruct (check_sources messages) as [l|e] eqn:Ec; rbind; [|destruct (mmsg_unavailable e); [apply Hport; congruence|intros; by simplify_eq]].
  apply check_sources_length in Ec. destruct (set_lens_sources ps1 sources (map fst messages) l) as [[ps2 ss2] r2] eqn:Es.
  unfold zlen in Hle. rewrite length_map in Hle. apply set_lens_sources_shape in Es as (Hlen2 & Hlen3 & Hf); [|rewrite ?length_map; lia..].
  rbind. destruct r2 as [[]|e]; [|destruct (mmsg_unavailable e); [rewrite <- Hlen2; apply Hport; congruence|intros; by simplify_eq]].
  intros Heq. cbn in Heq. simplify_eq. split; [done|]. intros n [= <-]. unfold zlen. rewrite Nat2Z.id. by apply Hf.
Qed.

Section Loops.
Context {Q : Type -> Type} `{ArrayQueue Q}.

(** Packets with these bytes went through one after the other, each counted as
    it was sent. *)
Inductive forwards : list bytes -> Reader -> @Uplink Q -> Reader -> @Uplink Q -> Prop :=
| forwards_nil r u : forwards [] r u r u
| forwards_cons copy body bodies r u r1 u1 r2 u2 :
    forwarded None copy body r u r1 u1 -> forwards bodies r1 u1 r2 u2 -> forwards (body :: bodies) r u r2 u2.

Lemma forward_received_ok copies r client packets sources (u : @Uplink Q) bodies :
  reader_ok r -> tracker_ok u -> Forall2 (fun p body => framable p /\ as_slice p = Ret body) packets bodies ->
  (length packets <= length sources)%nat ->
  exists r' u', forward_received copies r client packets sources u
      = Ret (r', match last (take (length packets) sources) with Some a => Some a | None => client end, u')
    /\ reader_ok r' /\ tracker_ok u' /\ forwards bodies r u r' u'.
Proof.
  intros Hr Hb Hp. revert r client sources u Hr Hb. induction Hp as [|p body packets bodies [Hf Hbody] _ IH]; intros r client sources u Hr Hb Hl.
  { exists r, u. cbn. split_and!; try done. constructor. }
  destruct sources as [|a sources]; [cbn in Hl; lia|]. cbn [forward_received length take].
  destruct (forwarding_ok None (copies (length packets)) r p u body Hr Hb Hf Hbody) as (r1 & u1 & -> & Hr1 & Hb1 & Hf1). rbind. cbn [fst snd].
  destruct (IH r1 (if bool_decide (client = Some a) then client else Some a) sources u1 Hr1 Hb1) as (r2 & u2 & E & Hr2 & Hb2 & Hf2); [cbn in Hl; lia|].
  exists r2, u2. rewrite E. split; [|split; [done|split; [done|by econstructor]]]. do 2 f_equal.
  destruct (take (length packets) sources) as [|y rest] eqn:Et; [cbn; case_bool_decide; congruence|].
  change (last (a :: y :: rest)) with (last (y :: rest)). destruct (last (y :: rest)) eqn:El; [done|]. by apply last_None in El.
Qed.

(** A receive with sources into buffers of the pool. *)
Lemma try_recv_from_ok batch sources side froms :
  batch <> [] -> zlen batch <= MAX_DATAGRAMS -> Forall buf_ok batch -> length batch = length sources -> Forall2 has_source (inbox side) froms ->
  exists packets sources' r side', try_recv_from batch sources side = Ret (packets, sources', r, side')
    /\ length sources' = length sources /\ length packets = length batch
    /\ exists got, inbox side = got ++ inbox side' /\ match r with
       | Ok n => n = zlen got /\ (length got <= length batch)%nat
           /\ Forall2 (fun p body => framable p /\ as_slice p = Ret body) (take (length got) packets) (map received_part (map fst got))
           /\ take (length got) sources' = take (length got) froms
       | Err e => kind e = WouldBlock -> got = []
       end.
Proof.
  intros Hne Hmax Hp Hl Hf. destruct (platform_recv_spec batch side Hne Hp) as (packets & r & side' & E & (Hok & Hlen & _ & got & Hi & Hg & Hr) & _).
  assert (try_recv_connected batch side = Ret (packets, r, side')) as Ep.
  { unfold try_recv_connected, validate_batch_len. by destruct (Z.leb_spec (zlen batch) MAX_DATAGRAMS); [|lia]. }
  destruct (recv_from_adds_sources batch sources side froms) with (1 := ltac:(unfold zlen; congruence) : zlen batch = zlen sources) (2 := Hf) (3 := Ep) as (sources' & Ef & Hs).
  destruct (try_recv_from_shape batch sources side packets sources' r side' Hl Ef) as [Hlen' Hhead].
  exists packets, sources', r, side'. split; [done|]. split; [done|]. split; [done|]. exists got. split; [done|].
  destruct r as [n|e]; [|intros He; by destruct (Hr He)]. destruct Hr as [-> Hslices]. rewrite Z.add_0_l in *. split; [done|]. split; [done|]. split.
  - specialize (Hhead _ eq_refl). unfold zlen in Hhead. rewrite Nat2Z.id in Hhead. rewrite Forall2_fmap_r.
    apply Forall2_same_length_lookup. apply Forall2_same_length_lookup in Hslices as [Hsl Hlook]. split; [done|].
    intros i p d Hpi Hdi. split; [|by eapply Hlook]. split.
    + eapply Forall_lookup_1; [exact Hok|]. apply lookup_take_Some in Hpi as [? _]. done.
    + assert (at_headroom p) as Hh by (by eapply Forall_lookup_1). rewrite Hh. done.
  - rewrite (Hs _ eq_refl), Z.sub_0_r. unfold zlen, put_sources. rewrite Nat2Z.id.
    pose proof (Forall2_length _ _ _ Hf) as Hfl. rewrite Hi, length_app in Hfl.
    rewrite take_app_le by (rewrite length_take; lia). by rewrite take_take, Nat.min_id.
Qed.

(** A turn of the UDP reader with buffers of the pool never panics,
    whatever the kernel answers. When the receive succeeds, the datagrams that it
    took off the socket are forwarded in their order, each cut to the buffer,
    and the client's address becomes that of the last one; when the receive
    would block, it has taken nothing; otherwise it pauses and forwards
    nothing. *)
Lemma udp_reads_forward lent copies t client side (u : @Uplink Q) froms :
  reader_ok (ur_reader t) -> tracker_ok u -> ur_at t = UdpReadable -> zlen (ur_sources t) = 128 ->
  lent <> [] -> Forall buf_ok lent -> Forall2 has_source (inbox side) froms ->
  exists t' client' side' u', read_udp_turn (Readable (Ok tt)) lent copies t client side u = Ret (t', client', side', u')
    /\ reader_ok (ur_reader t') /\ tracker_ok u' /\ zlen (ur_sources t') = 128
    /\ exists got, inbox side = got ++ inbox side' /\
       match ur_at t' with
       | UdpReadable => forwards (map received_part (map fst got)) (ur_reader t) u (ur_reader t') u'
           /\ client' = match last (take (length got) froms) with Some a => Some a | None => client end
       | UdpPause _ => u' = u /\ client' = client
       | UdpReturned => False
       end.
Proof.
  intros Hr Hb Hat Hsrc Hne Hp Hf. unfold read_udp_turn. rewrite Hat. set (batch := take (Z.to_nat MAX_DATAGRAMS) lent).
  assert (batch <> []) as Hbne by (destruct lent; [done|]; unfold batch, MAX_DATAGRAMS; done).
  assert (length batch <= 128)%nat as Hbl by (unfold batch; rewrite length_take; unfold MAX_DATAGRAMS; lia).
  destruct (Z.eqb_spec (zlen batch) 0) as [Hz%zlen_zero|_]; [done|].
  destruct (Z.ltb_spec (zlen (ur_sources t)) (zlen batch)) as [Hlt|_]; [rewrite Hsrc in Hlt; unfold zlen in Hlt; lia|].
  unfold zlen in Hsrc. set (sources := take (length batch) (ur_sources t)).
  assert (length batch = length sources) as Hl by (unfold sources; rewrite length_take; lia).
  assert (Forall buf_ok batch) as Hbp by (by apply Forall_take).
  destruct (try_recv_from_ok batch sources side froms) as (packets & sources' & r & side' & -> & Hl1 & Hl2 & got & Hi & Hg); try done.
  { unfold zlen, MAX_DATAGRAMS. lia. } rbind.
  assert (zlen (sources' ++ drop (length batch) (ur_sources t)) = 128) as Hs'.
  { rewrite zlen_app, zlen_drop_list. unfold zlen. lia. }
  destruct r as [n|e].
  - destruct Hg as (-> & Hgl & Hfill & Hfroms). destruct (Z.ltb_spec (zlen packets) (zlen got)) as [Hlt|_]; [unfold zlen in Hlt; lia|].
    unfold zlen at 1. rewrite Nat2Z.id.
    destruct (forward_received_ok copies (ur_reader t) client (take (length got) packets) (sources' ++ drop (length batch) (ur_sources t)) u
      (map received_part (map fst got)) Hr Hb Hfill) as (r' & u' & E & Hr' & Hb' & Hfw).
    { rewrite length_take, length_app. lia. }
    rewrite E. rbind. eexists _, _, _, _. split; [reflexivity|]. cbn [ur_reader ur_sources ur_at]. split_and!; try done.
    exists got. split; [done|]. split; [done|]. rewrite length_take, Nat.min_l by lia. by rewrite take_app_le, Hfroms by lia.
  - eexists _, _, _, _. split; [reflexivity|]. cbn [ur_reader ur_sources ur_at]. split_and!; try done. exists got. split; [done|].
    case_bool_decide as Hk; [|done]. rewrite (Hg Hk). cbn. split; [constructor|done].
Qed.

(** What the bridge's reader finds, in the order in which it takes it. *)
Definition bridge_items (b : @UplinkBridge Q) : list PacketBuf := items (Bridge.latency b) ++ items (Bridge.bulk b).

Lemma bridge_pop_spec (b : @UplinkBridge Q) :
  aq_ok (Bridge.latency b) -> aq_ok (Bridge.bulk b) ->
  let '(p, b') := bridge_pop b in
  aq_ok (Bridge.latency b') /\ aq_ok (Bridge.bulk b') /\ bridge_items b = option_list p ++ bridge_items b' /\ (p = None -> bridge_items b' = []).
Proof.
  intros Hl Hq. unfold bridge_pop, bridge_items.
  destruct (aq_pop_cases (Bridge.latency b) Hl) as [[Hn ->]|(x & l & -> & Hi & _ & Hok)]; [|by rewrite Hi; split_and!].
  destruct (aq_pop_cases (Bridge.bulk b) Hq) as [[Hn' ->]|(x & q & -> & Hi & _ & Hok)]; [by rewrite Hn, Hn'|].
  cbn. rewrite Hn, Hi. by split_and!.
Qed.

(** The bridge's reader never panics and sleeps only when both queues are
    empty: until then it forwards what waits, the latency queue first and each
    queue in its order. *)
Lemma bridge_drained copies r (b : @UplinkBridge Q) (u : @Uplink Q) bodies :
  reader_ok r -> tracker_ok u -> aq_ok (Bridge.latency b) -> aq_ok (Bridge.bulk b) ->
  Forall2 (fun p body => framable p /\ as_slice p = Ret body) (items (Bridge.latency b) ++ items (Bridge.bulk b)) bodies ->
  exists r' b' u', read_bridge_turn copies r b u = Ret (true, r', b', u')
    /\ items (Bridge.latency b') = [] /\ items (Bridge.bulk b') = []
    /\ reader_ok r' /\ tracker_ok u' /\ forwards bodies r u r' u'.
Proof.
  intros Hr Hb Hl Hq Hp. unfold read_bridge_turn. rewrite <- length_app. fold (bridge_items b) in Hp |- *.
  remember (bridge_items b) as ps eqn:Hps. revert r b u bodies Hr Hb Hl Hq Hp Hps.
  induction ps as [|p ps IH]; intros r b u bodies Hr Hb Hl Hq Hp Hps; cbn [length bridge_turns];
    pose proof (bridge_pop_spec b Hl Hq) as Hpop; destruct (bridge_pop b) as [[x|] b1]; destruct Hpop as (Hl1 & Hq1 & Hi & Hn); rewrite <- Hps in Hi; cbn in Hi; try done; [| |by rewrite (Hn eq_refl) in Hi].
  - apply Forall2_nil_inv_l in Hp as ->. symmetry in Hi. apply app_eq_nil in Hi as [Hi1 Hi2].
    exists r, b1, u. split_and!; try done. constructor.
  - injection Hi as -> Hi. apply Forall2_cons_inv_l in Hp as (body & bodies' & [Hf Hbody] & Hp & ->).
    destruct (forwarding_ok None (copies (S (length ps))) r x u body Hr Hb Hf Hbody) as (r1 & u1 & -> & Hr1 & Hb1 & Hf1). rbind. cbn [fst snd].
    destruct (IH r1 b1 u1 bodies' Hr1 Hb1 Hl1 Hq1 Hp Hi) as (r2 & b2 & u2 & E & He1 & He2 & Hr2 & Hb2 & Hf2).
    exists r2, b2, u2. split_and!; try done. by econstructor.
Qed.
End Loops.

(** ** The task of a TUN interface *)

Section Run.
Context {Q : Type -> Type} `{ArrayQueue Q}.

(** The task waits for its first interface, runs a reader and a writer on one,
    waits for a replacement, or has ended. *)
Inductive TaskAt : Type := WaitsForFile | Running | NeedsFile | TaskEnded.

Record TunTask : Type := mkTunTask { k_writer : TunWriter; k_reader : TunReader; k_at : TaskAt }.

(** What the task is woken by; a file that arrives is registered or cannot be,
    and [None] is the end of the channel. [sender_id] is drawn at random for the
    sequencer of a new reader. *)
Inductive TaskEvent : Type :=
| ReaderMoves (e : ReadEvent) (lent : option PacketBuf) (answer : ReadAnswer) (copy : option PacketBuf)
| WriterMoves (clock : nat -> Z) (e : TunEvent)
| FileArrives (file : option (result TunSide IoError)) (sender_id : Z)
| TaskSeesCancel.

Definition resume_all (s : @Returns Q) : @Returns Q := mkReturns (resume (r_latency s)) (resume (r_priority s)) (resume (r_bulk s)).

(** [run_tun] on an interface: its writer and reader start anew. *)
Definition run_on (device : TunSide) (sender_id : Z) (w : @World Q TunSide) : TunTask * @World Q TunSide :=
  (mkTunTask start_tun_writer (start_tun_reader sender_id) Running, set_device w device (w_total_down w)).

Definition idle_at (position : TaskAt) (k : TunTask) : TunTask := mkTunTask (k_writer k) (k_reader k) position.

Definition tun_task_turn (e : TaskEvent) (k : TunTask) (w : @World Q TunSide) (u : @Uplink Q) : res (TunTask * @World Q TunSide * @Uplink Q) :=
  match k_at k, e with
  | TaskEnded, _ => Ret (k, w, u)
  | WaitsForFile, FileArrives (Some file) sender_id =>
      let w := set_returns w (resume_all (w_returns w)) in
      match file with
      | Ok device => Ret (run_on device sender_id w, u)
      | Err _ => Ret (idle_at WaitsForFile k, w, u)
      end
  | WaitsForFile, (FileArrives None _ | TaskSeesCancel) => Ret (idle_at TaskEnded k, w, u)
  | WaitsForFile, _ => Ret (k, w, u)
  | (Running | NeedsFile), FileArrives (Some (Ok device)) sender_id => Ret (run_on device sender_id w, u)
  | (Running | NeedsFile), FileArrives (Some (Err _)) _ => Ret (idle_at WaitsForFile k, w, u)
  | Running, FileArrives None _ => Ret (idle_at NeedsFile k, w, u)
  | NeedsFile, FileArrives None _ => Ret (idle_at WaitsForFile k, w, u)
  | (Running | NeedsFile), TaskSeesCancel => Ret (if w_cancelled w then idle_at WaitsForFile k else k, w, u)
  | Running, ReaderMoves e lent answer copy =>
      moved ← read_tun_turn e lent answer copy (k_reader k) u;
      let '(t, u) := moved in
      Ret (mkTunTask (k_writer k) t (match tr_at t with ReaderReturned => NeedsFile | _ => Running end), w, u)
  | Running, WriterMoves clock e =>
      moved ← write_tun_turn clock e (k_writer k) w;
      let '(t, w) := moved in
      Ret (mkTunTask t (k_reader k) (match t_at t with TunReturned => NeedsFile | _ => Running end), w, u)
  | NeedsFile, _ => Ret (k, w, u)
  end.

Record task_ok (k : TunTask) (w : @World Q TunSide) (u : @Uplink Q) : Prop := {
  k_writer_ok : tun_ok (k_writer k) w;
  k_reader_ok : reader_ok (tr_reader (k_reader k));
  k_tracker_ok : tracker_ok u;
  k_accounts : exists total0 ps, accounts total0 ps (k_writer k) w;
}.

Lemma resume_good (q : @PacketQueue Q) : queue_good q -> queue_good (resume q) /\ items (queue (resume q)) = [].
Proof.
  intros [Hq _]. unfold resume, purge. cbv zeta. destruct (steal_spec (set_state q (wrap 64 (Z.shiftl (next_epoch q) 1))) Hq) as (q' & -> & Hi & Hok).
  cbn [snd]. split; [|exact Hi]. split; [exact Hok|]. cbn. rewrite Hi. constructor.
Qed.

Lemma resume_all_good s : returns_good s -> returns_good (resume_all s) /\ waiting (resume_all s) = 0%nat.
Proof.
  intros (Hl & Hp & Hb). unfold returns_good, waiting, resume_all. cbn [r_latency r_priority r_bulk].
  destruct (resume_good _ Hl) as [? ->], (resume_good _ Hp) as [? ->], (resume_good _ Hb) as [? ->]. by split_and!.
Qed.

Lemma run_on_ok device sender_id w (u : @Uplink Q) :
  returns_good (w_returns w) -> written_out device = [] -> is_u 64 sender_id -> tracker_ok u ->
  task_ok (fst (run_on device sender_id w)) (snd (run_on device sender_id w)) u.
Proof.
  intros Hw Hd Hs Hu. split; cbn [fst snd run_on k_writer k_reader]; [|split|done|].
  - split; [done|exact new_reorder_good|done|done].
  - done.
  - split; [|by apply map_Forall_empty]. cbn. unfold is_u in *. lia.
  - exists (w_total_down w), []. apply accounts_between; [done|cbn; by rewrite Hd|done].
Qed.

(** What the task may be given: buffers of the pool, and interfaces on which
    nothing has been written. *)
Definition event_ok (e : TaskEvent) : Prop :=
  match e with
  | ReaderMoves _ (Some p) _ _ => buf_ok p
  | FileArrives (Some (Ok device)) sender_id => written_out device = [] /\ is_u 64 sender_id
  | _ => True
  end.

(** C26: the task of a TUN interface never panics and keeps its reader, its
    writer and the return queues well formed, whatever it is woken by. A file
    that arrives is registered and then run on, or given up. A new run starts
    with nothing at hand and nothing to reorder; the first one also with empty
    return queues, so that nothing accepted before there was an interface is
    written to it, while a replacement finds the return queues as they were. *)
Theorem tun_task_safe e k w (u : @Uplink Q) :
  task_ok k w u -> event_ok e ->
  exists k' w' u', tun_task_turn e k w u = Ret (k', w', u') /\ task_ok k' w' u'
    /\ match e with
       | FileArrives (Some (Ok device)) _ =>
           k_at k <> TaskEnded ->
           k_at k' = Running /\ t_pending (k_writer k') = None /\ t_reorder (k_writer k') = new_reorder /\ w_device w' = device
           /\ match k_at k with WaitsForFile => waiting (w_returns w') = 0%nat | _ => w_returns w' = w_returns w end
       | _ => True
       end.
Proof.
  intros Hok He. pose proof Hok as [Hw Hr Hu (total0 & ps & Ha)]. pose proof (ok_returns _ _ Hw) as Hret. unfold tun_task_turn.
  assert (forall position, task_ok (idle_at position k) w u) as Hidle by (intros position; split; [done..|by exists total0, ps]).
  assert (forall device sender_id w1, returns_good (w_returns w1) -> event_ok (FileArrives (Some (Ok device)) sender_id) ->
    exists k' w' u', Ret (run_on device sender_id w1, u) = Ret (k', w', u') /\ task_ok k' w' u'
      /\ (k_at k' = Running /\ t_pending (k_writer k') = None /\ t_reorder (k_writer k') = new_reorder /\ w_device w' = device
          /\ w_returns w' = w_returns w1)) as Hrun.
  { intros device sender_id w1 Hg [Hd Hs]. pose proof (run_on_ok device sender_id w1 u Hg Hd Hs Hu) as Hk. by eexists _, _, _. }
  destruct (k_at k) eqn:Hat; destruct e as [e' lent answer copy|clock e'|[[device|err]|] sender_id|]; try (by eexists _, _, _; split_and!).
  - destruct (resume_all_good _ Hret) as [Hg Hz].
    destruct (Hrun device sender_id (set_returns w (resume_all (w_returns w))) Hg He) as (k' & w' & u' & E & Hk & H1 & H2 & H3 & H4 & H5).
    exists k', w', u'. split_and!; try done. intros _. rewrite H5. by split_and!.
  - destruct (resume_all_good _ Hret) as [Hg _]. eexists _, _, _. split; [reflexivity|]. split; [|done].
    split; [|done|done|by exists total0, ps]. destruct Hw as [_ ? ? ?]. by split.
  - assert (forall p, lent = Some p -> buf_ok p) as Hlent by (intros p ->; done).
    destruct (read_tun_turn_ok e' lent answer copy (k_reader k) u Hr Hu Hlent) as (t' & u' & -> & Hr' & Hu'). rbind.
    eexists _, _, _. split; [reflexivity|]. split; [|done]. split; [done..|by exists total0, ps].
  - destruct (write_tun_turn_ok total0 clock e' ps (k_writer k) w Hw Ha) as (t' & w' & -> & Hw' & Ha'). rbind.
    eexists _, _, _. split; [reflexivity|]. split; [|done]. split; [done..|by eexists _, _].
  - destruct (Hrun device sender_id w Hret He) as (k' & w' & u' & E & Hk & H1). exists k', w', u'. by split_and!.
  - eexists _, _, _. split; [reflexivity|]. split; [|done]. by destruct (w_cancelled w).
  - destruct (Hrun device sender_id w Hret He) as (k' & w' & u' & E & Hk & H1). exists k', w', u'. by split_and!.
  - eexists _, _, _. split; [reflexivity|]. split; [|done]. by destruct (w_cancelled w).
Qed.
End Run.

(** ** Binding the UDP port *)

Inductive Binding : Type := BoundTo | BoundAnywhere | BindFails (e : IoError).

(** The attempts from [attempt] on, the outcome of each, and of setting the
    buffers; with the seconds slept. *)
Fixpoint bind_attempts (attempts : list Z) (bind : Z -> result unit IoError) (buffers fallback : result unit IoError) (slept : Z) : Binding * Z :=
  match attempts with
  | [] => (match fallback with Ok _ => BoundAnywhere | Err e => BindFails e end, slept)
  | attempt :: attempts =>
      match bind attempt with
      | Ok _ => (match buffers with Ok _ => BoundTo | Err e => BindFails e end, slept)
      | Err _ => bind_attempts attempts bind buffers fallback (if attempt <? 5 then slept + 1 else slept)
      end
  end.

Definition bind_udp (bind : Z -> result unit IoError) (buffers fallback : result unit IoError) : Binding * Z :=
  bind_attempts [1; 2; 3; 4; 5] bind buffers fallback 0.

(** The port is the one asked for if it is free at one of five attempts a
    second apart, and any other if not. *)
Lemma bind_udp_spec bind :
  (forall k, 1 <= k <= 5 -> is_ok (bind k) = true -> (forall j, 1 <= j < k -> is_ok (bind j) = false) -> bind_udp bind (Ok tt) (Ok tt) = (BoundTo, k - 1))
  /\ ((forall j, 1 <= j <= 5 -> is_ok (bind j) = false) -> bind_udp bind (Ok tt) (Ok tt) = (BoundAnywhere, 4)).
Proof.
  unfold bind_udp. cbn [bind_attempts Z.ltb Z.compare Pos.compare Pos.compare_cont Z.add Pos.add Pos.succ]. split.
  - intros k Hk Hok Hbad.
    assert (k = 1 \/ k = 2 \/ k = 3 \/ k = 4 \/ k = 5) as Hcases by lia.
    destruct (bind 1) eqn:E1, (bind 2) eqn:E2, (bind 3) eqn:E3, (bind 4) eqn:E4, (bind 5) eqn:E5;
      destruct Hcases as [->|[->|[->|[->| ->]]]]; rewrite ?E1, ?E2, ?E3, ?E4, ?E5 in Hok; try done;
      try (specialize (Hbad 1 ltac:(lia)); by rewrite E1 in Hbad); try (specialize (Hbad 2 ltac:(lia)); by rewrite E2 in Hbad);
      try (specialize (Hbad 3 ltac:(lia)); by rewrite E3 in Hbad); specialize (Hbad 4 ltac:(lia)); by rewrite E4 in Hbad.
  - intros Hbad. pose proof (Hbad 1 ltac:(lia)). pose proof (Hbad 2 ltac:(lia)). pose proof (Hbad 3 ltac:(lia)).
    pose proof (Hbad 4 ltac:(lia)). pose proof (Hbad 5 ltac:(lia)).
    by destruct (bind 1), (bind 2), (bind 3), (bind 4), (bind 5).
Qed.

(** ** Concrete runs *)

Definition fresh_uplink : @Uplink ListQueue := mkUplink example_store example_table ∅ 5.
Definition fresh_reader : Reader := mkReader new_scheduler (with_sender_id 7).

Lemma fresh_reader_ok : reader_ok fresh_reader.
Proof. split; [reflexivity|]. split; [split; [discriminate|reflexivity]|apply map_Forall_empty]. Qed.

Lemma fresh_tracker_ok : tracker_ok fresh_uplink.
Proof. unfold tracker_ok, map_len. cbn [u_tracker fresh_uplink]. rewrite map_size_empty. discriminate. Qed.

Lemma blank_packet_ok : buf_ok blank_packet.
Proof. split; [reflexivity|]. unfold blank_packet, PACKET_CAPACITY, PACKET_HEADROOM. cbn [range_start range_end]. lia. Qed.

Lemma tun_reads_forward_witness :
  exists t' u', read_tun_turn (Readable (Ok tt)) (Some blank_packet) (Reads example_segment) None
      (mkTunReader fresh_reader (InReadBurst 0)) fresh_uplink = Ret (t', u')
    /\ tr_at t' = InReadBurst 1 /\ u_total_up u' = 46
    /\ forwarded (Some (zlen (received_part example_segment))) None (received_part example_segment) fresh_reader fresh_uplink (tr_reader t') u'.
Proof.
  destruct (tun_reads_forward (Readable (Ok tt)) (Some blank_packet) (Reads example_segment) None
    (mkTunReader fresh_reader (InReadBurst 0)) fresh_uplink fresh_reader_ok fresh_tracker_ok) as (t' & u' & E & _ & _ & Hf).
  { intros p [= <-]. exact blank_packet_ok. }
  exists t', u'. split; [exact E|]. destruct Hf as [Hat Hf]. split; [exact Hat|]. split; [|exact Hf].
  destruct Hf as (q & class & _ & _ & _ & _ & Ht & _). rewrite Ht. reflexivity.
Defined.

Lemma udp_reads_forward_witness :
  exists t' client' side' u', read_udp_turn (Readable (Ok tt)) [blank_packet; blank_packet] (fun _ => None) (start_udp_reader 7) None
      (mkRecv [([7; 8], somewhere)] [Gives 64] true) fresh_uplink = Ret (t', client', side', u')
    /\ inbox side' = [] /\ client' = Some (V4 [127; 0; 0; 1] 9) /\ u_total_up u' = 7.
Proof.
  destruct (udp_reads_forward [blank_packet; blank_packet] (fun _ => None) (start_udp_reader 7) None
    (mkRecv [([7; 8], somewhere)] [Gives 64] true) fresh_uplink [V4 [127; 0; 0; 1] 9] fresh_reader_ok fresh_tracker_ok)
    as (t' & client' & side' & u' & E & _); [reflexivity|reflexivity|discriminate| | |].
  - constructor; [exact blank_packet_ok|]. constructor; [exact blank_packet_ok|constructor].
  - constructor; [split; reflexivity|constructor].
  - exists t', client', side', u'. split; [exact E|]. vm_compute in E. injection E as _ <- <- <-. split; [reflexivity|]. split; reflexivity.
Defined.

Definition loaded_bridge : @UplinkBridge ListQueue :=
  match aq_push (Bridge.latency blank_bridge) example_outbound with
  | Some l => set_queues blank_bridge (Bridge.bulk blank_bridge) l
  | None => blank_bridge
  end.

Lemma bridge_drained_witness :
  exists r' b' u', read_bridge_turn (fun _ => None) fresh_reader loaded_bridge fresh_uplink = Ret (true, r', b', u')
    /\ forwards [example_segment] fresh_reader fresh_uplink r' u'.
Proof.
  destruct (bridge_drained (fun _ => None) fresh_reader loaded_bridge fresh_uplink [example_segment] fresh_reader_ok fresh_tracker_ok)
    as (r' & b' & u' & E & _ & _ & _ & _ & Hf).
  - split; [reflexivity|discriminate].
  - split; [reflexivity|discriminate].
  - constructor; [|constructor]. split; [|vm_compute; reflexivity]. split; [exact (proj1 example_good)|discriminate].
  - exists r', b', u'. split; [exact E|exact Hf].
Defined.

Definition waiting_task : TunTask := mkTunTask start_tun_writer (start_tun_reader 7) WaitsForFile.
Definition waiting_world : @World ListQueue TunSide := mkWorld idle_returns (mkTun [] []) 0 false.

Lemma tun_task_safe_witness :
  exists k' w' u', tun_task_turn (FileArrives (Some (Ok (mkTun [] [Writes 5]))) 7) waiting_task waiting_world fresh_uplink = Ret (k', w', u')
    /\ k_at k' = Running.
Proof.
  destruct (tun_task_safe (FileArrives (Some (Ok (mkTun [] [Writes 5]))) 7) waiting_task waiting_world fresh_uplink) as (k' & w' & u' & E & _ & H).
  - split; [split; [exact idle_returns_good|exact new_reorder_good|intros ??; discriminate|reflexivity]|exact fresh_reader_ok|exact fresh_tracker_ok|].
    exists 0, []. exists []. split; [reflexivity|]. split; reflexivity.
  - split; [reflexivity|split; [discriminate|reflexivity]].
  - exists k', w', u'. split; [exact E|]. apply H. discriminate.
Defined.

(** The same segment of a tracked flow counts by its own length when it comes
    from a TUN interface, and with its frame header when it comes over the bridge
    or the UDP port. *)
Example counts_differ :
  let total {A B} (r : res (A * B)) (f : B -> Z) := match r with Ret (_, u) => f u | Panic => 0 end in
  total (read_tun_turn (Readable (Ok tt)) (Some blank_packet) (Reads example_segment) None (mkTunReader fresh_reader (InReadBurst 0)) fresh_uplink)
    (fun u => u_total_up u) = 5 + 41
  /\ total (read_bridge_turn (fun _ => None) fresh_reader loaded_bridge fresh_uplink) (fun u => u_total_up u) = 5 + 41 + FRAME_LEN.
Proof. split; vm_compute; reflexivity. Qed.
