(* ===== verification/Lifecycle.v ===== *)
(** * Lifecycle: the engine as a library of its host

    Models [ffi.rs] and the frame of [run] of [lib.rs]: the configuration that
    the host passes, the strings that it reads back, and the life of an engine
    from its start to its end over the process-wide slots that the calls of the
    host go through. Every engine runs on a thread of its own, so that a call of
    the host and the steps of the engines interleave; a call, and what an engine
    does with one slot, is one step. *)

From Stdlib Require Import Strings.String.
From S2P Require Import Prelude Bytes Text PacketPool Idle TurnCore Credentials Groups Engine.

(** ** The configuration *)

Record TurnSeed : Type := mkTurnSeed { s_hash : text; s_username : text; s_password : text; s_server_addrs : list text }.

(** What serde reads from the JSON text; absent fields have their defaults. *)
Record EngineJson : Type := mkEngineJson {
  j_peer : text; j_password : text; j_hashes : text; j_vk_hash_mode : text; j_vk_js_token : text;
  j_workers : Z; j_device_id : text; j_captcha_mode : text; j_vk_auth_mode : text; j_obfs : text;
  j_turn_transport : text; j_fingerprint : text; j_allow_hash_redistribution : bool; j_generation : Z;
  j_salt : text; j_http_proxy : text; j_packet_bridge : bool; j_idle_workers : option Z;
  j_idle_after_secs : option Z; j_fec_duplicate : bool; j_turn_seed : list TurnSeed;
}.

Record Arguments : Type := mkArguments {
  a_turn : text; a_port : text; a_listen : text; a_vk : text; a_vk_hash_mode : text; a_vk_js_token : text;
  a_peer : text; a_workers : Z; a_allow_hash_redistribution : bool; a_device_id : text; a_password : text;
  a_vk_auth_mode : text; a_captcha_mode : text; a_fingerprint : text; a_client_ids : text; a_obfs : text;
  a_turn_transport : text; a_generation : Z; a_salt : text; a_tun_uds : text; a_packet_bridge : bool;
  a_validate_vk_hashes : bool; a_http_proxy : text; a_idle_workers : Z; a_idle_after_secs : Z; a_fec_duplicate : bool;
}.

Inductive ConfigError : Type := PeerAndPassword | TokenRequired | HashesRequired.

Definition blank_text (s : text) : bool := zlen (trim s) =? 0.
Definition or_default (s : text) (d : string) : text := if zlen s =? 0 then ascii d else s.

Definition hash_mode_of (cfg : EngineJson) : text :=
  if blank_text (j_vk_hash_mode cfg)
  then if blank_text (j_hashes cfg) then ascii "auto_js" else ascii "manual"
  else to_ascii_lowercase (trim (j_vk_hash_mode cfg)).

Definition install_seeds (seeds : gmap text TurnCredentials) (l : list TurnSeed) : gmap text TurnCredentials :=
  fold_left (fun seeds x => install seeds (s_hash x) (s_username x) (s_password x) (s_server_addrs x)) l (clear seeds).

(** [arguments_from_json] of a text that serde can read. *)
Definition arguments_from_json (cfg : EngineJson) (seeds : gmap text TurnCredentials)
    : result Arguments ConfigError * gmap text TurnCredentials :=
  if blank_text (j_peer cfg) || blank_text (j_password cfg) then (Err PeerAndPassword, seeds) else
  let mode := hash_mode_of cfg in
  let js := bytes_eqb mode (ascii "auto_js") in
  if js && blank_text (j_vk_js_token cfg) then (Err TokenRequired, seeds) else
  if negb js && blank_text (j_hashes cfg) then (Err HashesRequired, seeds) else
  (Ok (mkArguments [] [] (ascii "127.0.0.1:0") (j_hashes cfg) mode (j_vk_js_token cfg) (j_peer cfg)
        (if j_workers cfg =? 0 then 18 else j_workers cfg) (js || j_allow_hash_redistribution cfg)
        (or_default (j_device_id cfg) "antinet") (j_password cfg) (or_default (j_vk_auth_mode cfg) "vkcalls")
        (or_default (j_captcha_mode cfg) "auto") (or_default (j_fingerprint cfg) "firefox") (ascii "8202606,6287487")
        (or_default (j_obfs cfg) "video") (or_default (j_turn_transport cfg) "udp") (j_generation cfg) (j_salt cfg) []
        (j_packet_bridge cfg) false (j_http_proxy cfg) (default DEFAULT_KEEP (j_idle_workers cfg))
        (default (DEFAULT_AFTER / secs 1) (j_idle_after_secs cfg)) (j_fec_duplicate cfg)),
   install_seeds seeds (j_turn_seed cfg)).

(** The checks at the head of [run]. *)
Inductive StartError : Type := AuthNeedsHashMode | NeedsPeerAndHashes | NeedsPassword.

Definition startup_check (a : Arguments) : result unit StartError :=
  let js_hash_mode := bytes_eqb (a_vk_hash_mode a) (ascii "auto_js") in
  let js_auth_mode := bytes_eqb (a_vk_auth_mode a) (ascii "auto_js") in
  if js_auth_mode && negb js_hash_mode then Err AuthNeedsHashMode else
  if (zlen (a_peer a) =? 0) || (negb js_hash_mode && (zlen (a_vk a) =? 0)) then Err NeedsPeerAndHashes else
  if zlen (a_password a) =? 0 then Err NeedsPassword else Ok tt.

Lemma blank_text_empty s : blank_text s = false -> (zlen s =? 0) = false.
Proof. unfold blank_text. rewrite !Z.eqb_neq. intros Hs ->%zlen_zero. by apply Hs. Qed.

(** A configuration is taken exactly if it has a peer, a password, and a token
    or hashes for its mode. What is taken also passes the checks of [run], except
    for one combination of modes that only [run] refuses, on a thread that the
    host does not hear of. *)
Lemma config_checked cfg seeds :
  match arguments_from_json cfg seeds with
  | (Ok a, _) =>
      blank_text (a_peer a) = false /\ blank_text (a_password a) = false /\ a_workers a <> 0
      /\ (if bytes_eqb (a_vk_hash_mode a) (ascii "auto_js")
          then blank_text (a_vk_js_token a) = false /\ a_allow_hash_redistribution a = true
          else blank_text (a_vk a) = false)
      /\ (startup_check a = Ok tt
          \/ (startup_check a = Err AuthNeedsHashMode /\ a_vk_auth_mode a = ascii "auto_js" /\ a_vk_hash_mode a <> ascii "auto_js"))
  | (Err _, seeds') => seeds' = seeds
      /\ (blank_text (j_peer cfg) = true \/ blank_text (j_password cfg) = true
          \/ (hash_mode_of cfg = ascii "auto_js" /\ blank_text (j_vk_js_token cfg) = true)
          \/ (hash_mode_of cfg <> ascii "auto_js" /\ blank_text (j_hashes cfg) = true))
  end.
Proof.
  unfold arguments_from_json. destruct (blank_text (j_peer cfg)) eqn:Ep; cbn [orb]; [by auto|].
  destruct (blank_text (j_password cfg)) eqn:Ew; [by auto|].
  destruct (bytes_eqb (hash_mode_of cfg) (ascii "auto_js")) eqn:Em; cbn [andb negb].
  - destruct (blank_text (j_vk_js_token cfg)) eqn:Et.
    { apply bytes_eqb_eq in Em. split; [done|]. right; right; left. by split. }
    cbn [a_peer a_password a_workers a_vk_hash_mode a_vk_js_token a_allow_hash_redistribution a_vk a_vk_auth_mode]. rewrite Em.
    split_and!; try done; [by destruct (Z.eqb_spec (j_workers cfg) 0)|]. left. unfold startup_check.
    cbn [a_peer a_password a_vk_hash_mode a_vk a_vk_auth_mode]. rewrite Em, andb_false_r. cbn [negb andb].
    by rewrite (blank_text_empty _ Ep), (blank_text_empty _ Ew).
  - destruct (blank_text (j_hashes cfg)) eqn:Eh.
    { split; [done|]. right; right; right. split; [|done]. intros Hm. by apply bytes_eqb_neq in Em. }
    cbn [a_peer a_password a_workers a_vk_hash_mode a_vk_js_token a_allow_hash_redistribution a_vk a_vk_auth_mode]. rewrite Em.
    split_and!; try done; [by destruct (Z.eqb_spec (j_workers cfg) 0)|]. unfold startup_check.
    cbn [a_peer a_password a_vk_hash_mode a_vk a_vk_auth_mode]. rewrite Em. cbn [negb andb].
    destruct (bytes_eqb (or_default _ _) _) eqn:Ea; cbn [andb].
    + right. split; [done|]. split; [by apply bytes_eqb_eq|]. intros Hm. by apply bytes_eqb_neq in Em.
    + left. by rewrite (blank_text_empty _ Ep), (blank_text_empty _ Ew), (blank_text_empty _ Eh).
Qed.

(** ** Strings for the host *)

(** [write_cstr]: what the buffer gets, with its terminating zero. *)
Definition write_cstr (src : bytes) (n : Z) : option bytes :=
  if n <=? 0 then None else
  if bool_decide (0 ∈ src) then None else
  if n <? zlen src + 1 then None else Some (src ++ [0]).

(** [csqtt_engine_inject_batch]: the packets of the host that are not null and
    have a length. *)
Definition batch_packets (ptrs : list (option bytes)) (lens : list Z) : list bytes :=
  omap (fun x => match x with (Some p, n) => if n <=? 0 then None else Some (take (Z.to_nat n) p) | (None, _) => None end) (zip ptrs lens).

(** ** The engines of a process *)

(** The statics that the calls of the host go through. *)
Record Slots : Type := mkSlots {
  cancel_slot : option nat; pause_slot : option nat; bridge_slot : option nat;
  packet_port : Z; tun_ip : text; tun_dns : text;
}.

Definition set_cancel (x : option nat) (s : Slots) : Slots :=
  mkSlots x (pause_slot s) (bridge_slot s) (packet_port s) (tun_ip s) (tun_dns s).
Definition set_pause (x : option nat) (s : Slots) : Slots :=
  mkSlots (cancel_slot s) x (bridge_slot s) (packet_port s) (tun_ip s) (tun_dns s).
Definition set_bridge (x : option nat) (s : Slots) : Slots :=
  mkSlots (cancel_slot s) (pause_slot s) x (packet_port s) (tun_ip s) (tun_dns s).
Definition set_port (x : Z) (s : Slots) : Slots :=
  mkSlots (cancel_slot s) (pause_slot s) (bridge_slot s) x (tun_ip s) (tun_dns s).
Definition set_ip (x : text) (s : Slots) : Slots :=
  mkSlots (cancel_slot s) (pause_slot s) (bridge_slot s) (packet_port s) x (tun_dns s).
Definition set_dns (x : text) (s : Slots) : Slots :=
  mkSlots (cancel_slot s) (pause_slot s) (bridge_slot s) (packet_port s) (tun_ip s) x.

(** How far [run] is. [Spawned]: before the token is published; [Cancellable]: the
    token is; [Pausable]: the gate is; [Cleared]: the bridge of before is gone;
    [Dispatching]: the dispatcher started, on this port; [Serving]: the loop over
    the groups; [Stopping]: behind it; [Dropped]: the gate is taken back. A panic
    of [run] leaves it where it is, marked as crashed, until its runtime ends. *)
Inductive Phase : Type :=
  | Spawned | Cancellable | Pausable | Cleared | Dispatching (port : Z) | Serving | Stopping | Dropped | Over.

Record EngineRun : Type := mkEngineRun {
  e_phase : Phase; e_cancelled : bool; e_paused : bool; e_bridge : bool; e_writer : bool;
  e_served : bool; e_dns_due : option text; e_crashed : bool;
}.

Definition spawned (bridge : bool) : EngineRun := mkEngineRun Spawned false false bridge false false None false.
Definition at_phase (p : Phase) (e : EngineRun) : EngineRun :=
  mkEngineRun p (e_cancelled e) (e_paused e) (e_bridge e) (e_writer e) (e_served e) (e_dns_due e) (e_crashed e).
Definition cancel_run (e : EngineRun) : EngineRun :=
  mkEngineRun (e_phase e) true (e_paused e) (e_bridge e) (e_writer e) (e_served e) (e_dns_due e) (e_crashed e).
Definition pause_run (paused : bool) (e : EngineRun) : EngineRun :=
  mkEngineRun (e_phase e) (e_cancelled e) paused (e_bridge e) (e_writer e) (e_served e) (e_dns_due e) (e_crashed e).
Definition with_writer (alive : bool) (e : EngineRun) : EngineRun :=
  mkEngineRun (e_phase e) (e_cancelled e) (e_paused e) (e_bridge e) alive (e_served e) (e_dns_due e) (e_crashed e).
Definition serve_run (e : EngineRun) : EngineRun :=
  mkEngineRun Serving (e_cancelled e) (e_paused e) (e_bridge e) (e_writer e) true (e_dns_due e) (e_crashed e).
Definition dns_due (d : option text) (e : EngineRun) : EngineRun :=
  mkEngineRun (e_phase e) (e_cancelled e) (e_paused e) (e_bridge e) (e_writer e) (e_served e) d (e_crashed e).
Definition crash_run (e : EngineRun) : EngineRun :=
  mkEngineRun (e_phase e) (e_cancelled e) (e_paused e) (e_bridge e) (e_writer e) (e_served e) (e_dns_due e) true.

(** What the threads of an engine do next. [Advances p]: [run] goes on, [p] being
    the port of a dispatcher that listens; [Breaks]: it returns an error, at the
    checks, the lookups and the dispatcher; [Cancels]: the token is cancelled from
    inside; the bridge writer ends, or panics; a configuration is published. [run]
    panics, which its thread only writes down, and then drops the runtime with the
    tasks that are left. *)
Inductive Move : Type :=
  | Advances (port : Z) | Breaks | Cancels | WriterEnds | WriterPanics | PublishesIp (ip dns : text) | PublishesDns
  | Panics | RuntimeEnds.

(** The steps of [run] itself. *)
Definition of_run (m : Move) : bool := match m with Advances _ | Breaks | Panics => true | _ => false end.

Definition is_over (p : Phase) : bool := match p with Over => true | _ => false end.
Definition published (p : Phase) : bool := match p with Spawned | Over => false | _ => true end.
Definition configurable (p : Phase) : bool := match p with Serving | Stopping | Dropped => true | _ => false end.

Definition run_move (i : nat) (m : Move) (e : EngineRun) (s : Slots) : option (EngineRun * Slots) :=
  if of_run m && e_crashed e then None else
  match m, e_phase e with
  | Advances _, Spawned => Some (at_phase Cancellable e, set_cancel (Some i) s)
  | Advances _, Cancellable => Some (at_phase Pausable e, set_pause (Some i) s)
  | Advances _, Pausable => Some (at_phase Cleared e, set_bridge None s)
  | Advances port, Cleared =>
      if e_bridge e then Some (with_writer true (at_phase (Dispatching 0) e), set_bridge (Some i) s)
      else Some (at_phase (Dispatching port) e, s)
  | Advances _, Dispatching port => Some (serve_run e, set_port port s)
  | Advances _, Serving => Some (cancel_run (at_phase Stopping e), s)
  | Advances _, Stopping => Some (at_phase Dropped e, set_pause None s)
  | Advances _, Dropped => if e_writer e then None else Some (at_phase Over e, s)
  | Breaks, (Spawned | Cleared) => Some (at_phase Over e, s)
  | Cancels, p => if published p then Some (cancel_run e, s) else None
  | WriterEnds, _ => if e_writer e && e_cancelled e then Some (with_writer false e, set_bridge None s) else None
  | WriterPanics, _ => if e_writer e then Some (cancel_run (with_writer false e), s) else None
  | PublishesIp ip dns, p =>
      if configurable p && bool_decide (e_dns_due e = None) then Some (dns_due (Some dns) e, set_ip ip s) else None
  | PublishesDns, p =>
      match e_dns_due e with
      | Some dns => if configurable p then Some (dns_due None e, set_dns dns s) else None
      | None => None
      end
  | Panics, p => if is_over p then None else Some (crash_run e, s)
  | RuntimeEnds, p => if e_crashed e && negb (is_over p) then Some (with_writer false (at_phase Over e), s) else None
  | _, _ => None
  end.

Record Process : Type := mkProcess { slots : Slots; engines : list EngineRun }.

Definition start_process : Process := mkProcess (mkSlots None None None 0 [] []) [].

(** [csqtt_engine_start], for a configuration that is taken. *)
Definition engine_start (a : Arguments) (w : Process) : Process :=
  mkProcess (set_dns [] (set_ip [] (set_bridge None (set_port 0 (slots w))))) (engines w ++ [spawned (a_packet_bridge a)]).

(** [csqtt_engine_stop]. *)
Definition engine_stop (w : Process) : Process :=
  let s := set_pause None (slots w) in
  mkProcess (set_bridge None s)
    (match cancel_slot s with Some i => alter cancel_run i (engines w) | None => engines w end).

Definition engine_set_paused (paused : bool) (w : Process) : Process :=
  mkProcess (slots w) (match pause_slot (slots w) with Some i => alter (pause_run paused) i (engines w) | None => engines w end).

Definition engine_move (i : nat) (m : Move) (w : Process) : option Process :=
  match engines w !! i with
  | Some e => match run_move i m e (slots w) with Some (e', s') => Some (mkProcess s' (<[i := e']> (engines w))) | None => None end
  | None => None
  end.

(** [csqtt_engine_wait_ready], at one of its looks. *)
Definition looks_ready (w : Process) : bool :=
  negb (zlen (tun_ip (slots w)) =? 0) && (negb (packet_port (slots w) =? 0) || bool_decide (is_Some (bridge_slot (slots w)))).

(** The engine that a packet of the host reaches. *)
Definition injects_into (w : Process) : option nat :=
  match bridge_slot (slots w) with
  | Some i => match engines w !! i with Some e => if e_cancelled e then None else Some i | None => None end
  | None => None
  end.

Inductive Event : Type := Starts (a : Arguments) | Stops | SetsPaused (paused : bool) | Moves (i : nat) (m : Move).

Definition process_step (e : Event) (w : Process) : option Process :=
  match e with
  | Starts a => Some (engine_start a w)
  | Stops => Some (engine_stop w)
  | SetsPaused paused => Some (engine_set_paused paused w)
  | Moves i m => engine_move i m w
  end.

Fixpoint run_process (l : list Event) (w : Process) : option Process :=
  match l with
  | [] => Some w
  | e :: l => match process_step e w with Some w => run_process l w | None => None end
  end.

(** ** A host that waits for the engine before to be over *)

Definition all_over (w : Process) : bool := forallb (fun e => is_over (e_phase e)) (engines w).

(** Whether every start of a run finds no engine left. *)
Fixpoint orderly (l : list Event) (w : Process) : bool :=
  match l with
  | [] => true
  | e :: l =>
      (match e with Starts _ => all_over w | _ => true end)
      && match process_step e w with Some w => orderly l w | None => true end
  end.

Definition gated (p : Phase) : bool := match p with Spawned | Cancellable | Dropped | Over => false | _ => true end.
Definition dispatching (p : Phase) : bool := match p with Dispatching _ | Serving | Stopping | Dropped => true | _ => false end.
Definition ending (p : Phase) : bool := match p with Stopping | Dropped => true | _ => false end.

(** The slots belong to the engine [n]. *)
Record owns (n : nat) (e : EngineRun) (s : Slots) : Prop := {
  o_cancel : published (e_phase e) = true -> cancel_slot s = Some n;
  o_pause : gated (e_phase e) = true -> e_cancelled e = false -> pause_slot s = Some n;
  o_bridge : e_bridge e = true -> dispatching (e_phase e) = true -> e_cancelled e = false -> bridge_slot s = Some n;
  o_held : forall i, bridge_slot s = Some i -> i = n /\ e_bridge e = true /\ (e_cancelled e = false -> e_writer e = true \/ e_crashed e = true);
  o_writer : e_writer e = true -> e_bridge e = true /\ dispatching (e_phase e) = true;
  o_live : e_bridge e = true -> dispatching (e_phase e) = true -> e_cancelled e = false -> e_writer e = true;
  o_fresh : e_served e = false -> packet_port s = 0 /\ tun_ip s = [] /\ tun_dns s = [];
  o_served : configurable (e_phase e) = true -> e_served e = true;
  o_ending : ending (e_phase e) = true -> e_cancelled e = true;
}.

Lemma spawned_owns n b s : owns n (spawned b) (set_dns [] (set_ip [] (set_bridge None (set_port 0 s)))).
Proof. by split. Qed.

(** Uses the fields of [owns] that apply. *)
Ltac owns_now :=
  repeat match goal with
  | H : true = true -> _ |- _ => specialize (H eq_refl)
  | H : false = false -> _ |- _ => specialize (H eq_refl)
  | H : true = false -> _ |- _ => clear H
  | H : false = true -> _ |- _ => clear H
  | H : _ /\ _ |- _ => destruct H
  | H : forall i, ?s = Some i -> _, E : ?s = Some _ |- _ => apply H in E
  | H : forall i, Some _ = Some i -> _ |- _ => specialize (H _ eq_refl)
  end; simplify_eq; auto; try congruence.

(** What an engine does keeps the slots its own. *)
Lemma run_move_owns n m e s e' s' : owns n e s -> run_move n m e s = Some (e', s') -> owns n e' s'.
Proof.
  destruct e as [p c pa b wr sv d cr]. intros H E. unfold run_move in E. destruct m, p; cbn in E; try (by destruct cr);
    repeat case_match; simplify_eq; destruct H; cbn in *; split; cbn; auto; try congruence; intros; owns_now; destruct_and?; simplify_eq;
    repeat split; auto; rewrite ?andb_true_iff in *; destruct_and?; simplify_eq; intros; owns_now.
Qed.

Lemma stop_owns n e s : owns n e s ->
  owns n (if bool_decide (cancel_slot s = Some n) then cancel_run e else e) (set_bridge None (set_pause None s)).
Proof.
  intros H. case_bool_decide as Ec; [destruct H; destruct e; split; cbn in *; auto; done|].
  assert (Hs : published (e_phase e) = false).
  { destruct (published (e_phase e)) eqn:Ep; [|done]. by destruct Ec; apply (o_cancel _ _ _ H). }
  destruct e as [p c pa b wr sv d cr]; cbn in Hs. destruct p; try done; destruct H; split; cbn in *; auto; done.
Qed.

Lemma pause_owns n e s b : owns n e s -> owns n (pause_run b e) s.
Proof. intros []; by split. Qed.

Definition ended (e : EngineRun) : Prop := e_phase e = Over /\ e_writer e = false.

(** Engines of before are over, and the slots belong to the last one. *)
Definition settled (w : Process) : Prop :=
  w = start_process
  \/ exists past e, engines w = past ++ [e] /\ Forall ended past /\ owns (length past) e (slots w).

Lemma alter_engines f past (e : EngineRun) i : (forall e, ended e -> ended (f e)) -> Forall ended past ->
  exists past', alter f i (past ++ [e]) = past' ++ [if bool_decide (i = length past) then f e else e]
    /\ length past' = length past /\ Forall ended past'.
Proof.
  intros Hf Hp. destruct (decide (i < length past)%nat) as [Hi|Hi].
  - exists (alter f i past). rewrite alter_app_l, length_alter, bool_decide_eq_false_2 by lia. split_and!; try done.
    apply Forall_alter; [done|]. intros x _. apply Hf.
  - exists past. rewrite alter_app_r_alt by lia. split; [|done]. f_equal.
    case_bool_decide as E; [by rewrite E, Nat.sub_diag|]. by destruct (i - length past)%nat eqn:Ei; [lia|].
Qed.

Lemma ended_stays i m e s : ended e -> run_move i m e s = None.
Proof. intros [Hp Hw]. unfold run_move. rewrite Hp, Hw. destruct m, (e_crashed e); try done; by destruct (e_dns_due e). Qed.

Lemma owned_over n e s : owns n e s -> e_phase e = Over -> ended e.
Proof. intros H Hp. split; [done|]. destruct (e_writer e) eqn:Ew; [|done]. by destruct (o_writer _ _ _ H Ew) as [_ Hd]; rewrite Hp in Hd. Qed.

Lemma all_over_spec w : all_over w = true -> Forall (fun e => e_phase e = Over) (engines w).
Proof. unfold all_over. rewrite forallb_forall, Forall_forall. intros H e He%list_elem_of_In%H. by destruct (e_phase e). Qed.

Lemma step_settled e w w' : settled w -> match e with Starts _ => all_over w | _ => true end = true ->
  process_step e w = Some w' -> settled w'.
Proof.
  intros Hw Ho E. destruct Hw as [->|(past & x & He & Hp & H)].
  - destruct e; cbn in E; simplify_eq; [|by left..]. right. exists [], (spawned (a_packet_bridge a)). split; [done|]. split; [by constructor|]. apply spawned_owns.
  - right. destruct e as [a| |b|i m]; cbn in E; simplify_eq.
    + exists (engines w), (spawned (a_packet_bridge a)). split; [done|]. split; [|apply spawned_owns].
      apply all_over_spec in Ho. rewrite He, Forall_app, Forall_singleton in Ho |- *. destruct Ho as [_ Ho]. split; [exact Hp|]. exact (owned_over _ _ _ H Ho).
    + unfold engine_stop. cbn. destruct (cancel_slot (slots w)) as [i|] eqn:Ec.
      * destruct (alter_engines cancel_run past x i) as (past' & E1 & E2 & E3); [by intros ? []|done|].
        rewrite He, E1. eexists _, _. split_and!; [done..|]. rewrite E2. apply stop_owns in H. rewrite Ec in H.
        by rewrite (bool_decide_ext (i = length past) (Some i = Some (length past))) by naive_solver.
      * exists past, x. split_and!; [done..|]. apply stop_owns in H. by rewrite Ec, bool_decide_eq_false_2 in H.
    + unfold engine_set_paused. cbn. destruct (pause_slot (slots w)) as [i|]; [|by exists past, x].
      destruct (alter_engines (pause_run b) past x i) as (past' & E1 & E2 & E3); [by intros ? []|done|].
      rewrite He, E1. eexists _, _. split_and!; [done..|]. rewrite E2. case_bool_decide; [by apply pause_owns|done].
    + unfold engine_move in E. rewrite He in E. destruct (decide (i < length past)%nat) as [Hi|Hi].
      * destruct (lookup_lt_is_Some_2 _ _ Hi) as [y Hy]. rewrite lookup_app_l, Hy in E by done.
        by rewrite ended_stays in E by by eapply Forall_lookup_1.
      * rewrite lookup_app_r in E by lia. destruct (i - length past)%nat eqn:Ei; cbn in E; [|done].
        assert (i = length past) as -> by lia. destruct (run_move _ _ _ _) as [[x' s']|] eqn:Em; simplify_eq.
        exists past, x'. rewrite insert_app_r_alt, Nat.sub_diag by lia. split_and!; [done..|]. by eapply run_move_owns.
Qed.

Lemma run_settled l w w' : settled w -> orderly l w = true -> run_process l w = Some w' -> settled w'.
Proof.
  revert w. induction l as [|e l IH]; intros w Hw Ho E; cbn in *; [by simplify_eq|].
  apply andb_true_iff in Ho as [Ho1 Ho2]. destruct (process_step e w) as [w1|] eqn:E1; [|done].
  by eapply IH; [eapply step_settled| |].
Qed.

Definition live (w : Process) (i : nat) (e : EngineRun) : Prop := engines w !! i = Some e /\ e_phase e <> Over.

Lemma settled_last w i e : settled w -> live w i e -> S i = length (engines w) /\ owns i e (slots w).
Proof.
  intros [->|(past & x & He & Hp & H)] [Hi Hl]; [done|]. rewrite He in Hi |- *. rewrite length_app. cbn.
  apply lookup_snoc_Some in Hi as [[Hi Hx]|[-> ->]]; [|by split; [lia|]].
  by destruct (Forall_lookup_1 _ _ _ _ Hp Hx) as [? _].
Qed.

(** The moves that wind an engine down from where it is. *)
Definition winding_down (e : EngineRun) : list Move :=
  if e_crashed e then [RuntimeEnds] else
  (if e_writer e then [WriterEnds] else [])
  ++ match e_phase e with
     | Spawned => [Breaks]
     | Cancellable => [Advances 0; Advances 0; Breaks]
     | Pausable => [Advances 0; Breaks]
     | Cleared => [Breaks]
     | Dispatching _ => [Advances 0; Advances 0; Advances 0; Advances 0]
     | Serving => [Advances 0; Advances 0; Advances 0]
     | Stopping => [Advances 0; Advances 0]
     | Dropped => [Advances 0]
     | Over => []
     end.

Lemma move_at w i m e e' s' : engines w !! i = Some e -> run_move i m e (slots w) = Some (e', s') ->
  process_step (Moves i m) w = Some (mkProcess s' (<[i := e']> (engines w))).
Proof. intros Hi Hm. cbn. unfold engine_move. by rewrite Hi, Hm. Qed.

Fixpoint run_moves (i : nat) (l : list Move) (e : EngineRun) (s : Slots) : option (EngineRun * Slots) :=
  match l with
  | [] => Some (e, s)
  | m :: l => match run_move i m e s with Some (e, s) => run_moves i l e s | None => None end
  end.

Lemma moves_run i l w e e' s' : engines w !! i = Some e -> run_moves i l e (slots w) = Some (e', s') ->
  exists w', run_process (Moves i <$> l) w = Some w' /\ engines w' !! i = Some e'.
Proof.
  revert w e. induction l as [|m l IH]; intros w e Hi E; cbn [run_moves] in E; [exists w; by simplify_eq|].
  destruct (run_move i m e (slots w)) as [[e1 s1]|] eqn:Em; [|done]. pose proof (lookup_lt_Some _ _ _ Hi).
  cbn [fmap list_fmap run_process]. rewrite (move_at _ _ _ _ _ _ Hi Em).
  apply (IH (mkProcess s1 (<[i := e1]> (engines w))) e1); [|done]. cbn [engines]. by rewrite list_lookup_insert_eq.
Qed.

Lemma winds_down w i e : live w i e -> owns i e (slots w) -> e_cancelled e = true \/ e_crashed e = true ->
  exists w' e', run_process (Moves i <$> winding_down e) w = Some w' /\ engines w' !! i = Some e' /\ e_phase e' = Over.
Proof.
  intros [Hi Hl] Ho Hc. pose proof (moves_run i (winding_down e) w e) as Hm.
  pose proof (o_writer _ _ _ Ho) as Hw. destruct e as [p c pa b wr sv d []]; cbn in Hc, Hl, Hw.
  { destruct p; try done; destruct (Hm _ _ Hi eq_refl) as (w' & E & E'); (exists w'; eexists; split; [exact E|split; [exact E'|reflexivity]]). }
  destruct Hc as [->|]; [|done]. destruct p, wr, b; try done; try (by destruct (Hw eq_refl)); destruct (Hm _ _ Hi eq_refl) as (w' & E & E');
    (exists w'; eexists; split; [exact E|split; [exact E'|reflexivity]]).
Qed.

(** What [csqtt_engine_stop] does to an engine. *)
Lemma stop_cancels w i e : engines w !! i = Some e -> cancel_slot (slots w) = Some i ->
  engines (engine_stop w) !! i = Some (cancel_run e) /\ injects_into (engine_stop w) = None.
Proof.
  intros Hi Hc. unfold injects_into, engine_stop. cbn. rewrite Hc. split; [|done]. by rewrite list_lookup_alter_eq, Hi.
Qed.

Lemma settled_injects w i : settled w -> injects_into w = Some i ->
  exists e, engines w !! i = Some e /\ e_cancelled e = false /\ (e_phase e <> Over \/ e_crashed e = true).
Proof.
  intros [->|(past & x & He & Hp & H)] E; [done|]. unfold injects_into in E.
  destruct (bridge_slot (slots w)) as [j|] eqn:Eb; [|done]. destruct (o_held _ _ _ H j Eb) as (-> & Hb & Hw).
  destruct (engines w !! length past) as [e|] eqn:Ei; [|done]. destruct (e_cancelled e) eqn:Ec; simplify_eq.
  exists e. split; [done|]. split; [done|]. rewrite He, lookup_app_r, Nat.sub_diag in Ei by done. cbn in Ei. simplify_eq.
  destruct (Hw Ec) as [Hwr|Hcr]; [left|by right]. destruct (o_writer _ _ _ H Hwr) as [_ Hd]. intros Hp'. by rewrite Hp' in Hd.
Qed.

Lemma settled_ready w : settled w -> looks_ready w = true -> exists e, last (engines w) = Some e /\ e_served e = true.
Proof.
  intros [->|(past & x & He & Hp & H)] E; [done|]. exists x. rewrite He, last_snoc. split; [done|].
  destruct (e_served x) eqn:Es; [done|]. destruct (o_fresh _ _ _ H Es) as (_ & Hi & _). unfold looks_ready in E. by rewrite Hi in E.
Qed.

(** C30: over any run of the calls of a host and the steps of the engines in which
    every start finds the engines before over, at most one engine lives and the
    process-wide slots are its own: while it serves, the host's stop, pause and
    packets reach it and nothing else. A packet never reaches an engine that was
    cancelled, nor one that is over, except one whose [run] panicked, which leaves
    its bridge behind ([crash_keeps_bridge]). The host sees the engine as ready only
    when the last start has led to a configuration. A stop behind the publication of
    the token cancels the engine and closes its bridge (one before it is lost,
    [early_stop_lost]), and an engine that is cancelled or has crashed can go on to
    its end from wherever it is. *)
Theorem orderly_host l w :
  orderly l start_process = true -> run_process l start_process = Some w ->
  (forall i j e e', live w i e -> live w j e' -> i = j)
  /\ (forall i e, live w i e -> e_phase e = Serving -> e_cancelled e = false ->
        cancel_slot (slots w) = Some i /\ pause_slot (slots w) = Some i /\ (e_bridge e = true -> injects_into w = Some i))
  /\ (forall i, injects_into w = Some i ->
        exists e, engines w !! i = Some e /\ e_cancelled e = false /\ (e_phase e <> Over \/ e_crashed e = true))
  /\ (looks_ready w = true -> exists e, last (engines w) = Some e /\ e_served e = true)
  /\ (forall i e, live w i e -> published (e_phase e) = true ->
        engines (engine_stop w) !! i = Some (cancel_run e) /\ injects_into (engine_stop w) = None)
  /\ (forall i e, live w i e -> e_cancelled e = true \/ e_crashed e = true ->
        exists w' e', run_process (Moves i <$> winding_down e) w = Some w' /\ engines w' !! i = Some e' /\ e_phase e' = Over).
Proof.
  intros Ho E. pose proof (run_settled _ _ _ (or_introl eq_refl) Ho E) as Hw. split_and!.
  - intros i j e e' Hi Hj. apply (settled_last _ _ _ Hw) in Hi as [Hi _], Hj as [Hj _]. lia.
  - intros i e Hi Hp Hc. destruct (settled_last _ _ _ Hw Hi) as [_ H]. destruct Hi as [Hi _].
    split; [apply (o_cancel _ _ _ H); by rewrite Hp|]. split; [apply (o_pause _ _ _ H); by rewrite ?Hp|].
    intros Hb. unfold injects_into. rewrite (o_bridge _ _ _ H Hb), Hi, Hc; [done|by rewrite Hp|done].
  - intros i. by apply settled_injects.
  - by apply settled_ready.
  - intros i e Hi Hp. destruct (settled_last _ _ _ Hw Hi) as [_ H]. apply stop_cancels; [apply Hi|by apply (o_cancel _ _ _ H)].
  - intros i e Hi Hc. destruct (settled_last _ _ _ Hw Hi) as [_ H]. by apply winds_down.
Qed.

(** What the host gets is the string as C reads it, or nothing. *)
Lemma write_cstr_exact src n out : write_cstr src n = Some out <-> out = src ++ [0] /\ 0 ∉ src /\ zlen out <= n.
Proof.
  unfold write_cstr. destruct (Z.leb_spec n 0); [split; [done|intros (-> & _ & Hn); rewrite zlen_app in Hn; pose proof (zlen_nonneg src); change (zlen [0]) with 1 in Hn; lia]|].
  case_bool_decide; [naive_solver|]. destruct (Z.ltb_spec n (zlen src + 1)); split; intros E; simplify_eq; destruct_and?; subst;
    rewrite ?zlen_app in *; change (zlen [0]) with 1 in *; try lia; auto.
Qed.

(** A burst of well-formed packets is taken as it is. *)
Lemma batch_packets_whole l : Forall (fun p => p <> []) l -> batch_packets (Some <$> l) (zlen <$> l) = l.
Proof.
  induction 1 as [|p l Hp _ IH]; [done|]. unfold batch_packets in *. cbn.
  assert (0 < zlen p) by (destruct p; [done|rewrite zlen_cons; pose proof (zlen_nonneg p); lia]).
  destruct (Z.leb_spec (zlen p) 0); [lia|]. rewrite IH. f_equal. by rewrite take_ge by (unfold zlen; lia).
Qed.

(** ** A run, and what a host meets that does not wait *)

Definition example_json : EngineJson :=
  mkEngineJson (ascii "1.2.3.4:9000") (ascii "secret") (ascii "abc") [] [] 0 [] [] [] [] [] [] false 1 [] [] true None None false [].

Definition example_arguments : option Arguments :=
  match arguments_from_json example_json ∅ with (Ok a, _) => Some a | _ => None end.

Definition example_start : list Event := match example_arguments with Some a => [Starts a] | None => [] end.
Definition advances (i n : nat) : list Event := replicate n (Moves i (Advances 0)).
Definition serving (i : nat) : list Event := advances i 5 ++ [Moves i (PublishesIp [49] [50]); Moves i PublishesDns].

Lemma orderly_host_witness :
  exists w e, run_process (example_start ++ serving 0) start_process = Some w /\ live w 0 e /\ e_phase e = Serving
    /\ injects_into w = Some 0%nat /\ pause_slot (slots w) = Some 0%nat
    /\ engines (engine_stop w) !! 0%nat = Some (cancel_run e).
Proof.
  destruct (run_process (example_start ++ serving 0) start_process) as [w|] eqn:E; [|by vm_compute in E].
  destruct (orderly_host (example_start ++ serving 0) w) as (_ & Hs & _ & _ & Hc & _); [by vm_compute|done|].
  assert (He : exists e, live w 0 e /\ e_phase e = Serving /\ e_cancelled e = false /\ e_bridge e = true)
    by (vm_compute in E; injection E as <-; eexists; split; [split; [reflexivity|discriminate]|done]).
  destruct He as (e & Hl & Hp & Hc' & Hb). destruct (Hs 0%nat e Hl Hp Hc') as (_ & H2 & H3).
  exists w, e. split; [done|]. split; [done|]. split; [done|]. split; [by apply H3|]. split; [done|].
  apply (Hc 0%nat e Hl). by rewrite Hp.
Defined.

(** A stop before the token of a start is published is lost: the engine goes on
    to serve. *)
Lemma early_stop_lost :
  option_map (fun w => (e_phase <$> engines w, e_cancelled <$> engines w)) (run_process (example_start ++ [Stops] ++ serving 0) start_process)
  = Some ([Serving], [false]).
Proof. by vm_compute. Qed.

(** When [run] panics while it serves, nobody cancels its token: once its runtime is
    gone the bridge and the gate still lead to it, and the host still sees an engine
    that is ready. *)
Lemma crash_keeps_bridge :
  option_map (fun w => (e_phase <$> engines w, injects_into w, pause_slot (slots w), looks_ready w))
    (run_process (example_start ++ serving 0 ++ [Moves 0 Panics; Moves 0 RuntimeEnds]) start_process)
  = Some ([Over], Some 0%nat, Some 0%nat, true).
Proof. by vm_compute. Qed.

(** After a restart that does not wait, the end of the engine before takes the
    bridge and the gate of the next one away: it serves, but no packet and no pause
    of the host reaches it. *)
Lemma late_end_takes_slots :
  option_map (fun w => (e_phase <$> engines w, e_cancelled <$> engines w, injects_into w, pause_slot (slots w)))
    (run_process (example_start ++ serving 0 ++ [Stops] ++ example_start ++ serving 1 ++ advances 0 2 ++ [Moves 0 WriterEnds] ++ advances 0 1) start_process)
  = Some ([Over; Serving], [true; false], None, None).
Proof. by vm_compute. Qed.

(** The host can see the engine as ready before the resolver address is there. *)
Lemma ready_without_dns :
  option_map (fun w => (looks_ready w, tun_dns (slots w))) (run_process (example_start ++ advances 0 5 ++ [Moves 0 (PublishesIp [49] [50])]) start_process)
  = Some (true, []).
Proof. by vm_compute. Qed.
