(* ===== verification/Waits.v ===== *)
(** * Waits: tasks that sleep until something they watch lets them go on

    Models the waits on shared state by tokio's [Notify]: the gate that holds a
    worker back while the engine is paused or the worker is parked ([PauseGate]
    of [worker.rs] with [idle.rs]), the wait of a parked or announced path
    ([parked] and [announce_changed] of [idle.rs]), and the two waits of the
    farewell ([stop_disconnect_requested] and [wait_until_completed] of
    [session.rs]). The waiter and the threads that change what it watches take
    their atomic steps in any order. *)

From stdpp Require Import relations functions.
From S2P Require Import Prelude Bytes TurnCore Idle Shutdown.

(** ** The idiom *)

(** What a thread does next: nothing more, an access to the shared state, which
    decides how it goes on, or [notify_waiters] on a notifier. *)
Inductive Act (X S : Type) : Type :=
| Ends
| Accesses (f : X -> X * S)
| Notifies (c : nat) (k : S).
Arguments Ends {X S}.
Arguments Accesses {X S} f.
Arguments Notifies {X S} c k.

(** Where a waiter is. A future of a notifier is the number of notifications
    that there were when it was made; it is ready when there are more. *)
Inductive WaiterAt : Type :=
| Registers (todo : list nat) (seen : list (nat * Z))
| Looks (seen : list (nat * Z))
| Sleeps (seen : list (nat * Z))
| Passed
| Left.

(** How the threads of a family go on; the notifiers a waiter makes futures of,
    in order; when it may pass and what it takes then; what ends its sleep, and
    whether that is a time limit, at which it looks once more. *)
Record Wait (X S : Type) : Type := mkWait {
  next : S -> Act X S;
  channels : list nat;
  may_pass : X -> bool;
  takes : X -> X;
  gives_up : X -> bool;
  timed : bool;
}.
Arguments next {X S} _ _.
Arguments channels {X S} _.
Arguments may_pass {X S} _ _.
Arguments takes {X S} _ _.
Arguments gives_up {X S} _ _.
Arguments timed {X S} _.

Record System (X S : Type) : Type := mkSystem {
  value : X;
  notified : nat -> Z;
  threads : list S;
  waiter : WaiterAt;
}.
Arguments mkSystem {X S} _ _ _ _.
Arguments value {X S} _.
Arguments notified {X S} _ _.
Arguments threads {X S} _.
Arguments waiter {X S} _.

Definition woken (n : nat -> Z) (seen : list (nat * Z)) : bool := existsb (fun '(c, k) => k <? n c) seen.

Section Idiom.
Context {X S : Type} (w : Wait X S).

Definition starts_over : WaiterAt := Registers (channels w) [].

(** One step of the waiter; [None] when it is asleep, or not there any more. A
    cancellation comes before a notification that is there too, a time limit
    behind it. *)
Definition waiter_turn (x : X) (n : nat -> Z) (p : WaiterAt) : option (X * WaiterAt) :=
  match p with
  | Registers (c :: todo) seen => Some (x, Registers todo (seen ++ [(c, n c)]))
  | Registers [] seen => Some (x, Looks seen)
  | Looks seen => Some (if may_pass w x then (takes w x, Passed) else (x, Sleeps seen))
  | Sleeps seen =>
      if timed w then
        if woken n seen then Some (x, starts_over)
        else if gives_up w x then Some (if may_pass w x then (takes w x, Passed) else (x, Left)) else None
      else if gives_up w x then Some (x, Left) else if woken n seen then Some (x, starts_over) else None
  | Passed | Left => None
  end.

Inductive wait_step : System X S -> System X S -> Prop :=
| thread_access x n l1 s f l2 p : next w s = Accesses f ->
    wait_step (mkSystem x n (l1 ++ s :: l2) p) (mkSystem (f x).1 n (l1 ++ (f x).2 :: l2) p)
| thread_notify x n l1 s c k l2 p : next w s = Notifies c k ->
    wait_step (mkSystem x n (l1 ++ s :: l2) p) (mkSystem x (<[c := n c + 1]> n) (l1 ++ k :: l2) p)
| waiter_step x n l p x' p' : waiter_turn x n p = Some (x', p') ->
    wait_step (mkSystem x n l p) (mkSystem x' n l p').

Definition wait_start (x : X) (l : list S) : System X S := mkSystem x (fun _ => 0) l starts_over.

(** The waiter alone, at most so many turns. *)
Fixpoint waiter_run (turns : nat) (x : X) (n : nat -> Z) (p : WaiterAt) : X * WaiterAt :=
  match turns with
  | O => (x, p)
  | Datatypes.S turns => match waiter_turn x n p with Some (x, p) => waiter_run turns x n p | None => (x, p) end
  end.

(** What the threads promise to the waiter: a thread that may let it pass by an
    access owes a notification, and pays it before it ends. [fine] is an
    invariant of the threads. *)
Class Disciplined (fine owes : S -> bool) : Prop := {
  fine_access s f x : next w s = Accesses f -> fine s = true -> fine (f x).2 = true;
  fine_notify s c k : next w s = Notifies c k -> fine s = true -> fine k = true;
  owes_ends s : next w s = Ends -> fine s = true -> owes s = false;
  owes_access s f x : next w s = Accesses f -> fine s = true -> owes s = true -> owes (f x).2 = true;
  owes_paid s c k : next w s = Notifies c k -> fine s = true -> owes s = true -> c ∈ channels w \/ owes k = true;
  owes_incurred s f x : next w s = Accesses f -> fine s = true ->
    may_pass w x = false -> may_pass w (f x).1 = true -> owes (f x).2 = true;
}.

Lemma woken_spec n seen : woken n seen = true <-> exists c k, (c, k) ∈ seen /\ k < n c.
Proof.
  unfold woken. rewrite existsb_exists. split.
  - intros [[c k] [Hin%list_elem_of_In Hk%Z.ltb_lt]]. by exists c, k.
  - intros (c & k & Hin%list_elem_of_In & Hk). exists (c, k). split; [done|]. by apply Z.ltb_lt.
Qed.

Definition seen_of (p : WaiterAt) : list (nat * Z) :=
  match p with Registers _ seen | Looks seen | Sleeps seen => seen | _ => [] end.
Definition todo_of (p : WaiterAt) : list nat := match p with Registers todo _ => todo | _ => [] end.
Definition present (p : WaiterAt) : bool := match p with Passed | Left => false | _ => true end.
Definition asleep (p : WaiterAt) : bool := match p with Sleeps _ => true | _ => false end.

Context {fine owes : S -> bool} `{Hd : !Disciplined fine owes}.

(** A waiter that sleeps although it might pass is being woken, or will be. *)
Record awake_or_owed (s : System X S) : Prop := {
  ao_fine : Forall (fun t => fine t = true) (threads s);
  ao_seen : Forall (fun '(c, k) => k <= notified s c) (seen_of (waiter s));
  ao_all : present (waiter s) = true -> map fst (seen_of (waiter s)) ++ todo_of (waiter s) = channels w;
  ao_owed : asleep (waiter s) = true -> may_pass w (value s) = true ->
    woken (notified s) (seen_of (waiter s)) = true \/ Exists (fun t => owes t = true) (threads s);
}.

Lemma replaced (Q : S -> Prop) l1 s l2 s' : Exists Q (l1 ++ s :: l2) -> (Q s -> Q s') -> Exists Q (l1 ++ s' :: l2).
Proof. rewrite !Exists_app, !Exists_cons. tauto. Qed.

Lemma access_kept x n l1 s f l2 p : next w s = Accesses f -> awake_or_owed (mkSystem x n (l1 ++ s :: l2) p) ->
  awake_or_owed (mkSystem (f x).1 n (l1 ++ (f x).2 :: l2) p).
Proof.
  intros E [Hf Hs Ha Ho]. cbn in *. apply Forall_app in Hf as [Hf1 [Hfs Hf2]%Forall_cons].
  split; cbn; [apply Forall_app; split; [done|]; apply Forall_cons; split; [by eapply fine_access|done]|done|done|].
  intros Hp Hm. destruct (may_pass w x) eqn:Em.
  - destruct (Ho Hp eq_refl) as [?|Hex]; [by left|]. right. eapply replaced; [exact Hex|]. by eapply owes_access.
  - right. apply Exists_app. right. apply Exists_cons. left. by eapply owes_incurred.
Qed.

Lemma notify_kept x n l1 s c k l2 p : next w s = Notifies c k -> awake_or_owed (mkSystem x n (l1 ++ s :: l2) p) ->
  awake_or_owed (mkSystem x (<[c := n c + 1]> n) (l1 ++ k :: l2) p).
Proof.
  intros E [Hf Hs Ha Ho]. cbn in *. apply Forall_app in Hf as [Hf1 [Hfs Hf2]%Forall_cons].
  assert (Hle : forall d, n d <= (<[c := n c + 1]> n) d).
  { intros d. destruct (decide (c = d)) as [->|]; [rewrite fn_lookup_insert|rewrite fn_lookup_insert_ne by done]; lia. }
  split; cbn; [apply Forall_app; split; [done|]; apply Forall_cons; split; [by eapply fine_notify|done]| |done|].
  - eapply Forall_impl; [exact Hs|]. intros [d j] Hj. specialize (Hle d). lia.
  - intros Hp Hm. destruct (Ho Hp Hm) as [(d & j & Hin & Hj)%woken_spec|Hex].
    + left. apply woken_spec. exists d, j. split; [done|]. specialize (Hle d). lia.
    + destruct (owes s) eqn:Eo; [|right; eapply replaced; [exact Hex|]; congruence].
      destruct (owes_paid s c k E Hfs Eo) as [Hc|Hk]; [|right; apply Exists_app; right; apply Exists_cons; by left].
      left. destruct p; try done. cbn in *. specialize (Ha eq_refl). rewrite app_nil_r in Ha. rewrite <- Ha in Hc.
      apply list_elem_of_fmap in Hc as ([d j] & -> & Hin). apply woken_spec. exists d, j. split; [done|].
      rewrite Forall_forall in Hs. specialize (Hs _ Hin). cbn in *. rewrite fn_lookup_insert. lia.
Qed.

Lemma waiter_kept x n l p x' p' : waiter_turn x n p = Some (x', p') -> awake_or_owed (mkSystem x n l p) ->
  awake_or_owed (mkSystem x' n l p').
Proof.
  intros E [Hf Hs Ha Ho]. destruct p as [[|c todo] seen|seen|seen| |]; cbn in *; try done.
  - simplify_eq. by split.
  - simplify_eq. split; cbn; try done; [apply Forall_app; split; [done|]; by constructor|].
    intros _. specialize (Ha eq_refl). by rewrite map_app, <- app_assoc.
  - destruct (may_pass w x) eqn:Em; simplify_eq; split; cbn; try done. congruence.
  - repeat case_match; simplify_eq; split; cbn; try done; by constructor.
Qed.

Lemma wait_step_kept s s' : awake_or_owed s -> wait_step s s' -> awake_or_owed s'.
Proof. intros H Hs; destruct Hs; [by eapply access_kept|by eapply notify_kept|by eapply waiter_kept]. Qed.

Lemma waits_kept x l s : Forall (fun t => fine t = true) l -> rtc wait_step (wait_start x l) s -> awake_or_owed s.
Proof.
  intros Hl. apply (rtc_ind_r awake_or_owed); [|intros; by eapply wait_step_kept].
  split; cbn; try done; by constructor.
Qed.

(** A waiter that looks may pass, and passes. *)
Lemma run_passed turns x n p : present p = false -> waiter_run turns x n p = (x, p).
Proof. by destruct turns, p. Qed.

Lemma looks_passes turns x n seen : may_pass w x = true -> waiter_run (Datatypes.S turns) x n (Looks seen) = (takes w x, Passed).
Proof. intros Hm. cbn. rewrite Hm. by apply run_passed. Qed.

Lemma registers_passes todo turns x n seen : may_pass w x = true ->
  waiter_run (length todo + 2 + turns) x n (Registers todo seen) = (takes w x, Passed).
Proof.
  intros Hm. revert seen. induction todo as [|c todo IH]; intros seen; [by apply looks_passes|]. apply IH.
Qed.

(** Once no thread owes a notification, a waiter that may pass does so by its own
    next turns, or has found that it is cancelled. *)
Lemma awake_passes s : awake_or_owed s -> may_pass w (value s) = true -> Forall (fun t => owes t = false) (threads s) ->
  present (waiter s) = true ->
  let r := waiter_run (length (channels w) + 3) (value s) (notified s) (waiter s) in
  r = (takes w (value s), Passed) \/ (timed w = false /\ gives_up w (value s) = true /\ r = (value s, Left)).
Proof.
  intros H Hm Hno Hp. pose proof (ao_all _ H Hp) as Ha. pose proof (ao_owed _ H) as Ho. destruct s as [x n l p]. cbn [value notified threads waiter] in *.
  destruct p as [todo seen|seen|seen| |]; cbn [seen_of todo_of present asleep] in *; try done.
  - left. rewrite <- Ha, length_app, length_map.
    replace (length seen + length todo + 3)%nat with (length todo + 2 + (length seen + 1))%nat by lia. by apply registers_passes.
  - left. replace (length (channels w) + 3)%nat with (Datatypes.S (length (channels w) + 2)) by lia. by apply looks_passes.
  - replace (length (channels w) + 3)%nat with (Datatypes.S (length (channels w) + 2 + 0)) by lia. cbn [waiter_run waiter_turn].
    assert (woken n seen = true) as ->.
    { destruct (Ho eq_refl Hm) as [->|Hex]; [done|]. apply Exists_exists in Hex as (t & Hin & Ht).
      rewrite Forall_forall in Hno. by rewrite (Hno t Hin) in Ht. }
    destruct (timed w); [left; by apply registers_passes|].
    destruct (gives_up w x); [right; split_and!; [done|done|by apply run_passed]|]. left. by apply registers_passes.
Qed.
End Idiom.

(** ** The threads of the idle mode *)

(** An access of [enter], [exit], [note_path_lost] or [reset] to one static. *)
Inductive IdleAccess : Type :=
| ByAccess (a : Access)
| StoreTotal (x : Z)
| StoreActive (b : bool)
| StoreOffset (x : Z)
| StoreAnnounce (x : Z)
| StoreJoined (id x : Z).

Definition idle_access (s : Idle) (a : IdleAccess) : Idle * bool :=
  let mk b t g n := mkIdle (LIMIT s) b t (DECLARED s) g n (PACKET_WINDOW s) (SYN_WINDOW s) (JOINED s) in
  match a with
  | ByAccess a => access s a
  | StoreTotal x => (mk (ACTIVE s) x (GEN_OFFSET s) (ANNOUNCE s), true)
  | StoreActive b => (mk b (TOTAL_WORKERS s) (GEN_OFFSET s) (ANNOUNCE s), true)
  | StoreOffset x => (mk (ACTIVE s) (TOTAL_WORKERS s) x (ANNOUNCE s), true)
  | StoreAnnounce x => (mk (ACTIVE s) (TOTAL_WORKERS s) (GEN_OFFSET s) x, true)
  | StoreJoined id x => (set_joined s id x, true)
  end.

(** A thread in [enter], [exit], [note_path_lost] or [reset]: what it does next,
    or the accesses that are left before it notifies, with the total still to be
    loaded behind them in [exit]; the [Lost] ones are the tests of
    [note_path_lost]. *)
Inductive IdleThread : Type :=
| Enters (keep : Z)
| Runs (l : list IdleAccess) (total_next : bool)
| LostAllows (id : Z)
| LostJoined (id : Z)
| LostOffset (id j : Z)
| LostExchange (id current : Z)
| IdleOver.

Definition exits : IdleThread := Runs [ByAccess (SwapActive false); ByAccess (StoreLimit usize_max)] true.

Definition resets (total : Z) : IdleThread :=
  Runs ([StoreTotal total; ByAccess (StoreDeclared total); ByAccess (StoreLimit usize_max); StoreActive false; StoreOffset 0; StoreAnnounce 0]
        ++ map (fun i => StoreJoined (Z.of_nat i) 0) (seq 0 (Z.to_nat JOINED_SLOTS))) false.

Definition idle_next (c : nat) (t : IdleThread) : Act Idle IdleThread :=
  match t with
  | Enters keep => Accesses (fun s =>
      (s, if (keep =? 0) || (TOTAL_WORKERS s =? 0) || (TOTAL_WORKERS s <=? keep) then IdleOver
          else Runs (map ByAccess (enter_accesses keep)) false))
  | Runs (a :: l) total_next => Accesses (fun s => let '(s, go) := idle_access s a in (s, if (go : bool) then Runs l total_next else IdleOver))
  | Runs [] true => Accesses (fun s => (s, Runs [ByAccess (StoreDeclared (TOTAL_WORKERS s)); ByAccess BumpAnnounce] false))
  | Runs [] false => Notifies c IdleOver
  | LostAllows id => Accesses (fun s => (s, if allows s id then LostJoined id else IdleOver))
  | LostJoined id => Accesses (fun s =>
      (s, match joined s id with Some j => if j =? 0 then IdleOver else LostOffset id j | None => IdleOver end))
  | LostOffset id j => Accesses (fun s => (s, if j - 1 =? GEN_OFFSET s then LostExchange id (GEN_OFFSET s) else IdleOver))
  | LostExchange id current => Accesses (fun s =>
      if GEN_OFFSET s =? current
      then (fst (idle_access s (StoreOffset (saturating_add 64 current 1))), Runs [StoreJoined id 0; ByAccess BumpAnnounce] false)
      else (s, IdleOver))
  | IdleOver => Ends
  end.

(** A thread alone, until it notifies or ends. *)
Fixpoint thread_run (turns : nat) (s : Idle) (t : IdleThread) : Idle * IdleThread :=
  match turns with
  | O => (s, t)
  | Datatypes.S turns => match idle_next 0 t with Accesses f => thread_run turns (f s).1 (f s).2 | _ => (s, t) end
  end.

(** It is at its notification, or it has done nothing. *)
Definition thread_ends (s s' : Idle) (t : IdleThread) : Prop := t = Runs [] false \/ (t = IdleOver /\ s' = s).

Lemma over_stays turns s : thread_run turns s IdleOver = (s, IdleOver).
Proof. by destruct turns. Qed.

(** Run alone, the threads are the operations of the idle mode. *)
Lemma enters_alone s keep : exists t, thread_run 7 s (Enters keep) = (enter s keep, t) /\ thread_ends s (enter s keep) t.
Proof.
  unfold enter. destruct s as [l a t d g an p y j]. cbn -[Z.leb Z.eqb orb enter_accesses thread_run].
  change 7%nat with (Datatypes.S 6). cbn [thread_run idle_next fst snd TOTAL_WORKERS].
  destruct ((keep =? 0) || (t =? 0) || (t <=? keep)); [exists IdleOver; split; [done|by right]|].
  destruct a; [exists IdleOver; split; [done|by right]|]. exists (Runs [] false). split; [done|by left].
Qed.

Lemma exits_alone s : exists t, thread_run 5 s exits = (exit s, t) /\ thread_ends s (exit s) t.
Proof.
  destruct s as [l [] t d g an p y j]; [exists (Runs [] false); split; [done|by left]|].
  exists IdleOver. split; [done|by right].
Qed.

Lemma lost_alone s id : exists t, thread_run 6 s (LostAllows id) = (note_path_lost s id, t) /\ thread_ends s (note_path_lost s id) t.
Proof.
  unfold note_path_lost. cbn [thread_run idle_next fst snd]. destruct (allows s id) eqn:Ea; cbn [negb]; [|exists IdleOver; split; [done|by right]].
  cbn [thread_run idle_next fst snd]. destruct (joined s id) as [j|]; [|exists IdleOver; split; [done|by right]].
  destruct (j =? 0); [exists IdleOver; split; [done|by right]|]. cbn [thread_run idle_next fst snd].
  destruct (j - 1 =? GEN_OFFSET s); cbn [negb]; [|exists IdleOver; split; [done|by right]].
  cbn [thread_run idle_next fst snd]. rewrite Z.eqb_refl. exists (Runs [] false). split; [done|by left].
Qed.

Definition with_joined (s : Idle) (l : list Z) : Idle :=
  mkIdle (LIMIT s) (ACTIVE s) (TOTAL_WORKERS s) (DECLARED s) (GEN_OFFSET s) (ANNOUNCE s) (PACKET_WINDOW s) (SYN_WINDOW s) l.

Lemma clears_joined n k s : length (JOINED s) = (k + n)%nat ->
  thread_run n s (Runs (map (fun i => StoreJoined (Z.of_nat i) 0) (seq k n)) false)
  = (with_joined s (take k (JOINED s) ++ replicate n 0), Runs [] false).
Proof.
  revert k s. induction n as [|n IH]; intros k s Hl.
  - cbn. rewrite app_nil_r, take_ge by lia. by destruct s.
  - cbn [seq map thread_run idle_next idle_access fst snd]. rewrite IH by (cbn [set_joined JOINED]; rewrite length_insert; lia).
    destruct s as [li a t d g an p y j]. unfold set_joined, with_joined. cbn -[replicate]. cbn in Hl. f_equal. f_equal.
    rewrite Nat2Z.id. rewrite (take_S_r _ _ 0) by (apply list_lookup_insert_eq; lia).
    rewrite take_insert_ge by lia. by rewrite <- app_assoc.
Qed.

Lemma resets_run n s total : length (JOINED s) = n ->
  thread_run (6 + n) s (Runs ([StoreTotal total; ByAccess (StoreDeclared total); ByAccess (StoreLimit usize_max); StoreActive false; StoreOffset 0; StoreAnnounce 0]
        ++ map (fun i => StoreJoined (Z.of_nat i) 0) (seq 0 n)) false)
  = (mkIdle usize_max false total total 0 0 (PACKET_WINDOW s) (SYN_WINDOW s) (replicate n 0), Runs [] false).
Proof.
  intros Hl. cbn [Nat.add app]. cbn [thread_run idle_next idle_access access fst snd].
  by rewrite clears_joined by (by rewrite <- Hl).
Qed.

Lemma resets_alone s total : length (JOINED s) = Z.to_nat JOINED_SLOTS ->
  thread_run (6 + Z.to_nat JOINED_SLOTS) s (resets total) = (reset s total, Runs [] false).
Proof. apply resets_run. Qed.

(** *** What the threads of the idle mode owe *)

Definition conditional (a : IdleAccess) : bool := match a with ByAccess (SwapActive _) => true | _ => false end.

Definition idle_owes (t : IdleThread) : bool :=
  match t with Runs l _ => forallb (fun a => negb (conditional a)) l | _ => false end.

(** The accesses that can end a thread come before the others. *)
Definition idle_fine (t : IdleThread) : bool :=
  match t with
  | Runs (a :: l) _ => forallb (fun a => negb (conditional a)) l
  | _ => true
  end.

(** A test of the limit and of the announced epoch. *)
Definition watches (f : Idle -> bool) : Prop :=
  forall s s', LIMIT s = LIMIT s' -> ANNOUNCE s = ANNOUNCE s' -> f s = f s'.

Lemma idle_goes s a : conditional a = false -> idle_access s a = (fst (idle_access s a), true).
Proof. by destruct a as [[]| | | | |]. Qed.

Lemma conditional_keeps s a : conditional a = true ->
  LIMIT (fst (idle_access s a)) = LIMIT s /\ ANNOUNCE (fst (idle_access s a)) = ANNOUNCE s.
Proof. by destruct a as [[]| | | | |]. Qed.

Lemma idle_fine_next c t g s : idle_next c t = Accesses g -> idle_fine t = true -> idle_fine (g s).2 = true.
Proof.
  destruct t as [k|[|a l] []|id|id|id j|id n|]; cbn [idle_next]; intros E Hf; simplify_eq; cbn [fst snd]; try done;
    repeat case_match; try done; simplify_eq; cbn [snd idle_fine] in *; destruct l; try done; by apply andb_true_iff in Hf as [_ Hf].
Qed.

Lemma idle_owes_next c t g s : idle_next c t = Accesses g -> idle_owes t = true -> idle_owes (g s).2 = true.
Proof.
  destruct t as [k|[|a l] b|id|id|id j|id n|]; cbn [idle_next idle_owes]; intros E Ho; try done.
  - destruct b; by simplify_eq.
  - simplify_eq. cbn [forallb] in Ho. apply andb_true_iff in Ho as [Ha Hl]. apply negb_true_iff in Ha.
    by rewrite (idle_goes s a Ha).
Qed.

Lemma idle_incurs c f t g s : watches f -> idle_next c t = Accesses g -> idle_fine t = true ->
  f s = false -> f (g s).1 = true -> idle_owes (g s).2 = true.
Proof.
  intros Hf E Hfi H1 H2. destruct t as [k|[|a l] b|id|id|id j|id n|]; cbn [idle_next] in E; try done.
  - simplify_eq. cbn in H2. congruence.
  - destruct b; simplify_eq. cbn in H2. congruence.
  - simplify_eq. destruct (conditional a) eqn:Ha; [|rewrite (idle_goes s a Ha); exact Hfi].
    destruct (conditional_keeps s a Ha) as [Hl Hn]. destruct (idle_access s a) as [s' go]. cbn in *. by rewrite (Hf s' s Hl Hn), H1 in H2.
  - simplify_eq. cbn in H2. congruence.
  - simplify_eq. cbn in H2. congruence.
  - simplify_eq. cbn in H2. congruence.
  - simplify_eq. destruct (GEN_OFFSET s =? n); [done|]. cbn in H2. congruence.
Qed.

Lemma idle_pays c t k t' : idle_next c t = Notifies k t' -> k = c /\ t' = IdleOver.
Proof. destruct t as [?|[|? ?] []|?|?|? ?|? ?|]; cbn; intros E; by simplify_eq. Qed.

Lemma idle_over_owes c t : idle_next c t = Ends -> idle_owes t = false.
Proof. by destruct t as [?|[|? ?] []|?|?|? ?|? ?|]. Qed.

(** [parked] and [announce_changed]: one future, of the notifier of the idle mode. *)
Definition idle_wait (f : Idle -> bool) : Wait Idle IdleThread := mkWait _ _ (idle_next 0) [0%nat] f id (fun _ => false) false.

#[export] Instance idle_disciplined f : watches f -> Disciplined (idle_wait f) idle_fine idle_owes.
Proof.
  intros Hf. split; cbn [next idle_wait channels may_pass].
  - intros. by eapply idle_fine_next.
  - intros t c k [_ ->]%idle_pays. done.
  - intros t E _. by eapply idle_over_owes.
  - intros t g s E _. by eapply idle_owes_next.
  - intros t c k [-> _]%idle_pays. left. by apply list_elem_of_singleton.
  - intros t g s. by eapply idle_incurs.
Qed.

Definition parked (worker_id : Z) (s : Idle) : bool := negb (allows s worker_id).
Definition announce_changed (seen : Z) (s : Idle) : bool := negb (announce_epoch s =? seen).

Lemma parked_watches worker_id : watches (parked worker_id).
Proof. intros s s' Hl _. unfold parked, allows. by rewrite Hl. Qed.
Lemma announce_watches seen : watches (announce_changed seen).
Proof. intros s s' _ Ha. unfold announce_changed, announce_epoch. by rewrite Ha. Qed.

(** ** The gate of the workers *)

(** A thread in [PauseGate::set_paused], or one of the idle mode. *)
Inductive GateThread : Type := SetsPaused (b : bool) | PauseChanged | PauseOver | OfIdle (t : IdleThread).

(** The flag of the gate, the statics of the idle mode, and whether the engine is
    cancelled. *)
Record Gate : Type := mkGate { paused : bool; idle : Idle; cancelled : bool }.

Definition RESUMED : nat := 0.
Definition UNPARKED : nat := 1.

Definition lift (g : Gate) (x : Idle * IdleThread) : Gate * GateThread := (mkGate (paused g) x.1 (cancelled g), OfIdle x.2).

Definition gate_next (t : GateThread) : Act Gate GateThread :=
  match t with
  | SetsPaused b => Accesses (fun g => (mkGate b (idle g) (cancelled g), if Bool.eqb (paused g) b then PauseOver else PauseChanged))
  | PauseChanged => Notifies RESUMED PauseOver
  | PauseOver => Ends
  | OfIdle t =>
      match idle_next UNPARKED t with
      | Ends => Ends
      | Accesses f => Accesses (fun g => lift g (f (idle g)))
      | Notifies c k => Notifies c (OfIdle k)
      end
  end.

(** [PauseGate::allows] *)
Definition gate_allows (worker_id : Z) (g : Gate) : bool := negb (paused g) && allows (idle g) worker_id.

Definition wait_until_resumed : Wait Gate GateThread :=
  mkWait _ _ gate_next [RESUMED] (fun g => negb (paused g)) id cancelled false.
Definition wait_until_allowed (worker_id : Z) : Wait Gate GateThread :=
  mkWait _ _ gate_next [RESUMED; UNPARKED] (gate_allows worker_id) id cancelled false.

Definition gate_fine (t : GateThread) : bool := match t with OfIdle t => idle_fine t | _ => true end.
Definition gate_owes (t : GateThread) : bool := match t with PauseChanged => true | OfIdle t => idle_owes t | _ => false end.
Definition pause_owes (t : GateThread) : bool := match t with PauseChanged => true | _ => false end.

Lemma gate_next_idle t f : gate_next (OfIdle t) = Accesses f ->
  exists g, idle_next UNPARKED t = Accesses g /\ f = fun x => lift x (g (idle x)).
Proof. cbn. destruct (idle_next UNPARKED t) as [|g|c k]; intros E; simplify_eq. by exists g. Qed.

Lemma gate_notify_idle t c k : gate_next (OfIdle t) = Notifies c k -> c = UNPARKED /\ k = OfIdle IdleOver.
Proof.
  cbn. destruct (idle_next UNPARKED t) as [|g|d k'] eqn:E'; intros E; simplify_eq. apply idle_pays in E' as [-> ->]. done.
Qed.

Lemma gate_ends t : gate_next t = Ends -> gate_owes t = false.
Proof.
  destruct t as [b| | |t]; try done. cbn. destruct (idle_next UNPARKED t) eqn:E; try done. intros _. by eapply idle_over_owes.
Qed.

Lemma gate_fine_next t f g : gate_next t = Accesses f -> gate_fine t = true -> gate_fine (f g).2 = true.
Proof.
  destruct t as [b| | |t]; [|done..|].
  - intros E _. cbn in E. simplify_eq. cbn. by destruct (Bool.eqb _ _).
  - intros (h & E & ->)%gate_next_idle Hf. cbn. by eapply idle_fine_next.
Qed.

#[export] Instance allowed_disciplined worker_id : Disciplined (wait_until_allowed worker_id) gate_fine gate_owes.
Proof.
  split; cbn [next wait_until_allowed channels may_pass].
  - intros t f g. apply gate_fine_next.
  - intros [b| | |t] c k; cbn; intros E _; simplify_eq; [done|]. by apply gate_notify_idle in E as [_ ->].
  - intros t E _. by apply gate_ends.
  - intros [b| | |t] f g; [done..|]. intros (h & E & ->)%gate_next_idle _. cbn. by eapply idle_owes_next.
  - intros [b| | |t] c k E _ _; left; [done| |done|]; [cbn in E; simplify_eq|apply gate_notify_idle in E as [-> _]]; set_solver.
  - intros [b| | |t] f g E Hf H1 H2; [| done..|].
    + cbn in E. simplify_eq. cbn in *. unfold gate_allows in *. cbn [paused idle] in *. destruct (Bool.eqb (paused g) b) eqn:Eb; [|done].
      apply Bool.eqb_prop in Eb. subst. congruence.
    + apply gate_next_idle in E as (h & E & ->). cbn in *. unfold gate_allows in *. cbn [paused idle lift fst] in *.
      destruct (paused g); [done|]. cbn [negb andb] in *.
      eapply (idle_incurs UNPARKED (fun s => allows s worker_id)); [|done..].
      intros s s' Hl _. unfold allows. by rewrite Hl.
Qed.

#[export] Instance resumed_disciplined : Disciplined wait_until_resumed gate_fine pause_owes.
Proof.
  split; cbn [next wait_until_resumed channels may_pass].
  - intros t f g. apply gate_fine_next.
  - intros [b| | |t] c k; cbn; intros E _; simplify_eq; [done|]. by apply gate_notify_idle in E as [_ ->].
  - by intros [b| | |t].
  - by intros [b| | |t] f g.
  - intros [b| | |t] c k E _ Ho; try done. left. cbn in E. simplify_eq. by apply list_elem_of_singleton.
  - intros [b| | |t] f g E Hf H1 H2; [| done..|].
    + cbn in E. simplify_eq. cbn in *. destruct (Bool.eqb (paused g) b) eqn:Eb; [|done]. apply Bool.eqb_prop in Eb. subst. congruence.
    + apply gate_next_idle in E as (h & E & ->). cbn in *. congruence.
Qed.

(** ** The farewell *)

(** [STOP_FLAG] and [STOP_DONE], and the host in [signal_stop_disconnect]. *)
Record StopCell : Type := mkStop { stop_flag : bool; stop_done : bool }.
Inductive HostThread : Type := ClearsDone | SetsFlag | Signals | HostWaits.

Definition host_next (t : HostThread) : Act StopCell HostThread :=
  match t with
  | ClearsDone => Accesses (fun s => (mkStop (stop_flag s) false, SetsFlag))
  | SetsFlag => Accesses (fun s => (mkStop true (stop_done s), Signals))
  | Signals => Notifies 0 HostWaits
  | HostWaits => Ends
  end.

(** [stop_disconnect_requested]: the look takes the flag. *)
Definition stop_disconnect_requested : Wait StopCell HostThread :=
  mkWait _ _ host_next [0%nat] stop_flag (fun s => mkStop false (stop_done s)) (fun _ => false) false.

#[export] Instance stop_disciplined : Disciplined stop_disconnect_requested (fun _ => true) (fun t => match t with Signals => true | _ => false end).
Proof.
  split; cbn; try done.
  - by intros [].
  - by intros [].
  - intros [] c k E _ Ho; cbn in E; simplify_eq. left. by apply list_elem_of_singleton.
  - intros [] f x E _ H1 H2; cbn in E; simplify_eq; try done; cbn in H2; congruence.
Qed.

Section Completed.
Context {W : Type}.

(** The state of the coordinator, behind a mutex, and whether the time limit of
    the waiter is over. *)
Record Farewell : Type := mkFarewell { coordinator : @ShutdownCoordinator W; overdue : bool }.

(** A thread in [complete], or in [observe_control_response], which completes
    what was not completed; and the clock. *)
Inductive CompleteThread : Type := Completes | Observes (response : bytes) | TimePasses | CompletedChanged | CompleteOver.

Definition complete_next (t : CompleteThread) : Act Farewell CompleteThread :=
  match t with
  | Completes => Accesses (fun s =>
      (mkFarewell (complete (coordinator s)) (overdue s), if completed (coordinator s) then CompleteOver else CompletedChanged))
  | Observes r => Accesses (fun s =>
      let '(taken, c) := observe_control_response (coordinator s) r in
      (mkFarewell c (overdue s), if (taken : bool) then CompletedChanged else CompleteOver))
  | TimePasses => Accesses (fun s => (mkFarewell (coordinator s) true, CompleteOver))
  | CompletedChanged => Notifies 0 CompleteOver
  | CompleteOver => Ends
  end.

Definition wait_until_completed : Wait Farewell CompleteThread :=
  mkWait _ _ complete_next [0%nat] (fun s => completed (coordinator s)) id overdue true.

#[export] Instance completed_disciplined : Disciplined wait_until_completed (fun _ => true) (fun t => match t with CompletedChanged => true | _ => false end).
Proof.
  split; cbn; try done.
  - by intros [].
  - by intros [].
  - intros [] c k E _ Ho; cbn in E; simplify_eq. left. by apply list_elem_of_singleton.
  - intros [] f x E _ H1 H2; cbn in E; simplify_eq; cbn in *; [by rewrite H1| |congruence].
    destruct (observe_control_response (coordinator x) response) as [[] s'] eqn:Eo; [done|]. cbn in *. unfold observe_control_response in Eo.
    repeat case_match; simplify_eq; congruence.
Qed.

(** It ends whatever happens: at its time limit at the latest, with what it then
    sees. *)
Lemma overdue_ends x n seen : overdue x = true ->
  waiter_run wait_until_completed 4 x n (Sleeps seen) = (x, if completed (coordinator x) then Passed else Left)
  \/ woken n seen = true.
Proof.
  intros Ho. destruct (woken n seen) eqn:Ew; [by right|left]. cbn [waiter_run waiter_turn]. cbn [timed wait_until_completed gives_up may_pass].
  rewrite Ew, Ho. by destruct (completed (coordinator x)).
Qed.
End Completed.

(** ** No wait oversleeps *)

(** Whatever the threads have done in between: when they are over and the waiter
    may pass, it does so by its own next turns, unless it is cancelled; one that
    waits with a time limit always does. *)
Definition never_oversleeps {X S : Type} (w : Wait X S) (starts : S -> Prop) : Prop :=
  forall x l s, Forall starts l -> rtc (wait_step w) (wait_start w x l) s ->
    Forall (fun t => next w t = Ends) (threads s) -> present (waiter s) = true -> may_pass w (value s) = true ->
    let r := waiter_run w (length (channels w) + 3) (value s) (notified s) (waiter s) in
    r = (takes w (value s), Passed) \/ (timed w = false /\ gives_up w (value s) = true /\ r = (value s, Left)).

Lemma disciplined_never {X S : Type} (w : Wait X S) fine owes `{!Disciplined w fine owes} starts :
  (forall t, starts t -> fine t = true) -> never_oversleeps w starts.
Proof.
  intros Hs x l s Hl Hr He Hp Hm. assert (H : awake_or_owed w (fine := fine) (owes := owes) s).
  { eapply waits_kept; [apply _| |exact Hr]. eapply Forall_impl; [exact Hl|exact Hs]. }
  eapply awake_passes; try done. pose proof (ao_fine _ _ H) as Hf. rewrite Forall_forall in *.
  intros t Ht. by apply (owes_ends w t); [apply He|apply Hf].
Qed.

(** How the threads begin. *)
Definition idle_starts (t : IdleThread) : Prop :=
  (exists keep, t = Enters keep) \/ t = exits \/ (exists id, t = LostAllows id) \/ (exists total, t = resets total).
Definition gate_starts (t : GateThread) : Prop := (exists b, t = SetsPaused b) \/ (exists i, t = OfIdle i /\ idle_starts i).
Definition complete_starts (t : CompleteThread) : Prop := t = Completes \/ t = TimePasses \/ exists r, t = Observes r.

Lemma idle_starts_fine t : idle_starts t -> idle_fine t = true.
Proof. by intros [[? ->]|[->|[[? ->]|[total ->]]]]. Qed.

(** C32: no wait on the gate of the workers, on the idle mode or on the farewell
    oversleeps: under every interleaving of pauses and resumes, of entering,
    leaving and resetting the idle mode and of lost paths, a worker that is
    allowed to run, or a path that is parked or has an epoch to announce, goes on
    by itself as soon as those threads are through, and so do the engine that the
    host has asked for a farewell and the task that waits for its answer. Only the
    engine's cancellation sends a worker away instead; the time limit of the last
    one does not, since it looks once more when it is over. *)
Theorem waits_never_oversleep :
  (forall worker_id, never_oversleeps (wait_until_allowed worker_id) gate_starts)
  /\ never_oversleeps wait_until_resumed gate_starts
  /\ (forall worker_id, never_oversleeps (idle_wait (parked worker_id)) idle_starts)
  /\ (forall seen, never_oversleeps (idle_wait (announce_changed seen)) idle_starts)
  /\ never_oversleeps stop_disconnect_requested (fun t => t = ClearsDone)
  /\ (forall W, never_oversleeps (wait_until_completed (W := W)) complete_starts).
Proof.
  assert (Hg : forall t, gate_starts t -> gate_fine t = true).
  { intros t [[b ->]|(i & -> & Hi)]; [done|by apply idle_starts_fine]. }
  split_and!; intros.
  - by eapply disciplined_never; [apply _|].
  - by eapply disciplined_never; [apply _|].
  - eapply disciplined_never; [apply idle_disciplined, parked_watches|apply idle_starts_fine].
  - eapply disciplined_never; [apply idle_disciplined, announce_watches|apply idle_starts_fine].
  - by eapply disciplined_never; [apply _|].
  - by eapply disciplined_never; [apply _|].
Qed.

(** A resume that comes between the look of a worker and its sleep: it sleeps
    with a future that is ready. *)
Lemma resume_in_between :
  let g := mkGate true (reset initial 8) false in
  exists s, rtc (wait_step (wait_until_allowed 3)) (wait_start (wait_until_allowed 3) g [SetsPaused false]) s
    /\ asleep (waiter s) = true /\ may_pass (wait_until_allowed 3) (value s) = true
    /\ waiter_turn (wait_until_allowed 3) (value s) (notified s) (waiter s) = Some (value s, starts_over (wait_until_allowed 3)).
Proof.
  eexists. split; [|split_and!].
  - eapply rtc_l; [by apply waiter_step|]. eapply rtc_l; [by apply waiter_step|]. eapply rtc_l; [by apply waiter_step|].
    eapply rtc_l; [by apply waiter_step|].
    eapply rtc_l; [by eapply (thread_access _ _ _ [] _ _ [])|]. eapply rtc_l; [by eapply (thread_notify _ _ _ [])|]. apply rtc_refl.
  - done.
  - done.
  - done.
Qed.

(** The next engine takes a request that no engine was there to take. *)
Lemma stale_request_taken :
  exists s, rtc (wait_step stop_disconnect_requested) (wait_start stop_disconnect_requested (mkStop true false) []) s
    /\ waiter s = Passed /\ value s = mkStop false false.
Proof.
  eexists. split; [|split].
  - eapply rtc_l; [by apply waiter_step|]. eapply rtc_l; [by apply waiter_step|]. eapply rtc_l; [by apply waiter_step|]. apply rtc_refl.
  - done.
  - done.
Qed.

(** It spoils its own farewell by that: no stream is registered any more, and a
    later request has no leader. *)
Lemma stale_request_spoils {W} id (w : W) :
  let s := register (complete (snd (lead new_coordinator))) id w in
  streams s = [] /\ completed s = true /\ fst (lead s) = false.
Proof. done. Qed.
