(* ===== verification/WriterLoop.v ===== *)
(** * WriterLoop: the task that writes for a session

    Models [writer_loop] of [session.rs] with the commands that it takes
    ([handle_writer_command]): turn by turn, a command before any packet, then
    the batch that the next packet opens, then a sleep until something comes.
    What the senders of the lanes and of the commands do in between, and the
    outcome of every send, are arguments of a turn. *)

From S2P Require Import Prelude Bytes Scheduler ArrayQueue PacketPool PacketQueue Digests Ciphers Obfs Writer.

Section Loop.
Context {Q : Type -> Type} `{ArrayQueue Q} `{Digests} `{Ciphers}.
Variables (c : ObfsCipher) (m : ObfsMode) (s : Z) (env : WriterEnv).

(** The writer with its lanes, the answers to the commands that it took, in
    order, and how often it marked its stream active. *)
Record WriterLoop : Type := mkWriterLoop {
  wl_transport : TransportWriter;
  wl_lanes : @Lanes Q;
  wl_answers : list (bytes * result unit WriteError);
  wl_marks : Z;
}.

Inductive WriterAt : Type := WriterRuns | WriterReturned (r : result unit WriteError).

(** What ends the sleep of the writer: its cancellation, a command, or the end
    of the commands ([None]), or a lane. *)
Inductive WriterEvent : Type := CancelSeen | CommandCame (data : option bytes) | LaneCame (class : PacketClass).

(** One turn: the command that waits, if one does; the buffer that the pool has
    for a command; what the senders do before the turn, during the sleep and before
    each packet of a batch; what ends the sleep; whether the session is cancelled
    then. *)
Record WriterTurn : Type := mkWriterTurn {
  wt_command : option bytes;
  wt_buffer : option PacketBuf;
  wt_before : @Lanes Q -> @Lanes Q;
  wt_wake : @Lanes Q -> @Lanes Q;
  wt_arrive : nat -> @Lanes Q -> @Lanes Q;
  wt_event : WriterEvent;
  wt_cancelled : bool;
}.

Definition lanes_closed (l : @Lanes Q) : bool := is_closed (latency l) && is_closed (priority l) && is_closed (bulk l).

(** [handle_writer_command] *)
Definition handle_command (buffer : option PacketBuf) (data : bytes) (w : WriterLoop) : res (WriterLoop * WriterAt) :=
  sent ← send_bytes c (new_config m s) env (wl_transport w) buffer data;
  mret (mkWriterLoop (snd sent) (wl_lanes w) (wl_answers w ++ [(data, fst sent)]) (wl_marks w), WriterRuns).

(** [send_writer_batch] and the mark behind it *)
Definition send_batch (arrive : nat -> @Lanes Q -> @Lanes Q) (first : WriterPacket) (l : @Lanes Q) (w : WriterLoop)
    : res (WriterLoop * WriterAt) :=
  let '(batch, l) := writer_batch first arrive l in
  sent ← flush_queued_data c (new_config m s) env (wl_transport w) batch;
  mret (match sent with
        | (Ok _, t) => (mkWriterLoop t l (wl_answers w) (wl_marks w + 1), WriterRuns)
        | (Err e, t) => (mkWriterLoop t l (wl_answers w) (wl_marks w), WriterReturned (Err e))
        end).

Definition with_lanes (w : WriterLoop) (l : @Lanes Q) : WriterLoop :=
  mkWriterLoop (wl_transport w) l (wl_answers w) (wl_marks w).

(** A turn of [writer_loop]. *)
Definition writer_turn (t : WriterTurn) (w : WriterLoop) : res (WriterLoop * WriterAt) :=
  match wt_command t with
  | Some data => handle_command (wt_buffer t) data w
  | None =>
      match next_writer_packet (wt_before t (wl_lanes w)) with
      | (Some p, l) => send_batch (wt_arrive t) p l w
      | (None, l) =>
          if lanes_closed l then Ret (with_lanes w l, WriterReturned (Ok tt)) else
          match wt_event t with
          | CancelSeen => Ret (with_lanes w l, WriterReturned (Ok tt))
          | CommandCame (Some data) => handle_command (wt_buffer t) data (with_lanes w l)
          | CommandCame None => Ret (with_lanes w l, WriterRuns)
          | LaneCame class =>
              match recv_lane (wt_wake t l) class with
              | (Some p, l) => send_batch (wt_arrive t) p l w
              | (None, l) =>
                  Ret (with_lanes w l, if wt_cancelled t || lanes_closed l then WriterReturned (Ok tt) else WriterRuns)
              end
          end
      end
  end.

Fixpoint writer_loop (turns : list WriterTurn) (w : WriterLoop) : res (WriterLoop * WriterAt) :=
  match turns with
  | [] => Ret (w, WriterRuns)
  | t :: turns =>
      '(w, at_) ← writer_turn t w;
      match at_ with WriterRuns => writer_loop turns w | WriterReturned _ => Ret (w, at_) end
  end.

(** ** What is in the lanes *)

(** The packets that a lane delivers, in order: those of its present epoch. *)
Definition live (q : @PacketQueue Q) : list PacketBuf := map packet (List.filter (deliverable q) (items (queue q))).
Definition nothing_live (l : @Lanes Q) : Prop := forall class, live (lane l class) = [].
Definition emptied (l : @Lanes Q) : Prop := forall class, items (queue (lane l class)) = [].

(** The packets [ps] were taken from the front of a lane, and the others are as
    they were. *)
Definition took (l : @Lanes Q) (class : PacketClass) (ps : list PacketBuf) (l' : @Lanes Q) : Prop :=
  live (lane l class) = ps ++ live (lane l' class) /\ forall other, other <> class -> lane l' other = lane l other.

(** The lanes that go before a class. *)
Definition before_class (class : PacketClass) : list PacketClass :=
  match class with Small => [] | Medium => [Small] | Bulk => [Small; Medium] end.

(** A packet is the first of the highest lane that has one, and nothing else is
    taken. *)
Definition opens (l : @Lanes Q) (p : WriterPacket) (l' : @Lanes Q) : Prop :=
  Forall (fun class => live (lane l class) = []) (before_class (w_class p))
  /\ live (lane l (w_class p)) = w_packet p :: live (lane l' (w_class p))
  /\ forall other, other <> w_class p -> live (lane l' other) = live (lane l other).

(** What a batch takes besides its first packet, with room for so many more: one
    packet after the other from its own lane, as long as no lane before it holds
    any, until the lane has nothing to deliver or the batch is full. *)
Inductive gathers (class : PacketClass) (arrive : nat -> @Lanes Q -> @Lanes Q) : nat -> @Lanes Q -> list PacketBuf -> @Lanes Q -> Prop :=
| gather_full l : gathers class arrive O l [] l
| gather_yields n l :
    Exists (fun higher => items (queue (lane (arrive n l) higher)) <> []) (before_class class) ->
    gathers class arrive (S n) l [] (arrive n l)
| gather_ends n l l' :
    Forall (fun higher => items (queue (lane (arrive n l) higher)) = []) (before_class class) ->
    live (lane (arrive n l) class) = [] -> took (arrive n l) class [] l' -> gathers class arrive (S n) l [] l'
| gather_one n l p l1 ps l' :
    Forall (fun higher => items (queue (lane (arrive n l) higher)) = []) (before_class class) ->
    took (arrive n l) class [p] l1 -> gathers class arrive n l1 ps l' -> gathers class arrive (S n) l (p :: ps) l'.

Lemma recv_turns_live turns : forall q, aq_ok (queue q) -> (length (items (queue q)) < turns)%nat ->
  let '(p, q') := recv_turns turns q in
  match p with
  | Some p => live q = p :: live q'
  | None => live q = [] /\ items (queue q') = []
  end.
Proof.
  induction turns as [|turns IH]; intros q Hok Hl; [lia|]. cbn [recv_turns].
  destruct (aq_pop_cases (queue q) Hok) as [[Hn ->]|(x & q1 & -> & Hi & _ & Hok1)]; [unfold live; by rewrite Hn|].
  rewrite Hi in Hl. cbn [length] in Hl. assert (live q = (if deliverable q x then [packet x] else []) ++ live (set_queue q q1)) as ->.
  { unfold live. rewrite Hi. cbn [List.filter set_queue queue]. change (deliverable (set_queue q q1)) with (deliverable q).
    by destruct (deliverable q x). }
  destruct (deliverable q x); [done|]. apply (IH (set_queue q q1)); cbn; [done|lia].
Qed.

Lemma lane_set (l : @Lanes Q) class q : lane (set_lane l class q) class = q.
Proof. by destruct class. Qed.
Lemma lane_set_ne (l : @Lanes Q) class other q : other <> class -> lane (set_lane l class q) other = lane l other.
Proof. by destruct class, other. Qed.

Lemma recv_lane_live (l : @Lanes Q) class : aq_ok (queue (lane l class)) ->
  let '(p, l') := recv_lane l class in
  match p with
  | Some p => w_class p = class /\ took l class [w_packet p] l'
  | None => live (lane l class) = [] /\ items (queue (lane l' class)) = [] /\ took l class [] l'
  end.
Proof.
  intros Hok. unfold recv_lane, try_recv.
  pose proof (recv_turns_live (S (length (items (queue (lane l class))))) (lane l class) Hok ltac:(lia)) as Hr.
  destruct (recv_turns _ _) as [[p|] q].
  - split; [done|]. split; [by rewrite lane_set|]. intros other Ho. by apply lane_set_ne.
  - destruct Hr as [Hn Hi]. split; [done|]. split; [by rewrite lane_set|]. split; [|intros other Ho; by apply lane_set_ne].
    rewrite lane_set, Hn. unfold live. by rewrite Hi.
Qed.

Lemma next_opens (l : @Lanes Q) : (forall class, aq_ok (queue (lane l class))) ->
  let '(p, l') := next_writer_packet l in
  match p with
  | Some p => opens l p l'
  | None => nothing_live l /\ emptied l'
  end.
Proof.
  intros Hok. unfold next_writer_packet.
  pose proof (recv_lane_live l Small (Hok Small)) as K1. destruct (recv_lane l Small) as [[p|] l1].
  { destruct K1 as [Hc [Hl Ho]]. unfold opens. rewrite Hc. split; [constructor|]. split; [done|]. intros other Hne. by rewrite Ho. }
  destruct K1 as (N1 & I1 & [_ O1]). assert (forall other, other <> Small -> aq_ok (queue (lane l1 other))) as Hok1 by (intros; by rewrite O1).
  pose proof (recv_lane_live l1 Medium (Hok1 Medium ltac:(done))) as K2. destruct (recv_lane l1 Medium) as [[p|] l2].
  { destruct K2 as [Hc [Hl Ho]]. unfold opens. rewrite Hc. split; [by constructor|]. rewrite <- (O1 Medium) by done. split; [done|].
    intros other Hne. rewrite Ho by done. destruct other; [|done|by rewrite O1]. rewrite N1. unfold live. by rewrite I1. }
  destruct K2 as (N2 & I2 & [_ O2]). rewrite O1 in N2 by done.
  pose proof (recv_lane_live l2 Bulk) as K3. rewrite O2, O1 in K3 by done. specialize (K3 (Hok Bulk)).
  destruct (recv_lane l2 Bulk) as [[p|] l3].
  - destruct K3 as [Hc [Hl Ho]]. rewrite O2, O1 in Hl by done. unfold opens. rewrite Hc. split; [by repeat constructor|]. split; [done|].
    intros other Hne. rewrite Ho by done. destruct other; [rewrite O2, N1 by done; unfold live; by rewrite I1|rewrite N2; unfold live; by rewrite I2|done].
  - destruct K3 as (N3 & I3 & [_ O3]). split; [by intros []|]. intros []; [rewrite O3, O2 by done|rewrite O3 by done|]; done.
Qed.

Lemma can_extend_iff class (l : @Lanes Q) :
  writer_batch_can_extend class (has_queued_packet (latency l)) (has_queued_packet (priority l)) = true
  <-> Forall (fun higher => items (queue (lane l higher)) = []) (before_class class).
Proof.
  assert (forall q : @PacketQueue Q, negb (has_queued_packet q) = true <-> items (queue q) = []) as Hq.
  { intros q. unfold has_queued_packet, queued, aq_len. rewrite negb_involutive, Z.eqb_eq. split; [apply zlen_zero|by intros ->]. }
  destruct class; cbn [writer_batch_can_extend before_class]; rewrite ?andb_true_iff, ?Hq, ?List.Forall_cons_iff, ?List.Forall_nil_iff; naive_solver.
Qed.

(** ** What a turn does *)

Hypothesis Hs : is_u 32 s.
Hypothesis Hdraws : forall n, draw_ok (new_config m s) (draws env n).

(** A packet that fits the wrapping whatever its draw is. *)
Definition writable (p : PacketBuf) : Prop :=
  buf_ok p /\ 24 <= range_start p /\ range_end p + 77 <= PACKET_CAPACITY /\ exists payload, as_slice p = Ret payload /\ payload <> [].

Lemma writable_sendable p n : writable p -> sendable (new_config m s) (draws env n) p.
Proof.
  intros (Hok & Hst & He & Hp). split; [done|]. split; [done|]. split; [|done]. split; [done|].
  pose proof (Hdraws n) as [Hpad _]. assert (tail_len (new_config m s) (draws env n) <= 77); [|lia].
  unfold tail_len. destruct m; simpl in *; lia.
Qed.

Lemma all_writable ps : Forall writable ps -> forall n, all_sendable (new_config m s) env n ps.
Proof. induction 1 as [|p ps Hp _ IH]; intros n; [done|]. split; [by apply writable_sendable|apply IH]. Qed.

Definition queue_good (q : @PacketQueue Q) : Prop := aq_ok (queue q) /\ Forall (fun x => writable (packet x)) (items (queue q)).
Definition lanes_good (l : @Lanes Q) : Prop := queue_good (latency l) /\ queue_good (priority l) /\ queue_good (bulk l).

Lemma recv_good turns : forall q, queue_good q ->
  let '(p, q') := recv_turns turns q in queue_good q' /\ match p with Some p => writable p | None => True end.
Proof.
  induction turns as [|turns IH]; intros q Hq; cbn [recv_turns]; [done|].
  destruct Hq as [Hok Hall]. destruct (aq_pop_cases (queue q) Hok) as [[_ ->]|(x & q1 & -> & Hi & _ & Hok1)]; [done|].
  rewrite Hi in Hall. apply Forall_cons in Hall as [Hx Hall]. destruct (deliverable q x); [done|]. by apply IH.
Qed.

Lemma lane_good l class : lanes_good l -> queue_good (lane l class).
Proof. intros (? & ? & ?). by destruct class. Qed.

Lemma recv_lane_good l class : lanes_good l ->
  let '(p, l') := recv_lane l class in lanes_good l' /\ match p with Some p => writable (w_packet p) /\ w_class p = class | None => True end.
Proof.
  intros Hl. unfold recv_lane, try_recv. pose proof (recv_good (S (length (items (queue (lane l class))))) _ (lane_good l class Hl)) as Hr.
  destruct (recv_turns _ _) as [p q]. destruct Hr as [Hq Hp], Hl as (G1 & G2 & G3).
  split; [destruct class; by split|]. by destruct p.
Qed.

Lemma next_good l : lanes_good l ->
  let '(p, l') := next_writer_packet l in lanes_good l' /\ match p with Some p => writable (w_packet p) | None => True end.
Proof.
  intros Hl. unfold next_writer_packet. pose proof (recv_lane_good l Small Hl) as G1. destruct (recv_lane l Small) as [[p|] l1].
  { by destruct G1 as [? []]. }
  destruct G1 as [G1 _]. pose proof (recv_lane_good l1 Medium G1) as G2. destruct (recv_lane l1 Medium) as [[p|] l2].
  { by destruct G2 as [? []]. }
  destruct G2 as [G2 _]. pose proof (recv_lane_good l2 Bulk G2) as G3. destruct (recv_lane l2 Bulk) as [[p|] l3]; by destruct G3 as [? ?]; destruct_and?.
Qed.

Lemma collect_good turns class arrive : (forall n l, lanes_good l -> lanes_good (arrive n l)) -> forall batch l,
  Forall writable batch -> lanes_good l ->
  let '(batch', l') := collect turns class arrive batch l in Forall writable batch' /\ lanes_good l'.
Proof.
  intros Ha. induction turns as [|turns IH]; intros batch l Hb Hl; cbn [collect]; [done|].
  specialize (Ha turns l Hl). destruct (negb _); [done|]. pose proof (recv_lane_good _ class Ha) as Hr.
  destruct (recv_lane _ class) as [[p|] l1]; destruct Hr as [Hl1 Hp]; [|done]. apply IH; [|done].
  apply Forall_app. split; [done|]. by constructor; [apply Hp|].
Qed.

(** The datagrams of the packets [ps] left in order, all of them or those before
    the first that was refused. *)
Definition sent_in_order (t t' : TransportWriter) (r : result unit WriteError) (ps : list PacketBuf) : Prop :=
  exists qs, wrapped_from c m (write_state t) ps qs /\ sends_of t t' r qs.

Lemma flush_sent t ps : Forall writable ps ->
  exists r t', flush_queued_data c (new_config m s) env t ps = Ret (r, t') /\ sent_in_order t t' r ps.
Proof.
  intros Hps. destruct (flush_in_order c m s env Hs t ps (all_writable ps Hps _)) as (r & t' & qs & Hf & Hw & Hq).
  exists r, t'. split; [done|]. by exists qs.
Qed.

(** A command of the engine: a request of a few hundred bytes. *)
Definition command_ok (data : bytes) : Prop := data <> [] /\ zlen data <= 2048.
Definition buffer_ok (buffer : option PacketBuf) : Prop := match buffer with Some b => buf_ok b | None => True end.

(** How a command went: refused for want of a buffer, or one datagram. *)
Definition command_sent (buffer : option PacketBuf) (data : bytes) (t t' : TransportWriter) (r : result unit WriteError) : Prop :=
  match buffer with
  | None => r = Err NoBudget /\ t' = t
  | Some _ => exists p, as_slice p = Ret data /\ sent_in_order t t' r [p]
  end.

Lemma command_sends t buffer data : command_ok data -> buffer_ok buffer ->
  exists r t', send_bytes c (new_config m s) env t buffer data = Ret (r, t') /\ command_sent buffer data t t' r.
Proof.
  intros [Hne Hlen] Hb. destruct buffer as [b|]; [|by exists (Err NoBudget), t].
  destruct (fill_read_area b data Hb) as (b1 & b2 & Hw & Hset & Hsl & Hok); [lia|].
  cbn [send_bytes]. destruct (Z.ltb_spec (PACKET_CAPACITY - PACKET_HEADROOM) (zlen data)) as [Hbig|_].
  { unfold PACKET_CAPACITY, PACKET_HEADROOM in Hbig. lia. }
  rewrite Hw. rbind. rewrite Hset. destruct (flush_sent t [b2]) as (r & t' & Hf & Hsent).
  { constructor; [|done]. unfold set_read_len in Hset. destruct (_ <? _); [done|]. injection Hset as <-.
    split; [done|]. cbn [range_start range_end with_range]. unfold PACKET_HEADROOM, PACKET_CAPACITY. split_and!; try lia. by exists data. }
  exists r, t'. split; [exact Hf|]. exists b2. by split.
Qed.

Record turn_ok (t : WriterTurn) : Prop := {
  to_command : match wt_command t with Some data => command_ok data | None => True end;
  to_event : match wt_event t with CommandCame (Some data) => command_ok data | _ => True end;
  to_buffer : buffer_ok (wt_buffer t);
  to_before : forall l, lanes_good l -> lanes_good (wt_before t l);
  to_wake : forall l, lanes_good l -> lanes_good (wt_wake t l);
  to_arrive : forall n l, lanes_good l -> lanes_good (wt_arrive t n l);
}.

Lemma lanes_ok l class : lanes_good l -> aq_ok (queue (lane l class)).
Proof. intros Hl. by apply lane_good. Qed.

Lemma collect_gathers turns class arrive : (forall n l, lanes_good l -> lanes_good (arrive n l)) -> forall batch l, lanes_good l ->
  let '(batch', l') := collect turns class arrive batch l in
  exists ps, batch' = batch ++ ps /\ (length ps <= turns)%nat /\ gathers class arrive turns l ps l'.
Proof.
  intros Ha. induction turns as [|turns IH]; intros batch l Hl; cbn [collect].
  { exists []. rewrite app_nil_r. by repeat constructor. }
  specialize (Ha turns l Hl). destruct (writer_batch_can_extend class _ _) eqn:Ec; cbn [negb].
  2:{ exists []. rewrite app_nil_r. split; [done|]. split; [cbn; lia|]. apply gather_yields.
      apply not_Forall_Exists; [intros higher; apply _|]. intros Hf. apply can_extend_iff in Hf. congruence. }
  apply can_extend_iff in Ec. pose proof (recv_lane_live _ class (lanes_ok _ class Ha)) as Hr. pose proof (recv_lane_good _ class Ha) as Hg.
  destruct (recv_lane _ class) as [[p|] l1].
  - destruct Hr as [_ Ht], Hg as [Hg _]. specialize (IH (batch ++ [w_packet p]) l1 Hg). destruct (collect turns class arrive _ l1) as [batch' l'].
    destruct IH as (ps & -> & Hlen & Hgather). exists (w_packet p :: ps). rewrite <- app_assoc. split; [done|]. split; [cbn; lia|].
    by eapply gather_one.
  - destruct Hr as (Hn & _ & Ht). exists []. rewrite app_nil_r. split; [done|]. split; [cbn; lia|]. by apply gather_ends.
Qed.

(** The lanes as the turn finds them, and as its look leaves them when they have
    nothing to deliver. *)
Definition found (t : WriterTurn) (w : WriterLoop) : @Lanes Q := wt_before t (wl_lanes w).
Definition looked (t : WriterTurn) (w : WriterLoop) : @Lanes Q := snd (next_writer_packet (found t w)).

(** The lanes have nothing to deliver and are not closed, so that the writer
    sleeps. *)
Definition slept (t : WriterTurn) (w : WriterLoop) : Prop :=
  wt_command t = None /\ nothing_live (found t w) /\ emptied (looked t w) /\ lanes_closed (looked t w) = false.

(** The three things that a turn can be. *)
Inductive turn_did (t : WriterTurn) (w w' : WriterLoop) : WriterAt -> Prop :=
| did_command data r :
    (wt_command t = Some data /\ wl_lanes w' = wl_lanes w
     \/ slept t w /\ wt_event t = CommandCame (Some data) /\ wl_lanes w' = looked t w) ->
    command_sent (wt_buffer t) data (wl_transport w) (wl_transport w') r ->
    wl_answers w' = wl_answers w ++ [(data, r)] -> wl_marks w' = wl_marks w -> turn_did t w w' WriterRuns
| did_batch first l rest r :
    (wt_command t = None /\ opens (found t w) first l
     \/ slept t w /\ wt_event t = LaneCame (w_class first) /\ took (wt_wake t (looked t w)) (w_class first) [w_packet first] l) ->
    gathers (w_class first) (wt_arrive t) (Z.to_nat (batch_limit (w_class first) - 1)) l rest (wl_lanes w') ->
    zlen (w_packet first :: rest) <= batch_limit (w_class first) ->
    sent_in_order (wl_transport w) (wl_transport w') r (w_packet first :: rest) ->
    wl_answers w' = wl_answers w ->
    wl_marks w' = (match r with Ok _ => wl_marks w + 1 | Err _ => wl_marks w end) ->
    turn_did t w w' (match r with Ok _ => WriterRuns | Err e => WriterReturned (Err e) end)
| did_nothing at_ :
    wl_transport w' = wl_transport w -> wl_answers w' = wl_answers w -> wl_marks w' = wl_marks w ->
    (wt_command t = None /\ nothing_live (found t w) /\ emptied (wl_lanes w') /\ lanes_closed (wl_lanes w') = true
       /\ at_ = WriterReturned (Ok tt)
     \/ slept t w /\
        match wt_event t with
        | CancelSeen => wl_lanes w' = looked t w /\ at_ = WriterReturned (Ok tt)
        | CommandCame None => wl_lanes w' = looked t w /\ at_ = WriterRuns
        | CommandCame (Some _) => False
        | LaneCame class => live (lane (wt_wake t (looked t w)) class) = [] /\ took (wt_wake t (looked t w)) class [] (wl_lanes w')
            /\ at_ = if wt_cancelled t || lanes_closed (wl_lanes w') then WriterReturned (Ok tt) else WriterRuns
        end) ->
    turn_did t w w' at_.

Lemma handle_command_did t w w0 data :
  turn_ok t -> command_ok data -> wl_transport w0 = wl_transport w -> wl_answers w0 = wl_answers w -> wl_marks w0 = wl_marks w ->
  (wt_command t = Some data /\ wl_lanes w0 = wl_lanes w
   \/ slept t w /\ wt_event t = CommandCame (Some data) /\ wl_lanes w0 = looked t w) ->
  exists w' at_, handle_command (wt_buffer t) data w0 = Ret (w', at_) /\ wl_lanes w' = wl_lanes w0 /\ turn_did t w w' at_.
Proof.
  intros Ht Hd E1 E2 E3 Hwhen. unfold handle_command. rewrite E1.
  destruct (command_sends (wl_transport w) (wt_buffer t) data Hd (to_buffer _ Ht)) as (r & t' & -> & Hsent). rbind.
  eexists _, _. split; [reflexivity|]. split; [done|]. rewrite E2, E3. eapply (did_command _ _ _ data r); try done.
Qed.

Lemma send_batch_did t w l first :
  turn_ok t -> lanes_good l -> writable (w_packet first) ->
  (wt_command t = None /\ opens (found t w) first l
   \/ slept t w /\ wt_event t = LaneCame (w_class first) /\ took (wt_wake t (looked t w)) (w_class first) [w_packet first] l) ->
  exists w' at_, send_batch (wt_arrive t) first l w = Ret (w', at_) /\ lanes_good (wl_lanes w') /\ turn_did t w w' at_.
Proof.
  intros Ht Hl Hp Hwhen. unfold send_batch.
  pose proof (collect_gathers (Z.to_nat (batch_limit (w_class first) - 1)) (w_class first) _ (to_arrive _ Ht) [w_packet first] l Hl) as Hbatch.
  pose proof (collect_good (Z.to_nat (batch_limit (w_class first) - 1)) (w_class first) _ (to_arrive _ Ht) [w_packet first] l) as Hgood.
  unfold writer_batch in *. destruct (collect _ _ _ _ _) as [batch l']. destruct Hbatch as (rest & -> & Hlen & Hgather).
  assert (zlen (w_packet first :: rest) <= batch_limit (w_class first)) as Hlim.
  { rewrite zlen_cons. unfold zlen. assert (1 <= batch_limit (w_class first)) by (by destruct (w_class first)). lia. }
  destruct Hgood as [Hw Hl']; [by constructor|done|]. destruct (flush_sent (wl_transport w) _ Hw) as (r & t' & -> & Hsent). rbind.
  destruct r as [[]|e]; eexists _, _; (split; [reflexivity|]; split; [done|]).
  - by eapply (did_batch _ _ _ first l rest (Ok tt)).
  - by eapply (did_batch _ _ _ first l rest (Err e)).
Qed.

Lemma writer_turn_ok t w :
  lanes_good (wl_lanes w) -> turn_ok t ->
  exists w' at_, writer_turn t w = Ret (w', at_) /\ lanes_good (wl_lanes w') /\ turn_did t w w' at_.
Proof.
  intros Hl Ht. unfold writer_turn. destruct (wt_command t) as [data|] eqn:Ec.
  { destruct (handle_command_did t w w data Ht) as (w' & at_ & -> & Hw & Hd); [pose proof (to_command _ Ht) as Hc; by rewrite Ec in Hc|done..|by left|].
    exists w', at_. rewrite Hw. by split. }
  pose proof (next_good _ (to_before _ Ht _ Hl)) as Hn. pose proof (next_opens (found t w) (fun class => lanes_ok _ class (to_before _ Ht _ Hl))) as Ho.
  unfold found in Ho. destruct (next_writer_packet (wt_before t (wl_lanes w))) as [[p|] l] eqn:En.
  { destruct Hn. apply send_batch_did; try done. by left. }
  destruct Hn as [Hl1 _], Ho as [Hnone Hemp]. assert (looked t w = l) as Hlook by (unfold looked, found; by rewrite En).
  destruct (lanes_closed l) eqn:Ecl.
  { eexists _, _. split; [reflexivity|]. split; [done|]. apply did_nothing; try done. by left. }
  assert (slept t w) as Hslept by (unfold slept; by rewrite Hlook).
  destruct (wt_event t) as [|[data|]|class] eqn:Ee.
  - eexists _, _. split; [reflexivity|]. split; [done|]. apply did_nothing; try done. right. by rewrite Ee, Hlook.
  - destruct (handle_command_did t w (with_lanes w l) data Ht) as (w' & at_ & -> & Hw & Hd); [pose proof (to_event _ Ht) as Hc; by rewrite Ee in Hc|done..| |].
    { right. by rewrite Hlook. }
    exists w', at_. by rewrite Hw.
  - eexists _, _. split; [reflexivity|]. split; [done|]. apply did_nothing; try done. right. by rewrite Ee, Hlook.
  - pose proof (to_wake _ Ht l Hl1) as Hwake. pose proof (recv_lane_good _ class Hwake) as Hr.
    pose proof (recv_lane_live _ class (lanes_ok _ class Hwake)) as Hlive.
    destruct (recv_lane _ class) as [[p|] l2]; destruct Hr as [Hl2 Hp].
    { destruct Hlive as [Hc Htook], Hp as [Hp _]. apply send_batch_did; try done. right. by rewrite Hc, Hlook. }
    destruct Hlive as (Hno & _ & Htook). eexists _, _. split; [reflexivity|]. split; [done|]. apply did_nothing; try done. right. by rewrite Ee, Hlook.
Qed.

(** C22: a turn of the session's writer never panics, and is one of three things:
    a command that waited, sent before any packet and without a look at the lanes,
    or one that came while the lanes had nothing, answered with how its datagram
    went; a batch; or nothing at all. A batch is opened by the first packet of the
    highest lane that has one to deliver, or by one that ended the sleep of a writer
    whose lanes had none, and takes the next ones of that lane, up to the limit of
    its class and as long as the lanes above it are empty; no other packet is taken
    from any lane. Its packets leave in order under the next numbers of the session;
    it marks the stream as active when all of them left and ends the task with the
    error when one was refused. Nothing happens only when no lane has a packet to
    deliver, and that ends the task just when it is cancelled or its lanes are
    closed. *)
Theorem writer_turn_exact t w :
  lanes_good (wl_lanes w) -> turn_ok t ->
  exists w' at_, writer_turn t w = Ret (w', at_) /\ lanes_good (wl_lanes w') /\ turn_did t w w' at_.
Proof. apply writer_turn_ok. Qed.
End Loop.

(** In any run of turns the writer does not panic and keeps its lanes well
    formed. *)
Lemma writer_loop_safe {Q} `{ArrayQueue Q} `{Digests} `{Ciphers} c m s env (turns : list (@WriterTurn Q)) (w : @WriterLoop Q) :
  is_u 32 s -> (forall n, draw_ok (new_config m s) (draws env n)) -> Forall turn_ok turns -> lanes_good (wl_lanes w) ->
  exists w' at_, writer_loop c m s env turns w = Ret (w', at_) /\ lanes_good (wl_lanes w').
Proof.
  intros Hs Hd Hts. revert w. induction Hts as [|t turns Ht _ IH]; intros w Hl; cbn [writer_loop]; [by eexists _, _|].
  destruct (writer_turn_ok c m s env Hs Hd t w Hl Ht) as (w1 & at_ & -> & Hl1 & _). rbind.
  destruct at_; [by apply IH|by eexists _, _].
Qed.

(** ** A turn *)

Definition idle_lanes : @Lanes ListQueue := mkLanes (packet_channel 4 true) (packet_channel 4 true) (packet_channel 4 true).
Definition demo_loop : @WriterLoop ListQueue := mkWriterLoop demo_writer idle_lanes [] 0.
Definition demo_turn : @WriterTurn ListQueue :=
  mkWriterTurn (Some [1; 2; 3]) (Some example_plain) id id (fun _ => id) CancelSeen false.

Lemma idle_lanes_good : lanes_good idle_lanes.
Proof. split_and!; (split; [by split|constructor]). Qed.

(** A small packet and one of a bulk transfer wait. *)
Definition filled : @PacketQueue ListQueue := fst (try_send (packet_channel 4 true) example_plain).
Definition filled_lanes : @Lanes ListQueue := mkLanes filled (packet_channel 4 true) filled.
Definition filled_loop : @WriterLoop ListQueue := mkWriterLoop demo_writer filled_lanes [] 0.
Definition batch_turn : @WriterTurn ListQueue := mkWriterTurn None None id id (fun _ => id) CancelSeen false.

Lemma filled_lanes_good : lanes_good filled_lanes.
Proof.
  assert (writable example_plain).
  { split; [exact example_plain_ok|]. split; [vm_compute; discriminate|]. split; [vm_compute; discriminate|].
    exists [1; 2; 3]. split; [vm_compute; reflexivity|discriminate]. }
  assert (queue_good filled) by (split; [by split|apply List.Forall_cons; [done|apply List.Forall_nil]]).
  split; [done|]. split; [|done]. split; [by split|apply List.Forall_nil].
Qed.

Lemma writer_turn_exact_witness :
  (exists w' at_ r, writer_turn example_key Video 77 demo_env demo_turn demo_loop = Ret (w', at_)
    /\ at_ = WriterRuns /\ wl_answers w' = [([1; 2; 3], r)] /\ wl_lanes w' = idle_lanes)
  /\ exists w' at_ first l, writer_turn example_key Video 77 demo_env batch_turn filled_loop = Ret (w', at_)
    /\ opens filled_lanes first l /\ first = mkWriterPacket example_plain Small /\ live (bulk l) = [example_plain].
Proof.
  split.
  - destruct (writer_turn_exact example_key Video 77 demo_env ltac:(split; [discriminate|reflexivity]) (fun _ => example_draw_ok Video)
      demo_turn demo_loop idle_lanes_good) as (w' & at_ & E & _ & Hd).
    { by split. }
    inversion Hd as [data r Hwhen Hsent Ha _|? ? ? ? Hwhen|? ? ? ? Hwhen]; subst;
      try (exfalso; destruct Hwhen as [[Hc _]|[[Hc _] _]]; discriminate Hc).
    destruct Hwhen as [[[= <-] Hl]|[[Hc _] _]]; [|discriminate Hc].
    exists w', WriterRuns, r. split; [exact E|]. split; [reflexivity|]. split; [exact Ha|exact Hl].
  - destruct (writer_turn_exact example_key Video 77 demo_env ltac:(split; [discriminate|reflexivity]) (fun _ => example_draw_ok Video)
      batch_turn filled_loop filled_lanes_good) as (w' & at_ & E & _ & Hd).
    { by split. }
    assert (forall P, nothing_live filled_lanes -> P) as Hlive by (intros P Hn; specialize (Hn Small); vm_compute in Hn; discriminate Hn).
    inversion Hd as [? ? Hwhen|first l rest r Hwhen|? ? ? ? Hwhen]; subst.
    + exfalso. destruct Hwhen as [[Hc _]|[(_ & Hn & _) _]]; [discriminate Hc|exact (Hlive _ Hn)].
    + destruct Hwhen as [[_ Ho]|[(_ & Hn & _) _]]; [|exact (Hlive _ Hn)]. change (opens filled_lanes first l) in Ho.
      exists w', (match r with Ok _ => WriterRuns | Err e => WriterReturned (Err e) end), first, l. split; [exact E|]. split; [exact Ho|].
      destruct Ho as (Hbefore & Hfirst & Hothers). destruct first as [p []]; cbn [w_class w_packet] in *.
      * split; [|exact (Hothers Bulk ltac:(discriminate))]. change (live filled) with [example_plain] in Hfirst. injection Hfirst as <- _. reflexivity.
      * discriminate Hfirst.
      * apply List.Forall_inv in Hbefore. discriminate Hbefore.
    + exfalso. destruct Hwhen as [(_ & Hn & _)|[(_ & Hn & _) _]]; exact (Hlive _ Hn).
Defined.
