(* ===== verification/Resequence.v ===== *)
(** * Resequence: what the reassembler promises of a flow without losses

    A stronger specification of the reassembler of [shared/flow_frame.rs] than
    the one that holds of every push: as long as no packet of a flow overtakes
    another by 12 ms or by more than 96 packets, it is a resequencer, which
    gives the values of the flow in the order of their sequence numbers,
    whatever the order of their arrival. The segments that the sender frames
    ([frame_outbound_packet] of [dispatcher.rs]) come out of the return path
    ([ReturnReorder]) whole and in order. *)

From S2P Require Import Prelude Bytes FlowFrame PacketPool ReturnPath.

(** ** Arrivals *)

(** A packet by its place in the flow, and when it arrives, in milliseconds. *)
Abbreviation Arrival := (Z * Z)%type.

(** What a packet may find when it arrives: nothing that came later, no packet
    behind it in the flow that has been there for 12 ms, and at most 96 of them. *)
Definition mild_at (before : list Arrival) (a : Arrival) : Prop :=
  Forall (fun b => 0 <= snd b <= snd a) before
  /\ Forall (fun b => fst a < fst b -> snd a - snd b < GAP_RELEASE_AFTER_MS) before
  /\ zlen (List.filter (fun b => fst a <? fst b) before) <= MAX_PENDING_PER_FLOW.

Fixpoint mild (before l : list Arrival) : Prop :=
  match l with
  | [] => True
  | a :: l => 0 <= snd a /\ mild_at before a /\ mild (before ++ [a]) l
  end.

Lemma mild_split before l1 a l2 : mild before (l1 ++ a :: l2) -> mild_at (before ++ l1) a.
Proof.
  revert before. induction l1 as [|b l1 IH]; intros before; cbn [app mild].
  - intros (_ & Ha & _). by rewrite app_nil_r.
  - intros (_ & _ & Hm). apply IH in Hm. by rewrite <- app_assoc in Hm.
Qed.

Section Resequence.
Context {T : Type} (v : Z -> T).
Implicit Types (state : FlowState T) (output : list T).

Definition pend (s : Z) : Pending T := mkPending s (v s).

(** [drain_loop] takes the successors of the expected packet. *)
Lemma drain_takes fuel state output :
  0 <= expected state -> Forall (fun p => p_sequence p < 2 ^ 32 - 1) (pending state) ->
  exists state' rp, drain_loop fuel state output = (state', output ++ (p_value <$> rp))
    /\ pending state ≡ₚ rp ++ pending state'
    /\ p_sequence <$> rp = seqZ (expected state) (zlen rp) /\ expected state' = expected state + zlen rp
    /\ gap_started_ms state' = gap_started_ms state
    /\ ((length (pending state) <= fuel)%nat -> drained state').
Proof.
  revert state output. induction fuel as [|fuel IH]; intros state output He Hall; cbn [drain_loop].
  { exists state, []. rewrite app_nil_r, zlen_nil, Z.add_0_r. split_and!; try done.
    intros Hl p Hp. destruct (pending state); [by apply not_elem_of_nil in Hp|simpl in Hl; lia]. }
  destruct (position _ (pending state)) as [i|] eqn:Hpos.
  2:{ exists state, []. rewrite app_nil_r, zlen_nil, Z.add_0_r. split_and!; try done.
      intros _ p Hp. apply (position_None _ _ Hpos) in Hp. by apply Z.eqb_neq in Hp. }
  destruct (position_Some _ _ _ Hpos) as (p & Hi & Hp & _). rewrite Hi. apply Z.eqb_eq in Hp.
  pose proof (swap_remove_perm i _ _ Hi) as Hperm. pose proof (swap_remove_length i _ _ Hi) as Hlen.
  assert (Hs : p_sequence p < 2 ^ 32 - 1) by (rewrite Forall_forall in Hall; apply Hall; by eapply list_elem_of_lookup_2).
  assert (Hn : wrapping_add 32 (expected state) 1 = expected state + 1) by (unfold wrapping_add; apply wrap_small; unfold is_u; lia).
  rewrite Hn. set (state1 := mkFlowState _ _ _).
  destruct (IH state1 (output ++ [p_value p])) as (state' & rp & -> & Hrel & Hseq & Hexp & Hgap & Hd); [unfold state1; cbn; lia| |].
  { rewrite Hperm in Hall. by apply Forall_cons in Hall as [_ Hall]. }
  exists state', (p :: rp). cbn [fmap list_fmap]. rewrite zlen_cons. pose proof (zlen_nonneg rp). split_and!; try done.
  - by rewrite <- app_assoc.
  - rewrite Hperm. cbn [app]. by rewrite <- Hrel.
  - rewrite seqZ_cons by lia. f_equal; [done|]. rewrite Hseq. unfold state1. cbn. f_equal; lia.
  - rewrite Hexp. unfold state1. cbn. lia.
  - intros Hl. apply Hd. unfold state1. cbn. lia.
Qed.

(** *** The state of a flow after some arrivals *)

Record after (n : Z) (done : list Arrival) (out0 : list T) (state : FlowState T) (out : list T) : Prop := {
  af_next : 0 <= expected state <= n;
  af_past : forall i, 0 <= i < expected state -> i ∈ fst <$> done;
  af_fresh : expected state ∉ fst <$> done;
  af_nodup : NoDup (p_sequence <$> pending state);
  af_pending : forall p, p ∈ pending state <-> exists i, p = pend i /\ i ∈ fst <$> done /\ expected state < i;
  af_out : out = out0 ++ (v <$> seqZ 0 (expected state));
  af_gap : forall g, gap_started_ms state = Some g -> exists j, (j, g) ∈ done /\ expected state < j;
}.

Lemma after_start n out : 0 <= n -> after n [] out empty_state out.
Proof.
  intros Hn. split; cbn; try done; try lia; [by apply not_elem_of_nil|constructor| |by rewrite app_nil_r].
  intros p. split; [intros Hp|intros (i & _ & Hp & _)]; by apply not_elem_of_nil in Hp.
Qed.

(** What is pending has overtaken every packet that is still to come. *)
Lemma pending_overtook n done out0 state out i :
  after n done out0 state out -> i <= expected state ->
  (length (pending state) <= length (List.filter (fun b : Arrival => (i <? fst b)%Z) done))%nat.
Proof.
  intros H Hi. rewrite <- (length_fmap p_sequence), <- (length_map fst (List.filter (fun b : Arrival => i <? fst b) done)).
  apply NoDup_incl_length; [apply NoDup_ListNoDup, (af_nodup _ _ _ _ _ H)|]. intros x Hx%list_elem_of_In.
  apply list_elem_of_fmap in Hx as (p & -> & Hp). apply (af_pending _ _ _ _ _ H) in Hp as (j & -> & Hj & Hlt).
  apply list_elem_of_fmap in Hj as ([k t] & -> & Hj). cbn in *. apply in_map_iff. exists (k, t). split; [done|].
  apply filter_In. split; [by apply list_elem_of_In|]. cbn. lia.
Qed.

(** The gap is younger than 12 ms as long as the expected packet is to come. *)
Lemma gap_young n done out0 state out s t l :
  after n done out0 state out -> mild done ((s, t) :: l) -> expected state ∈ fst <$> (s, t) :: l -> gap_expired state t = false.
Proof.
  intros H Hm Hin. unfold gap_expired. destruct (gap_started_ms state) as [g|] eqn:Eg; [|done].
  destruct (af_gap _ _ _ _ _ H g Eg) as (j & Hj & Hlt).
  apply list_elem_of_fmap in Hin as ([e te] & He & Hin). cbn in He. subst e.
  apply list_elem_of_split in Hin as (l1 & l2 & Hl). rewrite Hl in Hm. destruct (mild_split _ _ _ _ Hm) as (Hord & Hyoung & _).
  rewrite Forall_app in Hord, Hyoung. destruct Hord as [Hord Hord'], Hyoung as [Hyoung _].
  rewrite Forall_forall in Hyoung. specialize (Hyoung _ Hj Hlt). cbn in Hyoung.
  assert (Ht : t <= te). { destruct l1 as [|b l1]; [by injection Hl as _ -> _|]. injection Hl as <- _. apply Forall_cons in Hord' as [Hb _]. cbn in Hb. lia. }
  apply Z.leb_gt. unfold saturating_sub, GAP_RELEASE_AFTER_MS in *. lia.
Qed.

Lemma elem_snoc i (done : list Arrival) s t : i ∈ fst <$> (done ++ [(s, t)]) <-> i ∈ fst <$> done \/ i = s.
Proof. rewrite fmap_app, elem_of_app. cbn. by rewrite list_elem_of_singleton. Qed.

(** The expected packet leaves with the successors that wait for it. *)
Lemma after_expected n done out0 state out t g :
  after n done out0 state out -> n <= 2 ^ 31 -> expected state < n -> Forall (fun i => 0 <= i < n) (fst <$> done) ->
  let '(state', out') := drain_contiguous (mkFlowState (wrapping_add 32 (expected state) 1) g (pending state)) (out ++ [v (expected state)]) in
  (g = None -> after n (done ++ [(expected state, t)]) out0 state' out') /\ (length (pending state') <= length (pending state))%nat.
Proof.
  intros H Hn Hlt Hall. pose proof (af_next _ _ _ _ _ H) as He.
  assert (Hw : wrapping_add 32 (expected state) 1 = expected state + 1) by (unfold wrapping_add; apply wrap_small; unfold is_u; lia). rewrite Hw.
  assert (Hp : forall p, p ∈ pending state -> expected state < p_sequence p < n /\ p_value p = v (p_sequence p)).
  { intros p (i & -> & Hi & Hei)%(af_pending _ _ _ _ _ H). rewrite Forall_forall in Hall. specialize (Hall i Hi). by split; [cbn; lia|]. }
  unfold drain_contiguous. set (state1 := mkFlowState _ g _).
  destruct (drain_takes (length (pending state1)) state1 (out ++ [v (expected state)])) as (state' & rp & -> & Hperm & Hseq & Hexp & Hgap & Hdr).
  { unfold state1. cbn. lia. }
  { apply Forall_forall. intros p Hp'. apply Hp in Hp'. lia. }
  unfold state1 in *. cbn [expected pending gap_started_ms] in *. specialize (Hdr ltac:(lia)).
  pose proof (zlen_nonneg rp) as Hrp0. pose proof (af_nodup _ _ _ _ _ H) as Hnd. rewrite Hperm, fmap_app in Hnd.
  apply NoDup_app in Hnd as (_ & Hdis & Hnd').
  assert (Hin : forall p, p ∈ rp -> p ∈ pending state) by (intros p Hp'; rewrite Hperm; apply elem_of_app; by left).
  assert (Hin' : forall p, p ∈ pending state' -> p ∈ pending state) by (intros p Hp'; rewrite Hperm; apply elem_of_app; by right).
  assert (Hrp : forall i, i ∈ p_sequence <$> rp <-> expected state + 1 <= i < expected state + 1 + zlen rp).
  { intros i. rewrite Hseq, elem_of_seqZ. lia. }
  split; [|rewrite Hperm, length_app; lia]. intros Hg. split.
  - rewrite Hexp. split; [lia|]. destruct (decide (zlen rp = 0)); [lia|].
    assert (expected state + zlen rp ∈ p_sequence <$> rp) as Hl by (apply Hrp; lia).
    apply list_elem_of_fmap in Hl as (p & Hl & Hp'). apply Hin, Hp in Hp'. lia.
  - intros i Hi. apply elem_snoc. destruct (decide (i < expected state)); [left; apply (af_past _ _ _ _ _ H); lia|].
    destruct (decide (i = expected state)); [by right|]. left. assert (i ∈ p_sequence <$> rp) as Hl by (apply Hrp; lia).
    apply list_elem_of_fmap in Hl as (p & -> & Hp'). by apply Hin, (af_pending _ _ _ _ _ H) in Hp' as (j & -> & Hj & _).
  - intros [Hi|Hi]%elem_snoc; [|lia]. assert (pend (expected state') ∈ pending state) as Hl by (apply (af_pending _ _ _ _ _ H); exists (expected state'); split_and!; [done|done|lia]).
    rewrite Hperm in Hl. apply elem_of_app in Hl as [Hl|Hl]; [|by apply (Hdr _ Hl)].
    assert (expected state' ∈ p_sequence <$> rp) as Hx by (apply list_elem_of_fmap; by exists (pend (expected state'))). apply Hrp in Hx. lia.
  - done.
  - intros p. split.
    + intros Hp'. pose proof (Hin' p Hp') as Hp2. apply (af_pending _ _ _ _ _ H) in Hp2 as (i & -> & Hi & Hei). exists i. split; [done|].
      split; [apply elem_snoc; by left|]. pose proof (Hdr _ Hp') as Hne. cbn in Hne.
      assert (i ∉ p_sequence <$> rp) as Hx by (intros Hx; apply (Hdis i Hx), list_elem_of_fmap; by exists (pend i)). rewrite Hrp in Hx. lia.
    + intros (i & -> & [Hi|Hi]%elem_snoc & Hei); [|lia].
      assert (pend i ∈ pending state) as Hl by (apply (af_pending _ _ _ _ _ H); exists i; split_and!; [done|done|lia]).
      rewrite Hperm in Hl. apply elem_of_app in Hl as [Hl|Hl]; [|done].
      assert (i ∈ p_sequence <$> rp) as Hx by (apply list_elem_of_fmap; by exists (pend i)). apply Hrp in Hx. lia.
  - rewrite (af_out _ _ _ _ _ H), Hexp. replace (expected state + 1 + zlen rp) with (expected state + (1 + zlen rp)) by lia.
    rewrite seqZ_app, fmap_app by lia. rewrite (seqZ_cons (0 + expected state)) by lia. rewrite <- !app_assoc. f_equal. f_equal. cbn. f_equal.
    replace (Z.pred (1 + zlen rp)) with (zlen rp) by lia. replace (Z.succ (0 + expected state)) with (expected state + 1) by lia.
    rewrite <- Hseq, <- list_fmap_compose. apply list_fmap_ext. intros k p Hk%list_elem_of_lookup_2. by apply Hin, Hp in Hk as [_ ->].
  - intros g' Hg'. rewrite Hgap, Hg in Hg'. done.
Qed.

(** There is room for one more as long as the expected packet is to come. *)
Lemma pending_below n done out0 state out s t l :
  after n done out0 state out -> mild done ((s, t) :: l) -> expected state ∈ fst <$> (s, t) :: l -> expected state < s ->
  zlen (pending state) < MAX_PENDING_PER_FLOW.
Proof.
  intros H Hm Hin Hlt. apply list_elem_of_fmap in Hin as ([e te] & He & Hin). cbn in He. subst e.
  apply list_elem_of_split in Hin as (l1 & l2 & Hl). rewrite Hl in Hm. destruct (mild_split _ _ _ _ Hm) as (_ & _ & Hcount).
  destruct l1 as [|b l1]; [injection Hl as Hs _ _; lia|]. injection Hl as Hb _. subst b.
  pose proof (pending_overtook n done out0 state out (expected state) H ltac:(lia)) as Hp.
  rewrite List.filter_app in Hcount. cbn [List.filter fst] in Hcount. destruct (Z.ltb_spec (expected state) s); [|lia].
  unfold zlen in *. rewrite length_app in Hcount. cbn [length] in Hcount. lia.
Qed.

(** A packet behind the expected one waits. *)
Lemma push_pending_mild n done out0 state out other s t l :
  after n done out0 state out -> mild done ((s, t) :: l) -> expected state < s -> s ∉ fst <$> done ->
  gap_expired state t = false -> 0 <= other -> other + zlen (pending state) < MAX_PENDING_TOTAL ->
  exists state' out', push_pending state (other + zlen (pending state)) s (v s) t out = (state', other + zlen (pending state'), out')
    /\ after n (done ++ [(s, t)]) out0 state' out'.
Proof.
  intros H Hm Hlt Hnd Hyoung Hother Hroom. pose proof (af_next _ _ _ _ _ H) as He. unfold push_pending.
  set (state1 := mkFlowState (expected state) (gap_started_ms state) _).
  destruct (Z.ltb_spec MAX_PENDING_TOTAL (other + zlen (pending state) + 1)); [lia|].
  set (state2 := match gap_started_ms state1 with None => _ | Some _ => state1 end).
  assert (E2 : expected state2 = expected state /\ pending state2 = pending state ++ [pend s]
    /\ gap_started_ms state2 = match gap_started_ms state with None => Some t | g => g end)
    by (unfold state2, state1; cbn; by destruct (gap_started_ms state)).
  destruct E2 as (E2 & E3 & E4).
  assert (Hy : gap_expired state2 t = false).
  { unfold gap_expired in *. rewrite E4. destruct (gap_started_ms state); [done|].
    apply Z.leb_gt. unfold saturating_sub, GAP_RELEASE_AFTER_MS. lia. }
  unfold release_expired. rewrite Hy. rewrite (account_releases state2 state2 []) by (apply releases_refl || (rewrite E3, zlen_app; change (zlen [pend s]) with 1; destruct Hm as [Ht _]; lia)).
  exists state2, out. split; [rewrite E3, zlen_nil, zlen_app; change (zlen [pend s]) with 1; f_equal; f_equal; lia|].
  destruct H as [Hn1 Hn2 Hn3 Hn4 Hn5 Hn6 Hn7]. split; rewrite ?E2, ?E3; try done.
  - intros i Hi. apply elem_snoc. left. by apply Hn2.
  - intros [Hi|Hi]%elem_snoc; [done|lia].
  - rewrite fmap_app. apply NoDup_app. split; [done|]. split; [|apply NoDup_singleton].
    intros i Hi. cbn. rewrite list_elem_of_singleton. intros ->. apply Hnd.
    apply list_elem_of_fmap in Hi as (p & -> & (i & -> & Hi & _)%Hn5). done.
  - intros p. rewrite elem_of_app, list_elem_of_singleton, Hn5. split.
    + intros [(i & -> & Hi & Hei)| ->]; [exists i; split_and!; try done; apply elem_snoc; by left|].
      exists s. split_and!; [done|apply elem_snoc; by right|done].
    + intros (i & -> & [Hi| ->]%elem_snoc & Hei); [left; by exists i|by right].
  - rewrite E4. intros g Hg. destruct (gap_started_ms state) as [g0|] eqn:Eg; simplify_eq.
    + destruct (Hn7 _ eq_refl) as (j & Hj & Hlj). exists j. split; [apply elem_of_app; by left|done].
    + exists s. split; [apply elem_of_app; right; by apply list_elem_of_singleton|done].
Qed.

(** One push of a mild flow. [other] is what other flows have pending. *)
Lemma push_mild n done out0 state out other s t l :
  after n done out0 state out -> n <= 2 ^ 31 -> mild done ((s, t) :: l) ->
  fst <$> (done ++ (s, t) :: l) ≡ₚ seqZ 0 n -> 0 <= other -> other + MAX_PENDING_PER_FLOW <= MAX_PENDING_TOTAL ->
  exists state' out', push_state state (other + zlen (pending state)) s (v s) t out = (state', other + zlen (pending state'), out')
    /\ after n (done ++ [(s, t)]) out0 state' out'.
Proof.
  intros H Hn Hm Hperm Ho Hroom. pose proof (af_next _ _ _ _ _ H) as He.
  assert (Hall : forall i, i ∈ fst <$> (done ++ (s, t) :: l) <-> 0 <= i < n) by (intros i; rewrite Hperm, elem_of_seqZ; lia).
  rewrite fmap_app in Hall, Hperm. cbn [fmap list_fmap fst] in Hall, Hperm.
  assert (Hnd : s ∉ fst <$> done).
  { assert (NoDup ((fst <$> done) ++ s :: (fst <$> l))) as Hx by (rewrite Hperm; apply NoDup_seqZ). apply NoDup_app in Hx as (_ & Hx & _).
    intros Hs. apply (Hx s Hs). by constructor. }
  assert (Hs : 0 <= s < n) by (apply Hall, elem_of_app; right; by constructor).
  assert (Hdone : Forall (fun i => 0 <= i < n) (fst <$> done)) by (apply Forall_forall; intros i Hi; apply Hall, elem_of_app; by left).
  assert (Hlt : expected state <= s).
  { destruct (decide (expected state <= s)); [done|]. destruct Hnd. apply (af_past _ _ _ _ _ H). lia. }
  assert (Hyoung : gap_expired state t = false).
  { eapply gap_young; [done..|]. assert (expected state ∈ (fst <$> done) ++ s :: (fst <$> l)) as Hx by (apply Hall; lia).
    apply elem_of_app in Hx as [Hx|Hx]; [by destruct (af_fresh _ _ _ _ _ H)|done]. }
  unfold push_state. unfold release_expired at 1. rewrite Hyoung. rewrite (account_releases state state []) by (apply releases_refl || lia).
  rewrite zlen_nil, Z.sub_0_r. destruct (Z.eqb_spec s (expected state)) as [->|Hne].
  - pose proof (after_expected n done out0 state out t None H Hn ltac:(lia) Hdone) as Hd.
    destruct (drain_contiguous _ _) as [state' out']. destruct Hd as [Hd Hl]. exists state', out'. split; [|by apply Hd].
    f_equal. f_equal. unfold account, saturating_sub. cbn [pending]. pose proof (zlen_nonneg (pending state')). unfold zlen in *. lia.
  - assert (Hf : is_forward s (expected state) = true).
    { unfold is_forward, wrapping_sub. apply andb_true_iff. split; [by apply negb_true_iff, Z.eqb_neq|]. rewrite wrap_small by (unfold is_u; lia). lia. }
    assert (Hx : existsb (fun p => p_sequence p =? s) (pending state) = false).
    { destruct (existsb _ _) eqn:Ex; [|done]. apply existsb_exists in Ex as (p & Hp%list_elem_of_In & Hps%Z.eqb_eq).
      apply (af_pending _ _ _ _ _ H) in Hp as (i & -> & Hi & _). cbn in Hps. by subst. }
    assert (He' : expected state ∈ fst <$> (s, t) :: l).
    { assert (expected state ∈ (fst <$> done) ++ s :: (fst <$> l)) as Hy by (apply Hall; lia).
      apply elem_of_app in Hy as [Hy|Hy]; [by destruct (af_fresh _ _ _ _ _ H)|done]. }
    pose proof (pending_below n done out0 state out s t l H Hm He' ltac:(lia)) as Hless.
    rewrite Hf, Hx. cbn [negb orb].
    destruct (Z.eqb_spec (zlen (pending state)) MAX_PENDING_PER_FLOW); [lia|].
    destruct (Z.eqb_spec (other + zlen (pending state)) MAX_PENDING_TOTAL); [lia|]. cbn [andb].
    eapply push_pending_mild; try done; lia.
Qed.

(** *** A whole run *)

(** The packets of one flow pushed in the order of their arrival. *)
Fixpoint push_run (sender flow : Z) (l : list Arrival) (r : FlowReassembler T) (output : list T) : FlowReassembler T * list T :=
  match l with
  | [] => (r, output)
  | (s, t) :: l => let '(r, output) := push_at r (mkFrameHeader sender flow s) (v s) t output in push_run sender flow l r output
  end.

(** Room for one more flow, and for all that it may have pending. *)
Definition room_for (key : ReassemblyKey) (r : FlowReassembler T) : Prop :=
  flows r !! key = None /\ Z.of_nat (size (flows r)) < MAX_TRACKED_FLOWS
  /\ 0 <= pending_total r /\ pending_total r + MAX_PENDING_PER_FLOW <= MAX_PENDING_TOTAL.

(** The step of [push_mild] lifted to runs. *)
Lemma push_run_after n sender flow l other : n <= 2 ^ 31 -> 0 <= other -> other + MAX_PENDING_PER_FLOW <= MAX_PENDING_TOTAL ->
  forall done out0 state out r,
  let key := mkReassemblyKey sender flow in
  after n done out0 state out -> mild done l -> fst <$> (done ++ l) ≡ₚ seqZ 0 n ->
  is_Some (flows r !! key) \/ Z.of_nat (size (flows r)) < MAX_TRACKED_FLOWS ->
  default empty_state (flows r !! key) = state -> pending_total r = other + zlen (pending state) ->
  exists state' out', after n (done ++ l) out0 state' out'
    /\ let '(r', out'') := push_run sender flow l r out in
       out'' = out' /\ default empty_state (flows r' !! key) = state'
       /\ r' = match l with [] => r | _ => mkFlowReassembler (<[key := state']> (flows r)) (other + zlen (pending state')) end.
Proof.
  intros Hn Ho Hroom. induction l as [|[s t] l IH]; intros done out0 state out r key H Hm Hperm Hkeys Hst Htot; cbn [push_run].
  { exists state, out. by rewrite app_nil_r. }
  destruct (push_mild n done out0 state out other s t l H Hn Hm Hperm Ho Hroom) as (state1 & out1 & Hpush & H1).
  rewrite push_at_unfold. cbn [sender_id flow_id sequence]. fold key. cbv zeta. unfold make_flow_room.
  assert (((Z.of_nat (size (flows r)) =? MAX_TRACKED_FLOWS) && negb (bool_decide (is_Some (flows r !! key)))) = false) as ->.
  { destruct Hkeys as [Hk|Hk]; [rewrite bool_decide_eq_true_2 by done; apply andb_false_r|]. apply andb_false_iff. left. lia. }
  rewrite Hst, Htot, Hpush. set (r1 := mkFlowReassembler _ _).
  assert (Hk1 : flows r1 !! key = Some state1) by (unfold r1; cbn; apply lookup_insert_eq).
  destruct (IH (done ++ [(s, t)]) out0 state1 out1 r1) as (state' & out' & H' & Hrun); fold key; rewrite <- ?app_assoc; rewrite ?Hk1; try done.
  { by destruct Hm as (_ & _ & Hm). }
  { left. done. }
  rewrite <- app_assoc in H'. exists state', out'. split; [done|]. fold key in Hrun.
  destruct (push_run _ _ _ _ _) as [r' out''] eqn:Er. destruct Hrun as (-> & Hdef & Hr'). split; [done|]. split; [done|]. rewrite Hr'.
  destruct l as [|a l]; [|by unfold r1; cbn; rewrite insert_insert_eq].
  rewrite Hr', Hk1 in Hdef. cbn in Hdef. by subst state1.
Qed.

(** After all packets of a flow nothing of it is pending. *)
Lemma after_all n done out0 state out :
  after n done out0 state out -> fst <$> done ≡ₚ seqZ 0 n -> expected state = n /\ pending state = [] /\ out = out0 ++ (v <$> seqZ 0 n).
Proof.
  intros H Hperm. pose proof (af_next _ _ _ _ _ H) as He.
  assert (expected state = n) as En.
  { destruct (decide (expected state = n)); [done|]. destruct (af_fresh _ _ _ _ _ H). rewrite Hperm, elem_of_seqZ. lia. }
  split; [done|]. split; [|rewrite (af_out _ _ _ _ _ H); by rewrite En].
  destruct (pending state) as [|p ps] eqn:Ep; [done|].
  assert (p ∈ pending state) as (i & _ & Hi & Hlt)%(af_pending _ _ _ _ _ H) by (rewrite Ep; by constructor).
  rewrite Hperm, elem_of_seqZ in Hi. lia.
Qed.

(** A whole flow: whatever the order of its packets. *)
Lemma flow_resequenced sender flow n l r output :
  let key := mkReassemblyKey sender flow in
  0 < n <= 2 ^ 31 -> room_for key r -> fst <$> l ≡ₚ seqZ 0 n -> mild [] l ->
  push_run sender flow l r output
  = (mkFlowReassembler (<[key := mkFlowState n None []]> (flows r)) (pending_total r), output ++ (v <$> seqZ 0 n)).
Proof.
  intros key Hn (Hk & Hsize & H0 & Hroom) Hperm Hm.
  destruct (push_run_after n sender flow l (pending_total r) ltac:(lia) H0 Hroom [] output empty_state output r) as (state' & out' & H & Hrun);
    [apply after_start; lia|done|done|by right|fold key; by rewrite Hk|cbn; rewrite zlen_nil; lia|]. fold key in Hrun.
  destruct (push_run _ _ _ _ _) as [r' out'']. destruct Hrun as (-> & _ & ->).
  destruct (after_all _ _ _ _ _ H Hperm) as (He & Hp & ->). f_equal.
  destruct l as [|a l]; [apply Permutation_length in Hperm; rewrite length_seqZ in Hperm; cbn in Hperm; lia|].
  rewrite Hp, zlen_nil, Z.add_0_r. do 2 f_equal. destruct state' as [e g pd]. cbn in *. subst. f_equal.
  destruct g as [g|]; [|done]. destruct (af_gap _ _ _ _ _ H g eq_refl) as (j & Hj & Hlt). cbn in Hlt.
  assert (j ∈ fst <$> a :: l) as Hj' by (apply list_elem_of_fmap; by exists (j, g)). rewrite Hperm, elem_of_seqZ in Hj'. lia.
Qed.
End Resequence.

(** ** The two ends of the return path *)

(** What the sender does to the packets it sends, in this order. *)
Fixpoint frame_all (sequences : FlowSequencer) (packets : list PacketBuf) : res (FlowSequencer * list PacketBuf) :=
  match packets with
  | [] => Ret (sequences, [])
  | packet :: packets =>
      framed ← frame_outbound_packet sequences packet;
      let '(_, sequences, packet) := framed in
      rest ← frame_all sequences packets;
      Ret (fst rest, packet :: snd rest)
  end.

(** The framed packets handed to the return path in the order of their arrival. *)
Fixpoint arrive (framed : list PacketBuf) (l : list Arrival) (r : ReturnReorder) : res ReturnReorder :=
  match l with
  | [] => Ret r
  | (s, t) :: l =>
      letelse packet := framed !! Z.to_nat s else Panic in
      r ← reorder_push t r packet;
      arrive framed l r
  end.

(** A packet of the flow in a buffer with room for a header. *)
Definition segment_of (flow : Z) (packet : PacketBuf) (body : bytes) : Prop :=
  buf_ok packet /\ FRAME_LEN <= range_start packet /\ as_slice packet = Ret body /\ tcp_flow_id body = Ret (Some flow).

(** [next_for] in a sequencer with room. *)
Lemma next_for_room s flow :
  is_Some (sequences s !! flow) \/ Z.of_nat (size (sequences s)) < MAX_TRACKED_FLOWS ->
  next_for s flow = (mkFrameHeader (fs_sender_id s) flow (default 0 (sequences s !! flow)),
    mkFlowSequencer (fs_sender_id s) (<[flow := wrapping_add 32 (default 0 (sequences s !! flow)) 1]> (sequences s))).
Proof.
  intros Hk. unfold next_for.
  assert (((Z.of_nat (size (sequences s)) =? MAX_TRACKED_FLOWS) && negb (bool_decide (is_Some (sequences s !! flow)))) = false) as ->; [|done].
  destruct Hk as [Hk|Hk]; [rewrite bool_decide_eq_true_2 by done; apply andb_false_r|]. apply andb_false_iff. left. lia.
Qed.

(** What the return path sees of a framed packet. *)
Definition carries (h : FrameHeader) (q q' : PacketBuf) : Prop :=
  forall now r, reorder_push now r q = Ret (let '(re, rd) := push_at (reassembler r) h q' now (ready r) in mkReorder re rd).

Lemma frame_all_headers flow packets : forall bodies s k,
  sequencer_ok s -> is_Some (sequences s !! flow) \/ Z.of_nat (size (sequences s)) < MAX_TRACKED_FLOWS ->
  default 0 (sequences s !! flow) = k -> 0 <= k -> k + zlen packets < 2 ^ 32 ->
  Forall2 (segment_of flow) packets bodies ->
  exists s' framed qs, frame_all s packets = Ret (s', framed)
    /\ Forall2 (fun q body => as_slice q = Ret body) qs bodies
    /\ length framed = length packets
    /\ forall i q q', framed !! i = Some q -> qs !! i = Some q' -> carries (mkFrameHeader (fs_sender_id s) flow (k + Z.of_nat i)) q q'.
Proof.
  induction packets as [|p packets IH]; intros bodies s k Hs Hkeys Hdef Hk Hlen Hseg; cbn [frame_all].
  { apply Forall2_nil_inv_l in Hseg as ->. exists s, [], []. split; [done|]. split; [by constructor|]. by split. }
  apply Forall2_cons_inv_l in Hseg as (body & bodies' & (Hok & Hroom & Hbody & Hflow) & Hseg & ->).
  destruct (frame_survives s p body Hs Hok Hbody Hroom) as (s1 & q & Hf & Hs1 & _ & Hm). rewrite Hflow in Hm.
  destruct Hm as (_ & q' & Hq' & Hpush). rewrite (next_for_room s flow Hkeys), Hdef in Hpush. cbn [fst] in Hpush.
  assert (s1 = snd (next_for s flow)) as E1.
  { unfold frame_outbound_packet in Hf. rewrite Hbody in Hf. cbn [mbind res_bind mret res_ret] in Hf. unfold FlowFrame.next in Hf. rewrite Hflow in Hf. cbn [mbind res_bind mret res_ret] in Hf.
    destruct (next_for s flow) as [h s2]. cbn [mbind res_bind mret res_ret snd] in *. destruct (prepend p FRAME_LEN); [|by injection Hf].
    apply bind_ret_inv in Hf as (y & _ & Hf). apply bind_ret_inv in Hf as (z & _ & Hf). apply bind_ret_inv in Hf as (x & _ & Hf). by injection Hf. }
  rewrite (next_for_room s flow Hkeys), Hdef in E1. cbn [snd] in E1. rewrite zlen_cons in Hlen. pose proof (zlen_nonneg packets).
  assert (wrapping_add 32 k 1 = k + 1) as Hw by (unfold wrapping_add; apply wrap_small; unfold is_u; lia). rewrite Hw in E1.
  destruct (IH bodies' s1 (k + 1)) as (s' & framed & qs & Hall & Hqs & Hl & Hc); try done; try lia.
  { left. rewrite E1. cbn. rewrite lookup_insert_eq. done. }
  { rewrite E1. cbn. by rewrite lookup_insert_eq. }
  assert (fs_sender_id s1 = fs_sender_id s) as Eid by (by rewrite E1). clear E1.
  rewrite Hf. rbind. rewrite Hall. rbind. exists s', (q :: framed), (q' :: qs). split; [done|]. split; [by constructor|]. split; [cbn; by rewrite Hl|].
  intros [|i] x x'; cbn; intros Hx Hx'; simplify_eq.
  - rewrite Z.add_0_r. exact Hpush.
  - specialize (Hc i x x' Hx Hx'). rewrite Eid in Hc.
    match goal with |- carries (mkFrameHeader _ _ ?e) _ _ => match type of Hc with carries (mkFrameHeader _ _ ?e') _ _ => by replace e with e' by lia end end.
Qed.

(** Arrivals are pushes of the values that the packets carry. *)
Lemma arrive_pushes sender flow framed (v : Z -> PacketBuf) l : forall r,
  (forall s t, (s, t) ∈ l -> exists q, framed !! Z.to_nat s = Some q /\ carries (mkFrameHeader sender flow s) q (v s)) ->
  arrive framed l r = Ret (let '(re, rd) := push_run v sender flow l (reassembler r) (ready r) in mkReorder re rd).
Proof.
  induction l as [|[s t] l IH]; intros r Hl; cbn [arrive push_run]; [by destruct r|].
  destruct (Hl s t) as (q & -> & Hq); [by constructor|]. rewrite Hq. rbind.
  destruct (push_at _ _ _ _ _) as [re rd]. rewrite IH; [done|]. intros s' t' Hin. apply (Hl s' t'). by constructor.
Qed.

(** C4: The tunnel restores a TCP flow. Segments of one flow that the sender
    frames, one after the other, from the flow's first on, may arrive in any
    order: as long as no segment is overtaken by 12 ms or by more than 96
    others, and the receiver has room for the flow, the return path has
    all segments ready in the order in which they were sent, each
    with its own bytes, and keeps nothing back; what was ready before
    and what other flows have pending stays as it was. *)
Theorem flow_transparent s flow packets bodies l r :
  sequencer_ok s -> sequences s !! flow = None -> Z.of_nat (size (sequences s)) < MAX_TRACKED_FLOWS ->
  0 < zlen packets <= 2 ^ 31 -> Forall2 (segment_of flow) packets bodies ->
  room_for (mkReassemblyKey (fs_sender_id s) flow) (reassembler r) ->
  fst <$> l ≡ₚ seqZ 0 (zlen packets) -> mild [] l ->
  exists s' framed delivered r', frame_all s packets = Ret (s', framed)
    /\ arrive framed l r = Ret r' /\ ready r' = ready r ++ delivered
    /\ Forall2 (fun q body => as_slice q = Ret body) delivered bodies
    /\ pending_total (reassembler r') = pending_total (reassembler r).
Proof.
  intros Hs Hfresh Hsize Hn Hseg Hroom Hperm Hm.
  destruct (frame_all_headers flow packets bodies s 0) as (s' & framed & qs & Hf & Hqs & Hl & Hc);
    [done|by right|by rewrite Hfresh|lia|lia|done|].
  set (d := default (mkPacketBuf [] 0 0) (head qs)). set (v := fun i => default d (qs !! Z.to_nat i)).
  assert (length qs = length packets) as Hlq by (rewrite (Forall2_length _ _ _ Hqs); symmetry; by eapply Forall2_length).
  exists s', framed, (v <$> seqZ 0 (zlen packets)). eexists. split; [done|]. split.
  { apply (arrive_pushes (fs_sender_id s) flow framed v). intros i t Hi.
    assert (i ∈ fst <$> l) as Hi' by (apply list_elem_of_fmap; by exists (i, t)). rewrite Hperm, elem_of_seqZ in Hi'. unfold zlen in Hi'.
    destruct (lookup_lt_is_Some_2 framed (Z.to_nat i)) as [q Hq]; [lia|]. destruct (lookup_lt_is_Some_2 qs (Z.to_nat i)) as [q' Hq']; [lia|].
    exists q. split; [done|]. unfold v. rewrite Hq'. specialize (Hc _ _ _ Hq Hq'). by rewrite Z.add_0_l, Z2Nat.id in Hc by lia. }
  rewrite (flow_resequenced v (fs_sender_id s) flow (zlen packets) l (reassembler r) (ready r) Hn Hroom Hperm Hm). cbn [ready reassembler pending_total].
  split; [done|]. split; [|done].
  assert (v <$> seqZ 0 (zlen packets) = qs) as ->; [|done].
  apply list_eq. intros i. rewrite list_lookup_fmap. destruct (decide (i < length qs)%nat) as [Hi|Hi].
  - rewrite lookup_seqZ_lt by (unfold zlen; lia). destruct (lookup_lt_is_Some_2 qs i Hi) as [q Hq]. cbn. unfold v. by rewrite Z.add_0_l, Nat2Z.id, Hq.
  - rewrite (lookup_ge_None_2 qs) by lia. by rewrite lookup_seqZ_ge by (unfold zlen; lia).
Qed.

Lemma flow_transparent_witness :
  exists flow s' framed delivered r', tcp_flow_id example_segment = Ret (Some flow)
    /\ frame_all (with_sender_id 7) [example_outbound; example_outbound; example_outbound] = Ret (s', framed)
    /\ arrive framed [(2, 100); (0, 105); (1, 111)] new_reorder = Ret r' /\ ready r' = delivered
    /\ Forall2 (fun q body => as_slice q = Ret body) delivered [example_segment; example_segment; example_segment].
Proof.
  destruct (tcp_flow_id example_segment) as [[flow|]|] eqn:E; [|exfalso; vm_compute in E; discriminate E..].
  assert (segment_of flow example_outbound example_segment) as Hseg.
  { split; [split; [vm_compute; reflexivity|unfold PACKET_CAPACITY; simpl; lia]|]. split; [unfold FRAME_LEN; simpl; lia|].
    split; [vm_compute; reflexivity|exact E]. }
  destruct (flow_transparent (with_sender_id 7) flow [example_outbound; example_outbound; example_outbound]
    [example_segment; example_segment; example_segment] [(2, 100); (0, 105); (1, 111)] new_reorder) as (s' & framed & delivered & r' & H1' & H2' & H3' & H4' & _).
  - split; [vm_compute; split; [discriminate|reflexivity]|apply map_Forall_empty].
  - reflexivity.
  - vm_compute. reflexivity.
  - vm_compute. split; [reflexivity|discriminate].
  - repeat (apply List.Forall2_cons; [exact Hseg|]). apply List.Forall2_nil.
  - repeat split; vm_compute; try reflexivity; discriminate.
  - change (fst <$> [(2, 100); (0, 105); (1, 111)]) with ([2; 0; 1] : list Z). change (seqZ 0 _) with ([0; 1; 2] : list Z).
    transitivity ([0; 2; 1] : list Z); [apply Permutation_swap|apply Permutation_skip, Permutation_swap].
  - repeat split; repeat constructor; vm_compute; (discriminate || reflexivity || (intros; discriminate) || idtac).
  - exists flow, s', framed, delivered, r'. split; [reflexivity|]. split; [exact H1'|]. split; [exact H2'|]. split; [exact H3'|exact H4'].
Defined.
