(* ===== verification/Supervise.v ===== *)
(** * Supervise: a worker from its start to its end

    Composes the parts of [worker_loop] of [worker.rs] (Worker, WorkerGates,
    Credentials) into the whole loop, place by place, under
    [supervise_worker], which starts it again after a panic. Between any two
    turns of the worker the other workers of its cohort may report to the
    shared credentials and the host may cancel the engine. Whether an await
    gave way is the stimulus of a turn; that a gate, the pacer or a sleep is left without
    leave only after a cancellation is proved in Waits and WorkerGates. *)

From S2P Require Import Prelude Bytes Text TurnCore TurnEndpoint Credentials WorkerErrors WorkerGates Worker Session.

(** ** The places of a worker *)

(** A session as its worker starts it: the lease whose credentials it uses,
    the place from which it tries the relay's addresses, and whether it asks
    for the configuration. *)
Record Start : Type := mkStart { used : CredentialLease; turn_endpoint_cursor : Z; get_config : bool }.

(** Where [worker_loop] awaits (the gates, a lease, the pacer, the gates once
    more, its session, the sleep at the end of a turn), or where
    [supervise_worker] does after a panic, and the end of both. *)
Inductive WorkerAt : Type :=
| AtGates
| AtLease
| AtPacer (lease : CredentialLease)
| AtGatesAgain (lease : CredentialLease)
| InSession (start : Start)
| Resting
| Restarting
| Left.

(** The worker with what it shares: [endpoint_cursor], the state of its turns,
    the token of the engine and the flag of a configuration request in flight.
    The last three are for the proofs: the sessions it started, the leases it got, gave back
    unused, and lost. *)
Record Life : Type := mkLife {
  place : WorkerAt;
  endpoint_cursor : Z;
  work : WorkerState;
  engine_cancelled : bool;
  config_in_flight : bool;
  starts : list Start;
  obtained : list CredentialLease;
  unused : list CredentialLease;
  lost : list CredentialLease;
}.

Definition set_place (l : Life) (p : WorkerAt) : Life :=
  mkLife p (endpoint_cursor l) (work l) (engine_cancelled l) (config_in_flight l) (starts l) (obtained l) (unused l) (lost l).
Definition set_work (l : Life) (s : WorkerState) : Life :=
  mkLife (place l) (endpoint_cursor l) s (engine_cancelled l) (config_in_flight l) (starts l) (obtained l) (unused l) (lost l).

(** ** What a worker meets *)

Inductive Stimulus : Type :=
| Cancelled                                                (* the host *)
| Others (calls : list CacheCall) (fetches_failed : Z) (call_gone : bool)   (* the rest of the cohort *)
| Passed (go : bool)                                       (* a gate, the pacer or a sleep *)
| Asked (env : GetEnv)                                     (* [get] *)
| Delivered (delivered : bool)                             (* the session completes the request *)
| Ended (env : Surroundings) (e : SessionEnd)
| Panicked.

(** An await that was not let through: only after a cancellation. *)
Definition leave (l : Life) : option Life := if engine_cancelled l then Some (set_place l Left) else None.

(** A worker that is not let through gives its lease back. *)
Definition leave_with (l : Life) (lease : CredentialLease) : option Life :=
  if engine_cancelled l then
    let g := group (work l) in
    let s := set_group (work l) (mkGroup (release (state g) lease) (failures g) (unavailable g)) in
    Some (mkLife Left (endpoint_cursor l) s true (config_in_flight l) (starts l) (obtained l) (unused l ++ [lease]) (lost l))
  else None.

(** [ConfigFlightGuard::acquire], alone. *)
Definition acquire (sent in_flight : bool) : bool * bool :=
  if negb sent && negb in_flight then (true, true) else (false, in_flight).
(** The guard that a session of this worker holds is dropped. *)
Definition drop_guard (l : Life) : bool :=
  match place l with InSession start => config_in_flight l && negb (get_config start) | _ => config_in_flight l end.

Definition start_session (l : Life) (lease : CredentialLease) : Life :=
  let '(get_config, in_flight) := acquire (config_sent (work l)) (config_in_flight l) in
  let start := mkStart lease (endpoint_cursor l) get_config in
  mkLife (InSession start) (wrapping_add 64 (endpoint_cursor l) 1) (work l) (engine_cancelled l) in_flight
    (starts l ++ [start]) (obtained l) (unused l) (lost l).

(** The lease that a worker holds and has not started a session with. *)
Definition holding (p : WorkerAt) : list CredentialLease :=
  match p with AtPacer lease | AtGatesAgain lease => [lease] | _ => [] end.

(** [worker_loop] unwinds; [supervise_worker] starts it again with a new count
    of attempts after a second, unless the engine is cancelled. *)
Definition panics (l : Life) : option Life :=
  match place l with
  | Left | Restarting => None
  | p => Some (mkLife (if engine_cancelled l then Left else Restarting) (endpoint_cursor l) (set_attempt (work l) 0)
                 (engine_cancelled l) (drop_guard l) (starts l) (obtained l) (unused l) (lost l ++ holding p))
  end.

(** A turn of the loop that gets a lease. *)
Definition asks (l : Life) (env : GetEnv) : Life :=
  let turn := mkLeaseTurn (fun g => g) env (engine_cancelled l) in
  let '(r, g) := obtain_lease [turn] (group (work l)) in
  let l := set_work l (set_group (work l) g) in
  match r with
  | None => set_place l Left
  | Some None => l
  | Some (Some lease) =>
      mkLife (AtPacer lease) (endpoint_cursor l) (work l) (engine_cancelled l) (config_in_flight l) (starts l)
        (obtained l ++ [lease]) (unused l) (lost l)
  end.

Definition session_ends (l : Life) (start : Start) (env : Surroundings) (e : SessionEnd) : Life :=
  let in_flight := drop_guard l in
  let '(next, s) := after_session env (used start) e (work l) in
  mkLife (match next with Leave => Left | Again => AtGates | After _ => Resting end) (endpoint_cursor l) s
    (engine_cancelled l) in_flight (starts l) (obtained l) (unused l) (lost l).

Definition passes (l : Life) (go : bool) : option Life :=
  match place l with
  | AtGates => if go then Some (set_place l AtLease) else leave l
  | AtPacer lease => if go then Some (set_place l (AtGatesAgain lease)) else leave_with l lease
  | AtGatesAgain lease => if go then Some (start_session l lease) else leave_with l lease
  | Resting | Restarting => if go then Some (set_place l AtGates) else leave l
  | AtLease | InSession _ | Left => None
  end.

Definition others_act (l : Life) (calls : list CacheCall) (fetches_failed : Z) (call_gone : bool) : Life :=
  let g := group (work l) in
  set_work l (set_group (work l) (mkGroup (run_cache (state g) calls) fetches_failed (unavailable g || call_gone))).

(** One turn; [None] when the worker cannot meet this at its place. *)
Definition life_turn (l : Life) (x : Stimulus) : option Life :=
  match x, place l with
  | Cancelled, p => Some (mkLife p (endpoint_cursor l) (work l) true (config_in_flight l) (starts l) (obtained l) (unused l) (lost l))
  | Others calls n gone, _ => Some (others_act l calls n gone)
  | Passed go, _ => passes l go
  | Asked env, AtLease => Some (asks l env)
  | Delivered delivered, InSession start =>
      if get_config start then
        let s := work l in
        Some (mkLife (place l) (endpoint_cursor l)
                (mkWorkerState (attempt s) (group s) (config_sent s || delivered) (gates s) (notices s))
                (engine_cancelled l) false (starts l) (obtained l) (unused l) (lost l))
      else None
  | Ended env e, InSession start =>
      if implb (cancelled env) (engine_cancelled l) then Some (session_ends l start env e) else None
  | Panicked, _ => panics l
  | (Asked _ | Delivered _ | Ended _ _), _ => None
  end.

Fixpoint life_run (l : Life) (xs : list Stimulus) : option Life :=
  match xs with
  | [] => Some l
  | x :: xs => l ← life_turn l x; life_run l xs
  end.

Definition life_start (s : WorkerState) : Life := mkLife AtGates 0 (set_attempt s 0) false false [] [] [] [].

(** ** What holds all along *)

Record life_ok (l : Life) : Prop := {
  lo_left : place l = Left -> engine_cancelled l = true \/ unavailable (group (work l)) = true;
  lo_cursor : endpoint_cursor l = wrap 64 (zlen (starts l));
  lo_cursors : forall i s, starts l !! i = Some s -> turn_endpoint_cursor s = wrap 64 (Z.of_nat i);
  lo_leases : obtained l ≡ₚ (used <$> starts l) ++ unused l ++ lost l ++ holding (place l);
  lo_session : forall s, place l = InSession s -> last (starts l) = Some s;
}.

Lemma life_start_ok s : life_ok (life_start s).
Proof. split; done. Qed.

(** What does not touch the lists of sessions and leases keeps the invariant. *)
Lemma same_lists_ok l l' :
  life_ok l -> starts l' = starts l -> obtained l' = obtained l -> unused l' = unused l -> lost l' = lost l ->
  endpoint_cursor l' = endpoint_cursor l -> holding (place l') = holding (place l) ->
  (forall st, place l' = InSession st -> place l = InSession st) ->
  (place l' = Left -> engine_cancelled l' = true \/ unavailable (group (work l')) = true) -> life_ok l'.
Proof.
  intros [Hl Hc Hcs Hle Hs] E1 E2 E3 E4 E5 E6 Hi Hleft. split; rewrite ?E1, ?E2, ?E3, ?E4, ?E5, ?E6; try done.
  intros st Hp. by apply Hs, Hi.
Qed.

Lemma leaves_ok l lease l' : life_ok l -> holding (place l) = [lease] -> leave_with l lease = Some l' -> life_ok l'.
Proof.
  intros [Hl Hc Hcs Hle Hs] Hh. unfold leave_with. destruct (engine_cancelled l); [|done]. intros [= <-].
  split; cbn; try done; [by left|]. rewrite Hle, Hh, app_nil_r. apply Permutation_app_head. rewrite <- app_assoc.
  apply Permutation_app_head, Permutation_app_comm.
Qed.

Lemma starts_ok l lease : life_ok l -> holding (place l) = [lease] -> life_ok (start_session l lease).
Proof.
  intros [Hl Hc Hcs Hle Hs] Hh. unfold start_session. destruct (acquire _ _) as [gc fl]. split; cbn; try done.
  - rewrite zlen_app, Hc. change (zlen [_]) with 1. unfold wrapping_add, wrap. by rewrite Zplus_mod_idemp_l.
  - intros i s Hi. apply lookup_snoc_Some in Hi as [[_ Hi]|[-> <-]]; [by apply Hcs|]. cbn. by rewrite Hc.
  - rewrite fmap_app. cbn. rewrite Hle, Hh, app_nil_r, <- app_assoc. apply Permutation_app_head. cbn.
    rewrite (app_assoc (unused l)). rewrite Permutation_app_comm. done.
  - intros s [= <-]. apply last_snoc.
Qed.

Lemma panics_ok l l' : life_ok l -> panics l = Some l' -> life_ok l'.
Proof.
  intros [Hl Hc Hcs Hle Hs] Hp. unfold panics in Hp.
  assert (exists p, p = (if engine_cancelled l then Left else Restarting) /\
    l' = mkLife p (endpoint_cursor l) (set_attempt (work l) 0) (engine_cancelled l) (drop_guard l) (starts l) (obtained l) (unused l)
           (lost l ++ holding (place l))) as (p & Ep & ->).
  { eexists. split; [reflexivity|]. destruct (place l); by simplify_eq. }
  assert (holding p = []) as Eh by (rewrite Ep; by destruct (engine_cancelled l)).
  split; cbn; try done.
  - rewrite Ep. destruct (engine_cancelled l); [by left|done].
  - rewrite Eh, app_nil_r. by rewrite Hle.
  - intros s. rewrite Ep. by destruct (engine_cancelled l).
Qed.

Lemma asks_ok l env : life_ok l -> place l = AtLease -> life_ok (asks l env).
Proof.
  intros H Hp. pose proof H as [Hl Hc Hcs Hle Hs]. unfold asks. cbn [obtain_lease since fetch stopped].
  destruct (unavailable (group (work l))) eqn:Eu.
  { apply (same_lists_ok l); try done; cbn; [by rewrite Hp|by right]. }
  destruct (get env (group (work l))) as [[[lease|] g] d].
  - split; cbn; try done. rewrite Hle, Hp, app_nil_r. cbn. by rewrite !app_assoc.
  - destruct (engine_cancelled l || unavailable g) eqn:Ex.
    + apply (same_lists_ok l); try done; cbn; [by rewrite Hp|]. intros _. by apply orb_prop.
    + apply (same_lists_ok l); try done; cbn; by rewrite Hp.
Qed.

Lemma passes_ok l go l' : life_ok l -> passes l go = Some l' -> life_ok l'.
Proof.
  intros H Hp. unfold passes, leave in Hp. destruct (place l) eqn:Ep; try done;
    (destruct go; [injection Hp as <-|]);
    try (by eapply leaves_ok; [..|exact Hp]; [|rewrite Ep]); try (apply starts_ok; [done|by rewrite Ep]);
    try (destruct (engine_cancelled l) eqn:Ec; [injection Hp as <-|done]);
    apply (same_lists_ok l); try done; cbn; try (by rewrite Ep); by left.
Qed.

Lemma session_ends_ok l start env e :
  life_ok l -> place l = InSession start -> implb (cancelled env) (engine_cancelled l) = true ->
  life_ok (session_ends l start env e).
Proof.
  intros H Hp Hc. unfold session_ends. pose proof (worker_persists env (used start) e (work l)) as Hw.
  destruct (after_session _ _ _ _) as [nx s]. apply (same_lists_ok l); try done; cbn.
  - rewrite Hp. by destruct nx.
  - intros st. by destruct nx.
  - destruct nx; [intros _|done|done]. destruct Hw as [Hw|Hw]; [left|by right]. by rewrite Hw in Hc.
Qed.

Lemma life_turn_ok l x l' : life_ok l -> life_turn l x = Some l' -> life_ok l'.
Proof.
  intros H. pose proof H as [Hl _ _ _ _]. unfold life_turn. destruct x as [|calls n gone|go|env|d|env e|].
  - intros [= <-]. apply (same_lists_ok l); try done. by left.
  - intros [= <-]. apply (same_lists_ok l); try done. cbn. intros Hp. destruct (Hl Hp) as [Hx| ->]; [by left|by right].
  - by apply passes_ok.
  - destruct (place l) eqn:Ep; try done. intros [= <-]. by apply asks_ok.
  - destruct (place l) as [| | | |start| | |] eqn:Ep; try done. destruct (get_config start); [|done]. intros [= <-].
    apply (same_lists_ok l); try done; cbn; by rewrite Ep.
  - destruct (place l) as [| | | |start| | |] eqn:Ep; try done. destruct (implb _ _) eqn:Ei; [|done]. intros [= <-].
    by apply session_ends_ok.
  - by apply panics_ok.
Qed.

Lemma life_run_ok xs : forall l l', life_ok l -> life_run l xs = Some l' -> life_ok l'.
Proof.
  induction xs as [|x xs IH]; intros l l' H; cbn; [by intros [= <-]|].
  destruct (life_turn l x) as [l1|] eqn:E; [|done]. cbn. apply IH. by eapply life_turn_ok.
Qed.

(** ** A worker comes back *)

(** Reports leave the call as it is. *)
Lemma changes_available env lease n s s' :
  (forall k g, others env k g = g) -> changes env lease n s s' -> unavailable (group s') = unavailable (group s).
Proof.
  intros Hid (moves & _ & ->). generalize (group s). induction moves as [|m moves IH]; intros g; [done|].
  cbn [foldl]. rewrite IH. destruct m as [k|c]; cbn [move]; [by rewrite Hid|done].
Qed.

(** Other credentials than the given ones. *)
Definition fresh_credentials (blocked : option TurnCredentials) : TurnCredentials :=
  mkCredentials (match blocked with Some c => tc_username c ++ [0] | None => [] end) [] [].

Lemma fresh_store s : exists s', store s (fresh_credentials (quota_blocked s)) = (true, s') /\ exists lease s'', reserve s' = (Some lease, s'').
Proof.
  unfold store. destruct (quota_blocked s) as [b|]; cbn [fresh_credentials].
  - destruct (same_turn_credentials b _) eqn:E.
    { apply same_credentials_spec in E. apply (f_equal (fun c => length (tc_username c))) in E. cbn in E. rewrite length_app in E. cbn in E. lia. }
    eexists. split; [reflexivity|]. eexists _, _. reflexivity.
  - eexists. split; [reflexivity|]. eexists _, _. reflexivity.
Qed.

(** The service gives credentials that the relay has not refused. *)
Definition served (g : GroupCredentials) : GetEnv :=
  mkGetEnv true false (Some (Ok (fresh_credentials (quota_blocked (snd (reserve (state g))))))) true 0.

Lemma served_lease g : unavailable g = false -> exists lease g' d, get (served g) g = (Some lease, g', d) /\ unavailable g' = false.
Proof.
  intros Hu. unfold get. rewrite Hu. destruct (reserve (state g)) as [[lease|] cache] eqn:Er; [by eexists _, _, _|].
  unfold served. rewrite Er. cbn. destruct (fresh_store cache) as (s' & -> & lease & s'' & Hr). rewrite Hr. by eexists _, _, _.
Qed.

(** From a place to the next session. *)
Definition to_session (l : Life) (xs : list Stimulus) : Prop :=
  exists l' s, life_run l xs = Some l' /\ place l' = InSession s /\ starts l' = starts l ++ [s].

Lemma to_session_step l x xs l1 : life_turn l x = Some l1 -> starts l1 = starts l -> to_session l1 xs -> to_session l (x :: xs).
Proof. intros Hx Hs (l' & s & Hr & Hp & Hst). exists l', s. cbn. rewrite Hx. cbn. by rewrite <- Hs. Qed.

Lemma from_gates_again l lease : place l = AtGatesAgain lease -> to_session l [Passed true].
Proof.
  intros Hp. unfold to_session. cbn. unfold passes. rewrite Hp. cbn. unfold start_session. destruct (acquire _ _) as [gc fl].
  eexists _, _. split; [reflexivity|]. split; reflexivity.
Qed.

Lemma from_pacer l lease : place l = AtPacer lease -> to_session l [Passed true; Passed true].
Proof.
  intros Hp. eapply to_session_step; [cbn; unfold passes; rewrite Hp; reflexivity|done|]. by eapply from_gates_again.
Qed.

Lemma from_lease l : place l = AtLease -> unavailable (group (work l)) = false ->
  to_session l [Asked (served (group (work l))); Passed true; Passed true].
Proof.
  intros Hp Hu. eapply to_session_step; [cbn; by rewrite Hp| |]; unfold asks; cbn [obtain_lease since fetch stopped]; rewrite Hu;
    destruct (served_lease _ Hu) as (lease & g' & d & -> & _); [done|]. by eapply from_pacer.
Qed.

Lemma from_gates l : place l = AtGates -> unavailable (group (work l)) = false ->
  to_session l [Passed true; Asked (served (group (work l))); Passed true; Passed true].
Proof.
  intros Hp Hu. eapply to_session_step; [cbn; unfold passes; rewrite Hp; reflexivity|done|]. by apply (from_lease (set_place l AtLease)).
Qed.

Lemma from_sleep l : place l = Resting \/ place l = Restarting -> unavailable (group (work l)) = false ->
  to_session l [Passed true; Passed true; Asked (served (group (work l))); Passed true; Passed true].
Proof.
  intros Hp Hu. eapply to_session_step; [cbn; unfold passes; destruct Hp as [-> | ->]; reflexivity|done|].
  by apply (from_gates (set_place l AtGates)).
Qed.

Lemma from_session l start env e : place l = InSession start -> unavailable (group (work l)) = false ->
  cancelled env = false -> (forall k g, others env k g = g) ->
  exists xs, (length xs <= 6)%nat /\ to_session l xs /\ forall x, x ∈ xs -> x = Ended env e \/ x = Passed true \/ exists g, x = Asked g.
Proof.
  intros Hp Hu Hc Hid. pose proof (worker_persists env (used start) e (work l)) as Hw.
  pose proof (session_changes env (used start) e (work l)) as Hch.
  assert (life_turn l (Ended env e) = Some (session_ends l start env e)) as Ht by (cbn; by rewrite Hp, Hc).
  unfold session_ends in Ht. destruct (after_session env (used start) e (work l)) as [nx s]. apply changes_available in Hch; [|done].
  rewrite Hu in Hch. destruct nx as [| |d].
  - destruct Hw as [Hw|Hw]; congruence.
  - eexists. split; [|split; [eapply to_session_step; [exact Ht|done|]; by apply from_gates|]]; [cbn; lia|].
    intros x Hx. repeat (apply elem_of_cons in Hx as [->|Hx]; [eauto|]). by apply not_elem_of_nil in Hx.
  - eexists. split; [|split; [eapply to_session_step; [exact Ht|done|]; apply from_sleep; [by left|done]|]]; [cbn; lia|].
    intros x Hx. repeat (apply elem_of_cons in Hx as [->|Hx]; [eauto|]). by apply not_elem_of_nil in Hx.
Qed.

Lemma comes_back l env e : place l <> Left -> unavailable (group (work l)) = false ->
  cancelled env = false -> (forall k g, others env k g = g) ->
  exists xs, (length xs <= 6)%nat /\ to_session l xs /\ forall x, x ∈ xs -> x = Ended env e \/ x = Passed true \/ exists g, x = Asked g.
Proof.
  intros Hn Hu Hc Hid. destruct (place l) as [| |lease|lease|start| | |] eqn:Hp; [..|done]; try (by eapply from_session);
    (eexists; split; [|split; [first [by eapply from_gates|by eapply from_lease|by eapply from_pacer|by eapply from_gates_again
      |eapply from_sleep; [by left|done]|eapply from_sleep; [by right|done]]|]]; [cbn; lia|]);
    intros x Hx; repeat (apply elem_of_cons in Hx as [->|Hx]; [eauto|]); by apply not_elem_of_nil in Hx.
Qed.

(** ** The sessions of a worker *)

Lemma turn_of_shift addresses id cursor k : turn_of addresses id (cursor + Z.of_nat k) 0 = turn_of addresses id cursor k.
Proof. unfold turn_of. do 3 f_equal. lia. Qed.

(** Consecutive sessions try every address of the relay first. *)
Lemma addresses_in_turn l addresses id a i :
  life_ok l -> zlen (starts l) < 2 ^ 64 -> (i + length addresses <= length (starts l))%nat -> a ∈ addresses ->
  exists k st, (k < length addresses)%nat /\ starts l !! (i + k)%nat = Some st /\ turn_of addresses id (turn_endpoint_cursor st) 0 = Some a.
Proof.
  intros H Hlen Hi Ha. destruct (turn_of_covers addresses id (Z.of_nat i) a Ha) as (k & Hk & Hka).
  destruct (lookup_lt_is_Some_2 (starts l) (i + k)) as [st Hst]; [lia|]. exists k, st. split; [done|]. split; [done|].
  rewrite (lo_cursors _ H _ _ Hst), wrap_small by (unfold is_u, zlen in *; pose proof (lookup_lt_Some _ _ _ Hst); lia).
  rewrite Nat2Z.inj_add, turn_of_shift. exact Hka.
Qed.

(** C13: A worker is never lost. Whatever its sessions end with, whatever the
    rest of its cohort does, and however often it panics, it has left for good
    only if the engine was cancelled or its call is gone; as long as neither is
    so it starts its next session within six turns of its own once the gates let it
    through and the service gives credentials. Consecutive sessions begin with
    each address of the relay in turn, across panics too. A lease it gets is
    used for one session, given back unused, in its hand, or lost in a panic. *)
Theorem worker_never_lost s xs l :
  life_run (life_start s) xs = Some l ->
  (place l = Left -> engine_cancelled l = true \/ unavailable (group (work l)) = true)
  /\ (engine_cancelled l = false -> unavailable (group (work l)) = false ->
      forall env e, cancelled env = false -> (forall k g, others env k g = g) ->
      exists ys l' start, (length ys <= 6)%nat /\ (forall y, y ∈ ys -> y = Ended env e \/ y = Passed true \/ exists g, y = Asked g)
        /\ life_run l ys = Some l' /\ place l' = InSession start /\ starts l' = starts l ++ [start])
  /\ (zlen (starts l) < 2 ^ 64 -> forall addresses id a i, a ∈ addresses -> (i + length addresses <= length (starts l))%nat ->
      exists k start, (k < length addresses)%nat /\ starts l !! (i + k)%nat = Some start
        /\ turn_of addresses id (turn_endpoint_cursor start) 0 = Some a)
  /\ obtained l ≡ₚ (used <$> starts l) ++ unused l ++ lost l ++ holding (place l).
Proof.
  intros Hr. pose proof (life_run_ok _ _ _ (life_start_ok s) Hr) as H. split; [by apply lo_left|]. split; [|split; [|by apply lo_leases]].
  - intros Hc Hu env e He Hid. destruct (comes_back l env e) as (ys & Hlen & (l' & st & Hrun & Hp & Hst) & Hys); [|done..|by exists ys, l', st].
    intros Hp. destruct (lo_left _ H Hp); congruence.
  - intros Hlen addresses id a i Ha Hi. by apply addresses_in_turn.
Qed.

(** Two sessions with a panic between them, and the third on its way. *)
Definition example_work : WorkerState :=
  mkWorkerState 0 (mkGroup default_cache 0 false) false (mkGates new_gate new_gate new_gate new_gate) [].
Definition calm : Surroundings := mkSurroundings ModeUdp 0 false false true 0 0 0 (fun _ => 0) (fun _ g => g).
Definition to_start : list Stimulus := [Passed true; Asked (served (mkGroup default_cache 0 false)); Passed true; Passed true].
Definition example_life : list Stimulus :=
  to_start ++ [Delivered true; Panicked; Passed true] ++ to_start
  ++ [Ended calm (mkSessionEnd (Ok true) true true true); Passed true; Passed true; Asked (served (mkGroup default_cache 0 false))].

Lemma worker_never_lost_witness :
  match life_run (life_start example_work) example_life with
  | Some l => (turn_endpoint_cursor <$> starts l) = [0; 1] /\ obtained l ≡ₚ (used <$> starts l) ++ unused l ++ lost l ++ holding (place l)
  | None => False
  end.
Proof.
  destruct (life_run (life_start example_work) example_life) as [l|] eqn:E; [|vm_compute in E; discriminate E].
  split; [vm_compute in E; injection E as <-; reflexivity|].
  exact (proj2 (proj2 (proj2 (worker_never_lost example_work example_life l E)))).
Defined.

(** A panic between the lease and its session: the lease is not given
    back, so that the credential counts a use that never was. *)
Lemma lease_lost_in_panic :
  match life_run (life_start example_work) [Passed true; Asked (served (mkGroup default_cache 0 false)); Panicked; Passed true] with
  | Some l => place l = AtGates /\ length (lost l) = 1%nat /\ starts l = []
      /\ exists c, current (state (group (work l))) = Some c /\ allocation_attempts c = 1
  | None => False
  end.
Proof. vm_compute. split; [done|]. split; [done|]. split; [done|]. by eexists. Qed.
