(* ===== verification/Registries.v ===== *)
(** * Registries: what the living sessions leave in the shared tables

    Models how [run_allocated_session] of [session.rs] enters a session into
    the coordinator of the farewell, the table of the dispatcher and the
    counters of live paths, and how its guards ([ShutdownRegistration],
    [WorkerRegistration], [ActiveConnection]) take it out again in the order in
    which Rust drops them, however the session ends. Each access to a shared
    object is a step, and the sessions of all workers interleave. The counters
    are exact below 2^31 sessions, which is their width. *)

From S2P Require Import Prelude Bytes Scheduler Shutdown Dispatcher.

(** ** A session by its next access *)

Inductive Stage : Type :=
| Fresh        (* takes its incarnation *)
| Asking       (* [request_configuration] *)
| Known        (* in the coordinator *)
| Placed       (* in the table *)
| Told         (* the host knows it is ready *)
| Counted      (* in [active_connections] *)
| Serving      (* in [ACTIVE_PATHS]; the loop of the session *)
| Leaving      (* its guards are dropped: out of [ACTIVE_PATHS] *)
| LastOut      (* found itself the last in [active_connections] *)
| Uncounted
| Unplaced     (* out of the table *)
| Over.

(** The channels of the session, where it is, and whether the coordinator
    listed it. *)
Record Session : Type := mkSession { channels : WorkerChannels; stage : Stage; listed : bool }.

Inductive Notice : Type := Ready (worker : Z) | ActiveZero.

(** The shared objects and the sessions. For the proofs: which incarnation of
    a worker was placed last, and how many sessions of the engine before have
    ended since this one cleared [ACTIVE_PATHS]. *)
Record World : Type := mkWorld {
  next_incarnation : Z;
  coordinator : @ShutdownCoordinator nat;
  table : list WorkerChannels;
  active_connections : Z;
  active_paths : Z;
  notices : list Notice;
  sessions : list Session;
  latest : gmap Z Z;
  older_ended : Z;
}.

Definition new_world (l : list WorkerChannels) : World :=
  mkWorld 1 new_coordinator [] 0 0 [] (map (fun c => mkSession c Fresh false) l) ∅ 0.

(** [ActiveConnection::new] and its drop, access by access. *)
Definition count_up (n : Z) : Z := n + 1.
Definition count_down (n : Z) : Z * bool := (n - 1, n =? 1).

Definition with_incarnation (c : WorkerChannels) (i : Z) : WorkerChannels :=
  mkWorker (id c) i (turn_path c) (latency c) (priority c) (bulk c) (healthy c).

Definition set_session (w : World) (k : nat) (s : Session) : World :=
  mkWorld (next_incarnation w) (coordinator w) (table w) (active_connections w) (active_paths w) (notices w)
    (<[k := s]> (sessions w)) (latest w) (older_ended w).
Definition go_to (w : World) (k : nat) (s : Session) (x : Stage) : World := set_session w k (mkSession (channels s) x (listed s)).

(** The next access of session [k]; [ok] is what its handshake came to. *)
Definition session_step (w : World) (k : nat) (ok : bool) : option World :=
  s ← sessions w !! k;
  let c := channels s in
  match stage s with
  | Fresh =>
      let i := Z.max (next_incarnation w) 1 in
      Some (mkWorld (wrapping_add 64 (next_incarnation w) 1) (coordinator w) (table w) (active_connections w) (active_paths w)
              (notices w) (<[k := mkSession (with_incarnation c i) Asking false]> (sessions w)) (latest w) (older_ended w))
  | Asking =>
      if ok then
        Some (mkWorld (next_incarnation w) (Shutdown.register (coordinator w) (incarnation_id c) k) (table w)
                (active_connections w) (active_paths w) (notices w)
                (<[k := mkSession c Known (negb (active (coordinator w)))]> (sessions w)) (latest w) (older_ended w))
      else Some (go_to w k s Over)
  | Known =>
      Some (mkWorld (next_incarnation w) (coordinator w) (register (table w) c) (active_connections w) (active_paths w)
              (notices w) (<[k := mkSession c Placed (listed s)]> (sessions w)) (<[id c := incarnation_id c]> (latest w)) (older_ended w))
  | Placed =>
      Some (mkWorld (next_incarnation w) (coordinator w) (table w) (active_connections w) (active_paths w)
              (notices w ++ [Ready (id c)]) (<[k := mkSession c Told (listed s)]> (sessions w)) (latest w) (older_ended w))
  | Told =>
      Some (mkWorld (next_incarnation w) (coordinator w) (table w) (count_up (active_connections w)) (active_paths w)
              (notices w) (<[k := mkSession c Counted (listed s)]> (sessions w)) (latest w) (older_ended w))
  | Counted =>
      Some (mkWorld (next_incarnation w) (coordinator w) (table w) (active_connections w) (count_up (active_paths w))
              (notices w) (<[k := mkSession c Serving (listed s)]> (sessions w)) (latest w) (older_ended w))
  | Serving =>
      Some (mkWorld (next_incarnation w) (coordinator w) (table w) (active_connections w) (fst (count_down (active_paths w)))
              (notices w) (<[k := mkSession c Leaving (listed s)]> (sessions w)) (latest w) (older_ended w))
  | Leaving =>
      let '(n, last) := count_down (active_connections w) in
      Some (mkWorld (next_incarnation w) (coordinator w) (table w) n (active_paths w) (notices w)
              (<[k := mkSession c (if last then LastOut else Uncounted) (listed s)]> (sessions w)) (latest w) (older_ended w))
  | LastOut =>
      Some (mkWorld (next_incarnation w) (coordinator w) (table w) (active_connections w) (active_paths w)
              (notices w ++ [ActiveZero]) (<[k := mkSession c Uncounted (listed s)]> (sessions w)) (latest w) (older_ended w))
  | Uncounted =>
      Some (mkWorld (next_incarnation w) (coordinator w) (unregister (table w) (id c) (incarnation_id c)) (active_connections w)
              (active_paths w) (notices w) (<[k := mkSession c Unplaced (listed s)]> (sessions w)) (latest w) (older_ended w))
  | Unplaced =>
      Some (mkWorld (next_incarnation w) (Shutdown.unregister (coordinator w) (incarnation_id c)) (table w)
              (active_connections w) (active_paths w) (notices w) (<[k := mkSession c Over (listed s)]> (sessions w)) (latest w) (older_ended w))
  | Over => None
  end.

Inductive Move : Type :=
| Steps (k : nat) (ok : bool)
| Spoke (k : nat)          (* the writer of a session marks its stream *)
| Farewell                 (* a worker leads the farewell *)
| OlderEnds.               (* a session of the engine before ends *)

Definition move (w : World) (m : Move) : option World :=
  match m with
  | Steps k ok => session_step w k ok
  | Spoke k =>
      s ← sessions w !! k;
      Some (mkWorld (next_incarnation w) (mark_activity (coordinator w) (incarnation_id (channels s))) (table w)
              (active_connections w) (active_paths w) (notices w) (sessions w) (latest w) (older_ended w))
  | Farewell =>
      Some (mkWorld (next_incarnation w) (snd (lead (coordinator w))) (table w) (active_connections w) (active_paths w)
              (notices w) (sessions w) (latest w) (older_ended w))
  | OlderEnds =>
      Some (mkWorld (next_incarnation w) (coordinator w) (table w) (active_connections w) (fst (count_down (active_paths w)))
              (notices w) (sessions w) (latest w) (older_ended w + 1))
  end.

Fixpoint moves (w : World) (l : list Move) : option World :=
  match l with [] => Some w | m :: l => w ← move w m; moves w l end.

(** ** What the shared objects should say *)

Definition begun (s : Session) : bool := match stage s with Fresh => false | _ => true end.
Definition known (s : Session) : bool :=
  match stage s with Fresh | Asking | Over => false | _ => true end.
Definition placed (s : Session) : bool :=
  match stage s with Placed | Told | Counted | Serving | Leaving | LastOut | Uncounted => true | _ => false end.
Definition connected (s : Session) : bool := match stage s with Counted | Serving | Leaving => true | _ => false end.
Definition serving (s : Session) : bool := match stage s with Serving => true | _ => false end.

(** How many sessions satisfy a test. *)
Definition tally (f : Session -> bool) (l : list Session) : Z := zlen (List.filter f l).

(** The incarnations taken, the streams listed, and the channels placed. *)
Definition taken (s : Session) : option Z := if begun s then Some (incarnation_id (channels s)) else None.
Definition stream_of (s : Session) : option Z := if known s && listed s then Some (incarnation_id (channels s)) else None.
Definition channels_of (s : Session) : option WorkerChannels := if placed s then Some (channels s) else None.

(** What the table, the coordinator and the counters say is what the sessions are. *)
Record exact (w : World) : Prop := {
  ex_next : next_incarnation w = 1 + tally begun (sessions w);
  ex_taken : forall k i, (taken <$> sessions w) !! k = Some (Some i) ->
    1 <= i < next_incarnation w /\ forall j, (taken <$> sessions w) !! j = Some (Some i) -> j = k;
  ex_streams : forall i, i ∈ Shutdown.incarnation_id <$> streams (coordinator w) <-> Some i ∈ stream_of <$> sessions w;
  ex_numbers : NoDup (map id (table w));
  ex_table : forall c, c ∈ table w <-> Some c ∈ channels_of <$> sessions w /\ latest w !! id c = Some (incarnation_id c);
  ex_connections : active_connections w = tally connected (sessions w);
  ex_paths : active_paths w = tally serving (sessions w) - older_ended w;
}.

(** ** One session changes *)

Lemma tally_update f l k s s' :
  l !! k = Some s -> tally f (<[k := s']> l) = tally f l - Z.b2z (f s) + Z.b2z (f s').
Proof.
  intros Hk. unfold tally. rewrite insert_take_drop by (by eapply lookup_lt_Some).
  assert (List.filter f l = List.filter f (take k l ++ s :: drop (S k) l)) as -> by (by rewrite take_drop_middle).
  rewrite !List.filter_app, !zlen_app. cbn [List.filter].
  destruct (f s), (f s'); rewrite ?zlen_cons; cbn [Z.b2z]; lia.
Qed.

Lemma tally_le f l : 0 <= tally f l <= zlen l.
Proof. unfold tally, zlen. pose proof (List.filter_length_le f l). lia. Qed.

(** A view of the sessions that the change does not touch. *)
Lemma view_same {A} (v : Session -> A) (l : list Session) (k : nat) s s' : l !! k = Some s -> v s' = v s -> v <$> <[k := s']> l = v <$> l.
Proof. intros Hk Hv. rewrite list_fmap_insert, Hv. apply list_insert_id. by rewrite list_lookup_fmap, Hk. Qed.

(** A view that gains or loses an entry at [k]. *)
Lemma view_elem {A} (v : Session -> option A) (l : list Session) (k : nat) s s' x : l !! k = Some s ->
  Some x ∈ v <$> <[k := s']> l <-> v s' = Some x \/ exists j y, j <> k /\ l !! j = Some y /\ v y = Some x.
Proof.
  intros Hk. rewrite list_elem_of_lookup. split.
  - intros [j Hj]. rewrite list_lookup_fmap in Hj. destruct (decide (j = k)) as [->|Hne].
    + rewrite list_lookup_insert_eq in Hj by (by eapply lookup_lt_Some). left. by simplify_eq/=.
    + rewrite list_lookup_insert_ne in Hj by done. destruct (l !! j) as [y|] eqn:E; [|done]. right. exists j, y. by simplify_eq/=.
  - intros [Hx|(j & y & Hne & Hj & Hx)].
    + exists k. rewrite list_lookup_fmap, list_lookup_insert_eq by (by eapply lookup_lt_Some). by cbn; rewrite Hx.
    + exists j. rewrite list_lookup_fmap, list_lookup_insert_ne by done. rewrite Hj. by cbn; rewrite Hx.
Qed.

Lemma view_elem_old {A} (v : Session -> option A) (l : list Session) (k : nat) s x : l !! k = Some s ->
  Some x ∈ v <$> l <-> v s = Some x \/ exists j y, j <> k /\ l !! j = Some y /\ v y = Some x.
Proof. intros Hk. pose proof (view_elem v l k s s x Hk) as Hv. by rewrite (list_insert_id l k s Hk) in Hv. Qed.

(** Who has taken the incarnation of session [k]. *)
Lemma taken_once w k s j y : exact w -> sessions w !! k = Some s -> begun s = true -> sessions w !! j = Some y -> begun y = true ->
  incarnation_id (channels y) = incarnation_id (channels s) -> j = k.
Proof.
  intros H Hk Hs Hj Hy He. apply (proj2 (ex_taken _ H k (incarnation_id (channels s)) ltac:(rewrite list_lookup_fmap, Hk; cbn; unfold taken; by rewrite Hs))).
  rewrite list_lookup_fmap, Hj. cbn. unfold taken. by rewrite Hy, He.
Qed.

(** A move that changes neither the table nor the coordinator, nor what a
    session has of them. *)
Lemma counting_exact w k s x n p notes :
  exact w -> sessions w !! k = Some s -> begun s = true ->
  let s' := mkSession (channels s) x (listed s) in
  begun s' = true -> known s' = known s -> placed s' = placed s ->
  n = active_connections w - Z.b2z (connected s) + Z.b2z (connected s') ->
  p = active_paths w - Z.b2z (serving s) + Z.b2z (serving s') ->
  exact (mkWorld (next_incarnation w) (coordinator w) (table w) n p notes (<[k := s']> (sessions w)) (latest w) (older_ended w)).
Proof.
  intros [H1 H2 H3 H4 H5 H6 H7] Hk Hb s' Hb' Hkn Hpl -> ->.
  assert (taken s' = taken s) as Et by (unfold taken; by rewrite Hb, Hb').
  assert (stream_of s' = stream_of s) as Es by (unfold stream_of; by rewrite Hkn).
  assert (channels_of s' = channels_of s) as Ec by (unfold channels_of; by rewrite Hpl).
  split; cbn; rewrite ?(view_same taken _ k s s' Hk Et), ?(view_same stream_of _ k s s' Hk Es), ?(view_same channels_of _ k s s' Hk Ec),
    ?(tally_update _ _ k s s' Hk); try done; try lia.
  rewrite Hb, Hb'. lia.
Qed.

(** ** The coordinator *)

Definition stream_ids (c : @ShutdownCoordinator nat) : list Z := Shutdown.incarnation_id <$> streams c.

Lemma stream_ids_register c i k : stream_ids (Shutdown.register c i k) = if active c then stream_ids c else stream_ids c ++ [i].
Proof. unfold Shutdown.register, take_activity, stream_ids. cbn. destruct (active c); [done|]. cbn. by rewrite fmap_app. Qed.

Lemma stream_ids_mark c i : stream_ids (mark_activity c i) = stream_ids c.
Proof.
  unfold mark_activity, take_activity, stream_ids. cbn. rewrite <- list_fmap_compose. apply list_fmap_ext.
  intros n x _. cbn. by destruct (Z.eqb_spec (Shutdown.incarnation_id x) i).
Qed.

Lemma stream_ids_lead c : stream_ids (snd (lead c)) = stream_ids c.
Proof. unfold lead. by destruct (active c). Qed.

Lemma stream_ids_unregister c i j : j ∈ stream_ids (Shutdown.unregister c i) <-> j ∈ stream_ids c /\ j <> i.
Proof.
  unfold Shutdown.unregister, stream_ids. cbn. rewrite !list_elem_of_fmap. split.
  - intros (x & -> & Hx). rewrite list_elem_of_In, filter_In, <- list_elem_of_In in Hx. destruct Hx as [Hx Hn%negb_true_iff%Z.eqb_neq].
    split; [|done]. by exists x.
  - intros [(x & -> & Hx) Hn]. exists x. split; [done|]. rewrite list_elem_of_In, filter_In, <- list_elem_of_In. split; [done|].
    by apply negb_true_iff, Z.eqb_neq.
Qed.

(** ** The steps that touch the registries *)

Lemma begin_exact w k s ok : exact w -> zlen (sessions w) < 2 ^ 64 - 1 -> sessions w !! k = Some s -> stage s = Fresh ->
  forall w', session_step w k ok = Some w' -> exact w'.
Proof.
  intros [H1 H2 H3 H4 H5 H6 H7] Hn Hk Hst w'. unfold session_step. rewrite Hk. cbn [mbind option_bind]. rewrite Hst. intros [= <-].
  set (s' := mkSession _ Asking false). assert (Hb : tally begun (sessions w) < zlen (sessions w)).
  { pose proof (tally_update begun (sessions w) k s s' Hk) as Hu. pose proof (tally_le begun (<[k := s']> (sessions w))) as Hl.
    unfold zlen in Hl. rewrite length_insert in Hl. unfold begun in Hu at 3. rewrite Hst in Hu. cbn in Hu. unfold zlen. lia. }
  pose proof (tally_le begun (sessions w)). assert (Hmax : Z.max (next_incarnation w) 1 = next_incarnation w) by lia.
  assert (Hw : wrapping_add 64 (next_incarnation w) 1 = next_incarnation w + 1) by (unfold wrapping_add; apply wrap_small; unfold is_u; lia).
  split; cbn; rewrite ?Hw, ?(tally_update _ _ k s s' Hk), ?(view_same stream_of _ k s s' Hk), ?(view_same channels_of _ k s s' Hk);
    try (unfold stream_of, channels_of, known, placed; rewrite Hst; done); try done.
  - assert (begun s = false) as -> by (unfold begun; by rewrite Hst). cbn. lia.
  - assert (Hv : forall j, (taken <$> <[k := s']> (sessions w)) !! j = if decide (j = k) then Some (Some (next_incarnation w)) else (taken <$> sessions w) !! j).
    { intros j. rewrite list_fmap_insert. destruct (decide (j = k)) as [->|Hne]; [|by rewrite list_lookup_insert_ne].
      rewrite list_lookup_insert_eq; [unfold taken, s'; cbn; by rewrite Hmax|]. rewrite length_fmap. by eapply lookup_lt_Some. }
    intros j i. rewrite Hv. destruct (decide (j = k)) as [->|Hne].
    + intros [= <-]. split; [lia|]. intros m. rewrite Hv. destruct (decide (m = k)) as [->|]; [done|]. intros Hm. apply H2 in Hm as [Hm _]. lia.
    + intros Hj. destruct (H2 j i Hj) as [Hr Hu]. split; [lia|]. intros m. rewrite Hv. destruct (decide (m = k)) as [->|]; [|apply Hu].
      intros [= <-]. lia.
  - assert (connected s = false) as -> by (unfold connected; by rewrite Hst). cbn. lia.
  - assert (serving s = false) as -> by (unfold serving; by rewrite Hst). cbn. lia.
Qed.

(** What stays of [exact] when session [k] goes from one stage to another with
    nothing counted, whatever happens to the coordinator and the table. *)
Lemma entered_exact w k s x li c t la :
  exact w -> sessions w !! k = Some s -> begun s = true ->
  let s' := mkSession (channels s) x li in
  begun s' = true -> connected s' = connected s -> serving s' = serving s ->
  (forall i, i ∈ stream_ids c <-> Some i ∈ stream_of <$> <[k := s']> (sessions w)) ->
  NoDup (map id t) ->
  (forall y, y ∈ t <-> Some y ∈ channels_of <$> <[k := s']> (sessions w) /\ la !! id y = Some (incarnation_id y)) ->
  exact (mkWorld (next_incarnation w) c t (active_connections w) (active_paths w) (notices w) (<[k := s']> (sessions w)) la (older_ended w)).
Proof.
  intros [H1 H2 H3 H4 H5 H6 H7] Hk Hb s' Hb' Hc Hsv Hstr Hnd Htab.
  assert (taken s' = taken s) as Et by (unfold taken; by rewrite Hb, Hb').
  split; cbn; rewrite ?(view_same taken _ k s s' Hk Et), ?(tally_update _ _ k s s' Hk), ?Hc, ?Hsv; try done; try lia.
  rewrite Hb, Hb'. lia.
Qed.

Lemma known_exact w k s : exact w -> sessions w !! k = Some s -> stage s = Asking ->
  forall w', session_step w k true = Some w' -> exact w'.
Proof.
  intros H Hk Hst w'. unfold session_step. rewrite Hk. cbn [mbind option_bind]. rewrite Hst. intros [= <-].
  eapply (entered_exact w k s Known); try done; try (unfold begun, connected, serving; by rewrite Hst); [|apply H|].
  - set (s' := mkSession _ Known _). intros i. rewrite (view_elem _ _ k s s' i Hk), stream_ids_register.
    pose proof (ex_streams _ H i) as Hs. rewrite (view_elem_old _ _ k s i Hk) in Hs. fold (stream_ids (coordinator w)) in Hs.
    assert (stream_of s = None) as En by (unfold stream_of, known; by rewrite Hst). rewrite En in Hs.
    unfold s', stream_of at 1. cbn. destruct (active (coordinator w)); cbn; [naive_solver|].
    rewrite elem_of_app, list_elem_of_singleton. naive_solver.
  - intros y. rewrite (view_same channels_of _ k s _ Hk); [apply H|]. unfold channels_of, placed. by rewrite Hst.
Qed.

Lemma placed_exact w k s ok : exact w -> sessions w !! k = Some s -> stage s = Known ->
  forall w', session_step w k ok = Some w' -> exact w'.
Proof.
  intros H Hk Hst w'. unfold session_step. rewrite Hk. cbn [mbind option_bind]. rewrite Hst. intros [= <-].
  destruct (table_updates (table w) (channels s) (ex_numbers _ H)) as (Hnd & Hreg & _).
  eapply (entered_exact w k s Placed); try done; try (unfold begun, connected, serving; by rewrite Hst).
  - intros i. rewrite (view_same stream_of _ k s _ Hk); [apply H|]. unfold stream_of, known. by rewrite Hst.
  - set (s' := mkSession _ Placed _). intros y. rewrite Hreg, (ex_table _ H), (view_elem _ _ k s s' y Hk), (view_elem_old _ _ k s y Hk).
    assert (channels_of s = None) as En by (unfold channels_of, placed; by rewrite Hst).
    assert (channels_of s' = Some (channels s)) as Es by done. rewrite En, Es. split.
    + intros [->|[[[Hx|Hx] Hl] Hne]]; [|done|].
      * split; [by left|apply lookup_insert_eq].
      * split; [by right|]. by rewrite lookup_insert_ne by congruence.
    + intros [[Hx|(j & z & Hne & Hj & Hz)] Hl]; [left; by simplify_eq|]. right.
      destruct (decide (id y = id (channels s))) as [He|He].
      * exfalso. rewrite He, lookup_insert_eq in Hl. apply Hne. unfold channels_of in Hz. destruct (placed z) eqn:Ep; [|done].
        injection Hz as <-. apply (taken_once w k s j z H Hk); [unfold begun; by rewrite Hst|done|unfold begun, placed in *; by destruct (stage z)|by simplify_eq].
      * split; [|done]. rewrite lookup_insert_ne in Hl by congruence. split; [right; by exists j, z|done].
Qed.

Lemma unplaced_exact w k s ok : exact w -> sessions w !! k = Some s -> stage s = Uncounted ->
  forall w', session_step w k ok = Some w' -> exact w'.
Proof.
  intros H Hk Hst w'. unfold session_step. rewrite Hk. cbn [mbind option_bind]. rewrite Hst. intros [= <-].
  destruct (table_updates (table w) (channels s) (ex_numbers _ H)) as (_ & _ & Hun).
  destruct (Hun (id (channels s)) (incarnation_id (channels s))) as [Hnd Hel].
  eapply (entered_exact w k s Unplaced); try done; try (unfold begun, connected, serving; by rewrite Hst).
  - intros i. rewrite (view_same stream_of _ k s _ Hk); [apply H|]. unfold stream_of, known. by rewrite Hst.
  - set (s' := mkSession _ Unplaced _). intros y. rewrite Hel, (ex_table _ H), (view_elem _ _ k s s' y Hk), (view_elem_old _ _ k s y Hk).
    assert (channels_of s = Some (channels s)) as En by (unfold channels_of, placed; by rewrite Hst).
    assert (channels_of s' = None) as Es by done. rewrite En, Es. split.
    + intros [[[Hx|Hx] Hl] Hne]; [|by split; [right|]]. simplify_eq. by destruct Hne.
    + intros [[Hx|Hx] Hl]; [done|]. split; [by split; [right|]|]. intros [He Hi]. destruct Hx as (j & z & Hne & Hj & Hz). apply Hne.
      unfold channels_of in Hz. destruct (placed z) eqn:Ep; [|done]. injection Hz as <-.
      apply (taken_once w k s j z H Hk); [unfold begun; by rewrite Hst|done|unfold begun, placed in *; by destruct (stage z)|done].
Qed.

Lemma over_exact w k s ok : exact w -> sessions w !! k = Some s -> stage s = Unplaced ->
  forall w', session_step w k ok = Some w' -> exact w'.
Proof.
  intros H Hk Hst w'. unfold session_step. rewrite Hk. cbn [mbind option_bind]. rewrite Hst. intros [= <-].
  eapply (entered_exact w k s Over); try done; try (unfold begun, connected, serving; by rewrite Hst); [|apply H|].
  - set (s' := mkSession _ Over _). intros i. rewrite (view_elem _ _ k s s' i Hk), stream_ids_unregister.
    pose proof (ex_streams _ H i) as Hs. fold (stream_ids (coordinator w)) in Hs. rewrite Hs, (view_elem_old _ _ k s i Hk).
    assert (stream_of s' = None) as -> by done. split.
    + intros [[Hx|Hx] Hne]; [|by right]. unfold stream_of in Hx. destruct (known s && listed s); [|done]. by simplify_eq.
    + intros [Hx|Hx]; [done|]. split; [by right|]. intros ->. destruct Hx as (j & z & Hne & Hj & Hz). apply Hne.
      unfold stream_of in Hz. destruct (known z && listed z) eqn:Ep; [|done]. apply andb_prop in Ep as [Ep _]. injection Hz as Hz.
      apply (taken_once w k s j z H Hk); [unfold begun; by rewrite Hst|done|unfold begun, known in *; by destruct (stage z)|done].
  - intros y. rewrite (view_same channels_of _ k s _ Hk); [apply H|]. unfold channels_of, placed. by rewrite Hst.
Qed.

Ltac counts Hst :=
  apply counting_exact; try done; unfold begun, known, placed, connected, serving, count_up, count_down; cbn; rewrite ?Hst;
  try destruct (_ =? 1); try done; cbn; lia.

Lemma step_exact w k ok w' : exact w -> zlen (sessions w) < 2 ^ 64 - 1 -> session_step w k ok = Some w' -> exact w'.
Proof.
  intros H Hn Hs. destruct (sessions w !! k) as [s|] eqn:Hk; [|by unfold session_step in Hs; rewrite Hk in Hs].
  destruct (stage s) eqn:Hst; try (by eapply begin_exact); try (by eapply placed_exact); try (by eapply unplaced_exact); try (by eapply over_exact).
  1: destruct ok; [by eapply known_exact|].
  all: unfold session_step in Hs; rewrite Hk in Hs; cbn [mbind option_bind] in Hs; rewrite Hst in Hs; unfold go_to, set_session, count_down in Hs; try discriminate; injection Hs as <-; counts Hst.
Qed.

(** What a view of the whole world does not see. *)
Lemma aside_exact w c p older : exact w -> stream_ids c = stream_ids (coordinator w) -> p = active_paths w + older_ended w - older ->
  exact (mkWorld (next_incarnation w) c (table w) (active_connections w) p (notices w) (sessions w) (latest w) older).
Proof.
  intros [H1 H2 H3 H4 H5 H6 H7] Hc ->. split; cbn; try done; try lia. intros i. fold (stream_ids c). rewrite Hc. apply H3.
Qed.

Lemma move_exact w m w' : exact w -> zlen (sessions w) < 2 ^ 64 - 1 -> move w m = Some w' -> exact w' /\ zlen (sessions w') = zlen (sessions w).
Proof.
  intros H Hn. destruct m as [k ok|k| |]; cbn [move].
  - intros Hs. split; [by eapply step_exact|]. unfold session_step in Hs. destruct (sessions w !! k) as [s|]; [|done].
    cbn [mbind option_bind] in Hs. unfold zlen. destruct (stage s), ok; unfold go_to, set_session, count_down in Hs; try discriminate Hs;
      injection Hs as <-; cbn; by rewrite length_insert.
  - destruct (sessions w !! k) as [s|]; [|done]. cbn [mbind option_bind]. intros [= <-]. split; [|done].
    apply aside_exact; [done|apply stream_ids_mark|lia].
  - intros [= <-]. split; [|done]. apply aside_exact; [done|apply stream_ids_lead|lia].
  - intros [= <-]. split; [|done]. apply aside_exact; [done|done|unfold count_down; cbn; lia].
Qed.

Lemma moves_exact ms : forall w w', exact w -> zlen (sessions w) < 2 ^ 64 - 1 -> moves w ms = Some w' -> exact w' /\ zlen (sessions w') = zlen (sessions w).
Proof.
  induction ms as [|m ms IH]; intros w w' H Hn; cbn [moves]; [by intros [= <-]|].
  destruct (move w m) as [w1|] eqn:E; [|done]. cbn [mbind option_bind]. destruct (move_exact w m w1 H Hn E) as [H1 Hl].
  rewrite <- Hl. apply IH; [done|lia].
Qed.

Lemma new_world_exact l : exact (new_world l).
Proof.
  assert (forall f, (forall c, f (mkSession c Fresh false) = false) -> tally f (sessions (new_world l)) = 0) as Ht.
  { intros f Hf. unfold tally, new_world. cbn. induction l as [|c l IH]; [done|]. cbn. by rewrite Hf. }
  assert (forall {A} (v : Session -> option A) x, (forall c, v (mkSession c Fresh false) = None) -> Some x ∉ v <$> sessions (new_world l)) as Hv.
  { intros A v x Hf Hx. unfold new_world in Hx. cbn in Hx. rewrite <- list_fmap_compose in Hx.
    apply list_elem_of_fmap in Hx as (c & Hc & _). cbn in Hc. by rewrite Hf in Hc. }
  split; cbn [new_world next_incarnation coordinator table active_connections active_paths latest older_ended].
  - by rewrite Ht.
  - intros k i Hk%list_elem_of_lookup_2. by apply Hv in Hk.
  - intros i. split; [intros Hi; by apply not_elem_of_nil in Hi|]. intros Hi. by apply Hv in Hi.
  - constructor.
  - intros c. split; [intros Hc; by apply not_elem_of_nil in Hc|]. intros [Hc _]. by apply Hv in Hc.
  - by rewrite Ht.
  - by rewrite Ht.
Qed.

Lemma tally_none f l : Forall (fun s => f s = false) l -> tally f l = 0.
Proof. unfold tally. induction 1 as [|s l Hs _ IH]; [done|]. cbn. by rewrite Hs. Qed.

Lemma nothing_in {A} (l : list A) : (forall x, x ∉ l) -> l = [].
Proof. destruct l as [|x l]; [done|]. intros H. destruct (H x). by constructor. Qed.

Definition at_rest (s : Session) : Prop := stage s = Fresh \/ stage s = Over.

(** C17: The shared tables say which sessions live. However the sessions of
    all workers interleave, and whether they fail or end, the dispatcher's
    table holds exactly the channels of the sessions between entering and
    leaving it that were the last of their worker to enter, one for
    each worker at most; the coordinator lists exactly the living sessions that
    entered before a farewell; the counter of connections is the number of the
    counted sessions, and that of paths the number of those that serve, less
    the sessions of the engine before that ended since; no incarnation is taken twice. When
    all sessions are over nothing of them is left. *)
Theorem registries_exact l ms w :
  zlen l < 2 ^ 64 - 1 -> moves (new_world l) ms = Some w ->
  NoDup (map id (table w))
  /\ (forall c, c ∈ table w <-> (exists s, s ∈ sessions w /\ placed s = true /\ channels s = c) /\ latest w !! id c = Some (incarnation_id c))
  /\ (forall i, i ∈ stream_ids (coordinator w) <-> exists s, s ∈ sessions w /\ known s = true /\ listed s = true /\ incarnation_id (channels s) = i)
  /\ active_connections w = tally connected (sessions w) /\ 0 <= active_connections w <= zlen l
  /\ active_paths w = tally serving (sessions w) - older_ended w
  /\ (forall j k s t, sessions w !! j = Some s -> sessions w !! k = Some t -> begun s = true -> begun t = true ->
        incarnation_id (channels s) = incarnation_id (channels t) -> j = k)
  /\ (Forall at_rest (sessions w) -> table w = [] /\ streams (coordinator w) = [] /\ active_connections w = 0).
Proof.
  intros Hn Hm. assert (zlen (sessions (new_world l)) = zlen l) as Hl by (unfold zlen, new_world; cbn; by rewrite length_map).
  destruct (moves_exact ms _ w (new_world_exact l) ltac:(lia) Hm) as [H Hz].
  assert (forall c, c ∈ table w <-> (exists s, s ∈ sessions w /\ placed s = true /\ channels s = c) /\ latest w !! id c = Some (incarnation_id c)) as Ht.
  { intros c. rewrite (ex_table _ H), list_elem_of_fmap. unfold channels_of. split; intros [(s & Hs & Hi) Hla]; (split; [|done]); exists s.
    - destruct (placed s); [|done]. by simplify_eq.
    - destruct Hi as [-> ->]. done. }
  assert (forall i, i ∈ stream_ids (coordinator w) <-> exists s, s ∈ sessions w /\ known s = true /\ listed s = true /\ incarnation_id (channels s) = i) as Hs.
  { intros i. unfold stream_ids. rewrite (ex_streams _ H), list_elem_of_fmap. unfold stream_of. split; intros (s & Hs); exists s.
    - destruct (known s), (listed s); destruct Hs as [Hs Hi]; try done. by simplify_eq/=.
    - destruct Hs as (Hi & -> & -> & ->). done. }
  split; [apply H|]. split; [done|]. split; [done|]. split; [apply H|]. split.
  { rewrite (ex_connections _ H). pose proof (tally_le connected (sessions w)). lia. }
  split; [apply H|]. split; [intros j k s t Hj Hk Hbs Hbt He; by apply (taken_once w k t j s H)|].
  intros Hr. rewrite Forall_forall in Hr. split; [|split].
  - apply nothing_in. intros c Hc. apply Ht in Hc as [(s & Hin & Hp & _) _]. unfold placed in Hp. by destruct (Hr s Hin) as [Hx|Hx]; rewrite Hx in Hp.
  - apply (fmap_nil_inv Shutdown.incarnation_id), nothing_in. intros i Hi. apply Hs in Hi as (s & Hin & Hp & _). unfold known in Hp.
    by destruct (Hr s Hin) as [Hx|Hx]; rewrite Hx in Hp.
  - rewrite (ex_connections _ H). apply tally_none, Forall_forall. intros s Hin. unfold connected. by destruct (Hr s Hin) as [Hx|Hx]; rewrite Hx.
Qed.

(** Two sessions of one worker, the second placed before the first has left. *)
Definition two_incarnations : list WorkerChannels := [sample_worker 4 [97]; sample_worker 4 [97]].
Definition overlapping : list Move :=
  replicate 7 (Steps 0 true) ++ replicate 4 (Steps 1 true) ++ [Spoke 0] ++ replicate 4 (Steps 0 true).

Lemma registries_exact_witness :
  match moves (new_world two_incarnations) overlapping with
  | Some w => map incarnation_id (table w) = [2] /\ active_connections w = 0 /\ 0 <= active_connections w <= zlen two_incarnations
  | None => False
  end.
Proof.
  destruct (moves (new_world two_incarnations) overlapping) as [w|] eqn:E; [|vm_compute in E; discriminate E].
  destruct (registries_exact two_incarnations overlapping w) as (_ & _ & _ & _ & Hb & _); [reflexivity|exact E|].
  assert (Some (map incarnation_id (table w), active_connections w) = Some ([2], 0)) as Hv.
  { change (((fun w => (map incarnation_id (table w), active_connections w)) <$> Some w) = Some ([2], 0)). rewrite <- E. vm_compute. reflexivity. }
  injection Hv as H1' H2'. split; [exact H1'|]. split; [exact H2'|exact Hb].
Defined.

(** The last of the sessions tells the host that no path is left after it has
    left the counter: another may have become ready meanwhile, and the host
    hears of it before. *)
Lemma zero_told_late :
  match moves (new_world [sample_worker 1 [97]; sample_worker 2 [98]])
          (replicate 8 (Steps 0 true) ++ replicate 6 (Steps 1 true) ++ [Steps 0 true]) with
  | Some w => notices w = [Ready 1; Ready 2; ActiveZero] /\ active_connections w = 1
  | None => False
  end.
Proof. vm_compute. by split. Qed.

(** A session of the engine before that ends after this one cleared the
    counter takes a path of this one away. *)
Lemma older_hides_path :
  match moves (new_world [sample_worker 1 [97]]) (replicate 6 (Steps 0 true) ++ [OlderEnds]) with
  | Some w => tally serving (sessions w) = 1 /\ active_paths w = 0
  | None => False
  end.
Proof. vm_compute. by split. Qed.
