(* ===== verification/Sockets.v ===== *)
(** * Sockets: how the engine reaches the network outside its own tunnel

    Models [protect.rs], the queries of [dns.rs] to a server, the attempts of
    [connect_transport] ([turn.rs]), [connect] of [turn_stream.rs] and
    [bind_udp] of [dispatcher.rs] as sequences of what they do to a socket.
    What the kernel, the network and the host's callback answer are
    arguments. *)

From Stdlib Require Import Strings.String.
From S2P Require Import Prelude Bytes Text TurnMessage TurnCore TurnEndpoint UdpBatch TurnApi Dns.

(** ** The hooks of the host *)

(** A [OnceLock]: the first value stays. *)
Definition set_once {A} (cell : option A) (x : A) : option A := match cell with None => Some x | Some _ => cell end.

(** The callback is told the socket, and what it answers is not read. *)
Definition ProtectCb : Type := Z -> Z.
Definition set_protect (cell : option ProtectCb) (cb : option ProtectCb) : option ProtectCb :=
  match cb with Some cb => set_once cell cb | None => cell end.

Definition set_http_proxy (cell : option text) (url : text) : option text :=
  if zlen url =? 0 then cell else set_once cell url.
(** The proxy of a client; [parse] is that of the library. *)
Definition with_http_proxy {P} (parse : text -> option P) (cell : option text) : option P :=
  match cell with None => None | Some url => parse url end.

(** ** What happens to a socket *)

Inductive SocketEffect : Type :=
| Opened (ipv4 : bool)
| Protected (answer : Z)
| Bound (address : SocketAddr)
| ConnectTo (server : SocketAddr)
| SentTo (wire : bytes) (server : SocketAddr)
| TlsHandshake (name : text).

Definition Traced (A : Type) : Type := (list SocketEffect * A)%type.
(** One part after the other; the second only after a success. *)
Definition andThen {A B E} (m : Traced (result A E)) (f : A -> Traced (result B E)) : Traced (result B E) :=
  match m with
  | (trace, Err e) => (trace, Err e)
  | (trace, Ok a) => let '(more, r) := f a in (trace ++ more, r)
  end.
Definition act {E} (x : SocketEffect) (r : result unit E) : Traced (result unit E) := ([x], r).
Definition silently {A E} (r : result A E) : Traced (result A E) := ([], r).

Section Engine.
Variables (callback : option ProtectCb) (descriptor : Z).

Definition protect : list SocketEffect := match callback with Some cb => [Protected (cb descriptor)] | None => [] end.

Inductive SocketError : Type :=
| SocketIo (e : IoError)
| DnsFailed (e : DnsError)
| LookupFailed (e : LookupError)
| NoHost | NoPort | EmptyDns
| NotTls | NeedsHostname | BadServerName | HandshakeFailed
| UdpCannotStream.

(** ** TCP *)

Definition EINPROGRESS : Z := 115.
(** [would_block] of [protect.rs], on Linux. *)
Definition still_connecting (e : IoError) : bool :=
  bool_decide (kind e = WouldBlock) || bool_decide (kind e = Interrupted) || bool_decide (raw_os_error e = Some EINPROGRESS).

(** What the kernel answers: the new socket, non-blocking mode, the connect,
    registering, waiting to be writable and
    the pending error. *)
Record TcpKernel : Type := mkTcpKernel {
  tcp_socket : result unit IoError;
  tcp_nonblocking : result unit IoError;
  tcp_connect : result unit IoError;
  tcp_register : result unit IoError;
  tcp_writable : result unit IoError;
  tcp_error : result (option IoError) IoError;
}.

Definition io {A} (r : result A IoError) : result A SocketError := match r with Ok a => Ok a | Err e => Err (SocketIo e) end.

Definition connect_tcp (k : TcpKernel) (server : SocketAddr) : Traced (result unit SocketError) :=
  andThen (act (Opened (is_ipv4 server)) (io (tcp_socket k))) (fun _ =>
  andThen (silently (io (tcp_nonblocking k))) (fun _ =>
  andThen (protect, Ok tt) (fun _ =>
  andThen (act (ConnectTo server)
             (match tcp_connect k with
              | Ok _ => Ok tt
              | Err e => if still_connecting e then Ok tt else Err (SocketIo e)
              end)) (fun _ =>
  andThen (silently (io (tcp_register k))) (fun _ =>
  andThen (silently (io (tcp_writable k))) (fun _ =>
  silently (match tcp_error k with
            | Err e | Ok (Some e) => Err (SocketIo e)
            | Ok None => Ok tt
            end))))))).

(** ** Streams of the relay *)

Variables (is_address : text -> bool) (is_server_name : text -> bool).

Definition tls_server_name (e : TurnEndpoint) : result text SocketError :=
  match transport e with
  | WireTls => if is_address (host e) then Err NeedsHostname else Ok (host e)
  | WireUdp | WireTcp => Err NotTls
  end.

(** [turn_stream::connect]; [handshake] is what the TLS connector makes of the
    name, whose certificates it checks. *)
Definition stream_connect (k : TcpKernel) (nodelay : result unit IoError) (handshake : text -> bool) (e : TurnEndpoint) (server : SocketAddr)
    : Traced (result unit SocketError) :=
  andThen (connect_tcp k server) (fun _ =>
  andThen (silently (io nodelay)) (fun _ =>
  match transport e with
  | WireTcp => silently (Ok tt)
  | WireTls =>
      andThen (silently (tls_server_name e)) (fun name =>
      if is_server_name name then act (TlsHandshake name) (if handshake name then Ok tt else Err HandshakeFailed)
      else silently (Err BadServerName))
  | WireUdp => silently (Err UdpCannotStream)
  end)).

(** ** Datagrams *)

Definition unspecified (ipv4 : bool) : SocketAddr := if ipv4 then V4 [0; 0; 0; 0] 0 else V6 (replicate 16 0) 0.

Definition udp_connect (bind connect : result unit IoError) (server : SocketAddr) : Traced (result unit SocketError) :=
  andThen ([Opened (is_ipv4 server); Bound (unspecified (is_ipv4 server))], io bind) (fun _ =>
  andThen (protect, Ok tt) (fun _ =>
  act (ConnectTo server) (io connect))).

(** The datagrams that come, each with its source, and how waiting for the
    next one ends if it does. *)
Fixpoint first_from (server : SocketAddr) (datagrams : list (bytes * SocketAddr)) (then_ : option IoError)
    : option (result bytes IoError) :=
  match datagrams with
  | [] => match then_ with Some e => Some (Err e) | None => None end
  | (wire, source) :: datagrams => if bool_decide (source = server) then Some (Ok wire) else first_from server datagrams then_
  end.

(** [query_dns_server]; [None] as long as it waits. A datagram is cut at 1500 bytes. *)
Definition query_dns_server (bind send : result unit IoError) (datagrams : list (bytes * SocketAddr)) (then_ : option IoError)
    (server : SocketAddr) (query : bytes) (query_id : Z) : Traced (res (option (result (list IpAddr) SocketError))) :=
  match andThen ([Opened true; Bound (unspecified true)], io bind) (fun _ =>
        andThen (protect, Ok tt) (fun _ => act (SentTo query server) (io send))) with
  | (trace, Err e) => (trace, Ret (Some (Err e)))
  | (trace, Ok _) =>
      (trace,
       match first_from server datagrams then_ with
       | None => Ret None
       | Some (Err e) => Ret (Some (Err (SocketIo e)))
       | Some (Ok wire) =>
           parsed ← parse_response (take 1500 wire) query_id;
           Ret (Some (match parsed with Ok l => Ok l | Err e => Err (DnsFailed e) end))
       end)
  end.

(** [bind_udp] of the dispatcher, over its attempts. *)
Fixpoint bind_trace (attempts : list (result unit IoError)) (address : SocketAddr) : list SocketEffect :=
  match attempts with
  | [] => [Opened true; Bound (V4 [127; 0; 0; 1] 0)] ++ protect
  | Ok _ :: _ => [Opened (is_ipv4 address); Bound address] ++ protect
  | Err _ :: attempts => [Opened (is_ipv4 address); Bound address] ++ bind_trace attempts address
  end.

(** ** An address of the relay *)

(** [resolve_socket]: the two parsers are those of the library; [lookup] is
    that of the resolver. *)
Definition resolve_socket (parse_socket : text -> option SocketAddr) (host_and_port : text -> option text * option Z)
    (lookup : text -> result (list IpAddr) LookupError) (authority : text) : result SocketAddr SocketError :=
  match parse_socket authority with
  | Some address => Ok address
  | None =>
      match host_and_port authority with
      | (None, _) => Err NoHost
      | (Some _, None) => Err NoPort
      | (Some host, Some port) =>
          match lookup host with
          | Err e => Err (LookupFailed e)
          | Ok [] => Err EmptyDns
          | Ok (Ipv4 octets :: _) => Ok (V4 octets port)
          | Ok (Ipv6 octets :: _) => Ok (V6 octets port)
          end
      end
  end.

(** What the network makes of an endpoint. *)
Record Attempt : Type := mkAttempt {
  resolved : text -> result SocketAddr SocketError;
  udp_bind : result unit IoError;
  udp_connected : result unit IoError;
  tcp_kernel : TcpKernel;
  tcp_nodelay : result unit IoError;
  tls_handshake : text -> bool;
}.

(** One turn of the loop of [connect_transport]. *)
Definition attempt_endpoint (net : TurnEndpoint -> Attempt) (e : TurnEndpoint) : Traced (result SocketAddr SocketError) :=
  let a := net e in
  andThen (silently (resolved a (socket_authority e))) (fun server =>
  andThen (match transport e with
           | WireUdp => udp_connect (udp_bind a) (udp_connected a) server
           | WireTcp | WireTls => stream_connect (tcp_kernel a) (tcp_nodelay a) (tls_handshake a) e server
           end) (fun _ => silently (Ok server))).

(** The whole of it: the endpoints in order until one connects. *)
Fixpoint connect_trace (net : TurnEndpoint -> Attempt) (endpoints : list TurnEndpoint) : list SocketEffect :=
  match endpoints with
  | [] => []
  | e :: endpoints =>
      let '(trace, r) := attempt_endpoint net e in
      trace ++ (if is_ok r then [] else connect_trace net endpoints)
  end.
Definition attempted (net : TurnEndpoint -> Attempt) (e : TurnEndpoint) : option SocketAddr :=
  match snd (attempt_endpoint net e) with Ok server => Some server | Err _ => None end.
End Engine.

(** ** No traffic before the host has seen the socket *)

(** Whether the last socket opened may be used, after a trace. *)
Fixpoint safe_after (hooked safe : bool) (trace : list SocketEffect) : bool :=
  match trace with
  | [] => safe
  | Opened _ :: trace => safe_after hooked (negb hooked) trace
  | Protected _ :: trace => safe_after hooked true trace
  | (Bound _ | ConnectTo _ | SentTo _ _ | TlsHandshake _) :: trace => safe_after hooked safe trace
  end.

(** A socket reaches the network only after the callback, if there is one, was told of it. *)
Fixpoint guarded (hooked safe : bool) (trace : list SocketEffect) : bool :=
  match trace with
  | [] => true
  | Opened _ :: trace => guarded hooked (negb hooked) trace
  | Protected _ :: trace => guarded hooked true trace
  | Bound _ :: trace => guarded hooked safe trace
  | (ConnectTo _ | SentTo _ _ | TlsHandshake _) :: trace => safe && guarded hooked safe trace
  end.

Lemma guarded_app hooked a b : forall safe, guarded hooked safe (a ++ b) = guarded hooked safe a && guarded hooked (safe_after hooked safe a) b.
Proof. induction a as [|x a IH]; intros safe; [done|]. destruct x; cbn; rewrite IH; try done; by rewrite andb_assoc. Qed.
Lemma safe_after_app hooked a b : forall safe, safe_after hooked safe (a ++ b) = safe_after hooked (safe_after hooked safe a) b.
Proof. induction a as [|x a IH]; intros safe; [done|]. destruct x; cbn; apply IH. Qed.

Section Guarded.
Context (callback : option ProtectCb) (descriptor : Z) (is_address is_server_name : text -> bool).
Abbreviation hooked := (bool_decide (is_Some callback)).

(** A part is fine when it is guarded from every state and leaves a socket
    that may be used when it succeeds. *)
Definition fine {A E} (from : bool) (m : Traced (result A E)) : Prop :=
  guarded hooked from (fst m) = true /\ (is_ok (snd m) = true -> safe_after hooked from (fst m) = true).

Lemma fine_then {A B E} from (m : Traced (result A E)) (f : A -> Traced (result B E)) :
  guarded hooked from (fst m) = true -> (forall a, snd m = Ok a -> fine (safe_after hooked from (fst m)) (f a)) -> fine from (andThen m f).
Proof.
  unfold fine. destruct m as [t [a|e]]; cbn; intros Ht Hf; [|by split].
  specialize (Hf a eq_refl). destruct (f a) as [more r]. cbn in *. rewrite guarded_app, safe_after_app, Ht. exact Hf.
Qed.

Lemma fine_silently {A E} (r : result A E) : fine true (silently r).
Proof. by split. Qed.
Lemma silently_then {A B E} (r : result A E) (f : A -> Traced (result B E)) from :
  (forall a, fine from (f a)) -> fine from (andThen (silently r) f).
Proof. intros Hf. apply fine_then; [done|]. intros a _. apply Hf. Qed.
Lemma act_then {B E} x (r : result unit E) (f : unit -> Traced (result B E)) from :
  guarded hooked from [x] = true -> (forall a, fine (safe_after hooked from [x]) (f a)) -> fine from (andThen (act x r) f).
Proof. intros Hx Hf. apply fine_then; [done|]. intros a _. apply Hf. Qed.
Lemma protect_then {B E} (f : unit -> Traced (result B E)) from :
  from = negb hooked \/ from = true -> (forall a, fine true (f a)) -> fine from (andThen (protect callback descriptor, Ok tt) f).
Proof.
  intros Hfrom Hf. apply fine_then; cbn; unfold protect.
  - by destruct callback.
  - intros a _. destruct callback as [cb|]; cbn; [apply Hf|]. destruct Hfrom as [->|Hfrom]; [apply Hf|subst; apply Hf].
Qed.

Lemma connect_tcp_fine k server from : fine from (connect_tcp callback descriptor k server).
Proof.
  unfold connect_tcp. apply act_then; [done|]. intros _. apply silently_then. intros _. apply protect_then; [by left|]. intros _.
  apply act_then; [done|]. intros _. do 2 (apply silently_then; intros _). apply fine_silently.
Qed.

Lemma stream_connect_fine k nodelay hs e server from :
  fine from (stream_connect callback descriptor is_address is_server_name k nodelay hs e server).
Proof.
  unfold stream_connect. destruct (connect_tcp_fine k server from) as [Hg Hs]. apply fine_then; [done|]. intros a Ha.
  rewrite Ha in Hs. rewrite Hs by done. apply silently_then. intros _. destruct (transport e); try apply fine_silently.
  apply silently_then. intros name. destruct (is_server_name name); [|apply fine_silently]. by split.
Qed.

Lemma udp_connect_fine bind conn server from : fine from (udp_connect callback descriptor bind conn server).
Proof.
  unfold udp_connect. apply fine_then; [done|]. intros a _. apply protect_then; [by left|]. intros _. by split.
Qed.

Lemma attempt_fine net e from : guarded hooked from (fst (attempt_endpoint callback descriptor is_address is_server_name net e)) = true
  /\ forall server, snd (attempt_endpoint callback descriptor is_address is_server_name net e) = Ok server ->
       safe_after hooked from (fst (attempt_endpoint callback descriptor is_address is_server_name net e)) = true.
Proof.
  unfold attempt_endpoint. set (m := andThen _ _). assert (guarded hooked from (fst m) = true /\ (is_ok (snd m) = true -> safe_after hooked from (fst m) = true)) as [Hg Hs].
  { apply silently_then. intros server. apply fine_then.
    - destruct (transport e); first [apply udp_connect_fine|apply stream_connect_fine].
    - intros a Ha. assert (safe_after hooked from (fst match transport e with
        | WireUdp => udp_connect callback descriptor (udp_bind (net e)) (udp_connected (net e)) server
        | WireTcp | WireTls => stream_connect callback descriptor is_address is_server_name (tcp_kernel (net e)) (tcp_nodelay (net e)) (tls_handshake (net e)) e server
        end) = true) as Hx.
      { destruct (transport e); [eapply udp_connect_fine|eapply stream_connect_fine|eapply stream_connect_fine]; by rewrite Ha. }
      by split. }
  split; [done|]. intros server Hr. apply Hs. by rewrite Hr.
Qed.

Lemma connect_trace_guarded net endpoints from :
  guarded hooked from (connect_trace callback descriptor is_address is_server_name net endpoints) = true
  /\ ((exists e server, e ∈ endpoints /\ attempted callback descriptor is_address is_server_name net e = Some server) ->
      safe_after hooked from (connect_trace callback descriptor is_address is_server_name net endpoints) = true).
Proof.
  revert from. induction endpoints as [|e endpoints IH]; intros from; cbn [connect_trace].
  { split; [done|]. intros (e & server & He & _). by apply not_elem_of_nil in He. }
  destruct (attempt_fine net e from) as [Hg Hs]. unfold attempted in *.
  destruct (attempt_endpoint callback descriptor is_address is_server_name net e) as [t r] eqn:Ea. cbn [fst snd] in *.
  rewrite guarded_app, safe_after_app, Hg. destruct r as [server|err]; cbn [is_ok andb].
  - split; [done|]. intros _. by eapply Hs.
  - destruct (IH (safe_after hooked from t)) as [IH1 IH2]. split; [done|]. intros (e' & server & He & Hok). apply IH2.
    apply elem_of_cons in He as [->|He]; [by rewrite Ea in Hok|by exists e', server].
Qed.

Lemma query_guarded bind send datagrams then_ server query query_id from :
  guarded hooked from (fst (query_dns_server callback descriptor bind send datagrams then_ server query query_id)) = true.
Proof.
  unfold query_dns_server. set (m := andThen _ _). assert (fine from m) as [Hg _].
  { apply fine_then; [done|]. intros a _. apply protect_then; [by left|]. intros _. by split. }
  by destruct m as [t [[]|]].
Qed.

Lemma bind_guarded attempts address from :
  guarded hooked from (bind_trace callback descriptor attempts address) = true
  /\ safe_after hooked from (bind_trace callback descriptor attempts address) = true.
Proof.
  revert from. induction attempts as [|[[]|e] attempts IH]; intros from; cbn [bind_trace app].
  - unfold protect. by destruct callback.
  - unfold protect. by destruct callback.
  - cbn. apply IH.
Qed.

(** A stream to an endpoint that asks for TLS has seen the handshake of its name. *)
Lemma tls_named net e server :
  transport e = WireTls -> attempted callback descriptor is_address is_server_name net e = Some server ->
  is_address (host e) = false /\ is_server_name (host e) = true /\ tls_handshake (net e) (host e) = true
  /\ last (fst (attempt_endpoint callback descriptor is_address is_server_name net e)) = Some (TlsHandshake (host e)).
Proof.
  intros Ht. unfold attempted, attempt_endpoint. rewrite Ht. destruct (resolved (net e) (socket_authority e)) as [sv|]; [|done].
  unfold stream_connect. cbn [andThen silently].
  destruct (connect_tcp callback descriptor (tcp_kernel (net e)) sv) as [t [a|]]; cbn [andThen]; [|done].
  destruct (io (tcp_nodelay (net e))) as [b|]; cbn [andThen silently]; [|done]. rewrite Ht. unfold tls_server_name. rewrite Ht.
  destruct (is_address (host e)); [done|]. cbn [andThen silently]. destruct (is_server_name (host e)); [|done].
  destruct (tls_handshake (net e) (host e)); [|done]. cbn. intros _. split; [done|]. split; [done|]. split; [done|].
  rewrite !app_nil_r. apply last_snoc.
Qed.

Lemma connected_one net endpoints failures value :
  connect_transport (attempted callback descriptor is_address is_server_name net) endpoints failures = Ok value ->
  exists e, e ∈ endpoints /\ attempted callback descriptor is_address is_server_name net e = Some value.
Proof.
  revert failures. induction endpoints as [|e endpoints IH]; intros failures; cbn [connect_transport]; [done|].
  destruct (attempted callback descriptor is_address is_server_name net e) as [x|] eqn:E.
  - intros [= ->]. exists e. split; [by constructor|done].
  - intros H. apply IH in H as (e' & He & Hx). exists e'. split; [by constructor|done].
Qed.
End Guarded.

(** C11: The engine speaks around its own tunnel. Whatever the kernel, the
    servers and the callback answer, no socket of the relay or of a DNS query
    connects or sends before the host's callback was told of it, nor is a local
    port used before; a relay that connects leaves such a socket, and
    that of a [turns:] address has passed a TLS handshake under the host that was to be
    connected to: the one given in place of the address's own, or else the address's own.
    It is a name and not a literal address. *)
Theorem protected_before_use callback descriptor is_address is_server_name net value override_host override_port mode endpoints :
  resolve_turn_endpoints value override_host override_port mode = Ok endpoints ->
  let hooked := bool_decide (is_Some callback) in
  let trace := connect_trace callback descriptor is_address is_server_name net endpoints in
  let connected := connect_transport (attempted callback descriptor is_address is_server_name net) endpoints [] in
  guarded hooked false trace = true
  /\ (is_ok connected = true -> safe_after hooked false trace = true)
  /\ (forall server scheme authority uri_transport, connected = Ok server -> parse_turn_uri value = Ok (scheme, authority, uri_transport) ->
        scheme = Turns -> exists e original number, endpoints = [e]
          /\ parse_authority authority scheme = Ok (original, number) /\ host e = default original (override_value override_host)
          /\ is_address (host e) = false /\ tls_handshake (net e) (host e) = true
          /\ last trace = Some (TlsHandshake (host e)))
  /\ (forall bind send datagrams then_ server query query_id,
        guarded hooked false (fst (query_dns_server callback descriptor bind send datagrams then_ server query query_id)) = true)
  /\ (forall attempts address, safe_after hooked false (bind_trace callback descriptor attempts address) = true).
Proof.
  intros Hres hooked trace connected. destruct (connect_trace_guarded callback descriptor is_address is_server_name net endpoints false) as [Hg Hs].
  split; [done|]. split; [|split; [|split]].
  - intros Hok. apply Hs. unfold connected in Hok. destruct (connect_transport _ endpoints []) as [x|] eqn:E; [|done].
    apply connected_one in E as (e & He & Hx). by exists e, x.
  - intros server scheme authority ut Hc Hu ->. destruct (resolve_endpoint _ _ _ _ _ Hres) as (sc & au & ut' & e & Hu' & -> & _ & _ & _ & Ht & _).
    rewrite Hu in Hu'. injection Hu' as <- <- <-. destruct (Ht eq_refl) as [_ Ht'].
    destruct (resolve_host _ _ _ _ _ _ _ _ Hres Hu) as (original & number & Ha & [Hh _]%Forall_cons).
    exists e, original, number. split; [done|]. split; [done|]. split; [exact Hh|].
    apply connected_one in Hc as (e' & He & Hx). apply list_elem_of_singleton in He as ->.
    destruct (tls_named callback descriptor is_address is_server_name net e server Ht' Hx) as (H1' & _ & H3' & H4'). split; [done|]. split; [done|].
    unfold trace. cbn [connect_trace]. unfold attempted in Hx.
    destruct (attempt_endpoint callback descriptor is_address is_server_name net e) as [t [x|]]; [|done]. cbn. by rewrite app_nil_r.
  - intros. apply query_guarded.
  - intros. apply bind_guarded.
Qed.

(** A kernel, a network and a callback that refuses. *)
Definition willing : TcpKernel := mkTcpKernel (Ok tt) (Ok tt) (Err (mkIo OtherKind (Some EINPROGRESS))) (Ok tt) (Ok tt) (Ok None).
Definition willing_net (e : TurnEndpoint) : Attempt :=
  mkAttempt (fun _ => Ok (V4 [192; 0; 2; 1] (port e))) (Ok tt) (Ok tt) willing (Ok tt) (fun _ => true).
Definition refusing : option ProtectCb := Some (fun _ => -1).

Lemma protected_before_use_witness :
  let address := ascii "turns:relay.example" in
  let given := Some (ascii " edge.example ") in
  let endpoints := [mkEndpoint (ascii "edge.example") 5349 WireTls] in
  let trace := connect_trace refusing 7 (fun _ => false) (fun _ => true) willing_net endpoints in
  resolve_turn_endpoints address given None ModeTcpTls = Ok endpoints
  /\ trace = [Opened true; Protected (-1); ConnectTo (V4 [192; 0; 2; 1] 5349); TlsHandshake (ascii "edge.example")]
  /\ guarded true false trace = true
  /\ exists e original number, endpoints = [e] /\ parse_authority (ascii "relay.example") Turns = Ok (original, number)
       /\ host e = default original (override_value given).
Proof.
  intros address given endpoints trace.
  assert (resolve_turn_endpoints address given None ModeTcpTls = Ok endpoints) as Hr by (vm_compute; reflexivity).
  destruct (protected_before_use refusing 7 (fun _ => false) (fun _ => true) willing_net _ _ _ _ _ Hr) as (Hg & _ & Ht & _).
  split; [exact Hr|]. split; [vm_compute; reflexivity|]. split; [exact Hg|].
  destruct (connect_transport (attempted refusing 7 (fun _ => false) (fun _ => true) willing_net) endpoints []) as [server|e] eqn:E.
  - destruct (Ht server Turns (ascii "relay.example") None) as (e & original & number & He & Ha & Hh & _);
      [reflexivity|vm_compute; reflexivity|reflexivity|].
    exists e, original, number. split; [exact He|]. split; [exact Ha|exact Hh].
  - exfalso. vm_compute in E. discriminate E.
Defined.

(** The callback's answer is not read: a socket that the host could not keep
    out of the tunnel connects all the same. *)
Lemma refused_socket_used :
  connect_tcp refusing 7 willing (V4 [192; 0; 2; 1] 3478) = ([Opened true; Protected (-1); ConnectTo (V4 [192; 0; 2; 1] 3478)], Ok tt).
Proof. reflexivity. Qed.

(** A proxy that cannot be parsed is none at all. *)
Lemma bad_proxy_dropped {P} url : 0 < zlen url -> @with_http_proxy P (fun _ => None) (set_http_proxy None url) = None.
Proof. intros Hu. unfold set_http_proxy. destruct (Z.eqb_spec (zlen url) 0); [lia|done]. Qed.

(** The first datagram of the asked server is the answer, whatever comes from others before. *)
Lemma strangers_ignored server datagrams wire rest then_ :
  Forall (fun d : bytes * SocketAddr => snd d <> server) datagrams ->
  first_from server (datagrams ++ (wire, server) :: rest) then_ = Some (Ok wire).
Proof.
  induction 1 as [|[w s] datagrams Hs _ IH]; cbn; [by rewrite bool_decide_eq_true_2|].
  cbn in Hs. by rewrite bool_decide_eq_false_2.
Qed.
