(* ===== verification/Creator.v ===== *)
(** * Creator: when the account that started the calls leaves them

    Models the rest of [lib.rs] around Auto JS: the workers that report a ready
    credential ([worker.rs]), [wait_for_js_credential_readiness], what [run]
    does with the calls at its end, the line from which the host hands over the
    account, the list of links to check, and the watch over the parent process. *)

From Stdlib Require Import Strings.String.
From S2P Require Import Prelude Bytes Text TurnCore Web WebClient Credentials Groups Engine CaptchaClient.

(** ** The wait for ready credentials *)

(** What the channel and the token bring; [biased] meets a cancellation first. *)
Inductive ReadyEvent : Type := CredentialReady (id : Z) | SendersGone | EngineCancelled.

(** [wait_for_js_credential_readiness]; [None] as long as it waits. *)
Fixpoint wait_for_js_credential_readiness (ready : gset Z) (expected : Z) (events : list ReadyEvent) : option bool :=
  if Z.of_nat (size ready) <? expected then
    match events with
    | [] => None
    | (EngineCancelled | SendersGone) :: _ => Some (Z.of_nat (size ready) =? expected)
    | CredentialReady id :: events => wait_for_js_credential_readiness ({[id]} ∪ ready) expected events
    end
  else Some (Z.of_nat (size ready) =? expected).

(** What the creator does in the call: nothing yet, or what [leave_creator] and [finish] do. *)
Inductive CreatorAct : Type := LeavesCalls | FinishesCalls.

(** [leave_js_creator_after_ready_workers]: it leaves in any case. *)
Definition leave_js_creator_after_ready_workers (expected : Z) (events : list ReadyEvent) : option (bool * list CreatorAct) :=
  match wait_for_js_credential_readiness ∅ expected events with
  | Some all_ready => Some (all_ready, [LeavesCalls])
  | None => None
  end.

Definition should_leave_js_creator (js_hash_mode js_auth_mode : bool) : bool := false.

(** The end of [run]: the task, if there is one, is given nine seconds, and then
    the calls are finished when the host asked for it and left when not. *)
Definition end_of_run (has_calls leaving : bool) (task : option (list CreatorAct)) (finish : bool) : list CreatorAct :=
  (if leaving && has_calls then default [] task else [])
  ++ (if has_calls then [if finish then FinishesCalls else LeavesCalls] else []).

(** [ready_task] of a worker: the credential it reports, if the session became ready. *)
Definition ready_task (ready wanted : bool) (credential : Z) : bool * list ReadyEvent :=
  (ready, if ready && wanted then [CredentialReady credential] else []).

(** The credentials reported before the engine is cancelled or no worker is left. *)
Fixpoint reported (events : list ReadyEvent) : list Z :=
  match events with
  | CredentialReady id :: events => id :: reported events
  | (SendersGone | EngineCancelled) :: _ | [] => []
  end.

Lemma wait_spec expected events : forall ready, Z.of_nat (size ready) <= expected ->
  wait_for_js_credential_readiness ready expected events = Some true
  <-> expected <= Z.of_nat (size (ready ∪ list_to_set (reported events))).
Proof.
  induction events as [|e events IH]; intros ready Hr; cbn [wait_for_js_credential_readiness reported].
  - cbn [list_to_set]. rewrite union_empty_r_L. destruct (Z.ltb_spec (Z.of_nat (size ready)) expected); [split; [done|lia]|].
    split; [lia|]. intros _. f_equal. lia.
  - destruct (Z.ltb_spec (Z.of_nat (size ready)) expected) as [Hlt|Hge].
    + assert (Hn : Some (Z.of_nat (size ready) =? expected) = Some true <-> expected <= Z.of_nat (size (ready ∪ list_to_set []))).
      { cbn. rewrite union_empty_r_L. split; [intros [= Hx]; lia|lia]. }
      destruct e as [id| |]; [|exact Hn|exact Hn]. rewrite IH.
      * cbn [list_to_set]. by replace ({[id]} ∪ ready ∪ list_to_set (reported events) : gset Z) with (ready ∪ ({[id]} ∪ list_to_set (reported events))) by set_solver.
      * destruct (decide (id ∈ ready)); [by rewrite subseteq_union_1_L by set_solver; lia|].
        rewrite size_union by set_solver. rewrite size_singleton. lia.
    + split; [intros _|intros _; f_equal; lia]. transitivity (Z.of_nat (size ready)); [lia|]. apply inj_le, subseteq_size. set_solver.
Qed.

(** The creator finds all ready exactly when so many different credentials were
    reported in time, whatever was reported twice. *)
Lemma all_ready_iff expected events : 0 <= expected ->
  wait_for_js_credential_readiness ∅ expected events = Some true <-> expected <= Z.of_nat (size (list_to_set (reported events) : gset Z)).
Proof. intros He. rewrite wait_spec by (rewrite size_empty; lia). by rewrite union_empty_l_L. Qed.

Lemma two_of_set (l : list Z) a b : a ∈ l -> b ∈ l -> a <> b -> 2 <= Z.of_nat (size (list_to_set l : gset Z)).
Proof.
  intros Ha Hb Hne. assert (size ({[a; b]} : gset Z) = 2%nat) as H2.
  { rewrite size_union by set_solver. by rewrite !size_singleton. }
  assert (size ({[a; b]} : gset Z) <= size (list_to_set l : gset Z))%nat; [|lia].
  apply subseteq_size. intros x Hx. apply elem_of_list_to_set. set_solver.
Qed.

(** As many different credentials as the wait asks for are given to the groups
    of every run, so that it can end. *)
Lemma ready_attainable groups hashes l : (0 < groups)%nat -> hashes <> [] -> run_groups groups hashes = Ret l ->
  required_js_ready_bots (Z.of_nat groups) <= Z.of_nat (size (list_to_set (map credential_id l) : gset Z)).
Proof.
  intros Hg Hne Hrun. destruct (groups_share groups hashes Hne) as (l' & Hl & Hlen & _ & _ & Hthree). rewrite Hrun in Hl. injection Hl as <-.
  unfold required_js_ready_bots, clamp, div_ceil, GROUPS_PER_CREDENTIAL.
  assert (forall i x, l !! i = Some x -> credential_id x ∈ map credential_id l) as Hin.
  { intros i x Hx. apply list_elem_of_fmap. exists x. split; [done|]. by eapply list_elem_of_lookup_2. }
  destruct (decide (groups <= 2)%nat) as [Hle|Hgt].
  - assert (Z.of_nat groups / 2 + (if Z.of_nat groups mod 2 =? 0 then 0 else 1) = 1) as -> by (assert (groups = 1 \/ groups = 2)%nat as [->| ->] by lia; reflexivity).
    destruct (lookup_lt_is_Some_2 l 0 ltac:(lia)) as [x Hx]. apply Hin in Hx.
    assert (size ({[credential_id x]} : gset Z) <= size (list_to_set (map credential_id l) : gset Z))%nat as Hs.
    { apply subseteq_size. intros y Hy%elem_of_singleton. subst. by apply elem_of_list_to_set. }
    rewrite size_singleton in Hs. change (Z.max 1 (Z.min 1 2)) with 1. lia.
  - destruct (lookup_lt_is_Some_2 l 0 ltac:(lia)) as [x Hx]. destruct (lookup_lt_is_Some_2 l 1 ltac:(lia)) as [y Hy].
    destruct (lookup_lt_is_Some_2 l 2 ltac:(lia)) as [z Hz]. pose proof (Hthree 0%nat 1%nat 2%nat x y z ltac:(lia) Hx Hy Hz) as Hno.
    destruct (decide (credential_id x = credential_id y)) as [He|He].
    + pose proof (two_of_set _ _ _ (Hin _ _ Hy) (Hin _ _ Hz)) as H2. lia || (destruct (decide (credential_id y = credential_id z)) as [He'|He']; [by destruct (Hno He)|specialize (H2 He'); lia]).
    + pose proof (two_of_set _ _ _ (Hin _ _ Hx) (Hin _ _ Hy) He). lia.
Qed.

(** As the code stands the creator never leaves on the ready credentials: the
    channel and the task are not made, whatever the mode. *)
Lemma creator_stays js_hash_mode js_auth_mode task finish :
  end_of_run true (should_leave_js_creator js_hash_mode js_auth_mode) task finish = [if finish then FinishesCalls else LeavesCalls].
Proof. done. Qed.

(** ** The account from the host *)

Definition BOOTSTRAP_PREFIX : text := ascii "VK_JS_BOOTSTRAP:".
Definition BOOTSTRAP_MAX : Z := 32 * 1024.

Inductive BootstrapError : Type := BootstrapTimeout | BootstrapUnreadable | BadFormat | TooLarge | NotBase64 | NotBootstrap.

Section Bootstrap.
Context `{Base64} {B : Type} (from_slice : bytes -> option B).

(** [read_vk_js_bootstrap]; [line] is what fifteen seconds of reading give, and
    [from_slice] the library's reader of the object. *)
Definition read_vk_js_bootstrap (line : option (option text)) : result B BootstrapError :=
  match line with
  | None => Err BootstrapTimeout
  | Some None => Err BootstrapUnreadable
  | Some (Some line) =>
      match strip_prefix BOOTSTRAP_PREFIX (trim line) with
      | None => Err BadFormat
      | Some encoded =>
          if BOOTSTRAP_MAX <? zlen (utf8 encoded) then Err TooLarge else
          match base64_decode encoded with
          | None => Err NotBase64
          | Some decoded => match from_slice decoded with Some b => Ok b | None => Err NotBootstrap end
          end
      end
  end.

(** Nothing is decoded that is longer than 32 KiB, and nothing is taken for the
    account that does not follow the prefix. *)
Lemma bootstrap_sound line b : read_vk_js_bootstrap line = Ok b ->
  exists l encoded decoded, line = Some (Some l) /\ trim l = BOOTSTRAP_PREFIX ++ encoded /\ zlen (utf8 encoded) <= BOOTSTRAP_MAX
    /\ base64_decode encoded = Some decoded /\ from_slice decoded = Some b.
Proof.
  unfold read_vk_js_bootstrap. destruct line as [[l|]|]; [|done|done]. destruct (strip_prefix BOOTSTRAP_PREFIX (trim l)) as [encoded|] eqn:Ep; [|done].
  destruct (Z.ltb_spec BOOTSTRAP_MAX (zlen (utf8 encoded))); [done|]. destruct (base64_decode encoded) as [decoded|] eqn:Ed; [|done].
  destruct (from_slice decoded) as [x|] eqn:Ef; [|done]. intros [= ->]. exists l, encoded, decoded. apply strip_prefix_Some in Ep. done.
Qed.
End Bootstrap.

(** ** The links to check *)

Definition comma : Z := 0x2c.

(** What [run_vk_hash_validation] checks, and with which client ids. *)
Definition hashes_to_check (vk client_ids : text) : option (list text * list text) :=
  match take (Z.to_nat MAX_VK_HASHES) (parse_hashes vk) with
  | [] => None
  | hashes => Some (hashes, filter (fun id => id <> []) (map trim (split comma client_ids)))
  end.

Lemma checked_links vk client_ids hashes ids : hashes_to_check vk client_ids = Some (hashes, ids) ->
  hashes <> [] /\ zlen hashes <= MAX_VK_HASHES /\ (exists rest, parse_hashes vk = hashes ++ rest) /\ Forall (fun id => id <> []) ids.
Proof.
  unfold hashes_to_check. destruct (take (Z.to_nat MAX_VK_HASHES) (parse_hashes vk)) as [|h hs] eqn:Et; [done|]. intros [= <- <-]. split; [done|].
  split; [|split].
  - rewrite <- Et. unfold zlen. rewrite length_take. unfold MAX_VK_HASHES. lia.
  - exists (drop (Z.to_nat MAX_VK_HASHES) (parse_hashes vk)). by rewrite <- Et, take_drop.
  - apply Forall_forall. intros id Hid. by apply list_elem_of_filter in Hid as [Hid _].
Qed.

(** ** The parent *)

(** The turns of [start_parent_monitor]: [None] for a cancellation before the
    two seconds are over, and else the parent that is found; the result is
    whether the monitor cancels the engine, if it ends. *)
Fixpoint parent_monitor (parent : Z) (turns : list (option Z)) : option bool :=
  match turns with
  | [] => None
  | None :: _ => Some false
  | Some now :: turns => if now =? parent then parent_monitor parent turns else Some true
  end.

(** The engine goes down with its parent, and not before. *)
Lemma orphan_stops parent turns rest p : Forall (fun t => t = Some parent) turns -> p <> parent ->
  parent_monitor parent turns = None /\ parent_monitor parent (turns ++ Some p :: rest) = Some true.
Proof.
  intros Ht Hp. induction Ht as [|t turns -> _ IH]; cbn; [|by rewrite Z.eqb_refl].
  split; [done|]. by destruct (Z.eqb_spec p parent).
Qed.
