(* ===== verification/LogSink.v ===== *)
(** * LogSink: where log lines go, and the wait for their writer

    Models [Sink] of [logging.rs], which gives an output up at its first
    failure, the two sinks behind the turns of the writer (Logger), and
    [wait_until] and [shutdown] against [mark_stopped], whose lock makes a
    check with the beginning of the wait one step. What an output makes of a
    write, and the clock, are arguments. *)

From Stdlib Require Import Strings.String.
From S2P Require Import Prelude Bytes ArrayQueue Text Protocol Logger.

(** ** A sink *)

(** What a write comes to: all of it, or a failure or a panic after some bytes. *)
Inductive WriteEnd : Type := Whole | Broken (after : nat).

Record Sink : Type := mkSink { disabled : bool; emitted : bytes }.
Definition new_sink : Sink := mkSink false [].

(** [write_all] one after the other, until one of them fails; what is left of
    the answers of the output is for the next line. *)
Fixpoint write_pieces (pieces : list bytes) (answers : list WriteEnd) (out : bytes) : bool * bytes * list WriteEnd :=
  match pieces with
  | [] => (true, out, answers)
  | piece :: pieces =>
      match answers with
      | Whole :: answers => write_pieces pieces answers (out ++ piece)
      | Broken n :: answers => (false, out ++ take n piece, answers)
      | [] => (true, out ++ concat (piece :: pieces), [])
      end
  end.

(** The writes of a line. *)
Definition line_pieces (line : bytes) (repetitions : Z) : list bytes :=
  [line] ++ (if 1 <? repetitions then [ascii " (x"; to_string repetitions; ascii ")"] else []) ++ [[0x0a]].

Definition write_line (s : Sink) (line : bytes) (repetitions : Z) (answers : list WriteEnd) : Sink * list WriteEnd :=
  if disabled s then (s, answers) else
  let '(ok, out, answers) := write_pieces (line_pieces line repetitions) answers (emitted s) in
  (mkSink (negb ok) out, answers).

Definition flush (s : Sink) (answer : WriteEnd) : Sink :=
  if disabled s then s else match answer with Whole => s | Broken _ => mkSink true (emitted s) end.

(** The lines of a run, to one sink. *)
Fixpoint write_lines (s : Sink) (lines : list (bytes * Z)) (answers : list WriteEnd) : Sink :=
  match lines with
  | [] => s
  | (line, repetitions) :: lines => let '(s, answers) := write_line s line repetitions answers in write_lines s lines answers
  end.

Definition line_text (l : bytes * Z) : bytes := concat (line_pieces (fst l) (snd l)).

Lemma write_pieces_spec pieces : forall answers out,
  let '(ok, out', rest) := write_pieces pieces answers out in
  if (ok : bool) then out' = out ++ concat pieces else exists cut, out' = out ++ cut /\ cut `prefix_of` concat pieces.
Proof.
  induction pieces as [|p pieces IH]; intros answers out; cbn [write_pieces]; [by rewrite app_nil_r|].
  destruct answers as [|[|n] answers]; [done| |].
  - specialize (IH answers (out ++ p)). destruct (write_pieces pieces answers (out ++ p)) as [[ok out'] rest]. destruct ok.
    + by rewrite IH, <- app_assoc.
    + destruct IH as (cut & -> & Hc). exists (p ++ cut). rewrite <- app_assoc. split; [done|]. cbn. by apply prefix_app.
  - exists (take n p). split; [done|]. cbn. apply prefix_app_r, prefix_take.
Qed.

Lemma disabled_silent lines : forall s answers, disabled s = true -> write_lines s lines answers = s.
Proof.
  induction lines as [|[line n] lines IH]; intros s answers Hd; cbn; [done|]. unfold write_line. rewrite Hd. by apply IH.
Qed.

(** What an output has got is always a beginning of the lines that were written
    to it, each whole and in order but for the last: an output that fails once is
    left alone, so that nothing follows a torn line. As long as it has not
    failed it has got everything. *)
Lemma sink_prefix lines : forall s answers,
  let s' := write_lines s lines answers in
  (exists cut, emitted s' = emitted s ++ cut /\ cut `prefix_of` concat (map line_text lines))
  /\ (disabled s' = false -> emitted s' = emitted s ++ concat (map line_text lines)).
Proof.
  induction lines as [|[line n] lines IH]; intros s answers; cbn [write_lines].
  { split; [exists []|intros _]; by rewrite app_nil_r. }
  unfold write_line. destruct (disabled s) eqn:Ed.
  { cbn [map concat]. rewrite disabled_silent by done. split; [exists []; split; [by rewrite app_nil_r|apply prefix_nil]|congruence]. }
  pose proof (write_pieces_spec (line_pieces line n) answers (emitted s)) as Hw.
  destruct (write_pieces _ answers (emitted s)) as [[ok out] rest]. change (concat (map line_text ((line, n) :: lines))) with (line_text (line, n) ++ concat (map line_text lines)).
  destruct ok; cbn [negb].
  - destruct (IH (mkSink false out) rest) as [(cut & He & Hc) Hall]. cbn [emitted] in *. rewrite Hw in *. split.
    + exists (line_text (line, n) ++ cut). rewrite He, <- app_assoc. split; [done|]. by apply prefix_app.
    + intros Hd. rewrite (Hall Hd). by rewrite <- app_assoc.
  - rewrite disabled_silent by done. cbn [emitted disabled]. split; [|done]. destruct Hw as (cut & -> & Hc). exists cut. split; [done|]. by apply prefix_app_r.
Qed.

(** The two sinks behind the turns of the writer. *)
Definition stdout_lines (out : list Output) : list (bytes * Z) := omap (fun o => match o with Stdout l => Some (l, 1) | Stderr _ _ => None end) out.
Definition stderr_lines (out : list Output) : list (bytes * Z) := omap (fun o => match o with Stderr l n => Some (l, n) | Stdout _ => None end) out.

(** ** The wait for the writer *)

(** A thread in [wait_until] with the time at which it gives up: before a
    check, asleep, woken by a notification or by its timeout, and back. *)
Inductive WaitAt : Type := Checks | Asleep | Woken (timed_out : bool) | WaitOver (result : bool).

Record Wait : Type := mkWait { stopped : bool; wait_at : WaitAt; now : Z; deadline : Z }.

(** One turn of the loop, with the lock held from the check to the wait. *)
Definition wait_turn (w : Wait) : Wait :=
  match wait_at w with
  | Checks =>
      mkWait (stopped w) (if stopped w then WaitOver true else if deadline w <=? now w then WaitOver false else Asleep) (now w) (deadline w)
  | Woken timed_out => mkWait (stopped w) (if timed_out && negb (stopped w) then WaitOver false else Checks) (now w) (deadline w)
  | Asleep | WaitOver _ => w
  end.

(** [mark_stopped], which stores and notifies under the lock. *)
Definition mark_stopped (w : Wait) : Wait :=
  mkWait true (match wait_at w with Asleep => Woken false | p => p end) (now w) (deadline w).

Inductive wait_step : Wait -> Wait -> Prop :=
| wait_turns w : wait_step w (wait_turn w)
| wait_marked w : wait_step w (mark_stopped w)
| wait_clock w t : now w <= t -> wait_step w (mkWait (stopped w) (wait_at w) t (deadline w))
| wait_spurious w : wait_at w = Asleep -> wait_step w (mkWait (stopped w) (Woken false) (now w) (deadline w))
| wait_timeout w : wait_at w = Asleep -> deadline w <= now w -> wait_step w (mkWait (stopped w) (Woken true) (now w) (deadline w)).

Definition wait_start (now timeout : Z) : Wait := mkWait false Checks now (now + timeout).

Definition wait_ok (w : Wait) : Prop :=
  (wait_at w = Asleep -> stopped w = false)
  /\ (wait_at w = Woken true -> deadline w <= now w)
  /\ (wait_at w = WaitOver true -> stopped w = true)
  /\ (wait_at w = WaitOver false -> deadline w <= now w).

Lemma wait_step_ok w w' : wait_ok w -> wait_step w w' -> wait_ok w'.
Proof.
  unfold wait_ok. intros (H1 & H2 & H3 & H4) Hst. destruct Hst as [w|w|w t Ht|w Ha|w Ha Hd]; cbn.
  - unfold wait_turn. destruct (wait_at w) as [| |b|r] eqn:Ew; cbn; rewrite ?Ew; try (by split_and!; try done; auto).
    + destruct (stopped w); [by split_and!|]. destruct (Z.leb_spec (deadline w) (now w)); by split_and!.
    + destruct b, (stopped w) eqn:Es; cbn; split_and!; try done. intros _. by apply H2.
  - destruct (wait_at w) as [| |b|r] eqn:Ew; split_and!; try done; auto.
  - split_and!; auto; intros Hx; [specialize (H2 Hx)|specialize (H4 Hx)]; lia.
  - by split_and!.
  - by split_and!.
Qed.

(** Whoever waits for the writer is told the truth and never sleeps through
    its end: the wait says yes only of a writer that has stopped and no only
    at its deadline; when the writer has stopped nobody is still asleep, and two
    turns later the wait is over. *)
Lemma wait_truthful timeout t0 w : rtc wait_step (wait_start t0 timeout) w ->
  (wait_at w = WaitOver true -> stopped w = true) /\ (wait_at w = WaitOver false -> deadline w <= now w)
  /\ (stopped w = true -> wait_at w <> Asleep
      /\ exists r, wait_at (wait_turn (wait_turn w)) = WaitOver r /\ (wait_at w <> WaitOver false -> r = true)).
Proof.
  intros Hr. assert (wait_ok w) as (H1 & H2 & H3 & H4).
  { revert w Hr. apply (rtc_ind_r wait_ok); [by split_and!|]. intros x y _ Hs Hx. by eapply wait_step_ok. }
  split; [done|]. split; [done|]. intros Hs. split; [intros Ha; specialize (H1 Ha); congruence|].
  destruct w as [st wa nw dl]. cbn in *. subst st. destruct wa as [| |b|r]; cbn.
  - by exists true.
  - by specialize (H1 eq_refl).
  - rewrite andb_false_r. by exists true.
  - exists r. split; [done|]. destruct r; [done|]. intros Hx. by destruct Hx.
Qed.
