(* ===== verification/Names.v ===== *)
(** * Names: the name under which a member joins a call

    Models [namegen.rs]: the three tables, the feminine form of a surname and
    the drawn name; the draws are arguments. *)

From Stdlib Require Import Strings.String Strings.Ascii.
From S2P Require Import Prelude Bytes Text.

(** The characters of a literal, whose bytes are the UTF-8 of letters of one or two bytes. *)
Fixpoint decode_letters (b : bytes) : text :=
  match b with
  | x :: ((y :: b) as rest) => if x <? 0x80 then x :: decode_letters rest else Z.lor (Z.shiftl (Z.land x 0x1f) 6) (Z.land y 0x3f) :: decode_letters b
  | _ => b
  end.
Definition letters (s : string) : text := decode_letters (ascii s).
Definition table (l : list string) : list text := map letters l.
Arguments table l%_list_scope.

Definition MALE : list text := table [
  "Александр"%string; "Алексей"%string; "Андрей"%string; "Антон"%string; "Арсений"%string; "Артур"%string;
  "Артём"%string; "Богдан"%string; "Валерий"%string; "Василий"%string; "Виктор"%string; "Владислав"%string;
  "Глеб"%string; "Григорий"%string; "Даниил"%string; "Денис"%string; "Дмитрий"%string; "Евгений"%string;
  "Егор"%string; "Иван"%string; "Игорь"%string; "Илья"%string; "Кирилл"%string; "Леонид"%string; "Максим"%string;
  "Марк"%string; "Матвей"%string; "Михаил"%string; "Никита"%string; "Николай"%string; "Олег"%string; "Павел"%string;
  "Пётр"%string; "Роман"%string; "Руслан"%string; "Сергей"%string; "Станислав"%string; "Тимофей"%string;
  "Фёдор"%string].

Definition FEMALE : list text := table [
  "Алина"%string; "Алёна"%string; "Анастасия"%string; "Ангелина"%string; "Анна"%string; "Вера"%string;
  "Вероника"%string; "Виктория"%string; "Дарья"%string; "Ева"%string; "Екатерина"%string; "Елена"%string;
  "Елизавета"%string; "Ирина"%string; "Кира"%string; "Кристина"%string; "Ксения"%string; "Любовь"%string;
  "Маргарита"%string; "Марина"%string; "Мария"%string; "Милана"%string; "Надежда"%string; "Наталья"%string;
  "Ольга"%string; "Полина"%string; "Светлана"%string; "София"%string; "Татьяна"%string; "Юлия"%string; "Яна"%string].

Definition LAST : list text := table [
  "Алексеев"%string; "Андреев"%string; "Антонов"%string; "Баранов"%string; "Белов"%string; "Белый"%string;
  "Бельский"%string; "Беляев"%string; "Борисов"%string; "Васильев"%string; "Великий"%string; "Волков"%string;
  "Воробьёв"%string; "Григорьев"%string; "Давыдов"%string; "Егоров"%string; "Жуков"%string; "Зайцев"%string;
  "Захаров"%string; "Иванов"%string; "Калинин"%string; "Ковалёв"%string; "Козлов"%string; "Комаров"%string;
  "Крамской"%string; "Кузнецов"%string; "Кузьмин"%string; "Лебедев"%string; "Макаров"%string; "Медведев"%string;
  "Михайлов"%string; "Морозов"%string; "Никитин"%string; "Николаев"%string; "Новиков"%string; "Орлов"%string;
  "Островский"%string; "Павлов"%string; "Петров"%string; "Покровский"%string; "Попов"%string; "Раевский"%string;
  "Романов"%string; "Семёнов"%string; "Сергеев"%string; "Смирнов"%string; "Соколов"%string; "Соловьёв"%string;
  "Степанов"%string; "Тарасов"%string; "Титов"%string; "Толстой"%string; "Трубецкой"%string; "Филиппов"%string;
  "Фролов"%string; "Фёдоров"%string; "Чайковский"%string; "Черный"%string; "Яковлев"%string].

(** [strip_suffix] of a text. *)
Definition without_suffix (suffix s : text) : option text :=
  match strip_prefix (rev suffix) (rev s) with Some r => Some (rev r) | None => None end.
Definition ends_with (suffix s : text) : bool := match without_suffix suffix s with Some _ => true | None => false end.

Definition female_surname (value : text) : text :=
  let stem :=
    match without_suffix (letters "ий") value with
    | Some stem => Some stem
    | None =>
        match without_suffix (letters "ый") value with
        | Some stem => Some stem
        | None => without_suffix (letters "ой") value
        end
    end in
  match stem with
  | Some stem => stem ++ letters "ая"
  | None =>
      if existsb (fun suffix => ends_with suffix value) (table ["ов"%string; "ев"%string; "ин"%string; "ын"%string; "ёв"%string])
      then value ++ letters "а" else value
  end.

(** [generate_name]: whether the member is a woman, whether the first name is
    enough, and the two draws, each below the length of its table. *)
Definition generate_name (female alone : bool) (first_draw last_draw : nat) : option text :=
  first ← (if female then FEMALE else MALE) !! first_draw;
  if alone then Some first else
  last ← LAST !! last_draw;
  Some (first ++ [0x20] ++ (if female then female_surname last else last)).

(** ** The tables *)

(** A capital letter, then small ones, of the Russian alphabet. *)
Definition small_letter (c : Z) : bool := ((0x430 <=? c) && (c <=? 0x44f)) || (c =? 0x451).
Definition proper_name (s : text) : bool :=
  match s with c :: rest => (0x410 <=? c) && (c <=? 0x42f) && forallb small_letter rest && (2 <=? zlen s) | [] => false end.

Lemma tables_proper : forallb proper_name (MALE ++ FEMALE ++ LAST) = true /\ NoDup MALE /\ NoDup FEMALE /\ NoDup LAST.
Proof. split; [by vm_compute|]. split; [|split]; apply (bool_decide_unpack _); by vm_compute. Qed.

(** Every surname of the table has a feminine form of its own. *)
Lemma feminine_forms : forallb (fun s => proper_name (female_surname s)
  && (ends_with (letters "ая") (female_surname s) || bytes_eqb (female_surname s) (s ++ letters "а"))) LAST = true
  /\ NoDup (map female_surname LAST).
Proof. split; [by vm_compute|]. apply (bool_decide_unpack _). by vm_compute. Qed.

Lemma forallb_lookup {A} (f : A -> bool) l i x : forallb f l = true -> l !! i = Some x -> f x = true.
Proof. intros H Hx. rewrite forallb_forall in H. apply H, list_elem_of_In. by eapply list_elem_of_lookup_2. Qed.

(** Whatever is drawn within the tables is a name: a first name of the right
    table, alone or with a surname, which a woman has in its feminine form. *)
Lemma drawn_name (female alone : bool) (i j : nat) :
  (i < length (if female then FEMALE else MALE))%nat -> (j < length LAST)%nat ->
  exists first, (if female then FEMALE else MALE) !! i = Some first /\ proper_name first = true
    /\ (if alone then generate_name female alone i j = Some first
        else exists last surname, LAST !! j = Some last /\ surname = (if female then female_surname last else last)
          /\ proper_name surname = true /\ generate_name female alone i j = Some (first ++ [0x20] ++ surname)).
Proof.
  intros Hi Hj. destruct (lookup_lt_is_Some_2 _ _ Hi) as [first Hf]. exists first. split; [done|].
  pose proof (proj1 tables_proper) as Hp. rewrite !forallb_app, !andb_true_iff in Hp. destruct Hp as (Hm & Hw & Hl). split.
  { destruct female; [exact (forallb_lookup _ _ _ _ Hw Hf)|exact (forallb_lookup _ _ _ _ Hm Hf)]. }
  unfold generate_name. replace ((if female then FEMALE else MALE) !! i) with (Some first) by (by rewrite <- Hf). cbn [mbind option_bind]. destruct alone; [done|].
  destruct (lookup_lt_is_Some_2 _ _ Hj) as [last Hla]. exists last, (if female then female_surname last else last). split; [done|]. split; [reflexivity|]. split; [|by rewrite Hla].
  destruct female; [|exact (forallb_lookup _ _ _ _ Hl Hla)]. pose proof (forallb_lookup _ _ _ _ (proj1 feminine_forms) Hla) as Hx. cbv beta in Hx.
  by apply andb_prop in Hx as [Hx _].
Qed.

Lemma drawn_example : generate_name true false 0 0 = Some (letters "Алина Алексеева").
Proof. vm_compute. reflexivity. Qed.
