(* ===== verification/Start.v ===== *)
(** * Start: the dispatcher from its start to its end

    Models [Dispatcher::start], [spawn_critical] and [shutdown] of
    [dispatcher.rs] and the receiver of interfaces of [tun.rs]: which way the
    packets of the device come, which queues accept returns from the beginning,
    what the end of a task means for the engine, and how an interface is taken
    from the socket of the host. What the kernel and the peers do is an
    argument; a file is named by its descriptor. *)

From Stdlib Require Import Strings.String.
From S2P Require Import Prelude Bytes Text FlowFrame Scheduler ArrayQueue PacketPool PacketQueue UdpBatch Dispatcher ReturnPath Protocol Uplink.

(** ** An interface from the host *)

(** The end of a wait for the listener, and of the accept that follows. *)
Inductive AcceptTurn : Type :=
| AcceptCancelled
| AcceptAgain
| AcceptFailed (e : IoError)
| Accepted (configured : result unit IoError).

(** The end of a wait for the connection, and of the receive that follows: the
    number of bytes, and the descriptors of each control message, [None] for
    one of another kind; [configured] is what setting up the file came to. *)
Inductive MessageTurn : Type :=
| MessageCancelled
| MessageAgain
| MessageFailed (e : IoError)
| Message (count : Z) (controls : list (option (list Z))) (configured : result unit IoError).

Inductive FdError : Type := WaitCancelled | ReceiveCancelled | FdIo (e : IoError) | ConnectionClosed | NoFd.

Fixpoint first_right (controls : list (option (list Z))) : option Z :=
  match controls with
  | [] => None
  | Some (fd :: _) :: _ => Some fd
  | (Some [] | None) :: controls => first_right controls
  end.

(** The second loop of [receive]; [None] as long as it waits. *)
Fixpoint receive_message (turns : list MessageTurn) : option (result Z FdError) :=
  match turns with
  | [] => None
  | MessageCancelled :: _ => Some (Err ReceiveCancelled)
  | MessageAgain :: turns => receive_message turns
  | MessageFailed e :: _ => Some (Err (FdIo e))
  | Message count controls configured :: _ =>
      Some (if count =? 0 then Err ConnectionClosed
            else match first_right controls with
                 | None => Err NoFd
                 | Some fd => match configured with Ok _ => Ok fd | Err e => Err (FdIo e) end
                 end)
  end.

(** [FdReceiver::receive], over the turns of its two loops. *)
Fixpoint receive (accepts : list AcceptTurn) (messages : list MessageTurn) : option (result Z FdError) :=
  match accepts with
  | [] => None
  | AcceptCancelled :: _ => Some (Err WaitCancelled)
  | AcceptAgain :: accepts => receive accepts messages
  | AcceptFailed e :: _ => Some (Err (FdIo e))
  | Accepted (Err e) :: _ => Some (Err (FdIo e))
  | Accepted (Ok _) :: _ => receive_message messages
  end.

(** The task that receives files: each turn is a call of [receive] that ended,
    with whether the engine was cancelled by then and whether the other task
    still takes files. The result is the files sent, the sleeps of 100 ms, and
    whether the task has ended. *)
Fixpoint receive_files (turns : list (result Z FdError * bool * bool)) : list Z * nat * bool :=
  match turns with
  | [] => ([], 0%nat, false)
  | (Ok fd, _, open) :: turns =>
      if open : bool then let '(files, sleeps, over) := receive_files turns in (fd :: files, sleeps, over) else ([], 0%nat, true)
  | (Err e, cancelled, _) :: turns =>
      if cancelled : bool then ([], 0%nat, true) else let '(files, sleeps, over) := receive_files turns in (files, S sleeps, over)
  end.

(** ** The start *)

Inductive Mode : Type := TunMode (uds : text) | BridgeMode | UdpMode.
Definition mode_of (tun_uds : option text) (packet_bridge : bool) : Mode :=
  match tun_uds with Some name => TunMode name | None => if packet_bridge then BridgeMode else UdpMode end.

Inductive TaskName : Type := TunDispatcher | TunFdReceiver | BridgeReader | BridgeWriter | UdpReader | UdpWriter.

Section Started.
Context {Q : Type -> Type} `{ArrayQueue Q}.

Record Started : Type := mkStarted { s_returns : @Returns Q; s_tasks : list TaskName; s_port : text; s_uplink : bool }.

Definition new_returns (active : bool) : @Returns Q :=
  mkReturns (packet_channel RETURN_LATENCY_CAPACITY active) (packet_channel RETURN_PRIORITY_CAPACITY active)
    (packet_channel RETURN_BULK_CAPACITY active).

(** [bound] is the port that [bind_udp] got, and [listening] what binding the
    socket of the host came to; [s_uplink] is whether packets of the host are
    taken from now on ([install_uplink]). *)
Definition start (tun_uds : option text) (packet_bridge : bool) (listening : result unit IoError) (bound : result Z IoError)
    : result Started IoError :=
  let returns := new_returns (match tun_uds with Some _ => false | None => true end) in
  match mode_of tun_uds packet_bridge with
  | TunMode _ => match listening with Ok _ => Ok (mkStarted returns [TunDispatcher; TunFdReceiver] (ascii "0") false) | Err e => Err e end
  | BridgeMode => Ok (mkStarted returns [BridgeReader; BridgeWriter] (ascii "0") true)
  | UdpMode => match bound with Ok port => Ok (mkStarted returns [UdpReader; UdpWriter] (to_string port) false) | Err e => Err e end
  end.

(** ** The end of a task *)

Inductive TaskEnd : Type := Finished | TaskPanicked | TaskAborted.
(** [spawn_critical]: whether the engine is cancelled with the task. *)
Definition spawn_critical (e : TaskEnd) : bool := match e with Finished => false | TaskPanicked | TaskAborted => true end.

(** [shutdown] after the cancellation: the tasks are joined in the order in
    which they were kept; [None] in the list is a task that has not ended. *)
Fixpoint join_all (tasks : list (option TaskEnd)) : option (list TaskEnd) :=
  match tasks with
  | [] => Some []
  | None :: _ => None
  | Some e :: tasks => match join_all tasks with Some ends => Some (e :: ends) | None => None end
  end.

(** ** What follows *)

Lemma packet_channel_good capacity active : queue_good (@packet_channel Q _ capacity active).
Proof.
  split; cbn; [split|]; rewrite ?aq_new_items, ?aq_new_capacity; [lia|rewrite zlen_nil; lia|constructor].
Qed.

(** What [start] leaves to the writers is what their turns keep. *)
Lemma start_good tun_uds packet_bridge listening bound s :
  start tun_uds packet_bridge listening bound = Ok s ->
  s_returns s = new_returns (match tun_uds with Some _ => false | None => true end) /\ returns_good (s_returns s).
Proof.
  intros Hs. assert (s_returns s = new_returns (match tun_uds with Some _ => false | None => true end)) as ->.
  { unfold start, mode_of in Hs. destruct tun_uds; [destruct listening|destruct packet_bridge; [|destruct bound]]; by simplify_eq. }
  split; [done|]. repeat split; apply packet_channel_good.
Qed.

(** After its first [resume] a queue that was inactive takes packets of epoch 1. *)
Lemma resumed_loads capacity : send_load (resume (@packet_channel Q _ capacity false)) = Some 1.
Proof. unfold send_load, resume, purge, steal. cbv zeta. destruct (pop_all _ _) as [xs q]. reflexivity. Qed.

(** Before the first interface has come the return queues take nothing and give
    every packet back, and its arrival makes them take packets; without an
    interface of the device they take packets from the start. *)
Lemma returns_from_start tun_uds packet_bridge listening bound s class p :
  start tun_uds packet_bridge listening bound = Ok s ->
  match tun_uds with
  | Some _ => force_send (return_queue (s_returns s) class) p = (return_queue (s_returns s) class, Err p)
      /\ send_load (return_queue (resume_all (s_returns s)) class) = Some 1
  | None => send_load (return_queue (s_returns s) class) = Some 0
  end.
Proof.
  intros Hs. destruct (start_good _ _ _ _ _ Hs) as [-> _].
  destruct tun_uds, class; cbn [return_queue resume_all new_returns r_latency r_priority r_bulk]; try split;
    solve [done|apply resumed_loads].
Qed.
End Started.

(** A file comes out only after a connection was accepted, from its first
    message of a byte or more that carries one. *)
Lemma received_from accepts messages fd :
  receive accepts messages = Some (Ok fd) ->
  exists n m count controls later rest, accepts = replicate n AcceptAgain ++ Accepted (Ok tt) :: later
    /\ messages = replicate m MessageAgain ++ Message count controls (Ok tt) :: rest
    /\ count <> 0 /\ first_right controls = Some fd.
Proof.
  induction accepts as [|a accepts IH]; [done|]. destruct a as [| |e|[[]|e]]; try done; cbn [receive].
  - intros Hr. destruct (IH Hr) as (n & m & count & controls & later & rest & -> & H). by exists (S n), m, count, controls, later, rest.
  - intros Hr. clear IH. exists 0%nat. induction messages as [|t messages IH]; [done|]. destruct t as [| |e|count controls configured]; try done; cbn in Hr.
    + destruct (IH Hr) as (m & count & controls & later & rest & Ha & -> & H). by exists (S m), count, controls, later, rest.
    + destruct (Z.eqb_spec count 0) as [|Hc]; [done|]. destruct (first_right controls) as [f|] eqn:Hf; [|done].
      destruct configured as [[]|]; [|done]. injection Hr as ->. by exists 0%nat, count, controls, accepts, messages.
Qed.

(** Once a peer is connected, [receive] waits for it alone: while it is silent
    nothing comes of the peers that connect after it, however many. *)
Lemma silent_peer_blocks n later m : receive (replicate n AcceptAgain ++ Accepted (Ok tt) :: later) (replicate m MessageAgain) = None.
Proof. induction n as [|n IH]; [|exact IH]. cbn. by induction m. Qed.

Lemma receive_cancelled n later m rest :
  receive (replicate n AcceptAgain ++ AcceptCancelled :: later) rest = Some (Err WaitCancelled)
  /\ receive (replicate n AcceptAgain ++ Accepted (Ok tt) :: later) (replicate m MessageAgain ++ MessageCancelled :: rest) = Some (Err ReceiveCancelled).
Proof. induction n as [|n IH]; [|exact IH]. split; [done|]. cbn. by induction m. Qed.

Definition rights (turns : list (result Z FdError * bool * bool)) : list Z := omap (fun t => match t.1.1 with Ok fd => Some fd | Err _ => None end) turns.

(** While the engine runs and the other task takes files, every file that comes
    is handed on, in order, and every failure costs one sleep. *)
Lemma files_handed_on turns :
  Forall (fun t : result Z FdError * bool * bool => t.1.2 = false /\ t.2 = true) turns ->
  receive_files turns = (rights turns, (length turns - length (rights turns))%nat, false)
  /\ (length (rights turns) <= length turns)%nat.
Proof.
  induction 1 as [|[[[fd|e] cancelled] open] turns [Hc Ho] Hl [IH Hn]]; [done|..]; cbn in Hc, Ho; subst;
    unfold rights in *; cbn; rewrite IH; (split; [f_equal; f_equal; lia|lia]).
Qed.

(** [shutdown] ends exactly when every task has ended, and then all are joined. *)
Lemma shutdown_joins tasks : is_Some (join_all tasks) <-> None ∉ tasks.
Proof.
  induction tasks as [|[e|] tasks IH]; cbn.
  - split; [intros _; apply not_elem_of_nil|by eexists].
  - rewrite not_elem_of_cons, <- IH. destruct (join_all tasks).
    + split; [by split|by eexists].
    + split; [by intros []|by intros [_ []]].
  - split; [by intros []|]. intros H. by destruct (H (list_elem_of_here _ _)).
Qed.
